(* ===== verification/_CoqProject ===== *)
-Q . S2P
Prelude.v
ModuleSort.v
PointerArray.v
CString.v
Argv.v
OpalList.v
ListSpec.v
ListRefines.v
HashTable.v
HashSpec.v
HashRefines.v
Bitmap.v
RingBuffer.v
Regex.v
Environ.v
Dss.v
ProcTable.v
Names.v
NameText.v
Fields.v
DssBuffer.v
DssStats.v
DssValue.v
DssCompare.v
Analytics.v
AnalyticsSpec.v
Sensor.v
OctlSensor.v
SensorSpec.v
Attr.v
Heartbeat.v
CfgiDt.v
CfgiSpec.v
CfgiBase.v
CfgiFile30.v
CfgiSystem.v
XmlLex.v
XmlDoc.v
XmlItems.v
XmlStruct.v
XmlRows.v
XmlParse.v
XmlSame.v
XmlSpec.v
XmlRead.v
Alloc.v
Scd.v
ScdFifo.v
ScdLemmas.v
ScdSpec.v
ScdRun.v
ScdQueues.v
RmRecv.v
RmSpec.v
ScdRecv.v
RecvSpec.v
ScdPower.v
Octl.v
OctlSpec.v
OctlLists.v
Pwrmgmt.v
PwrSpec.v
ScdSteps.v
ScdCases.v
OctlCases.v
Routed.v
RoutedOrcm.v
OrcmTree.v
OrcmLayout.v
OrcmRoutes.v
SystemSpec.v
SystemCases.v
XmlCases.v
RadixTree.v
RadixSpec.v
RadixRoutes.v
RouteTable.v
Diag.v
Cli.v
OctlRun.v
