(* ===== verification/Prelude.v ===== *)
(** * Verification of the Open Resilient Cluster Manager

    Open Resilient Cluster Manager (orcm) runs a cluster: tools send session requests to a
    scheduler daemon, which queues them, gives them nodes, sends them to the
    daemons of these nodes and takes the nodes back when the daemons report the end.  The
    daemons find each other by a configuration file, route messages along it, sample
    sensors and pass the samples up to aggregators, where workflows of analytics may be
    set up.  It is written in C on top of the Open MPI runtime (orte) and its portability
    layer (opal).  This development models the scheduler with its tools, the reading of the
    configuration, the routing of messages, the base of the sensors and of the analytics,
    the diagnostics, and the containers and message formats they are built from, and proves what they do.

    ** Parts, files and sources

    Foundations.
    - [Prelude]: return codes, C integers ([ck_int] is a computation whose overflow is
      undefined, [uwrap] and [swrap] are conversions), searches in lists, generic
      lemmas and the tactics of the development.  [ModuleSort]: the sort by priority that
      two frameworks share.
    - [PointerArray] (opal/class/opal_pointer_array.c): the growable table of pointers
      that holds the nodes and the topologies, with its counters.
    - [CString]: bytes as [ascii], strings up to their terminator, [strtol] and printing.
    - [Argv] (opal/util/argv.c): NULL-terminated arrays of strings, with the loops that
      shift and copy pointers.  [Environ] (opal/util/opal_environ.c): environments as maps.
    - [OpalList] (opal/class/opal_list.c): doubly linked lists with sentinels in a store of
      items, [ListSpec] and [ListRefines]: links and lengths against sequences.
    - [HashTable] (opal/class/opal_hash_table.c): open addressing with linear probing,
      growth and rehashing on removal, once for the three key types through the
      interface [HashKey]; [HashSpec] and [HashRefines]: the table against a finite map.
      [ProcTable]: the two-level table keyed by process names.
    - [Bitmap] (opal/class/opal_bitmap.c) and [BitmapSpec]: bitmaps against sets of numbers;
      [RingBuffer] (opal/class/opal_ring_buffer.c): against bounded sequences.
    - [Regex] and [RegexRange] (orte/util/regex.c): the compressed node lists, creation and
      expansion; processes per node and ranges of names.
    - [Names] and [NameText] (orte/util/name_fns.c): comparison of process names with
      wildcards, and names as text.

    Messages.
    - [Dss] (opal/dss): message buffers with their bytes, allocated size and read
      position; packing and unpacking, with and without type tags.  A computation on a
      buffer is [M A]: undefined, an error code or a value, with the buffer it leaves.
      [Fields]: runs of fields; [DssBuffer]: buffers in buffers; [DssStats]: statistics of
      processes and nodes; [DssValue]: keyed values; [DssCompare]: comparison, copies, peek
      and the table of types.
    - [Attr] (orte/util/attr.c, orte_dt_packing_fns.c, orte_dt_unpacking_fns.c): lists of
      typed attributes and their wire format.
    - [Alloc] (orcm/mca/scd/base/scd_dt_fns.c): the allocation, which is the body of a
      session request, and its wire format, 27 fields and a list of constraints.

    The scheduler and its tools.
    - [Scd] (scd_types.h, base.h, scd_base_fns.c, scd_base_rm_fns.c): the state of the
      scheduler, [orcm_scd_base_t]; sessions and nodes are references into heaps,
      since queues, events and the table of nodes share them; the two tables of states
      and the activation of a state, which appends an event; queues from the
      configuration; the interfaces [NodeRegex], [NodeRegexLaws] and [Rml].
    - [ScdFifo] (orcm/mca/scd/fifo/scd_fifo.c, scd_base_rm.c): the handlers of the two state
      machines, one definition per handler and per loop, and the turn of each event
      loop ([scd_turn], [rm_turn]).
    - [RmRecv] (scd_base_rm_recv.c, orcm/util/utils.c): the messages that change the state
      of nodes and report the end of a step.
    - [ScdRecv] and [ScdPower] (scd_base_recv.c, scd_base_frame.c): session requests and
      cancellations, power settings, listings and the dispatcher of all messages.
    - [Octl] (orcm/tools/octl: power.c, session.c, queue.c, resource.c): the commands, each
      with its request, its answer and what it prints.
    - [Cli] (orcm/util/cli.c): the tree of commands, completion, and the keys of the prompt;
      [OctlRun] (orcm/tools/octl: octl.c, octl.h): the table of octl and the function that
      calls the handlers of all its commands.
    - [Pwrmgmt] (orcm/mca/pwrmgmt): the choice of a module for an allocation and the way of
      a setting to the daemons of a session.
    - [ScdLemmas], [ScdSpec], [ScdRun], [ScdQueues], [RmSpec], [RecvSpec], [OctlSpec],
      [OctlLists], [PwrSpec]: what the loops, the handlers and the commands do;
      [ScdSteps]: the scheduler as a transition system; [ScdCases], [OctlCases],
      [PwrCases]: the interfaces instantiated with the code they stand for, the theorems
      at a concrete cluster, and runs in which requests overlap.

    The configuration and the routes.
    - [CfgiDt] (cfgi_types.h, cfgi_dt_fns.c): clusters, rows, racks, nodes and schedulers
      with their wire format and comparison, and [CfgiSpec]; [CfgiBase]
      (cfgi_base_stubs.c): hosts and daemons.
    - [XmlLex], [XmlItems], [XmlStruct], [XmlParse] (cfgi_file30.c): a configuration file is
      cut into items in place, checked, arranged in rows and turned into elements.
      [XmlDoc], [XmlRows], [XmlTyped], [XmlSame], [XmlObjects], [XmlSpec], [XmlRead],
      [XmlCases]: documents and the texts they may be written as, and that reading such a
      text gives the element of the document.
    - [CfgiFile30], [CfgiSystem] (cfgi_file30.c, orcm/util/utils.c): from elements to the
      system, the names of its processes and the definition that is packed.
    - [RoutedOrcm] (orte/mca/routed/orcm): the routes a daemon finds in the definition;
      [OrcmTree], [OrcmLayout], [OrcmRoutes], [SystemSpec], [SystemCases]: forwarding in
      the tree of a configured cluster.
    - [Routed] (orte/mca/routed/radix, orte/mca/routed/base): the routing plan of a daemon,
      routes, the table of routes to other job families, the lists for a broadcast.
      [RadixTree]: the tree as such; [RadixSpec]: the plan against it; [RadixRoutes]:
      messages passed from daemon to daemon; [RouteTable]: the table against a map.

    Monitoring.
    - [Sensor] (orcm/mca/sensor/base): selection, start and stop, samples, logging, and the
      messages for rates and policies; [OctlSensor] (orcm/tools/octl/sensor.c): the
      commands for them; [SensorSpec]: what they do together.  [Heartbeat]
      (orcm/mca/sensor/heartbeat): the module that sends the samples and the receiver that
      logs them.
    - [Diag] (orcm/mca/diag, orcm/tools/octl/diag.c): the tests of processors, memory and
      network cards, from the command to the database; [DiagSpec], a module of the same
      file: what they do.
    - [Progress] (orcm/runtime/orcm_progress.c): threads by name.  [Analytics]
      (orcm/mca/analytics/base) and [AnalyticsSpec]: workflows, created and deleted by
      messages.

    Some modules are in the file of the part they belong to: [BitmapSpec] in [Bitmap],
    [RegexRange] in [Regex], [PwrCases] in [OctlCases], [XmlTyped] in [XmlRows], [XmlObjects]
    in [XmlSame], [Progress] in [Analytics].

    A handler maps a state to the state it leaves, and to [None] when the C code has no
    defined behaviour: a NULL pointer used, an index outside its block, a signed
    overflow, a list item inserted while it is on a list.  So a theorem that a handler
    yields [Some] also says that none of this happens.

    ** What is proved

    - Data structures: the pointer table stores in its lowest free slot, grows, and keeps
      its counters exact; splitting undoes joining, deletion and insertion edit the range
      asked for.  Lists refine sequences, hash tables finite maps, bitmaps sets and ring
      buffers bounded sequences: a run of operations on the structure gives the results
      of the same run on the abstract object, and the invariant of the structure (links
      and counts, no gap between the home of a key and its entry) holds throughout.  A
      search of a hash table ends, within as many rounds as it has elements, exactly when
      the table has a free element or the key ([search_terminates]).
    - Round trips: node lists come back from their compressed form as the same names, if no
      name has two numbers; the 23 types of [dss_registered] come back from a buffer, in
      order, with nothing left over, and reading never leaves the buffer; allocations, clusters, statistics and
      values reach the receiver with every field, up to those the code does not send.
    - The scheduler: each handler on every branch, then composed: the head of the default
      queue gets the first free nodes and runs ([schedule_to_running]), its launch
      messages carry the allocation, the last report of its daemons terminates it, and
      termination restores every node ([scheduled_gives_back]).
    - Invariants over all interleavings of the two threads and all messages: a session
      object is in one place, and the handler that queues one finds it on no list
      ([reachable_exclusive], by induction on the steps).
    - The tool: a command that is typed is the command that is run ([octl_runs_commands]), with
      the right number of arguments or not at all ([octl_argument_count]); a tab completes
      by the tree ([cli_completions]).
    - Tools and scheduler together: what a user sets is what the user reads, for the power of
      the cluster ([power_set_get]) and for sensors ([policy_set_get]); for the power of a
      session nothing is defined ([session_power_undefined]); and listings show what there
      is ([resource_status_spec]).
    - Configuration: every text of an accepted document is read as the document
      ([read_config_document]), in the steps of the code ([lex_in_place],
      [structure_document], [structure_typed]), without the parameters of controllers, which
      overrun their block ([mca_params_overrun]); every process gets a name ([all_named]).
    - Routing: the plan a daemon computes is its place in the radix tree, forwarding reaches
      the target in at most as many hops as the two levels together ([route_reaches]),
      and a broadcast reaches every daemon once ([xcast_reaches_all]); in a configured
      cluster messages follow the tree of the configuration ([routes_follow_tree]) and are
      delivered, if the controllers are aggregators ([configured_cluster_delivers]).
    - Monitoring: one module for each quantity ([sensor_selection]); what is collected is
      sampled once ([sensor_data_once]), sent, and logged by the receiver
      ([samples_reach_log]); workflows and their threads belong together in every state
      the messages lead to ([analytics_invariant]), and a request for one step creates what
      it asks for ([oflow_creation]).  A test asked for is started on its nodes ([diag_started]), what
      it finds is recorded ([diag_results_recorded]), and the test of the memory, when
      its threads run, passes exactly when the memory keeps what is stored ([memtest_verdict]).
    - Messages: which nodes a state change touches and which of them become available,
      the nodes below a controller, what a request gets and how the power budget is shared.
    - Defects of the code, as theorems at the place where they show: overlapping requests,
      a failed allocation, a request for no nodes, a request dropped without an answer, a
      topology kept after it was destroyed, node names with two numbers, an index
      at the limit of the table, empty ranges of strings, an insertion that is counted
      twice, a bitmap length taken in words, a radix of zero, an array that is unpacked to
      NULL, a command that never ends, a workflow of two steps, a beat that is counted once,
      an array of words that is freed twice, threads that test behind their memory or are
      never created, an identifier of 8 bytes that is stored in 4.

    The clients are proved against interfaces and these are discharged: the scheduler
    against [NodeRegexLaws] (by [Regex.create_extract], in [ScdCases]), the wire formats
    against [Codec] and [Stays] (an instance for each type, collected by [registered_codec] and
    [registered_stays]), the hash table against
    [HashKey] (three instances), sorting of lists against [QsortLaws].

    ** Bounds and fuel

    Loops over arrays and queues recurse on the list or on its length.  The loops that
    consume a string (splitting, scanning a node list, a node expression and its ranges)
    take its length as fuel, one more where a last round runs on the empty rest: each
    round consumes at least one character.  Doubling the size of a buffer takes 11
    rounds, which take one byte past the threshold of 1,024 bytes above which the size is
    rounded up instead.  Printing a number takes one round for each of its bits.  A
    hash search takes as many rounds as the table has elements, a walk along a list as
    many as the store has items, the level of a rank one round more than the rank, the
    descent into the routing tree as many as there are daemons, a count of bits 64
    for each word, the sort of modules two for each slot and one more.  The lexer takes
    the size of the file, a directive what is left of the block, the stack of rows the
    number of rows, an element the number of objects.  The loops that read a message until
    it ends take its length and one more.  The lemmas on these loops prove that they
    return.  Three loops get their fuel from outside: the one over the nodes of the command
    that reads policies, which the code does not always leave ([policy_get_diverges]), the
    one over an inventory, where a module may put back what it has read, and the one that
    maps less and less memory, which ends within the number of pages ([memtest_verdict]).  A message in
    a configured cluster needs at most twice the height of its tree.  Integers have the
    width of the C type wherever the code can reach it; times and identifiers of
    allocations are 64 bits, process names 32.  The routing plan is proved for jobs with
    [num_procs * (radix + 1)^2 <= INT_MAX] ([fits]), which keeps every level within an int.

    ** What is not modelled

    Memory exhaustion (the allocator is an argument of the pointer table and of the tables
    that grow, and succeeds elsewhere), reference counts, locks, log output and printing.
    hwloc, libevent and the transport are third-party code or interfaces: events of a loop
    run in order of priority and then of activation, a topology is known by reference, a
    message is delivered with its bytes.  The components behind the frameworks (single
    sensors, analytics, databases, the calibration of diag pwr) read hardware or files, or
    call libraries that are not part of the repository; for the other tests the machine is
    given by what it answers.  The options before the commands of octl, the other tools and
    the main functions of the daemons set these parts up.  The launch of processes, I/O forwarding and the
    MPI side of the runtime are not used by the parts above.  Of the containers of
    opal/class, trees, graphs, value arrays and hotels have no client among them. *)

From Stdlib Require Import ZArith Lia.
From stdpp Require Import prelude numbers strings gmap list.

Local Open Scope Z_scope.

(** ** Return codes (opal/include/opal/constants.h) *)

Definition OPAL_SUCCESS : Z := 0.
Definition OPAL_ERROR : Z := -1.
Definition OPAL_ERR_OUT_OF_RESOURCE : Z := -2.
Definition OPAL_ERR_BAD_PARAM : Z := -5.
Definition OPAL_ERR_NOT_FOUND : Z := -13.
Definition OPAL_ERR_PACK_MISMATCH : Z := -22.
Definition OPAL_ERR_UNPACK_FAILURE : Z := -24.
Definition OPAL_ERR_UNPACK_INADEQUATE_SPACE : Z := -25.
Definition OPAL_ERR_UNPACK_READ_PAST_END_OF_BUFFER : Z := -26.
Definition OPAL_ERR_UNKNOWN_DATA_TYPE : Z := -29.
Definition OPAL_ERR_SILENT : Z := -43.

(** ** Machine integers *)

Definition INT_MAX : Z := 2147483647.
Definition INT_MIN : Z := -2147483648.

(** [ck_int z] is the value of a C [int] computation whose mathematical
    result is [z]: signed overflow has no defined behaviour ([None]). *)
Definition ck_int (z : Z) : option Z :=
  if (INT_MIN <=? z) && (z <=? INT_MAX) then Some z else None.

(** Unsigned conversion to [w] bits, and the two's complement reading. *)
Definition uwrap (w z : Z) : Z := z mod 2 ^ w.
Definition swrap (w z : Z) : Z :=
  let u := z mod 2 ^ w in if u <? 2 ^ (w - 1) then u else u - 2 ^ w.

(** ** Arrays indexed by C integers

    [None] is an access outside the allocated block. *)

Definition zget {A} (l : list A) (i : Z) : option A :=
  if i <? 0 then None else l !! Z.to_nat i.

Definition zset {A} (l : list A) (i : Z) (x : A) : option (list A) :=
  if (0 <=? i) && (i <? Z.of_nat (length l)) then Some (<[Z.to_nat i := x]> l) else None.

(** [first_from P l i n] is the loop [for (k = i; k < i + n; k++) if (P l[k]) break;]:
    the first index at or after [i], within [n] steps, whose element satisfies [P]. *)
Fixpoint first_from {A} (P : A → bool) (l : list A) (i : nat) (n : nat) : option nat :=
  match n with
  | O => None
  | S n' => match l !! i with
            | Some x => if P x then Some i else first_from P l (S i) n'
            | None => None
            end
  end.

(** ** Automation *)

Create HintDb orcm.

Ltac zbool :=
  repeat match goal with
  | H : context [(?a <? ?b)%Z] |- _ => destruct (Z.ltb_spec a b)
  | H : context [(?a <=? ?b)%Z] |- _ => destruct (Z.leb_spec a b)
  | H : context [(?a =? ?b)%Z] |- _ => destruct (Z.eqb_spec a b)
  | |- context [(?a <? ?b)%Z] => destruct (Z.ltb_spec a b)
  | |- context [(?a <=? ?b)%Z] => destruct (Z.leb_spec a b)
  | |- context [(?a =? ?b)%Z] => destruct (Z.eqb_spec a b)
  end; simpl in *.

(** [Forall P] on a literal list, element by element. *)
Ltac forall_list := repeat (apply Forall_cons_2; [try done|]); apply Forall_nil_2.

(** ** Shared lemmas *)

Lemma ck_int_Some z : INT_MIN ≤ z ≤ INT_MAX → ck_int z = Some z.
Proof. intros H. unfold ck_int. zbool; done || lia. Qed.

Lemma ck_int_inv z z' : ck_int z = Some z' → z' = z ∧ INT_MIN ≤ z ≤ INT_MAX.
Proof. unfold ck_int. intros. zbool; naive_solver lia. Qed.

Lemma zget_nat {A} (l : list A) (i : nat) : zget l (Z.of_nat i) = l !! i.
Proof. unfold zget. zbool; [lia|]. by rewrite Nat2Z.id. Qed.

Lemma zset_nat {A} (l : list A) (i : nat) x :
  (i < length l)%nat → zset l (Z.of_nat i) x = Some (<[i := x]> l).
Proof. intros H. unfold zset. zbool; try lia. by rewrite Nat2Z.id. Qed.

Lemma zget_in {A} (l : list A) i : 0 ≤ i → zget l i = l !! Z.to_nat i.
Proof. intros H. unfold zget. zbool; [lia|done]. Qed.

Lemma zset_in {A} (l : list A) i x :
  0 ≤ i < Z.of_nat (length l) → zset l i x = Some (<[Z.to_nat i := x]> l).
Proof. intros H. unfold zset. zbool; done || lia. Qed.

Lemma zget_Some {A} (l : list A) i :
  0 ≤ i < Z.of_nat (length l) → ∃ x, zget l i = Some x.
Proof.
  intros H. unfold zget. zbool; [lia|].
  apply lookup_lt_is_Some. lia.
Qed.

Section first_from.
Context {A : Type} (P : A → bool).
Implicit Types l : list A.

Lemma first_from_Some l i n k :
  first_from P l i n = Some k →
  (i ≤ k < i + n)%nat ∧ (∃ x, l !! k = Some x ∧ P x = true) ∧
  ∀ j y, (i ≤ j < k)%nat → l !! j = Some y → P y = false.
Proof.
  revert i. induction n as [|n IH]; intros i; simpl; [done|].
  destruct (l !! i) as [x|] eqn:Hi; [|done]. destruct (P x) eqn:HP.
  - intros [= <-]. split_and!; [lia|lia|eauto|]. intros; lia.
  - intros (H1 & H2 & H3)%IH. split_and!; [lia|lia|done|].
    intros j y Hj Hy. destruct (decide (j = i)) as [->|]; [congruence|].
    eapply H3; [|done]. lia.
Qed.

Lemma first_from_None l i n :
  first_from P l i n = None → (i + n ≤ length l)%nat →
  ∀ j y, (i ≤ j < i + n)%nat → l !! j = Some y → P y = false.
Proof.
  revert i. induction n as [|n IH]; intros i; simpl; [lia|].
  intros Hf Hl j y Hj Hy.
  destruct (lookup_lt_is_Some_2 l i) as [x Hx]; [lia|].
  rewrite Hx in Hf. destruct (P x) eqn:HP; [done|].
  destruct (decide (j = i)) as [->|]; [congruence|].
  eapply (IH (S i)); [done|lia| |done]. lia.
Qed.
End first_from.

Lemma insert_count {A} (P : A → Prop) `{∀ x, Decision (P x)} (l : list A) i x y :
  l !! i = Some y →
  (length (filter P (<[i:=x]> l)) + (if decide (P y) then 1 else 0) =
   length (filter P l) + (if decide (P x) then 1 else 0))%nat.
Proof.
  intros Hi. rewrite <-(take_drop_middle l i y Hi) at 2.
  rewrite insert_take_drop by (by eapply lookup_lt_Some).
  rewrite !list.filter_app, !length_app, !filter_cons.
  repeat case_decide; simpl; lia.
Qed.

(** A filter that every element passes. *)
Lemma filter_Forall {A} (P : A → Prop) `{∀ x, Decision (P x)} (l : list A) : Forall P l → filter P l = l.
Proof. induction 1 as [|x l Hx _ IH]; [done|]. rewrite filter_cons_True by done. by rewrite IH. Qed.

(** ** Concatenated lists *)

Section concat.
Context {A B : Type} (f : A → list B).

Lemma elem_of_concat_fmap l x : x ∈ concat (f <$> l) ↔ ∃ a, a ∈ l ∧ x ∈ f a.
Proof.
  induction l as [|a l IH].
  - split; [by intros ?%not_elem_of_nil|by intros (? & ?%not_elem_of_nil & _)].
  - change (concat (f <$> a :: l)) with (f a ++ concat (f <$> l)).
    rewrite elem_of_app, IH. setoid_rewrite elem_of_cons. split.
    + intros [?|(b & ? & ?)]; [by exists a; auto|by exists b; auto].
    + intros (b & [->|?] & ?); [by left|right; by exists b].
Qed.

(** In a concatenation without duplicates an element has one source. *)
Lemma NoDup_concat_source l a b x : NoDup (concat (f <$> l)) → a ∈ l → b ∈ l → x ∈ f a → x ∈ f b → a = b.
Proof.
  induction l as [|c l IH]; intros Hnd Ha Hb Hxa Hxb; [by apply not_elem_of_nil in Ha|].
  change (concat (f <$> c :: l)) with (f c ++ concat (f <$> l)) in Hnd. apply NoDup_app in Hnd as (_ & Hd & Hnd).
  apply elem_of_cons in Ha as [->|Ha], Hb as [->|Hb]; [done| | |by apply IH].
  - destruct (Hd x Hxa). apply elem_of_concat_fmap. by exists b.
  - destruct (Hd x Hxb). apply elem_of_concat_fmap. by exists a.
Qed.

Lemma NoDup_concat_part l a : NoDup (concat (f <$> l)) → a ∈ l → NoDup (f a).
Proof.
  induction l as [|c l IH]; intros Hnd Ha; [by apply not_elem_of_nil in Ha|].
  change (concat (f <$> c :: l)) with (f c ++ concat (f <$> l)) in Hnd. apply NoDup_app in Hnd as (Hc & _ & Hnd).
  apply elem_of_cons in Ha as [->|Ha]; [done|by apply IH].
Qed.
End concat.

Lemma NoDup_fmap_source {A B} (f : A → B) l a b : NoDup (f <$> l) → a ∈ l → b ∈ l → f a = f b → a = b.
Proof.
  intros Hnd [i Hi]%list_elem_of_lookup [j Hj]%list_elem_of_lookup E.
  assert (i = j) as <-; [|congruence]. eapply NoDup_lookup; [done|by rewrite list_lookup_fmap, Hi|].
  rewrite list_lookup_fmap, Hj. cbn. by rewrite E.
Qed.
