(* ===== verification/ModuleSort.v ===== *)
(** * The order of modules by priority

    The frameworks for power management and for sensors query their components, put the
    modules into a temporary array and take them over by falling priority, with the same two
    loops (pwrmgmt_base_select.c, sensor_base_select.c).  The lemmas say that the loops end
    and that the result is the stable sort. *)

From Stdlib Require Import ZArith Lia.
From stdpp Require Import prelude numbers list sorting.
From S2P Require Import Prelude.

Local Open Scope Z_scope.

Module ModuleSort.
Section sort.
Context {T : Type} (prio : T → Z).

(** [tmp] is the temporary array, NULL where a module has been taken out. *)

(** The inner loop: the first module of the highest priority above [p]. *)
Fixpoint highest (l : list (option T)) (i : nat) (p : Z) (low_i : option nat) : option nat :=
  match l with
  | [] => low_i
  | None :: rest => highest rest (S i) p low_i
  | Some m :: rest => if p <? prio m then highest rest (S i) (prio m) (Some i) else highest rest (S i) p low_i
  end.

(** The outer loop; the modules in the order they are added to the framework's array. *)
Fixpoint sort_loop (fuel : nat) (j : nat) (tmp : list (option T)) (modules : list T)
    : option (list T) :=
  match fuel with
  | O => None
  | S fuel =>
    if (length tmp <=? j)%nat then Some modules else
    match tmp !! j with
    | Some (Some tmp_module_sw) =>
        match highest tmp 0 (prio tmp_module_sw) None with
        | Some low_i =>
            match tmp !! low_i with
            | Some (Some tmp_module) => sort_loop fuel j (<[low_i := None]> tmp) (modules ++ [tmp_module])
            | _ => sort_loop fuel (S j) tmp modules
            end
        | None => sort_loop fuel (S j) (<[j := None]> tmp) (modules ++ [tmp_module_sw])
        end
    | _ => sort_loop fuel (S j) tmp modules
    end
  end.

Definition present (l : list (option T)) : list T := omap id l.

(** [m] is the first module of the highest priority: it comes after [A] and before [B]. *)
Definition first_highest (l : list (option T)) (k : nat) (m : T) : Prop :=
  ∃ A B, l = A ++ Some m :: B ∧ length A = k ∧ Forall (λ x, prio x < prio m) (present A) ∧
    Forall (λ x, prio x ≤ prio m) (present B).

Lemma highest_spec l : ∀ i p low,
  (highest l i p low = low ∧ Forall (λ x, prio x ≤ p) (present l)) ∨
  ∃ k m, highest l i p low = Some (i + k)%nat ∧ first_highest l k m ∧ p < prio m.
Proof.
  induction l as [|[m|] l IH]; intros i p low; cbn [highest].
  - left. split; [done|constructor].
  - destruct (Z.ltb_spec p (prio m)).
    + right. destruct (IH (S i) (prio m) (Some i)) as [[E Hall]|(k & m' & E & (A & B & -> & <- & HA & HB) & Hp)].
      * exists 0%nat, m. split_and!; [by rewrite Nat.add_0_r| |done]. exists [], l. split_and!; [done|done|constructor|done].
      * exists (S (length A)), m'. split_and!; [rewrite E; f_equal; lia| |lia].
        exists (Some m :: A), B. split_and!; [done|done|by constructor|done].
    + destruct (IH (S i) p low) as [[E Hall]|(k & m' & E & (A & B & -> & <- & HA & HB) & Hp)].
      * left. split; [done|]. constructor; [done|exact Hall].
      * right. exists (S (length A)), m'. split_and!; [rewrite E; f_equal; lia| |lia].
        exists (Some m :: A), B. split_and!; [done|done|constructor; [lia|done]|done].
  - destruct (IH (S i) p low) as [[E Hall]|(k & m' & E & (A & B & -> & <- & HA & HB) & Hp)].
    + left. by split.
    + right. exists (S (length A)), m'. split_and!; [rewrite E; f_equal; lia| |done].
      exists (None :: A), B. by split_and!.
Qed.

(** The result of sorting [l]: the same modules, by falling priority, those of one
    priority in the order they had. *)
Record sorted_of (l res : list T) : Prop := {
  so_perm : res ≡ₚ l;
  so_sorted : StronglySorted (λ a b, prio b ≤ prio a) res;
  so_stable p : filter (λ m, prio m = p) res = filter (λ m, prio m = p) l;
}.

Lemma present_app A B : present (A ++ B) = present A ++ present B.
Proof. apply omap_app. Qed.

Lemma sorted_pick tmp k m res : first_highest tmp k m → sorted_of (present (<[k := None]> tmp)) res →
  sorted_of (present tmp) (m :: res).
Proof.
  intros (A & B & -> & <- & HA & HB) [Hp Hs Hf].
  assert (<[length A := None]> (A ++ Some m :: B) = A ++ None :: B) as E.
  { rewrite insert_app_r_alt by lia. by rewrite Nat.sub_diag. }
  rewrite E, present_app in *. change (present (None :: B)) with (present B) in *.
  change (present (Some m :: B)) with (m :: present B). split.
  - by rewrite Hp, Permutation_middle.
  - constructor; [done|]. rewrite Hp. apply Forall_app. split; [|done]. eapply Forall_impl; [exact HA|]. cbn. lia.
  - intros p. rewrite filter_app in *. destruct (decide (prio m = p)) as [<-|Hne].
    + rewrite !filter_cons_True, Hf, filter_app by done.
      assert (filter (λ x, prio x = prio m) (present A) = []) as ->; [|done].
      clear -HA. induction HA as [|x l Hx _ IH]; [done|]. rewrite filter_cons_False by lia. done.
    + by rewrite !filter_cons_False, Hf, filter_app by done.
Qed.

Lemma present_insert tmp k m : tmp !! k = Some (Some m) → length (present tmp) = S (length (present (<[k := None]> tmp))).
Proof.
  intros Hk. rewrite <-(take_drop_middle tmp k _ Hk) at 1. rewrite insert_take_drop by (by eapply lookup_lt_Some).
  rewrite !present_app. cbn. rewrite !length_app. cbn. lia.
Qed.

Lemma none_below tmp j : (∀ i, (i < j)%nat → (i < length tmp)%nat → tmp !! i = Some None) → (j ≤ length tmp)%nat →
  present (take j tmp) = [].
Proof.
  intros Hj Hle. assert (∀ n, (n ≤ j)%nat → present (take n tmp) = []) as HH; [|by apply HH].
  induction n as [|n IHn]; intros Hn; [done|]. rewrite (take_S_r tmp n None) by (apply Hj; lia).
  rewrite present_app, IHn by lia. done.
Qed.

Lemma sort_loop_spec fuel : ∀ j tmp out, (∀ i, (i < j)%nat → (i < length tmp)%nat → tmp !! i = Some None) →
  (j ≤ length tmp)%nat → (length tmp - j + length (present tmp) < fuel)%nat →
  ∃ res, sort_loop fuel j tmp out = Some (out ++ res) ∧ sorted_of (present tmp) res.
Proof.
  induction fuel as [|fuel IH]; intros j tmp out Hj Hle Hf; [lia|]. cbn [sort_loop].
  destruct (Nat.leb_spec (length tmp) j) as [Hend|Hlt].
  { exists []. split; [by rewrite app_nil_r|]. assert (present tmp = []) as ->; [|by split; [|constructor|]].
    rewrite <-(firstn_all tmp). replace (length tmp) with j by lia. by apply none_below. }
  destruct (lookup_lt_is_Some_2 tmp j Hlt) as [[sw|] Ej]; rewrite Ej.
  - pose proof (present_insert tmp j sw Ej) as Hcount.
    destruct (highest_spec tmp 0 (prio sw) None) as [[-> Hall]|(k & m & -> & Hfh & Hp)].
    + destruct (IH (S j) (<[j := None]> tmp) (out ++ [sw])) as (res & E & Hs).
      * intros i Hi Hl. rewrite length_insert in Hl. destruct (decide (i = j)) as [->|]; [by rewrite list_lookup_insert_eq|].
        rewrite list_lookup_insert_ne by done. apply Hj; lia.
      * rewrite length_insert. lia.
      * rewrite length_insert. lia.
      * exists (sw :: res). rewrite E. split; [by rewrite <-app_assoc|]. apply (sorted_pick tmp j sw res); [|done].
        exists (take j tmp), (drop (S j) tmp). split_and!; [by rewrite take_drop_middle|by rewrite length_take_le by lia| |].
        -- rewrite none_below by (done || lia). constructor.
        -- rewrite <-(take_drop_middle tmp j _ Ej), present_app in Hall. by apply Forall_app in Hall as [_ [_ Hall]%Forall_cons].
    + cbn [Nat.add]. assert (tmp !! k = Some (Some m)) as Ek.
      { destruct Hfh as (A & B & -> & <- & _). by rewrite lookup_app_r, Nat.sub_diag by lia. }
      rewrite Ek. pose proof (present_insert tmp k m Ek) as Hcount'.
      destruct (IH j (<[k := None]> tmp) (out ++ [m])) as (res & E & Hs).
      * intros i Hi Hl. rewrite length_insert in Hl. destruct (decide (i = k)) as [->|]; [by rewrite list_lookup_insert_eq by lia|].
        rewrite list_lookup_insert_ne by done. apply Hj; lia.
      * rewrite length_insert. lia.
      * rewrite length_insert. lia.
      * exists (m :: res). rewrite E. split; [by rewrite <-app_assoc|]. by apply (sorted_pick tmp k m res).
  - destruct (IH (S j) tmp out) as (res & E & Hs); [|lia|lia|by exists res].
    intros i Hi Hl. destruct (decide (i = j)) as [->|]; [done|]. apply Hj; lia.
Qed.

Lemma sort_total tmp : ∃ res, sort_loop (S (2 * length tmp)) 0 tmp [] = Some res ∧ sorted_of (present tmp) res.
Proof.
  destruct (sort_loop_spec (S (2 * length tmp)) 0 tmp []) as (res & E & Hs); [lia|lia| |by exists res].
  assert (length (present tmp) ≤ length tmp)%nat; [|lia]. clear. unfold present.
  induction tmp as [|[m|] tmp IH]; cbn in *; lia.
Qed.
End sort.
End ModuleSort.
