(* ===== verification/PointerArray.v ===== *)
(** * opal_pointer_array (opal/class/opal_pointer_array.[ch])

    The growable table of pointers in which the scheduler keeps its nodes and
    its topologies.  A pointer is an [option A] ([None] is NULL); an operation
    whose result is [None] has no defined behaviour in C (an access outside
    the table, a signed overflow) or stops at an [assert].  The boolean [mem]
    is the answer of the allocator to the one request the operation makes. *)

From Stdlib Require Import ZArith Lia.
From stdpp Require Import prelude numbers strings gmap list.
From S2P Require Import Prelude.

Local Open Scope Z_scope.

Module PA.

Definition TABLE_INIT : Z := 1.
Definition TABLE_GROW : Z := 2.

Record opal_pointer_array_t (A : Type) := mk_array {
  lowest_free : Z;
  number_free : Z;
  size : Z;
  max_size : Z;
  block_size : Z;
  addr : option (list (option A));
}.
Arguments mk_array {A}.
Arguments lowest_free {A}.
Arguments number_free {A}.
Arguments size {A}.
Arguments max_size {A}.
Arguments block_size {A}.
Arguments addr {A}.

Section ops.
Context {A : Type}.
Implicit Types t array table : opal_pointer_array_t A.

Definition opal_pointer_array_construct : opal_pointer_array_t A :=
  mk_array 0 0 0 INT_MAX 0 None.

Definition opal_pointer_array_destruct array : opal_pointer_array_t A :=
  mk_array (lowest_free array) (number_free array) 0 (max_size array)
           (block_size array) None.

(** [num_bytes] is a [size_t]: the [int] that initialises it is converted to
    64 bits, and the fields read back its low 32 bits. *)
Definition opal_pointer_array_init (mem : bool) array
    (initial_allocation max_sz block_sz : Z) : opal_pointer_array_t A * Z :=
  if max_sz <? block_sz then (array, OPAL_ERR_BAD_PARAM) else
  let num_bytes := uwrap 64 (if 0 <? initial_allocation then initial_allocation else block_sz) in
  let n := swrap 32 num_bytes in
  let bytes := uwrap 64 (num_bytes * 8) in
  if mem
  then (mk_array (lowest_free array) n n max_sz block_sz
          (Some (replicate (Z.to_nat (bytes / 8)) None)), OPAL_SUCCESS)
  else (mk_array (lowest_free array) n n max_sz block_sz None, OPAL_ERR_OUT_OF_RESOURCE).

(** The block after [realloc]: the common prefix is kept. *)
Definition realloc_ptrs (l : option (list (option A))) (n : nat) : list (option A) :=
  let l := default [] l in take n l ++ replicate (n - length l) None.

(** [for (i = i0; i < i0 + n; ++i) addr[i] = NULL;] *)
Fixpoint null_range (l : list (option A)) (i n : nat) : list (option A) :=
  match n with
  | O => l
  | S n' => null_range (<[i := None]> l) (S i) n'
  end.

(** The second half of [grow_table], once [new_size] is chosen. *)
Definition grow_to (mem : bool) table (new_size : Z)
    : option (opal_pointer_array_t A * bool) :=
  if max_size table <=? new_size then Some (table, false) else
  if negb mem then Some (table, false) else
  d ← ck_int (new_size - size table);
  nf ← ck_int (number_free table + d);
  let p := realloc_ptrs (addr table) (Z.to_nat new_size) in
  let a := null_range p (Z.to_nat (size table)) (Z.to_nat (new_size - size table)) in
  Some (mk_array (lowest_free table) nf new_size (max_size table) (block_size table)
          (Some a), true).

Definition grow_table (mem : bool) table (soft hard : Z)
    : option (opal_pointer_array_t A * bool) :=
  if max_size table <? soft
  then if max_size table <? hard then Some (table, false) else grow_to mem table hard
  else grow_to mem table soft.

Definition is_null (p : option A) : bool := match p with None => true | Some _ => false end.

(** The scan for the next free slot, [for (i = from; i < size; i++)]. *)
Definition next_free (l : list (option A)) (from sz : Z) : option Z :=
  Z.of_nat <$> first_from is_null l (Z.to_nat from) (Z.to_nat (sz - from)).

(** The part of [opal_pointer_array_add] that follows the growth of the table:
    the assertions, the store and the search for the next free slot. *)
Definition add_in_free_slot table (ptr : option A) : option (opal_pointer_array_t A * Z) :=
  a ← addr table;
  if negb ((0 <? size table) && (0 <=? lowest_free table) && (lowest_free table <? size table)
           && (0 <? number_free table) && (number_free table <=? size table)) then None else
  let index := lowest_free table in
  old ← zget a index;
  if negb (is_null old) then None else
  a' ← zset a index ptr;
  let nf := number_free table - 1 in
  let lf := if 0 <? nf
            then default (lowest_free table) (next_free a' (lowest_free table + 1) (size table))
            else size table in
  Some (mk_array lf nf (size table) (max_size table) (block_size table) (Some a'), index).

Definition opal_pointer_array_add (mem : bool) table (ptr : option A)
    : option (opal_pointer_array_t A * Z) :=
  if number_free table =? 0
  then soft ← match addr table with
              | None => Some TABLE_INIT
              | Some _ => ck_int (size table * TABLE_GROW)
              end;
       r ← grow_table mem table soft INT_MAX;
       let '(table, ok) := r in
       if (ok : bool) then add_in_free_slot table ptr else Some (table, OPAL_ERR_OUT_OF_RESOURCE)
  else add_in_free_slot table ptr.

(** The size asked for when [index] lies past the end. *)
Definition soft_for (index : Z) : option Z :=
  ck_int ((index ÷ TABLE_GROW + 1) * TABLE_GROW).

(** The growth step shared by [set_item] and [test_and_set_item]. *)
Definition ensure_index (mem : bool) table (index : Z) : option (opal_pointer_array_t A * bool) :=
  if size table <=? index
  then soft ← soft_for index; grow_table mem table soft index
  else Some (table, true).

Definition opal_pointer_array_set_item (mem : bool) table (index : Z) (value : option A)
    : option (opal_pointer_array_t A * Z) :=
  r ← ensure_index mem table index;
  let '(table, ok) := r in
  if negb ok then Some (table, OPAL_ERROR) else
  a ← addr table;
  old ← zget a index;
  let '(lf, nf) :=
    match value with
    | None =>
        (if index <? lowest_free table then index else lowest_free table,
         if is_null old then number_free table else number_free table + 1)
    | Some _ =>
        (if index =? lowest_free table
         then default (size table) (next_free a (index + 1) (size table))
         else lowest_free table,
         if is_null old then number_free table - 1 else number_free table)
    end in
  a' ← zset a index value;
  Some (mk_array lf nf (size table) (max_size table) (block_size table) (Some a'), OPAL_SUCCESS).

Definition opal_pointer_array_test_and_set_item (mem : bool) table (index : Z) (value : option A)
    : option (opal_pointer_array_t A * bool) :=
  if index <? 0 then None else
  in_use ← (if index <? size table
            then a ← addr table; old ← zget a index; Some (negb (is_null old))
            else Some false);
  if (in_use : bool) then Some (table, false) else
  r ← ensure_index mem table index;
  let '(table, ok) := r in
  if negb ok then Some (table, false) else
  a ← addr table;
  a' ← zset a index value;
  let nf := number_free table - 1 in
  let lf := if index =? lowest_free table
            then default (size table) (next_free a' index (size table))
            else lowest_free table in
  Some (mk_array lf nf (size table) (max_size table) (block_size table) (Some a'), true).

Definition opal_pointer_array_set_size (mem : bool) array (new_size : Z)
    : option (opal_pointer_array_t A * Z) :=
  if size array <? new_size
  then r ← grow_table mem array new_size new_size;
       let '(array, ok) := r in
       Some (array, if (ok : bool) then OPAL_SUCCESS else OPAL_ERROR)
  else Some (array, OPAL_SUCCESS).

Definition opal_pointer_array_get_item table (element_index : Z) : option (option A) :=
  if size table <=? element_index then Some None else
  a ← addr table; zget a element_index.

Definition opal_pointer_array_get_size array : Z := size array.

Definition opal_pointer_array_remove_all array : option (opal_pointer_array_t A) :=
  if number_free array =? size array then Some array else
  a ← addr array;
  if Z.of_nat (length a) <? size array then None else
  Some (mk_array 0 (size array) (size array) (max_size array) (block_size array)
          (Some (null_range a 0 (Z.to_nat (size array))))).

End ops.

(** ** Invariant *)

Section invariant.
Context {A : Type}.
Implicit Types t : opal_pointer_array_t A.

Definition elems t : list (option A) := default [] (addr t).

Definition nulls (l : list (option A)) : Z := Z.of_nat (length (filter (λ p, p = None) l)).

(** [k] is the index of the first NULL of [l], or the length of [l]. *)
Definition first_null (l : list (option A)) (k : nat) : Prop :=
  (∀ j, (j < k)%nat → ∃ p, l !! j = Some (Some p)) ∧ (k = length l ∨ l !! k = Some None).

(** The counters of the table describe its contents: [size] is the length of
    the block, [number_free] the number of NULLs in it, and [lowest_free] the
    index of the first of them. *)
Record wf t : Prop := {
  wf_size : size t = Z.of_nat (length (elems t));
  wf_free : number_free t = nulls (elems t);
  wf_low_nonneg : 0 ≤ lowest_free t;
  wf_low : first_null (elems t) (Z.to_nat (lowest_free t));
  wf_max : size t ≤ INT_MAX;
}.

Lemma elems_mk lf nf sz ms bs l : elems (mk_array lf nf sz ms bs (Some l)) = l.
Proof. done. Qed.

Lemma first_null_le l k : first_null l k → (k ≤ length l)%nat.
Proof.
  intros [H _]. destruct (decide (k ≤ length l)%nat); [done|].
  destruct (H (length l)) as [p Hp]; [lia|].
  apply lookup_lt_Some in Hp. lia.
Qed.

Lemma nulls_bounds l : 0 ≤ nulls l ≤ Z.of_nat (length l).
Proof. unfold nulls. pose proof (length_filter (λ p : option A, p = None) l). lia. Qed.

Lemma nulls_app l1 l2 : nulls (l1 ++ l2) = nulls l1 + nulls l2.
Proof. unfold nulls. rewrite list.filter_app, length_app. lia. Qed.

Lemma nulls_replicate n : nulls (replicate n None) = Z.of_nat n.
Proof.
  unfold nulls. induction n as [|n IH]; [done|]. simpl replicate.
  rewrite filter_cons_True by done. simpl. lia.
Qed.

Lemma nulls_insert l i x y : l !! i = Some y →
  nulls (<[i:=x]> l) =
  nulls l + (if is_null x then 1 else 0) - (if is_null y then 1 else 0).
Proof.
  intros Hi. pose proof (insert_count (λ p, p = None) l i x y Hi) as H.
  unfold nulls. destruct x, y; simpl in *; repeat case_decide; simplify_eq; lia.
Qed.

Lemma nulls_zero_iff l : nulls l = 0 ↔ ∀ j x, l !! j = Some x → is_null x = false.
Proof.
  unfold nulls. split.
  - intros H j x Hx. destruct x as [a|]; [done|]. exfalso.
    assert (None ∈ filter (λ p : option A, p = None) l) as Hin.
    { apply list_elem_of_filter. split; [done|]. by eapply list_elem_of_lookup_2. }
    destruct (filter _ l); [by apply not_elem_of_nil in Hin|]. simpl in H. lia.
  - intros H. destruct (filter _ l) as [|x l'] eqn:E; [done|]. exfalso.
    assert (x ∈ filter (λ p : option A, p = None) l) as Hin by (rewrite E; left).
    apply list_elem_of_filter in Hin as [-> Hin].
    apply list_elem_of_lookup in Hin as [j Hj]. by specialize (H j _ Hj).
Qed.

Lemma first_null_no_free l k : nulls l = 0 → first_null l k → k = length l.
Proof.
  intros H0 [_ [H|H]]; [done|]. by specialize (proj1 (nulls_zero_iff l) H0 _ _ H).
Qed.

Lemma first_null_free l k : nulls l ≠ 0 → first_null l k → l !! k = Some None.
Proof.
  intros H0 [H [->|H']]; [|done]. exfalso. apply H0, nulls_zero_iff.
  intros j x Hx. destruct (H j) as [p Hp]; [by eapply lookup_lt_Some|]. naive_solver.
Qed.

Lemma first_null_app_replicate l k n : first_null l k → first_null (l ++ replicate n None) k.
Proof.
  intros [H1 H2]. split.
  - intros j Hj. destruct (H1 j Hj) as [p Hp]. exists p. by apply lookup_app_l_Some.
  - destruct H2 as [->|H2]; [|right; by apply lookup_app_l_Some].
    destruct n; [left; simpl; by rewrite app_nil_r|right].
    rewrite lookup_app_r, Nat.sub_diag by lia. done.
Qed.

(** The scan of the code finds the first NULL at or after a point before which
    there is none. *)
Lemma next_free_first_null l k d :
  (∀ j, (j < k)%nat → ∃ p, l !! j = Some (Some p)) → (k ≤ length l)%nat →
  d = Z.of_nat (length l) ∨ nulls l ≠ 0 →
  first_null l (Z.to_nat (default d (next_free l (Z.of_nat k) (Z.of_nat (length l))))).
Proof.
  intros Hb Hk Hd. unfold next_free. rewrite Nat2Z.id.
  replace (Z.to_nat (Z.of_nat (length l) - Z.of_nat k)) with (length l - k)%nat by lia.
  destruct (first_from is_null l k (length l - k)) as [m|] eqn:E; simpl.
  - apply first_from_Some in E as (Hm & (x & Hx & HP) & Hlow). rewrite Nat2Z.id.
    split; [|right; destruct x; done].
    intros j Hj. destruct (decide (j < k)%nat); [by apply Hb|].
    destruct (lookup_lt_is_Some_2 l j) as [y Hy]; [apply lookup_lt_Some in Hx; lia|].
    specialize (Hlow j y ltac:(lia) Hy). destruct y; [eauto|done].
  - pose proof (first_from_None _ _ _ _ E ltac:(lia)) as Hnone.
    assert (∀ j, (j < length l)%nat → ∃ p, l !! j = Some (Some p)) as Hall.
    { intros j Hj. destruct (decide (j < k)%nat); [by apply Hb|].
      destruct (lookup_lt_is_Some_2 l j Hj) as [y Hy].
      specialize (Hnone j y ltac:(lia) Hy). destruct y; [eauto|done]. }
    destruct Hd as [->|Hn].
    + rewrite Nat2Z.id. by split; [|left].
    + exfalso. apply Hn, nulls_zero_iff. intros j x Hx.
      destruct (Hall j) as [p Hp]; [by eapply lookup_lt_Some|]. naive_solver.
Qed.

Lemma null_range_app pre l :
  null_range (pre ++ l) (length pre) (length l) = pre ++ replicate (length l) (@None A).
Proof.
  revert pre. induction l as [|x l IH]; intros pre; [done|]. simpl.
  rewrite insert_app_r_alt, Nat.sub_diag by lia. simpl.
  specialize (IH (pre ++ [None])). rewrite length_app in IH. simpl in IH.
  replace (length pre + 1)%nat with (S (length pre)) in IH by lia.
  rewrite <-!app_assoc in IH. simpl in IH. exact IH.
Qed.

Lemma init_wf mem t ia ms bs t' :
  0 ≤ bs → 0 ≤ ia ≤ INT_MAX → bs ≤ INT_MAX → lowest_free t = 0 →
  opal_pointer_array_init mem t ia ms bs = (t', OPAL_SUCCESS) →
  wf t' ∧ max_size t' = ms ∧ elems t' = replicate (Z.to_nat (if 0 <? ia then ia else bs)) None.
Proof.
  intros Hbs Hia Hbs' Hlf. unfold opal_pointer_array_init.
  destruct (Z.ltb_spec ms bs); [done|]. destruct mem; [|done]. intros [= <-].
  set (n := if 0 <? ia then ia else bs).
  assert (0 ≤ n ≤ INT_MAX) as Hn by (subst n; zbool; lia). clearbody n.
  unfold INT_MAX in *.
  assert (uwrap 64 n = n) as -> by (unfold uwrap; apply Z.mod_small; lia).
  assert (swrap 32 n = n) as -> by (unfold swrap; rewrite Z.mod_small by lia; zbool; lia).
  assert (uwrap 64 (n * 8) = n * 8) as -> by (unfold uwrap; apply Z.mod_small; lia).
  rewrite Z.div_mul by lia.
  split_and!; [split; unfold elems; simpl|done|done].
  - rewrite length_replicate. lia.
  - rewrite nulls_replicate. lia.
  - lia.
  - rewrite Hlf. split; [simpl; lia|]. rewrite length_replicate.
    destruct (Z.to_nat n) eqn:E; [by left|by right].
  - unfold INT_MAX. lia.
Qed.

Lemma grow_to_wf mem t n t' ok :
  wf t → size t ≤ n → max_size t ≤ INT_MAX → grow_to mem t n = Some (t', ok) →
  (ok = false ∧ t' = t) ∨
  (ok = true ∧ wf t' ∧ size t' = n ∧ n < max_size t ∧ max_size t' = max_size t ∧
   lowest_free t' = lowest_free t ∧ addr t' = Some (elems t') ∧
   elems t' = elems t ++ replicate (Z.to_nat (n - size t)) None).
Proof.
  intros [Hs Hf Hl0 Hl Hm] Hn Hmx. unfold grow_to.
  destruct (Z.leb_spec (max_size t) n); [intros [= <- <-]; by left|].
  destruct mem; simpl; [|intros [= <- <-]; by left].
  rewrite ck_int_Some by (unfold INT_MIN, INT_MAX in *; lia). simpl.
  pose proof (nulls_bounds (elems t)).
  rewrite ck_int_Some by (unfold INT_MIN, INT_MAX in *; lia). simpl.
  intros [= <- <-]. right.
  unfold realloc_ptrs. fold (elems t).
  rewrite take_ge by lia.
  set (k := Z.to_nat (n - size t)).
  replace (Z.to_nat n - length (elems t))%nat with k by lia.
  replace (Z.to_nat (size t)) with (length (elems t)) by lia.
  pose proof (null_range_app (elems t) (replicate k None)) as Hnr.
  rewrite length_replicate in Hnr. rewrite Hnr.
  split_and!; simpl; try done.
  split; rewrite ?elems_mk; simpl.
  - rewrite length_app, length_replicate. lia.
  - rewrite nulls_app, nulls_replicate. lia.
  - done.
  - by apply first_null_app_replicate.
  - lia.
Qed.

Lemma grow_to_defined mem t n :
  wf t → size t ≤ n → max_size t ≤ INT_MAX → ∃ r, grow_to mem t n = Some r.
Proof.
  intros [Hs Hf Hl0 Hl Hm] Hn Hmx. unfold grow_to.
  destruct (Z.leb_spec (max_size t) n); [eauto|]. destruct mem; simpl; [|eauto].
  pose proof (nulls_bounds (elems t)).
  rewrite !ck_int_Some by (unfold INT_MIN, INT_MAX in *; lia). simpl.
  rewrite ck_int_Some by (unfold INT_MIN, INT_MAX in *; lia). simpl. eauto.
Qed.

Lemma store_wf t i v old lf nf :
  wf t → elems t !! i = Some old →
  0 ≤ lf → first_null (<[i:=v]> (elems t)) (Z.to_nat lf) →
  nf = number_free t + (if is_null v then 1 else 0) - (if is_null old then 1 else 0) →
  wf (mk_array lf nf (size t) (max_size t) (block_size t) (Some (<[i:=v]> (elems t)))).
Proof.
  intros [Hs Hf Hl0 Hl Hm] Hi Hlf Hfn ->. split; rewrite ?elems_mk; simpl; try done.
  - by rewrite length_insert.
  - rewrite (nulls_insert _ _ _ _ Hi). lia.
Qed.

(** What a reader sees at index [j]: NULL past the end. *)
Definition slot t (j : Z) : option A := default None (elems t !! Z.to_nat j).

Lemma get_item_slot t j : wf t → 0 ≤ j → opal_pointer_array_get_item t j = Some (slot t j).
Proof.
  intros [Hs _ _ _ _] Hj. unfold opal_pointer_array_get_item, slot.
  destruct (Z.leb_spec (size t) j).
  - rewrite lookup_ge_None_2 by lia. done.
  - unfold elems in *. destruct (addr t) as [l|]; simpl in *; [|lia].
    destruct (lookup_lt_is_Some_2 l (Z.to_nat j)) as [x Hx]; [lia|].
    unfold zget. destruct (Z.ltb_spec j 0); [lia|]. by rewrite Hx.
Qed.

Lemma slot_grow t t' n j :
  elems t' = elems t ++ replicate n None → slot t' j = slot t j.
Proof.
  unfold slot. intros ->. destruct (decide (Z.to_nat j < length (elems t))%nat).
  - by rewrite lookup_app_l by lia.
  - rewrite lookup_app_r by lia. rewrite (lookup_ge_None_2 (elems t)) by lia.
    destruct (replicate _ _ !! _) as [x|] eqn:E; [|done].
    apply lookup_replicate in E as [-> _]. done.
Qed.

Lemma slot_store t i v lf nf ms bs j :
  (i < length (elems t))%nat → 0 ≤ j →
  slot (mk_array lf nf (size t) ms bs (Some (<[i:=v]> (elems t)))) j =
  if decide (j = Z.of_nat i) then v else slot t j.
Proof.
  intros Hi Hj. unfold slot. rewrite elems_mk. case_decide as Hd.
  - subst j. by rewrite Nat2Z.id, list_lookup_insert_eq.
  - by rewrite list_lookup_insert_ne by lia.
Qed.

Lemma first_null_insert_low l k i v :
  (∀ j, (j < k)%nat → ∃ p, l !! j = Some (Some p)) → i = k → (k < length l)%nat →
  ∀ j, (j < S k)%nat → ∃ p, <[i:=Some (v : A)]> l !! j = Some (Some p).
Proof.
  intros H -> Hk j Hj. destruct (decide (j = k)) as [->|].
  - rewrite list_lookup_insert_eq by lia. eauto.
  - rewrite list_lookup_insert_ne by done. apply H. lia.
Qed.

Lemma grow_table_wf mem t soft hard t' ok :
  wf t → size t ≤ soft → size t ≤ hard → max_size t ≤ INT_MAX →
  grow_table mem t soft hard = Some (t', ok) →
  (ok = false ∧ t' = t) ∨
  (ok = true ∧ wf t' ∧ (size t' = soft ∨ (size t' = hard ∧ max_size t < soft)) ∧
   size t' < max_size t ∧ max_size t' = max_size t ∧
   lowest_free t' = lowest_free t ∧ addr t' = Some (elems t') ∧
   ∃ n, elems t' = elems t ++ replicate n None).
Proof.
  intros Hwf Hs Hh Hm. unfold grow_table.
  destruct (Z.ltb_spec (max_size t) soft); [destruct (Z.ltb_spec (max_size t) hard)|].
  - intros [= <- <-]. by left.
  - intros [?|(?&?&?&?&?&?&?&?)]%grow_to_wf; [by left| |done..].
    right. split_and!; eauto with lia.
  - intros [?|(?&?&?&?&?&?&?&?)]%grow_to_wf; [by left| |done..].
    right. split_and!; eauto with lia.
Qed.

Lemma grow_table_defined mem t soft hard :
  wf t → size t ≤ soft → size t ≤ hard → max_size t ≤ INT_MAX →
  ∃ t' ok, grow_table mem t soft hard = Some (t', ok).
Proof.
  intros Hwf Hs Hh Hm. unfold grow_table.
  repeat case_match; try (eexists _, _; reflexivity);
    match goal with |- context [grow_to _ _ ?n] =>
      destruct (grow_to_defined mem t n Hwf ltac:(lia) Hm) as [[? ?] ?] end; eauto.
Qed.

Lemma add_in_free_slot_spec t l p :
  wf t → addr t = Some l → number_free t ≠ 0 →
  ∃ t', add_in_free_slot t (Some p) = Some (t', lowest_free t) ∧
  wf t' ∧ max_size t' = max_size t ∧ size t' = size t ∧
  slot t (lowest_free t) = None ∧
  (∀ j, 0 ≤ j → slot t' j = if decide (j = lowest_free t) then Some p else slot t j).
Proof.
  intros Hwf Ha Hnf. pose proof Hwf as [Hs Hf Hl0 Hl Hm].
  assert (elems t = l) as El by (unfold elems; by rewrite Ha).
  pose proof (nulls_bounds (elems t)) as Hnb.
  assert (elems t !! Z.to_nat (lowest_free t) = Some None) as Hfree
    by (apply first_null_free; [lia|done]).
  pose proof (lookup_lt_Some _ _ _ Hfree) as Hlt.
  set (k := Z.to_nat (lowest_free t)) in *.
  assert (lowest_free t = Z.of_nat k) as Hk by lia.
  unfold add_in_free_slot. rewrite Ha. simpl.
  rewrite <-El, Hk, zget_nat, Hfree. simpl.
  match goal with |- context [negb (?b && ?c)] =>
    assert (b && c = true) as -> by (rewrite !andb_true_iff, !Z.ltb_lt, !Z.leb_le; lia) end.
  simpl. rewrite zset_nat by done. simpl.
  eexists. split; [reflexivity|].
  assert (∀ j, (j < S k)%nat → ∃ q, <[k:=Some p]> (elems t) !! j = Some (Some q)) as Hpre
    by (eapply first_null_insert_low; [apply Hl|done|done]).
  split_and!; [|done|done| |].
  - apply (store_wf t k (Some p) None); [done|done| | |simpl; lia].
    + zbool; [|lia]. unfold next_free. destruct (first_from _ _ _ _); simpl; lia.
    + pose proof (nulls_insert _ _ (Some p) _ Hfree) as Hni. simpl in Hni.
      destruct (Z.ltb_spec 0 (number_free t - 1)).
      * rewrite Hs, <-(length_insert (elems t) k (Some p)).
        replace (Z.of_nat k + 1) with (Z.of_nat (S k)) by lia.
        apply next_free_first_null; [done|rewrite length_insert; lia|right; lia].
      * rewrite Hs, Nat2Z.id. split; [|left; by rewrite length_insert].
        intros j Hj. assert (is_Some (<[k:=Some p]> (elems t) !! j)) as [x Hx]
          by (apply lookup_lt_is_Some_2; by rewrite length_insert).
        assert (nulls (<[k:=Some p]> (elems t)) = 0) as H0 by lia.
        pose proof (proj1 (nulls_zero_iff _) H0 _ _ Hx). destruct x; [eauto|done].
  - unfold slot. by rewrite Nat2Z.id, Hfree.
  - intros j Hj. by apply slot_store.
Qed.

(** The one index past the end that the growth policy cannot serve. *)
Definition hole t (index : Z) : Prop :=
  size t ≤ index ∧ Z.even index = true ∧ index + 1 = max_size t.

Lemma soft_for_eq index : 0 ≤ index ≤ INT_MAX - 2 →
  soft_for index = Some (if Z.even index then index + 2 else index + 1).
Proof.
  intros Hi. unfold soft_for, TABLE_GROW. rewrite Z.quot_div_nonneg by lia.
  pose proof (Z.div_mod index 2 ltac:(lia)) as Hdm. rewrite Zmod_even in Hdm.
  destruct (Z.even index); rewrite ck_int_Some by (unfold INT_MIN, INT_MAX in *; lia);
    f_equal; lia.
Qed.

Lemma ensure_index_spec mem t index :
  wf t → max_size t ≤ INT_MAX → 0 ≤ index ≤ INT_MAX - 2 → ¬ hole t index →
  ∃ t1 ok, ensure_index mem t index = Some (t1, ok) ∧
  ((ok = false ∧ t1 = t ∧ size t ≤ index) ∨
   (ok = true ∧ wf t1 ∧ index < size t1 ∧ max_size t1 = max_size t ∧
    lowest_free t1 = lowest_free t ∧ addr t1 = Some (elems t1) ∧ ∀ j, slot t1 j = slot t j)).
Proof.
  intros Hwf Hm Hi Hhole. unfold ensure_index.
  destruct (Z.leb_spec (size t) index) as [Hle|Hlt].
  - rewrite soft_for_eq by done. simpl.
    set (soft := if Z.even index then index + 2 else index + 1).
    assert (index < soft) by (subst soft; destruct (Z.even index); lia).
    destruct (grow_table_defined mem t soft index) as (t1 & ok & Hg); try done; try lia.
    eexists _, _. split; [exact Hg|].
    apply grow_table_wf in Hg as [[-> ->]|(-> & Hwf1 & Hsz1 & Hmx1 & Hms1 & Hlf1 & Ha1 & n & He1)];
      try done; try lia; [by left|].
    right. split_and!; try done.
    + destruct Hsz1 as [|[E Hms]]; [lia|]. exfalso. apply Hhole.
      subst soft. destruct (Z.even index) eqn:Ev; split_and!; try done; lia.
    + intros j. by eapply slot_grow.
  - eexists _, _. split; [done|]. right. split_and!; try done.
    destruct Hwf as [Hs _ _ _ _]. unfold elems in *.
    destruct (addr t); [done|]. simpl in *. lia.
Qed.

(** Occupying the slot [i]: the new [lowest_free] the code computes. *)
Lemma first_null_occupy l k i v :
  first_null l k → i ≠ k → first_null (<[i:=Some (v : A)]> l) k.
Proof.
  intros [H1 H2] Hne. split.
  - intros j Hj. destruct (decide (j = i)) as [->|].
    + destruct (H1 i Hj) as [q Hq]. rewrite list_lookup_insert_eq
        by (by eapply lookup_lt_Some). eauto.
    + rewrite list_lookup_insert_ne by done. by apply H1.
  - rewrite length_insert, list_lookup_insert_ne by done. done.
Qed.

(** Freeing the slot [i]. *)
Lemma first_null_release l k i :
  first_null l k → (i < length l)%nat →
  first_null (<[i:=(None : option A)]> l) (if decide (i < k)%nat then i else k).
Proof.
  intros [H1 H2] Hi. case_decide as Hlt; split.
  - intros j Hj. rewrite list_lookup_insert_ne by lia. apply H1. lia.
  - right. by rewrite list_lookup_insert_eq.
  - intros j Hj. rewrite list_lookup_insert_ne by lia. by apply H1.
  - rewrite length_insert. destruct (decide (i = k)) as [->|].
    + right. by rewrite list_lookup_insert_eq.
    + by rewrite list_lookup_insert_ne by done.
Qed.

(** Scanning an array before or after the store at the scan's origin. *)
Lemma next_free_insert_before (l : list (option A)) i v sz :
  next_free (<[i:=v]> l) (Z.of_nat i + 1) sz = next_free l (Z.of_nat i + 1) sz.
Proof.
  unfold next_free. f_equal.
  assert (∀ n k, (i < k)%nat → first_from is_null (<[i:=v]> l) k n = first_from is_null l k n)
    as Hff.
  { induction n as [|n IH]; intros k Hk; [done|]. simpl.
    rewrite list_lookup_insert_ne by lia. destruct (l !! k); [|done].
    by rewrite IH by lia. }
  apply Hff. lia.
Qed.

Lemma next_free_self (l : list (option A)) i v sz :
  (i < length l)%nat → sz = Z.of_nat (length l) →
  next_free (<[i:=Some (v : A)]> l) (Z.of_nat i) sz = next_free l (Z.of_nat i + 1) sz.
Proof.
  intros Hi ->. rewrite <-(next_free_insert_before l i (Some v)).
  unfold next_free. f_equal.
  replace (Z.to_nat (Z.of_nat (length l) - Z.of_nat i))
    with (S (Z.to_nat (Z.of_nat (length l) - (Z.of_nat i + 1)))) by lia.
  simpl. rewrite Nat2Z.id, list_lookup_insert_eq by done. simpl. f_equal; lia.
Qed.

Lemma occupy_low t i v :
  wf t → i < size t → 0 ≤ i →
  let l := <[Z.to_nat i:=Some (v : A)]> (elems t) in
  let lf := if i =? lowest_free t
            then default (size t) (next_free (elems t) (i + 1) (size t)) else lowest_free t in
  0 ≤ lf ∧ first_null l (Z.to_nat lf).
Proof.
  intros Hwf Hi Hi0. pose proof Hwf as [Hs Hf Hl0 Hl Hm]. simpl.
  destruct (Z.eqb_spec i (lowest_free t)) as [E|].
  - split; [unfold next_free; destruct (first_from _ _ _ _); simpl; lia|].
    rewrite <-E in Hl. replace i with (Z.of_nat (Z.to_nat i)) at 2 by lia.
    rewrite <-(next_free_insert_before _ _ (Some v)).
    rewrite Hs, <-(length_insert (elems t) (Z.to_nat i) (Some v)).
    replace (Z.of_nat (Z.to_nat i) + 1) with (Z.of_nat (S (Z.to_nat i))) by lia.
    apply next_free_first_null; [|rewrite length_insert; lia|by left].
    eapply first_null_insert_low; [apply Hl|done|lia].
  - split; [lia|]. apply first_null_occupy; [done|lia].
Qed.

End invariant.

(** ** The operations *)

Section theorems.
Context {A : Type}.
Implicit Types t : opal_pointer_array_t A.

(** [add] never leaves the table or trips an assertion, it fails only by leaving the
    table as it was, and otherwise it stores the pointer in the lowest free slot,
    which it returns, touches no other slot and keeps the counters exact. *)
Theorem opal_pointer_array_add_spec mem t p :
  wf t → max_size t ≤ INT_MAX → size t < 2 ^ 30 → (addr t = None ∨ 0 < size t) →
  ∃ t' r, opal_pointer_array_add mem t (Some p) = Some (t', r) ∧
  ((r = OPAL_ERR_OUT_OF_RESOURCE ∧ t' = t ∧ number_free t = 0) ∨
   (r = lowest_free t ∧ 0 ≤ r ∧ wf t' ∧ max_size t' = max_size t ∧
    opal_pointer_array_get_item t r = Some None ∧
    (∀ j, 0 ≤ j < r → opal_pointer_array_get_item t j ≠ Some None) ∧
    (∀ j, 0 ≤ j → opal_pointer_array_get_item t' j =
       if decide (j = r) then Some (Some p) else opal_pointer_array_get_item t j))).
Proof.
  intros Hwf Hm Hsz Ha. pose proof Hwf as [Hs Hf Hl0 Hl Hmx].
  unfold opal_pointer_array_add. destruct (Z.eqb_spec (number_free t) 0) as [Hz|Hz].
  - set (soft := match addr t with None => TABLE_INIT | Some _ => size t * TABLE_GROW end).
    assert (match addr t with None => Some TABLE_INIT
            | Some _ => ck_int (size t * TABLE_GROW) end = Some soft) as ->.
    { unfold soft, TABLE_GROW. destruct (addr t); [|done].
      apply ck_int_Some. unfold INT_MIN, INT_MAX. lia. }
    assert (size t < soft) as Hsoft.
    { unfold soft, TABLE_GROW, TABLE_INIT. unfold elems in Hs.
      destruct (addr t), Ha; simpl in *; simplify_eq; lia. }
    simpl. destruct (grow_table_defined mem t soft INT_MAX) as (t1 & ok & Hg); try lia; try done.
    rewrite Hg. simpl.
    apply grow_table_wf in Hg as [[-> ->]|(-> & Hwf1 & Hsz1 & Hmx1 & Hms1 & Hlf1 & Ha1 & n & He1)];
      try lia; try done.
    { eexists _, _. split; [reflexivity|]. by left. }
    destruct (add_in_free_slot_spec t1 (elems t1) p) as (t2 & Hadd & Hwf2 & Hms2 & Hs2 & Hfree & Hslot); try done.
    { rewrite (wf_free _ Hwf1), He1, nulls_app, nulls_replicate.
      pose proof (wf_size _ Hwf1) as Hlen. rewrite He1, length_app, length_replicate in Hlen. lia. }
    rewrite Hadd. eexists _, _. split; [reflexivity|]. right. rewrite Hlf1 in *.
    split_and!; try done; try congruence.
    + rewrite get_item_slot by done. by rewrite <-(slot_grow t t1 n _ He1), Hfree.
    + intros j Hj. rewrite get_item_slot by (done || lia). destruct Hl as [Hl _].
      destruct (Hl (Z.to_nat j)) as [q Hq]; [lia|]. unfold slot. by rewrite Hq.
    + intros j Hj. rewrite !get_item_slot by done. rewrite Hslot by done.
      rewrite (slot_grow t t1 n _ He1). by case_decide.
  - assert (addr t = Some (elems t)) as Ha'.
    { unfold elems in *. destruct (addr t); [done|]. simpl in *. by unfold nulls in Hf. }
    destruct (add_in_free_slot_spec t (elems t) p) as (t2 & Hadd & Hwf2 & Hms2 & Hs2 & Hfree & Hslot); try done.
    rewrite Hadd. eexists _, _. split; [reflexivity|]. right.
    split_and!; try done.
    + rewrite get_item_slot by done. by rewrite Hfree.
    + intros j Hj. rewrite get_item_slot by (done || lia). destruct Hl as [Hl _].
      destruct (Hl (Z.to_nat j)) as [q Hq]; [lia|]. unfold slot. by rewrite Hq.
    + intros j Hj. rewrite !get_item_slot by done. rewrite Hslot by done. by case_decide.
Qed.

(** [set_item], away from the one index its growth policy cannot serve: it fails
    only past the end and leaves the table as it was, and otherwise it writes
    exactly the slot [index] and keeps the counters exact. *)
Theorem opal_pointer_array_set_item_spec mem t index v :
  wf t → max_size t ≤ INT_MAX → 0 ≤ index ≤ INT_MAX - 2 → ¬ hole t index →
  ∃ t' r, opal_pointer_array_set_item mem t index v = Some (t', r) ∧
  ((r = OPAL_ERROR ∧ t' = t ∧ size t ≤ index) ∨
   (r = OPAL_SUCCESS ∧ wf t' ∧ max_size t' = max_size t ∧
    ∀ j, 0 ≤ j → opal_pointer_array_get_item t' j =
       if decide (j = index) then Some v else opal_pointer_array_get_item t j)).
Proof.
  intros Hwf Hm Hi Hh. unfold opal_pointer_array_set_item.
  destruct (ensure_index_spec mem t index) as
    (t1 & ok & -> & [(-> & -> & ?)|(-> & Hwf1 & Hlt & Hms & Hlf & Ha & Hslot)]); try done.
  { simpl. eexists _, _. split; [done|]. by left. }
  simpl. rewrite Ha. simpl. pose proof (wf_size _ Hwf1) as Hs1.
  destruct (lookup_lt_is_Some_2 (elems t1) (Z.to_nat index)) as [old Hold]; [lia|].
  rewrite zget_in, Hold by lia. simpl.
  destruct v as [v|]; simpl; rewrite zset_in by lia; simpl;
    (eexists _, _; split; [reflexivity|]; right).
  - destruct (occupy_low t1 index v) as [Hlf0 Hfn]; [done|done|lia|].
    assert (wf (mk_array (if index =? lowest_free t1
                then default (size t1) (next_free (elems t1) (index + 1) (size t1))
                else lowest_free t1)
              (if is_null old then number_free t1 - 1 else number_free t1)
              (size t1) (max_size t1) (block_size t1)
              (Some (<[Z.to_nat index:=Some v]> (elems t1))))) as Hw
      by (eapply store_wf; [done|done|done|done|destruct old; simpl; lia]).
    split_and!; [done|done|done|]. intros j Hj.
    rewrite !get_item_slot by done. rewrite slot_store by lia.
    rewrite Z2Nat.id by lia. rewrite Hslot. by case_decide.
  - assert (wf (mk_array (if index <? lowest_free t1 then index else lowest_free t1)
              (if is_null old then number_free t1 else number_free t1 + 1)
              (size t1) (max_size t1) (block_size t1)
              (Some (<[Z.to_nat index:=None]> (elems t1))))) as Hw.
    { pose proof (wf_low_nonneg _ Hwf1).
      eapply store_wf; [done|done| | |destruct old; simpl; lia].
      - zbool; lia.
      - pose proof (first_null_release _ _ (Z.to_nat index) (wf_low _ Hwf1) ltac:(lia)) as Hr.
        destruct (Z.ltb_spec index (lowest_free t1)); case_decide; (done || lia). }
    split_and!; [done|done|done|]. intros j Hj.
    rewrite !get_item_slot by done. rewrite slot_store by lia.
    rewrite Z2Nat.id by lia. rewrite Hslot. by case_decide.
Qed.

(** At the hole the table grows to [index] elements and the store at [index] is
    one past its end. *)
Theorem opal_pointer_array_set_item_hole t index v :
  wf t → hole t index → 0 ≤ index → max_size t < INT_MAX →
  opal_pointer_array_set_item true t index v = None.
Proof.
  intros Hwf (Hs & Hev & Hmax) Hi Hm.
  unfold opal_pointer_array_set_item, ensure_index.
  destruct (Z.leb_spec (size t) index); [|lia].
  rewrite soft_for_eq by lia. rewrite Hev. simpl.
  destruct (grow_table_defined true t (index + 2) index) as (t1 & ok & Hg); try done; try lia.
  pose proof Hg as Hg'. rewrite Hg. simpl.
  unfold grow_table in Hg.
  destruct (Z.ltb_spec (max_size t) (index + 2)); [|lia].
  destruct (Z.ltb_spec (max_size t) index); [lia|].
  assert (ok = true ∧ size t1 = index) as [-> Hsz].
  { unfold grow_to in Hg. destruct (Z.leb_spec (max_size t) index); [lia|]. simpl in Hg.
    destruct (ck_int (index - size t)); [|done]. simpl in Hg.
    destruct (ck_int _); [|done]. by simplify_eq/=. }
  apply grow_table_wf in Hg' as [[? _]|(_ & Hwf1 & _ & _ & _ & _ & Ha & _)]; try done; try lia.
  simpl. rewrite Ha. simpl. unfold zget. destruct (Z.ltb_spec index 0); [lia|].
  rewrite lookup_ge_None_2 by (pose proof (wf_size _ Hwf1); lia). done.
Qed.

(** [test_and_set_item] never overwrites: it answers [true] exactly when it found
    the slot free, had room for it and stored the value there. *)
Theorem opal_pointer_array_test_and_set_item_spec mem t index v :
  wf t → max_size t ≤ INT_MAX → 0 ≤ index ≤ INT_MAX - 2 → ¬ hole t index →
  ∃ t' b, opal_pointer_array_test_and_set_item mem t index (Some v) = Some (t', b) ∧
  ((b = false ∧ t' = t ∧
     (opal_pointer_array_get_item t index ≠ Some None ∨ size t ≤ index)) ∨
   (b = true ∧ wf t' ∧ max_size t' = max_size t ∧
    opal_pointer_array_get_item t index = Some None ∧
    ∀ j, 0 ≤ j → opal_pointer_array_get_item t' j =
       if decide (j = index) then Some (Some v) else opal_pointer_array_get_item t j)).
Proof.
  intros Hwf Hm Hi Hh. unfold opal_pointer_array_test_and_set_item.
  destruct (Z.ltb_spec index 0); [lia|].
  assert ((if index <? size t then a ← addr t; old ← zget a index; Some (negb (is_null old))
           else Some false) = Some (negb (is_null (slot t index)))) as ->.
  { pose proof (get_item_slot t index Hwf ltac:(lia)) as Hg.
    unfold opal_pointer_array_get_item in Hg.
    destruct (Z.ltb_spec index (size t)), (Z.leb_spec (size t) index); try lia.
    - destruct (addr t); simpl in *; [|done]. by rewrite Hg.
    - injection Hg as Hg. by rewrite <-Hg. }
  simpl. destruct (slot t index) as [o|] eqn:Hso; simpl.
  { eexists _, _. split; [done|]. left. split_and!; try done. left.
    rewrite get_item_slot by (done || lia). by rewrite Hso. }
  destruct (ensure_index_spec mem t index) as
    (t1 & ok & -> & [(-> & -> & ?)|(-> & Hwf1 & Hlt & Hms & Hlf & Ha & Hslot)]); try done.
  { simpl. eexists _, _. split; [done|]. left. eauto. }
  simpl. rewrite Ha. simpl. pose proof (wf_size _ Hwf1) as Hs1.
  destruct (lookup_lt_is_Some_2 (elems t1) (Z.to_nat index)) as [old Hold]; [lia|].
  assert (old = None) as ->.
  { pose proof (Hslot index) as H1. unfold slot at 1 in H1. rewrite Hold in H1. simpl in H1. congruence. }
  rewrite zset_in by lia. simpl.
  eexists _, _; split; [reflexivity|]; right.
  destruct (occupy_low t1 index v) as [Hlf0 Hfn]; [done|done|lia|].
  pose proof (next_free_self (elems t1) (Z.to_nat index) v (size t1) ltac:(lia) Hs1) as Hnf.
  rewrite Z2Nat.id in Hnf by lia. rewrite Hnf.
  assert (wf (mk_array (if index =? lowest_free t1
                then default (size t1) (next_free (elems t1) (index + 1) (size t1))
                else lowest_free t1) (number_free t1 - 1)
              (size t1) (max_size t1) (block_size t1)
              (Some (<[Z.to_nat index:=Some v]> (elems t1))))) as Hw
      by (eapply store_wf; [done|done|done|done|simpl; lia]).
  split_and!; [done|done|done| |].
  - rewrite get_item_slot by (done || lia). by rewrite Hso.
  - intros j Hj. rewrite !get_item_slot by done. rewrite slot_store by lia.
    rewrite Z2Nat.id by lia. rewrite Hslot. by case_decide.
Qed.

(** [remove_all] empties a well-formed table and keeps its size. *)
Theorem opal_pointer_array_remove_all_spec t :
  wf t →
  ∃ t', opal_pointer_array_remove_all t = Some t' ∧ wf t' ∧ size t' = size t ∧
  number_free t' = size t' ∧ lowest_free t' = 0 ∧
  ∀ j, 0 ≤ j → opal_pointer_array_get_item t' j = Some None.
Proof.
  intros Hwf. pose proof Hwf as [Hs Hf Hl0 Hl Hm]. unfold opal_pointer_array_remove_all.
  destruct (Z.eqb_spec (number_free t) (size t)) as [E|E].
  - exists t. split; [done|].
    assert (∀ j, slot t j = None) as Hall.
    { intros j. unfold slot. destruct (elems t !! Z.to_nat j) as [[a|]|] eqn:Ej; try done.
      exfalso. pose proof (nulls_insert _ _ None _ Ej) as Hn. simpl in Hn.
      pose proof (nulls_bounds (<[Z.to_nat j:=None]> (elems t))) as Hb.
      rewrite length_insert in Hb. lia. }
    split_and!; try done.
    + destruct Hl as [Hl _]. destruct (decide (lowest_free t = 0)); [done|].
      destruct (Hl 0%nat) as [p Hp]; [lia|]. specialize (Hall 0).
      unfold slot in Hall. change (Z.to_nat 0) with 0%nat in Hall. by rewrite Hp in Hall.
    + intros j Hj. rewrite get_item_slot by done. by rewrite Hall.
  - unfold elems in *. destruct (addr t) as [l|]; simpl in *;
      [|unfold nulls in Hf; simpl in Hf; lia].
    destruct (Z.ltb_spec (Z.of_nat (length l)) (size t)); [lia|].
    replace (Z.to_nat (size t)) with (length l) by lia.
    pose proof (null_range_app [] l) as Hnr. simpl in Hnr. rewrite Hnr.
    eexists. split; [reflexivity|]. simpl.
    assert (wf (mk_array 0 (size t) (size t) (max_size t) (block_size t)
                 (Some (replicate (length l) (None : option A))))) as Hw.
    { split; rewrite ?elems_mk; simpl; try done.
      - by rewrite length_replicate.
      - by rewrite nulls_replicate.
      - split; [simpl; lia|]. rewrite length_replicate.
        destruct (length l); [by left|by right]. }
    split_and!; try done. intros j Hj. rewrite get_item_slot by done.
    unfold slot. rewrite elems_mk. by destruct (replicate _ _ !! _) eqn:E';
      [apply lookup_replicate in E' as [-> _]|].
Qed.
End theorems.

(** A table of three slots with a free one in the middle, on which the theorems
    above are applied. *)
Definition sample : opal_pointer_array_t nat :=
  mk_array 1 1 3 5 2 (Some [Some 7; None; Some 9])%nat.

Lemma sample_wf : wf sample.
Proof.
  split; try (vm_compute; intuition congruence).
  split; [|by right]. intros [|j] Hj; [by eexists|]. vm_compute in Hj. lia.
Qed.

Lemma opal_pointer_array_add_witness :
  ∃ t' r, opal_pointer_array_add true sample (Some 5%nat) = Some (t', r) ∧ r = 1.
Proof.
  destruct (opal_pointer_array_add_spec true sample 5%nat) as (t' & r & H & [(_ & _ & ?)|(-> & _)]);
    [apply sample_wf|by vm_compute|by vm_compute|by right|done|by exists t', 1].
Defined.

Lemma opal_pointer_array_set_item_witness :
  ∃ t' r, opal_pointer_array_set_item true sample 3 (Some 5%nat) = Some (t', r).
Proof.
  destruct (opal_pointer_array_set_item_spec true sample 3 (Some 5%nat)) as (t' & r & H & _);
    [apply sample_wf|by vm_compute|by vm_compute|by intros (_ & ? & _)|by exists t', r].
Defined.

Lemma opal_pointer_array_set_item_hole_witness :
  opal_pointer_array_set_item true sample 4 (Some 5%nat) = None.
Proof.
  apply opal_pointer_array_set_item_hole; [apply sample_wf|by vm_compute|by vm_compute|by vm_compute].
Defined.

Lemma opal_pointer_array_test_and_set_item_witness :
  ∃ t' b, opal_pointer_array_test_and_set_item true sample 1 (Some 5%nat) = Some (t', b).
Proof.
  destruct (opal_pointer_array_test_and_set_item_spec true sample 1 5%nat) as (t' & b & H & _);
    [apply sample_wf|by vm_compute|by vm_compute|by intros (? & _)|by exists t', b].
Defined.

Lemma opal_pointer_array_remove_all_witness :
  ∃ t', opal_pointer_array_remove_all sample = Some t' ∧ number_free t' = 3.
Proof.
  destruct (opal_pointer_array_remove_all_spec sample sample_wf) as (t' & H & _ & Hs & Hn & _).
  exists t'. by rewrite Hn, Hs.
Defined.

End PA.
