(* ===== verification/CString.v ===== *)
(** * C strings

    The parts of the C library on which the parsers of the code rely: character
    classes, [strchr], [strtol] and the decimal conversions of [printf].  A
    string is the list of its characters without the closing NUL. *)

From Stdlib Require Import ZArith Lia Ascii.
From stdpp Require Import prelude numbers strings gmap list.
From S2P Require Import Prelude.

Local Open Scope Z_scope.

Abbreviation cstring := (list ascii).

(** String literals as C strings. *)
Definition lit (s : string) : cstring := String.list_ascii_of_string s.

Definition code (c : ascii) : Z := Z.of_nat (nat_of_ascii c).

Definition isdigit (c : ascii) : bool := (48 <=? code c) && (code c <=? 57).
Definition isalpha (c : ascii) : bool :=
  ((65 <=? code c) && (code c <=? 90)) || ((97 <=? code c) && (code c <=? 122)).
Definition isspace (c : ascii) : bool := (code c =? 32) || ((9 <=? code c) && (code c <=? 13)).

Definition COMMA : ascii := ","%char.
Definition LBRACKET : ascii := "["%char.
Definition RBRACKET : ascii := "]"%char.
Definition COLON : ascii := ":"%char.
Definition DASH : ascii := "-"%char.
Definition ZERO : ascii := "0"%char.

Definition ascii_eqb (a b : ascii) : bool := bool_decide (a = b).

(** [span P s] is the longest prefix of [s] whose characters satisfy [P], and the rest. *)
Fixpoint span (P : ascii → bool) (s : cstring) : cstring * cstring :=
  match s with
  | [] => ([], [])
  | c :: s' => if P c then let '(a, b) := span P s' in (c :: a, b) else ([], s)
  end.

(** [cut c s]: the text before the first [c] and, when [c] occurs ([strchr] is not
    NULL), the text after it. *)
Definition cut (c : ascii) (s : cstring) : cstring * option cstring :=
  match span (λ x, negb (ascii_eqb x c)) s with
  | (a, []) => (a, None)
  | (a, _ :: b) => (a, Some b)
  end.

(** The text of a block that holds a string: what precedes its first NUL. *)
Definition NUL : ascii := "000"%char.
Definition c_text (s : cstring) : cstring := (cut NUL s).1.

(** [strcmp]: the first difference as unsigned characters; only the sign is used. *)
Fixpoint text_cmp (a b : cstring) : Z :=
  match a, b with
  | [], [] => 0
  | [], _ :: _ => -1
  | _ :: _, [] => 1
  | c :: a', d :: b' => if code c <? code d then -1 else if code d <? code c then 1 else text_cmp a' b'
  end.

Definition strcmp (a b : cstring) : Z := text_cmp (c_text a) (c_text b).

(** ** Decimal numbers *)

Definition digit_val (c : ascii) : Z := code c - 48.
Definition digit_char (d : Z) : ascii := ascii_of_nat (Z.to_nat (48 + d)).

Definition dec_value (l : cstring) : Z := fold_left (λ a c, 10 * a + digit_val c) l 0.

Definition LONG_MAX : Z := 2 ^ 63 - 1.
Definition LONG_MIN : Z := - 2 ^ 63.

(** [strtol(s, &end, 10)]: blanks, a sign, digits, saturating at the bounds of
    [long]; without digits the value is 0 and [end] is [s]. *)
Definition strtol (s : cstring) : Z * cstring :=
  let '(_, s1) := span isspace s in
  let '(neg, s2) :=
    match s1 with
    | c :: s' => if ascii_eqb c DASH then (true, s')
                 else if ascii_eqb c "+"%char then (false, s') else (false, s1)
    | [] => (false, s1)
    end in
  match span isdigit s2 with
  | ([], _) => (0, s)
  | (ds, rest) =>
      let v := dec_value ds in
      (if neg then Z.max LONG_MIN (- v) else Z.min LONG_MAX v, rest)
  end.

(** Assignment of a [long] to an [int] keeps the low 32 bits. *)
Definition to_int (z : Z) : Z := swrap 32 z.

Definition atoi (s : cstring) : Z := to_int (strtol s).1.

(** The decimal digits of a non-negative number ([%lu], and [%d] up to its sign). *)
Fixpoint dec_fuel (fuel : nat) (n : Z) : cstring :=
  match fuel with
  | O => []
  | S f => if n <? 10 then [digit_char n] else dec_fuel f (n / 10) ++ [digit_char (n mod 10)]
  end.

(** [n < 2 ^ (log2 n + 1)] and each step at least halves [n], so the fuel is enough. *)
Definition print_unsigned (n : Z) : cstring := dec_fuel (S (Z.to_nat (Z.log2 n))) n.

Definition print_int (n : Z) : cstring :=
  if n <? 0 then DASH :: print_unsigned (- n) else print_unsigned n.

(** ** Lemmas *)

Lemma ascii_eqb_eq a b : ascii_eqb a b = true ↔ a = b.
Proof. apply bool_decide_eq_true. Qed.

Lemma ascii_eqb_neq a b : ascii_eqb a b = false ↔ a ≠ b.
Proof. apply bool_decide_eq_false. Qed.

Lemma span_app_stop P l c r :
  Forall (λ x, P x = true) l → P c = false → span P (l ++ c :: r) = (l, c :: r).
Proof.
  intros Hl Hc. induction Hl as [|x l Hx Hl IH]; simpl; [by rewrite Hc|].
  by rewrite Hx, IH.
Qed.

Lemma span_all P l : Forall (λ x, P x = true) l → span P l = (l, []).
Proof. induction 1 as [|x l Hx Hl IH]; simpl; [done|]. by rewrite Hx, IH. Qed.

Lemma span_eq P l a b : span P l = (a, b) →
  l = a ++ b ∧ Forall (λ x, P x = true) a ∧ (∀ c r, b = c :: r → P c = false).
Proof.
  revert a b. induction l as [|x l IH]; intros a b; simpl; [by intros [= <- <-]|].
  destruct (P x) eqn:Hx.
  - destruct (span P l) as [a' b'] eqn:E. intros [= <- <-].
    destruct (IH _ _ eq_refl) as (-> & ? & ?). split_and!; [done|by constructor|done].
  - intros [= <- <-]. split_and!; [done|by constructor|by intros c r [= <- <-]].
Qed.

Lemma cut_app c l r : Forall (λ x, x ≠ c) l → cut c (l ++ c :: r) = (l, Some r).
Proof.
  intros H. unfold cut. rewrite span_app_stop; [done| |].
  - eapply Forall_impl; [exact H|]. intros x Hx. simpl. by rewrite (proj2 (ascii_eqb_neq x c) Hx).
  - by rewrite (proj2 (ascii_eqb_eq c c) eq_refl).
Qed.

Lemma cut_none c l : Forall (λ x, x ≠ c) l → cut c l = (l, None).
Proof.
  intros H. unfold cut. rewrite span_all; [done|].
  eapply Forall_impl; [exact H|]. intros x Hx. simpl. by rewrite (proj2 (ascii_eqb_neq x c) Hx).
Qed.

Lemma code_bounds c : 0 ≤ code c < 256.
Proof.
  unfold code. pose proof (nat_ascii_bounded c). lia.
Qed.

Lemma code_inj a b : code a = code b → a = b.
Proof.
  unfold code. intros H. apply Nat2Z.inj in H.
  by rewrite <-(ascii_nat_embedding a), <-(ascii_nat_embedding b), H.
Qed.

Lemma text_cmp_eq a b : text_cmp a b = 0 ↔ a = b.
Proof.
  revert b. induction a as [|c a IH]; intros [|d b]; cbn; try done.
  destruct (Z.ltb_spec (code c) (code d)); [split; [done|intros [= -> ->]; lia]|].
  destruct (Z.ltb_spec (code d) (code c)); [split; [done|intros [= -> ->]; lia]|].
  rewrite IH. split; [intros ->; f_equal; apply code_inj; lia|by intros [= -> ->]].
Qed.

Lemma isdigit_val c : isdigit c = true ↔ 0 ≤ digit_val c ≤ 9.
Proof. unfold isdigit, digit_val. rewrite andb_true_iff, !Z.leb_le. lia. Qed.

Lemma digit_char_val d : 0 ≤ d ≤ 9 → digit_val (digit_char d) = d.
Proof.
  intros H. unfold digit_val, digit_char, code.
  rewrite nat_ascii_embedding by lia. lia.
Qed.

Lemma digit_char_isdigit d : 0 ≤ d ≤ 9 → isdigit (digit_char d) = true.
Proof. intros H. apply isdigit_val. by rewrite digit_char_val. Qed.

Lemma dec_value_snoc l c : dec_value (l ++ [c]) = 10 * dec_value l + digit_val c.
Proof. unfold dec_value. by rewrite fold_left_app. Qed.

Lemma dec_value_bounds l :
  Forall (λ c, isdigit c = true) l → 0 ≤ dec_value l < 10 ^ Z.of_nat (length l).
Proof.
  induction l as [|c l IH] using rev_ind; intros H; [cbn; lia|].
  apply Forall_app in H as [Hl Hc]. apply Forall_singleton, isdigit_val in Hc.
  rewrite dec_value_snoc, length_app. specialize (IH Hl).
  change (length [c]) with 1%nat.
  rewrite Nat2Z.inj_add, Z.pow_add_r by lia. change (10 ^ Z.of_nat 1) with 10. lia.
Qed.

(** Digit strings of one length are determined by their value. *)
Lemma dec_value_inj l1 l2 :
  length l1 = length l2 →
  Forall (λ c, isdigit c = true) l1 → Forall (λ c, isdigit c = true) l2 →
  dec_value l1 = dec_value l2 → l1 = l2.
Proof.
  revert l2. induction l1 as [|c l1 IH] using rev_ind; intros l2 Hlen H1 H2 Hv.
  { destruct l2; [done|simpl in Hlen; lia]. }
  destruct l2 as [|c2 l2 _] using rev_ind; [rewrite length_app in Hlen; simpl in Hlen; lia|].
  rewrite !length_app in Hlen. simpl in Hlen.
  apply Forall_app in H1 as [H1 Hc]. apply Forall_app in H2 as [H2 Hc2].
  apply Forall_singleton, isdigit_val in Hc. apply Forall_singleton, isdigit_val in Hc2.
  rewrite !dec_value_snoc in Hv.
  rewrite (IH l2) by (done || lia). do 2 f_equal.
  apply code_inj. unfold digit_val in *. lia.
Qed.

Lemma dec_fuel_spec fuel n : 0 ≤ n < 2 ^ Z.of_nat fuel → (0 < fuel)%nat →
  Forall (λ c, isdigit c = true) (dec_fuel fuel n) ∧ dec_value (dec_fuel fuel n) = n ∧
  dec_fuel fuel n ≠ [] ∧
  (∀ d : nat, (0 < d)%nat → n < 10 ^ Z.of_nat d → (length (dec_fuel fuel n) ≤ d)%nat).
Proof.
  revert n. induction fuel as [|f IH]; intros n Hn Hf; [lia|]. simpl.
  destruct (Z.ltb_spec n 10) as [Hlt|Hge].
  - split_and!; [| |done|simpl; lia].
    + apply Forall_singleton, digit_char_isdigit. lia.
    + unfold dec_value. simpl. rewrite digit_char_val by lia. lia.
  - assert (0 < f)%nat as Hf0 by (destruct f; simpl in *; lia).
    rewrite Nat2Z.inj_succ, Z.pow_succ_r in Hn by lia.
    pose proof (Z.div_mod n 10 ltac:(lia)) as Hdm.
    pose proof (Z.mod_pos_bound n 10 ltac:(lia)) as Hmb.
    destruct (IH (n / 10)) as (Ha & Hv & Hne & Hl); [lia|done|].
    split_and!.
    + apply Forall_app. split; [done|]. apply Forall_singleton, digit_char_isdigit. lia.
    + rewrite dec_value_snoc, Hv, digit_char_val by lia. lia.
    + by destruct (dec_fuel f (n / 10)).
    + intros d Hd Hnd. rewrite length_app. change (length [_]) with 1%nat.
      destruct d as [|[|d]]; [lia|simpl in Hnd; lia|].
      assert (n / 10 < 10 ^ Z.of_nat (S d)) as Hq.
      { apply Z.div_lt_upper_bound; [lia|].
        rewrite <-Z.pow_succ_r, <-Nat2Z.inj_succ by lia. done. }
      specialize (Hl (S d) ltac:(lia) Hq). lia.
Qed.

Lemma print_unsigned_spec n : 0 ≤ n →
  Forall (λ c, isdigit c = true) (print_unsigned n) ∧ dec_value (print_unsigned n) = n ∧
  print_unsigned n ≠ [] ∧
  (∀ d : nat, (0 < d)%nat → n < 10 ^ Z.of_nat d → (length (print_unsigned n) ≤ d)%nat).
Proof.
  intros Hn. apply dec_fuel_spec; [|lia]. split; [done|].
  rewrite Nat2Z.inj_succ, Z2Nat.id by apply Z.log2_nonneg.
  destruct (Z.eq_dec n 0) as [->|]; [done|]. apply Z.log2_spec. lia.
Qed.

Lemma digit_not_space c : isdigit c = true → isspace c = false.
Proof.
  intros H%isdigit_val. unfold digit_val in H. unfold isspace.
  zbool; try done; lia.
Qed.

Lemma digit_neq c x : isdigit c = true → isdigit x = false → c ≠ x.
Proof. intros H1 H2 ->. congruence. Qed.

(** [strtol] reads back a digit string that is followed by a non-digit. *)
Lemma strtol_digits ds rest :
  ds ≠ [] → Forall (λ c, isdigit c = true) ds → dec_value ds ≤ LONG_MAX →
  (∀ c r, rest = c :: r → isdigit c = false) →
  strtol (ds ++ rest) = (dec_value ds, rest).
Proof.
  intros Hne Hds Hv Hrest. unfold strtol.
  assert (span isspace (ds ++ rest) = ([], ds ++ rest)) as ->.
  { destruct ds as [|d ds]; [done|]. simpl.
    inversion Hds; subst. by rewrite digit_not_space. }
  assert (span isdigit (ds ++ rest) = (ds, rest)) as Hsp.
  { destruct rest as [|c r].
    - rewrite app_nil_r. by apply span_all.
    - apply span_app_stop; [done|]. by eapply Hrest. }
  destruct ds as [|d ds]; [done|]. cbn [app].
  assert (isdigit d = true) as Hd by (by inversion Hds).
  rewrite (proj2 (ascii_eqb_neq d DASH)) by (by eapply digit_neq).
  rewrite (proj2 (ascii_eqb_neq d "+"%char)) by (by eapply digit_neq).
  cbn [app] in Hsp. rewrite Hsp. f_equal.
  pose proof (dec_value_bounds _ Hds). lia.
Qed.

Lemma strtol_print n rest :
  0 ≤ n ≤ LONG_MAX → (∀ c r, rest = c :: r → isdigit c = false) →
  strtol (print_unsigned n ++ rest) = (n, rest).
Proof.
  intros Hn Hr. destruct (print_unsigned_spec n) as (Hd & Hv & Hne & _); [lia|].
  rewrite strtol_digits by (rewrite ?Hv; done || lia). by rewrite Hv.
Qed.

Lemma to_int_small z : 0 ≤ z ≤ INT_MAX → to_int z = z.
Proof.
  intros H. unfold to_int, swrap, INT_MAX in *.
  rewrite Z.mod_small by lia. zbool; lia.
Qed.

Lemma print_int_nonneg n : 0 ≤ n → print_int n = print_unsigned n.
Proof. intros H. unfold print_int. zbool; [lia|done]. Qed.
