(* ===== verification/Argv.v ===== *)
(** * opal_argv (opal/util/argv.c)

    NULL-terminated arrays of strings.  [None] is the NULL array, [Some l] an
    array whose entries before the closing NULL are [l].  The routines that
    move entries inside the array work on the raw array ([raw]), in which the
    closing NULL is an element. *)

From Stdlib Require Import ZArith Lia Ascii.
From stdpp Require Import prelude numbers strings gmap list.
From S2P Require Import Prelude CString.

Local Open Scope Z_scope.

Module Argv.

Abbreviation argv_t := (option (list cstring)).
Abbreviation raw := (list (option cstring)).

Definition to_raw (l : list cstring) : raw := (Some <$> l) ++ [None].

(** The entries before the first NULL: what every reader of an argv sees. *)
Fixpoint of_raw (r : raw) : list cstring :=
  match r with
  | Some s :: r' => s :: of_raw r'
  | _ => []
  end.

Definition opal_argv_count (argv : argv_t) : Z :=
  match argv with None => 0 | Some l => Z.of_nat (length l) end.

(** [m1] and [m2] are the answers of the allocator for the array and for the
    copy of the string; a failed [realloc] overwrites the caller's pointer, a
    failed [strdup] leaves the array as it was. *)
Definition opal_argv_append_nosize (m1 m2 : bool) (argv : argv_t) (arg : cstring) : argv_t * Z :=
  let l := default [] argv in
  if negb m1 then (None, OPAL_ERR_OUT_OF_RESOURCE)
  else if negb m2 then (Some l, OPAL_ERR_OUT_OF_RESOURCE)
  else (Some (l ++ [arg]), OPAL_SUCCESS).

Definition opal_argv_append (m1 m2 : bool) (argc : Z) (argv : argv_t) (arg : cstring)
    : Z * argv_t * Z :=
  let '(argv', rc) := opal_argv_append_nosize m1 m2 argv arg in
  if rc =? OPAL_SUCCESS then (opal_argv_count argv', argv', OPAL_SUCCESS) else (argc, argv', rc).

(** From here on the allocator answers every request. *)
Definition append (argv : argv_t) (arg : cstring) : argv_t :=
  (opal_argv_append_nosize true true argv arg).1.

(** [for (i = n; 0 < i; i--) a[i] = a[i-1];] *)
Fixpoint shift_up (r : raw) (n : nat) : raw :=
  match n with
  | O => r
  | S n' => shift_up (<[n := default None (r !! n')]> r) n'
  end.

Definition opal_argv_prepend_nosize (argv : argv_t) (arg : cstring) : argv_t * Z :=
  match argv with
  | None => (Some [arg], OPAL_SUCCESS)
  | Some l =>
      let argc := length l in
      let r := <[S argc := None]> (to_raw l ++ [None]) in
      (Some (of_raw (<[0%nat := Some arg]> (shift_up r argc))), OPAL_SUCCESS)
  end.

Definition opal_argv_append_unique_nosize (argv : argv_t) (arg : cstring) (overwrite : bool)
    : argv_t * Z :=
  match argv with
  | None => opal_argv_append_nosize true true argv arg
  | Some l =>
      match first_from (λ s, bool_decide (arg = s)) l 0 (length l) with
      | Some i => (Some (if overwrite then <[i := arg]> l else l), OPAL_SUCCESS)
      | None => opal_argv_append_nosize true true argv arg
      end
  end.

(** One turn of the loop of [opal_argv_split_inter] per unit of fuel; each turn
    consumes at least one character of [src_string]. *)
Fixpoint split_loop (fuel : nat) (src : cstring) (delimiter : ascii) (include_empty : bool)
    (argv : argv_t) : argv_t :=
  match fuel, src with
  | S f, _ :: _ =>
      match span (λ c, negb (ascii_eqb c delimiter)) src with
      | ([], p) =>
          split_loop f (tail p) delimiter include_empty
            (if include_empty then append argv [] else argv)
      | (_, []) => split_loop f [] delimiter include_empty (append argv src)
      | (tok, p) => split_loop f (tail p) delimiter include_empty (append argv tok)
      end
  | _, _ => argv
  end.

Definition opal_argv_split_inter (src_string : cstring) (delimiter : ascii)
    (include_empty : bool) : argv_t :=
  split_loop (length src_string) src_string delimiter include_empty None.

Definition opal_argv_split (s : cstring) (d : ascii) : argv_t := opal_argv_split_inter s d false.
Definition opal_argv_split_with_empty (s : cstring) (d : ascii) : argv_t :=
  opal_argv_split_inter s d true.

(** The loop that fills the result of a join: [n] characters, read from the
    current string [pp] and, at its end, a delimiter and the next string.  [None]
    is a read past the closing NULL of the array. *)
Fixpoint join_loop (n : nat) (pp : cstring) (p : list cstring) (delimiter : ascii)
    : option cstring :=
  match n with
  | O => Some []
  | S n' =>
      match pp with
      | [] => match p with
              | [] => None
              | s :: p' => (delimiter ::.) <$> join_loop n' s p' delimiter
              end
      | c :: pp' => (c ::.) <$> join_loop n' pp' p delimiter
      end
  end.

Definition total_len (l : list cstring) : nat := foldr (λ s n, length s + 1 + n)%nat 0%nat l.

Definition opal_argv_join (argv : argv_t) (delimiter : ascii) : option cstring :=
  match argv with
  | None | Some [] => Some []
  | Some (s :: l) => join_loop (total_len (s :: l) - 1) s l delimiter
  end.

(** [None] is undefined behaviour: with no string in the range the length is 0
    and the code stores before the start of the block. *)
Definition opal_argv_join_range (argv : argv_t) (start end_ : nat) (delimiter : ascii)
    : option cstring :=
  match argv with
  | None | Some [] => Some []
  | Some l =>
      if decide (length l < start)%nat then Some [] else
      match total_len (take (end_ - start) (drop start l)) with
      | O => None
      | S n => match drop start l with
               | [] => None
               | s :: p => join_loop n s p delimiter
               end
      end
  end.

Definition opal_argv_len (argv : argv_t) : Z :=
  match argv with
  | None => 0
  | Some l => foldl (λ n s, n + (Z.of_nat (length s) + 1 + 8)) 8 l
  end.

Definition opal_argv_copy (argv : argv_t) : argv_t :=
  match argv with
  | None => None
  | Some l => foldl append (Some []) l
  end.

(** [for (i = i0; i < i0 + k; ++i) a[i] = a[i + num];] *)
Fixpoint copy_down (r : raw) (i num k : nat) : raw :=
  match k with
  | O => r
  | S k' => copy_down (<[i := default None (r !! (i + num)%nat)]> r) (S i) num k'
  end.

(** [None] is a signed overflow of [start + num_to_delete]. *)
Definition opal_argv_delete (argc : Z) (argv : argv_t) (start num_to_delete : Z)
    : option (Z * argv_t * Z) :=
  match argv with
  | None => Some (argc, argv, OPAL_SUCCESS)
  | Some l =>
      if num_to_delete =? 0 then Some (argc, argv, OPAL_SUCCESS) else
      let count := Z.of_nat (length l) in
      if count <? start then Some (argc, argv, OPAL_SUCCESS)
      else if (start <? 0) || (num_to_delete <? 0) then Some (argc, argv, OPAL_ERR_BAD_PARAM)
      else
        last ← ck_int (start + num_to_delete);
        let suffix_count := Z.max 0 (count - last) in
        let r := copy_down (to_raw l) (Z.to_nat start) (Z.to_nat num_to_delete)
                   (Z.to_nat suffix_count) in
        let i := Z.to_nat (start + suffix_count) in
        Some (argc - num_to_delete, Some (of_raw (take (S i) (<[i := None]> r))), OPAL_SUCCESS)
  end.

(** [for (i = k - 1; i >= 0; --i) a[start + n + i] = a[start + i];] *)
Fixpoint move_up (r : raw) (start n k : nat) : raw :=
  match k with
  | O => r
  | S i => move_up (<[(start + n + i)%nat := default None (r !! (start + i)%nat)]> r) start n i
  end.

(** [for (i = start; ...; ++i) a[i] = strdup(source[i - start]);] *)
Fixpoint fill_from (r : raw) (i : nat) (source : list cstring) : raw :=
  match source with
  | [] => r
  | s :: source' => fill_from (<[i := Some s]> r) (S i) source'
  end.

Definition insert_raw (l : list cstring) (start : nat) (source : list cstring) : list cstring :=
  let target_count := length l in
  let source_count := length source in
  let suffix_count := (target_count - start)%nat in
  let r := to_raw l ++ replicate source_count None in
  let r := move_up r start source_count suffix_count in
  let r := <[(start + suffix_count + source_count)%nat := None]> r in
  of_raw (fill_from r start source).

Definition opal_argv_insert (target : argv_t) (start : Z) (source : argv_t) : argv_t * Z :=
  match target with
  | None => (target, OPAL_ERR_BAD_PARAM)
  | Some l =>
      if start <? 0 then (target, OPAL_ERR_BAD_PARAM) else
      match source with
      | None => (target, OPAL_SUCCESS)
      | Some src =>
          if Z.of_nat (length l) <? start
          then (foldl append target src, OPAL_SUCCESS)
          else (Some (insert_raw l (Z.to_nat start) src), OPAL_SUCCESS)
      end
  end.

Definition opal_argv_insert_element (target : argv_t) (location : Z) (source : option cstring)
    : argv_t * Z :=
  match target with
  | None => (target, OPAL_ERR_BAD_PARAM)
  | Some l =>
      if location <? 0 then (target, OPAL_ERR_BAD_PARAM) else
      match source with
      | None => (target, OPAL_SUCCESS)
      | Some s =>
          if Z.of_nat (length l) <? location
          then (append target s, OPAL_SUCCESS)
          else (Some (insert_raw l (Z.to_nat location) [s]), OPAL_SUCCESS)
      end
  end.

(** ** Joining and splitting *)

(** The reference: the strings with the delimiter between them. *)
Definition join_ref (d : ascii) (l : list cstring) : cstring :=
  match l with
  | [] => []
  | s :: l' => s ++ concat ((d ::.) <$> l')
  end.

Lemma join_loop_app pp p1 p2 d :
  join_loop (length pp + total_len p1) pp (p1 ++ p2) d = Some (pp ++ concat ((d ::.) <$> p1)).
Proof.
  revert pp. induction p1 as [|s p1 IHp]; intros pp.
  - simpl. rewrite Nat.add_0_r, app_nil_r. induction pp as [|c pp IH]; [done|].
    simpl. by rewrite IH.
  - induction pp as [|c pp IH]; simpl.
    + replace (length s + 1 + total_len p1)%nat with (S (length s + total_len p1)) by lia.
      simpl. by rewrite IHp.
    + simpl in IH. by rewrite IH.
Qed.

Lemma join_eq argv d : opal_argv_join argv d = Some (join_ref d (default [] argv)).
Proof.
  destruct argv as [[|s l]|]; [done| |done]. unfold opal_argv_join. simpl default.
  pose proof (join_loop_app s l [] d) as H. rewrite app_nil_r in H.
  replace (total_len (s :: l) - 1)%nat with (length s + total_len l)%nat by (simpl; lia).
  by rewrite H.
Qed.

Definition no_char (d : ascii) (s : cstring) : Prop := Forall (λ c, c ≠ d) s.

Lemma append_eq argv s : append argv s = Some (default [] argv ++ [s]).
Proof. done. Qed.

Lemma split_loop_join d incl l : ∀ fuel acc,
  Forall (λ s, s ≠ [] ∧ no_char d s) l → (length (join_ref d l) ≤ fuel)%nat →
  split_loop fuel (join_ref d l) d incl acc =
  match l with [] => acc | _ => Some (default [] acc ++ l) end.
Proof.
  induction l as [|s l IH]; intros fuel acc Hl Hf; [by destruct fuel|].
  apply Forall_cons in Hl as [[Hne Hs] Hl].
  assert (Forall (λ c, negb (ascii_eqb c d) = true) s) as Hs'.
  { eapply Forall_impl; [exact Hs|]. intros c Hc. simpl.
    by rewrite (proj2 (ascii_eqb_neq c d) Hc). }
  destruct s as [|c s]; [done|].
  destruct fuel as [|fuel]; [simpl in Hf; lia|].
  destruct l as [|s2 l].
  - simpl. rewrite app_nil_r. simpl in *. rewrite span_all by (by inversion Hs').
    inversion Hs' as [|? ? Hc ?]; subst. rewrite Hc. by destruct fuel.
  - cbn [join_ref fmap list_fmap concat app].
    assert (negb (ascii_eqb d d) = false) as Hd
      by (by rewrite (proj2 (ascii_eqb_eq d d) eq_refl)).
    pose proof (span_app_stop (λ c, negb (ascii_eqb c d)) (c :: s) d
                  (s2 ++ concat ((d ::.) <$> l)) Hs' Hd) as Hsp.
    cbn [app] in Hsp.
    cbn [split_loop]. cbn [join_ref fmap list_fmap concat app length] in Hf.
    match goal with |- context [span ?P ?x] => change (span P x) with
      (span (λ c, negb (ascii_eqb c d)) (c :: s ++ d :: s2 ++ concat ((d ::.) <$> l))) end.
    rewrite Hsp. cbn [tail].
    specialize (IH fuel (append acc (c :: s)) Hl).
    cbn [join_ref] in IH. rewrite IH.
    + rewrite append_eq. simpl default. by rewrite <-app_assoc.
    + rewrite !length_app in *. simpl in Hf. rewrite ?length_app in Hf. lia.
Qed.

(** ** Moving entries inside the array *)

Lemma of_to_raw l : of_raw (to_raw l) = l.
Proof. unfold to_raw. induction l as [|s l IH]; [done|]. simpl. f_equal. exact IH. Qed.

Lemma length_to_raw l : length (to_raw l) = S (length l).
Proof. unfold to_raw. rewrite length_app, length_fmap. simpl. lia. Qed.

Lemma to_raw_lookup l i :
  to_raw l !! i = if decide (i < length l)%nat then Some (l !! i)
                  else if decide (i = length l) then Some None else None.
Proof.
  unfold to_raw. rewrite lookup_app, list_lookup_fmap.
  repeat case_decide.
  - destruct (lookup_lt_is_Some_2 l i) as [x Hx]; [done|]. by rewrite Hx.
  - subst. rewrite lookup_ge_None_2 by lia. simpl. by rewrite length_fmap, Nat.sub_diag.
  - rewrite lookup_ge_None_2 by lia. simpl. rewrite length_fmap.
    destruct (i - length l)%nat eqn:E; [lia|]. done.
Qed.

Lemma length_copy_down r i num k : length (copy_down r i num k) = length r.
Proof. revert r i. induction k; intros; simpl; [done|]. by rewrite IHk, length_insert. Qed.

Lemma copy_down_lookup r i num k m :
  (0 < num)%nat → (k = 0 ∨ i + num + k ≤ length r)%nat →
  copy_down r i num k !! m =
  if decide (i ≤ m < i + k)%nat then r !! (m + num)%nat else r !! m.
Proof.
  revert r i. induction k as [|k IH]; intros r i Hn Hl; simpl.
  { case_decide; [lia|done]. }
  rewrite IH by (rewrite ?length_insert; lia).
  destruct (lookup_lt_is_Some_2 r (i + num)) as [x Hx]; [lia|]. rewrite Hx. simpl.
  repeat case_decide; try lia.
  - by rewrite list_lookup_insert_ne by lia.
  - assert (m = i) as -> by lia. by rewrite list_lookup_insert_eq by lia.
  - by rewrite list_lookup_insert_ne by lia.
Qed.

Lemma length_move_up r s n k : length (move_up r s n k) = length r.
Proof. revert r. induction k; intros; simpl; [done|]. by rewrite IHk, length_insert. Qed.

Lemma move_up_lookup r s n k m :
  (s + n + k ≤ length r)%nat → (0 < n)%nat →
  move_up r s n k !! m =
  if decide (s + n ≤ m < s + n + k)%nat then r !! (m - n)%nat else r !! m.
Proof.
  revert r. induction k as [|k IH]; intros r Hl Hn; simpl.
  { case_decide; [lia|done]. }
  rewrite IH by (rewrite ?length_insert; lia).
  destruct (lookup_lt_is_Some_2 r (s + k)) as [x Hx]; [lia|]. rewrite Hx. simpl.
  repeat case_decide; try lia.
  - by rewrite list_lookup_insert_ne by lia.
  - assert (m = s + n + k)%nat as -> by lia. rewrite list_lookup_insert_eq by lia.
    rewrite <-Hx. f_equal. lia.
  - by rewrite list_lookup_insert_ne by lia.
Qed.

Lemma fill_from_lookup r i src m :
  (i + length src ≤ length r)%nat →
  fill_from r i src !! m =
  if decide (i ≤ m < i + length src)%nat then Some (src !! (m - i)%nat) else r !! m.
Proof.
  revert r i. induction src as [|s src IH]; intros r i Hl; simpl in *.
  { case_decide; [lia|done]. }
  rewrite IH by (rewrite ?length_insert; lia).
  repeat case_decide; try lia.
  - replace (m - i)%nat with (S (m - S i)) by lia. done.
  - assert (m = i) as -> by lia. rewrite list_lookup_insert_eq by lia.
    by rewrite Nat.sub_diag.
  - by rewrite list_lookup_insert_ne by lia.
Qed.

(** What a reader sees of an array that agrees with [to_raw l] up to its NULL. *)
Lemma of_raw_prefix r l :
  (∀ m, (m ≤ length l)%nat → r !! m = to_raw l !! m) → of_raw r = l.
Proof.
  revert r. induction l as [|s l IH]; intros r H.
  - specialize (H 0%nat ltac:(simpl; lia)). by destruct r as [|[|] r].
  - pose proof (H 0%nat ltac:(simpl; lia)) as H0. destruct r as [|x r]; [done|].
    simpl in H0. injection H0 as ->. simpl. f_equal. apply IH.
    intros m Hm. apply (H (S m)). simpl. lia.
Qed.

Lemma insert_raw_eq l start src :
  (start ≤ length l)%nat → src ≠ [] →
  insert_raw l start src = take start l ++ src ++ drop start l.
Proof.
  intros Hs Hne. assert (0 < length src)%nat by (destruct src; [done|simpl; lia]).
  unfold insert_raw. apply of_raw_prefix. intros m Hm.
  assert (length (take start l ++ src ++ drop start l) = length l + length src)%nat as Hlen
    by (rewrite !length_app, length_take, length_drop; lia).
  rewrite Hlen in Hm.
  rewrite fill_from_lookup
    by (rewrite length_insert, length_move_up, length_app, length_to_raw, length_replicate; lia).
  rewrite (to_raw_lookup (take _ _ ++ _)), Hlen.
  case_decide as H1.
  - case_decide; [|lia]. f_equal.
    rewrite lookup_app_r, length_take, Nat.min_l by (rewrite ?length_take; lia).
    rewrite lookup_app_l by lia. done.
  - destruct (decide (m = length l + length src)%nat) as [->|].
    + replace (start + (length l - start) + length src)%nat
        with (length l + length src)%nat by lia.
      rewrite list_lookup_insert_eq
        by (rewrite length_move_up, length_app, length_to_raw, length_replicate; lia).
      repeat case_decide; try lia; done.
    + rewrite list_lookup_insert_ne by lia.
      rewrite move_up_lookup by (rewrite ?length_app, ?length_to_raw, ?length_replicate; lia).
      rewrite (decide_True (P := (m < length l + length src)%nat)) by lia.
      case_decide as H2.
      * rewrite lookup_app_l by (rewrite length_to_raw; lia).
        rewrite to_raw_lookup, decide_True by lia. f_equal.
        rewrite (lookup_app_r (take start l)), length_take, Nat.min_l
          by (rewrite ?length_take; lia).
        rewrite lookup_app_r by lia. rewrite lookup_drop. f_equal. lia.
      * rewrite lookup_app_l by (rewrite length_to_raw; lia).
        rewrite to_raw_lookup, decide_True by lia. f_equal.
        rewrite lookup_app_l by (rewrite length_take; lia).
        by rewrite lookup_take, decide_True by lia.
Qed.

Lemma shift_up_move_up r n : shift_up r n = move_up r 0 1 n.
Proof. revert r. induction n as [|n IH]; intros r; [done|]. simpl. by rewrite IH. Qed.

Lemma foldl_append acc l : foldl append (Some acc) l = Some (acc ++ l).
Proof.
  revert acc. induction l as [|s l IH]; intros acc; simpl; [by rewrite app_nil_r|].
  rewrite append_eq. simpl. by rewrite IH, <-app_assoc.
Qed.

(** ** Theorems *)

(** A join followed by a split at the same delimiter gives the array back, whenever
    no string is empty or contains the delimiter; the join itself is the strings
    with the delimiter between them. *)
Theorem opal_argv_split_join l d :
  l ≠ [] → Forall (λ s, s ≠ [] ∧ no_char d s) l →
  ∃ s, opal_argv_join (Some l) d = Some s ∧ s = join_ref d l ∧ opal_argv_split s d = Some l.
Proof.
  intros Hne Hl. exists (join_ref d l). split_and!; [apply join_eq|done|].
  unfold opal_argv_split, opal_argv_split_inter. rewrite split_loop_join by (done || lia).
  by destruct l.
Qed.

(** [join_range] is the join of the strings in the range when the range holds
    at least one string; when it starts at the end of the array, or is empty, the
    code writes before the start of the block it allocated. *)
Theorem opal_argv_join_range_spec l start end_ d :
  l ≠ [] → (start ≤ length l)%nat →
  opal_argv_join_range (Some l) start end_ d =
  if decide (start < length l ∧ start < end_)%nat
  then Some (join_ref d (take (end_ - start) (drop start l))) else None.
Proof.
  intros Hne Hs. unfold opal_argv_join_range. destruct l as [|s0 l0]; [done|].
  set (l := s0 :: l0) in *. rewrite decide_False by lia. case_decide as Hd.
  - destruct (drop start l) as [|s p] eqn:Hdrop.
    { apply (f_equal length) in Hdrop. rewrite length_drop in Hdrop. cbn [length] in Hdrop. lia. }
    destruct (end_ - start)%nat as [|k] eqn:Ek; [lia|]. simpl take. simpl total_len.
    replace (length s + 1 + total_len (take k p))%nat
      with (S (length s + total_len (take k p))) by lia.
    rewrite <-(take_drop k p) at 2. rewrite join_loop_app. done.
  - assert (take (end_ - start) (drop start l) = []) as ->; [|done].
    apply not_and_l in Hd as [Hd|Hd].
    + rewrite drop_ge by lia. by rewrite take_nil.
    + replace (end_ - start)%nat with 0%nat by lia. done.
Qed.

(** [delete] removes exactly the entries in the range that exist, and lowers the
    caller's [argc] by the number asked for: the counter stays the length of the
    array only when the whole range lies inside it. *)
Theorem opal_argv_delete_spec l start num :
  0 ≤ start ≤ Z.of_nat (length l) → 0 < num → start + num ≤ INT_MAX →
  ∃ l', opal_argv_delete (opal_argv_count (Some l)) (Some l) start num =
          Some (Z.of_nat (length l) - num, Some l', OPAL_SUCCESS) ∧
        l' = take (Z.to_nat start) l ++ drop (Z.to_nat (start + num)) l ∧
        (opal_argv_count (Some l') = Z.of_nat (length l) - num ↔
         start + num ≤ Z.of_nat (length l)).
Proof.
  intros Hs Hn Hov. set (l' := take (Z.to_nat start) l ++ drop (Z.to_nat (start + num)) l).
  exists l'. unfold opal_argv_delete.
  destruct (Z.eqb_spec num 0); [lia|]. destruct (Z.ltb_spec (Z.of_nat (length l)) start); [lia|].
  destruct (Z.ltb_spec start 0); [lia|]. destruct (Z.ltb_spec num 0); [lia|]. cbn [orb].
  rewrite ck_int_Some by (unfold INT_MIN; lia). simpl mbind.
  assert (length l' = Z.to_nat (start + Z.max 0 (Z.of_nat (length l) - (start + num)))) as Hlen
    by (unfold l'; rewrite length_app, length_take, length_drop; lia).
  split_and!; [|done|unfold opal_argv_count; rewrite Hlen; lia].
  do 4 f_equal. apply of_raw_prefix. intros m Hm. rewrite Hlen in Hm.
  rewrite lookup_take, decide_True by lia. rewrite to_raw_lookup, Hlen.
  case_decide as Hd.
  - rewrite list_lookup_insert_ne by lia.
    rewrite copy_down_lookup by (rewrite ?length_to_raw; lia).
    unfold l'. case_decide; rewrite to_raw_lookup, decide_True by lia; f_equal.
    + rewrite lookup_app_r by (rewrite length_take; lia).
      rewrite length_take, lookup_drop. f_equal. lia.
    + rewrite lookup_app_l by (rewrite length_take; lia).
      by rewrite lookup_take, decide_True by lia.
  - rewrite decide_True by lia. replace m with (length l') by lia. rewrite <-Hlen.
    apply list_lookup_insert_eq. rewrite length_copy_down, length_to_raw. lia.
Qed.

(** [insert] splices the source into the target at [start], or appends it when
    [start] lies past the end; [insert_element] and [prepend] are the same with one
    string, at [location] and at the front. *)
Theorem opal_argv_insert_spec l src start s :
  0 ≤ start → src ≠ [] →
  opal_argv_insert (Some l) start (Some src) =
    (Some (take (Z.to_nat start) l ++ src ++ drop (Z.to_nat start) l), OPAL_SUCCESS) ∧
  opal_argv_insert_element (Some l) start (Some s) =
    (Some (take (Z.to_nat start) l ++ s :: drop (Z.to_nat start) l), OPAL_SUCCESS) ∧
  opal_argv_prepend_nosize (Some l) s = (Some (s :: l), OPAL_SUCCESS).
Proof.
  intros Hs Hne. unfold opal_argv_insert, opal_argv_insert_element.
  destruct (Z.ltb_spec start 0); [lia|].
  split_and!.
  - destruct (Z.ltb_spec (Z.of_nat (length l)) start).
    + rewrite foldl_append, take_ge, drop_ge, app_nil_r by lia. done.
    + by rewrite insert_raw_eq by (done || lia).
  - destruct (Z.ltb_spec (Z.of_nat (length l)) start).
    + rewrite append_eq, take_ge, drop_ge by lia. done.
    + by rewrite insert_raw_eq by (done || lia).
  - unfold opal_argv_prepend_nosize. do 2 f_equal. apply of_raw_prefix. intros m Hm.
    simpl length in Hm. rewrite shift_up_move_up.
    assert (length (to_raw l ++ [None]) = S (S (length l))) as Hlen
      by (rewrite length_app, length_to_raw; simpl; lia).
    rewrite to_raw_lookup. simpl length.
    destruct m as [|m].
    + rewrite list_lookup_insert_eq by (rewrite length_move_up, length_insert, Hlen; lia). done.
    + rewrite list_lookup_insert_ne by lia.
      rewrite move_up_lookup by (rewrite ?length_insert, ?Hlen; lia).
      destruct (decide (m < length l)%nat).
      * rewrite !decide_True by lia. simpl. rewrite Nat.sub_0_r.
        rewrite list_lookup_insert_ne by lia.
        rewrite lookup_app_l by (rewrite length_to_raw; lia).
        by rewrite to_raw_lookup, decide_True by lia.
      * rewrite !decide_False, decide_True by lia.
        assert (m = length l) as -> by lia.
        by rewrite list_lookup_insert_eq by (rewrite Hlen; lia).
Qed.

Lemma opal_argv_split_join_witness :
  ∃ s, opal_argv_join (Some [lit "ab"; lit "c"]) COMMA = Some s ∧
       s = lit "ab,c" ∧ opal_argv_split s COMMA = Some [lit "ab"; lit "c"].
Proof.
  apply (opal_argv_split_join [lit "ab"; lit "c"] COMMA); [done|].
  repeat constructor; done.
Defined.

Lemma opal_argv_join_range_witness :
  opal_argv_join_range (Some [lit "a"; lit "b"; lit "c"]) 1 3 COMMA = Some (lit "b,c") ∧
  opal_argv_join_range (Some [lit "a"]) 1 3 COMMA = None.
Proof.
  split.
  - rewrite (opal_argv_join_range_spec [lit "a"; lit "b"; lit "c"] 1 3 COMMA);
      [reflexivity|done|simpl; lia].
  - rewrite (opal_argv_join_range_spec [lit "a"] 1 3 COMMA); [reflexivity|done|simpl; lia].
Defined.

Lemma opal_argv_delete_witness :
  ∃ l', opal_argv_delete 2 (Some [lit "a"; lit "b"]) 1 3 = Some (-1, Some l', OPAL_SUCCESS).
Proof.
  destruct (opal_argv_delete_spec [lit "a"; lit "b"] 1 3) as (l' & H & _);
    [simpl; lia|lia|by vm_compute|by exists l'].
Defined.

Lemma opal_argv_insert_witness :
  opal_argv_insert (Some [lit "a"; lit "b"]) 1 (Some [lit "x"]) =
  (Some [lit "a"; lit "x"; lit "b"], OPAL_SUCCESS).
Proof. apply (opal_argv_insert_spec [lit "a"; lit "b"] [lit "x"] 1 []); [lia|done]. Defined.

End Argv.
