(* ===== verification/OpalList.v ===== *)
(** * Linked lists (opal/class/opal_list.c, opal_list.h)

    Circular doubly linked lists around a sentinel that is part of the list object.  Items
    and sentinels are locations of one store, so that the operations write through
    pointers that may alias (the neighbours of an item can both be the sentinel). *)

From Stdlib Require Import ZArith Lia.
From stdpp Require Import prelude numbers gmap list sorting.
From S2P Require Import Prelude.

Local Open Scope Z_scope.

Module OL.

Record opal_list_item_t := mk_item { opal_list_next : option nat; opal_list_prev : option nat }.

(** The items and sentinels, and the lengths of the lists, which are named by their
    sentinels. *)
Record store := mk_store { items : gmap nat opal_list_item_t; lengths : gmap nat Z }.
Implicit Types st : store.

(** Reading and writing a field of the item at a location; [None] is a NULL pointer or
    one that points to nothing. *)
Definition next_of st (p : nat) : option nat := i ← items st !! p; opal_list_next i.
Definition prev_of st (p : nat) : option nat := i ← items st !! p; opal_list_prev i.
Definition set_next (p q : nat) st : option store :=
  i ← items st !! p; Some (mk_store (<[p := mk_item (Some q) (opal_list_prev i)]> (items st)) (lengths st)).
Definition set_prev (p q : nat) st : option store :=
  i ← items st !! p; Some (mk_store (<[p := mk_item (opal_list_next i) (Some q)]> (items st)) (lengths st)).
Definition add_length (lst : nat) (d : Z) st : option store :=
  n ← lengths st !! lst; Some (mk_store (items st) (<[lst := uwrap 64 (n + d)]> (lengths st))).

Definition opal_list_item_construct (item : nat) st : store :=
  mk_store (<[item := mk_item None None]> (items st)) (lengths st).

Definition opal_list_construct (lst : nat) st : store :=
  mk_store (<[lst := mk_item (Some lst) (Some lst)]> (items st)) (<[lst := 0]> (lengths st)).

Definition opal_list_get_size (lst : nat) st : option Z := lengths st !! lst.
Definition opal_list_is_empty (lst : nat) st : option bool := n ← next_of st lst; Some (bool_decide (n = lst)).
Definition opal_list_get_first (lst : nat) st : option nat := next_of st lst.
Definition opal_list_get_last (lst : nat) st : option nat := prev_of st lst.

Definition opal_list_append (lst item : nat) st : option store :=
  sp ← prev_of st lst;
  st ← set_prev item sp st;
  sp ← prev_of st lst;
  st ← set_next sp item st;
  st ← set_next item lst st;
  st ← set_prev lst item st;
  add_length lst 1 st.

Definition opal_list_prepend (lst item : nat) st : option store :=
  sn ← next_of st lst;
  st ← set_next item sn st;
  st ← set_prev item lst st;
  sn ← next_of st lst;
  st ← set_prev sn item st;
  st ← set_next lst item st;
  add_length lst 1 st.

Definition opal_list_insert_pos (lst pos item : nat) st : option store :=
  st ← set_next item pos st;
  pp ← prev_of st pos;
  st ← set_prev item pp st;
  pp ← prev_of st pos;
  st ← set_next pp item st;
  st ← set_prev pos item st;
  add_length lst 1 st.

(** The result is the store and the item before the one removed. *)
Definition opal_list_remove_item (lst item : nat) st : option (store * nat) :=
  ip ← prev_of st item;
  n ← next_of st item;
  st ← set_next ip n st;
  n ← next_of st item;
  ip ← prev_of st item;
  st ← set_prev n ip st;
  st ← add_length lst (-1) st;
  ip ← prev_of st item;
  Some (st, ip).

Definition opal_list_remove_first (lst : nat) st : option (store * option nat) :=
  len ← lengths st !! lst;
  if len =? 0 then Some (st, None) else
  st ← add_length lst (-1) st;
  item ← next_of st lst;
  n ← next_of st item;
  ip ← prev_of st item;
  st ← set_prev n ip st;
  n ← next_of st item;
  st ← set_next lst n st;
  Some (st, Some item).

Definition opal_list_remove_last (lst : nat) st : option (store * option nat) :=
  len ← lengths st !! lst;
  if len =? 0 then Some (st, None) else
  st ← add_length lst (-1) st;
  item ← prev_of st lst;
  ip ← prev_of st item;
  n ← next_of st item;
  st ← set_next ip n st;
  ip ← prev_of st item;
  st ← set_prev lst ip st;
  Some (st, Some item).

(** [n] steps forward. *)
Fixpoint advance (n : nat) (ptr : nat) st : option nat :=
  match n with
  | O => Some ptr
  | S n => ptr ← next_of st ptr; advance n ptr st
  end.

(** The branch for an index other than 0. *)
Definition link_after (ptr item : nat) st : option store :=
  next ← next_of st ptr;
  st ← set_next item next st;
  st ← set_prev item ptr st;
  st ← set_prev next item st;
  set_next ptr item st.

(** The loop counts its steps in an [int]. *)
Definition opal_list_insert (lst item : nat) (idx : Z) st : option (store * bool) :=
  len ← lengths st !! lst;
  if len <=? idx then Some (st, false) else
  st ← (if idx =? 0 then opal_list_prepend lst item st
        else if INT_MAX <? idx - 1 then None
        else ptr ← next_of st lst; (ptr ← advance (Z.to_nat (idx - 1)) ptr st; link_after ptr item st));
  st ← add_length lst 1 st;
  Some (st, true).

Definition opal_list_transfer (pos begin end_ : nat) st : option store :=
  if decide (pos = end_) then Some st else
  ep ← prev_of st end_;
  st ← set_next ep pos st;
  bp ← prev_of st begin;
  st ← set_next bp end_ st;
  pp ← prev_of st pos;
  st ← set_next pp begin st;
  tmp ← prev_of st pos;
  ep ← prev_of st end_;
  st ← set_prev pos ep st;
  bp ← prev_of st begin;
  st ← set_prev end_ bp st;
  set_prev begin tmp st.

Definition opal_list_join (thislist pos xlist : nat) st : option store :=
  n ← opal_list_get_size xlist st;
  if n =? 0 then Some st else
  first ← opal_list_get_first xlist st;
  st ← opal_list_transfer pos first xlist st;
  n ← lengths st !! xlist;
  st ← add_length thislist n st;
  Some (mk_store (items st) (<[xlist := 0]> (lengths st))).

(** The number of items from [tmp] up to [last]. *)
Fixpoint count_to (fuel tmp last : nat) st : option Z :=
  match fuel with
  | O => None
  | S fuel => if decide (tmp = last) then Some 0 else (n ← next_of st tmp; (c ← count_to fuel n last st; Some (c + 1)))
  end.

Definition opal_list_splice (thislist pos xlist first last : nat) st : option store :=
  if decide (first = last) then Some st else
  change ← count_to (size (items st)) first last st;
  st ← opal_list_transfer pos first last st;
  st ← add_length thislist change st;
  add_length xlist (- change) st.

(** [while (NULL != (item = opal_list_remove_first(list))) items[index++] = item;] *)
Fixpoint drain (fuel lst : nat) st : option (store * list nat) :=
  match fuel with
  | O => None
  | S fuel =>
    '(st, item) ← opal_list_remove_first lst st;
    match item with
    | None => Some (st, [])
    | Some item => '(st, l) ← drain fuel lst st; Some (st, item :: l)
    end
  end.

Fixpoint append_all (lst : nat) (l : list nat) st : option store :=
  match l with
  | [] => Some st
  | item :: l => st ← opal_list_append lst item st; append_all lst l st
  end.

(** [qsort] of the C library: a permutation in the order of the comparison. *)
Class Qsort := { qsort : (nat → nat → bool) → list nat → list nat }.

Definition opal_list_sort `{Qsort} (mem : bool) (lst : nat) (compare : nat → nat → bool) st : option (store * Z) :=
  n ← lengths st !! lst;
  if n =? 0 then Some (st, OPAL_SUCCESS) else
  if negb mem then Some (st, OPAL_ERR_OUT_OF_RESOURCE) else
  '(st, l) ← drain (S (size (items st))) lst st;
  st ← append_all lst (qsort compare l) st;
  Some (st, OPAL_SUCCESS).

End OL.
