(* ===== verification/ListSpec.v ===== *)
(** * What a linked list is: a sequence

    The items of an [opal_list_t], in order, as the operations of opal_list.h and
    opal_list.c change them; other lists in the same store are untouched. *)

From Stdlib Require Import ZArith Lia.
From stdpp Require Import prelude numbers gmap list sorting.
From S2P Require Import Prelude OpalList.

Local Open Scope Z_scope.

Module ListSpec.
Import OL.
Implicit Types st : store.

(** ** Chains of links *)

Definition link st (a b : nat) : Prop := next_of st a = Some b ∧ prev_of st b = Some a.

(** From [a] through [l] to [b]. *)
Fixpoint chain st (a : nat) (l : list nat) (b : nat) : Prop :=
  match l with
  | [] => link st a b
  | x :: l => link st a x ∧ chain st x l b
  end.

Lemma chain_app st a l1 x l2 b : chain st a (l1 ++ x :: l2) b ↔ chain st a l1 x ∧ chain st x l2 b.
Proof. revert a. induction l1 as [|y l1 IH]; intros a; cbn; [done|]. rewrite IH. tauto. Qed.

(** A chain depends on the links forward from [a] and [l] and backward from [l] and [b]. *)
Lemma chain_frame st st' a l b : chain st a l b →
  (∀ p, p ∈ a :: l → next_of st' p = next_of st p) → (∀ p, p ∈ l ++ [b] → prev_of st' p = prev_of st p) →
  chain st' a l b.
Proof.
  revert a. induction l as [|x l IH]; intros a; cbn.
  - intros [H1 H2] Hn Hp. split; [rewrite Hn by (by left); done|rewrite Hp by (by left); done].
  - intros [[H1 H2] Hc] Hn Hp. split; [split; [rewrite Hn by (by left); done|rewrite Hp by (by left); done]|].
    apply IH; [done|intros p Hin; apply Hn; by right|intros p Hin; apply Hp; by right].
Qed.

(** Where [chain] starts and ends. *)
Definition last_of (a : nat) (l : list nat) : nat := default a (last l).
Definition head_of (l : list nat) (b : nat) : nat := default b (head l).

Lemma chain_head st a l b : chain st a l b → next_of st a = Some (head_of l b).
Proof. destruct l; cbn; [by intros []|by intros [[] _]]. Qed.

Lemma last_of_cons a x l : last_of a (x :: l) = last_of x l.
Proof. unfold last_of. rewrite last_cons. by destruct (last l). Qed.

Lemma chain_last st a l b : chain st a l b → prev_of st b = Some (last_of a l).
Proof.
  revert a. induction l as [|x l IH]; intros a; cbn; [by intros []|]. intros [_ Hc].
  rewrite (IH x Hc). by rewrite last_of_cons.
Qed.

Record dlist st (s : nat) (l : list nat) : Prop := {
  dl_chain : chain st s l s;
  dl_nodup : NoDup (s :: l);
  dl_length : lengths st !! s = Some (Z.of_nat (length l));
  dl_bound : Z.of_nat (length l) < 2 ^ 64 - 1;
}.

(** ** Single writes *)

Lemma set_next_run st p q : p ∈ dom (items st) →
  ∃ st', set_next p q st = Some st' ∧ dom (items st') = dom (items st) ∧ lengths st' = lengths st ∧
    (∀ r, next_of st' r = if decide (r = p) then Some q else next_of st r) ∧ (∀ r, prev_of st' r = prev_of st r).
Proof.
  intros [i Hi]%elem_of_dom. unfold set_next. rewrite Hi. cbn. eexists. split; [reflexivity|]. split_and!.
  - cbn. rewrite dom_insert_L. apply elem_of_dom_2 in Hi. set_solver.
  - done.
  - intros r. unfold next_of. cbn. case_decide; [subst; by rewrite lookup_insert_eq|by rewrite lookup_insert_ne].
  - intros r. unfold prev_of. cbn. destruct (decide (r = p)) as [->|]; [by rewrite lookup_insert_eq, Hi|by rewrite lookup_insert_ne].
Qed.

Lemma set_prev_run st p q : p ∈ dom (items st) →
  ∃ st', set_prev p q st = Some st' ∧ dom (items st') = dom (items st) ∧ lengths st' = lengths st ∧
    (∀ r, next_of st' r = next_of st r) ∧ (∀ r, prev_of st' r = if decide (r = p) then Some q else prev_of st r).
Proof.
  intros [i Hi]%elem_of_dom. unfold set_prev. rewrite Hi. cbn. eexists. split; [reflexivity|]. split_and!.
  - cbn. rewrite dom_insert_L. apply elem_of_dom_2 in Hi. set_solver.
  - done.
  - intros r. unfold next_of. cbn. destruct (decide (r = p)) as [->|]; [by rewrite lookup_insert_eq, Hi|by rewrite lookup_insert_ne].
  - intros r. unfold prev_of. cbn. case_decide; [subst; by rewrite lookup_insert_eq|by rewrite lookup_insert_ne].
Qed.

Lemma next_of_dom st p q : next_of st p = Some q → p ∈ dom (items st).
Proof. unfold next_of. intros E. apply elem_of_dom. by destruct (items st !! p). Qed.
Lemma prev_of_dom st p q : prev_of st p = Some q → p ∈ dom (items st).
Proof. unfold prev_of. intros E. apply elem_of_dom. by destruct (items st !! p). Qed.

(** One write of an operation: the facts about the store after it. *)
Ltac in_store :=
  repeat match goal with D : dom (items ?st') = dom (items _) |- _ ∈ dom (items ?st') => rewrite D end;
  eauto using next_of_dom, prev_of_dom.

Ltac write :=
  let st' := fresh "st" in let E := fresh "E" in let D := fresh "D" in let L := fresh "L" in
  let N := fresh "N" in let P := fresh "P" in
  match goal with
  | |- context [set_next ?p ?q ?st] =>
    destruct (set_next_run st p q) as (st' & E & D & L & N & P); [in_store|rewrite E; cbn [mbind option_bind]]
  | |- context [set_prev ?p ?q ?st] =>
    destruct (set_prev_run st p q) as (st' & E & D & L & N & P); [in_store|rewrite E; cbn [mbind option_bind]]
  end.

(** What a field holds after some writes. *)
Ltac fields :=
  repeat match goal with
  | N : ∀ r, next_of ?st r = _ |- context [next_of ?st _] => rewrite N
  | P : ∀ r, prev_of ?st r = _ |- context [prev_of ?st _] => rewrite P
  end; repeat case_decide; simplify_eq; try congruence.

Ltac read t v :=
  assert (t = Some v) as -> by fields; cbn [mbind option_bind].

(** ** Inserting and removing, as functions on links *)

Record inserted st st' (a x b : nat) : Prop := {
  in_dom : dom (items st') = dom (items st);
  in_next r : next_of st' r = if decide (r = a) then Some x else if decide (r = x) then Some b else next_of st r;
  in_prev r : prev_of st' r = if decide (r = b) then Some x else if decide (r = x) then Some a else prev_of st r;
}.

Record removed st st' (a x b : nat) : Prop := {
  rm_dom : dom (items st') = dom (items st);
  rm_next r : r ≠ x → next_of st' r = if decide (r = a) then Some b else next_of st r;
  rm_prev r : r ≠ x → prev_of st' r = if decide (r = b) then Some a else prev_of st r;
}.

Lemma cycle_elem (s p : nat) l : p ∈ l ++ [s] → p ∈ s :: l.
Proof. intros [|?%list_elem_of_singleton]%elem_of_app; [by right|]. subst. by left. Qed.

(** Another list. *)
Lemma chain_inserted_other st st' a x b s l : inserted st st' a x b → chain st s l s →
  a ∉ s :: l → b ∉ s :: l → x ∉ s :: l → chain st' s l s.
Proof.
  intros [_ Hn Hp] Hc Ha Hb Hx. eapply chain_frame; [done| |].
  - intros p Hin. rewrite Hn, !decide_False by (by intros ->). done.
  - intros p Hin%cycle_elem.
    rewrite Hp, !decide_False by (by intros ->). done.
Qed.

Lemma chain_removed_other st st' a x b s l : removed st st' a x b → chain st s l s →
  a ∉ s :: l → b ∉ s :: l → x ∉ s :: l → chain st' s l s.
Proof.
  intros [_ Hn Hp] Hc Ha Hb Hx. eapply chain_frame; [done| |].
  - intros p Hin. rewrite Hn, decide_False by (by intros ->). done.
  - intros p Hin%cycle_elem.
    rewrite Hp, decide_False by (by intros ->). done.
Qed.

(** A chain whose last link goes elsewhere. *)
Lemma chain_relink st st' s l c d : chain st s l c → NoDup (s :: l) →
  (∀ p, p ∈ s :: l → p ≠ last_of s l → next_of st' p = next_of st p) → next_of st' (last_of s l) = Some d →
  (∀ p, p ∈ l → prev_of st' p = prev_of st p) → prev_of st' d = Some (last_of s l) → chain st' s l d.
Proof.
  intros Hc Hnd Hn Hlast Hp Hd. destruct l as [|z l' _] using rev_ind; [by split|].
  unfold last_of in *. rewrite last_snoc in *. cbn [default] in *.
  apply chain_app in Hc as [Hc _]. apply chain_app. split; [|by split]. eapply chain_frame; [done| |].
  - intros p Hin. apply Hn; [set_solver|]. intros ->. rewrite app_comm_cons in Hnd. apply NoDup_app in Hnd as (_ & Hnd & _).
    eapply Hnd; [done|]. by left.
  - intros p Hin. by apply Hp.
Qed.

(** A chain that is entered from elsewhere. *)
Lemma chain_rehead st st' c e l s : chain st c l s → NoDup (l ++ [s]) →
  (∀ p, p ∈ l → next_of st' p = next_of st p) → (∀ p, p ∈ l ++ [s] → p ≠ head_of l s → prev_of st' p = prev_of st p) →
  next_of st' e = Some (head_of l s) → prev_of st' (head_of l s) = Some e → chain st' e l s.
Proof.
  intros Hc Hnd Hn Hp He Hh. destruct l as [|y l]; [by split|]. cbn in *. apply NoDup_cons in Hnd as [Hy Hnd].
  destruct Hc as [_ Hc]. split; [by split|]. eapply chain_frame; [done|done|].
  intros p Hin. apply Hp; [by right|]. by intros ->.
Qed.

Lemma last_of_elem s l : last_of s l ∈ s :: l.
Proof.
  destruct l as [|z l _] using rev_ind; [by left|]. unfold last_of. rewrite last_snoc. cbn. right. apply elem_of_app. right. by left.
Qed.
Lemma head_of_elem l s : head_of l s ∈ l ++ [s].
Proof. destruct l; by left. Qed.

Lemma dlist_split_links st s l1 x l2 : chain st s (l1 ++ x :: l2) s → prev_of st x = Some (last_of s l1) ∧ next_of st x = Some (head_of l2 s).
Proof. intros [H1 H2]%chain_app. split; [by apply chain_last in H1|by apply chain_head in H2]. Qed.

(** The neighbours of a position. *)
Lemma dlist_gap st s l1 l2 : chain st s (l1 ++ l2) s →
  next_of st (last_of s l1) = Some (head_of l2 s) ∧ prev_of st (head_of l2 s) = Some (last_of s l1).
Proof.
  destruct l2 as [|y l2]; cbn.
  - rewrite app_nil_r. intros Hc. split; [|by apply chain_last in Hc].
    destruct l1 as [|z l1 _] using rev_ind; [by destruct Hc|]. apply chain_app in Hc as [_ []].
    unfold last_of. by rewrite last_snoc.
  - intros [H1 _]%chain_app. split; [|by apply chain_last in H1].
    destruct l1 as [|z l1 _] using rev_ind; [by destruct H1|]. apply chain_app in H1 as [_ []].
    unfold last_of. by rewrite last_snoc.
Qed.

(** The two ends of a position are apart from the items on the other side. *)
Lemma ends_apart s l1 l2 : NoDup (s :: l1 ++ l2) →
  (∀ p, p ∈ l1 → p ≠ head_of l2 s) ∧ (∀ p, p ∈ l2 → p ≠ last_of s l1) ∧
  head_of l2 s ∈ s :: l1 ++ l2 ∧ last_of s l1 ∈ s :: l1 ++ l2 ∧ NoDup (s :: l1) ∧ NoDup (l2 ++ [s]).
Proof.
  intros Hnd. apply NoDup_cons in Hnd as [Hs Hnd]. apply NoDup_app in Hnd as (Hn1 & Hdis & Hn2).
  rewrite elem_of_app in Hs.
  pose proof (last_of_elem s l1) as Ha. pose proof (head_of_elem l2 s) as Hb. split_and!.
  - intros p Hin ->. apply elem_of_app in Hb as [Hb|Hb%list_elem_of_singleton]; [by eapply Hdis|]. rewrite Hb in Hin. tauto.
  - intros p Hin ->. apply elem_of_cons in Ha as [Ha|Ha]; [rewrite Ha in Hin; tauto|]. by eapply Hdis.
  - apply cycle_elem in Hb. apply elem_of_cons in Hb as [->|Hb]; [by left|]. right. apply elem_of_app. by right.
  - apply elem_of_cons in Ha as [->|Ha]; [by left|]. right. apply elem_of_app. by left.
  - constructor; [tauto|done].
  - apply NoDup_app. split_and!; [done| |apply NoDup_singleton]. intros p Hin ->%list_elem_of_singleton. tauto.
Qed.

Lemma elem_left (p s : nat) l1 l2 : p ∈ s :: l1 → p ∈ s :: l1 ++ l2.
Proof. rewrite !elem_of_cons, elem_of_app. tauto. Qed.
Lemma elem_right (p s : nat) l1 l2 : p ∈ l2 ++ [s] → p ∈ s :: l1 ++ l2.
Proof. rewrite elem_of_cons, !elem_of_app, list_elem_of_singleton. tauto. Qed.

Lemma chain_insert st st' s l1 l2 x : chain st s (l1 ++ l2) s → NoDup (s :: l1 ++ l2) → x ∉ s :: l1 ++ l2 →
  inserted st st' (last_of s l1) x (head_of l2 s) → chain st' s (l1 ++ x :: l2) s.
Proof.
  intros Hc Hnd Hx [_ Hn Hp]. destruct (ends_apart s l1 l2 Hnd) as (Hb1 & Ha2 & Hb & Ha & Hnd1 & Hnd2).
  assert (∀ p, p ∈ s :: l1 ++ l2 → p ≠ x) as Hpx by (by intros p Hin ->).
  pose proof (dlist_gap _ _ _ _ Hc) as [Hg1 Hg2]. apply chain_app. split.
  - apply (chain_relink st _ _ _ (head_of l2 s)); [|done|intros p Hin Hne|by rewrite Hn, decide_True|intros p Hin|].
    + destruct l2; [by rewrite app_nil_r in Hc|by apply chain_app in Hc as [? _]].
    + rewrite Hn, !decide_False; [done| |done]. by apply Hpx, elem_left.
    + rewrite Hp, !decide_False; [done| |by apply Hb1]. apply Hpx, elem_left. by right.
    + rewrite Hp. rewrite decide_False by (by apply not_eq_sym, Hpx). by rewrite decide_True.
  - apply (chain_rehead st _ (last_of s l1)); [|done|intros p Hin|intros p Hin Hne| |].
    + destruct l2 as [|y l2]; cbn; [by split|]. apply chain_app in Hc as [_ Hc]. by split.
    + rewrite Hn, !decide_False; [done| |by apply Ha2]. apply Hpx, elem_right, elem_of_app. by left.
    + rewrite Hp, !decide_False; [done| |done]. by apply Hpx, elem_right.
    + rewrite Hn. rewrite decide_False by (by apply not_eq_sym, Hpx). by rewrite decide_True.
    + by rewrite Hp, decide_True.
Qed.

Lemma NoDup_without (s x : nat) l1 l2 : NoDup (s :: l1 ++ x :: l2) → NoDup (s :: l1 ++ l2) ∧ x ∉ s :: l1 ++ l2.
Proof.
  intros Hnd. assert (s :: l1 ++ x :: l2 ≡ₚ x :: s :: l1 ++ l2) as Hp by solve_Permutation.
  rewrite Hp in Hnd. apply NoDup_cons in Hnd. tauto.
Qed.

Lemma chain_remove st st' s l1 l2 x : chain st s (l1 ++ x :: l2) s → NoDup (s :: l1 ++ x :: l2) →
  removed st st' (last_of s l1) x (head_of l2 s) → chain st' s (l1 ++ l2) s.
Proof.
  intros Hc [Hnd Hx]%NoDup_without [_ Hn Hp]. destruct (ends_apart s l1 l2 Hnd) as (Hb1 & Ha2 & Hb & Ha & Hnd1 & Hnd2).
  assert (∀ p, p ∈ s :: l1 ++ l2 → p ≠ x) as Hpx by (by intros p Hin ->).
  assert (chain st' s l1 (head_of l2 s)) as Hleft.
  { apply (chain_relink st _ _ _ x); [by apply chain_app in Hc as [? _]|done|intros p Hin Hne| |intros p Hin|].
    - rewrite Hn, decide_False; [done|done|]. by apply Hpx, elem_left.
    - rewrite Hn, decide_True; [done|done|]. by apply Hpx.
    - rewrite Hp, decide_False; [done|by apply Hb1|]. apply Hpx, elem_left. by right.
    - rewrite Hp, decide_True; [done|done|]. by apply Hpx. }
  destruct l2 as [|y l2]; [by rewrite app_nil_r|]. apply chain_app. split; [done|].
  apply chain_app in Hc as [_ [_ Hc]]. cbn in Hnd2. apply NoDup_cons in Hnd2 as [Hy Hnd2].
  eapply chain_frame; [done| |].
  - intros p Hin. rewrite Hn, decide_False; [done|by apply Ha2|]. apply Hpx, elem_right, elem_of_app. by left.
  - intros p Hin. rewrite Hp, decide_False; [done|by intros ->|]. apply Hpx, elem_right. by right.
Qed.

(** ** Lengths *)

Lemma add_length_run st s n d : lengths st !! s = Some n →
  ∃ st', add_length s d st = Some st' ∧ items st' = items st ∧ lengths st' = <[s := uwrap 64 (n + d)]> (lengths st).
Proof. intros Hn. unfold add_length. rewrite Hn. cbn. by eexists. Qed.

Lemma next_of_items st st' p : items st' = items st → next_of st' p = next_of st p.
Proof. intros E. unfold next_of. by rewrite E. Qed.
Lemma prev_of_items st st' p : items st' = items st → prev_of st' p = prev_of st p.
Proof. intros E. unfold prev_of. by rewrite E. Qed.

Lemma inserted_items st st1 st' a x b : inserted st st1 a x b → items st' = items st1 → inserted st st' a x b.
Proof.
  intros [Hd Hn Hp] E. split; [by rewrite E|intros r; by rewrite (next_of_items st1)|intros r; by rewrite (prev_of_items st1)].
Qed.
Lemma removed_items st st1 st' a x b : removed st st1 a x b → items st' = items st1 → removed st st' a x b.
Proof.
  intros [Hd Hn Hp] E. split; [by rewrite E|intros r; rewrite (next_of_items st1) by done; apply Hn|intros r; rewrite (prev_of_items st1) by done; apply Hp].
Qed.

(** *** The outcome of an insertion and of a removal *)

(** [x] goes between [l1] and [l2]; nothing else in the store changes. *)
Definition inserts st st' (s : nat) (l1 : list nat) (x : nat) (l2 : list nat) : Prop :=
  dlist st' s (l1 ++ x :: l2) ∧ dom (items st') = dom (items st) ∧
  ∀ s' l', dlist st s' l' → (∀ p, p ∈ s' :: l' → p ∉ s :: x :: l1 ++ l2) → dlist st' s' l'.

Definition removes st st' (s : nat) (l1 : list nat) (x : nat) (l2 : list nat) : Prop :=
  dlist st' s (l1 ++ l2) ∧ dom (items st') = dom (items st) ∧
  ∀ s' l', dlist st s' l' → (∀ p, p ∈ s' :: l' → p ∉ s :: l1 ++ x :: l2) → dlist st' s' l'.

Lemma insert_outcome st st' s l1 x l2 : dlist st s (l1 ++ l2) → x ∉ s :: l1 ++ l2 → Z.of_nat (length (l1 ++ l2)) < 2 ^ 64 - 2 →
  inserted st st' (last_of s l1) x (head_of l2 s) →
  lengths st' = <[s := uwrap 64 (Z.of_nat (length (l1 ++ l2)) + 1)]> (lengths st) → inserts st st' s l1 x l2.
Proof.
  intros [Hc Hnd Hl Hb] Hx Hlt Hins Hlen. pose proof Hins as [Hdom _ _]. split_and!; [|done|].
  - split; [by eapply chain_insert| | |].
    + assert (s :: l1 ++ x :: l2 ≡ₚ x :: s :: l1 ++ l2) as -> by solve_Permutation. by constructor.
    + rewrite Hlen, lookup_insert_eq. f_equal. unfold uwrap. rewrite !length_app in *. cbn [length]. rewrite Z.mod_small by lia. lia.
    + rewrite !length_app in *. cbn [length]. lia.
  - intros s' l' [Hc' Hnd' Hl' Hb'] Hdis. destruct (ends_apart s l1 l2 Hnd) as (_ & _ & Hbin & Hain & _ & _).
    assert (∀ p, p ∈ s :: l1 ++ l2 → p ∉ s' :: l') as Hother.
    { intros p Hin Hin'. apply (Hdis p Hin'). apply elem_of_cons in Hin as [->|]; [by left|by right; right]. }
    split; [|done| |done].
    + eapply chain_inserted_other; [done|done|by apply Hother|by apply Hother|]. intros Hin. apply (Hdis x Hin). right. by left.
    + rewrite Hlen, lookup_insert_ne; [done|]. intros <-. apply (Hdis s); by left.
Qed.

Lemma remove_outcome st st' s l1 x l2 : dlist st s (l1 ++ x :: l2) → removed st st' (last_of s l1) x (head_of l2 s) →
  lengths st' = <[s := uwrap 64 (Z.of_nat (length (l1 ++ x :: l2)) - 1)]> (lengths st) → removes st st' s l1 x l2.
Proof.
  intros [Hc Hnd Hl Hb] Hrm Hlen. pose proof Hrm as [Hdom _ _]. pose proof (NoDup_without s x l1 l2 Hnd) as [Hnd1 Hx].
  split_and!; [|done|].
  - split; [by eapply chain_remove|done| |].
    + rewrite Hlen, lookup_insert_eq. f_equal. unfold uwrap. rewrite !length_app in *. cbn [length] in *. rewrite Z.mod_small by lia. lia.
    + rewrite !length_app in *. cbn [length] in *. lia.
  - intros s' l' [Hc' Hnd' Hl' Hb'] Hdis. destruct (ends_apart s l1 l2 Hnd1) as (_ & _ & Hbin & Hain & _ & _).
    assert (∀ p, p ∈ s :: l1 ++ l2 → p ∉ s' :: l') as Hother.
    { intros p Hin Hin'. apply (Hdis p Hin'). rewrite elem_of_cons, elem_of_app in Hin. rewrite elem_of_cons, elem_of_app, elem_of_cons. tauto. }
    split; [|done| |done].
    + eapply chain_removed_other; [done|done|by apply Hother|by apply Hother|]. intros Hin. apply (Hdis x Hin). right.
      apply elem_of_app. right. by left.
    + rewrite Hlen, lookup_insert_ne; [done|]. intros <-. apply (Hdis s); by left.
Qed.

(** ** Operations *)

(** The writes of each operation, for any neighbours [a] and [b] of the place. *)
Section writes.
Context (st : store) (s x : nat) (n : Z).
Hypothesis Hlen : lengths st !! s = Some n.
Hypothesis Hx : x ∈ dom (items st).
Hypothesis Hs : s ∈ dom (items st).

Lemma append_writes a : prev_of st s = Some a → a ∈ dom (items st) → x ≠ s → x ≠ a →
  ∃ st', opal_list_append s x st = Some st' ∧ inserted st st' a x s ∧ lengths st' = <[s := uwrap 64 (n + 1)]> (lengths st).
Proof using All.
  intros Hsa Had Hxs Hxa. unfold opal_list_append. rewrite Hsa. cbn [mbind option_bind].
  write. read (prev_of st0 s) a. write. write. write.
  destruct (add_length_run st3 s n 1) as (st' & -> & Ei & El); [by rewrite L2, L1, L0, L|].
  exists st'. split_and!; [done| |by rewrite El, L2, L1, L0, L].
  eapply inserted_items; [|done]. split; [by rewrite D2, D1, D0|intros r; fields..].
Qed.

Lemma prepend_writes b : next_of st s = Some b → b ∈ dom (items st) → x ≠ s → x ≠ b →
  ∃ st', opal_list_prepend s x st = Some st' ∧ inserted st st' s x b ∧ lengths st' = <[s := uwrap 64 (n + 1)]> (lengths st).
Proof using All.
  intros Hsb Hbd Hxs Hxb. unfold opal_list_prepend. rewrite Hsb. cbn [mbind option_bind].
  write. write. read (next_of st1 s) b. write. write.
  destruct (add_length_run st3 s n 1) as (st' & -> & Ei & El); [by rewrite L2, L1, L0, L|].
  exists st'. split_and!; [done| |by rewrite El, L2, L1, L0, L].
  eapply inserted_items; [|done]. split; [by rewrite D2, D1, D0|intros r; fields..].
Qed.

Lemma insert_pos_writes a b : next_of st a = Some b → prev_of st b = Some a → x ≠ a → x ≠ b →
  ∃ st', opal_list_insert_pos s b x st = Some st' ∧ inserted st st' a x b ∧ lengths st' = <[s := uwrap 64 (n + 1)]> (lengths st).
Proof using All.
  intros Hab Hba Hxa Hxb. unfold opal_list_insert_pos.
  write. read (prev_of st0 b) a. write. read (prev_of st1 b) a. write. write.
  destruct (add_length_run st3 s n 1) as (st' & -> & Ei & El); [by rewrite L2, L1, L0, L|].
  exists st'. split_and!; [done| |by rewrite El, L2, L1, L0, L].
  eapply inserted_items; [|done]. split; [by rewrite D2, D1, D0|intros r; fields..].
Qed.

Lemma link_after_writes a b : next_of st a = Some b → b ∈ dom (items st) → x ≠ a → x ≠ b →
  ∃ st', link_after a x st = Some st' ∧ inserted st st' a x b ∧ lengths st' = lengths st.
Proof using Hx.
  intros Hab Hbd Hxa Hxb. unfold link_after. rewrite Hab. cbn [mbind option_bind]. write. write. write. write.
  eexists. split_and!; [done| |by rewrite L2, L1, L0]. split; [by rewrite D2, D1, D0|intros r; fields..].
Qed.

Lemma remove_item_writes a b : prev_of st x = Some a → next_of st x = Some b → a ∈ dom (items st) → b ∈ dom (items st) →
  x ≠ a → x ≠ b →
  ∃ st', opal_list_remove_item s x st = Some (st', a) ∧ removed st st' a x b ∧ lengths st' = <[s := uwrap 64 (n - 1)]> (lengths st).
Proof using Hlen.
  intros Hp Hn Had Hbd Hxa Hxb. unfold opal_list_remove_item. rewrite Hp, Hn. cbn [mbind option_bind].
  write. read (next_of st0 x) b. read (prev_of st0 x) a. write.
  destruct (add_length_run st1 s n (-1)) as (st' & -> & Ei & El); [by rewrite L0, L|].
  cbn [mbind option_bind]. rewrite (prev_of_items st1) by done. read (prev_of st1 x) a.
  exists st'. split_and!; [done| |by rewrite El, L0, L].
  eapply removed_items; [|done]. split; [by rewrite D0|intros r Hr; fields..].
Qed.

Lemma remove_first_writes b : n ≠ 0 → next_of st s = Some x → prev_of st x = Some s → next_of st x = Some b →
  b ∈ dom (items st) → x ≠ s → x ≠ b →
  ∃ st', opal_list_remove_first s st = Some (st', Some x) ∧ removed st st' s x b ∧ lengths st' = <[s := uwrap 64 (n - 1)]> (lengths st).
Proof using All.
  intros Hnz Hsx Hp Hn Hbd Hxs Hxb. unfold opal_list_remove_first. rewrite Hlen. cbn [mbind option_bind].
  destruct (Z.eqb_spec n 0); [done|]. destruct (add_length_run st s n (-1) Hlen) as (st0 & -> & Ei & El). cbn [mbind option_bind].
  assert (∀ r, next_of st0 r = next_of st r) as N by (intros; by apply next_of_items).
  assert (∀ r, prev_of st0 r = prev_of st r) as P by (intros; by apply prev_of_items).
  assert (dom (items st0) = dom (items st)) as D by (by rewrite Ei).
  read (next_of st0 s) x. read (next_of st0 x) b. read (prev_of st0 x) s. write. read (next_of st1 x) b. write.
  exists st2. split_and!; [done| |by rewrite L0, L, El]. split; [by rewrite D1, D0|intros r Hr; fields..].
Qed.

Lemma remove_last_writes a : n ≠ 0 → prev_of st s = Some x → prev_of st x = Some a → next_of st x = Some s →
  a ∈ dom (items st) → x ≠ s → x ≠ a →
  ∃ st', opal_list_remove_last s st = Some (st', Some x) ∧ removed st st' a x s ∧ lengths st' = <[s := uwrap 64 (n - 1)]> (lengths st).
Proof using All.
  intros Hnz Hsx Hp Hn Had Hxs Hxa. unfold opal_list_remove_last. rewrite Hlen. cbn [mbind option_bind].
  destruct (Z.eqb_spec n 0); [done|]. destruct (add_length_run st s n (-1) Hlen) as (st0 & -> & Ei & El). cbn [mbind option_bind].
  assert (∀ r, next_of st0 r = next_of st r) as N by (intros; by apply next_of_items).
  assert (∀ r, prev_of st0 r = prev_of st r) as P by (intros; by apply prev_of_items).
  assert (dom (items st0) = dom (items st)) as D by (by rewrite Ei).
  read (prev_of st0 s) x. read (prev_of st0 x) a. read (next_of st0 x) s. write. read (prev_of st1 x) a. write.
  exists st2. split_and!; [done| |by rewrite L0, L, El]. split; [by rewrite D1, D0|intros r Hr; fields..].
Qed.
End writes.

(** The operations on the list of [s]. *)
Section ops.
Context (st : store) (s x : nat).

(** The facts about the neighbours of a position, for the writes there. *)
Lemma gap_facts l1 l2 : dlist st s (l1 ++ l2) → x ∉ s :: l1 ++ l2 →
  next_of st (last_of s l1) = Some (head_of l2 s) ∧ prev_of st (head_of l2 s) = Some (last_of s l1) ∧
  last_of s l1 ∈ dom (items st) ∧ head_of l2 s ∈ dom (items st) ∧ s ∈ dom (items st) ∧
  x ≠ s ∧ x ≠ last_of s l1 ∧ x ≠ head_of l2 s.
Proof.
  intros [Hc Hnd _ _] Hx. pose proof (dlist_gap st s l1 l2 Hc) as [Hab Hba].
  destruct (ends_apart s l1 l2 Hnd) as (_ & _ & Hb & Ha & _ & _). pose proof (chain_head _ _ _ _ Hc) as Hs.
  split_and!; [done|done|by eapply next_of_dom|by eapply prev_of_dom|by eapply next_of_dom|..]; intros E; apply Hx; rewrite E; [by left|done..].
Qed.

Lemma around_facts l1 l2 : dlist st s (l1 ++ x :: l2) →
  prev_of st x = Some (last_of s l1) ∧ next_of st x = Some (head_of l2 s) ∧
  last_of s l1 ∈ dom (items st) ∧ head_of l2 s ∈ dom (items st) ∧ x ∈ dom (items st) ∧ s ∈ dom (items st) ∧
  x ≠ s ∧ x ≠ last_of s l1 ∧ x ≠ head_of l2 s.
Proof.
  intros [Hc Hnd _ _]. destruct (dlist_split_links st s l1 x l2 Hc) as [Hp Hn].
  pose proof (NoDup_without s x l1 l2 Hnd) as [Hnd1 Hx]. destruct (ends_apart s l1 l2 Hnd1) as (_ & _ & Hb & Ha & _ & _).
  pose proof (dlist_gap st s l1 (x :: l2) Hc) as [Hg _]. pose proof (chain_head _ _ _ _ Hc) as Hs.
  assert (prev_of st (head_of l2 s) = Some x) as Hg'.
  { change (l1 ++ x :: l2) with (l1 ++ [x] ++ l2) in Hc. rewrite app_assoc in Hc. apply dlist_gap in Hc as [_ Hc]. unfold last_of in Hc. by rewrite last_snoc in Hc. }
  split_and!; [done|done|by eapply next_of_dom|by eapply prev_of_dom|by eapply next_of_dom|by eapply next_of_dom|..];
    intros E; apply Hx; rewrite E; [by left|done..].
Qed.

Lemma append_run l : dlist st s l → x ∈ dom (items st) → x ∉ s :: l → Z.of_nat (length l) < 2 ^ 64 - 2 →
  ∃ st', opal_list_append s x st = Some st' ∧ inserts st st' s l x [].
Proof.
  intros Hl Hx Hnin Hlt. rewrite <-(app_nil_r l) in Hl, Hnin, Hlt. destruct (gap_facts l [] Hl Hnin) as (Hn & Hp & Ha & Hb & Hs & Hne & Hna & Hnb).
  destruct (append_writes st s x _ (dl_length _ _ _ Hl) Hx Hs (last_of s l)) as (st' & E & Hi & El); [done..|].
  exists st'. split; [done|]. by apply insert_outcome.
Qed.

Lemma prepend_run l : dlist st s l → x ∈ dom (items st) → x ∉ s :: l → Z.of_nat (length l) < 2 ^ 64 - 2 →
  ∃ st', opal_list_prepend s x st = Some st' ∧ inserts st st' s [] x l.
Proof.
  intros Hl Hx Hnin Hlt. destruct (gap_facts [] l Hl Hnin) as (Hn & Hp & Ha & Hb & Hs & Hne & Hna & Hnb).
  destruct (prepend_writes st s x _ (dl_length _ _ _ Hl) Hx Hs (head_of l s)) as (st' & E & Hi & El); [done..|].
  exists st'. split; [done|]. by apply insert_outcome.
Qed.

Lemma insert_pos_run l1 l2 : dlist st s (l1 ++ l2) → x ∈ dom (items st) → x ∉ s :: l1 ++ l2 →
  Z.of_nat (length (l1 ++ l2)) < 2 ^ 64 - 2 →
  ∃ st', opal_list_insert_pos s (head_of l2 s) x st = Some st' ∧ inserts st st' s l1 x l2.
Proof.
  intros Hl Hx Hnin Hlt. destruct (gap_facts l1 l2 Hl Hnin) as (Hn & Hp & Ha & Hb & Hs & Hne & Hna & Hnb).
  destruct (insert_pos_writes st s x _ (dl_length _ _ _ Hl) Hx Hs (last_of s l1) (head_of l2 s)) as (st' & E & Hi & El); [done..|].
  exists st'. split; [done|]. by apply insert_outcome.
Qed.

Lemma remove_item_run l1 l2 : dlist st s (l1 ++ x :: l2) →
  ∃ st', opal_list_remove_item s x st = Some (st', last_of s l1) ∧ removes st st' s l1 x l2.
Proof.
  intros Hl. destruct (around_facts l1 l2 Hl) as (Hp & Hn & Ha & Hb & Hx & Hs & Hxs & Hxa & Hxb).
  destruct (remove_item_writes st s x _ (dl_length _ _ _ Hl) (last_of s l1) (head_of l2 s)) as (st' & E & Hi & El); [done..|].
  exists st'. split; [done|]. by apply remove_outcome.
Qed.

Lemma remove_first_run l : dlist st s (x :: l) →
  ∃ st', opal_list_remove_first s st = Some (st', Some x) ∧ removes st st' s [] x l.
Proof.
  intros Hl. destruct (around_facts [] l Hl) as (Hp & Hn & Ha & Hb & Hx & Hs & Hxs & Hxa & Hxb).
  pose proof (chain_head _ _ _ _ (dl_chain _ _ _ Hl)) as Hsx.
  destruct (remove_first_writes st s x _ (dl_length _ _ _ Hl) Hx Hs (head_of l s)) as (st' & E & Hi & El); [done..|].
  exists st'. split; [done|]. by apply remove_outcome.
Qed.

Lemma remove_last_run l : dlist st s (l ++ [x]) →
  ∃ st', opal_list_remove_last s st = Some (st', Some x) ∧ removes st st' s l x [].
Proof.
  intros Hl. destruct (around_facts l [] Hl) as (Hp & Hn & Ha & Hb & Hx & Hs & Hxs & Hxa & Hxb).
  pose proof (chain_last _ _ _ _ (dl_chain _ _ _ Hl)) as Hsx. unfold last_of in Hsx at 1. rewrite last_snoc in Hsx.
  destruct (remove_last_writes st s x _ (dl_length _ _ _ Hl) Hx Hs (last_of s l)) as (st' & E & Hi & El); [|done..|].
  { rewrite length_app. cbn. lia. }
  exists st'. split; [done|]. by apply remove_outcome.
Qed.

Lemma remove_empty_run : dlist st s [] →
  opal_list_remove_first s st = Some (st, None) ∧ opal_list_remove_last s st = Some (st, None).
Proof. intros [_ _ Hl _]. unfold opal_list_remove_first, opal_list_remove_last. by rewrite Hl. Qed.

(** [advance] walks along the chain. *)
Lemma advance_chain l1 a y l2 b : chain st a (l1 ++ y :: l2) b → advance (length l1) (head_of l1 y) st = Some y.
Proof.
  revert a. induction l1 as [|z l1 IH]; intros a Hc; cbn; [done|]. destruct Hc as [_ Hc]. cbn.
  assert (next_of st z = Some (head_of l1 y)) as ->.
  { apply chain_head in Hc. rewrite Hc. by destruct l1. }
  cbn. by eapply IH.
Qed.

(** An index from 1 on: the item comes to stand there. *)
Lemma insert_run l1 l2 : dlist st s (l1 ++ l2) → x ∈ dom (items st) → x ∉ s :: l1 ++ l2 →
  Z.of_nat (length (l1 ++ l2)) < 2 ^ 64 - 2 → (0 < length l1)%nat → (0 < length l2)%nat → Z.of_nat (length l1) - 1 ≤ INT_MAX →
  ∃ st', opal_list_insert s x (Z.of_nat (length l1)) st = Some (st', true) ∧ inserts st st' s l1 x l2.
Proof.
  intros Hl Hx Hnin Hlt H1 H2 Hint. destruct (gap_facts l1 l2 Hl Hnin) as (Hn & Hp & Ha & Hb & Hs & Hne & Hna & Hnb).
  destruct (link_after_writes st x Hx (last_of s l1) (head_of l2 s)) as (st1 & E & Hi & El); [done..|].
  unfold opal_list_insert. rewrite (dl_length _ _ _ Hl). cbn [mbind option_bind]. rewrite length_app.
  destruct (Z.leb_spec (Z.of_nat (length l1 + length l2)) (Z.of_nat (length l1))); [lia|].
  destruct (Z.eqb_spec (Z.of_nat (length l1)) 0); [lia|]. destruct (Z.ltb_spec INT_MAX (Z.of_nat (length l1) - 1)); [lia|].
  destruct l1 as [|y l1 _] using rev_ind; [cbn in H1; lia|].
  pose proof (dl_chain _ _ _ Hl) as Hc. rewrite <-app_assoc in Hc. rewrite (chain_head _ _ _ _ Hc). cbn [mbind option_bind].
  replace (Z.to_nat (Z.of_nat (length (l1 ++ [y])) - 1)) with (length l1) by (rewrite length_app; cbn; lia).
  assert (head_of (l1 ++ [y] ++ l2) s = head_of l1 y) as -> by (by destruct l1).
  rewrite (advance_chain _ _ _ _ _ Hc). cbn [mbind option_bind]. unfold last_of in E. rewrite last_snoc in E. cbn in E. rewrite E.
  cbn [mbind option_bind]. destruct (add_length_run st1 s (Z.of_nat (length ((l1 ++ [y]) ++ l2))) 1) as (st' & -> & Ei & El').
  { rewrite El. apply Hl. }
  exists st'. split; [done|]. apply insert_outcome; [done..| |by rewrite El', El]. by eapply inserted_items.
Qed.
End ops.

End ListSpec.
