(* ===== verification/ListRefines.v ===== *)
(** * Linked lists refine a family of sequences

    Moving items between lists ([opal_list_transfer], [opal_list_join],
    [opal_list_splice]), sorting, and the refinement of all operations by those on
    sequences: each sentinel names a sequence, and the items on no list are free. *)

From Stdlib Require Import ZArith Lia.
From stdpp Require Import prelude numbers gmap list sorting.
From S2P Require Import Prelude OpalList ListSpec.

Local Open Scope Z_scope.

Module ListRefines.
Import OL ListSpec.
Implicit Types st : store.

(** ** Moving a part of a list *)

(** The part from [b] to [z], between [a] and [e], goes between [p] and [q]. *)
Record transferred st st' (p q b z a e : nat) : Prop := {
  tr_dom : dom (items st') = dom (items st);
  tr_lengths : lengths st' = lengths st;
  tr_next r : next_of st' r = if decide (r = p) then Some b else if decide (r = a) then Some e
                              else if decide (r = z) then Some q else next_of st r;
  tr_prev r : prev_of st' r = if decide (r = b) then Some p else if decide (r = e) then Some a
                              else if decide (r = q) then Some z else prev_of st r;
}.

Lemma transfer_writes st p q b z a e :
  prev_of st e = Some z → prev_of st b = Some a → prev_of st q = Some p →
  p ∈ dom (items st) → a ∈ dom (items st) → z ∈ dom (items st) → q ≠ e → q ≠ b → e ≠ b →
  ∃ st', opal_list_transfer q b e st = Some st' ∧ transferred st st' p q b z a e.
Proof.
  intros He Hb Hq Hp Ha Hz Hqe Hqb Heb. unfold opal_list_transfer. rewrite decide_False by done. rewrite He. cbn [mbind option_bind].
  write. read (prev_of st0 b) a. write. read (prev_of st1 q) p. write. read (prev_of st2 q) p. read (prev_of st2 e) z. write.
  read (prev_of st3 b) a. write. write. eexists. split; [done|].
  split; [by rewrite D4, D3, D2, D1, D0|by rewrite L4, L3, L2, L1, L0|intros r; fields..].
Qed.

(** Where each link of the two lists stands after a transfer. *)
Section transfer.
Context (st st' : store) (s x : nat) (k1 k2 l1 m l2 : list nat) (b : nat).
Hypothesis Hs : chain st s (k1 ++ k2) s.
Hypothesis Hx : chain st x (l1 ++ (b :: m) ++ l2) x.
Hypothesis Hnd : NoDup ((s :: k1 ++ k2) ++ (x :: l1 ++ (b :: m) ++ l2)).
Hypothesis Htr : transferred st st' (last_of s k1) (head_of k2 s) b (last_of b m) (last_of x l1) (head_of l2 x).

Ltac elems := set_unfold; tauto.

Lemma tr_apart p r : p ∈ s :: k1 ++ k2 → r ∈ x :: l1 ++ (b :: m) ++ l2 → p ≠ r.
Proof using Hnd. intros Hp Hr ->. apply NoDup_app in Hnd as (_ & Hd & _). by eapply Hd. Qed.

Lemma tr_ends : last_of s k1 ∈ s :: k1 ++ k2 ∧ head_of k2 s ∈ s :: k1 ++ k2 ∧
  last_of x l1 ∈ x :: l1 ++ (b :: m) ++ l2 ∧ last_of b m ∈ x :: l1 ++ (b :: m) ++ l2 ∧ head_of l2 x ∈ x :: l1 ++ (b :: m) ++ l2.
Proof using.
  clear Hs Hx Hnd Htr. pose proof (last_of_elem s k1). pose proof (head_of_elem k2 s). pose proof (last_of_elem x l1).
  pose proof (last_of_elem b m). pose proof (head_of_elem l2 x). split_and!; elems.
Qed.

(** The parts of the source list. *)
Lemma tr_source : NoDup (x :: l1) ∧ NoDup (b :: m) ∧ NoDup (l2 ++ [x]) ∧
  (∀ p, p ∈ l1 → p ≠ head_of l2 x) ∧ (∀ p, p ∈ b :: m → p ≠ head_of l2 x) ∧
  (∀ p, p ∈ b :: m → p ≠ last_of x l1) ∧ (∀ p, p ∈ l2 → p ≠ last_of x l1) ∧
  (∀ p, p ∈ x :: l1 → p ∉ b :: m) ∧ (∀ p, p ∈ l2 → p ∉ b :: m).
Proof using Hnd.
  clear Hs Hx Htr. apply NoDup_app in Hnd as (_ & _ & Hn). pose proof Hn as Hn'. rewrite (app_assoc l1 (b :: m) l2) in Hn'.
  destruct (ends_apart _ _ _ Hn) as (_ & H2 & _ & _ & H3 & _). destruct (ends_apart _ _ _ Hn') as (H4 & _ & _ & _ & _ & H5).
  rewrite app_comm_cons in Hn. apply NoDup_app in Hn as (_ & Hd & [Hm [Hd2 _]]%NoDup_app).
  split_and!; [done|done|done|intros p Hp; apply H4; elems|intros p Hp; apply H4; elems|intros p Hp; apply H2; elems|intros p Hp; apply H2; elems| |].
  - intros p Hp Hin. apply (Hd p Hp). elems.
  - intros p Hp Hin. by apply (Hd2 p).
Qed.

(** The destination. *)
Lemma transfer_into : chain st' s (k1 ++ (b :: m) ++ k2) s.
Proof using All.
  pose proof tr_apart as Hap. destruct tr_ends as (Ep & Eq & Ea & Ez & Ee). destruct tr_source as (Hx1 & Hbm & _ & _ & Hme & Hma & _ & _ & _).
  destruct Htr as [_ _ Hn Hp]. assert (NoDup (s :: k1 ++ k2)) as HndS by (by apply NoDup_app in Hnd as [? _]).
  destruct (ends_apart s k1 k2 HndS) as (H1 & H2 & _ & _ & H3 & H4).
  assert (b ∈ x :: l1 ++ (b :: m) ++ l2) as Eb by (clear; set_solver).
  assert (∀ p, p ∈ b :: m → p ∈ x :: l1 ++ (b :: m) ++ l2) as Em by (clear; set_solver).
  pose proof (dlist_gap _ _ _ _ Hs) as [Hg1 Hg2].
  apply (chain_app st' s k1 b (m ++ k2) s). split.
  - apply (chain_relink st _ _ _ (head_of k2 s)); [|done|intros p Hin Hne|by rewrite Hn, decide_True|intros p Hin|by rewrite Hp, decide_True].
    + destruct k2; [by rewrite app_nil_r in Hs|by apply chain_app in Hs as [? _]].
    + apply (elem_left _ _ _ k2) in Hin. rewrite Hn, !decide_False; [done|by apply Hap..|done].
    + rewrite Hp, !decide_False; [done|by apply H1|apply Hap; [clear -Hin; set_solver|done]..].
  - assert (chain st' b m (head_of k2 s)) as Hm.
    { apply (chain_relink st _ _ _ (head_of l2 x)); [|done|intros p Hin Hne| |intros p Hin|].
      - apply (chain_app st x l1 b (m ++ l2) x) in Hx as [_ Hx']. destruct l2; [by rewrite app_nil_r in Hx'|by apply chain_app in Hx' as [? _]].
      - rewrite Hn, !decide_False; [done|done|by apply Hma|]. apply not_eq_sym, Hap; [done|by apply Em].
      - rewrite Hn, decide_False by (by apply not_eq_sym, Hap). rewrite decide_False by (apply Hma, last_of_elem). by rewrite decide_True.
      - rewrite Hp, !decide_False; [done|apply not_eq_sym, Hap; [done|apply Em; by right]|apply Hme; by right|].
        intros ->. by apply NoDup_cons in Hbm as [[] _].
      - rewrite Hp, decide_False by (by apply Hap). rewrite decide_False by (by apply Hap). by rewrite decide_True. }
    destruct k2 as [|y k2']; [by rewrite app_nil_r|]. apply chain_app. split; [done|]. apply chain_app in Hs as [_ Hs'].
    eapply chain_frame; [done| |]; intros p Hin.
    + rewrite Hn, !decide_False; [done|apply Hap; [clear -Hin; set_solver|done]..|by apply H2].
    + rewrite Hp, !decide_False; [done| |apply Hap; [clear -Hin; set_solver|done]..].
      intros ->. cbn in H4. by apply NoDup_cons in H4 as [[] _].
Qed.

(** The source. *)
Lemma transfer_outof : chain st' x (l1 ++ l2) x.
Proof using All.
  pose proof tr_apart as Hap. destruct tr_ends as (Ep & Eq & Ea & Ez & Ee). destruct tr_source as (Hx1 & Hbm & Hx2 & He1 & Hme & Hma & Ha2 & H1m & H2m).
  destruct Htr as [_ _ Hn Hp].
  assert (∀ p, p ∈ x :: l1 ++ l2 → p ∈ x :: l1 ++ (b :: m) ++ l2) as Ein by (clear; set_solver).
  assert (last_of b m ∈ b :: m) as Hz by apply last_of_elem.
  assert (chain st' x l1 (head_of l2 x)) as Hl.
  { apply (chain_relink st _ _ _ b); [by apply chain_app in Hx as [? _]|done|intros p Hin Hne| |intros p Hin|].
    - rewrite Hn, !decide_False; [done| |done|apply not_eq_sym, Hap; [done|by apply Ein, elem_left]]. intros ->. by apply (H1m (last_of b m)).
    - rewrite Hn, decide_False by (by apply not_eq_sym, Hap). by rewrite decide_True.
    - rewrite Hp, !decide_False; [done|apply not_eq_sym, Hap; [done|apply Ein, elem_left; by right]|by apply He1|].
      intros ->. apply (H1m b); [by right|by left].
    - rewrite Hp, decide_False by (intros E; apply (Hme b); [by left|done]). by rewrite decide_True. }
  destruct l2 as [|w l2']; [by rewrite app_nil_r|]. apply chain_app. split; [done|].
  apply (chain_app st x l1 b (m ++ w :: l2') x) in Hx as [_ Hx']. apply (chain_app st b m w l2' x) in Hx' as [_ Hx'].
  eapply chain_frame; [done| |]; intros p Hin.
  - rewrite Hn, !decide_False; [done|intros ->; by apply (H2m (last_of b m))|by apply Ha2|].
    apply not_eq_sym, Hap; [done|]. apply Ein, elem_right, elem_of_app. by left.
  - rewrite Hp, !decide_False; [done|apply not_eq_sym, Hap; [done|apply Ein, elem_right; by right]| |].
    + intros ->. cbn in Hx2. by apply NoDup_cons in Hx2 as [[] _].
    + intros ->. apply elem_of_app in Hin as [Hin|Hin%list_elem_of_singleton]; [by apply (H2m b); [right|left]|]. subst. by apply (H1m x); left.
Qed.

(** Every other list. *)
Lemma transfer_other y l : chain st y l y → (∀ p, p ∈ y :: l → p ∉ s :: k1 ++ k2 ∧ p ∉ x :: l1 ++ (b :: m) ++ l2) → chain st' y l y.
Proof using Htr.
  intros Hc Hdis. destruct tr_ends as (Ep & Eq & Ea & Ez & Ee). destruct Htr as [_ _ Hn Hp].
  assert (b ∈ x :: l1 ++ (b :: m) ++ l2) as Eb by (clear; set_solver).
  eapply chain_frame; [done| |]; intros p Hin.
  - destruct (Hdis p Hin). rewrite Hn, !decide_False by (by intros ->). done.
  - destruct (Hdis p (cycle_elem _ _ _ Hin)). rewrite Hp, !decide_False by (by intros ->). done.
Qed.
End transfer.

(** ** Families of sequences *)

Record family := mk_family { seqs : gmap nat (list nat); free : gset nat }.
Implicit Types F : family.

(** The store holds the lists of the family, apart from each other, and its free items. *)
Record rep st F : Prop := {
  rep_list s l : seqs F !! s = Some l → dlist st s l;
  rep_apart s l s' l' p : seqs F !! s = Some l → seqs F !! s' = Some l' → p ∈ s :: l → p ∈ s' :: l' → s = s';
  rep_free x : x ∈ free F → x ∈ dom (items st) ∧ ∀ s l, seqs F !! s = Some l → x ∉ s :: l;
  rep_size : Z.of_nat (size (items st)) < 2 ^ 64;
}.

Lemma chain_dom st s l b p : chain st s l b → p ∈ s :: l → p ∈ dom (items st).
Proof.
  revert s. induction l as [|y l IH]; intros s; cbn.
  - intros [Hn _] ->%list_elem_of_singleton. by eapply next_of_dom.
  - intros [[Hn _] Hc] [->|Hin]%elem_of_cons; [by eapply next_of_dom|by eapply IH].
Qed.

(** Distinct locations of the store are few. *)
Lemma few st F l : rep st F → NoDup l → (∀ p, p ∈ l → p ∈ dom (items st)) → Z.of_nat (length l) < 2 ^ 64.
Proof.
  intros Hr Hnd Hin. pose proof (rep_size _ _ Hr). assert (length l ≤ size (items st))%nat; [|lia].
  rewrite <-size_dom, <-(size_list_to_set (C:=gset nat) l Hnd). apply subseteq_size. intros p. rewrite elem_of_list_to_set. apply Hin.
Qed.

(** What an insertion asks for. *)
Lemma place_pre st F s l x : rep st F → seqs F !! s = Some l → x ∈ free F →
  dlist st s l ∧ x ∈ dom (items st) ∧ x ∉ s :: l ∧ Z.of_nat (length l) < 2 ^ 64 - 2.
Proof.
  intros Hr Hs Hx. pose proof (rep_list _ _ Hr _ _ Hs) as Hl. destruct (rep_free _ _ Hr x Hx) as [Hd Hni].
  specialize (Hni _ _ Hs). split_and!; [done..|]. assert (Z.of_nat (length (x :: s :: l)) < 2 ^ 64) as Hlt; [|cbn in Hlt; lia].
  eapply few; [done| |].
  - constructor; [done|apply Hl].
  - intros p [->|Hin]%elem_of_cons; [done|]. eapply chain_dom; [apply Hl|done].
Qed.

Definition place F (s : nat) (l : list nat) (x : nat) : family := mk_family (<[s := l]> (seqs F)) (free F ∖ {[x]}).
Definition take_off F (s : nat) (l : list nat) (x : nat) : family := mk_family (<[s := l]> (seqs F)) (free F ∪ {[x]}).

(** Lookups in a family of which one sequence was replaced. *)
Ltac seq_cases H := apply lookup_insert_Some in H as [[<- <-]|[? H]].

Lemma rep_place st st' F s l1 x l2 : rep st F → seqs F !! s = Some (l1 ++ l2) → x ∈ free F →
  inserts st st' s l1 x l2 → rep st' (place F s (l1 ++ x :: l2) x).
Proof.
  intros Hr Hs Hx (Hl & Hd & Hother). destruct (rep_free _ _ Hr x Hx) as [_ Hnew]. pose proof (rep_apart _ _ Hr) as Hap.
  assert (∀ p, p ∈ s :: l1 ++ x :: l2 → p = x ∨ p ∈ s :: l1 ++ l2) as Hin by (clear; set_solver).
  split; cbn.
  - intros s' l' Hs'. seq_cases Hs'; [done|]. apply Hother; [by apply Hr|]. intros p Hp Hp'.
    assert (p = x ∨ p ∈ s :: l1 ++ l2) as [->|Hp''] by (clear -Hp'; set_solver); [by eapply Hnew|].
    assert (s' = s) by (by eapply Hap). done.
  - intros s1 l s2 l' p H1 H2 Hp1 Hp2. seq_cases H1; seq_cases H2; [done| | |by eapply Hap].
    + destruct (Hin _ Hp1) as [->|?]; [by eapply Hnew in Hp2|by eapply Hap].
    + destruct (Hin _ Hp2) as [->|?]; [by eapply Hnew in Hp1|by eapply Hap].
  - intros y [Hy Hne]%elem_of_difference. rewrite elem_of_singleton in Hne. destruct (rep_free _ _ Hr y Hy) as [Hyd Hyn].
    split; [by rewrite Hd|]. intros s' l' Hs'. seq_cases Hs'; [|by apply Hyn].
    intros Hyin. destruct (Hin _ Hyin) as [->|?]; [done|by eapply Hyn].
  - rewrite <-size_dom, Hd, size_dom. apply Hr.
Qed.

Lemma rep_take_off st st' F s l1 x l2 : rep st F → seqs F !! s = Some (l1 ++ x :: l2) →
  removes st st' s l1 x l2 → rep st' (take_off F s (l1 ++ l2) x).
Proof.
  intros Hr Hs (Hl & Hd & Hother). pose proof (rep_apart _ _ Hr) as Hap.
  assert (∀ p, p ∈ s :: l1 ++ l2 → p ∈ s :: l1 ++ x :: l2) as Hin by (clear; set_solver).
  assert (x ∈ s :: l1 ++ x :: l2) as Hx by (clear; set_solver).
  pose proof (rep_list _ _ Hr _ _ Hs) as Hl0. destruct (NoDup_without s x l1 l2 (dl_nodup _ _ _ Hl0)) as [_ Hnx].
  split; cbn.
  - intros s' l' Hs'. seq_cases Hs'; [done|]. apply Hother; [by apply Hr|]. intros p Hp Hp'.
    assert (s' = s) by (by eapply Hap). done.
  - intros s1 l s2 l' p H1 H2 Hp1 Hp2. seq_cases H1; seq_cases H2; [done| | |by eapply Hap].
    + eapply (Hap s _ s2); [done..|by apply Hin|done].
    + eapply (Hap s1 _ s); [done..|by apply Hin].
  - intros y [Hy|<-%elem_of_singleton]%elem_of_union.
    + destruct (rep_free _ _ Hr y Hy) as [Hyd Hyn]. split; [by rewrite Hd|]. intros s' l' Hs'.
      seq_cases Hs'; [|by apply Hyn]. intros Hyin. apply (Hyn _ _ Hs). by apply Hin.
    + split; [rewrite Hd; eapply chain_dom; [apply Hl0|done]|]. intros s' l' Hs'. seq_cases Hs'; [done|].
      intros Hyin. assert (s = s') by (by eapply Hap). done.
  - rewrite <-size_dom, Hd, size_dom. apply Hr.
Qed.

(** ** Moving, on families *)

Definition move F (s : nat) (k : list nat) (x : nat) (l : list nat) : family := mk_family (<[s := k]> (<[x := l]> (seqs F))) (free F).

(** What a transfer asks for and the room for its result. *)
Lemma move_pre st F s x k1 k2 l1 m l2 : rep st F → seqs F !! s = Some (k1 ++ k2) → seqs F !! x = Some (l1 ++ m ++ l2) → s ≠ x →
  NoDup ((s :: k1 ++ k2) ++ (x :: l1 ++ m ++ l2)) ∧ Z.of_nat (length (k1 ++ k2) + length (l1 ++ m ++ l2)) < 2 ^ 64 - 2.
Proof.
  intros Hr Hs Hx Hne. pose proof (rep_list _ _ Hr _ _ Hs) as Hls. pose proof (rep_list _ _ Hr _ _ Hx) as Hlx.
  assert (NoDup ((s :: k1 ++ k2) ++ (x :: l1 ++ m ++ l2))) as Hnd.
  { apply NoDup_app. split_and!; [apply Hls| |apply Hlx]. intros p Hp Hp'. apply Hne. by eapply (rep_apart _ _ Hr s _ x). }
  split; [done|]. pose proof (few st F _ Hr Hnd) as Hfew. rewrite length_app in Hfew. cbn [length] in Hfew.
  assert (Z.of_nat (S (length (k1 ++ k2)) + S (length (l1 ++ m ++ l2))) < 2 ^ 64); [|lia]. apply Hfew.
  intros p [Hp|Hp]%elem_of_app; (eapply chain_dom; [|done]); [apply Hls|apply Hlx].
Qed.

Lemma transfer_run st F s x k1 k2 l1 b m l2 : rep st F → seqs F !! s = Some (k1 ++ k2) → seqs F !! x = Some (l1 ++ (b :: m) ++ l2) → s ≠ x →
  ∃ st', opal_list_transfer (head_of k2 s) b (head_of l2 x) st = Some st' ∧
    transferred st st' (last_of s k1) (head_of k2 s) b (last_of b m) (last_of x l1) (head_of l2 x).
Proof.
  intros Hr Hs Hx Hne. destruct (move_pre st F s x k1 k2 l1 (b :: m) l2 Hr Hs Hx Hne) as [Hnd _].
  pose proof (tr_ends s x k1 k2 l1 m l2 b) as (Ep & Eq & Ea & Ez & Ee).
  pose proof (tr_source _ _ _ _ _ _ _ _ Hnd) as (_ & _ & _ & _ & Hme & _).
  pose proof (rep_list _ _ Hr _ _ Hs) as [Hcs _ _ _]. pose proof (rep_list _ _ Hr _ _ Hx) as [Hcx _ _ _].
  pose proof (tr_apart _ _ _ _ _ _ _ _ Hnd) as Hap. apply transfer_writes.
  - pose proof (app_assoc l1 (b :: m) l2) as Ea'. rewrite Ea' in Hcx. apply dlist_gap in Hcx as [_ Hcx]. rewrite Hcx. f_equal.
    unfold last_of. rewrite last_app, last_cons. by destruct (last m).
  - by apply (dlist_split_links st x l1 b (m ++ l2)) in Hcx as [? _].
  - by apply dlist_gap in Hcs as [_ ?].
  - by apply (chain_dom _ _ _ _ _ Hcs).
  - by apply (chain_dom _ _ _ _ _ Hcx).
  - by apply (chain_dom _ _ _ _ _ Hcx).
  - by apply Hap.
  - apply Hap; [done|]. clear. set_solver.
  - apply not_eq_sym, Hme. by left.
Qed.

(** The lengths as the callers of the transfer set them. *)
Lemma rep_move st st1 st' F s x k1 k2 l1 b m l2 : rep st F → seqs F !! s = Some (k1 ++ k2) → seqs F !! x = Some (l1 ++ (b :: m) ++ l2) →
  s ≠ x → transferred st st1 (last_of s k1) (head_of k2 s) b (last_of b m) (last_of x l1) (head_of l2 x) →
  items st' = items st1 →
  lengths st' = <[x := Z.of_nat (length (l1 ++ l2))]> (<[s := Z.of_nat (length (k1 ++ (b :: m) ++ k2))]> (lengths st)) →
  rep st' (move F s (k1 ++ (b :: m) ++ k2) x (l1 ++ l2)).
Proof.
  intros Hr Hs Hx Hne Htr1 Ei El. destruct (move_pre st F s x k1 k2 l1 (b :: m) l2 Hr Hs Hx Hne) as [Hnd Hroom].
  assert (transferred st (mk_store (items st') (lengths st)) (last_of s k1) (head_of k2 s) b (last_of b m) (last_of x l1) (head_of l2 x)) as Htr.
  { destruct Htr1 as [Hd _ Hn Hp]. split; cbn; [by rewrite Ei|done|intros r..]; [rewrite <-Hn; by apply next_of_items|rewrite <-Hp; by apply prev_of_items]. }
  set (st2 := mk_store (items st') (lengths st)) in Htr.
  assert (∀ y l z, chain st2 y l z → chain st' y l z) as Hch.
  { intros y l z Hc. eapply chain_frame; [done|intros; by apply next_of_items|intros; by apply prev_of_items]. }
  pose proof (rep_list _ _ Hr _ _ Hs) as [Hcs HndS _ _]. pose proof (rep_list _ _ Hr _ _ Hx) as [Hcx HndX _ _].
  assert (∀ p, p ∈ s :: k1 ++ (b :: m) ++ k2 → p ∈ s :: k1 ++ k2 ∨ p ∈ x :: l1 ++ (b :: m) ++ l2) as HinS by (clear; set_solver).
  assert (∀ p, p ∈ x :: l1 ++ l2 → p ∈ x :: l1 ++ (b :: m) ++ l2) as HinX by (clear; set_solver).
  assert ((s :: k1 ++ k2) ++ x :: l1 ++ (b :: m) ++ l2 ≡ₚ (s :: k1 ++ (b :: m) ++ k2) ++ x :: l1 ++ l2) as Hperm by solve_Permutation.
  rewrite Hperm in Hnd. pose proof (rep_apart _ _ Hr) as Hap.
  split.
  - cbn. intros y l Hy. seq_cases Hy; [|seq_cases Hy].
    + split; [apply Hch; apply (transfer_into st st2 s x k1 k2 l1 m l2 b); [done..| |done]; by rewrite Hperm|by apply NoDup_app in Hnd as [? _]| |].
      * by rewrite El, lookup_insert_ne, lookup_insert_eq.
      * repeat first [rewrite length_app in *|progress cbn [length app] in *]. lia.
    + split; [apply Hch; apply (transfer_outof st st2 s x k1 k2 l1 m l2 b); [done..| |done]; by rewrite Hperm|by apply NoDup_app in Hnd as (_ & _ & ?)| |].
      * by rewrite El, lookup_insert_eq.
      * repeat first [rewrite length_app in *|progress cbn [length app] in *]. lia.
    + pose proof (rep_list _ _ Hr _ _ Hy) as [Hcy Hndy Hly Hby]. split; [|done|by rewrite El, !lookup_insert_ne|done].
      apply Hch. eapply transfer_other; [done..|]. intros p Hp. split; intros Hp'; [assert (y = s) by (by eapply Hap)|assert (y = x) by (by eapply Hap)]; done.
  - cbn. intros y1 n1 y2 n2 p H1 H2 Hp1 Hp2.
    assert (∀ y n, <[s:=k1 ++ b :: m ++ k2]> (<[x:=l1 ++ l2]> (seqs F)) !! y = Some n → p ∈ y :: n →
      y = s ∧ p ∈ s :: k1 ++ (b :: m) ++ k2 ∨ y = x ∧ p ∈ x :: l1 ++ l2 ∨ y ≠ s ∧ y ≠ x ∧ seqs F !! y = Some n) as Hcase.
    { intros y n Hy Hp. seq_cases Hy; [by left|right]. seq_cases Hy; [by left|right; auto]. }
    apply NoDup_app in Hnd as (_ & Hdis & _).
    destruct (Hcase _ _ H1 Hp1) as [[-> Hq1]|[[-> Hq1]|(Hn1 & Hn1' & H1')]];
      destruct (Hcase _ _ H2 Hp2) as [[-> Hq2]|[[-> Hq2]|(Hn2 & Hn2' & H2')]]; try done.
    + by destruct (Hdis p).
    + destruct (HinS _ Hq1); [by eapply Hap|]. assert (x = y2) by (by eapply Hap). done.
    + by destruct (Hdis p).
    + eapply (Hap x); [done..|by apply HinX|done].
    + destruct (HinS _ Hq2); [by eapply Hap|]. assert (x = y1) by (by eapply Hap). done.
    + eapply (Hap y1 _ x); [done..|by apply HinX].
    + by eapply Hap.
  - cbn. intros y Hy. destruct (rep_free _ _ Hr y Hy) as [Hyd Hyn]. split; [rewrite Ei; by rewrite (tr_dom _ _ _ _ _ _ _ _ Htr1)|].
    intros z l Hz Hin. seq_cases Hz; [|seq_cases Hz; [|by apply (Hyn _ _ Hz)]].
    + destruct (HinS _ Hin); [by apply (Hyn _ _ Hs)|by apply (Hyn _ _ Hx)].
    + apply (Hyn _ _ Hx). by apply HinX.
  - rewrite Ei, <-size_dom, (tr_dom _ _ _ _ _ _ _ _ Htr1), size_dom. apply Hr.
Qed.

Lemma move_nothing F s x k l : seqs F !! s = Some k → seqs F !! x = Some l → move F s k x l = F.
Proof. intros Hs Hx. destruct F as [q f]. unfold move. cbn in *. by rewrite (insert_id q x), insert_id. Qed.

Lemma join_run st F s x k1 k2 l : rep st F → seqs F !! s = Some (k1 ++ k2) → seqs F !! x = Some l → s ≠ x →
  ∃ st', opal_list_join s (head_of k2 s) x st = Some st' ∧ rep st' (move F s (k1 ++ l ++ k2) x []).
Proof.
  intros Hr Hs Hx Hne. pose proof (rep_list _ _ Hr _ _ Hs) as [_ _ Hls _]. pose proof (rep_list _ _ Hr _ _ Hx) as [Hcx _ Hlx _].
  unfold opal_list_join, opal_list_get_size, opal_list_get_first. rewrite Hlx. cbn [mbind option_bind].
  destruct l as [|b m]; cbn [length]; [exists st; by rewrite move_nothing|].
  destruct (Z.eqb_spec (Z.of_nat (S (length m))) 0); [lia|]. rewrite (chain_head _ _ _ _ Hcx). cbn [mbind option_bind].
  change (head_of (b :: m) x) with b.
  rewrite <-(app_nil_r (b :: m)) in Hx.
  destruct (transfer_run st F s x k1 k2 [] b m [] Hr Hs Hx Hne) as (st1 & E1 & Htr). cbn in E1. rewrite E1. cbn [mbind option_bind].
  pose proof (tr_lengths _ _ _ _ _ _ _ _ Htr) as El. rewrite El, Hlx. cbn [mbind option_bind].
  destruct (add_length_run st1 s (Z.of_nat (length (k1 ++ k2))) (Z.of_nat (length (b :: m)))) as (st2 & -> & Ei2 & El2); [by rewrite El|].
  cbn [mbind option_bind]. eexists. split; [done|]. change (@nil nat) with (@nil nat ++ []). eapply rep_move; [done..|].
  cbn [lengths]. rewrite El2, El. f_equal. f_equal. destruct (move_pre st F s x k1 k2 [] (b :: m) [] Hr Hs Hx Hne) as [_ Hroom].
  unfold uwrap. repeat first [rewrite length_app in *|progress cbn [length app] in *]. rewrite Z.mod_small by lia. lia.
Qed.

Lemma count_to_run st m b e : chain st b m e → e ∉ b :: m → ∀ fuel, (S (length m) < fuel)%nat →
  count_to fuel b e st = Some (Z.of_nat (S (length m))).
Proof.
  revert b. induction m as [|y m IH]; intros b Hc He fuel Hf.
  - destruct fuel as [|[|fuel]]; cbn in Hf; [lia|lia|]. cbn. rewrite decide_False by set_solver. destruct Hc as [-> _].
    cbn [mbind option_bind]. by rewrite decide_True.
  - destruct fuel as [|fuel]; [lia|]. cbn [length] in *. cbn [count_to]. rewrite decide_False by set_solver.
    destruct Hc as [[-> _] Hc]. cbn [mbind option_bind]. rewrite (IH y Hc); [cbn; f_equal; lia|set_solver|lia].
Qed.

Lemma splice_run st F s x k1 k2 l1 m l2 : rep st F → seqs F !! s = Some (k1 ++ k2) → seqs F !! x = Some (l1 ++ m ++ l2) → s ≠ x →
  ∃ st', opal_list_splice s (head_of k2 s) x (head_of m (head_of l2 x)) (head_of l2 x) st = Some st' ∧
    rep st' (move F s (k1 ++ m ++ k2) x (l1 ++ l2)).
Proof.
  intros Hr Hs Hx Hne. pose proof (rep_list _ _ Hr _ _ Hs) as [_ _ Hls _]. pose proof (rep_list _ _ Hr _ _ Hx) as [Hcx Hndx Hlx _].
  destruct (move_pre st F s x k1 k2 l1 m l2 Hr Hs Hx Hne) as [Hnd Hroom]. unfold opal_list_splice.
  destruct m as [|b m].
  { change (head_of [] (head_of l2 x)) with (head_of l2 x). rewrite decide_True by done. exists st. by rewrite move_nothing. }
  change (head_of (b :: m) (head_of l2 x)) with b.
  pose proof (tr_source _ _ _ _ _ _ _ _ Hnd) as (_ & Hbm & _ & _ & Hme & _). rewrite decide_False by (apply Hme; by left).
  assert (chain st b m (head_of l2 x)) as Hcm.
  { apply (chain_app st x l1 b (m ++ l2) x) in Hcx as [_ Hcx]. destruct l2 as [|w l2]; [by rewrite app_nil_r in Hcx|by apply chain_app in Hcx as [? _]]. }
  rewrite (count_to_run st m b (head_of l2 x) Hcm); [|intros Hin; by apply (Hme _ Hin)|].
  2: { pose proof (tr_ends s x k1 k2 l1 m l2 b) as (_ & _ & _ & _ & Ee).
       assert (length (head_of l2 x :: b :: m) ≤ size (dom (items st)))%nat as Hsz; [|rewrite size_dom in Hsz; cbn in Hsz; lia].
       rewrite <-(size_list_to_set (C:=gset nat)); [apply subseteq_size; intros p|].
       - rewrite elem_of_list_to_set. intros Hp. eapply chain_dom; [apply Hcx|]. apply elem_of_cons in Hp as [->|Hp]; [done|]. clear -Hp. set_solver.
       - constructor; [intros Hin; by apply (Hme _ Hin)|]. done. }
  cbn [mbind option_bind]. destruct (transfer_run st F s x k1 k2 l1 b m l2 Hr Hs Hx Hne) as (st1 & -> & Htr). cbn [mbind option_bind].
  pose proof (tr_lengths _ _ _ _ _ _ _ _ Htr) as El.
  destruct (add_length_run st1 s (Z.of_nat (length (k1 ++ k2))) (Z.of_nat (S (length m)))) as (st2 & -> & Ei2 & El2); [by rewrite El|].
  cbn [mbind option_bind].
  destruct (add_length_run st2 x (Z.of_nat (length (l1 ++ (b :: m) ++ l2))) (- Z.of_nat (S (length m)))) as (st3 & -> & Ei3 & El3).
  { by rewrite El2, lookup_insert_ne, El. }
  exists st3. split; [done|]. eapply rep_move; [done..|by rewrite Ei3, Ei2|]. rewrite El3, El2, El.
  unfold uwrap. repeat first [rewrite length_app in *|progress cbn [length app] in *]. rewrite !Z.mod_small by lia. f_equal; [lia|]. f_equal. lia.
Qed.

(** ** Sorting *)

(** What the C library documents of [qsort]: the same elements. *)
Class QsortLaws `{Qsort} := { qsort_perm c l : qsort c l ≡ₚ l }.

Lemma drain_run l : ∀ st F s fuel, rep st F → seqs F !! s = Some l → (length l < fuel)%nat →
  ∃ st', drain fuel s st = Some (st', l) ∧ dom (items st') = dom (items st) ∧
    rep st' (mk_family (<[s := []]> (seqs F)) (free F ∪ list_to_set l)).
Proof.
  induction l as [|x l IH]; intros st F s [|fuel] Hr Hs Hf; cbn in Hf; [lia| |lia|]; cbn [drain].
  - destruct (remove_empty_run st s) as [-> _]; [by apply Hr|]. cbn. exists st. split_and!; [done..|].
    rewrite insert_id by done. rewrite union_empty_r_L. by destruct F.
  - destruct (remove_first_run st s x l) as (st1 & -> & Hrm); [by apply Hr|]. cbn [mbind option_bind].
    pose proof (rep_take_off st st1 F s [] x l Hr Hs Hrm) as Hr1. destruct Hrm as (_ & Hd & _).
    destruct (IH st1 _ s fuel Hr1) as (st' & -> & Hd' & Hr'); [cbn; by rewrite lookup_insert_eq|lia|].
    cbn. exists st'. split_and!; [done|by rewrite Hd'|]. cbn in Hr'. rewrite insert_insert_eq in Hr'.
    by rewrite <-(assoc_L (∪)) in Hr'.
Qed.

Lemma append_all_run l : ∀ st F s k, rep st F → seqs F !! s = Some k → NoDup l → (∀ x, x ∈ l → x ∈ free F) →
  ∃ st', append_all s l st = Some st' ∧ rep st' (mk_family (<[s := k ++ l]> (seqs F)) (free F ∖ list_to_set l)).
Proof.
  induction l as [|x l IH]; intros st F s k Hr Hs Hnd Hfree; cbn [append_all].
  - exists st. split; [done|]. rewrite app_nil_r, insert_id by done. cbn. rewrite difference_empty_L. by destruct F.
  - apply NoDup_cons in Hnd as [Hx Hnd]. assert (x ∈ free F) as Hxf by (apply Hfree; by left).
    destruct (place_pre st F s k x Hr Hs Hxf) as (Hl & Hd & Hn & Hlt).
    destruct (append_run st s x k Hl Hd Hn Hlt) as (st1 & -> & Hins). cbn [mbind option_bind].
    assert (seqs F !! s = Some (k ++ [])) as Hs' by (by rewrite app_nil_r).
    pose proof (rep_place st st1 F s k x [] Hr Hs' Hxf Hins) as Hr1.
    destruct (IH st1 _ s (k ++ [x]) Hr1) as (st' & -> & Hr'); [cbn; by rewrite lookup_insert_eq|done| |].
    { intros y Hy. cbn. apply elem_of_difference. split; [apply Hfree; by right|]. intros ->%elem_of_singleton. done. }
    exists st'. split; [done|]. cbn in Hr'. rewrite insert_insert_eq, <-app_assoc, difference_difference_l_L in Hr'. done.
Qed.

Lemma sort_run `{QsortLaws} st F s c l : rep st F → seqs F !! s = Some l →
  ∃ st', opal_list_sort true s c st = Some (st', OPAL_SUCCESS) ∧ rep st' (mk_family (<[s := qsort c l]> (seqs F)) (free F)).
Proof.
  intros Hr Hs. pose proof (rep_list _ _ Hr _ _ Hs) as Hl. unfold opal_list_sort. rewrite (dl_length _ _ _ Hl). cbn [mbind option_bind].
  destruct (Z.eqb_spec (Z.of_nat (length l)) 0) as [E|_].
  { destruct l; [|done]. exists st. split; [done|]. pose proof (qsort_perm c []) as Hp. apply Permutation_nil_r in Hp. rewrite Hp.
    rewrite insert_id by done. by destruct F. }
  cbn [negb]. destruct (drain_run l st F s (S (size (items st))) Hr Hs) as (st1 & -> & Hd & Hr1).
  { assert (length l ≤ size (dom (items st)))%nat as Hsz; [|rewrite size_dom in Hsz; lia].
    pose proof (dl_nodup _ _ _ Hl) as Hnd. apply NoDup_cons in Hnd as [_ Hnd]. rewrite <-(size_list_to_set (C:=gset nat) l Hnd). apply subseteq_size. intros p.
    rewrite elem_of_list_to_set. intros Hp. eapply chain_dom; [apply Hl|by right]. }
  cbn [mbind option_bind]. pose proof (dl_nodup _ _ _ Hl) as Hnd. apply NoDup_cons in Hnd as [_ Hnd].
  destruct (append_all_run (qsort c l) st1 _ s [] Hr1) as (st' & -> & Hr').
  - cbn. by rewrite lookup_insert_eq.
  - by rewrite qsort_perm.
  - intros x Hx. rewrite qsort_perm in Hx. cbn. apply elem_of_union. right. by apply elem_of_list_to_set.
  - exists st'. split; [done|]. cbn in Hr'. rewrite insert_insert_eq in Hr'. cbn [app] in Hr'.
    replace (free F) with ((free F ∪ list_to_set l) ∖ list_to_set (qsort c l)); [done|].
    apply leibniz_equiv. intros p. rewrite elem_of_difference, elem_of_union, !elem_of_list_to_set, qsort_perm.
    split; [tauto|]. intros Hp. split; [tauto|]. intros Hin. destruct (rep_free _ _ Hr p Hp) as [_ Hn]. apply (Hn _ _ Hs). by right.
Qed.

(** ** The operations and their meaning *)

Inductive op :=
| Get_size (s : nat) | Is_empty (s : nat) | Get_first (s : nat) | Get_last (s : nat)
| Append (s x : nat) | Prepend (s x : nat) | Insert_pos (s pos x : nat) | Insert (s x : nat) (idx : Z)
| Remove_item (s x : nat) | Remove_first (s : nat) | Remove_last (s : nat)
| Join (s pos x : nat) | Splice (s pos x first last : nat) | Sort (s : nat) (mem : bool) (compare : nat → nat → bool).

Inductive res := RUnit | RSize (n : Z) | RBool (b : bool) | RItem (i : option nat) | RCode (c : Z).

Definition exec `{Qsort} (o : op) st : option (store * res) :=
  match o with
  | Get_size s => n ← opal_list_get_size s st; Some (st, RSize n)
  | Is_empty s => b ← opal_list_is_empty s st; Some (st, RBool b)
  | Get_first s => i ← opal_list_get_first s st; Some (st, RItem (Some i))
  | Get_last s => i ← opal_list_get_last s st; Some (st, RItem (Some i))
  | Append s x => st ← opal_list_append s x st; Some (st, RUnit)
  | Prepend s x => st ← opal_list_prepend s x st; Some (st, RUnit)
  | Insert_pos s pos x => st ← opal_list_insert_pos s pos x st; Some (st, RUnit)
  | Insert s x idx => '(st, b) ← opal_list_insert s x idx st; Some (st, RBool b)
  | Remove_item s x => '(st, i) ← opal_list_remove_item s x st; Some (st, RItem (Some i))
  | Remove_first s => '(st, i) ← opal_list_remove_first s st; Some (st, RItem i)
  | Remove_last s => '(st, i) ← opal_list_remove_last s st; Some (st, RItem i)
  | Join s pos x => st ← opal_list_join s pos x st; Some (st, RUnit)
  | Splice s pos x f e => st ← opal_list_splice s pos x f e st; Some (st, RUnit)
  | Sort s mem c => '(st, r) ← opal_list_sort mem s c st; Some (st, RCode r)
  end.

Fixpoint exec_all `{Qsort} (os : list op) st : option (store * list res) :=
  match os with
  | [] => Some (st, [])
  | o :: os => '(st, r) ← exec o st; ('(st, rs) ← exec_all os st; Some (st, r :: rs))
  end.

(** The meaning of an operation on a family.  A position in the sequence [l1 ++ l2] of [s]
    is named by the item after it, [head_of l2 s], the sentinel at the end; an item that
    goes on a list is free, one that leaves it becomes free. *)
Inductive means `{Qsort} F : op → family → res → Prop :=
| m_size s l : seqs F !! s = Some l → means F (Get_size s) F (RSize (Z.of_nat (length l)))
| m_empty s l : seqs F !! s = Some l → means F (Is_empty s) F (RBool (bool_decide (l = [])))
| m_first s l : seqs F !! s = Some l → means F (Get_first s) F (RItem (Some (head_of l s)))
| m_last s l : seqs F !! s = Some l → means F (Get_last s) F (RItem (Some (last_of s l)))
| m_append s l x : seqs F !! s = Some l → x ∈ free F → means F (Append s x) (place F s (l ++ [x]) x) RUnit
| m_prepend s l x : seqs F !! s = Some l → x ∈ free F → means F (Prepend s x) (place F s (x :: l) x) RUnit
| m_insert_pos s l1 l2 x : seqs F !! s = Some (l1 ++ l2) → x ∈ free F →
    means F (Insert_pos s (head_of l2 s) x) (place F s (l1 ++ x :: l2) x) RUnit
| m_insert s l x idx : seqs F !! s = Some l → x ∈ free F → 0 < idx < Z.of_nat (length l) → idx - 1 ≤ INT_MAX →
    means F (Insert s x idx) (place F s (take (Z.to_nat idx) l ++ x :: drop (Z.to_nat idx) l) x) (RBool true)
| m_insert_past s l x idx : seqs F !! s = Some l → Z.of_nat (length l) ≤ idx → means F (Insert s x idx) F (RBool false)
| m_remove s l1 x l2 : seqs F !! s = Some (l1 ++ x :: l2) →
    means F (Remove_item s x) (take_off F s (l1 ++ l2) x) (RItem (Some (last_of s l1)))
| m_remove_first s x l : seqs F !! s = Some (x :: l) → means F (Remove_first s) (take_off F s l x) (RItem (Some x))
| m_remove_first_empty s : seqs F !! s = Some [] → means F (Remove_first s) F (RItem None)
| m_remove_last s x l : seqs F !! s = Some (l ++ [x]) → means F (Remove_last s) (take_off F s l x) (RItem (Some x))
| m_remove_last_empty s : seqs F !! s = Some [] → means F (Remove_last s) F (RItem None)
| m_join s k1 k2 x l : seqs F !! s = Some (k1 ++ k2) → seqs F !! x = Some l → s ≠ x →
    means F (Join s (head_of k2 s) x) (move F s (k1 ++ l ++ k2) x []) RUnit
| m_splice s k1 k2 x l1 m l2 : seqs F !! s = Some (k1 ++ k2) → seqs F !! x = Some (l1 ++ m ++ l2) → s ≠ x →
    means F (Splice s (head_of k2 s) x (head_of m (head_of l2 x)) (head_of l2 x)) (move F s (k1 ++ m ++ k2) x (l1 ++ l2)) RUnit
| m_sort s l c : seqs F !! s = Some l → means F (Sort s true c) (mk_family (<[s := qsort c l]> (seqs F)) (free F)) (RCode OPAL_SUCCESS)
| m_sort_fails s l c : seqs F !! s = Some l → l ≠ [] → means F (Sort s false c) F (RCode OPAL_ERR_OUT_OF_RESOURCE).

Inductive means_all `{Qsort} F : list op → family → list res → Prop :=
| ms_nil : means_all F [] F []
| ms_cons o os F1 F2 r rs : means F o F1 r → means_all F1 os F2 rs → means_all F (o :: os) F2 (r :: rs).

(** ** Refinement *)

Lemma is_empty_run st s l : dlist st s l → opal_list_is_empty s st = Some (bool_decide (l = [])).
Proof.
  intros [Hc Hnd _ _]. unfold opal_list_is_empty. rewrite (chain_head _ _ _ _ Hc). cbn. f_equal. apply bool_decide_ext.
  destruct l as [|y l]; cbn; [done|]. split; [|done]. intros ->. by apply NoDup_cons in Hnd as [[] _]; left.
Qed.

(** The step of each operation that puts an item on a list. *)
Lemma placing st F s l1 l2 x (f : store → option store) : rep st F → seqs F !! s = Some (l1 ++ l2) → x ∈ free F →
  (dlist st s (l1 ++ l2) → x ∈ dom (items st) → x ∉ s :: l1 ++ l2 → Z.of_nat (length (l1 ++ l2)) < 2 ^ 64 - 2 →
   ∃ st', f st = Some st' ∧ inserts st st' s l1 x l2) →
  ∃ st', f st = Some st' ∧ rep st' (place F s (l1 ++ x :: l2) x).
Proof.
  intros Hr Hs Hx Hf. destruct (place_pre st F s _ x Hr Hs Hx) as (Hl & Hd & Hn & Hlt).
  destruct (Hf Hl Hd Hn Hlt) as (st' & E & Hins). exists st'. split; [done|]. by eapply rep_place.
Qed.

Lemma exec_means `{QsortLaws} st F o F' r : rep st F → means F o F' r → ∃ st', exec o st = Some (st', r) ∧ rep st' F'.
Proof.
  intros Hr Hm. destruct Hm; cbn [exec].
  - exists st. split; [|done]. unfold opal_list_get_size. by rewrite (dl_length _ _ _ (rep_list _ _ Hr _ _ H1)).
  - exists st. split; [|done]. by rewrite (is_empty_run st s l) by (by apply Hr).
  - exists st. split; [|done]. unfold opal_list_get_first. by rewrite (chain_head _ _ _ _ (dl_chain _ _ _ (rep_list _ _ Hr _ _ H1))).
  - exists st. split; [|done]. unfold opal_list_get_last. by rewrite (chain_last _ _ _ _ (dl_chain _ _ _ (rep_list _ _ Hr _ _ H1))).
  - destruct (placing st F s l [] x (opal_list_append s x)) as (st' & -> & Hr'); [done|by rewrite app_nil_r|done| |by exists st'].
    intros Hl Hd Hn Hlt. rewrite app_nil_r in Hl, Hn, Hlt. by apply append_run.
  - destruct (placing st F s [] l x (opal_list_prepend s x)) as (st' & -> & Hr'); [done..| |by exists st']. by apply prepend_run.
  - destruct (placing st F s l1 l2 x (opal_list_insert_pos s (head_of l2 s) x)) as (st' & -> & Hr'); [done..| |by exists st'].
    by apply insert_pos_run.
  - destruct (place_pre st F s l x Hr H1 H2) as (Hl & Hd & Hn & Hlt).
    pose proof (insert_run st s x (take (Z.to_nat idx) l) (drop (Z.to_nat idx) l)) as Hrun.
    rewrite !take_drop, length_take_le, Z2Nat.id in Hrun by lia.
    destruct Hrun as (st' & -> & Hins); [done..|lia|rewrite length_drop; lia|done|]. exists st'. split; [done|].
    eapply rep_place; [done|by rewrite take_drop|done|done].
  - exists st. split; [|done]. unfold opal_list_insert. rewrite (dl_length _ _ _ (rep_list _ _ Hr _ _ H1)). cbn.
    by destruct (Z.leb_spec (Z.of_nat (length l)) idx); [|lia].
  - destruct (remove_item_run st s x l1 l2) as (st' & -> & Hrm); [by apply Hr|]. exists st'. split; [done|by eapply rep_take_off].
  - destruct (remove_first_run st s x l) as (st' & -> & Hrm); [by apply Hr|]. exists st'. split; [done|by apply (rep_take_off st _ F s [] x l)].
  - destruct (remove_empty_run st s) as [-> _]; [by apply Hr|]. by exists st.
  - destruct (remove_last_run st s x l) as (st' & -> & Hrm); [by apply Hr|]. exists st'. split; [done|].
    pose proof (rep_take_off st _ F s l x [] Hr H1 Hrm) as Hr'. by rewrite app_nil_r in Hr'.
  - destruct (remove_empty_run st s) as [_ ->]; [by apply Hr|]. by exists st.
  - destruct (join_run st F s x k1 k2 l) as (st' & -> & Hr'); [done..|]. by exists st'.
  - destruct (splice_run st F s x k1 k2 l1 m l2) as (st' & -> & Hr'); [done..|]. by exists st'.
  - destruct (sort_run st F s c l) as (st' & -> & Hr'); [done..|]. by exists st'.
  - exists st. split; [|done]. unfold opal_list_sort. rewrite (dl_length _ _ _ (rep_list _ _ Hr _ _ H1)). cbn.
    destruct (Z.eqb_spec (Z.of_nat (length l)) 0) as [E|_]; [by destruct l|done].
Qed.

(** C25. The linked lists implement sequences.  For any number of lists in one store and any
    run of the operations of opal_list.h and opal_list.c (the readers, insertion at the
    ends, before an item and at an index from 1 on, removal at the ends and of an item,
    joining, splicing a part of another list, sorting with and without memory) that is meaningful on the
    sequences, the C operations run on the pointers without an undefined access, return
    the same results, and leave a store whose links, in both directions, and lengths are
    those of the resulting sequences, every list apart from the others. *)
Theorem list_refines_sequence `{QsortLaws} st F os F' rs :
  rep st F → means_all F os F' rs → ∃ st', exec_all os st = Some (st', rs) ∧ rep st' F'.
Proof.
  intros Hr Hm. revert st Hr. induction Hm as [F|F o os F1 F2 r rs Ho _ IH]; intros st Hr; cbn [exec_all]; [by exists st|].
  destruct (exec_means st F o F1 r Hr Ho) as (st1 & -> & Hr1). cbn [mbind option_bind].
  destruct (IH st1 Hr1) as (st2 & -> & Hr2). by exists st2.
Qed.

(** Insertion at index 0 counts the item twice: [opal_list_insert] prepends it with
    [opal_list_prepend], which adds 1 to the length, and adds 1 again.  The links are
    right, but the length is one more than the number of items. *)
Theorem insert_front_miscounts st F s l x : rep st F → seqs F !! s = Some l → l ≠ [] → x ∈ free F →
  ∃ st', opal_list_insert s x 0 st = Some (st', true) ∧ chain st' s (x :: l) s ∧
    opal_list_get_size s st' = Some (Z.of_nat (length (x :: l)) + 1).
Proof.
  intros Hr Hs Hne Hx. destruct (place_pre st F s l x Hr Hs Hx) as (Hl & Hd & Hn & Hlt).
  unfold opal_list_insert. rewrite (dl_length _ _ _ Hl). cbn [mbind option_bind].
  destruct (Z.leb_spec (Z.of_nat (length l)) 0); [destruct l; cbn in *; [done|lia]|]. cbn [Z.eqb].
  destruct (prepend_run st s x l Hl Hd Hn Hlt) as (st1 & -> & [Hl1 _]). cbn [mbind option_bind].
  destruct (add_length_run st1 s _ 1 (dl_length _ _ _ Hl1)) as (st2 & -> & Ei & El). exists st2. split; [done|split].
  - pose proof (dl_chain _ _ _ Hl1) as Hc. apply (chain_frame st1 st2 s (x :: l) s Hc); [intros; by apply next_of_items|intros; by apply prev_of_items].
  - unfold opal_list_get_size. rewrite El, lookup_insert_eq. f_equal. unfold uwrap. cbn [app length]. rewrite Z.mod_small by lia. lia.
Qed.

(** *** A store with two lists and two free items *)

Definition two_lists : option store :=
  let st := opal_list_item_construct 5 (opal_list_item_construct 4 (opal_list_item_construct 3 (opal_list_item_construct 2
    (opal_list_construct 1 (opal_list_construct 0 (mk_store ∅ ∅)))))) in
  append_all 0 [2; 3]%nat st.

Definition two_seqs : family := mk_family (<[0%nat := [2; 3]%nat]> (<[1%nat := []]> ∅)) {[4%nat; 5%nat]}.

Lemma two_lists_rep : ∃ st, two_lists = Some st ∧ rep st two_seqs.
Proof.
  unfold two_lists. eexists. split; [vm_compute; reflexivity|]. split; cbn.
  - intros s l Hs. seq_cases Hs; [|seq_cases Hs; [|by rewrite lookup_empty in Hs]]; by split; [repeat split|apply (bool_decide_unpack _); vm_compute|..].
  - intros s l s' l' p Hs Hs' Hp Hp'.
    seq_cases Hs; [|seq_cases Hs; [|by rewrite lookup_empty in Hs]]; (seq_cases Hs'; [|seq_cases Hs'; [|by rewrite lookup_empty in Hs']]); [done| | |done]; set_solver.
  - intros x Hx. split; [set_solver|]. intros s l Hs. seq_cases Hs; [set_solver|seq_cases Hs; [set_solver|by rewrite lookup_empty in Hs]].
  - done.
Qed.

#[local] Instance insertion_qsort : Qsort := {| qsort c l := merge_sort (λ a b, Is_true (c a b)) l |}.
#[local] Instance insertion_qsort_laws : QsortLaws.
Proof. split. intros c l. apply merge_sort_Permutation. Qed.

(** Insertion at index 1, then a splice of the first two items into the other list. *)
Lemma list_refines_sequence_witness : ∃ st st' F', two_lists = Some st ∧
  means_all two_seqs [Insert 0 4 1; Splice 1 1 0 2 3; Sort 1 true (λ a b, b <=? a)%nat; Get_first 1; Get_size 0]%nat F'
    [RBool true; RUnit; RCode OPAL_SUCCESS; RItem (Some 4%nat); RSize 1] ∧
  exec_all [Insert 0 4 1; Splice 1 1 0 2 3; Sort 1 true (λ a b, b <=? a)%nat; Get_first 1; Get_size 0]%nat st =
    Some (st', [RBool true; RUnit; RCode OPAL_SUCCESS; RItem (Some 4%nat); RSize 1]) ∧ rep st' F'.
Proof.
  destruct two_lists_rep as (st & E & Hr).
  assert (∃ F', means_all two_seqs [Insert 0 4 1; Splice 1 1 0 2 3; Sort 1 true (λ a b, b <=? a)%nat; Get_first 1; Get_size 0]%nat F'
    [RBool true; RUnit; RCode OPAL_SUCCESS; RItem (Some 4%nat); RSize 1]) as [F' Hm].
  { eexists. eapply ms_cons; [apply (m_insert _ _ [2; 3]%nat); [done|set_solver|cbn; lia|done]|].
    eapply ms_cons; [apply (m_splice _ 1 [] [] 0 [] [2; 4] [3])%nat; [done..]|].
    eapply ms_cons; [apply (m_sort _ _ [2; 4]%nat); done|]. eapply ms_cons; [by apply (m_first _ _ [4; 2]%nat)|].
    eapply ms_cons; [by apply (m_size _ _ [3]%nat)|]. constructor. }
  destruct (list_refines_sequence st two_seqs _ _ _ Hr Hm) as (st' & E' & Hr'). by exists st, st', F'.
Defined.

Lemma insert_front_miscounts_witness : ∃ st st', two_lists = Some st ∧ opal_list_insert 0 4 0 st = Some (st', true) ∧
  opal_list_get_size 0 st' = Some 4.
Proof.
  destruct two_lists_rep as (st & E & Hr).
  destruct (insert_front_miscounts st two_seqs 0 [2; 3]%nat 4 Hr) as (st' & E' & _ & Hs); [done|done|set_solver|].
  by exists st, st'.
Defined.

End ListRefines.
