(* ===== verification/HashTable.v ===== *)
(** * Hash tables (opal/class/opal_hash_table.c)

    An open-addressing table: the elements are in one array, each with a valid flag; a
    search starts at the hash of the key modulo the capacity and goes forward,
    wrapping, up to the key or the first element that is not valid.  The
    operations for the three kinds of keys are the same code up to the key's
    comparison and hash, which are the type class [HashKey].  The process
    table, a table of tables, is in [ProcTable]. *)

From Stdlib Require Import ZArith Lia.
From stdpp Require Import prelude numbers gmap list.
From S2P Require Import Prelude.

Local Open Scope Z_scope.

Module HT.

(** What a kind of key provides: [opal_hash_type_methods_t], the comparison of the
    searches and the key of a zeroed element. *)
Class HashKey (K : Type) `{EqDecision K} := {
  hash_elt : K → Z;
  elt_destructor : K → K;
  zero_key : K;
}.

Section table.
Context {K V : Type} `{HashKey K} `{Inhabited V}.

Record opal_hash_element_t := mk_elt { valid : bool; key : K; value : V }.

Record opal_hash_table_t := mk_ht {
  ht_table : list opal_hash_element_t;
  ht_capacity : Z;
  ht_size : Z;
  ht_growth_trigger : Z;
  ht_density_numer : Z;
  ht_density_denom : Z;
  ht_growth_numer : Z;
  ht_growth_denom : Z;
  ht_type_methods : bool;  (** whether the methods of the key's kind are installed *)
}.

Implicit Types ht : opal_hash_table_t.
Implicit Types elts : list opal_hash_element_t.

Definition set_table elts ht : opal_hash_table_t :=
  mk_ht elts (ht_capacity ht) (ht_size ht) (ht_growth_trigger ht) (ht_density_numer ht)
    (ht_density_denom ht) (ht_growth_numer ht) (ht_growth_denom ht) (ht_type_methods ht).
Definition set_size (n : Z) ht : opal_hash_table_t :=
  mk_ht (ht_table ht) (ht_capacity ht) n (ht_growth_trigger ht) (ht_density_numer ht)
    (ht_density_denom ht) (ht_growth_numer ht) (ht_growth_denom ht) (ht_type_methods ht).
Definition set_methods (b : bool) ht : opal_hash_table_t :=
  mk_ht (ht_table ht) (ht_capacity ht) (ht_size ht) (ht_growth_trigger ht) (ht_density_numer ht)
    (ht_density_denom ht) (ht_growth_numer ht) (ht_growth_denom ht) b.

(** ** Construction *)

Definition opal_hash_table_construct : opal_hash_table_t := mk_ht [] 0 0 0 0 0 0 0 false.

(** Round up to (1 mod 30), in [size_t]. *)
Definition opal_hash_round_capacity_up (capacity : Z) : Z :=
  uwrap 64 (uwrap 64 (uwrap 64 (capacity + 29) / 30 * 30) + 1).

Definition zero_elt : opal_hash_element_t := mk_elt false zero_key inhabitant.

(** [calloc n] says whether a block for [n] elements is available. *)
Context (calloc : Z → bool).

Definition opal_hash_table_init2 ht (estimated_max_size density_numer density_denom growth_numer growth_denom : Z)
    : option (opal_hash_table_t * Z) :=
  if (density_numer =? 0) || (density_denom =? 0) then None else
  let est_capacity := uwrap 64 (estimated_max_size * uwrap 64 density_denom) / uwrap 64 density_numer in
  let capacity := opal_hash_round_capacity_up est_capacity in
  if negb (calloc capacity) then Some (set_table [] ht, OPAL_ERR_OUT_OF_RESOURCE) else
  Some (mk_ht (replicate (Z.to_nat capacity) zero_elt) capacity (ht_size ht)
     (uwrap 64 (capacity * uwrap 64 density_numer) / uwrap 64 density_denom)
     density_numer density_denom growth_numer growth_denom false, OPAL_SUCCESS).

Definition opal_hash_table_init ht (table_size : Z) : option (opal_hash_table_t * Z) :=
  opal_hash_table_init2 ht table_size 1 2 2 1.

Definition clear_elt ht (e : opal_hash_element_t) : opal_hash_element_t :=
  mk_elt false (if valid e && ht_type_methods ht then elt_destructor (key e) else key e) inhabitant.

Definition opal_hash_table_remove_all ht : opal_hash_table_t * Z :=
  (set_methods false (set_size 0 (set_table (clear_elt ht <$> ht_table ht) ht)), OPAL_SUCCESS).

(** ** Searching *)

(** [for (ii = start; ; ii += 1) { if (ii == capacity) ii = 0; ... }] up to the first
    element at which the loop's body leaves; [None] when an index is outside the table
    or the loop is still running after [fuel] rounds. *)
Fixpoint scan (stop : nat → opal_hash_element_t → bool) elts (capacity : nat) (fuel ii : nat) : option nat :=
  match fuel with
  | O => None
  | S fuel =>
    let ii := if (ii =? capacity)%nat then O else ii in
    e ← elts !! ii;
    if stop ii e then Some ii else scan stop elts capacity fuel (S ii)
  end.

(** The first index to probe; the remainder by zero is undefined. *)
Definition home (k : K) (capacity : Z) : option nat :=
  if capacity =? 0 then None else Some (Z.to_nat (hash_elt k mod capacity)).

(** The search of [get_value], [set_value] and [remove_value]. *)
Definition at_key (k : K) (_ : nat) (e : opal_hash_element_t) : bool :=
  negb (valid e) || bool_decide (key e = k).

Definition find_key (fuel : nat) (k : K) ht : option (nat * opal_hash_element_t) :=
  start ← home k (ht_capacity ht);
  ii ← scan (at_key k) (ht_table ht) (Z.to_nat (ht_capacity ht)) fuel start;
  e ← ht_table ht !! ii;
  Some (ii, e).

(** Rounds of a search: more than the elements are never needed. *)
Definition rounds ht : nat := Z.to_nat (ht_capacity ht).

(** The result is the table, the return code and the value written to [*value]. *)
Definition opal_hash_table_get_value ht (k : K) : option (opal_hash_table_t * (Z + V)) :=
  let ht := set_methods true ht in
  '(_, e) ← find_key (rounds ht) k ht;
  Some (ht, if valid e then inr (value e) else inl OPAL_ERR_NOT_FOUND).

(** ** Growing *)

Definition invalid_at (_ : nat) (e : opal_hash_element_t) : bool := negb (valid e).

(** The loop over the old table. *)
Fixpoint reinsert (old : list opal_hash_element_t) (new_capacity : Z) elts : option (list opal_hash_element_t) :=
  match old with
  | [] => Some elts
  | e :: old =>
    if valid e then
      start ← home (key e) new_capacity;
      ii ← scan invalid_at elts (Z.to_nat new_capacity) (Z.to_nat new_capacity) start;
      reinsert old new_capacity (<[ii := e]> elts)
    else reinsert old new_capacity elts
  end.

Definition opal_hash_grow ht : option (opal_hash_table_t * Z) :=
  if (ht_growth_denom ht =? 0) || (ht_density_denom ht =? 0) then None else
  let new_capacity := uwrap 64 (ht_capacity ht * uwrap 64 (ht_growth_numer ht)) / uwrap 64 (ht_growth_denom ht) in
  let new_capacity := opal_hash_round_capacity_up new_capacity in
  if negb (calloc new_capacity) then Some (ht, OPAL_ERR_OUT_OF_RESOURCE) else
  if negb (ht_type_methods ht) then None else
  elts ← reinsert (ht_table ht) new_capacity (replicate (Z.to_nat new_capacity) zero_elt);
  Some (mk_ht elts new_capacity (ht_size ht)
          (uwrap 64 (new_capacity * uwrap 64 (ht_density_numer ht)) / uwrap 64 (ht_density_denom ht))
          (ht_density_numer ht) (ht_density_denom ht) (ht_growth_numer ht) (ht_growth_denom ht) true,
        OPAL_SUCCESS).

Definition opal_hash_table_set_value ht (k : K) (v : V) : option (opal_hash_table_t * Z) :=
  let ht := set_methods true ht in
  '(ii, e) ← find_key (rounds ht) k ht;
  if valid e then Some (set_table (<[ii := mk_elt true (key e) v]> (ht_table ht)) ht, OPAL_SUCCESS) else
  let ht := set_size (uwrap 64 (ht_size ht + 1)) (set_table (<[ii := mk_elt true k v]> (ht_table ht)) ht) in
  if ht_growth_trigger ht <=? ht_size ht then opal_hash_grow ht else Some (ht, OPAL_SUCCESS).

(** ** Removing *)

(** The followers of a removed element: each is moved to its place unless it is there. *)
Fixpoint rehash (fuel : nat) elts (capacity : Z) (ii : nat) : option (list opal_hash_element_t) :=
  match fuel with
  | O => None
  | S fuel =>
    let ii := if (ii =? Z.to_nat capacity)%nat then O else ii in
    e ← elts !! ii;
    if negb (valid e) then Some elts else
    start ← home (key e) capacity;
    jj ← scan (λ j e, (j =? ii)%nat || negb (valid e)) elts (Z.to_nat capacity) (Z.to_nat capacity) start;
    rehash fuel (if (jj =? ii)%nat then elts
                 else <[ii := mk_elt false (key e) (value e)]> (<[jj := e]> elts)) capacity (S ii)
  end.

Definition opal_hash_table_remove_elt_at ht (ii : nat) : option (opal_hash_table_t * Z) :=
  e ← ht_table ht !! ii;
  if negb (valid e) then Some (ht, OPAL_ERROR) else
  if negb (ht_type_methods ht) then None else
  elts ← rehash (rounds ht) (<[ii := mk_elt false (elt_destructor (key e)) (value e)]> (ht_table ht)) (ht_capacity ht) (S ii);
  Some (set_size (uwrap 64 (ht_size ht - 1)) (set_table elts ht), OPAL_SUCCESS).

Definition opal_hash_table_remove_value ht (k : K) : option (opal_hash_table_t * Z) :=
  let ht := set_methods true ht in
  '(ii, e) ← find_key (rounds ht) k ht;
  if valid e then opal_hash_table_remove_elt_at ht ii else Some (ht, OPAL_ERR_NOT_FOUND).

(** ** Traversal *)

(** A node is the index of an element, [None] for NULL. *)
Definition opal_hash_table_get_next_elt ht (prev_elt : option nat) : option nat :=
  let ii := match prev_elt with None => O | Some p => S p end in
  first_from valid (ht_table ht) ii (Z.to_nat (ht_capacity ht) - ii).

Definition opal_hash_table_get_next_key ht (in_node : option nat) : option (K * V * nat) :=
  n ← opal_hash_table_get_next_elt ht in_node;
  e ← ht_table ht !! n;
  Some (key e, value e, n).

Definition opal_hash_table_get_first_key ht : option (K * V * nat) := opal_hash_table_get_next_key ht None.

End table.
Arguments opal_hash_element_t : clear implicits.
Arguments opal_hash_table_t : clear implicits.

(** ** The three kinds of keys *)

Record uint32 := U32 { u32 : Z }.
Record uint64 := U64 { u64 : Z }.
(** The bytes of a key of arbitrary size. *)
Record ptr_key := Ptr { key_bytes : list Z }.

#[export] Instance uint32_eq_dec : EqDecision uint32.
Proof. solve_decision. Defined.
#[export] Instance uint64_eq_dec : EqDecision uint64.
Proof. solve_decision. Defined.
#[export] Instance ptr_key_eq_dec : EqDecision ptr_key.
Proof. solve_decision. Defined.
#[export] Instance uint32_countable : Countable uint32.
Proof. apply (inj_countable' u32 U32). by intros []. Defined.
#[export] Instance uint64_countable : Countable uint64.
Proof. apply (inj_countable' u64 U64). by intros []. Defined.
#[export] Instance ptr_key_countable : Countable ptr_key.
Proof. apply (inj_countable' key_bytes Ptr). by intros []. Defined.

Definition opal_hash_hash_elt_uint32 (k : uint32) : Z := u32 k.
Definition opal_hash_hash_elt_uint64 (k : uint64) : Z := u64 k.

Definition HASH_MULTIPLIER : Z := 31.
Definition opal_hash_hash_key_ptr (k : list Z) : Z :=
  fold_left (λ hash b, uwrap 64 (HASH_MULTIPLIER * hash + b)) k 0.
Definition opal_hash_hash_elt_ptr (k : ptr_key) : Z := opal_hash_hash_key_ptr (key_bytes k).
Definition opal_hash_destruct_elt_ptr (_ : ptr_key) : ptr_key := Ptr [].

#[export] Instance opal_hash_type_methods_uint32 : HashKey uint32 :=
  {| hash_elt := opal_hash_hash_elt_uint32; elt_destructor := id; zero_key := U32 0 |}.
#[export] Instance opal_hash_type_methods_uint64 : HashKey uint64 :=
  {| hash_elt := opal_hash_hash_elt_uint64; elt_destructor := id; zero_key := U64 0 |}.
#[export] Instance opal_hash_type_methods_ptr : HashKey ptr_key :=
  {| hash_elt := opal_hash_hash_elt_ptr; elt_destructor := opal_hash_destruct_elt_ptr; zero_key := Ptr [] |}.

Section kinds.
Context {V : Type} `{Inhabited V} (calloc : Z → bool).

Definition opal_hash_table_get_value_uint32 (ht : opal_hash_table_t uint32 V) (key : Z) :=
  opal_hash_table_get_value ht (U32 key).
Definition opal_hash_table_set_value_uint32 (ht : opal_hash_table_t uint32 V) (key : Z) (value : V) :=
  opal_hash_table_set_value calloc ht (U32 key) value.
Definition opal_hash_table_remove_value_uint32 (ht : opal_hash_table_t uint32 V) (key : Z) :=
  opal_hash_table_remove_value ht (U32 key).
Definition opal_hash_table_get_next_key_uint32 (ht : opal_hash_table_t uint32 V) (in_node : option nat) :=
  opal_hash_table_get_next_key ht in_node.
Definition opal_hash_table_get_first_key_uint32 (ht : opal_hash_table_t uint32 V) :=
  opal_hash_table_get_first_key ht.

Definition opal_hash_table_get_value_uint64 (ht : opal_hash_table_t uint64 V) (key : Z) :=
  opal_hash_table_get_value ht (U64 key).
Definition opal_hash_table_set_value_uint64 (ht : opal_hash_table_t uint64 V) (key : Z) (value : V) :=
  opal_hash_table_set_value calloc ht (U64 key) value.
Definition opal_hash_table_remove_value_uint64 (ht : opal_hash_table_t uint64 V) (key : Z) :=
  opal_hash_table_remove_value ht (U64 key).
Definition opal_hash_table_get_next_key_uint64 (ht : opal_hash_table_t uint64 V) (in_node : option nat) :=
  opal_hash_table_get_next_key ht in_node.
Definition opal_hash_table_get_first_key_uint64 (ht : opal_hash_table_t uint64 V) :=
  opal_hash_table_get_first_key ht.

Definition opal_hash_table_get_value_ptr (ht : opal_hash_table_t ptr_key V) (key : list Z) :=
  opal_hash_table_get_value ht (Ptr key).
Definition opal_hash_table_set_value_ptr (ht : opal_hash_table_t ptr_key V) (key : list Z) (value : V) :=
  opal_hash_table_set_value calloc ht (Ptr key) value.
Definition opal_hash_table_remove_value_ptr (ht : opal_hash_table_t ptr_key V) (key : list Z) :=
  opal_hash_table_remove_value ht (Ptr key).
Definition opal_hash_table_get_next_key_ptr (ht : opal_hash_table_t ptr_key V) (in_node : option nat) :=
  opal_hash_table_get_next_key ht in_node.
Definition opal_hash_table_get_first_key_ptr (ht : opal_hash_table_t ptr_key V) :=
  opal_hash_table_get_first_key ht.
End kinds.

End HT.
