(* ===== verification/HashSpec.v ===== *)
(** * What a hash table is: a finite map

    The elements that are valid are the entries of a finite map; every operation of
    opal_hash_table.c acts on the table as its counterpart acts on the map, and every
    search ends because one element is never valid. *)

From Stdlib Require Import ZArith Lia.
From stdpp Require Import prelude numbers gmap list.
From S2P Require Import Prelude HashTable.

Local Open Scope Z_scope.

Module HashSpec.
Import HT.

(** ** Distances around the table *)

(** The steps a search that starts at [a] takes to reach [b]. *)
Definition dist (cap a b : nat) : nat := if decide (a ≤ b)%nat then (b - a)%nat else (b + cap - a)%nat.

Ltac dist_lia := unfold dist in *; repeat (case_decide || case_match); lia.

Section scan.
Context {K V : Type}.
Implicit Types elts : list (opal_hash_element_t K V).

Definition norm (cap ii : nat) : nat := if (ii =? cap)%nat then O else ii.

(** A search returns when it can reach an element at which it stops, and returns the
    nearest one. *)
Lemma scan_spec stop elts cap n ii y ey :
  length elts = cap → (0 < cap)%nat → (ii ≤ cap)%nat → elts !! y = Some ey → stop y ey = true →
  (dist cap (norm cap ii) y < n)%nat →
  ∃ j e, scan stop elts cap n ii = Some j ∧ elts !! j = Some e ∧ stop j e = true ∧
    ∀ x ex, elts !! x = Some ex → (dist cap (norm cap ii) x < dist cap (norm cap ii) j)%nat → stop x ex = false.
Proof.
  intros Hlen Hcap Hii Hy Hs. revert ii Hii. induction n as [|n IH]; intros ii Hii Hd; [lia|].
  cbn [scan]. fold (norm cap ii). set (i := norm cap ii) in *.
  assert (i < cap)%nat as Hi by (subst i; unfold norm; case_match; [lia|]; apply Nat.eqb_neq in H; lia).
  destruct (lookup_lt_is_Some_2 elts i) as [e He]; [lia|]. rewrite He. cbn.
  destruct (stop i e) eqn:Hse.
  - exists i, e. split_and!; try done. intros x ex _. dist_lia.
  - assert (y ≠ i) as Hyi by (intros ->; congruence). apply lookup_lt_Some in Hy as Hyl.
    assert (∀ x, x < cap → x ≠ i → dist cap (norm cap (S i)) x + 1 = dist cap i x)%nat as Hstep.
    { intros x Hx Hxi. unfold norm. case_match eqn:E; [apply Nat.eqb_eq in E|apply Nat.eqb_neq in E]; dist_lia. }
    destruct (IH (S i)) as (j & ej & Hj & Hej & Hsj & Hn); [lia|specialize (Hstep y); lia|].
    exists j, ej. split_and!; try done. intros x ex Hx Hdx. destruct (decide (x = i)) as [->|Hxi]; [congruence|].
    apply lookup_lt_Some in Hx as Hxl. apply lookup_lt_Some in Hej as Hjl.
    assert (j ≠ i) as Hji by (intros ->; dist_lia).
    eapply Hn; [done|]. pose proof (Hstep x). pose proof (Hstep j). lia.
Qed.

End scan.

(** ** Layout *)

Section layout.
Context {K V : Type} `{HashKey K} `{!Countable K} `{Inhabited V}.
Implicit Types elts : list (opal_hash_element_t K V).
Implicit Types f : nat → option (K * V).

(** The entry at an index. *)
Definition entry (e : opal_hash_element_t K V) : option (K * V) :=
  if valid e then Some (key e, value e) else None.
Definition ent elts (i : nat) : option (K * V) := elts !! i ≫= entry.

Definition start_of (cap : nat) (k : K) : nat := Z.to_nat (hash_elt k mod Z.of_nat cap).

(** Every entry can be reached from the first index its key probes, and is the only
    one with its key. *)
Record layout (cap : nat) f : Prop := {
  lay_path i k v x : f i = Some (k, v) → (x < cap)%nat →
    (dist cap (start_of cap k) x < dist cap (start_of cap k) i)%nat → is_Some (f x);
  lay_uniq i j k v w : f i = Some (k, v) → f j = Some (k, w) → i = j;
  lay_in i : is_Some (f i) → (i < cap)%nat;
}.

Definition holds f (m : gmap K V) : Prop := ∀ k v, m !! k = Some v ↔ ∃ i, f i = Some (k, v).

Lemma start_of_lt cap k : (0 < cap)%nat → (start_of cap k < cap)%nat.
Proof. intros. unfold start_of. pose proof (Z.mod_pos_bound (hash_elt k) (Z.of_nat cap)). lia. Qed.

Lemma home_start cap k : (0 < cap)%nat → home k (Z.of_nat cap) = Some (start_of cap k).
Proof. intros. unfold home. destruct (Z.eqb_spec (Z.of_nat cap) 0); [lia|done]. Qed.

Lemma norm_lt cap ii : (ii < cap)%nat → norm cap ii = ii.
Proof. intros. unfold norm. case_match eqn:E; [apply Nat.eqb_eq in E; lia|done]. Qed.

Lemma ent_Some elts i k v : ent elts i = Some (k, v) ↔ ∃ e, elts !! i = Some e ∧ valid e = true ∧ key e = k ∧ value e = v.
Proof.
  unfold ent, entry. destruct (elts !! i) as [e|]; cbn; [|by split; [|intros (? & ? & _)]].
  destruct (valid e) eqn:Hv; split; [intros [= <- <-]; by exists e|by intros (? & [= <-] & _ & -> & ->)|done|].
  intros (? & [= <-] & ? & _). congruence.
Qed.

Lemma ent_lt elts i : is_Some (ent elts i) → (i < length elts)%nat.
Proof. intros [[k v] (e & He & _)%ent_Some]. by eapply lookup_lt_Some. Qed.

Lemma ent_valid elts i e : elts !! i = Some e → (is_Some (ent elts i) ↔ valid e = true).
Proof. intros He. unfold ent, entry. rewrite He. cbn. destruct (valid e); split; try done. Qed.

Lemma ent_None elts i e : elts !! i = Some e → (ent elts i = None ↔ valid e = false).
Proof. intros He. unfold ent, entry. rewrite He. cbn. by destruct (valid e). Qed.

Lemma ent_insert elts i j e : (i < length elts)%nat →
  ent (<[i := e]> elts) j = if decide (j = i) then entry e else ent elts j.
Proof.
  intros Hi. unfold ent. case_decide as Hd; [subst; by rewrite list_lookup_insert_eq|by rewrite list_lookup_insert_ne].
Qed.

Lemma ent_replicate n i : ent (replicate n zero_elt) i = (None : option (K * V)).
Proof.
  unfold ent. destruct (replicate n zero_elt !! i) as [e|] eqn:He; [|done]. apply lookup_replicate in He as [-> _]. done.
Qed.

(** ** Searches *)

(** The search for a key ends at the entry of the key or, if it has none, at the first
    element on its way that is not valid. *)
Lemma find_key_spec (ht : opal_hash_table_t K V) cap k m z : ht_capacity ht = Z.of_nat cap → length (ht_table ht) = cap →
  layout cap (ent (ht_table ht)) → holds (ent (ht_table ht)) m →
  (z < cap)%nat → ent (ht_table ht) z = None →
  ∃ j e, find_key (rounds ht) k ht = Some (j, e) ∧ ht_table ht !! j = Some e ∧
    (∀ x, (x < cap)%nat → (dist cap (start_of cap k) x < dist cap (start_of cap k) j)%nat → is_Some (ent (ht_table ht) x)) ∧
    (if valid e then key e = k ∧ m !! k = Some (value e) else m !! k = None).
Proof.
  intros Hc Hlen Hlay Hm Hz Ez. set (elts := ht_table ht) in *. assert (0 < cap)%nat as Hpos by lia.
  pose proof (start_of_lt cap k Hpos) as Hs.
  destruct (lookup_lt_is_Some_2 elts z) as [ez Hez]; [lia|].
  destruct (scan_spec (at_key k) elts cap cap (start_of cap k) z ez) as (j & e & Hj & He & Hstop & Hbefore);
    [done|done|lia|done| |rewrite norm_lt by done; dist_lia|].
  { unfold at_key. apply (ent_None elts z ez) in Ez; [|done]. by rewrite Ez. }
  rewrite norm_lt in Hbefore by done. exists j, e.
  assert (∀ x, (x < cap)%nat → (dist cap (start_of cap k) x < dist cap (start_of cap k) j)%nat →
    is_Some (ent elts x)) as Hway.
  { intros x Hx Hd. destruct (lookup_lt_is_Some_2 elts x) as [ex Hex]; [lia|].
    specialize (Hbefore x ex Hex Hd). apply (ent_valid _ _ _ Hex).
    unfold at_key in Hbefore. by destruct (valid ex). }
  split_and!; [|done|done|].
  - unfold find_key, rounds. rewrite Hc, home_start, Nat2Z.id by done. cbn. fold elts. rewrite Hj. cbn. by rewrite He.
  - destruct (valid e) eqn:Hv.
    + unfold at_key in Hstop. rewrite Hv in Hstop. cbn in Hstop. apply bool_decide_eq_true in Hstop.
      split; [done|]. apply Hm. exists j. apply ent_Some. by exists e.
    + apply eq_None_not_Some. intros [v Hv']. apply Hm in Hv' as [i Hi].
      assert (ent elts j = None) as Ej by (by apply (ent_None _ _ _ He)).
      apply lookup_lt_Some in He as Hjl. assert (i < cap)%nat as Hil by (eapply lay_in; [done|by eexists]).
      destruct (decide (i = j)) as [->|Hij]; [congruence|].
      destruct (decide (dist cap (start_of cap k) j < dist cap (start_of cap k) i)%nat) as [Hd|Hd].
      * destruct (lay_path _ _ Hlay i k v j) as [? ?]; [done|lia|done|congruence].
      * apply ent_Some in Hi as (ei & Hei & Hvi & Hki & _).
        specialize (Hbefore i ei Hei). unfold at_key in Hbefore. rewrite Hvi, bool_decide_true in Hbefore by done.
        discriminate Hbefore. dist_lia.
Qed.

(** ** A new entry *)

Lemma layout_put f g cap j k v : layout cap f → (j < cap)%nat → f j = None → (∀ i w, f i ≠ Some (k, w)) →
  (∀ x, (x < cap)%nat → (dist cap (start_of cap k) x < dist cap (start_of cap k) j)%nat → is_Some (f x)) →
  (∀ i, g i = if decide (i = j) then Some (k, v) else f i) → layout cap g.
Proof.
  intros [Hp Hu Hi] Hj Hfj Hk Hway Hg. split.
  - intros i k' v' x E Hx Hd. rewrite Hg in E |- *. repeat case_decide; simplify_eq; [done| |done|]; [by apply Hway|by eapply Hp].
  - intros i i' k' v' w' E E'. rewrite Hg in E, E'. repeat case_decide; simplify_eq; try done.
    all: try (exfalso; eapply Hk; eassumption). by eapply Hu.
  - intros i E. rewrite Hg in E. case_decide; [by subst|by apply Hi].
Qed.

Lemma holds_put f g j k v m : holds f m → f j = None → (∀ i w, f i ≠ Some (k, w)) →
  (∀ i, g i = if decide (i = j) then Some (k, v) else f i) → holds g (<[k := v]> m).
Proof.
  intros Hm Hfj Hk Hg k' v'. destruct (decide (k' = k)) as [->|Hne].
  - rewrite lookup_insert_eq. split; [intros [= ->]; exists j; rewrite Hg; by rewrite decide_True|].
    intros [i E]. rewrite Hg in E. case_decide; [by simplify_eq|by apply Hk in E].
  - rewrite lookup_insert_ne by done. rewrite (Hm k' v'). split; intros [i E]; exists i.
    + rewrite Hg. case_decide; [by simplify_eq|done].
    + rewrite Hg in E. case_decide; [by simplify_eq|done].
Qed.

(** Replacing the value of an entry. *)
Lemma layout_replace f g cap j k v w : layout cap f → f j = Some (k, w) →
  (∀ i, g i = if decide (i = j) then Some (k, v) else f i) → layout cap g.
Proof.
  intros [Hp Hu Hi] Hfj Hg.
  assert (∀ i k' v', g i = Some (k', v') → ∃ v'', f i = Some (k', v'')) as Hgf.
  { intros i k' v' E. rewrite Hg in E. case_decide; simplify_eq; eauto. }
  split.
  - intros i k' v' x [v'' E]%Hgf Hx Hd. rewrite Hg. case_decide; [done|by eapply Hp].
  - intros i i' k' v' w' [? E]%Hgf [? E']%Hgf. by eapply Hu.
  - intros i [[k' v'] [? E]%Hgf]. apply Hi. by eexists.
Qed.

Lemma holds_replace f g cap j k v w m : layout cap f → holds f m → f j = Some (k, w) →
  (∀ i, g i = if decide (i = j) then Some (k, v) else f i) → holds g (<[k := v]> m).
Proof.
  intros Hlay Hm Hfj Hg k' v'. destruct (decide (k' = k)) as [->|Hne].
  - rewrite lookup_insert_eq. split; [intros [= ->]; exists j; rewrite Hg; by rewrite decide_True|].
    intros [i E]. rewrite Hg in E. case_decide as Hd; [by simplify_eq|]. destruct Hd. by eapply (lay_uniq _ _ Hlay).
  - rewrite lookup_insert_ne by done. rewrite (Hm k' v'). split; intros [i E]; exists i.
    + rewrite Hg. case_decide; [by simplify_eq|done].
    + rewrite Hg in E. case_decide; [by simplify_eq|done].
Qed.

(** ** Removing an entry *)

(** The table while the followers of the entry removed at [i0] are visited: [T] was the
    table before, the element at [g] is the only one that was valid and is not any
    more, [p] is the element visited next.  Ways that were free of gaps in [T] can be
    cut only at [g], and only for elements that are still to be visited. *)
Record gap_inv (cap : nat) (T f : nat → option (K * V)) (i0 g p : nat) : Prop := {
  gi_valid x : is_Some (f x) ↔ is_Some (T x) ∧ x ≠ g;
  gi_gap : is_Some (T g);
  gi_order : (dist cap i0 g < dist cap i0 p)%nat;
  gi_path i k v x : f i = Some (k, v) → (x < cap)%nat →
    (dist cap (start_of cap k) x < dist cap (start_of cap k) i)%nat → is_Some (T x);
  gi_done i k v : f i = Some (k, v) → (dist cap i0 i < dist cap i0 p)%nat →
    (dist cap (start_of cap k) i ≤ dist cap (start_of cap k) g)%nat;
  gi_uniq i j k v w : f i = Some (k, v) → f j = Some (k, w) → i = j;
  gi_in x : is_Some (T x) → (x < cap)%nat;
}.

(** The visit of the last element restores the layout. *)
Lemma gap_inv_end cap T f i0 g p : gap_inv cap T f i0 g p → (i0 < cap)%nat → (p < cap)%nat → f p = None →
  layout cap f.
Proof.
  intros [Hv Hg Ho Hp Hd Hu Hin] Hi0 Hpc Hfp.
  assert (T p = None) as HTp.
  { apply eq_None_not_Some. intros HT. destruct (decide (p = g)) as [->|]; [lia|].
    assert (is_Some (f p)) as [? ?] by (by apply Hv). congruence. }
  pose proof (Hin g Hg) as Hgc. split; [|done|intros i Hi; apply Hin; by apply Hv].
  intros i k v x E Hx Hdx. apply Hv. split; [by eapply Hp|]. intros ->.
  assert (i < cap)%nat as Hi by (apply Hin, Hv; by eexists).
  assert (i ≠ p) as Hip by congruence. pose proof (start_of_lt cap k ltac:(lia)) as Hs.
  destruct (decide (dist cap i0 i < dist cap i0 p)%nat) as [Hlt|Hge]; [specialize (Hd i k v E Hlt); lia|].
  destruct (decide (dist cap (start_of cap k) p < dist cap (start_of cap k) i)%nat) as [Hcut|Hcut].
  - destruct (Hp i k v p E) as [? ?]; [done|done|congruence].
  - dist_lia.
Qed.

Definition next (cap i : nat) : nat := norm cap (S i).

Lemma next_lt cap i : (i < cap)%nat → (next cap i < cap)%nat.
Proof. intros. unfold next, norm. case_match eqn:E; [lia|]. apply Nat.eqb_neq in E. lia. Qed.

Lemma dist_next cap i0 p z : (i0 < cap)%nat → (p < cap)%nat → (z < cap)%nat → (dist cap i0 p < dist cap i0 z)%nat →
  dist cap i0 (next cap p) = S (dist cap i0 p).
Proof.
  intros. unfold next, norm. case_match eqn:E; [apply Nat.eqb_eq in E|apply Nat.eqb_neq in E]; dist_lia.
Qed.

Lemma dist_follower cap j w : (j < cap)%nat → (w < cap)%nat → w ≠ j → dist cap j (norm cap (S j)) = 1%nat.
Proof.
  intros. unfold norm. case_match eqn:E; [apply Nat.eqb_eq in E|apply Nat.eqb_neq in E]; dist_lia.
Qed.

(** The entry has just been removed. *)
Lemma gap_inv_start cap f g j k v w : layout cap f → f j = Some (k, v) → (j < cap)%nat → (w < cap)%nat → w ≠ j →
  (∀ i, g i = if decide (i = j) then None else f i) → gap_inv cap f g j j (norm cap (S j)).
Proof.
  intros [Hp Hu Hin] Hj Hjc Hw Hwj Hg. pose proof (dist_follower cap j w Hjc Hw Hwj) as Hd.
  split; [|by eexists|rewrite Hd; dist_lia| | | |by apply Hin].
  - intros x. rewrite Hg. case_decide; [|tauto]. split; [by intros []|tauto].
  - intros i k' v' x E. rewrite Hg in E. case_decide; [done|]. by apply (Hp i k' v').
  - intros i k' v' E Hlt. rewrite Hg in E. case_decide as Hij; [done|]. destruct Hij.
    assert (i < cap)%nat by (apply Hin; by eexists). rewrite Hd in Hlt. dist_lia.
  - intros i i' k' v' w' E E'. rewrite Hg in E, E'. repeat case_decide; try done. by eapply Hu.
Qed.

(** The element visited stays. *)
Lemma gap_inv_stay cap T f i0 g p z k v : gap_inv cap T f i0 g p → (i0 < cap)%nat → (p < cap)%nat → (z < cap)%nat →
  (dist cap i0 p < dist cap i0 z)%nat → f p = Some (k, v) →
  (dist cap (start_of cap k) p ≤ dist cap (start_of cap k) g)%nat → gap_inv cap T f i0 g (next cap p).
Proof.
  intros [Hv Hg Ho Hp Hd Hu Hin] Hi0 Hpc Hzc Hz Hfp Hle. pose proof (dist_next cap i0 p z Hi0 Hpc Hzc Hz) as Hn.
  split; try done; [lia|]. intros i k' v' E Hlt. destruct (decide (i = p)) as [->|Hip]; [by simplify_eq|].
  assert (i < cap)%nat as Hi by (apply Hin, Hv; by eexists).
  eapply Hd; [done|]. rewrite Hn in Hlt. clear - Hlt Hip Hi Hi0 Hpc. dist_lia.
Qed.

(** The element visited fills the gap and leaves one. *)
Lemma gap_inv_move cap T f f' i0 g p z k v : gap_inv cap T f i0 g p → (i0 < cap)%nat → (p < cap)%nat → (z < cap)%nat →
  (dist cap i0 p < dist cap i0 z)%nat → T z = None → f p = Some (k, v) →
  (dist cap (start_of cap k) g < dist cap (start_of cap k) p)%nat →
  (∀ i, f' i = if decide (i = p) then None else if decide (i = g) then Some (k, v) else f i) →
  gap_inv cap T f' i0 p (next cap p).
Proof.
  intros [Hv Hg Ho Hp Hd Hu Hin] Hi0 Hpc Hzc Hz HTz Hfp Hlt Hf'.
  pose proof (dist_next cap i0 p z Hi0 Hpc Hzc Hz) as Hn. pose proof (Hin g Hg) as Hgc.
  assert (g ≠ p) as Hgp by (intros ->; lia).
  assert (is_Some (T p)) as HTp by (apply Hv; by eexists).
  split; [|done|lia| | | |done].
  - intros x. rewrite Hf'. case_decide as Hxp; [subst; split; [by intros []|naive_solver]|].
    case_decide as Hxg; [subst; naive_solver|]. rewrite Hv. naive_solver.
  - intros i k' v' x E Hx Hdx. rewrite Hf' in E. case_decide as Hip; [done|].
    case_decide as Hig; [simplify_eq; eapply (Hp p); [done|done|lia]|by eapply Hp].
  - intros i k' v' E Hdi. rewrite Hf' in E. case_decide as Hip; [done|]. rewrite Hn in Hdi.
    case_decide as Hig; [simplify_eq; lia|].
    assert (i < cap)%nat as Hi by (apply Hin, Hv; by eexists).
    destruct (decide (dist cap (start_of cap k') z < dist cap (start_of cap k') i)%nat) as [Hcut|Hcut].
    + destruct (Hp i k' v' z E) as [? ?]; [done|done|congruence].
    + pose proof (start_of_lt cap k' ltac:(lia)) as Hs. clear - Hcut Hdi Hip Hi Hi0 Hpc Hzc Hz Hs. dist_lia.
  - intros i j k' v' w' E E'. rewrite Hf' in E, E'.
    destruct (decide (i = p)) as [|Hip]; [done|]. destruct (decide (j = p)) as [|Hjp]; [done|].
    destruct (decide (i = g)) as [->|], (decide (j = g)) as [->|]; [done| | |by eapply Hu].
    + destruct Hjp. simplify_eq. by eapply Hu.
    + destruct Hip. simplify_eq. by eapply Hu.
Qed.

Lemma holds_ext f g m : holds f m → (∀ k v, (∃ i, f i = Some (k, v)) ↔ ∃ i, g i = Some (k, v)) → holds g m.
Proof. intros Hm E k v. by rewrite (Hm k v). Qed.

Lemma holds_move f f' g p k v m : holds f m → f p = Some (k, v) → f g = None → g ≠ p →
  (∀ i, f' i = if decide (i = p) then None else if decide (i = g) then Some (k, v) else f i) → holds f' m.
Proof.
  intros Hm Hfp Hfg Hgp Hf'. apply (holds_ext f); [done|]. intros k' v'. split; intros [i E].
  - destruct (decide (i = p)) as [->|Hip]; [exists g|exists i]; rewrite Hf'.
    + rewrite decide_False, decide_True by done. congruence.
    + rewrite decide_False by done. case_decide; [congruence|done].
  - rewrite Hf' in E. case_decide; [done|]. case_decide; [exists p; congruence|by exists i].
Qed.

(** The place the search of [rehash] finds for the element at [p]: the gap if it is on its
    way, its own otherwise. *)
Lemma rehash_place elts cap T i0 g p e : length elts = cap → gap_inv cap T (ent elts) i0 g p → (p < cap)%nat →
  elts !! p = Some e → valid e = true →
  ∃ jj, scan (λ j e, (j =? p)%nat || negb (valid e)) elts cap cap (start_of cap (key e)) = Some jj ∧
    ((jj = p ∧ dist cap (start_of cap (key e)) p ≤ dist cap (start_of cap (key e)) g) ∨
     (jj = g ∧ dist cap (start_of cap (key e)) g < dist cap (start_of cap (key e)) p))%nat.
Proof.
  intros Hlen Hgap Hpc He Hv. set (s := start_of cap (key e)).
  pose proof (start_of_lt cap (key e) ltac:(lia)) as Hs. fold s in Hs.
  assert (ent elts p = Some (key e, value e)) as Ep by (apply ent_Some; by exists e).
  assert (g < cap)%nat as Hgc by (eapply gi_in, gi_gap; done).
  assert (p ≠ g) as Hpg by (eapply (gi_valid _ _ _ _ _ _ Hgap); by eexists).
  destruct (scan_spec (λ j e, (j =? p)%nat || negb (valid e)) elts cap cap s p e) as (jj & ej & Hj & Hej & Hstop & Hb);
    [done|lia|lia|done|by rewrite Nat.eqb_refl|rewrite norm_lt by done; dist_lia|].
  rewrite norm_lt in Hb by done. exists jj. split; [done|]. apply lookup_lt_Some in Hej as Hjc.
  destruct (lookup_lt_is_Some_2 elts g) as [eg Heg]; [lia|].
  assert (valid eg = false) as Hvg.
  { apply (ent_None _ _ _ Heg). apply eq_None_not_Some. intros Hsome.
    by apply (gi_valid _ _ _ _ _ _ Hgap) in Hsome as [_ []]. }
  assert (dist cap s jj ≤ dist cap s p)%nat as Hjp.
  { apply Nat.nlt_ge. intros Hlt. specialize (Hb p e He Hlt). cbn in Hb. by rewrite Nat.eqb_refl in Hb. }
  assert (dist cap s jj ≤ dist cap s g)%nat as Hjg.
  { apply Nat.nlt_ge. intros Hlt. specialize (Hb g eg Heg Hlt). cbn in Hb. rewrite Hvg in Hb. by destruct (g =? p)%nat. }
  destruct (Nat.eqb_spec jj p) as [->|Hne]; [left; lia|]. right. cbn in Hstop.
  assert (jj = g) as ->; [|split; [done|]; clear - Hjp Hs Hgc Hpc Hpg; dist_lia].
  apply dec_stable. intros Hjne.
  assert (is_Some (ent elts jj)) as Hsome.
  { apply (gi_valid _ _ _ _ _ _ Hgap). split; [|done]. eapply (gi_path _ _ _ _ _ _ Hgap); [done|lia|].
    fold s. clear - Hjp Hne Hs Hjc Hpc Hlen. dist_lia. }
  apply (ent_valid _ _ _ Hej) in Hsome. by rewrite Hsome in Hstop.
Qed.

Lemma rehash_spec n elts cap T i0 g ii z m : length elts = cap → (ii ≤ cap)%nat → (i0 < cap)%nat → (z < cap)%nat →
  gap_inv cap T (ent elts) i0 g (norm cap ii) → holds (ent elts) m → T z = None →
  (dist cap i0 (norm cap ii) ≤ dist cap i0 z)%nat → (dist cap i0 z - dist cap i0 (norm cap ii) < n)%nat →
  ∃ elts', rehash n elts (Z.of_nat cap) ii = Some elts' ∧ length elts' = cap ∧ layout cap (ent elts') ∧
    holds (ent elts') m.
Proof.
  revert elts g ii. induction n as [|n IH]; intros elts g ii Hlen Hii Hi0 Hz Hgap Hm HTz Hle Hn; [lia|].
  cbn [rehash]. rewrite Nat2Z.id. fold (norm cap ii). set (p := norm cap ii) in *.
  assert (p < cap)%nat as Hpc by (subst p; unfold norm; case_match eqn:E; [lia|apply Nat.eqb_neq in E; lia]).
  destruct (lookup_lt_is_Some_2 elts p) as [e He]; [lia|]. rewrite He. cbn [mbind option_bind].
  destruct (valid e) eqn:Hv; cbn [negb]; cycle 1.
  { exists elts. split_and!; try done. eapply gap_inv_end; [done|done|done|]. by apply (ent_None _ _ _ He). }
  assert (ent elts p = Some (key e, value e)) as Ep by (apply ent_Some; by exists e).
  assert (dist cap i0 p < dist cap i0 z)%nat as Hlt.
  { assert (p ≠ z) as Hpz; [|clear - Hpz Hle Hpc Hz Hi0; dist_lia]. intros Hpz. rewrite Hpz in Ep.
    assert (is_Some (T z)) as [? ?] by (eapply (gi_valid _ _ _ _ _ _ Hgap); by eexists). congruence. }
  pose proof (dist_next cap i0 p z Hi0 Hpc Hz Hlt) as Hnext.
  rewrite home_start by lia. cbn [mbind option_bind].
  destruct (rehash_place elts cap T i0 g p e) as (jj & -> & Hjj); [done..|]. cbn [mbind option_bind].
  destruct Hjj as [[-> Hd]|[-> Hd]].
  - rewrite Nat.eqb_refl. apply (IH elts g (S p)); try done; change (norm cap (S p)) with (next cap p); [|lia|lia].
    eapply (gap_inv_stay _ _ _ _ _ _ z); eauto.
  - assert (g < cap)%nat as Hgc by (eapply gi_in, gi_gap; done).
    destruct (Nat.eqb_spec g p) as [->|Hgp]; [lia|].
    assert (∀ i, ent (<[p := mk_elt false (key e) (value e)]> (<[g := e]> elts)) i =
      if decide (i = p) then None else if decide (i = g) then Some (key e, value e) else ent elts i) as Hf'.
    { intros i. rewrite ent_insert by (rewrite length_insert; lia). case_decide; [done|].
      rewrite ent_insert by lia. case_decide; [|done]. unfold entry. by rewrite Hv. }
    assert (ent elts g = None) as Eg.
    { apply eq_None_not_Some. intros Hs. by apply (gi_valid _ _ _ _ _ _ Hgap) in Hs as [_ []]. }
    apply (IH _ p (S p)); try done; change (norm cap (S p)) with (next cap p); [by rewrite !length_insert| | |lia|lia].
    + eapply (gap_inv_move _ _ _ _ _ _ _ z); eauto.
    + eapply holds_move; [exact Hm|done|done|done|done].
Qed.

(** ** The entries as a list *)

Definition entries elts : list (K * V) := omap entry elts.

Lemma entries_cons e elts : entries (e :: elts) = if valid e then (key e, value e) :: entries elts else entries elts.
Proof. unfold entries. cbn. unfold entry at 1. by destruct (valid e). Qed.

Lemma elem_of_entries elts kv : kv ∈ entries elts ↔ ∃ i, ent elts i = Some kv.
Proof.
  unfold entries, ent. rewrite list_elem_of_omap. setoid_rewrite list_elem_of_lookup. split.
  - intros (e & [i Hi] & He). exists i. by rewrite Hi.
  - intros [i Hi]. destruct (elts !! i) as [e|] eqn:He; [|done]. exists e. split; [by exists i|done].
Qed.

Lemma entries_NoDup elts : (∀ i j k v w, ent elts i = Some (k, v) → ent elts j = Some (k, w) → i = j) →
  NoDup (entries elts).*1.
Proof.
  induction elts as [|e elts IH]; intros Hu; [constructor|]. unfold entries. cbn.
  assert (NoDup (entries elts).*1) as Hnd.
  { apply IH. intros i j k v w Hi Hj. specialize (Hu (S i) (S j) k v w Hi Hj). lia. }
  destruct (entry e) as [[k v]|] eqn:He; [|done]. cbn. constructor; [|done].
  intros ([k' w] & -> & Hin)%list_elem_of_fmap. cbn in Hu. apply elem_of_entries in Hin as [i Hi].
  specialize (Hu O (S i) k' v w). cbn in Hu. discriminate Hu; [|done]. unfold ent. cbn. done.
Qed.

Lemma holds_entries elts cap m : layout cap (ent elts) → holds (ent elts) m → m = list_to_map (entries elts).
Proof.
  intros Hlay Hm. apply map_eq. intros k. apply option_eq. intros v.
  rewrite <-elem_of_list_to_map by (by apply entries_NoDup, (lay_uniq _ _ Hlay)).
  by rewrite (Hm k v), elem_of_entries.
Qed.

Lemma holds_size elts cap m : layout cap (ent elts) → holds (ent elts) m → size m = length (entries elts).
Proof.
  intros Hlay Hm. rewrite (holds_entries elts cap m) by done.
  apply map_size_list_to_map, entries_NoDup, (lay_uniq _ _ Hlay).
Qed.

Lemma entries_room elts : (length (entries elts) < length elts)%nat → ∃ z, (z < length elts)%nat ∧ ent elts z = None.
Proof.
  induction elts as [|e elts IH]; [cbn; lia|]. unfold entries. cbn. intros Hlt.
  destruct (entry e) as [kv|] eqn:He.
  - destruct IH as (z & Hz & Ez); [cbn in Hlt; unfold entries; lia|]. exists (S z). split; [lia|done].
  - exists O. split; [lia|]. unfold ent. by cbn.
Qed.

Lemma holds_room elts cap m : length elts = cap → layout cap (ent elts) → holds (ent elts) m → (size m < cap)%nat →
  ∃ z, (z < cap)%nat ∧ ent elts z = None.
Proof. intros Hl Hlay Hm. rewrite (holds_size elts cap m), <-Hl by done. apply entries_room. Qed.

(** ** Growing *)

Lemma layout_empty cap : layout cap (ent (replicate cap (zero_elt : opal_hash_element_t K V))).
Proof.
  split; [intros *; by rewrite ent_replicate|intros *; by rewrite ent_replicate|].
  intros i. rewrite ent_replicate. by intros [].
Qed.

Lemma holds_empty cap : holds (ent (replicate cap (zero_elt : opal_hash_element_t K V))) ∅.
Proof. intros k v. rewrite lookup_empty. split; [done|]. intros [i E]. by rewrite ent_replicate in E. Qed.

Lemma holds_absent f m k : holds f m → m !! k = None → ∀ i w, f i ≠ Some (k, w).
Proof. intros Hm Hk i w E. assert (m !! k = Some w); [apply Hm; by exists i|congruence]. Qed.

(** One entry goes to the first place on its way. *)
Lemma place_spec elts cap k v m (e := mk_elt true k v) : length elts = cap → layout cap (ent elts) → holds (ent elts) m →
  (size m < cap)%nat → m !! k = None →
  ∃ ii, scan invalid_at elts cap cap (start_of cap k) = Some ii ∧
    layout cap (ent (<[ii := e]> elts)) ∧ holds (ent (<[ii := e]> elts)) (<[k := v]> m).
Proof.
  intros Hlen Hlay Hm Hroom Hk. destruct (holds_room elts cap m) as (z & Hz & Ez); [done..|].
  pose proof (start_of_lt cap k ltac:(lia)) as Hs. destruct (lookup_lt_is_Some_2 elts z) as [ez Hez]; [lia|].
  destruct (scan_spec invalid_at elts cap cap (start_of cap k) z ez) as (j & ej & Hj & Hej & Hstop & Hb);
    [done|lia|lia|done| |rewrite norm_lt by done; dist_lia|].
  { unfold invalid_at. apply (ent_None elts z ez) in Ez; [|done]. by rewrite Ez. }
  rewrite norm_lt in Hb by done. apply lookup_lt_Some in Hej as Hjl. exists j. split; [done|].
  assert (∀ i, ent (<[j := e]> elts) i = if decide (i = j) then Some (k, v) else ent elts i) as Hg
    by (intros i; by rewrite ent_insert).
  assert (ent elts j = None) as Ej.
  { apply (ent_None _ _ _ Hej). unfold invalid_at in Hstop. by destruct (valid ej). }
  split; [|by eapply holds_put; [done|done|by eapply holds_absent|]].
  eapply layout_put; [done|rewrite <-Hlen; exact Hjl|done|by eapply holds_absent| |done].
  intros x Hx Hd. destruct (lookup_lt_is_Some_2 elts x) as [ex Hex]; [lia|]. apply (ent_valid _ _ _ Hex).
  specialize (Hb x ex Hex Hd). unfold invalid_at in Hb. by destruct (valid ex).
Qed.

Lemma reinsert_spec old elts cap m : length elts = cap → layout cap (ent elts) → holds (ent elts) m →
  (size m + length (entries old) < cap)%nat → NoDup (entries old).*1 → (∀ k, k ∈ (entries old).*1 → m !! k = None) →
  ∃ elts', reinsert old (Z.of_nat cap) elts = Some elts' ∧ length elts' = cap ∧ layout cap (ent elts') ∧
    holds (ent elts') (list_to_map (entries old) ∪ m).
Proof.
  revert elts m. induction old as [|e old IH]; intros elts m Hlen Hlay Hm Hsize Hnd Hdis.
  { exists elts. split_and!; try done. change (entries []) with (@nil (K * V)). by rewrite list_to_map_nil, map_empty_union. }
  cbn [reinsert]. rewrite entries_cons in *. destruct e as [vld k v]. cbn [valid key value] in *.
  destruct vld; [|by apply IH]. rewrite list_to_map_cons. cbn in Hsize, Hnd, Hdis.
  rewrite home_start by lia. cbn [mbind option_bind]. rewrite !Nat2Z.id.
  apply NoDup_cons in Hnd as [Hnk Hnd].
  assert (m !! k = None) as Hk by (apply Hdis; left).
  destruct (place_spec elts cap k v m) as (ii & -> & Hlay' & Hm'); [done|done|done|lia|done|]. cbn [mbind option_bind].
  destruct (IH (<[ii := mk_elt true k v]> elts) (<[k := v]> m)) as (elts' & E & Hl & Hlay2 & Hm2);
    [by rewrite length_insert|done|done|rewrite map_size_insert_None by done; lia|done| |].
  { intros k' Hk'. rewrite lookup_insert_ne; [apply Hdis; by right|]. by intros ->. }
  exists elts'. split_and!; try done. rewrite <-insert_union_l. rewrite <-insert_union_r in Hm2; [done|].
  by apply not_elem_of_list_to_map_1.
Qed.
End layout.

End HashSpec.
