(* ===== verification/HashRefines.v ===== *)
(** * Hash tables implement finite maps

    The invariant of a table and the map it stands for, each operation of
    opal_hash_table.c against its counterpart on maps, and the refinement of whole
    sequences of operations. *)

From Stdlib Require Import ZArith Lia.
From stdpp Require Import prelude numbers gmap list.
From S2P Require Import Prelude HashTable HashSpec.

Local Open Scope Z_scope.

Module HashRefines.
Import HT HashSpec.

Section table.
Context {K V : Type} `{HashKey K} `{!Countable K} `{Inhabited V}.
Implicit Types ht : opal_hash_table_t K V.
Implicit Types m : gmap K V.

(** An element is 32 bytes, and no block is larger than half of the address space. *)
Context (calloc : Z → bool) (calloc_limit : ∀ n, calloc n = true → n * 32 < 2 ^ 63).

(** The numbers that govern growth: at least one element stays free, the table grows,
    and products with them stay in range. *)
Record tuned ht : Prop := {
  tu_density : 0 < ht_density_numer ht < ht_density_denom ht;
  tu_density_max : ht_density_numer ht ≤ 32 ∧ ht_density_denom ht ≤ INT_MAX;
  tu_growth : 0 < ht_growth_denom ht ≤ ht_growth_numer ht;
  tu_growth_max : ht_growth_numer ht ≤ 32;
  tu_trigger : ht_growth_trigger ht = ht_capacity ht * ht_density_numer ht / ht_density_denom ht;
  tu_capacity : ht_capacity ht < 2 ^ 58;
}.

(** The table stands for the map. *)
Record stands ht m : Prop := {
  sd_capacity : ht_capacity ht = Z.of_nat (length (ht_table ht));
  sd_layout : layout (length (ht_table ht)) (ent (ht_table ht));
  sd_holds : holds (ent (ht_table ht)) m;
  sd_size : ht_size ht = Z.of_nat (size m);
  sd_tuned : tuned ht;
}.

(** And a search for a key that is not there ends. *)
Definition rep ht m : Prop := stands ht m ∧ (size m < length (ht_table ht))%nat.

Lemma rep_room ht m : rep ht m → ∃ z, (z < length (ht_table ht))%nat ∧ ent (ht_table ht) z = None.
Proof. intros [[] Hroom]. by eapply holds_room. Qed.

Lemma stands_set_methods ht m b : stands ht m → stands (set_methods b ht) m.
Proof. intros [? ? ? ? []]. by split. Qed.

Lemma find_key_rep ht m k : rep ht m →
  ∃ j e, find_key (rounds ht) k ht = Some (j, e) ∧ ht_table ht !! j = Some e ∧
    (∀ x, (x < length (ht_table ht))%nat →
      (dist (length (ht_table ht)) (start_of (length (ht_table ht)) k) x <
       dist (length (ht_table ht)) (start_of (length (ht_table ht)) k) j)%nat → is_Some (ent (ht_table ht) x)) ∧
    (if valid e then key e = k ∧ m !! k = Some (value e) else m !! k = None).
Proof.
  intros Hrep. destruct (rep_room ht m Hrep) as (z & Hz & Ez). destruct Hrep as [[] _].
  eapply find_key_spec; eauto.
Qed.

(** ** Reading *)

Lemma get_value_run ht m k : rep ht m →
  opal_hash_table_get_value ht k =
    Some (set_methods true ht, match m !! k with Some v => inr v | None => inl OPAL_ERR_NOT_FOUND end).
Proof.
  intros Hrep. destruct (find_key_rep (set_methods true ht) m k) as (j & e & Hf & _ & _ & Hv).
  { destruct Hrep as [Hs Hr]. split; [by apply stands_set_methods|done]. }
  unfold opal_hash_table_get_value. rewrite Hf. cbn. destruct (valid e).
  - destruct Hv as [_ ->]. done.
  - by rewrite Hv.
Qed.

(** ** Capacities *)

Lemma uwrap_small z : 0 ≤ z < 2 ^ 64 → uwrap 64 z = z.
Proof. intros. unfold uwrap. by apply Z.mod_small. Qed.

(** The rounded capacity is larger than the one asked for. *)
Lemma round_capacity_up c : 0 ≤ c < 2 ^ 63 →
  c < opal_hash_round_capacity_up c ≤ c + 30 ∧ opal_hash_round_capacity_up c = (c + 29) / 30 * 30 + 1.
Proof.
  intros Hc. unfold opal_hash_round_capacity_up.
  assert (c ≤ (c + 29) / 30 * 30 ≤ c + 29) as Hq.
  { pose proof (Z.div_mod (c + 29) 30). pose proof (Z.mod_pos_bound (c + 29) 30). lia. }
  rewrite (uwrap_small (c + 29)) by lia. rewrite (uwrap_small ((c + 29) / 30 * 30)) by lia.
  rewrite uwrap_small by lia. lia.
Qed.

Lemma trigger_lt cap dn dd : 0 < cap → 0 < dn < dd → cap * dn / dd < cap.
Proof. intros. apply Z.div_lt_upper_bound; nia. Qed.

(** ** Writing *)

Lemma hash_grow_run ht m : stands ht m → (0 < length (ht_table ht))%nat → (size m ≤ length (ht_table ht))%nat →
  ht_type_methods ht = true →
  ∃ ht' rc, opal_hash_grow calloc ht = Some (ht', rc) ∧
    ((rc = OPAL_SUCCESS ∧ rep ht' m) ∨ (rc = OPAL_ERR_OUT_OF_RESOURCE ∧ ht' = ht)).
Proof.
  intros [Hcap Hlay Hm Hsz Htu] Hpos Hle Hmeth. pose proof Htu as [[] [] [] ? ? ?].
  unfold opal_hash_grow. destruct (Z.eqb_spec (ht_growth_denom ht) 0); [lia|].
  destruct (Z.eqb_spec (ht_density_denom ht) 0); [lia|]. cbn [orb]. unfold INT_MAX in *.
  rewrite (uwrap_small (ht_growth_numer ht)) by lia. rewrite (uwrap_small (ht_growth_denom ht)) by lia.
  rewrite (uwrap_small (ht_capacity ht * ht_growth_numer ht)) by nia.
  set (c := ht_capacity ht * ht_growth_numer ht / ht_growth_denom ht).
  assert (ht_capacity ht ≤ c < 2 ^ 63) as Hc.
  { subst c. split; [apply Z.div_le_lower_bound; nia|apply Z.div_lt_upper_bound; nia]. }
  destruct (round_capacity_up c) as [Hr _]; [lia|]. set (nc := opal_hash_round_capacity_up c) in *.
  destruct (calloc nc) eqn:Hal; cbn [negb]; [|exists ht, OPAL_ERR_OUT_OF_RESOURCE; split; [done|by right]].
  apply calloc_limit in Hal. rewrite Hmeth. cbn [negb].
  assert (nc = Z.of_nat (Z.to_nat nc)) as Hnc by lia. rewrite Hnc. rewrite Nat2Z.id.
  destruct (reinsert_spec (ht_table ht) (replicate (Z.to_nat nc) zero_elt) (Z.to_nat nc) ∅)
    as (elts & -> & Hl & Hlay' & Hm'); [by rewrite length_replicate|apply layout_empty|apply holds_empty| | |done|].
  { rewrite map_size_empty, <-(holds_size _ _ m Hlay Hm). lia. }
  { apply entries_NoDup, (lay_uniq _ _ Hlay). }
  cbn [mbind option_bind]. eexists _, _. split; [reflexivity|]. left. split; [done|].
  rewrite map_union_empty, <-(holds_entries _ _ m Hlay Hm) in Hm'.
  rewrite (uwrap_small (ht_density_numer ht)) by lia. rewrite (uwrap_small (ht_density_denom ht)) by lia.
  rewrite (uwrap_small (Z.of_nat (Z.to_nat nc) * _)) by nia.
  split; [|cbn [ht_table]; lia]. split; cbn; try done; [by rewrite Hl|by rewrite Hl|]. split; cbn; try done; lia.
Qed.

(** The outcome of an operation that may have to grow the table: when the memory for it is
    not there the new entry is kept all the same. *)
Definition written ht' rc m' : Prop :=
  (rc = OPAL_SUCCESS ∧ rep ht' m') ∨ (rc = OPAL_ERR_OUT_OF_RESOURCE ∧ stands ht' m').

Lemma set_value_run ht m k v : rep ht m →
  ∃ ht' rc, opal_hash_table_set_value calloc ht k v = Some (ht', rc) ∧ written ht' rc (<[k := v]> m).
Proof.
  intros Hrep. set (ht1 := set_methods true ht).
  assert (rep ht1 m) as Hrep1 by (destruct Hrep; split; [by apply stands_set_methods|done]).
  destruct (find_key_rep ht1 m k Hrep1) as (j & e & Hf & He & Hway & Hv).
  apply lookup_lt_Some in He as Hj. destruct Hrep1 as [[Hcap Hlay Hm Hsz Htu] Hroom].
  unfold opal_hash_table_set_value. fold ht1. rewrite Hf. cbn [mbind option_bind].
  set (cap := length (ht_table ht1)) in *.
  assert (∀ e', valid e' = true → key e' = k → value e' = v →
    ∀ i, ent (<[j := e']> (ht_table ht1)) i = if decide (i = j) then Some (k, v) else ent (ht_table ht1) i) as Hput.
  { intros e' Hve <- <- i. rewrite ent_insert by done. unfold entry. by rewrite Hve. }
  destruct (valid e) eqn:Hve.
  - destruct Hv as [<- Hk]. eexists _, _. split; [done|]. left. split; [done|].
    assert (ent (ht_table ht1) j = Some (key e, value e)) as Ej by (apply ent_Some; by exists e).
    specialize (Hput (mk_elt true (key e) v) eq_refl eq_refl eq_refl).
    split; [split|]; cbn; rewrite ?length_insert; try done.
    + eapply layout_replace; done.
    + eapply holds_replace; done.
    + by rewrite map_size_insert_Some by eauto.
    + by destruct Htu.
    + by rewrite map_size_insert_Some by eauto.
  - assert (ent (ht_table ht1) j = None) as Ej by (by apply (ent_None _ _ _ He)).
    specialize (Hput (mk_elt true k v) eq_refl eq_refl eq_refl).
    set (ht2 := set_size _ _). destruct Htu as [? ? ? ? Htrig Hcmax].
    assert (uwrap 64 (ht_size ht1 + 1) = Z.of_nat (size (<[k := v]> m))) as Hsz2.
    { rewrite map_size_insert_None by done. rewrite Hsz, uwrap_small by lia. lia. }
    assert (stands ht2 (<[k := v]> m)) as Hst.
    { split; cbn; rewrite ?length_insert; try done.
      - eapply layout_put; try done. by eapply holds_absent.
      - eapply holds_put; try done. by eapply holds_absent. }
    assert (length (ht_table ht2) = cap) as Hlen2 by (cbn; by rewrite length_insert).
    destruct (Z.leb_spec (ht_growth_trigger ht2) (ht_size ht2)) as [Hle|Hlt].
    + destruct (hash_grow_run ht2 (<[k := v]> m)) as (ht' & rc & -> & Hres); try done; [lia|rewrite Hlen2, map_size_insert_None by done; lia|].
      exists ht', rc. split; [done|]. destruct Hres as [[-> ?]|[-> ->]]; [by left|by right].
    + exists ht2, OPAL_SUCCESS. split; [done|]. left. split; [done|]. split; [done|].
      destruct Hst as [Hc _ _ Hs2 _]. rewrite Hlen2 in *.
      pose proof (trigger_lt (ht_capacity ht2) (ht_density_numer ht2) (ht_density_denom ht2)) as Ht.
      change (ht_growth_trigger ht2) with (ht_growth_trigger ht1) in Hlt. rewrite Htrig in Hlt.
      change (ht_capacity ht2) with (ht_capacity ht1) in *. change (ht_density_numer ht2) with (ht_density_numer ht1) in *.
      change (ht_density_denom ht2) with (ht_density_denom ht1) in *. lia.
Qed.

(** ** Removing *)

Lemma holds_drop elts cap j k v m e : layout cap (ent elts) → holds (ent elts) m → (j < length elts)%nat →
  ent elts j = Some (k, v) → valid e = false → holds (ent (<[j := e]> elts)) (delete k m).
Proof.
  intros Hlay Hm Hj Ej He k' v'. destruct (decide (k' = k)) as [->|Hne].
  - rewrite lookup_delete_eq. split; [done|]. intros [i E]. rewrite ent_insert in E by done.
    unfold entry in E. rewrite He in E. case_decide as Hd; [done|]. destruct Hd. by eapply (lay_uniq _ _ Hlay).
  - rewrite lookup_delete_ne by done. rewrite (Hm k' v'). split; intros [i E]; exists i.
    + rewrite ent_insert by done. case_decide; [by simplify_eq|done].
    + rewrite ent_insert in E by done. unfold entry in E. rewrite He in E. by case_decide.
Qed.

Lemma remove_value_run ht m k : rep ht m →
  ∃ ht', opal_hash_table_remove_value ht k =
           Some (ht', if decide (m !! k = None) then OPAL_ERR_NOT_FOUND else OPAL_SUCCESS) ∧
         rep ht' (delete k m).
Proof.
  intros Hrep. set (ht1 := set_methods true ht).
  assert (rep ht1 m) as Hrep1 by (destruct Hrep; split; [by apply stands_set_methods|done]).
  destruct (find_key_rep ht1 m k Hrep1) as (j & e & Hf & He & Hway & Hv).
  destruct (rep_room ht1 m Hrep1) as (z & Hz & Ez).
  unfold opal_hash_table_remove_value. fold ht1. rewrite Hf. cbn [mbind option_bind].
  destruct (valid e) eqn:Hve; cycle 1.
  { exists ht1. rewrite decide_True, delete_id by done. done. }
  destruct Hv as [Hke Hk]. rewrite decide_False by (by rewrite Hk).
  apply lookup_lt_Some in He as Hj. destruct Hrep1 as [[Hcap Hlay Hm Hsz Htu] Hroom].
  unfold opal_hash_table_remove_elt_at. rewrite He. cbn [mbind option_bind]. rewrite Hve. cbn [negb].
  change (ht_type_methods ht1) with true. cbn [negb]. set (elts := ht_table ht1) in *. set (cap := length elts) in *.
  assert (ent elts j = Some (k, value e)) as Ej by (apply ent_Some; by exists e).
  set (e0 := mk_elt false (elt_destructor (key e)) (value e)).
  destruct (lookup_lt_is_Some_2 elts z) as [ez Hez]; [done|].
  destruct (scan_spec invalid_at elts cap cap j z ez) as (w & ew & _ & Hew & Hsw & Hb);
    [done|lia|lia|done| |rewrite norm_lt by done; dist_lia|].
  { unfold invalid_at. apply (ent_None _ _ _ Hez) in Ez. by rewrite Ez. }
  apply lookup_lt_Some in Hew as Hwc.
  assert (ent elts w = None) as Ew by (apply (ent_None _ _ _ Hew); unfold invalid_at in Hsw; by destruct (valid ew)).
  assert (w ≠ j) as Hwj by congruence.
  pose proof (dist_follower cap j w Hj Hwc Hwj) as Hd1.
  assert (gap_inv cap (ent elts) (ent (<[j := e0]> elts)) j j (norm cap (S j))) as Hgap.
  { eapply (gap_inv_start _ _ _ _ _ _ w); [done|done|done|done|done|]. intros i. by rewrite ent_insert. }
  destruct (rehash_spec cap (<[j := e0]> elts) cap (ent elts) j j (S j) w (delete k m)) as (elts' & E & Hl & Hlay' & Hm');
    [by rewrite length_insert|lia|done|done|done|eapply (holds_drop _ cap j k (value e)); done|done|rewrite Hd1; dist_lia|rewrite Hd1; dist_lia|].
  unfold rounds. rewrite Hcap, Nat2Z.id. fold cap. rewrite E. cbn [mbind option_bind].
  assert (m !! k ≠ None) as Hk' by congruence.
  assert (size m ≠ 0)%nat as Hs0 by (intros ?%map_size_empty_inv; subst; by rewrite lookup_empty in Hk').
  eexists. split; [done|]. split; [split; cbn|cbn]; rewrite ?Hl; try done.
  - change (ht_size ht) with (ht_size ht1). rewrite Hsz, map_size_delete_Some by eauto.
    destruct Htu. rewrite uwrap_small by lia. lia.
  - by destruct Htu.
  - rewrite map_size_delete_Some by eauto. lia.
Qed.

(** ** Initialising, emptying *)

Lemma hash_init_run (table_size : Z) : 0 ≤ table_size < 2 ^ 60 →
  ∃ ht rc, opal_hash_table_init calloc opal_hash_table_construct table_size = Some (ht, rc) ∧
    ((rc = OPAL_SUCCESS ∧ rep ht ∅) ∨ rc = OPAL_ERR_OUT_OF_RESOURCE).
Proof.
  intros Hs. unfold opal_hash_table_init, opal_hash_table_init2. cbn [Z.eqb orb].
  change (uwrap 64 2) with 2. change (uwrap 64 1) with 1. rewrite Z.div_1_r, (uwrap_small (table_size * 2)) by lia.
  destruct (round_capacity_up (table_size * 2)) as [Hr _]; [lia|]. set (c := opal_hash_round_capacity_up _) in *.
  destruct (calloc c) eqn:Hal; cbn [negb]; [|eexists _, _; split; [reflexivity|by right]].
  apply calloc_limit in Hal. eexists _, _. split; [reflexivity|]. left. split; [done|].
  rewrite Z.mul_1_r, (uwrap_small c) by lia.
  split; [|cbn; rewrite map_size_empty, length_replicate; lia].
  split; cbn; rewrite ?length_replicate; [lia|apply layout_empty|apply holds_empty|by rewrite map_size_empty|].
  split; cbn; unfold INT_MAX; try lia. by rewrite Z.mul_1_r.
Qed.

Lemma remove_all_run ht m : rep ht m →
  ∃ ht', opal_hash_table_remove_all ht = (ht', OPAL_SUCCESS) ∧ rep ht' ∅.
Proof.
  intros [[Hcap Hlay Hm Hsz Htu] Hroom]. eexists. split; [reflexivity|].
  assert (∀ i, ent (clear_elt ht <$> ht_table ht) i = None) as He.
  { intros i. unfold ent. rewrite list_lookup_fmap. by destruct (ht_table ht !! i). }
  split; [|cbn; rewrite map_size_empty, length_fmap; lia]. split; cbn; rewrite ?length_fmap; [done| | |by rewrite map_size_empty|by destruct Htu].
  - split; [intros i *; by rewrite He|intros i *; by rewrite He|]. intros i. rewrite He. by intros [].
  - intros k v. rewrite lookup_empty. split; [done|]. intros [i E]. by rewrite He in E.
Qed.

(** ** Searches that end *)

Lemma scan_stop stop (elts : list (opal_hash_element_t K V)) cap n ii j :
  scan stop elts cap n ii = Some j → ∃ e, elts !! j = Some e ∧ stop j e = true.
Proof.
  revert ii. induction n as [|n IH]; intros ii; [done|]. cbn [scan]. fold (norm cap ii).
  destruct (elts !! norm cap ii) as [e|] eqn:He; [|done]. cbn.
  destruct (stop (norm cap ii) e) eqn:Hs; [intros [= <-]; eauto|apply IH].
Qed.

Lemma entries_full (elts : list (opal_hash_element_t K V)) z : (z < length elts)%nat → ent elts z = None →
  (length (entries elts) < length elts)%nat.
Proof.
  assert (∀ l : list (opal_hash_element_t K V), length (entries l) ≤ length l)%nat as Hle.
  { induction l as [|e l IH]; [done|]. rewrite entries_cons. case_match; cbn; lia. }
  revert z. induction elts as [|e elts IH]; intros z Hz Ez; [cbn in Hz; lia|]. rewrite entries_cons.
  destruct z as [|z].
  - specialize (Hle elts). apply (ent_None _ O e) in Ez; [|done]. rewrite Ez. cbn. lia.
  - specialize (IH z). cbn in Hz, Ez. unfold ent in Ez, IH. cbn in Ez. case_match; cbn; specialize (IH ltac:(lia) Ez); lia.
Qed.

Lemma search_ends ht m k fuel r : stands ht m → find_key fuel k ht = Some r →
  is_Some (m !! k) ∨ (size m < length (ht_table ht))%nat.
Proof.
  intros [Hcap Hlay Hm _ _] E. destruct r as [j e]. unfold find_key in E. destruct (home k (ht_capacity ht)) as [s|]; [|done]. cbn in E.
  destruct (scan _ _ _ _ _) as [ii|] eqn:Hsc; [|done]. cbn in E.
  apply scan_stop in Hsc as (e' & He' & Hstop). rewrite He' in E. cbn in E. simplify_eq.
  apply lookup_lt_Some in He' as Hj. unfold at_key in Hstop. destruct (valid e) eqn:Hv; cbn in Hstop.
  - left. exists (value e). apply Hm. exists j. apply bool_decide_eq_true in Hstop. apply ent_Some. by exists e.
  - right. rewrite (holds_size _ _ m Hlay Hm). eapply entries_full; [done|]. by apply (ent_None _ _ _ He').
Qed.

(** C33. The search for a key ends, within as many rounds as the table has elements, if the key
    is in the table or an element is free, and otherwise after no number of rounds.  A
    table in which an insertion has failed for lack of memory can be full: the next
    operation on a key that is not in it never returns. *)
Theorem search_terminates ht m k : stands ht m → (0 < length (ht_table ht))%nat →
  (is_Some (m !! k) ∨ (size m < length (ht_table ht))%nat → ∃ r, find_key (length (ht_table ht)) k ht = Some r) ∧
  (¬ (is_Some (m !! k) ∨ (size m < length (ht_table ht))%nat) → ∀ fuel, find_key fuel k ht = None).
Proof.
  intros Hst Hpos. pose proof Hst as [Hcap Hlay Hm _ _]. split.
  - intros [[v Hk]|Hroom].
    + apply Hm in Hk as [y Hy]. apply ent_Some in Hy as (ey & Hey & Hvy & Hky & _).
      destruct (scan_spec (at_key k) (ht_table ht) (length (ht_table ht)) (length (ht_table ht)) (start_of (length (ht_table ht)) k) y ey)
        as (j & e & Hj & He & _ & _); [done|done| |done| | |].
      * pose proof (start_of_lt _ k Hpos). lia.
      * unfold at_key. rewrite Hvy, bool_decide_true by done. done.
      * rewrite norm_lt by (by apply start_of_lt). apply lookup_lt_Some in Hey. pose proof (start_of_lt _ k Hpos). dist_lia.
      * exists (j, e). unfold find_key.
        rewrite Hcap, home_start, Nat2Z.id by done. cbn. rewrite Hj. cbn. by rewrite He.
    + destruct (find_key_rep ht m k) as (j & e & E & _); [done|]. exists (j, e). rewrite <-E. f_equal. unfold rounds. rewrite Hcap. lia.
  - intros Hn fuel. destruct (find_key fuel k ht) as [r|] eqn:E; [|done]. destruct Hn. by eapply search_ends.
Qed.

(** ** Traversal *)

Fixpoint walk (fuel : nat) ht (node : option nat) : list (K * V) :=
  match fuel with
  | O => []
  | S fuel =>
    match opal_hash_table_get_next_key ht node with
    | None => []
    | Some (k, v, n) => (k, v) :: walk fuel ht (Some n)
    end
  end.

Lemma entries_next (elts : list (opal_hash_element_t K V)) n ii : (length elts - ii ≤ n)%nat →
  match first_from valid elts ii n with
  | Some j => ∃ e, elts !! j = Some e ∧ (ii ≤ j)%nat ∧ entries (drop ii elts) = (key e, value e) :: entries (drop (S j) elts)
  | None => entries (drop ii elts) = []
  end.
Proof.
  revert ii. induction n as [|n IH]; intros ii Hn; cbn [first_from].
  - by rewrite drop_ge by lia.
  - destruct (elts !! ii) as [e|] eqn:He; [|apply lookup_ge_None in He; by rewrite drop_ge].
    rewrite (drop_S _ _ _ He), entries_cons. destruct (valid e) eqn:Hv; [by exists e|].
    specialize (IH (S ii) ltac:(lia)). destruct (first_from valid elts (S ii) n) as [j|]; [|done].
    destruct IH as (e' & ? & ? & ?). exists e'. split_and!; [done|lia|done].
Qed.

(** Walking over a table with get_first_key and get_next_key meets every entry of the
    map exactly once, and ends. *)
Theorem traversal_complete ht m : stands ht m → walk (length (ht_table ht)) ht None ≡ₚ map_to_list m.
Proof.
  intros [Hcap Hlay Hm _ _].
  assert (∀ n node ii, match node with None => O | Some p => S p end = ii → (length (ht_table ht) - ii ≤ n)%nat →
    walk n ht node = entries (drop ii (ht_table ht))) as Hwalk.
  { induction n as [|n IH]; intros node ii Hii Hn; cbn [walk]; [by rewrite drop_ge by lia|].
    unfold opal_hash_table_get_next_key, opal_hash_table_get_next_elt. rewrite Hii, Hcap, Nat2Z.id.
    pose proof (entries_next (ht_table ht) (length (ht_table ht) - ii) ii ltac:(lia)) as Hnext.
    destruct (first_from _ _ _ _) as [j|]; [|done]. destruct Hnext as (e & He & Hj & ->). cbn [mbind option_bind].
    rewrite He. cbn [mbind option_bind]. f_equal. apply IH; [done|]. apply lookup_lt_Some in He. lia. }
  rewrite (Hwalk _ _ O) by (done || lia). rewrite drop_0. rewrite (holds_entries _ _ m Hlay Hm).
  symmetry. apply map_to_list_to_map, entries_NoDup, (lay_uniq _ _ Hlay).
Qed.

(** ** Sequences of operations *)

Inductive op :=
  | Get (k : K)
  | Set_ (k : K) (v : V)
  | Remove (k : K)
  | RemoveAll
  | GetSize.

Inductive answer :=
  | code (rc : Z)
  | found (v : V)
  | number (n : Z).

Definition run_op ht (o : op) : option (opal_hash_table_t K V * answer) :=
  match o with
  | Get k => '(ht, r) ← opal_hash_table_get_value ht k; Some (ht, match r with inr v => found v | inl rc => code rc end)
  | Set_ k v => '(ht, rc) ← opal_hash_table_set_value calloc ht k v; Some (ht, code rc)
  | Remove k => '(ht, rc) ← opal_hash_table_remove_value ht k; Some (ht, code rc)
  | RemoveAll => let (ht, rc) := opal_hash_table_remove_all ht in Some (ht, code rc)
  | GetSize => Some (ht, number (ht_size ht))
  end.

Definition out_of_memory (a : answer) : bool :=
  match a with code rc => rc =? OPAL_ERR_OUT_OF_RESOURCE | _ => false end.

(** A client stops when memory runs out. *)
Fixpoint run_ops ht (ops : list op) : option (opal_hash_table_t K V * list answer) :=
  match ops with
  | [] => Some (ht, [])
  | o :: ops =>
    '(ht, a) ← run_op ht o;
    if out_of_memory a then Some (ht, [a]) else '(ht, l) ← run_ops ht ops; Some (ht, a :: l)
  end.

(** The same operations on a finite map. *)
Definition map_op (m : gmap K V) (o : op) : gmap K V * answer :=
  match o with
  | Get k => (m, match m !! k with Some v => found v | None => code OPAL_ERR_NOT_FOUND end)
  | Set_ k v => (<[k := v]> m, code OPAL_SUCCESS)
  | Remove k => (delete k m, code (if decide (m !! k = None) then OPAL_ERR_NOT_FOUND else OPAL_SUCCESS))
  | RemoveAll => (∅, code OPAL_SUCCESS)
  | GetSize => (m, number (Z.of_nat (size m)))
  end.

Fixpoint map_ops (m : gmap K V) (ops : list op) : gmap K V * list answer :=
  match ops with
  | [] => (m, [])
  | o :: ops => let (m, a) := map_op m o in let (m, l) := map_ops m ops in (m, a :: l)
  end.

Lemma run_op_spec ht m o : rep ht m →
  ∃ ht' a, run_op ht o = Some (ht', a) ∧
    ((a = (map_op m o).2 ∧ out_of_memory a = false ∧ rep ht' (map_op m o).1) ∨
     (a = code OPAL_ERR_OUT_OF_RESOURCE ∧ stands ht' (map_op m o).1)).
Proof.
  intros Hrep. destruct o as [k|k v|k| |]; cbn [run_op map_op fst snd].
  - rewrite (get_value_run ht m k Hrep). cbn [mbind option_bind]. eexists _, _. split; [reflexivity|]. left.
    split_and!; [by destruct (m !! k)|by destruct (m !! k)|]. destruct Hrep. split; [by apply stands_set_methods|done].
  - destruct (set_value_run ht m k v Hrep) as (ht' & rc & -> & Hw). cbn. eexists _, _. split; [reflexivity|].
    destruct Hw as [[-> ?]|[-> ?]]; [by left|by right].
  - destruct (remove_value_run ht m k Hrep) as (ht' & -> & Hr). cbn. eexists _, _. split; [reflexivity|]. left.
    split_and!; [done| |done]. by case_decide.
  - destruct (remove_all_run ht m Hrep) as (ht' & -> & Hr). eexists _, _. split; [reflexivity|]. by left.
  - eexists _, _. split; [reflexivity|]. left. split_and!; [|done|done]. destruct Hrep as [[] _]. by f_equal.
Qed.

Lemma run_ops_spec ops : ∀ ht m, rep ht m →
  ∃ ht' l, run_ops ht ops = Some (ht', l) ∧
    ((l = (map_ops m ops).2 ∧ rep ht' (map_ops m ops).1) ∨
     (∃ n, l = take n (map_ops m ops).2 ++ [code OPAL_ERR_OUT_OF_RESOURCE] ∧ stands ht' (map_ops m (take (S n) ops)).1)).
Proof.
  induction ops as [|o ops IH]; intros ht m Hrep; [by exists ht, []; split; [|left]|].
  cbn [run_ops map_ops]. destruct (run_op_spec ht m o Hrep) as (ht1 & a & -> & Ha). cbn [mbind option_bind].
  destruct (map_op m o) as [m1 a1] eqn:Ho. cbn [fst snd] in Ha.
  destruct Ha as [(-> & -> & Hrep1)|[-> Hst]].
  - destruct (IH ht1 m1 Hrep1) as (ht' & l & -> & Hl). cbn [mbind option_bind].
    destruct (map_ops m1 ops) as [m2 l2] eqn:Hm2. cbn [fst snd] in *. eexists _, _. split; [reflexivity|].
    destruct Hl as [[-> ?]|(n & -> & Hs)]; [by left|right]. exists (S n). split; [done|].
    cbn [firstn map_ops]. rewrite Ho. cbn [firstn] in Hs. by destruct (map_ops m1 (take (S n) ops)).
  - cbn [out_of_memory]. rewrite Z.eqb_refl. eexists _, _. split; [reflexivity|]. right. exists O.
    split; [by destruct (map_ops m1 ops)|]. cbn [firstn map_ops]. rewrite Ho. done.
Qed.

(** C24. A hash table is a finite map: from initialisation on, every sequence of
    lookups, insertions, removals and size queries returns (no search runs forever),
    gives the answers a finite map gives and leaves a table that stands for the
    resulting map; unless memory for a larger table is not available, in which case the
    answers up to there are those of the map, and the table stands for the map
    with the entry whose insertion is reported as failed. *)
Theorem hash_table_refines_map table_size ops ht : 0 ≤ table_size < 2 ^ 60 →
  opal_hash_table_init calloc opal_hash_table_construct table_size = Some (ht, OPAL_SUCCESS) →
  ∃ ht' l, run_ops ht ops = Some (ht', l) ∧
    ((l = (map_ops ∅ ops).2 ∧ rep ht' (map_ops ∅ ops).1) ∨
     (∃ n, l = take n (map_ops ∅ ops).2 ++ [code OPAL_ERR_OUT_OF_RESOURCE] ∧
           stands ht' (map_ops ∅ (take (S n) ops)).1)).
Proof.
  intros Hs Hi. destruct (hash_init_run table_size Hs) as (ht0 & rc & E & Hrc). rewrite E in Hi. simplify_eq.
  destruct Hrc as [[_ Hrep]|]; [|done]. by apply run_ops_spec.
Qed.
End table.

(** ** A concrete allocator *)

Definition up_to (limit n : Z) : bool := n <=? limit.

Lemma up_to_limit limit n : limit ≤ 2 ^ 57 → up_to limit n = true → n * 32 < 2 ^ 63.
Proof. unfold up_to. intros. zbool; lia || done. Qed.

Definition some_ops : list (op (K := uint32) (V := Z)) :=
  [Set_ (U32 1) 10; Set_ (U32 32) 20; Set_ (U32 1) 30; Get (U32 1); Remove (U32 1); Get (U32 32); Get (U32 1); GetSize].

Lemma hash_table_refines_map_witness :
  ∃ ht, opal_hash_table_init (up_to 1000) (opal_hash_table_construct (K := uint32) (V := Z)) 5 = Some (ht, OPAL_SUCCESS) ∧
  ∃ ht' l, run_ops (up_to 1000) ht some_ops = Some (ht', l) ∧
    ((l = (map_ops ∅ some_ops).2 ∧ rep ht' (map_ops ∅ some_ops).1) ∨
     (∃ n, l = take n (map_ops ∅ some_ops).2 ++ [code OPAL_ERR_OUT_OF_RESOURCE] ∧
           stands ht' (map_ops ∅ (take (S n) some_ops)).1)).
Proof.
  eexists. split; [vm_compute; reflexivity|].
  eapply (hash_table_refines_map (up_to 1000) (λ n, up_to_limit 1000 n ltac:(lia)) 5); [lia|vm_compute; reflexivity].
Defined.

Example some_answers :
  (map_ops (∅ : gmap uint32 Z) some_ops).2 =
  [code OPAL_SUCCESS; code OPAL_SUCCESS; code OPAL_SUCCESS; found 30; code OPAL_SUCCESS; found 20;
   code OPAL_ERR_NOT_FOUND; number 1].
Proof. vm_compute. reflexivity. Qed.

(** A table with one element, and memory for no more: the insertion fails, the element is
    taken, and a search for another key does not end. *)
Lemma full_table : ∃ ht0 ht, 
  opal_hash_table_init (up_to 1) (opal_hash_table_construct (K := uint32) (V := Z)) 0 = Some (ht0, OPAL_SUCCESS) ∧
  opal_hash_table_set_value (up_to 1) ht0 (U32 5) 50 = Some (ht, OPAL_ERR_OUT_OF_RESOURCE) ∧
  stands ht {[U32 5 := 50]} ∧ length (ht_table ht) = 1%nat.
Proof.
  pose proof (λ n, up_to_limit 1 n ltac:(lia)) as Hlim.
  destruct (hash_init_run (K := uint32) (V := Z) (up_to 1) Hlim 0) as (ht0 & rc & E & Hrc); [lia|].
  assert (rc = OPAL_SUCCESS) as -> by (vm_compute in E; by injection E).
  destruct Hrc as [[_ Hrep]|]; [|done].
  destruct (set_value_run (up_to 1) Hlim ht0 ∅ (U32 5) 50 Hrep) as (ht & rc & E2 & Hw).
  exists ht0, ht. split; [done|]. vm_compute in E. injection E as <-. pose proof E2 as E3. vm_compute in E3. injection E3 as <- <-.
  destruct Hw as [[? ?]|[_ Hst]]; [done|]. by split_and!.
Qed.

Lemma search_terminates_witness : ∃ ht0 ht,
  opal_hash_table_set_value (up_to 1) ht0 (U32 5) 50 = Some (ht, OPAL_ERR_OUT_OF_RESOURCE) ∧
  stands ht {[U32 5 := 50]} ∧ (∀ fuel, find_key fuel (U32 7) ht = None) ∧ ∃ r, find_key (length (ht_table ht)) (U32 5) ht = Some r.
Proof.
  destruct full_table as (ht0 & ht & _ & E & Hst & Hlen). exists ht0, ht. split; [done|]. split; [done|]. split.
  - apply (search_terminates ht {[U32 5 := 50]} (U32 7) Hst); [lia|].
    rewrite Hlen, lookup_singleton_ne, map_size_singleton by done. intros [[? ?]|?]; [done|lia].
  - apply (search_terminates ht {[U32 5 := 50]} (U32 5) Hst); [lia|]. left. rewrite lookup_singleton_eq. by eexists.
Defined.

Lemma traversal_complete_witness : ∃ ht, stands ht {[U32 5 := 50]} ∧ walk (length (ht_table ht)) ht None ≡ₚ [(U32 5, 50)].
Proof.
  destruct full_table as (ht0 & ht & _ & _ & Hst & _). exists ht. split; [done|].
  rewrite (traversal_complete ht {[U32 5 := 50]} Hst). by rewrite map_to_list_singleton.
Defined.
End HashRefines.
