(* ===== verification/Bitmap.v ===== *)
(** * Bitmaps (opal/class/opal_bitmap.c, opal_bitmap.h)

    An array of 64-bit words that grows on demand.  It stands for a set of numbers,
    and every operation acts on it as on the set. *)

From Stdlib Require Import ZArith Lia Ascii.
From stdpp Require Import prelude numbers strings gmap list.
From S2P Require Import Prelude CString.

Local Open Scope Z_scope.

Module BM.

Definition SIZE_OF_BASE_TYPE : Z := 64.

Record opal_bitmap_t := mk_bm {
  bitmap : option (list Z);
  array_size : Z;
  max_size : Z;
}.

Implicit Types bm : opal_bitmap_t.

Definition opal_bitmap_construct : opal_bitmap_t := mk_bm None 0 INT_MAX.

Definition opal_bitmap_set_max_size bm (max : Z) : opal_bitmap_t * Z :=
  (mk_bm (bitmap bm) (array_size bm) (swrap 32 (uwrap 64 (uwrap 64 max + SIZE_OF_BASE_TYPE - 1) / SIZE_OF_BASE_TYPE)),
   OPAL_SUCCESS).

Definition opal_bitmap_clear_all_bits bm : option (opal_bitmap_t * Z) :=
  b ← bitmap bm;
  Some (mk_bm (Some (replicate (Z.to_nat (array_size bm)) 0 ++ drop (Z.to_nat (array_size bm)) b))
          (array_size bm) (max_size bm), OPAL_SUCCESS).

Definition ALL_ONES : Z := 18446744073709551615.

Definition opal_bitmap_set_all_bits bm : option (opal_bitmap_t * Z) :=
  b ← bitmap bm;
  Some (mk_bm (Some (replicate (Z.to_nat (array_size bm)) ALL_ONES ++ drop (Z.to_nat (array_size bm)) b))
          (array_size bm) (max_size bm), OPAL_SUCCESS).

(** [mem] says whether the block is available.  The new block holds arbitrary words
    [junk] before it is cleared. *)
Definition opal_bitmap_init (mem : bool) (junk : list Z) bm (size : Z) : option (opal_bitmap_t * Z) :=
  if (size <=? 0) || (max_size bm <? size) then Some (bm, OPAL_ERR_BAD_PARAM) else
  let n := swrap 32 ((size + SIZE_OF_BASE_TYPE - 1) / SIZE_OF_BASE_TYPE) in
  let max := match bitmap bm with
             | Some _ => if max_size bm <? n then n else max_size bm
             | None => max_size bm
             end in
  if negb mem then Some (mk_bm None n max, OPAL_ERR_OUT_OF_RESOURCE) else
  opal_bitmap_clear_all_bits (mk_bm (Some (take (Z.to_nat n) (junk ++ replicate (Z.to_nat n) 0))) n max).

(** The growth of [set_bit]: to a multiple of the size, at most the maximum. *)
Definition grow_bitmap (mem : bool) bm (index : Z) : option (opal_bitmap_t * bool) :=
  if index <? array_size bm then Some (bm, true) else
  if array_size bm =? 0 then None else
  let new_size := swrap 32 ((index / array_size bm + 1) * array_size bm) in
  let new_size := if max_size bm <? new_size then max_size bm else new_size in
  b ← bitmap bm;
  if negb mem then Some (mk_bm None (array_size bm) (max_size bm), false) else
  if new_size <? array_size bm then None else
  Some (mk_bm (Some (take (Z.to_nat (array_size bm)) b ++ replicate (Z.to_nat (new_size - array_size bm)) 0))
          new_size (max_size bm), true).

Definition opal_bitmap_set_bit (mem : bool) bm (bit : Z) : option (opal_bitmap_t * Z) :=
  if (bit <? 0) || (max_size bm <? bit) then Some (bm, OPAL_ERR_BAD_PARAM) else
  let index := bit / SIZE_OF_BASE_TYPE in
  let offset := bit mod SIZE_OF_BASE_TYPE in
  '(bm, ok) ← grow_bitmap mem bm index;
  if negb ok then Some (bm, OPAL_ERR_OUT_OF_RESOURCE) else
  b ← bitmap bm;
  w ← zget b index;
  b ← zset b index (Z.lor w (Z.shiftl 1 offset));
  Some (mk_bm (Some b) (array_size bm) (max_size bm), OPAL_SUCCESS).

Definition opal_bitmap_clear_bit bm (bit : Z) : option (opal_bitmap_t * Z) :=
  bits ← ck_int (array_size bm * SIZE_OF_BASE_TYPE);
  if (bit <? 0) || (bits <=? bit) then Some (bm, OPAL_ERR_BAD_PARAM) else
  let index := bit / SIZE_OF_BASE_TYPE in
  let offset := bit mod SIZE_OF_BASE_TYPE in
  b ← bitmap bm;
  w ← zget b index;
  b ← zset b index (Z.land w (Z.lxor ALL_ONES (Z.shiftl 1 offset)));
  Some (mk_bm (Some b) (array_size bm) (max_size bm), OPAL_SUCCESS).

Definition opal_bitmap_is_set_bit bm (bit : Z) : option bool :=
  bits ← ck_int (array_size bm * SIZE_OF_BASE_TYPE);
  if (bit <? 0) || (bits <=? bit) then Some false else
  b ← bitmap bm;
  w ← zget b (bit / SIZE_OF_BASE_TYPE);
  Some (negb (Z.land w (Z.shiftl 1 (bit mod SIZE_OF_BASE_TYPE)) =? 0)).

(** [while (!(temp & 0x1)) { ++position; temp >>= 1; }] *)
Fixpoint count_down (fuel : nat) (temp position : Z) : option Z :=
  match fuel with
  | O => None
  | S fuel =>
    if Z.land temp 1 =? 0 then count_down fuel (Z.shiftr temp 1) (position + 1) else Some position
  end.

(** [while ((i < array_size) && (bitmap[i] == all_ones)) ++i;] *)
Fixpoint skip_full (n i : nat) (b : list Z) : option nat :=
  match n with
  | O => Some i
  | S n => w ← b !! i; if w =? ALL_ONES then skip_full n (S i) b else Some i
  end.

(** The result is the bitmap, the return code and [*position]. *)
Definition opal_bitmap_find_and_set_first_unset_bit (mem : bool) bm : option (opal_bitmap_t * Z * Z) :=
  let b := default [] (bitmap bm) in
  full ← skip_full (Z.to_nat (array_size bm)) 0 b;
  if Z.of_nat full =? array_size bm then
    position ← ck_int (array_size bm * SIZE_OF_BASE_TYPE);
    '(bm, rc) ← opal_bitmap_set_bit mem bm position;
    Some (bm, rc, position)
  else
    temp ← b !! full;
    let w := Z.lor temp (uwrap 64 (temp + 1)) in
    position ← count_down 64 (Z.lxor temp w) 0;
    Some (mk_bm (Some (<[full := w]> b)) (array_size bm) (max_size bm), OPAL_SUCCESS,
          position + Z.of_nat full * SIZE_OF_BASE_TYPE).

(** The loops [dest[i] op= right[i]]. *)
Definition combine (f : Z → Z → Z) (dest right : opal_bitmap_t) : option (opal_bitmap_t * Z) :=
  if negb (array_size dest =? array_size right) then Some (dest, OPAL_ERR_BAD_PARAM) else
  d ← bitmap dest;
  r ← bitmap right;
  let n := Z.to_nat (array_size dest) in
  Some (mk_bm (Some (zip_with f (take n d) (take n r) ++ drop n d)) (array_size dest) (max_size dest), OPAL_SUCCESS).

Definition opal_bitmap_bitwise_and_inplace := combine Z.land.
Definition opal_bitmap_bitwise_or_inplace := combine Z.lor.
Definition opal_bitmap_bitwise_xor_inplace := combine Z.lxor.

Definition opal_bitmap_size bm : option Z := ck_int (array_size bm * 64).

Definition opal_bitmap_are_different (left right : opal_bitmap_t) : option bool :=
  l ← opal_bitmap_size left;
  r ← opal_bitmap_size right;
  if negb (l =? r) then Some true else
  a ← bitmap left;
  b ← bitmap right;
  Some (bool_decide (take (Z.to_nat (array_size left)) a ≠ take (Z.to_nat (array_size left)) b)).

Definition opal_bitmap_copy (dest src : opal_bitmap_t) : option opal_bitmap_t :=
  s ← bitmap src;
  let n := Z.to_nat (array_size src) in
  if array_size dest <? array_size src
  then Some (mk_bm (Some (take n s)) (array_size src) (max_size src))
  else d ← bitmap dest; Some (mk_bm (Some (take n s ++ drop n d)) (array_size src) (max_size dest)).

Definition opal_bitmap_is_clear bm : option bool :=
  b ← bitmap bm;
  Some (forallb (λ w, w =? 0) (take (Z.to_nat (array_size bm)) b)).

(** [for ( ; val; cnt++) val &= val - 1;] *)
Fixpoint wegner (fuel : nat) (val cnt : Z) : option Z :=
  match fuel with
  | O => None
  | S fuel => if val =? 0 then Some cnt else wegner fuel (Z.land val (val - 1)) (cnt + 1)
  end.

(** A word has at most 64 set bits. *)
Definition word_rounds : nat := 65.

(** The length is used as a number of words. *)
Fixpoint count_words (n i : nat) (b : list Z) (cnt : Z) : option Z :=
  match n with
  | O => Some cnt
  | S n => val ← b !! i; cnt ← wegner word_rounds val cnt; count_words n (S i) b cnt
  end.

Definition opal_bitmap_num_set_bits bm (len : Z) : option Z :=
  count_words (Z.to_nat len) 0 (default [] (bitmap bm)) 0.

Definition opal_bitmap_num_unset_bits bm (len : Z) : option Z :=
  n ← opal_bitmap_num_set_bits bm len; ck_int (len - n).

(** One character for each bit. *)
Fixpoint string_loop (n : nat) (i : Z) bm (str : cstring) : option cstring :=
  match n with
  | O => Some str
  | S n =>
    set ← opal_bitmap_is_set_bit bm i;
    string_loop n (i + 1) bm (str ++ [if set : bool then "X"%char else "_"%char])
  end.

Definition opal_bitmap_get_string bm : option cstring :=
  bits ← ck_int (array_size bm * SIZE_OF_BASE_TYPE);
  string_loop (Z.to_nat bits) 0 bm [].

End BM.

(** * What a bitmap is: a set of numbers *)

Module BitmapSpec.
Import BM.

(** ** Words *)

Definition word (w : Z) : Prop := 0 ≤ w < 2 ^ 64.

Lemma word_bits w : 0 ≤ w → (∀ l, 64 ≤ l → Z.testbit w l = false) → word w.
Proof. intros Hw Hb. split; [done|]. by apply Z.bounded_iff_bits_nonneg. Qed.

Lemma word_high w l : word w → 64 ≤ l → Z.testbit w l = false.
Proof. intros [Hw Hlt] Hl. by apply (proj1 (Z.bounded_iff_bits_nonneg 64 w ltac:(lia) Hw) Hlt). Qed.

Lemma word_op (f : Z → Z → Z) g v w : (∀ x y l, Z.testbit (f x y) l = g (Z.testbit x l) (Z.testbit y l)) →
  g false false = false → (∀ x y, 0 ≤ x → 0 ≤ y → 0 ≤ f x y) → word v → word w → word (f v w).
Proof.
  intros Hf Hg Hpos Hv Hw. apply word_bits; [apply Hpos; [by destruct Hv|by destruct Hw]|].
  intros l Hl. by rewrite Hf, !word_high.
Qed.

Lemma word_lor v w : word v → word w → word (Z.lor v w).
Proof. apply (word_op _ orb); [apply Z.lor_spec|done|]. intros. by apply Z.lor_nonneg. Qed.
Lemma word_land v w : word v → word w → word (Z.land v w).
Proof. apply (word_op _ andb); [apply Z.land_spec|done|]. intros. apply Z.land_nonneg. by left. Qed.
Lemma word_lxor v w : word v → word w → word (Z.lxor v w).
Proof. apply (word_op _ xorb); [apply Z.lxor_spec|done|]. intros. apply Z.lxor_nonneg. tauto. Qed.

Lemma word_pow n : 0 ≤ n < 64 → word (2 ^ n).
Proof. intros. split; [apply Z.pow_nonneg; lia|apply Z.pow_lt_mono_r; lia]. Qed.

Lemma word_shift n : 0 ≤ n < 64 → word (Z.shiftl 1 n).
Proof. intros. rewrite Z.shiftl_1_l. by apply word_pow. Qed.

Lemma word_ones : word ALL_ONES.
Proof. done. Qed.

#[local] Hint Resolve word_lor word_land word_lxor word_shift word_ones : orcm.

Lemma ones_testbit l : 0 ≤ l < 64 → Z.testbit ALL_ONES l = true.
Proof. intros. change ALL_ONES with (Z.ones 64). apply Z.ones_spec_low. lia. Qed.

Lemma shift_testbit n l : 0 ≤ n → Z.testbit (Z.shiftl 1 n) l = bool_decide (l = n).
Proof. intros. rewrite Z.shiftl_1_l, Z.pow2_bits_eqb by done. apply eq_true_iff_eq. rewrite bool_decide_eq_true. zbool; split; done || lia. Qed.

(** The test of [is_set_bit]. *)
Lemma land_shift_zero w n : 0 ≤ n → negb (Z.land w (Z.shiftl 1 n) =? 0) = Z.testbit w n.
Proof.
  intros Hn. assert (∀ l, Z.testbit (Z.land w (Z.shiftl 1 n)) l = Z.testbit w l && bool_decide (l = n)) as Hb.
  { intros l. by rewrite Z.land_spec, shift_testbit. }
  destruct (Z.eqb_spec (Z.land w (Z.shiftl 1 n)) 0) as [E|E]; cbn.
  - specialize (Hb n). rewrite E, Z.bits_0, bool_decide_true, andb_true_r in Hb by done. done.
  - destruct (Z.testbit w n) eqn:Hw; [done|]. destruct E. apply Z.bits_inj_0. intros l. rewrite Hb.
    case_bool_decide; [subst; by rewrite Hw|by rewrite andb_false_r].
Qed.

(** ** The first unset bit of a word *)

Lemma bits_step a b : Z.testbit a 0 = Z.testbit b 0 → (∀ l, 0 ≤ l → Z.testbit a (Z.succ l) = Z.testbit b (Z.succ l)) → a = b.
Proof.
  intros H0 HS. apply Z.bits_inj'. intros l Hl. destruct (decide (l = 0)) as [->|]; [done|].
  replace l with (Z.succ (l - 1)) by lia. apply HS. lia.
Qed.

Lemma halves w : 0 ≤ w → (∃ v, w = 2 * v ∧ 0 ≤ v) ∨ (∃ v, w = 2 * v + 1 ∧ 0 ≤ v).
Proof. intros. destruct (Z.Even_or_Odd w) as [[v ?]|[v ?]]; [left|right]; exists v; lia. Qed.

Ltac bits := rewrite ?Z.lxor_spec, ?Z.lor_spec, ?Z.land_spec, ?Z.testbit_even_0, ?Z.testbit_odd_0.
Ltac bits_succ := rewrite ?Z.lxor_spec, ?Z.lor_spec, ?Z.land_spec; repeat rewrite Z.testbit_even_succ by lia;
  repeat rewrite Z.testbit_odd_succ by lia; rewrite ?Z.lxor_spec, ?Z.lor_spec, ?Z.land_spec.

Lemma first_zero w : 0 ≤ w →
  ∃ n, 0 ≤ n ∧ Z.testbit w n = false ∧ (∀ l, 0 ≤ l < n → Z.testbit w l = true) ∧ Z.lxor w (Z.lor w (w + 1)) = 2 ^ n.
Proof.
  induction w as [w IH] using (well_founded_induction (Z.lt_wf 0)). intros Hw.
  destruct (halves w Hw) as [(v & -> & Hv)|(v & -> & Hv)].
  - exists 0. split_and!; [done|apply Z.testbit_even_0|lia|]. change (2 ^ 0) with (2 * 0 + 1).
    apply bits_step; [by bits|]. intros l Hl. bits_succ. rewrite Z.bits_0. by destruct (Z.testbit v l).
  - destruct (IH v) as (n & Hn & Hz & Ho & Hx); [lia|done|]. exists (Z.succ n).
    split_and!; [lia|by rewrite Z.testbit_odd_succ| |].
    + intros l Hl. destruct (decide (l = 0)) as [->|]; [apply Z.testbit_odd_0|].
      replace l with (Z.succ (l - 1)) by lia. rewrite Z.testbit_odd_succ by lia. apply Ho. lia.
    + rewrite Z.pow_succ_r, <-Hx by done. replace (2 * v + 1 + 1) with (2 * (v + 1)) by lia.
      apply bits_step; [by bits|]. intros l Hl. by bits_succ.
Qed.

Lemma lor_next w n : 0 ≤ w → 0 ≤ n → Z.lxor w (Z.lor w (w + 1)) = 2 ^ n →
  ∀ l, Z.testbit (Z.lor w (w + 1)) l = Z.testbit w l || bool_decide (l = n).
Proof.
  intros Hw Hn Hx l. assert (Z.testbit (Z.lxor w (Z.lor w (w + 1))) l = bool_decide (l = n)) as E.
  { rewrite Hx, <-Z.shiftl_1_l. by apply shift_testbit. }
  rewrite Z.lxor_spec in E. rewrite Z.lor_spec in E |- *. destruct (Z.testbit w l), (Z.testbit (w + 1) l), (bool_decide (l = n)); done.
Qed.

Lemma count_down_pow n : ∀ fuel p, (n < fuel)%nat → count_down fuel (2 ^ Z.of_nat n) p = Some (p + Z.of_nat n).
Proof.
  induction n as [|n IH]; intros [|fuel] p Hf; try lia; cbn [count_down].
  - change (2 ^ Z.of_nat 0) with 1. cbn. f_equal. lia.
  - rewrite Nat2Z.inj_succ, Z.pow_succ_r by lia.
    assert (Z.land (2 * 2 ^ Z.of_nat n) 1 = 0) as ->.
    { change 1 with (2 * 0 + 1). apply bits_step; [by bits|]. intros l Hl. bits_succ. by rewrite !Z.bits_0, andb_false_r. }
    rewrite Z.shiftr_div_pow2 by lia. change (2 ^ 1) with 2. rewrite Z.mul_comm, Z.div_mul by lia.
    cbn. rewrite IH by lia. f_equal. lia.
Qed.

(** ** The lowest set bit of a word *)

Lemma lowest_one w : 0 < w →
  ∃ n, 0 ≤ n ∧ Z.testbit w n = true ∧ ∀ l, 0 ≤ l → Z.testbit (Z.land w (w - 1)) l = Z.testbit w l && negb (bool_decide (l = n)).
Proof.
  induction w as [w IH] using (well_founded_induction (Z.lt_wf 0)). intros Hw.
  destruct (halves w) as [(v & -> & Hv)|(v & -> & Hv)]; [lia| |].
  - destruct (IH v) as (n & Hn & Hone & Hb); [lia|lia|]. exists (Z.succ n).
    split_and!; [lia|by rewrite Z.testbit_even_succ|]. intros l Hl. replace (2 * v - 1) with (2 * (v - 1) + 1) by lia.
    destruct (decide (l = 0)) as [->|]; [by bits|].
    replace l with (Z.succ (l - 1)) by lia. bits_succ. rewrite <-Z.land_spec, Hb by lia. f_equal. f_equal.
    apply bool_decide_ext. lia.
  - exists 0. split_and!; [done|apply Z.testbit_odd_0|]. intros l Hl. replace (2 * v + 1 - 1) with (2 * v) by lia.
    destruct (decide (l = 0)) as [->|]; [bits; by rewrite bool_decide_true|].
    replace l with (Z.succ (l - 1)) by lia. bits_succ. rewrite andb_diag, bool_decide_false by lia. by rewrite andb_true_r.
Qed.

(** ** Sets *)

Definition bit_set (b : list Z) (i : Z) : bool := Z.testbit (default 0 (b !! Z.to_nat (i / 64))) (i mod 64).

Record wf (bm : opal_bitmap_t) (b : list Z) : Prop := {
  wf_block : bitmap bm = Some b;
  wf_length : Z.of_nat (length b) = array_size bm;
  wf_words : Forall word b;
  wf_size : 0 < array_size bm ≤ 2 ^ 24;
  wf_max : max_size bm ≤ INT_MAX;
}.

Definition stands (bm : opal_bitmap_t) (S : gset Z) : Prop :=
  ∃ b, wf bm b ∧ ∀ i, i ∈ S ↔ 0 ≤ i ∧ bit_set b i = true.

Lemma index_of i : 0 ≤ i → 0 ≤ i / 64 ∧ 0 ≤ i mod 64 < 64 ∧ i = 64 * (i / 64) + i mod 64.
Proof. intros. pose proof (Z.mod_pos_bound i 64). pose proof (Z.div_mod i 64). pose proof (Z.div_pos i 64). lia. Qed.

Lemma bit_set_ge b i : 0 ≤ i → Z.of_nat (length b) * 64 ≤ i → bit_set b i = false.
Proof.
  intros Hi Hge. pose proof (index_of i Hi). unfold bit_set. rewrite lookup_ge_None_2 by lia. apply Z.bits_0.
Qed.

Lemma bit_set_insert b n w i : 0 ≤ i → (n < length b)%nat →
  bit_set (<[n := w]> b) i = if decide (i / 64 = Z.of_nat n) then Z.testbit w (i mod 64) else bit_set b i.
Proof.
  intros Hi Hn. pose proof (index_of i Hi). unfold bit_set. case_decide as Hd.
  - rewrite Hd, Nat2Z.id, list_lookup_insert_eq by done. done.
  - by rewrite list_lookup_insert_ne by lia.
Qed.

Lemma bit_set_app_zeros b n i : bit_set (b ++ replicate n 0) i = bit_set b i.
Proof.
  unfold bit_set. f_equal. destruct (decide (Z.to_nat (i / 64) < length b)%nat).
  - by rewrite lookup_app_l.
  - rewrite lookup_app_r, (lookup_ge_None_2 b) by lia.
    destruct (replicate n 0 !! _) as [w|] eqn:E; [|done]. by apply lookup_replicate in E as [-> _].
Qed.

(** Reading and writing one word of a bitmap. *)
Lemma word_at bm b i : wf bm b → 0 ≤ i < array_size bm * 64 →
  ∃ w, zget b (i / 64) = Some w ∧ b !! Z.to_nat (i / 64) = Some w ∧ word w ∧ (Z.to_nat (i / 64) < length b)%nat ∧
    ∀ w', zset b (i / 64) w' = Some (<[Z.to_nat (i / 64) := w']> b).
Proof.
  intros [_ Hl Hw _ _] Hi. pose proof (index_of i ltac:(lia)).
  destruct (lookup_lt_is_Some_2 b (Z.to_nat (i / 64))) as [w E]; [lia|]. exists w.
  rewrite zget_in by lia. split_and!; [done|done|by eapply Forall_lookup|by eapply lookup_lt_Some|].
  intros w'. apply zset_in. lia.
Qed.

Lemma wf_insert bm b n w : wf bm b → word w → wf (mk_bm (Some (<[n := w]> b)) (array_size bm) (max_size bm)) (<[n := w]> b).
Proof. intros [] Hw. split; cbn; rewrite ?length_insert; try done. by apply Forall_insert. Qed.

Lemma bits_fit bm b : wf bm b → ck_int (array_size bm * SIZE_OF_BASE_TYPE) = Some (array_size bm * 64).
Proof. intros []. apply ck_int_Some. unfold INT_MIN, INT_MAX, SIZE_OF_BASE_TYPE. lia. Qed.

(** *** Testing and changing a bit *)

Lemma is_set_run bm b i : wf bm b → opal_bitmap_is_set_bit bm i = Some ((0 <=? i) && bit_set b i).
Proof.
  intros Hwf. unfold opal_bitmap_is_set_bit. rewrite (bits_fit bm b Hwf). cbn [mbind option_bind].
  destruct (Z.ltb_spec i 0); cbn [orb]; [by destruct (Z.leb_spec 0 i); [lia|]|].
  destruct (Z.leb_spec 0 i); [|lia]. cbn [andb].
  destruct (Z.leb_spec (array_size bm * 64) i).
  - rewrite bit_set_ge by (try lia; destruct Hwf; lia). done.
  - destruct (word_at bm b i) as (w & Hg & Hlk & _ & _ & _); [done|lia|]. rewrite (wf_block _ _ Hwf). cbn [mbind option_bind].
    unfold SIZE_OF_BASE_TYPE. rewrite Hg. cbn [mbind option_bind]. pose proof (index_of i ltac:(lia)).
    rewrite land_shift_zero by lia. unfold bit_set. by rewrite Hlk.
Qed.

Lemma bitmap_grow_run bm b i : wf bm b → 0 ≤ i < 2 ^ 29 → i ≤ max_size bm →
  ∃ bm' n, grow_bitmap true bm (i / 64) = Some (bm', true) ∧ wf bm' (b ++ replicate n 0) ∧ i < array_size bm' * 64 ∧
    max_size bm' = max_size bm.
Proof.
  intros Hwf Hi Hmax. pose proof (index_of i ltac:(lia)). pose proof Hwf as [Hb Hl Hw Hs Hm]. unfold grow_bitmap.
  destruct (Z.ltb_spec (i / 64) (array_size bm)).
  { exists bm, O. split_and!; [done|by rewrite app_nil_r|lia|done]. }
  destruct (Z.eqb_spec (array_size bm) 0); [lia|].
  assert (i / 64 < (i / 64 / array_size bm + 1) * array_size bm ≤ 2 * (i / 64)) as Hnew.
  { pose proof (Z.div_mod (i / 64) (array_size bm)). pose proof (Z.mod_pos_bound (i / 64) (array_size bm)). nia. }
  set (new := _ * array_size bm) in *. assert (i / 64 < 2 ^ 23) by (apply Z.div_lt_upper_bound; lia).
  assert (swrap 32 new = new) as ->.
  { unfold swrap. rewrite Z.mod_small by lia. zbool; lia. }
  rewrite Hb. cbn [mbind option_bind negb]. rewrite take_ge by lia.
  set (sz := if max_size bm <? new then max_size bm else new).
  assert (i / 64 < sz ≤ new) as Hsz by (subst sz; zbool; lia).
  destruct (Z.ltb_spec sz (array_size bm)); [lia|].
  eexists _, _. split; [reflexivity|]. split_and!; [|cbn; lia|done].
  split; cbn; [done| | |lia|done].
  - rewrite length_app, length_replicate. lia.
  - apply Forall_app. split; [done|]. by apply Forall_replicate.
Qed.

Lemma set_bit_run bm S i : stands bm S → 0 ≤ i < 2 ^ 29 → i ≤ max_size bm →
  ∃ bm', opal_bitmap_set_bit true bm i = Some (bm', OPAL_SUCCESS) ∧ stands bm' ({[i]} ∪ S) ∧ max_size bm' = max_size bm.
Proof.
  intros (b & Hwf & HS) Hi Hmax. pose proof (index_of i ltac:(lia)). unfold opal_bitmap_set_bit.
  destruct (Z.ltb_spec i 0); [lia|]. destruct (Z.ltb_spec (max_size bm) i); [lia|]. cbn [orb]. unfold SIZE_OF_BASE_TYPE.
  destruct (bitmap_grow_run bm b i) as (bm' & n & -> & Hwf' & Hin & Hmx); [done..|]. cbn [mbind option_bind negb].
  rewrite (wf_block _ _ Hwf'). cbn [mbind option_bind].
  destruct (word_at bm' (b ++ replicate n 0) i) as (w & -> & Hlk & Hw & Hlt & Hset); [done|lia|]. cbn [mbind option_bind].
  rewrite Hset. cbn [mbind option_bind]. eexists. split; [reflexivity|]. split; [|done]. eexists. split.
  - apply wf_insert; [done|]. auto with orcm lia.
  - intros j. rewrite elem_of_union, elem_of_singleton, HS.
    destruct (decide (0 ≤ j)) as [Hj|]; [|lia]. pose proof (index_of j Hj).
    rewrite bit_set_insert by done. rewrite bit_set_app_zeros. case_decide as Hd; [|split; [|tauto]; intros [->|]; [lia|tauto]].
    rewrite Z.lor_spec, shift_testbit by lia. rewrite orb_true_iff, bool_decide_eq_true.
    assert (Z.testbit w (j mod 64) = bit_set b j) as <-.
    { rewrite <-(bit_set_app_zeros b n). unfold bit_set. rewrite Hd, Nat2Z.id, Hlk. done. }
    split; [intros [->|[]]; tauto|]. intros [_ [|]]; [tauto|]. left. lia.
Qed.

Lemma clear_bit_run bm S i : stands bm S →
  ∃ bm', opal_bitmap_clear_bit bm i =
           Some (bm', if (0 <=? i) && (i <? array_size bm * 64) then OPAL_SUCCESS else OPAL_ERR_BAD_PARAM) ∧
    stands bm' (S ∖ {[i]}) ∧ max_size bm' = max_size bm.
Proof.
  intros (b & Hwf & HS). unfold opal_bitmap_clear_bit. rewrite (bits_fit bm b Hwf). cbn [mbind option_bind].
  assert (i < 0 ∨ array_size bm * 64 ≤ i → stands bm (S ∖ {[i]})) as Hout.
  { intros Ho. exists b. split; [done|]. intros j. rewrite elem_of_difference, elem_of_singleton, HS.
    split; [tauto|]. intros [Hj Hbj]. split; [done|]. intros ->. destruct Ho as [|Ho]; [lia|].
    rewrite bit_set_ge in Hbj by (try lia; destruct Hwf; lia). done. }
  destruct (Z.ltb_spec i 0); cbn [orb].
  { destruct (Z.leb_spec 0 i); [lia|]. exists bm. split_and!; [done|apply Hout; lia|done]. }
  destruct (Z.leb_spec 0 i); [|lia]. cbn [andb].
  destruct (Z.leb_spec (array_size bm * 64) i), (Z.ltb_spec i (array_size bm * 64)); try lia.
  { exists bm. split_and!; [done|apply Hout; lia|done]. }
  pose proof (index_of i ltac:(lia)). rewrite (wf_block _ _ Hwf). cbn [mbind option_bind]. unfold SIZE_OF_BASE_TYPE.
  destruct (word_at bm b i) as (w & -> & Hlk & Hw & Hlt & Hset); [done|lia|]. cbn [mbind option_bind].
  rewrite Hset. cbn [mbind option_bind]. eexists. split; [reflexivity|]. split; [|done]. eexists. split.
  - apply wf_insert; [done|]. auto 6 with orcm lia.
  - intros j. rewrite elem_of_difference, elem_of_singleton, HS.
    destruct (decide (0 ≤ j)) as [Hj|]; [|tauto]. pose proof (index_of j Hj).
    rewrite bit_set_insert by done. case_decide as Hd; [|split; [tauto|]; intros []; split; [tauto|]; intros ->; lia].
    rewrite Z.land_spec, Z.lxor_spec, ones_testbit, shift_testbit by lia.
    assert (Z.testbit w (j mod 64) = bit_set b j) as <- by (unfold bit_set; by rewrite Hd, Nat2Z.id, Hlk).
    rewrite andb_true_iff. case_bool_decide as Hjo; cbn.
    + split; [|by intros (_ & _ & ?)]. intros [_ []]. lia.
    + split; [tauto|]. intros (_ & ? & _). split; [tauto|]. by intros ->.
Qed.

(** *** Combining bitmaps *)

Lemma combine_run (f : Z → Z → Z) (g : bool → bool → bool) bm1 bm2 S1 S2 S : stands bm1 S1 → stands bm2 S2 →
  array_size bm1 = array_size bm2 →
  (∀ x y l, Z.testbit (f x y) l = g (Z.testbit x l) (Z.testbit y l)) → (∀ x y, word x → word y → word (f x y)) →
  f 0 0 = 0 → (∀ i, i ∈ S ↔ 0 ≤ i ∧ g (bool_decide (i ∈ S1)) (bool_decide (i ∈ S2)) = true) →
  ∃ bm', combine f bm1 bm2 = Some (bm', OPAL_SUCCESS) ∧ stands bm' S ∧ max_size bm' = max_size bm1.
Proof.
  intros (b1 & Hwf1 & HS1) (b2 & Hwf2 & HS2) Hsz Hf Hw H0 HS. unfold combine. rewrite Hsz, Z.eqb_refl. cbn [negb].
  rewrite (wf_block _ _ Hwf1), (wf_block _ _ Hwf2). cbn [mbind option_bind].
  pose proof Hwf1 as [_ Hl1 Hw1 ? ?]. pose proof Hwf2 as [_ Hl2 Hw2 ? ?].
  rewrite <-Hsz, !take_ge, drop_ge, app_nil_r by lia. eexists. split; [reflexivity|]. split; [|done].
  exists (zip_with f b1 b2). split.
  - split; cbn; [done|rewrite length_zip_with; lia| |lia|done]. apply Forall_lookup. intros n w Hn.
    apply lookup_zip_with_Some in Hn as (x & y & -> & Hx & Hy). apply Hw; [by eapply (Forall_lookup_1 _ b1)|by eapply (Forall_lookup_1 _ b2)].
  - intros i. rewrite HS. destruct (decide (0 ≤ i)) as [Hi|]; [|tauto].
    assert (bit_set (zip_with f b1 b2) i = g (bool_decide (i ∈ S1)) (bool_decide (i ∈ S2))) as ->; [|tauto].
    assert (∀ (T : gset Z) b, (∀ i, i ∈ T ↔ 0 ≤ i ∧ bit_set b i = true) → bool_decide (i ∈ T) = bit_set b i) as Hbd.
    { intros T b HT. apply eq_true_iff_eq. rewrite bool_decide_eq_true, HT. tauto. }
    rewrite (Hbd _ _ HS1), (Hbd _ _ HS2). unfold bit_set. rewrite lookup_zip_with.
    destruct (b1 !! _) as [x|] eqn:E1, (b2 !! _) as [y|] eqn:E2; cbn; [apply Hf|exfalso|exfalso|].
    + apply lookup_lt_Some in E1. apply lookup_ge_None in E2. lia.
    + apply lookup_lt_Some in E2. apply lookup_ge_None in E1. lia.
    + specialize (Hf 0 0 (i mod 64)). by rewrite H0 in Hf.
Qed.

(** ** The first unset bit *)

Lemma skip_full_spec b n i : (i + n = length b)%nat →
  ∃ j, skip_full n i b = Some j ∧ (i ≤ j ≤ i + n)%nat ∧ (∀ k w, (i ≤ k < j)%nat → b !! k = Some w → w = ALL_ONES) ∧
    (j = i + n ∨ ∃ w, b !! j = Some w ∧ w ≠ ALL_ONES)%nat.
Proof.
  revert i. induction n as [|n IH]; intros i Hn; cbn [skip_full].
  - exists i. split_and!; [done|lia|lia|lia|left; lia].
  - destruct (lookup_lt_is_Some_2 b i) as [w Hw]; [lia|]. rewrite Hw. cbn [mbind option_bind].
    destruct (Z.eqb_spec w ALL_ONES) as [->|Hne].
    + destruct (IH (S i)) as (j & -> & Hj & Hall & Hend); [lia|]. exists j. split_and!; [done|lia|lia| |].
      * intros k w Hk Hkw. destruct (decide (k = i)) as [->|]; [congruence|]. eapply Hall; [|done]. lia.
      * destruct Hend as [->|?]; [left; lia|by right].
    + exists i. split_and!; [done|lia|lia|lia|]. right. eauto.
Qed.

Lemma all_ones w : word w → (∀ l, 0 ≤ l < 64 → Z.testbit w l = true) → w = ALL_ONES.
Proof.
  intros Hw Hall. apply Z.bits_inj'. intros l Hl. destruct (decide (l < 64)).
  - by rewrite Hall, ones_testbit by lia.
  - rewrite !word_high; [done|apply word_ones|lia|done|lia].
Qed.

(** The bits of full words. *)
Lemma full_before b j k : (∀ n w, (n < j)%nat → b !! n = Some w → w = ALL_ONES) → (j ≤ length b)%nat →
  0 ≤ k < Z.of_nat j * 64 → bit_set b k = true.
Proof.
  intros Hall Hj Hk. pose proof (index_of k ltac:(lia)). unfold bit_set.
  destruct (lookup_lt_is_Some_2 b (Z.to_nat (k / 64))) as [w Hw]; [lia|]. rewrite Hw.
  rewrite (Hall (Z.to_nat (k / 64)) w); [|lia|done]. apply ones_testbit. lia.
Qed.

Lemma next_in_word w (w' := Z.lor w (uwrap 64 (w + 1))) : word w → w ≠ ALL_ONES →
  ∃ n, 0 ≤ n < 64 ∧ Z.testbit w n = false ∧ (∀ l, 0 ≤ l < n → Z.testbit w l = true) ∧
    count_down 64 (Z.lxor w w') 0 = Some n ∧ word w' ∧ ∀ l, Z.testbit w' l = Z.testbit w l || bool_decide (l = n).
Proof.
  intros Hw Hne. subst w'. pose proof Hw as [Hw0 Hw64].
  assert (w < ALL_ONES) as Hlt by (unfold ALL_ONES in *; lia).
  unfold uwrap. rewrite (Z.mod_small (w + 1)) by (unfold ALL_ONES in *; lia).
  destruct (first_zero w Hw0) as (n & Hn & Hz & Hones & Hx).
  assert (n < 64) as Hn64.
  { apply Z.nle_gt. intros Hge. apply Hne, all_ones; [done|]. intros l Hl'. apply Hones. lia. }
  pose proof (lor_next w n Hw0 Hn Hx) as Hlor. exists n. split_and!; try done.
  - rewrite Hx. rewrite <-(Z2Nat.id n) at 1 by done. rewrite count_down_pow by lia. f_equal. lia.
  - apply word_bits; [by apply Z.lor_nonneg; lia|]. intros l Hl'.
    rewrite Hlor, word_high by done. by rewrite bool_decide_false by lia.
Qed.

(** Finding and setting the first unset bit: the position is the smallest number that
    is not in the set, the bit is set and nothing else changes; a full bitmap is
    extended. *)
Theorem find_first_unset_spec bm S : stands bm S → array_size bm < 2 ^ 23 → array_size bm * 64 ≤ max_size bm →
  ∃ bm' p, opal_bitmap_find_and_set_first_unset_bit true bm = Some (bm', OPAL_SUCCESS, p) ∧
    0 ≤ p ∧ p ∉ S ∧ (∀ k, 0 ≤ k < p → k ∈ S) ∧ stands bm' ({[p]} ∪ S).
Proof.
  intros Hst Hsz Hmax. pose proof Hst as (b & Hwf & HS). pose proof Hwf as [Hb Hl Hw Hs Hm].
  unfold opal_bitmap_find_and_set_first_unset_bit. rewrite Hb. change (default [] (Some b)) with b.
  destruct (skip_full_spec b (Z.to_nat (array_size bm)) 0) as (j & -> & Hj & Hall & Hend); [lia|]. cbn [mbind option_bind].
  assert (∀ k, 0 ≤ k < Z.of_nat j * 64 → k ∈ S) as Hbelow.
  { intros k Hk. apply HS. split; [lia|]. apply (full_before b j); [|lia|done]. intros n w Hn. apply Hall. lia. }
  destruct (Z.eqb_spec (Z.of_nat j) (array_size bm)) as [Hjs|Hjs].
  - rewrite (bits_fit bm b Hwf). cbn [mbind option_bind].
    destruct (set_bit_run bm S (array_size bm * 64)) as (bm' & -> & Hst' & _); [done|lia|lia|]. cbn [mbind option_bind].
    exists bm', (array_size bm * 64). split_and!; [done|lia| | |done].
    + rewrite HS, bit_set_ge by lia. by intros [_ ?].
    + intros k Hk. apply Hbelow. lia.
  - destruct Hend as [?|(w & Hjw & Hne)]; [lia|]. rewrite Hjw. cbn [mbind option_bind].
    assert (word w) as Hword by (by eapply Forall_lookup_1).
    destruct (next_in_word w Hword Hne) as (n & Hn & Hz & Hones & -> & Hword' & Hlor). cbn [mbind option_bind].
    apply lookup_lt_Some in Hjw as Hjl.
    assert (∀ l, 0 ≤ l < 64 → bit_set b (l + Z.of_nat j * 64) = Z.testbit w l) as Hrow.
    { intros l Hl'. unfold bit_set. rewrite Z.div_add, Z.mod_add, Z.div_small, Z.mod_small by lia.
      by rewrite Z.add_0_l, Nat2Z.id, Hjw. }
    eexists _, (n + Z.of_nat j * 64). split_and!; [reflexivity|lia| | |].
    + rewrite HS, Hrow by lia. rewrite Hz. by intros [_ ?].
    + intros k Hk. destruct (decide (k < Z.of_nat j * 64)); [apply Hbelow; lia|]. apply HS. split; [lia|].
      replace k with (k - Z.of_nat j * 64 + Z.of_nat j * 64) by lia. rewrite Hrow by lia. apply Hones. lia.
    + eexists. split; [by apply wf_insert|].
      intros k. rewrite elem_of_union, elem_of_singleton, HS. destruct (decide (0 ≤ k)) as [Hk|]; [|lia].
      pose proof (index_of k Hk). rewrite bit_set_insert by done.
      case_decide as Hd; [|split; [|tauto]; intros [->|]; [|tauto]; rewrite Z.div_add, Z.div_small in Hd by lia; lia].
      rewrite Hlor, orb_true_iff, bool_decide_eq_true. rewrite <-(Hrow (k mod 64)) by lia.
      replace (k mod 64 + Z.of_nat j * 64) with k by lia. split; [intros [->|[]]; [|tauto]; split; [done|right]|].
      * rewrite Z.mod_add, Z.mod_small by lia. done.
      * intros [_ [|]]; [tauto|left; lia].
Qed.

(** ** All bits *)

Lemma bit_set_replicate n w i : 0 ≤ i → bit_set (replicate n w) i = bool_decide (i < Z.of_nat n * 64) && Z.testbit w (i mod 64).
Proof.
  intros Hi. unfold bit_set. pose proof (index_of i Hi). destruct (bool_decide_reflect (i < Z.of_nat n * 64)).
  - rewrite lookup_replicate_2 by lia. done.
  - rewrite lookup_ge_None_2 by (rewrite length_replicate; lia). apply Z.bits_0.
Qed.

Lemma all_words_run bm b w : wf bm b → word w →
  wf (mk_bm (Some (replicate (Z.to_nat (array_size bm)) w ++ drop (Z.to_nat (array_size bm)) b)) (array_size bm) (max_size bm))
    (replicate (Z.to_nat (array_size bm)) w).
Proof.
  intros [Hb Hl Hw Hs Hm] Hword. split; cbn; try done.
  - rewrite drop_ge, app_nil_r by lia. done.
  - rewrite length_replicate. lia.
  - by apply Forall_replicate.
Qed.

Lemma clear_all_run bm S : stands bm S →
  ∃ bm', opal_bitmap_clear_all_bits bm = Some (bm', OPAL_SUCCESS) ∧ stands bm' ∅ ∧ max_size bm' = max_size bm.
Proof.
  intros (b & Hwf & _). unfold opal_bitmap_clear_all_bits. rewrite (wf_block _ _ Hwf). cbn [mbind option_bind].
  eexists. split; [done|]. split; [|done]. eexists. split; [by apply all_words_run|].
  intros i. split; [set_solver|]. intros [Hi E]. rewrite bit_set_replicate, Z.bits_0, andb_false_r in E by done. done.
Qed.

Lemma set_all_run bm S : stands bm S →
  ∃ bm', opal_bitmap_set_all_bits bm = Some (bm', OPAL_SUCCESS) ∧
    stands bm' (list_to_set (seqZ 0 (array_size bm * 64))) ∧ max_size bm' = max_size bm.
Proof.
  intros (b & Hwf & _). unfold opal_bitmap_set_all_bits. rewrite (wf_block _ _ Hwf). cbn [mbind option_bind].
  eexists. split; [done|]. split; [|done]. eexists. split; [apply all_words_run; [done|apply word_ones]|].
  intros i. rewrite elem_of_list_to_set, elem_of_seqZ. pose proof (wf_size _ _ Hwf). split.
  - intros Hi. split; [lia|]. pose proof (index_of i). rewrite bit_set_replicate by lia.
    rewrite ones_testbit, andb_true_r, bool_decide_eq_true by lia. lia.
  - intros [Hi E]. rewrite bit_set_replicate, andb_true_iff, bool_decide_eq_true in E by done. lia.
Qed.

(** C32. A bitmap is a set of numbers: testing, setting and clearing a bit are membership,
    insertion and deletion, growing the array when the bit is beyond it (bits below 2^29, and
    not above the maximum); clearing all bits gives the empty set and setting all the
    numbers below 64 times the size of the array; the bitwise operations on bitmaps of one
    size are intersection, union and symmetric difference; finding and setting the first
    unset bit returns the smallest number that is not in the set and inserts it (arrays below
    2^23 words, and not larger than the maximum). *)
Theorem bitmap_refines_set bm S : stands bm S →
  (∀ i, opal_bitmap_is_set_bit bm i = Some (bool_decide (i ∈ S))) ∧
  (∀ i, 0 ≤ i < 2 ^ 29 → i ≤ max_size bm →
    ∃ bm', opal_bitmap_set_bit true bm i = Some (bm', OPAL_SUCCESS) ∧ stands bm' ({[i]} ∪ S) ∧ max_size bm' = max_size bm) ∧
  (∀ i, ∃ bm', opal_bitmap_clear_bit bm i =
                 Some (bm', if (0 <=? i) && (i <? array_size bm * 64) then OPAL_SUCCESS else OPAL_ERR_BAD_PARAM) ∧
    stands bm' (S ∖ {[i]}) ∧ max_size bm' = max_size bm) ∧
  (∃ bm', opal_bitmap_clear_all_bits bm = Some (bm', OPAL_SUCCESS) ∧ stands bm' ∅ ∧ max_size bm' = max_size bm) ∧
  (∃ bm', opal_bitmap_set_all_bits bm = Some (bm', OPAL_SUCCESS) ∧
    stands bm' (list_to_set (seqZ 0 (array_size bm * 64))) ∧ max_size bm' = max_size bm) ∧
  (array_size bm < 2 ^ 23 → array_size bm * 64 ≤ max_size bm →
    ∃ bm' p, opal_bitmap_find_and_set_first_unset_bit true bm = Some (bm', OPAL_SUCCESS, p) ∧
      0 ≤ p ∧ p ∉ S ∧ (∀ k, 0 ≤ k < p → k ∈ S) ∧ stands bm' ({[p]} ∪ S)) ∧
  (∀ bm2 S2, stands bm2 S2 → array_size bm = array_size bm2 →
    (∃ bm', opal_bitmap_bitwise_and_inplace bm bm2 = Some (bm', OPAL_SUCCESS) ∧ stands bm' (S ∩ S2)) ∧
    (∃ bm', opal_bitmap_bitwise_or_inplace bm bm2 = Some (bm', OPAL_SUCCESS) ∧ stands bm' (S ∪ S2)) ∧
    (∃ bm', opal_bitmap_bitwise_xor_inplace bm bm2 = Some (bm', OPAL_SUCCESS) ∧ stands bm' ((S ∖ S2) ∪ (S2 ∖ S)))).
Proof.
  intros Hst. pose proof Hst as (b & Hwf & HS). split_and!.
  - intros i. rewrite (is_set_run bm b i Hwf). f_equal. apply eq_true_iff_eq.
    rewrite bool_decide_eq_true, HS, andb_true_iff, Z.leb_le. done.
  - intros i. by apply set_bit_run.
  - intros i. by apply clear_bit_run.
  - by eapply clear_all_run.
  - by eapply set_all_run.
  - intros H1 H2. by apply find_first_unset_spec.
  - intros bm2 S2 Hst2 Hsz. pose proof Hst2 as (b2 & _ & HS2).
    assert (∀ i, i ∈ S ∨ i ∈ S2 → 0 ≤ i) as Hpos by (intros i; rewrite HS, HS2; tauto).
    split_and!.
    + destruct (combine_run Z.land andb bm bm2 S S2 (S ∩ S2)) as (bm' & ? & ? & _); eauto using Z.land_spec with orcm.
      intros i. rewrite andb_true_iff, !bool_decide_eq_true. specialize (Hpos i). set_solver.
    + destruct (combine_run Z.lor orb bm bm2 S S2 (S ∪ S2)) as (bm' & ? & ? & _); eauto using Z.lor_spec with orcm.
      intros i. rewrite orb_true_iff, !bool_decide_eq_true. specialize (Hpos i). set_solver.
    + destruct (combine_run Z.lxor xorb bm bm2 S S2 ((S ∖ S2) ∪ (S2 ∖ S))) as (bm' & ? & ? & _); eauto using Z.lxor_spec with orcm.
      intros i. specialize (Hpos i). repeat case_bool_decide; cbn; set_solver.
Qed.

(** ** Counting *)

Definition ones (w : Z) : nat := length (filter (λ l, Z.testbit w l = true) (seqZ 0 64)).

Lemma wegner_spec fuel w cnt : word w → (ones w < fuel)%nat → wegner fuel w cnt = Some (cnt + Z.of_nat (ones w)).
Proof.
  revert w cnt. induction fuel as [|fuel IH]; intros w cnt Hw Hf; [lia|]. cbn [wegner].
  destruct (Z.eqb_spec w 0) as [->|Hne]; [replace (ones 0) with O by (by vm_compute); f_equal; lia|].
  destruct (lowest_one w) as (n & Hn & Hone & Hb); [destruct Hw; lia|].
  assert (n < 64) as Hn64.
  { apply Z.nle_gt. intros Hge. rewrite word_high in Hone by done. done. }
  assert (word (Z.land w (w - 1))) as Hw'.
  { destruct Hw. apply word_land; split; lia. }
  assert (ones w = S (ones (Z.land w (w - 1)))) as Hones.
  { unfold ones. rewrite (NoDup_Permutation (filter (λ l, Z.testbit w l = true) (seqZ 0 64))
      (n :: filter (λ l, Z.testbit (Z.land w (w - 1)) l = true) (seqZ 0 64))); [done|apply NoDup_filter, NoDup_seqZ| |].
    - constructor; [|apply NoDup_filter, NoDup_seqZ]. rewrite list_elem_of_filter, Hb, bool_decide_true by done.
      rewrite andb_false_r. by intros [? _].
    - intros l. rewrite elem_of_cons, !list_elem_of_filter, elem_of_seqZ. destruct (decide (0 ≤ l < 64)); [|lia].
      rewrite Hb by lia. case_bool_decide; [subst; rewrite Hone; cbn; naive_solver|]. rewrite andb_true_r. naive_solver. }
  rewrite IH by (done || lia). f_equal. lia.
Qed.

Lemma ones_le w : (ones w ≤ 64)%nat.
Proof. unfold ones. etrans; [apply length_filter|]. by rewrite length_seqZ. Qed.

(** The members of the set in one word. *)
Lemma size_word bm b (S : gset Z) i w : wf bm b → (∀ i, i ∈ S ↔ 0 ≤ i ∧ bit_set b i = true) → b !! i = Some w →
  size (filter (λ k : Z, k < 64 * Z.of_nat (Datatypes.S i)) S) = (size (filter (λ k : Z, (k < 64 * Z.of_nat i)%Z) S) + ones w)%nat.
Proof.
  intros Hwf HS Hi.
  set (row := (λ l, 64 * Z.of_nat i + l) <$> filter (λ l, Z.testbit w l = true) (seqZ 0 64)).
  assert (NoDup row) as Hnd by (apply NoDup_fmap_2; [intros ? ?; lia|apply NoDup_filter, NoDup_seqZ]).
  assert (∀ l, 0 ≤ l < 64 → bit_set b (64 * Z.of_nat i + l) = Z.testbit w l) as Hrow.
  { intros l Hl. unfold bit_set. replace (64 * Z.of_nat i + l) with (l + Z.of_nat i * 64) by lia.
    rewrite Z.div_add, Z.mod_add, Z.div_small, Z.mod_small by lia. by rewrite Z.add_0_l, Nat2Z.id, Hi. }
  assert (∀ k, k ∈ row ↔ 64 * Z.of_nat i ≤ k < 64 * Z.of_nat (Datatypes.S i) ∧ k ∈ S) as Hin.
  { intros k. unfold row. rewrite list_elem_of_fmap. setoid_rewrite list_elem_of_filter. setoid_rewrite elem_of_seqZ. split.
    - intros (l & -> & Hl & ?). split; [lia|]. apply HS. rewrite Hrow by lia. split; [lia|done].
    - intros (Hk & HkS%HS). exists (k - 64 * Z.of_nat i). split; [lia|]. split; [|lia]. rewrite <-Hrow by lia.
      replace (64 * Z.of_nat i + (k - 64 * Z.of_nat i)) with k by lia. tauto. }
  replace (filter (λ k : Z, k < 64 * Z.of_nat (Datatypes.S i)) S)
    with (filter (λ k : Z, k < 64 * Z.of_nat i) S ∪ (list_to_set row : gset Z)).
  - rewrite size_union by (set_unfold; intros k; rewrite Hin; lia). rewrite size_list_to_set by done.
    unfold row. by rewrite length_fmap.
  - apply set_eq. intros k. rewrite elem_of_union, elem_of_list_to_set, !elem_of_filter, Hin. 
    destruct (decide (k ∈ S)) as [Hk|]; [|tauto].
    split; [intros [[? _]|[? _]]|intros [? _]; destruct (decide (k < 64 * Z.of_nat i)); [left|right]]; split; done || lia.
Qed.

Lemma wegner_word w cnt : word w → wegner word_rounds w cnt = Some (cnt + Z.of_nat (ones w)).
Proof. intros Hw. apply wegner_spec; [done|]. apply Nat.lt_succ_r, ones_le. Qed.

#[local] Opaque wegner word_rounds ones.

Lemma count_words_S n i b cnt :
  count_words (S n) i b cnt = (val ← b !! i; (cnt ← wegner word_rounds val cnt; count_words n (S i) b cnt)).
Proof. reflexivity. Qed.

Lemma count_words_step n i b w cnt : b !! i = Some w → word w →
  count_words (S n) i b cnt = count_words n (S i) b (cnt + Z.of_nat (ones w)).
Proof. intros Hw Hword. rewrite count_words_S, Hw. unfold mbind, option_bind. rewrite wegner_word by done. reflexivity. Qed.

Lemma count_words_run bm b (S : gset Z) : wf bm b → (∀ i, i ∈ S ↔ 0 ≤ i ∧ bit_set b i = true) →
  ∀ n i, (i + n ≤ length b)%nat →
  count_words n i b (Z.of_nat (size (filter (λ k : Z, k < 64 * Z.of_nat i) S))) =
    Some (Z.of_nat (size (filter (λ k : Z, k < 64 * Z.of_nat (i + n)) S))).
Proof.
  intros Hwf HS n. induction n as [|n IH]; intros i Hn; [by rewrite Nat.add_0_r|].
  destruct (lookup_lt_is_Some_2 b i) as [w Hw]; [lia|].
  rewrite (count_words_step _ _ _ w) by (try done; by eapply Forall_lookup_1, Hw; destruct Hwf).
  rewrite <-Nat2Z.inj_add, <-(size_word bm b S i w) by done.
  replace (i + Datatypes.S n)%nat with (Datatypes.S i + n)%nat by lia. apply IH. lia.
Qed.

(** The number of set bits "up to the specified length": the length is used as a number
    of 64-bit words, not of bits, so the function counts the members below 64 times
    the length, and reads outside the array when the length is a number of bits larger
    than the number of words. *)
Theorem num_set_bits_spec bm S len : stands bm S → 0 ≤ len →
  opal_bitmap_num_set_bits bm len =
    if len <=? array_size bm then Some (Z.of_nat (size (filter (λ k : Z, k < 64 * len) S))) else None.
Proof.
  intros (b & Hwf & HS) Hlen. unfold opal_bitmap_num_set_bits. rewrite (wf_block _ _ Hwf). change (default [] (Some b)) with b.
  pose proof Hwf as [_ Hl _ _ _].
  assert (filter (λ k : Z, k < 64 * Z.of_nat 0) S = ∅) as H0.
  { apply set_eq. intros k. rewrite elem_of_filter, HS. set_solver by lia. }
  pose proof (count_words_run bm b S Hwf HS) as Hrun.
  destruct (Z.leb_spec len (array_size bm)).
  - specialize (Hrun (Z.to_nat len) O ltac:(lia)). rewrite H0, size_empty in Hrun. change 0 with (Z.of_nat 0) at 1. rewrite Hrun.
    cbn [Nat.add]. by rewrite Z2Nat.id.
  - clear Hrun.
    assert (∀ n m i cnt, (m < n)%nat → (i + m = length b)%nat → count_words n i b cnt = None) as Hout.
    { induction n as [|n IH]; intros m i cnt Hm Hi; [lia|]. destruct m as [|m].
      - by rewrite count_words_S, lookup_ge_None_2 by lia.
      - destruct (lookup_lt_is_Some_2 b i) as [w Hw]; [lia|].
        rewrite (count_words_step _ _ _ w) by (try done; by eapply Forall_lookup_1, Hw; destruct Hwf). apply (IH m); lia. }
    apply (Hout _ (length b)); lia.
Qed.

(** ** New bitmaps, comparisons *)

Lemma bit_set_zeros n i : bit_set (replicate n 0) i = false.
Proof. pose proof (bit_set_app_zeros [] n i) as E. cbn [app] in E. rewrite E. unfold bit_set. rewrite lookup_nil. apply Z.bits_0. Qed.

Lemma bitmap_init_run junk bm size : bitmap bm = None → max_size bm ≤ INT_MAX → 0 < size ≤ max_size bm → size ≤ 2 ^ 29 →
  ∃ bm', opal_bitmap_init true junk bm size = Some (bm', OPAL_SUCCESS) ∧ stands bm' ∅ ∧
    array_size bm' = (size + 63) / 64 ∧ max_size bm' = max_size bm.
Proof.
  intros Hnew Hmax Hs Hlim. unfold opal_bitmap_init. destruct (Z.leb_spec size 0); [lia|].
  destruct (Z.ltb_spec (max_size bm) size); [lia|]. cbn [orb negb]. rewrite Hnew. unfold SIZE_OF_BASE_TYPE.
  replace (size + 64 - 1) with (size + 63) by lia.
  assert (0 < (size + 63) / 64 ≤ 2 ^ 24) as Hn.
  { split; [apply Z.div_str_pos; lia|]. apply Z.div_le_upper_bound; lia. }
  set (n := (size + 63) / 64) in *.
  assert (swrap 32 n = n) as -> by (unfold swrap; rewrite Z.mod_small by lia; zbool; lia).
  unfold opal_bitmap_clear_all_bits. cbn [bitmap array_size max_size mbind option_bind].
  rewrite (drop_ge (take _ _)) by (rewrite length_take; lia). rewrite app_nil_r.
  eexists. split; [reflexivity|]. split_and!; [|done|done]. eexists. split.
  - split; cbn; [done|rewrite length_replicate; lia|by apply Forall_replicate|lia|done].
  - intros i. rewrite bit_set_zeros. set_solver.
Qed.

(** Bitmaps of one size differ exactly when their sets do. *)
Lemma bits_determine b1 b2 : length b1 = length b2 → Forall word b1 → Forall word b2 →
  (∀ i, 0 ≤ i → bit_set b1 i = bit_set b2 i) → b1 = b2.
Proof.
  intros Hl H1 H2 Hb. apply (list_eq_same_length _ _ (length b1)); [done|done|]. intros n x y Hn Hx Hy.
  apply Z.bits_inj'. intros l Hl0. destruct (decide (l < 64)).
  - specialize (Hb (l + Z.of_nat n * 64) ltac:(lia)). unfold bit_set in Hb.
    rewrite Z.div_add, Z.mod_add, Z.div_small, Z.mod_small, Z.add_0_l, Nat2Z.id, Hx, Hy in Hb by lia. done.
  - rewrite !word_high; [done|by eapply (Forall_lookup_1 _ b2)|lia|by eapply (Forall_lookup_1 _ b1)|lia].
Qed.

Lemma are_different_run bm1 bm2 S1 S2 : stands bm1 S1 → stands bm2 S2 → array_size bm1 = array_size bm2 →
  opal_bitmap_are_different bm1 bm2 = Some (bool_decide (S1 ≠ S2)).
Proof.
  intros (b1 & Hwf1 & HS1) (b2 & Hwf2 & HS2) Hsz. unfold opal_bitmap_are_different, opal_bitmap_size.
  pose proof (bits_fit bm1 b1 Hwf1) as E. unfold SIZE_OF_BASE_TYPE in E. rewrite <-Hsz, E. cbn [mbind option_bind].
  rewrite Z.eqb_refl. cbn [negb]. rewrite (wf_block _ _ Hwf1), (wf_block _ _ Hwf2). cbn [mbind option_bind].
  pose proof Hwf1 as [_ Hl1 Hw1 ? ?]. pose proof Hwf2 as [_ Hl2 Hw2 ? ?]. rewrite !take_ge by lia. f_equal.
  apply bool_decide_ext. split; intros Hne ->; apply Hne.
  - apply bits_determine; [lia|done|done|]. intros i Hi. apply eq_true_iff_eq. specialize (HS1 i). specialize (HS2 i). tauto.
  - apply set_eq. intros i. by rewrite HS1, HS2.
Qed.

(** A maximum size is documented in bits and stored in words, but compared with bits: after
    [set_max_size m] every bit from the number of words [m] needs up to [m] is refused. *)
Theorem max_size_in_words bm m i : 0 ≤ m ≤ INT_MAX → (m + 63) / 64 < i →
  opal_bitmap_set_bit true (opal_bitmap_set_max_size bm m).1 i =
    Some ((opal_bitmap_set_max_size bm m).1, OPAL_ERR_BAD_PARAM).
Proof.
  unfold INT_MAX. intros Hm Hi. unfold opal_bitmap_set_max_size, opal_bitmap_set_bit. cbn [fst max_size]. unfold SIZE_OF_BASE_TYPE, uwrap.
  rewrite (Z.mod_small m) by lia. rewrite (Z.mod_small (m + 64 - 1)) by lia. replace (m + 64 - 1) with (m + 63) by lia.
  assert (0 ≤ (m + 63) / 64 < 2 ^ 26) as Hq by (split; [apply Z.div_pos; lia|apply Z.div_lt_upper_bound; lia]).
  set (q := (m + 63) / 64) in *. assert (swrap 32 q = q) as -> by (unfold swrap; rewrite Z.mod_small by lia; zbool; lia).
  destruct (Z.ltb_spec i 0); [done|]. destruct (Z.ltb_spec q i); [done|lia].
Qed.

(** ** A small bitmap *)

Lemma small_bitmap : ∃ bm, opal_bitmap_init true [] opal_bitmap_construct 100 = Some (bm, OPAL_SUCCESS) ∧
  stands bm ∅ ∧ array_size bm = 2 ∧ max_size bm = INT_MAX.
Proof.
  destruct (bitmap_init_run [] opal_bitmap_construct 100) as (bm & E & Hst & Hsz & Hm); [done|done|done|done|].
  exists bm. split_and!; done.
Qed.

Lemma bitmap_refines_set_witness : ∃ bm bm', stands bm ∅ ∧ opal_bitmap_set_bit true bm 130 = Some (bm', OPAL_SUCCESS) ∧
  stands bm' {[130]} ∧ opal_bitmap_is_set_bit bm 130 = Some false.
Proof.
  destruct small_bitmap as (bm & _ & Hst & _ & Hm). destruct (bitmap_refines_set bm ∅ Hst) as (Hget & Hset & _).
  destruct (Hset 130) as (bm' & E & Hst' & _); [lia|by rewrite Hm|]. exists bm, bm'. split_and!; [done|done| |apply Hget].
  by rewrite (right_id_L ∅ (∪)) in Hst'.
Defined.

Lemma find_first_unset_witness : ∃ bm bm', stands bm ∅ ∧ 
  opal_bitmap_find_and_set_first_unset_bit true bm = Some (bm', OPAL_SUCCESS, 0) ∧ stands bm' {[0]}.
Proof.
  destruct small_bitmap as (bm & _ & Hst & Hsz & Hm).
  destruct (find_first_unset_spec bm ∅ Hst) as (bm' & p & E & Hp & _ & Hmin & Hst'); [by rewrite Hsz|by rewrite Hsz, Hm|].
  assert (p = 0) as ->. { destruct (decide (p = 0)); [done|]. specialize (Hmin 0). set_solver by lia. }
  exists bm, bm'. split_and!; [done|done|]. by rewrite (right_id_L ∅ (∪)) in Hst'.
Defined.

Lemma num_set_bits_witness : ∃ bm, stands bm ∅ ∧ opal_bitmap_num_set_bits bm 100 = None.
Proof.
  destruct small_bitmap as (bm & _ & Hst & Hsz & _). exists bm. split; [done|].
  rewrite (num_set_bits_spec bm ∅ 100 Hst) by lia. by rewrite Hsz.
Defined.

Lemma max_size_in_words_witness :
  opal_bitmap_set_bit true (opal_bitmap_set_max_size opal_bitmap_construct 128).1 64 =
    Some ((opal_bitmap_set_max_size opal_bitmap_construct 128).1, OPAL_ERR_BAD_PARAM).
Proof. apply (max_size_in_words opal_bitmap_construct 128 64); [done|reflexivity]. Defined.
End BitmapSpec.
