(* ===== verification/RingBuffer.v ===== *)
(** * Ring buffers (opal/class/opal_ring_buffer.c)

    A circular array of pointers with the index of the next write ([head]) and of the
    oldest entry ([tail], -1 when there is none).  It stands for the sequence of its
    entries, oldest first, of which it drops the oldest when it is full. *)

From Stdlib Require Import ZArith Lia.
From stdpp Require Import prelude numbers list.
From S2P Require Import Prelude.

Local Open Scope Z_scope.

Module Ring.
Section ring.
Context {A : Type}.

(** [None] is NULL. *)
Record opal_ring_buffer_t := mk_ring {
  head : Z;
  tail : Z;
  size : Z;
  addr : list (option A);
}.
Implicit Types ring : opal_ring_buffer_t.

Definition opal_ring_buffer_construct : opal_ring_buffer_t := mk_ring 0 (-1) 0 [].

(** [mem] says whether the block is available. *)
Definition opal_ring_buffer_init (mem : bool) ring (n : Z) : opal_ring_buffer_t * Z :=
  if negb mem then (mk_ring (head ring) (tail ring) (size ring) [], OPAL_ERR_OUT_OF_RESOURCE) else
  (mk_ring (head ring) (tail ring) n (replicate (Z.to_nat n) None), OPAL_SUCCESS).

Definition opal_ring_buffer_push ring (ptr : option A) : option (opal_ring_buffer_t * option A) :=
  p ← zget (addr ring) (head ring);
  let t := match p with
           | Some _ => if tail ring =? size ring - 1 then 0 else head ring + 1
           | None => tail ring
           end in
  a ← zset (addr ring) (head ring) ptr;
  let t := if t <? 0 then head ring else t in
  let h := if head ring =? size ring - 1 then 0 else head ring + 1 in
  Some (mk_ring h t (size ring) a, p).

Definition opal_ring_buffer_pop ring : option (opal_ring_buffer_t * option A) :=
  if tail ring =? -1 then Some (ring, None) else
  p ← zget (addr ring) (tail ring);
  a ← zset (addr ring) (tail ring) None;
  let t := if tail ring =? size ring - 1 then 0 else tail ring + 1 in
  let t := if t =? head ring then -1 else t in
  Some (mk_ring (head ring) t (size ring) a, p).

Definition opal_ring_buffer_poke ring (i : Z) : option (option A) :=
  if (size ring <=? i) || (tail ring =? -1) then Some None else
  if i <? 0 then
    if head ring =? 0 then zget (addr ring) (size ring - 1) else zget (addr ring) (head ring - 1)
  else
    offset ← ck_int (tail ring + i);
    zget (addr ring) (if size ring <=? offset then offset - size ring else offset).

(** ** The sequence of entries *)

(** The index [i] places after [t]. *)
Definition slot (n t i : Z) : Z := if t + i <? n then t + i else t + i - n.

Record rep_at ring (l : list A) (t : Z) : Prop := {
  ra_size : 0 < size ring ≤ INT_MAX;
  ra_block : Z.of_nat (length (addr ring)) = size ring;
  ra_start : 0 ≤ t < size ring;
  ra_tail : tail ring = if decide (l = []) then -1 else t;
  ra_length : Z.of_nat (length l) ≤ size ring;
  ra_head : head ring = slot (size ring) t (Z.of_nat (length l));
  ra_slots (i : nat) : Z.of_nat i < size ring → zget (addr ring) (slot (size ring) t (Z.of_nat i)) = Some (l !! i);
}.

Definition rep ring (l : list A) : Prop := ∃ t, rep_at ring l t.

Lemma slot_range n t i : 0 ≤ t < n → 0 ≤ i ≤ n → 0 ≤ slot n t i < n.
Proof. intros. unfold slot. zbool; lia. Qed.

Lemma zget_insert_eq (a : list (option A)) j x : 0 ≤ j < Z.of_nat (length a) → zget (<[Z.to_nat j := x]> a) j = Some x.
Proof. intros Hj. rewrite zget_in by lia. apply list_lookup_insert_eq. lia. Qed.

Lemma zget_insert_ne (a : list (option A)) j k x : 0 ≤ j → j ≠ k → zget (<[Z.to_nat j := x]> a) k = zget a k.
Proof. intros Hj Hk. unfold zget. zbool; [done|]. apply list_lookup_insert_ne. lia. Qed.

Lemma ring_init_run ring n : head ring = 0 → tail ring = -1 → 0 < n ≤ INT_MAX →
  ∃ ring', opal_ring_buffer_init true ring n = (ring', OPAL_SUCCESS) ∧ rep ring' [].
Proof.
  intros Hh Ht Hn. eexists. split; [reflexivity|]. exists 0. split; cbn; rewrite ?Hh, ?Ht; try done; try lia.
  - rewrite length_replicate. lia.
  - unfold slot. zbool; lia.
  - intros i Hi. unfold slot. rewrite zget_in by (zbool; lia). rewrite lookup_nil. apply lookup_replicate. zbool; split; done || lia.
Qed.

(** The entry after the newest. *)
Lemma push_run ring l x : rep ring l →
  ∃ ring', opal_ring_buffer_push ring (Some x) =
      Some (ring', if decide (Z.of_nat (length l) < size ring) then None else list.head l) ∧
    size ring' = size ring ∧
    rep ring' ((if decide (Z.of_nat (length l) < size ring) then l else list.tail l) ++ [x]).
Proof.
  intros [t [Hs Hb Ht Htl Hl Hh Hsl]]. unfold opal_ring_buffer_push.
  pose proof (slot_range (size ring) t (Z.of_nat (length l)) ltac:(lia) ltac:(lia)) as Hhr. rewrite <-Hh in Hhr.
  rewrite zset_in by lia. destruct (decide (Z.of_nat (length l) < size ring)) as [Hfull|Hfull].
  - pose proof (Hsl (length l) Hfull) as Hfree. rewrite <-Hh, lookup_ge_None_2 in Hfree by done. rewrite Hfree. cbn [mbind option_bind].
    eexists. split; [reflexivity|]. split; [done|]. exists t.
    split; cbn [size addr head tail]; rewrite ?length_insert, ?length_app; try done; cbn [length]; try lia.
    + rewrite decide_False by (by destruct l). rewrite Htl. case_decide as Hnil; [|zbool; lia].
      subst l. cbn in Hh. rewrite Hh. unfold slot. zbool; lia.
    + rewrite Hh. unfold slot. zbool; lia.
    + intros i Hi. destruct (decide (i = length l)) as [->|Hne].
      * rewrite <-Hh, zget_insert_eq by lia. by rewrite list_lookup_middle.
      * rewrite zget_insert_ne; [|lia|].
        -- rewrite Hsl by done. f_equal. destruct (decide (i < length l)%nat); [by rewrite lookup_app_l|].
           rewrite !lookup_ge_None_2; [done|rewrite length_app; cbn; lia|lia].
        -- rewrite Hh. unfold slot. zbool; lia.
  - assert (Z.of_nat (length l) = size ring) as Hlen by lia.
    destruct l as [|y l]; [cbn in Hlen; lia|]. rewrite decide_False in Htl by done.
    assert (head ring = t) as Hht by (rewrite Hh, Hlen; unfold slot; zbool; lia).
    pose proof (Hsl O ltac:(lia)) as H0. replace (slot (size ring) t (Z.of_nat 0)) with t in H0 by (unfold slot; zbool; lia).
    rewrite Hht, H0. cbn [mbind option_bind lookup list_lookup list.head list.tail hd_error tl]. rewrite Htl.
    eexists. split; [reflexivity|]. split; [done|]. exists (slot (size ring) t 1).
    split; cbn [size addr head tail]; rewrite ?length_insert, ?length_app; try done; cbn [length] in *; try lia.
    + apply slot_range; lia.
    + rewrite decide_False by (by destruct l). unfold slot. zbool; lia.
    + unfold slot. zbool; lia.
    + intros i Hi. destruct (decide (i = length l)) as [->|Hne].
      * replace (slot (size ring) (slot (size ring) t 1) (Z.of_nat (length l))) with t by (unfold slot; zbool; lia).
        rewrite zget_insert_eq by lia. by rewrite list_lookup_middle.
      * replace (slot (size ring) (slot (size ring) t 1) (Z.of_nat i)) with (slot (size ring) t (Z.of_nat (S i))) by (unfold slot; zbool; lia).
        rewrite zget_insert_ne by (try lia; unfold slot; zbool; lia). rewrite Hsl by lia. cbn.
        by rewrite lookup_app_l by lia.
Qed.

(** The oldest entry. *)
Lemma pop_run ring l : rep ring l →
  ∃ ring', opal_ring_buffer_pop ring = Some (ring', list.head l) ∧ size ring' = size ring ∧ rep ring' (list.tail l).
Proof.
  intros [t [Hs Hb Ht Htl Hl Hh Hsl]]. unfold opal_ring_buffer_pop. rewrite Htl. destruct l as [|y l].
  { rewrite decide_True by done. cbn. exists ring. split_and!; [done|done|]. exists t. by split. }
  rewrite decide_False by done. destruct (Z.eqb_spec t (-1)); [lia|].
  pose proof (Hsl O ltac:(lia)) as H0. replace (slot (size ring) t (Z.of_nat 0)) with t in H0 by (unfold slot; zbool; lia).
  rewrite H0. rewrite zset_in by lia. cbn [mbind option_bind]. eexists. split; [reflexivity|]. split; [done|].
  exists (slot (size ring) t 1). cbn [length list.tail tl] in *.
  split; cbn [size addr head tail]; rewrite ?length_insert; try done; try lia.
  - apply slot_range; lia.
  - rewrite Hh. unfold slot. destruct (decide (l = [])) as [->|Hnil]; [cbn [length]; zbool; lia|].
    assert (0 < length l)%nat by (destruct l; [done|cbn; lia]). zbool; lia.
  - rewrite Hh. unfold slot. zbool; lia.
  - intros i Hi. destruct (decide (Z.of_nat i = size ring - 1)) as [He|Hne].
    + replace (slot (size ring) (slot (size ring) t 1) (Z.of_nat i)) with t by (unfold slot; zbool; lia).
      rewrite zget_insert_eq by lia. by rewrite lookup_ge_None_2 by lia.
    + replace (slot (size ring) (slot (size ring) t 1) (Z.of_nat i)) with (slot (size ring) t (Z.of_nat (S i))) by (unfold slot; zbool; lia).
      rewrite zget_insert_ne by (try lia; unfold slot; zbool; lia). rewrite Hsl by lia. done.
Qed.

Lemma poke_run ring l i : rep ring l → size ring ≤ 2 ^ 30 →
  opal_ring_buffer_poke ring i = Some (if i <? 0 then last l else l !! Z.to_nat i).
Proof.
  intros [t [Hs Hb Ht Htl Hl Hh Hsl]] Hlim. unfold opal_ring_buffer_poke. rewrite Htl.
  destruct (Z.leb_spec (size ring) i); cbn [orb].
  { destruct (Z.ltb_spec i 0); [lia|]. by rewrite lookup_ge_None_2 by lia. }
  destruct (decide (l = [])) as [->|Hne]; [cbn; by destruct (i <? 0)|].
  destruct (Z.eqb_spec t (-1)); [lia|].
  assert (0 < length l)%nat by (destruct l; [done|cbn; lia]).
  destruct (Z.ltb_spec i 0).
  - specialize (Hsl (length l - 1)%nat ltac:(lia)). rewrite last_lookup. rewrite <-Nat.sub_1_r, <-Hsl.
    rewrite Hh. unfold slot. zbool; first [lia|f_equal; lia].
  - rewrite ck_int_Some by (unfold INT_MIN, INT_MAX; lia). cbn [mbind option_bind].
    rewrite <-(Hsl (Z.to_nat i)) by lia. f_equal. unfold slot. zbool; lia.
Qed.
End ring.
Arguments opal_ring_buffer_t : clear implicits.

(** A ring buffer is the sequence of its entries, oldest first: a push appends, and when
    the ring is full also removes the oldest entry and hands it back; a pop takes the
    oldest entry, or NULL from an empty ring; a poke reads the entry at a
    position, the newest for a negative one, and NULL beyond the last. *)
Theorem ring_refines_sequence {A} (ring : opal_ring_buffer_t A) (l : list A) : rep ring l → size ring ≤ 2 ^ 30 →
  (∀ x, ∃ ring', opal_ring_buffer_push ring (Some x) =
       Some (ring', if decide (Z.of_nat (length l) < size ring) then None else list.head l) ∧
     size ring' = size ring ∧
     rep ring' ((if decide (Z.of_nat (length l) < size ring) then l else list.tail l) ++ [x])) ∧
  (∃ ring', opal_ring_buffer_pop ring = Some (ring', list.head l) ∧ size ring' = size ring ∧ rep ring' (list.tail l)) ∧
  (∀ i, opal_ring_buffer_poke ring i = Some (if i <? 0 then last l else l !! Z.to_nat i)).
Proof. intros Hr Hs. split_and!; [by intros; apply push_run|by apply pop_run|by intros; apply poke_run]. Qed.

Lemma ring_refines_sequence_witness : ∃ ring ring' : opal_ring_buffer_t Z,
  rep ring [] ∧ opal_ring_buffer_push ring (Some 7) = Some (ring', None) ∧ rep ring' [7].
Proof.
  destruct (ring_init_run (A := Z) opal_ring_buffer_construct 4) as (ring & E & Hr); [done|done|done|].
  injection E as <-. destruct (ring_refines_sequence _ _ Hr) as (Hpush & _ & _); [done|].
  destruct (Hpush 7) as (ring' & E & _ & Hr'). eexists _, ring'. split; [exact Hr|]. by split.
Defined.
End Ring.
