(* ===== verification/Regex.v ===== *)
(** * Node-name regular expressions (orte/util/regex.c)

    The resource manager ships the nodes of an allocation as one compressed
    string, [a\[2:1-3,7\],b\[3:12\]x,login], and every reader expands it again.
    [orte_regex_create] is the compressor and [orte_regex_extract_node_names]
    the expander; [None] is undefined behaviour (a write outside a buffer, a
    read of the list sentinel as an element, a signed overflow). *)

From Stdlib Require Import ZArith Lia Ascii.
From stdpp Require Import prelude numbers strings gmap list.
From S2P Require Import Prelude CString Argv.

Local Open Scope Z_scope.

Module Regex.

Definition ORTE_MAX_NODE_PREFIX : nat := 50.

Record orte_regex_range_t := mk_range { start : Z; cnt : Z }.

Record orte_regex_node_t := mk_node {
  prefix : option cstring;
  suffix : option cstring;
  num_digits : Z;
  ranges : list orte_regex_range_t;
}.

(** ** Compression *)

(** The scan of one name: [fullname], [startnum] (negative is [None]), the bytes
    written to [prefix] and [numdigits].  A 51st byte leaves the buffer. *)
Fixpoint scan_name (i : nat) (s : cstring) (startnum : option nat) (pfx : cstring)
    (numdigits : Z) : option (bool * option nat * cstring * Z) :=
  match s with
  | [] => Some (false, startnum, pfx, numdigits)
  | c :: s' =>
      if negb (isalpha c) then
        if negb (isdigit c) then Some (true, startnum, pfx, numdigits)
        else scan_name (S i) s' (match startnum with None => Some i | _ => startnum end)
               pfx (numdigits + 1)
      else match startnum with
           | None => if decide (length pfx < ORTE_MAX_NODE_PREFIX)%nat
                     then scan_name (S i) s' None (pfx ++ [c]) numdigits else None
           | Some _ => scan_name (S i) s' startnum pfx numdigits
           end
  end.

(** The tests that decide whether a name belongs to an entry of the list; the
    [suffix] of a name with digits is never NULL, it may be empty. *)
Definition same_group (pfx sfx : cstring) (numdigits : Z) (n : orte_regex_node_t) : bool :=
  match prefix n with
  | None => bool_decide (pfx = [])
  | Some p => bool_decide (pfx ≠ []) && bool_decide (pfx = p)
  end &&
  match suffix n with
  | None => false
  | Some s => bool_decide (sfx = s)
  end && (numdigits =? num_digits n).

(** Adding a number to the entry it belongs to: it extends the last range or
    starts a new one.  The entry must have a range: [opal_list_get_last] of an
    empty list is the sentinel, which the code would read as a range. *)
Definition add_number (n : orte_regex_node_t) (nodenum : Z) : option orte_regex_node_t :=
  r ← last (ranges n);
  next ← ck_int (start r + cnt r);
  Some (mk_node (prefix n) (suffix n) (num_digits n)
    (if nodenum =? next
     then take (length (ranges n) - 1) (ranges n) ++ [mk_range (start r) (cnt r + 1)]
     else ranges n ++ [mk_range nodenum 1])).

Fixpoint add_to_list (nodeids : list orte_regex_node_t) (pfx sfx : cstring)
    (numdigits nodenum : Z) : option (list orte_regex_node_t) :=
  match nodeids with
  | [] => Some [mk_node (if bool_decide (pfx = []) then None else Some pfx) (Some sfx)
                  numdigits [mk_range nodenum 1]]
  | n :: rest =>
      if same_group pfx sfx numdigits n
      then n' ← add_number n nodenum; Some (n' :: rest)
      else rest' ← add_to_list rest pfx sfx numdigits nodenum; Some (n :: rest')
  end.

(** One turn of the loop over the names. *)
Definition add_name (nodeids : list orte_regex_node_t) (node : cstring)
    : option (list orte_regex_node_t) :=
  r ← scan_name 0 node None [] 0;
  match r with
  | (false, Some startnum, pfx, numdigits) =>
      if decide (ORTE_MAX_NODE_PREFIX ≤ length pfx)%nat then None else
      let '(v, sfx) := strtol (drop startnum node) in
      add_to_list nodeids pfx sfx numdigits (to_int v)
  | _ => Some (nodeids ++ [mk_node (Some node) None 0 []])
  end.

(** The loop consumes the text up to and including a comma at each turn. *)
Fixpoint create_loop (fuel : nat) (node : cstring) (nodeids : list orte_regex_node_t)
    : option (list orte_regex_node_t) :=
  match fuel with
  | O => Some nodeids
  | S f =>
      match cut COMMA node with
      | (name, Some rest) => nodeids' ← add_name nodeids name; create_loop f rest nodeids'
      | ([], None) => Some nodeids
      | (name, None) => add_name nodeids name
      end
  end.

Definition print_range (r : orte_regex_range_t) : cstring :=
  if cnt r =? 1 then print_int (start r) ++ [COMMA]
  else print_int (start r) ++ DASH :: print_int (start r + cnt r - 1) ++ [COMMA].

(** [tmp[strlen(tmp)-1] = c] *)
Definition set_last_char (s : cstring) (c : ascii) : cstring := take (length s - 1) s ++ [c].

(** The text of one entry, [None] when nothing is appended for it. *)
Definition print_node (n : orte_regex_node_t) : option cstring :=
  match ranges n with
  | [] => prefix n
  | rs => Some (set_last_char
                  (default [] (prefix n) ++ LBRACKET :: print_int (num_digits n) ++ COLON
                   :: concat (print_range <$> rs)) RBRACKET
                ++ default [] (suffix n))
  end.

Definition orte_regex_create (nodelist : cstring) : option cstring :=
  match cut COMMA nodelist with
  | (_, None) => Some nodelist
  | _ =>
      nodeids ← create_loop (S (length nodelist)) nodelist [];
      Argv.opal_argv_join (foldl Argv.append None (omap print_node nodeids)) COMMA
  end.

(** ** Expansion *)

(** The text of number [i]: the base, [num_digits] zeros, and the digits of [i]
    written over the end of them. *)
Definition expand_one (base : cstring) (nd i : Z) (sfx : option cstring) : option cstring :=
  if nd <? 0 then None else
  let tmp := print_unsigned i in
  let buf := base ++ replicate (Z.to_nat nd) ZERO in
  if decide (length tmp ≤ length buf)%nat
  then Some (take (length buf - length tmp) buf ++ tmp ++ default [] sfx) else None.

Fixpoint expand_loop (n : nat) (i : Z) (base : cstring) (nd : Z) (sfx : option cstring)
    (names : list cstring) : option (list cstring) :=
  match n with
  | O => Some names
  | S n' => s ← expand_one base nd i sfx; expand_loop n' (i + 1) base nd sfx (names ++ [s])
  end.

Definition not_digit (c : ascii) : bool := negb (isdigit c).

Definition regex_parse_node_range (base range : cstring) (nd : Z) (sfx : option cstring)
    (names : list cstring) : option (Z * list cstring) :=
  match (span not_digit range).2 with
  | [] => Some (OPAL_ERR_NOT_FOUND, names)
  | r1 =>
      let first := uwrap 64 (atoi r1) in
      let after := (span isdigit r1).2 in
      let last :=
        match after with
        | [] => Some first
        | _ => match (span not_digit after).2 with
               | [] => None
               | r2 => Some (uwrap 64 (strtol r2).1)
               end
        end in
      match last with
      | None => Some (OPAL_ERR_NOT_FOUND, names)
      | Some last =>
          names' ← expand_loop (Z.to_nat (last - first + 1)) first base nd sfx names;
          Some (OPAL_SUCCESS, names')
      end
  end.

(** The ranges of one entry, separated by commas; an empty last one is skipped. *)
Fixpoint parse_ranges_loop (fuel : nat) (base ranges : cstring) (nd : Z) (sfx : option cstring)
    (names : list cstring) : option (Z * list cstring) :=
  match fuel with
  | O => Some (OPAL_SUCCESS, names)
  | S f =>
      match cut COMMA ranges with
      | (r, Some rest) =>
          res ← regex_parse_node_range base r nd sfx names;
          if res.1 =? OPAL_SUCCESS then parse_ranges_loop f base rest nd sfx res.2
          else Some res
      | ([], None) => Some (OPAL_SUCCESS, names)
      | (r, None) => regex_parse_node_range base r nd sfx names
      end
  end.

Definition regex_parse_node_ranges (base ranges : cstring) (nd : Z) (sfx : option cstring)
    (names : list cstring) : option (Z * list cstring) :=
  parse_ranges_loop (S (length ranges)) base ranges nd sfx names.

Definition base_char (c : ascii) : bool := negb (ascii_eqb c LBRACKET || ascii_eqb c COMMA).

(** One turn of the outer loop per unit of fuel; a turn that is followed by
    another consumes at least the comma that separates them. *)
Fixpoint extract_loop (fuel : nat) (base : cstring) (names : list cstring)
    : option (Z * list cstring) :=
  match fuel with
  | O => Some (OPAL_SUCCESS, names)
  | S f =>
      match span base_char base with
      | (b, []) =>
          if bool_decide (b = []) then Some (OPAL_ERR_BAD_PARAM, names)
          else Some (OPAL_SUCCESS, names ++ [b])
      | (b, c :: rest) =>
          if ascii_eqb c LBRACKET then
            match cut COLON rest with
            | (_, None) => Some (OPAL_ERR_BAD_PARAM, names)
            | (digits, Some rest1) =>
                let nd := to_int (strtol digits).1 in
                match cut RBRACKET rest1 with
                | (_, None) => Some (OPAL_ERR_BAD_PARAM, names)
                | (rngs, Some rest2) =>
                    let '(sfx, rest3) := cut COMMA rest2 in
                    res ← regex_parse_node_ranges b rngs nd
                            (if bool_decide (sfx = []) then None else Some sfx) names;
                    if res.1 =? OPAL_SUCCESS then
                      match rest3 with
                      | Some more => extract_loop f more res.2
                      | None => Some res
                      end
                    else Some res
                end
            end
          else if bool_decide (b = []) then Some (OPAL_ERR_BAD_PARAM, names)
          else extract_loop f rest (names ++ [b])
      end
  end.

(** The result code, and the names appended to the caller's (empty) array. *)
Definition orte_regex_extract_node_names (regexp : option cstring) : option (Z * list cstring) :=
  match regexp with
  | None => Some (OPAL_SUCCESS, [])
  | Some r => extract_loop (S (length r)) r []
  end.

Example create_ex :
  orte_regex_create (lit "a1,a2,b07,a3,login,b09x") = Some (lit "a[1:1-3],b[2:7],login,b[2:9]x").
Proof. vm_compute. reflexivity. Qed.

Example extract_ex :
  orte_regex_extract_node_names (Some (lit "a[1:1-3],b[2:7],login,b[2:9]x")) =
  Some (OPAL_SUCCESS, lit <$> ["a1"; "a2"; "a3"; "b07"; "login"; "b09x"]).
Proof. vm_compute. reflexivity. Qed.

(** ** Names the compressor is made for *)

Abbreviation alpha s := (Forall (λ c, isalpha c = true) s).
Abbreviation digits s := (Forall (λ c, isdigit c = true) s).

(** A name the compressor keeps whole: letters only, or with a character that is
    neither a letter nor a digit. *)
Definition plain (n : cstring) : Prop :=
  n ≠ [] ∧ Forall (λ c, base_char c = true) n ∧ (length n ≤ ORTE_MAX_NODE_PREFIX)%nat ∧
  (alpha n ∨ Exists (λ c, isalpha c = false ∧ isdigit c = false) n).

(** A name the compressor takes apart: letters, a number, letters. *)
Definition numbered (p ds sfx : cstring) : Prop :=
  alpha p ∧ (length p < ORTE_MAX_NODE_PREFIX)%nat ∧ ds ≠ [] ∧ digits ds ∧
  dec_value ds < INT_MAX ∧ alpha sfx.

Definition good_name (n : cstring) : Prop :=
  plain n ∨ ∃ p ds sfx, n = p ++ ds ++ sfx ∧ numbered p ds sfx.

(** The number [v] on [d] digits. *)
Definition pad (d : nat) (v : Z) : cstring :=
  replicate (d - length (print_unsigned v)) ZERO ++ print_unsigned v.

(** The names an entry of the list stands for. *)
Definition denote (n : orte_regex_node_t) : list cstring :=
  match ranges n with
  | [] => option_list (prefix n)
  | rs => concat ((λ r, (λ v, default [] (prefix n) ++ pad (Z.to_nat (num_digits n)) v
                              ++ default [] (suffix n)) <$> seqZ (start r) (cnt r)) <$> rs)
  end.

Definition wf_range (d : nat) (r : orte_regex_range_t) : Prop :=
  0 ≤ start r ∧ 1 ≤ cnt r ∧ start r + cnt r ≤ INT_MAX ∧ start r + cnt r ≤ 10 ^ Z.of_nat d.

Definition group (p sfx : cstring) (d : nat) (rs : list orte_regex_range_t) : orte_regex_node_t :=
  mk_node (if bool_decide (p = []) then None else Some p) (Some sfx) (Z.of_nat d) rs.

Definition wf_node (n : orte_regex_node_t) : Prop :=
  (∃ x, n = mk_node (Some x) None 0 [] ∧ plain x) ∨
  (∃ p sfx d rs, n = group p sfx d rs ∧ rs ≠ [] ∧ (0 < d)%nat ∧ Z.of_nat d ≤ INT_MAX ∧
     alpha p ∧ alpha sfx ∧ Forall (wf_range d) rs).

(** ** Lemmas on characters *)

Lemma alpha_not_digit c : isalpha c = true → isdigit c = false.
Proof. unfold isalpha, isdigit. intros H. zbool; (done || lia). Qed.

Lemma digit_not_alpha c : isdigit c = true → isalpha c = false.
Proof. unfold isalpha, isdigit. intros H. zbool; (done || lia). Qed.

Lemma alpha_neq c x : isalpha c = true → isalpha x = false → c ≠ x.
Proof. intros H1 H2 ->. congruence. Qed.

Lemma alpha_base_char c : isalpha c = true → base_char c = true.
Proof.
  intros H. unfold base_char.
  rewrite !(proj2 (ascii_eqb_neq c _)); [done|by eapply alpha_neq..].
Qed.

Lemma alpha_no x s : isalpha x = false → alpha s → Forall (λ c, c ≠ x) s.
Proof. intros Hx Hs. eapply Forall_impl; [exact Hs|]. intros c Hc. by eapply alpha_neq. Qed.

Lemma digits_no x s : isdigit x = false → digits s → Forall (λ c, c ≠ x) s.
Proof. intros Hx Hs. eapply Forall_impl; [exact Hs|]. intros c Hc. by eapply digit_neq. Qed.

Lemma dec_value_zeros k l : dec_value (replicate k ZERO ++ l) = dec_value l.
Proof. unfold dec_value. rewrite fold_left_app. f_equal. by induction k. Qed.

Lemma pad_digits ds : ds ≠ [] → digits ds → pad (length ds) (dec_value ds) = ds.
Proof.
  intros Hne Hds. pose proof (dec_value_bounds _ Hds) as [H0 Hb].
  destruct (print_unsigned_spec (dec_value ds) H0) as (Hd & Hv & _ & Hl).
  assert (0 < length ds)%nat as Hpos by (destruct ds; [done|simpl; lia]).
  specialize (Hl _ Hpos Hb). unfold pad. apply dec_value_inj.
  - rewrite length_app, length_replicate. lia.
  - apply Forall_app. split; [|done]. by apply Forall_replicate.
  - done.
  - by rewrite dec_value_zeros.
Qed.

(** ** The scan *)

Lemma scan_alpha i p rest pfx nd :
  alpha p → (length pfx + length p ≤ ORTE_MAX_NODE_PREFIX)%nat →
  scan_name i (p ++ rest) None pfx nd = scan_name (i + length p) rest None (pfx ++ p) nd.
Proof.
  intros Hp. revert i pfx. induction Hp as [|c p Hc Hp IH]; intros i pfx Hl; simpl.
  - by rewrite Nat.add_0_r, app_nil_r.
  - rewrite Hc. simpl in *. rewrite decide_True by lia.
    rewrite IH by (rewrite length_app; simpl; lia). rewrite <-app_assoc.
    by rewrite Nat.add_succ_r.
Qed.

Lemma scan_tail i st ds sfx pfx nd :
  digits ds → alpha sfx →
  scan_name i (ds ++ sfx) (Some st) pfx nd = Some (false, Some st, pfx, nd + Z.of_nat (length ds)).
Proof.
  intros Hd Hs. revert i nd. induction Hd as [|c ds Hc Hd IH]; intros i nd; simpl.
  - rewrite Z.add_0_r. revert i. induction Hs as [|c sfx Hc Hs IH]; intros i; [done|].
    simpl. by rewrite Hc, IH.
  - rewrite (digit_not_alpha _ Hc), Hc. simpl. rewrite IH. do 2 f_equal. lia.
Qed.

Lemma scan_numbered p ds sfx :
  numbered p ds sfx →
  scan_name 0 (p ++ ds ++ sfx) None [] 0 =
    Some (false, Some (length p), p, Z.of_nat (length ds)).
Proof.
  intros (Hp & Hl & Hne & Hd & _ & Hs). rewrite scan_alpha by (done || simpl; lia).
  destruct Hd as [|c ds Hc Hd]; [done|]. simpl.
  rewrite (digit_not_alpha _ Hc), Hc. simpl. rewrite scan_tail by done.
  do 2 f_equal. lia.
Qed.

Lemma scan_special i s st pfx nd :
  (length pfx + length s ≤ ORTE_MAX_NODE_PREFIX)%nat →
  Exists (λ c, isalpha c = false ∧ isdigit c = false) s →
  ∃ st' pfx' nd', scan_name i s st pfx nd = Some (true, st', pfx', nd').
Proof.
  revert i st pfx nd. induction s as [|c s IH]; intros i st pfx nd Hl He; [by inversion He|].
  simpl in *. destruct (isalpha c) eqn:Ha, (isdigit c) eqn:Hd; simpl;
    try (apply Exists_cons in He as [[? ?]|He]; [congruence|]).
  - destruct st; [apply IH; (done || lia)|]. rewrite decide_True by lia.
    apply IH; [rewrite length_app; simpl; lia|done].
  - destruct st; [apply IH; (done || lia)|]. rewrite decide_True by lia.
    apply IH; [rewrite length_app; simpl; lia|done].
  - apply IH; [lia|done].
  - eauto.
Qed.

Lemma add_name_plain nodeids n :
  plain n → add_name nodeids n = Some (nodeids ++ [mk_node (Some n) None 0 []]).
Proof.
  intros (Hne & _ & Hl & [Ha|Hs]); unfold add_name.
  - pose proof (scan_alpha 0 n [] [] 0 Ha ltac:(simpl; lia)) as H.
    rewrite app_nil_r in H. rewrite H. done.
  - destruct (scan_special 0 n None [] 0) as (st & pf & nd & ->); [simpl; lia|done|done].
Qed.

Lemma add_name_numbered nodeids p ds sfx :
  numbered p ds sfx →
  add_name nodeids (p ++ ds ++ sfx) =
    add_to_list nodeids p sfx (Z.of_nat (length ds)) (dec_value ds).
Proof.
  intros Hn. unfold add_name. rewrite (scan_numbered _ _ _ Hn).
  destruct Hn as (Hp & Hl & Hne & Hd & Hv & Hs). simpl.
  rewrite decide_False by lia. rewrite drop_app_length.
  pose proof (dec_value_bounds _ Hd) as [H0 _]. unfold INT_MAX in *.
  rewrite strtol_digits.
  - rewrite to_int_small by (unfold INT_MAX; lia). done.
  - done.
  - done.
  - unfold LONG_MAX. lia.
  - intros c r ->. apply Forall_cons in Hs as [Hc _]. by apply alpha_not_digit.
Qed.

(** ** Adding a name keeps the list well formed and adds what it stands for *)

Lemma denote_group p sfx d rs :
  rs ≠ [] →
  denote (group p sfx d rs) =
  concat ((λ r, (λ v, p ++ pad d v ++ sfx) <$> seqZ (start r) (cnt r)) <$> rs).
Proof.
  intros Hne. unfold denote, group. simpl. destruct rs as [|r rs]; [done|].
  rewrite Nat2Z.id. case_bool_decide; [by subst|done].
Qed.

Lemma same_group_true p sfx d n :
  wf_node n → same_group p sfx (Z.of_nat d) n = true →
  ∃ rs, n = group p sfx d rs ∧ rs ≠ [] ∧ (0 < d)%nat ∧ Forall (wf_range d) rs.
Proof.
  intros [(x & -> & _)|(p' & sfx' & d' & rs & -> & Hne & Hd & _ & _ & _ & Hrs)];
    unfold same_group, group; simpl.
  - by rewrite andb_false_r.
  - rewrite !andb_true_iff, Z.eqb_eq, bool_decide_eq_true.
    intros [[Hp ->] Hd']. assert (d' = d) as -> by lia.
    assert (p = p') as ->.
    { destruct (bool_decide (p' = [])) eqn:E.
      - apply bool_decide_eq_true in E, Hp. congruence.
      - rewrite andb_true_iff, !bool_decide_eq_true in Hp. by destruct Hp. }
    exists rs. done.
Qed.

Lemma ranges_extend (rs : list orte_regex_range_t) r :
  last rs = Some r → take (length rs - 1) rs ++ [r] = rs.
Proof.
  intros Hl. destruct rs as [|x rs _] using rev_ind; [done|].
  rewrite last_snoc in Hl. injection Hl as ->.
  rewrite length_app. simpl. rewrite Nat.add_sub, take_app_length. done.
Qed.

Lemma add_number_group p sfx d rs v :
  rs ≠ [] → Forall (wf_range d) rs → 0 ≤ v < INT_MAX → v < 10 ^ Z.of_nat d →
  ∃ rs', add_number (group p sfx d rs) v = Some (group p sfx d rs') ∧ rs' ≠ [] ∧
    Forall (wf_range d) rs' ∧
    denote (group p sfx d rs') = denote (group p sfx d rs) ++ [p ++ pad d v ++ sfx].
Proof.
  intros Hne Hrs Hv Hd. unfold add_number. simpl.
  destruct (last rs) as [r|] eqn:Hl; [|by apply last_None in Hl]. simpl.
  pose proof (ranges_extend _ _ Hl) as Hsplit.
  set (init := take (length rs - 1) rs) in *.
  assert (Forall (wf_range d) init ∧ wf_range d r) as [Hi Hr].
  { assert (Forall (wf_range d) (init ++ [r])) as Hrs' by (by rewrite Hsplit).
    apply Forall_app in Hrs' as [? Hx]. split; [done|]. by inversion Hx. }
  pose proof Hr as (H1 & H2 & H3 & H4).
  rewrite ck_int_Some by (unfold INT_MIN, INT_MAX in *; lia). simpl.
  eexists. split; [reflexivity|].
  destruct (Z.eqb_spec v (start r + cnt r)) as [->|Hneq].
  - split_and!.
    + by destruct init.
    + apply Forall_app. split; [done|]. apply Forall_singleton.
      unfold wf_range. simpl. lia.
    + rewrite !denote_group by (done || by destruct init).
      rewrite <-Hsplit. clearbody init. rewrite !fmap_app, !concat_app, <-app_assoc. f_equal. simpl.
      rewrite !app_nil_r. rewrite (seqZ_app (start r) (cnt r) 1), fmap_app by lia.
      f_equal.
  - split_and!.
    + by destruct rs.
    + apply Forall_app. split; [done|]. apply Forall_singleton.
      unfold wf_range. simpl. lia.
    + rewrite !denote_group by (done || by destruct rs).
      by rewrite fmap_app, concat_app.
Qed.

Lemma add_to_list_spec p ds sfx nodeids :
  numbered p ds sfx → Z.of_nat (length ds) ≤ INT_MAX → Forall wf_node nodeids →
  ∃ nodeids', add_to_list nodeids p sfx (Z.of_nat (length ds)) (dec_value ds) = Some nodeids' ∧
    Forall wf_node nodeids' ∧
    concat (denote <$> nodeids') ≡ₚ (p ++ ds ++ sfx) :: concat (denote <$> nodeids).
Proof.
  intros Hn Hlen Hwf. pose proof Hn as (Hp & Hl & Hne & Hds & Hv & Hs).
  pose proof (dec_value_bounds _ Hds) as [H0 Hb].
  assert (0 < length ds)%nat as Hpos by (destruct ds; [done|simpl; lia]).
  induction Hwf as [|n nodeids Hn1 Hwf IH]; simpl.
  - eexists. split; [reflexivity|].
    change (mk_node _ _ _ _) with (group p sfx (length ds) [mk_range (dec_value ds) 1]).
    split.
    + apply Forall_singleton. right. exists p, sfx, (length ds), [mk_range (dec_value ds) 1].
      split_and!; try done. apply Forall_singleton. unfold wf_range. simpl. lia.
    + cbn [fmap list_fmap concat]. rewrite denote_group by done. simpl.
      by rewrite pad_digits by done.
  - destruct (same_group p sfx (Z.of_nat (length ds)) n) eqn:Hsg.
    + destruct (same_group_true _ _ _ _ Hn1 Hsg) as (rs & -> & Hrne & _ & Hrs).
      destruct (add_number_group p sfx (length ds) rs (dec_value ds))
        as (rs' & -> & Hrne' & Hrs' & Hden); try done.
      simpl. eexists. split; [reflexivity|]. split.
      * constructor; [|done]. right. exists p, sfx, (length ds), rs'. done.
      * simpl. rewrite Hden, pad_digits by done. rewrite <-app_assoc. simpl.
        by rewrite <-Permutation_middle.
    + destruct IH as (nodeids' & -> & Hwf' & Hperm). simpl.
      eexists. split; [reflexivity|]. split; [by constructor|].
      simpl. rewrite Hperm. by rewrite Permutation_middle.
Qed.

Lemma good_name_chars n : good_name n → n ≠ [] ∧ Forall (λ c, base_char c = true) n.
Proof.
  intros [(Hne & Hb & _)|(p & ds & sfx & -> & Hp & _ & Hne & Hd & _ & Hs)]; [done|].
  split; [by destruct p, ds|]. apply Forall_app; split; [|apply Forall_app; split].
  - eapply Forall_impl; [exact Hp|]. apply alpha_base_char.
  - eapply Forall_impl; [exact Hd|]. intros c Hc. unfold base_char.
    rewrite !(proj2 (ascii_eqb_neq c _)); [done|by eapply digit_neq..].
  - eapply Forall_impl; [exact Hs|]. apply alpha_base_char.
Qed.

Lemma base_char_neq c : base_char c = true → c ≠ COMMA ∧ c ≠ LBRACKET.
Proof.
  unfold base_char. intros H. split; intros ->; vm_compute in H; done.
Qed.

Lemma good_name_no_comma n : good_name n → Argv.no_char COMMA n.
Proof.
  intros [_ H]%good_name_chars. eapply Forall_impl; [exact H|].
  intros c [Hc _]%base_char_neq. done.
Qed.

(** What a name may contribute; the length of the number is an [int] in the code. *)
Definition short (n : cstring) : Prop := Z.of_nat (length n) ≤ INT_MAX.

Lemma add_name_spec nodeids n :
  good_name n → short n → Forall wf_node nodeids →
  ∃ nodeids', add_name nodeids n = Some nodeids' ∧ Forall wf_node nodeids' ∧
    concat (denote <$> nodeids') ≡ₚ n :: concat (denote <$> nodeids).
Proof.
  intros [Hp|(p & ds & sfx & -> & Hn)] Hsh Hwf.
  - rewrite add_name_plain by done. eexists. split; [reflexivity|]. split.
    + apply Forall_app. split; [done|]. apply Forall_singleton. left. eauto.
    + rewrite fmap_app, concat_app. simpl. rewrite Permutation_app_comm. done.
  - rewrite add_name_numbered by done. apply add_to_list_spec; try done.
    unfold short in Hsh. rewrite !length_app in Hsh. lia.
Qed.

Lemma create_loop_spec names : ∀ fuel nodeids,
  Forall good_name names → Forall short names → Forall wf_node nodeids →
  (length names < fuel)%nat →
  ∃ nodeids', create_loop fuel (Argv.join_ref COMMA names) nodeids = Some nodeids' ∧
    Forall wf_node nodeids' ∧
    concat (denote <$> nodeids') ≡ₚ names ++ concat (denote <$> nodeids).
Proof.
  induction names as [|n names IH]; intros fuel nodeids Hg Hsh Hwf Hf.
  { destruct fuel; simpl; eauto. }
  apply Forall_cons in Hg as [Hn Hg]. apply Forall_cons in Hsh as [Hs Hsh].
  destruct fuel as [|fuel]; [simpl in Hf; lia|].
  pose proof (good_name_no_comma _ Hn) as Hnc. pose proof (good_name_chars _ Hn) as [Hne _].
  destruct (add_name_spec nodeids n Hn Hs Hwf) as (ids1 & Hadd & Hwf1 & Hperm1).
  destruct names as [|n2 names].
  - simpl. rewrite app_nil_r, cut_none by done. destruct n as [|c n]; [done|].
    rewrite Hadd. eauto.
  - cbn [create_loop Argv.join_ref fmap list_fmap concat app].
    change (n ++ (COMMA :: n2) ++ concat ((COMMA ::.) <$> names))
      with (n ++ COMMA :: Argv.join_ref COMMA (n2 :: names)).
    rewrite cut_app by done. destruct n as [|c n]; [done|]. rewrite Hadd. simpl mbind.
    destruct (IH fuel ids1) as (ids2 & Hloop & Hwf2 & Hperm2); try done; [simpl in *; lia|].
    exists ids2. split_and!; [done|done|].
    rewrite Hperm2, Hperm1. symmetry. apply (Permutation_middle (n2 :: names)).
Qed.

(** ** Reading the text back *)

Definition range_txt (r : orte_regex_range_t) : cstring :=
  if cnt r =? 1 then print_unsigned (start r)
  else print_unsigned (start r) ++ DASH :: print_unsigned (start r + cnt r - 1).

Lemma print_range_eq r : 0 ≤ start r → 1 ≤ cnt r → print_range r = range_txt r ++ [COMMA].
Proof.
  intros H1 H2. unfold print_range, range_txt. rewrite !print_int_nonneg by lia.
  destruct (cnt r =? 1); [done|]. by rewrite <-app_assoc.
Qed.

Lemma join_ref_cons d s s2 l :
  Argv.join_ref d (s :: s2 :: l) = s ++ d :: Argv.join_ref d (s2 :: l).
Proof. done. Qed.

Lemma print_ranges_eq d rs : rs ≠ [] → Forall (wf_range d) rs →
  concat (print_range <$> rs) = Argv.join_ref COMMA (range_txt <$> rs) ++ [COMMA].
Proof.
  intros Hne Hrs. induction Hrs as [|r rs (H1 & H2 & _) Hrs IH]; [done|].
  cbn [fmap list_fmap concat]. rewrite print_range_eq by done.
  destruct rs as [|r2 rs]; [simpl; by rewrite !app_nil_r|].
  change (concat (list_fmap _ _ print_range (r2 :: rs)))
    with (concat (print_range <$> (r2 :: rs))).
  rewrite IH by done. simpl. rewrite <-!app_assoc. simpl. by rewrite <-!app_assoc.
Qed.

Definition group_txt (p sfx : cstring) (d : nat) (rs : list orte_regex_range_t) : cstring :=
  p ++ LBRACKET :: print_unsigned (Z.of_nat d) ++ COLON
    :: Argv.join_ref COMMA (range_txt <$> rs) ++ RBRACKET :: sfx.

Lemma set_last_char_snoc s x c : set_last_char (s ++ [x]) c = s ++ [c].
Proof.
  unfold set_last_char. rewrite length_app. simpl. by rewrite Nat.add_sub, take_app_length.
Qed.

Lemma print_group p sfx d rs : rs ≠ [] → Forall (wf_range d) rs →
  print_node (group p sfx d rs) = Some (group_txt p sfx d rs).
Proof.
  intros Hne Hrs. unfold print_node, group. cbn [ranges prefix suffix num_digits].
  destruct rs as [|r rs]; [done|].
  rewrite (print_ranges_eq d) by done. rewrite print_int_nonneg by lia.
  assert (default [] (if bool_decide (p = []) then None else Some p) = p) as ->
    by (case_bool_decide; [by subst|done]).
  set (js := Argv.join_ref _ _).
  replace (p ++ LBRACKET :: print_unsigned (Z.of_nat d) ++ COLON :: js ++ [COMMA])
    with ((p ++ LBRACKET :: print_unsigned (Z.of_nat d) ++ COLON :: js) ++ [COMMA])
    by (rewrite <-app_assoc; simpl; by rewrite <-app_assoc).
  rewrite set_last_char_snoc. unfold group_txt. fold js. simpl default. f_equal.
  rewrite <-!app_assoc. simpl. by rewrite <-!app_assoc.
Qed.

(** The names of one range, in the order the loop appends them. *)
Definition range_names (base : cstring) (d : nat) (sfx : cstring) (r : orte_regex_range_t) :=
  (λ v, base ++ pad d v ++ sfx) <$> seqZ (start r) (cnt r).

Lemma expand_one_eq base d v (sfx : option cstring) : (0 < d)%nat → 0 ≤ v < 10 ^ Z.of_nat d →
  expand_one base (Z.of_nat d) v sfx = Some (base ++ pad d v ++ default [] sfx).
Proof.
  intros Hd Hv. unfold expand_one. destruct (Z.ltb_spec (Z.of_nat d) 0); [lia|].
  destruct (print_unsigned_spec v) as (_ & _ & _ & Hl); [lia|].
  specialize (Hl d Hd ltac:(lia)). rewrite Nat2Z.id, length_app, length_replicate.
  rewrite decide_True by lia. f_equal. unfold pad.
  rewrite take_app_ge by lia. rewrite <-!app_assoc. f_equal. f_equal.
  rewrite take_replicate. f_equal. lia.
Qed.

Lemma expand_loop_eq n base d i sfx names : (0 < d)%nat →
  0 ≤ i → i + Z.of_nat n ≤ 10 ^ Z.of_nat d →
  expand_loop n i base (Z.of_nat d) sfx names =
  Some (names ++ range_names base d (default [] sfx) (mk_range i (Z.of_nat n))).
Proof.
  intros Hd. revert i names. induction n as [|n IH]; intros i names Hi Hb.
  - unfold range_names. simpl. by rewrite app_nil_r.
  - cbn [expand_loop]. rewrite expand_one_eq by lia. simpl mbind.
    rewrite IH by lia. rewrite <-app_assoc. do 2 f_equal. unfold range_names. simpl.
    rewrite (seqZ_cons i) by lia. simpl. do 3 f_equal; lia.
Qed.

Lemma span_not_digit_digits ds rest :
  ds ≠ [] → digits ds → span not_digit (ds ++ rest) = ([], ds ++ rest).
Proof.
  intros Hne Hd. destruct Hd as [|c ds Hc Hd]; [done|]. simpl. unfold not_digit.
  by rewrite Hc.
Qed.

Lemma parse_node_range_eq base d r sfx names : (0 < d)%nat → wf_range d r →
  regex_parse_node_range base (range_txt r) (Z.of_nat d) sfx names =
  Some (OPAL_SUCCESS, names ++ range_names base d (default [] sfx) r).
Proof.
  intros Hd (H1 & H2 & H3 & H4). destruct r as [a k]. simpl in *. unfold INT_MAX in *.
  destruct (print_unsigned_spec a) as (Hda & Hva & Hnea & _); [lia|].
  destruct (print_unsigned_spec (a + k - 1)) as (Hdb & Hvb & Hneb & _); [lia|].
  assert (∀ x, 0 ≤ x < 2147483647 → uwrap 64 x = x) as Huw
    by (intros x Hx; unfold uwrap; apply Z.mod_small; lia).
  assert (∀ rest, (∀ c r, rest = c :: r → isdigit c = false) →
    atoi (print_unsigned a ++ rest) = a) as Hatoi.
  { intros rest Hr. unfold atoi. rewrite strtol_print by (done || unfold LONG_MAX; lia). simpl.
    apply to_int_small. unfold INT_MAX. lia. }
  unfold regex_parse_node_range, range_txt. cbn [start cnt].
  destruct (Z.eqb_spec k 1) as [->|Hk].
  - rewrite <-(app_nil_r (print_unsigned a)). rewrite span_not_digit_digits by done. cbn [snd].
    destruct (print_unsigned a ++ []) eqn:E; [by apply app_nil in E as [? _]|].
    rewrite <-E. rewrite Hatoi by done. rewrite app_nil_r, span_all by done. cbn [snd].
    rewrite Huw by lia. replace (Z.to_nat (a - a + 1)) with 1%nat by lia.
    rewrite expand_loop_eq by lia. done.
  - rewrite span_not_digit_digits by done. cbn [snd].
    destruct (print_unsigned a ++ DASH :: print_unsigned (a + k - 1)) eqn:E;
      [by apply app_nil in E as [? _]|].
    rewrite <-E. rewrite Hatoi by (by intros c r [= <- <-]).
    rewrite span_app_stop by done. cbn [snd].
    assert (span not_digit (DASH :: print_unsigned (a + k - 1)) =
            ([DASH], print_unsigned (a + k - 1) ++ [])) as ->.
    { cbn [span]. change (not_digit DASH) with true. cbn iota.
      rewrite <-(app_nil_r (print_unsigned (a + k - 1))) at 1.
      by rewrite span_not_digit_digits by done. }
    cbn [snd]. destruct (print_unsigned (a + k - 1) ++ []) eqn:E2;
      [by apply app_nil in E2 as [? _]|].
    rewrite <-E2, strtol_print by (done || unfold LONG_MAX; lia). cbn [fst].
    rewrite !Huw by lia. rewrite expand_loop_eq by lia. simpl.
    do 4 f_equal. f_equal. lia.
Qed.

Lemma range_txt_chars d r x : wf_range d r → isdigit x = false → x ≠ DASH →
  Forall (λ c, c ≠ x) (range_txt r).
Proof.
  intros (H1 & H2 & _) Hx Hd. unfold range_txt.
  destruct (print_unsigned_spec (start r)) as (Ha & _); [lia|].
  destruct (print_unsigned_spec (start r + cnt r - 1)) as (Hb & _); [lia|].
  destruct (cnt r =? 1); [by apply digits_no|].
  apply Forall_app. split; [by apply digits_no|].
  constructor; [done|by apply digits_no].
Qed.

Lemma range_txt_nonempty d r : wf_range d r → range_txt r ≠ [].
Proof.
  intros (H1 & _). unfold range_txt. destruct (print_unsigned_spec (start r)) as (_ & _ & H & _);
    [lia|]. destruct (cnt r =? 1); [done|]. by destruct (print_unsigned (start r)).
Qed.

Lemma parse_ranges_eq base d sfx rs : (0 < d)%nat → ∀ fuel names,
  Forall (wf_range d) rs → (length rs ≤ fuel)%nat →
  parse_ranges_loop fuel base (Argv.join_ref COMMA (range_txt <$> rs)) (Z.of_nat d) sfx names =
  Some (OPAL_SUCCESS, names ++ concat (range_names base d (default [] sfx) <$> rs)).
Proof.
  intros Hd. induction rs as [|r rs IH]; intros fuel names Hrs Hf.
  { destruct fuel; simpl; by rewrite app_nil_r. }
  apply Forall_cons in Hrs as [Hr Hrs]. destruct fuel as [|fuel]; [simpl in Hf; lia|].
  pose proof (range_txt_chars d r COMMA Hr eq_refl ltac:(done)) as Hnc.
  pose proof (range_txt_nonempty d r Hr) as Hne.
  destruct rs as [|r2 rs].
  - simpl. rewrite !app_nil_r, cut_none by done.
    rewrite parse_node_range_eq by done. by destruct (range_txt r).
  - cbn [fmap list_fmap]. rewrite join_ref_cons. cbn [parse_ranges_loop].
    rewrite cut_app by done. rewrite parse_node_range_eq by done. cbn [mbind option_bind fst snd].
    change (OPAL_SUCCESS =? OPAL_SUCCESS) with true. cbn iota.
    specialize (IH fuel (names ++ range_names base d (default [] sfx) r) Hrs
                  ltac:(simpl in *; lia)).
    cbn [fmap list_fmap] in IH. destruct (range_txt r); [done|].
    rewrite IH. cbn [concat]. by rewrite <-app_assoc.
Qed.

Lemma join_ref_length d l : (length l ≤ S (length (Argv.join_ref d l)))%nat.
Proof.
  destruct l as [|s l]; [simpl; lia|]. simpl. rewrite length_app.
  assert (length l ≤ length (concat ((d ::.) <$> l)))%nat; [|lia].
  induction l as [|s2 l IH]; [simpl; lia|].
  rewrite fmap_cons. cbn [concat length app]. rewrite length_app. lia.
Qed.

Lemma join_ref_no_char d x l : d ≠ x → Forall (Forall (λ c, c ≠ x)) l →
  Forall (λ c, c ≠ x) (Argv.join_ref d l).
Proof.
  intros Hdx Hl. destruct Hl as [|s l Hs Hl]; [constructor|]. simpl.
  apply Forall_app. split; [done|]. induction Hl as [|s2 l Hs2 Hl IH]; simpl; [constructor|].
  constructor; [done|]. apply Forall_app. done.
Qed.

(** One turn of the outer loop on the text of a group, whatever follows it. *)
Lemma extract_group p sfx d rs f names rest :
  rs ≠ [] → (0 < d)%nat → Z.of_nat d ≤ INT_MAX → alpha p → alpha sfx → Forall (wf_range d) rs →
  extract_loop (S f) (group_txt p sfx d rs ++ rest) names =
  match rest with
  | [] => Some (OPAL_SUCCESS, names ++ denote (group p sfx d rs))
  | c :: more => if ascii_eqb c COMMA
                 then extract_loop f more (names ++ denote (group p sfx d rs))
                 else extract_loop (S f) (group_txt p sfx d rs ++ rest) names
  end.
Proof.
  intros Hne Hd Hdm Hp Hs Hrs.
  assert (Forall (λ c, base_char c = true) p) as Hpb
    by (eapply Forall_impl; [exact Hp|apply alpha_base_char]).
  destruct rest as [|c more]; [|destruct (ascii_eqb c COMMA) eqn:Hc; [|done]].
  all: unfold group_txt; rewrite <-?app_assoc; cbn [app]; rewrite <-?app_assoc; cbn [app];
    rewrite <-?app_assoc; cbn [app]; cbn [extract_loop];
    rewrite (span_app_stop base_char p LBRACKET) by done;
    change (ascii_eqb LBRACKET LBRACKET) with true; cbn iota;
    destruct (print_unsigned_spec (Z.of_nat d)) as (Hdd & Hdv & Hdne & _); [lia|];
    rewrite cut_app by (by apply digits_no);
    rewrite <-(app_nil_r (print_unsigned (Z.of_nat d)));
    rewrite strtol_print by (done || unfold LONG_MAX, INT_MAX in *; lia);
    cbn [fst]; rewrite to_int_small by lia;
    rewrite cut_app by (apply join_ref_no_char; [done|];
      apply Forall_fmap, Forall_forall; intros r Hr;
      eapply range_txt_chars; [by eapply Forall_forall|done|done]).
  - rewrite app_nil_r, cut_none by (by apply alpha_no).
    unfold regex_parse_node_ranges.
    rewrite parse_ranges_eq; [|done|done|].
    + cbn [mbind option_bind fst snd]. rewrite denote_group by done.
      change (OPAL_SUCCESS =? OPAL_SUCCESS) with true. cbn iota. do 4 f_equal.
      unfold range_names. by destruct sfx.
    + pose proof (join_ref_length COMMA (range_txt <$> rs)). rewrite length_fmap in *. lia.
  - apply ascii_eqb_eq in Hc as ->. rewrite cut_app by (by apply alpha_no).
    unfold regex_parse_node_ranges.
    rewrite parse_ranges_eq; [|done|done|].
    + cbn [mbind option_bind fst snd]. rewrite denote_group by done.
      change (OPAL_SUCCESS =? OPAL_SUCCESS) with true. cbn iota. do 2 f_equal.
      unfold range_names. by destruct sfx.
    + pose proof (join_ref_length COMMA (range_txt <$> rs)). rewrite length_fmap in *. lia.
Qed.

Lemma extract_plain x f names :
  plain x →
  extract_loop (S f) x names = Some (OPAL_SUCCESS, names ++ [x]) ∧
  ∀ more, extract_loop (S f) (x ++ COMMA :: more) names = extract_loop f more (names ++ [x]).
Proof.
  intros (Hne & Hb & _). cbn [extract_loop]. split.
  - rewrite span_all by done. by rewrite bool_decide_eq_false_2.
  - intros more. rewrite span_app_stop by done.
    change (ascii_eqb COMMA LBRACKET) with false. cbn iota. by rewrite bool_decide_eq_false_2.
Qed.

(** Every well-formed entry has a text, and the expander reads it back. *)
Lemma extract_node n f names :
  wf_node n →
  ∃ t, print_node n = Some t ∧
  extract_loop (S f) t names = Some (OPAL_SUCCESS, names ++ denote n) ∧
  ∀ more, extract_loop (S f) (t ++ COMMA :: more) names = extract_loop f more (names ++ denote n).
Proof.
  intros [(x & -> & Hp)|(p & sfx & d & rs & -> & Hne & Hd & Hdm & Hp & Hs & Hrs)].
  - exists x. split; [done|]. by apply extract_plain.
  - exists (group_txt p sfx d rs). split; [by apply print_group|]. split.
    + pose proof (extract_group p sfx d rs f names []) as H. rewrite app_nil_r in H. by apply H.
    + intros more. by rewrite extract_group.
Qed.

Lemma extract_nodes ns : ∀ fuel names,
  Forall wf_node ns → ns ≠ [] → (length ns ≤ fuel)%nat →
  extract_loop fuel (Argv.join_ref COMMA (omap print_node ns)) names =
  Some (OPAL_SUCCESS, names ++ concat (denote <$> ns)).
Proof.
  induction ns as [|n ns IH]; intros fuel names Hwf Hne Hf; [done|].
  apply Forall_cons in Hwf as [Hn Hwf]. destruct fuel as [|fuel]; [simpl in Hf; lia|].
  destruct (extract_node n fuel names Hn) as (t & Ht & H1 & H2).
  destruct ns as [|n2 ns].
  - cbn [omap list_omap]. rewrite Ht. simpl. rewrite !app_nil_r. exact H1.
  - specialize (IH fuel (names ++ denote n) Hwf ltac:(done) ltac:(simpl in *; lia)).
    destruct (extract_node n2 0 [] ltac:(by inversion Hwf)) as (t2 & Ht2 & _ & _).
    cbn [omap list_omap] in *. rewrite Ht, Ht2 in *. rewrite join_ref_cons, H2, IH.
    cbn [fmap list_fmap concat]. by rewrite <-app_assoc.
Qed.

Lemma omap_print_length ns : Forall wf_node ns → length (omap print_node ns) = length ns.
Proof.
  induction 1 as [|n ns Hn Hns IH]; [done|].
  destruct (extract_node n 0 [] Hn) as (t & Ht & _). cbn [omap list_omap]. rewrite Ht. simpl.
  by f_equal.
Qed.

Lemma foldl_append_None l : l ≠ [] → foldl Argv.append None l = Some l.
Proof. destruct l as [|s l]; [done|]. intros _. cbn [foldl].
  by rewrite Argv.append_eq, Argv.foldl_append. Qed.

(** ** Deciding that a name is good *)

Definition plainb (n : cstring) : bool :=
  bool_decide (n ≠ []) && forallb base_char n && (length n <=? ORTE_MAX_NODE_PREFIX)%nat &&
  (forallb isalpha n || existsb (λ c, negb (isalpha c) && negb (isdigit c)) n).

Definition numberedb (n : cstring) : bool :=
  let (p, r) := span isalpha n in
  let (ds, sfx) := span isdigit r in
  (length p <? ORTE_MAX_NODE_PREFIX)%nat && bool_decide (ds ≠ []) &&
  (dec_value ds <? INT_MAX) && forallb isalpha sfx.

Definition good_nameb (n : cstring) : bool := plainb n || numberedb n.

Lemma forallb_Forall_true (P : ascii → bool) l : forallb P l = true → Forall (λ c, P c = true) l.
Proof. induction l; simpl; [constructor|]. intros [? ?]%andb_prop. constructor; auto. Qed.

Lemma good_nameb_good n : good_nameb n = true → good_name n.
Proof.
  unfold good_nameb, plainb, numberedb. intros [H|H]%orb_prop.
  - left. repeat (apply andb_prop in H as [H ?]). split_and!.
    + by eapply bool_decide_eq_true.
    + by apply forallb_Forall_true.
    + by apply Nat.leb_le.
    + apply orb_prop in H0 as [H0|H0]; [left; by apply forallb_Forall_true|right].
      apply existsb_exists in H0 as (c & Hc & [? ?]%andb_prop).
      apply Exists_exists. exists c. split; [by apply list_elem_of_In|].
      by destruct (isalpha c), (isdigit c).
  - right. destruct (span isalpha n) as [p r] eqn:Ep, (span isdigit r) as [ds sfx] eqn:Ed.
    apply span_eq in Ep as (-> & Hp & _). apply span_eq in Ed as (-> & Hd & _).
    repeat (apply andb_prop in H as [H ?]). exists p, ds, sfx. split; [done|].
    split_and!; try done.
    + by apply Nat.ltb_lt.
    + by eapply bool_decide_eq_true.
    + by apply Z.ltb_lt.
    + by apply forallb_Forall_true.
Qed.

(** ** The round trip *)

Lemma create_extract names :
  names ≠ [] → Forall good_name names → Forall short names →
  ∃ r names', orte_regex_create (Argv.join_ref COMMA names) = Some r ∧
    orte_regex_extract_node_names (Some r) = Some (OPAL_SUCCESS, names') ∧ names' ≡ₚ names.
Proof.
  intros Hne Hg Hsh. unfold orte_regex_create. destruct names as [|n [|n2 names]]; [done| |].
  - apply Forall_cons in Hg as [Hg _].
    pose proof (good_name_chars _ Hg) as [Hnn Hb]. simpl. rewrite app_nil_r.
    rewrite cut_none by (by apply good_name_no_comma).
    exists n, [n]. split_and!; [done| |done].
    unfold orte_regex_extract_node_names. cbn [extract_loop]. rewrite span_all by done.
    by rewrite bool_decide_eq_false_2.
  - assert (cut COMMA (Argv.join_ref COMMA (n :: n2 :: names)) =
            (n, Some (Argv.join_ref COMMA (n2 :: names)))) as ->
      by (rewrite join_ref_cons; apply cut_app, good_name_no_comma; by inversion Hg).
    destruct (create_loop_spec (n :: n2 :: names)
                (S (length (Argv.join_ref COMMA (n :: n2 :: names)))) [])
      as (ids & Hloop & Hwf & Hperm); try done.
    { pose proof (join_ref_length COMMA (n2 :: names)). rewrite join_ref_cons, length_app.
      pose proof (proj1 (good_name_chars n ltac:(by inversion Hg))).
      destruct n; [done|]. simpl in *. lia. }
    rewrite Hloop. cbn [mbind option_bind].
    assert (ids ≠ []) as Hidne.
    { intros ->. simpl in Hperm. by apply Permutation_nil in Hperm. }
    assert (omap print_node ids ≠ []) as Homap.
    { intros E. apply (f_equal length) in E. rewrite omap_print_length in E by done.
      by destruct ids. }
    rewrite foldl_append_None by done. rewrite Argv.join_eq. cbn [default].
    eexists _, _. split_and!; [reflexivity| |].
    + unfold orte_regex_extract_node_names. apply extract_nodes; [done|done|].
      rewrite <-omap_print_length by done. apply join_ref_length.
    + simpl. rewrite Hperm. simpl. by rewrite app_nil_r.
Qed.

(** C12. Compressing a comma-separated list of node names and expanding the result gives
    back the same names, each as often as it was listed, for lists of plain names
    (at most 50 letters, or characters with a dash or a dot among them) and of names with one number
    (fewer than 50 letters, digits of a value below INT_MAX, letters): none of these names
    is lost, invented or changed by the compression, whatever the order, the gaps and the
    zero padding.  A name with a second number is not such a name, and is changed. *)
Theorem orte_regex_round_trip names :
  names ≠ [] → Forall good_name names → Forall short names →
  ∃ r names', orte_regex_create (Argv.join_ref COMMA names) = Some r ∧
    orte_regex_extract_node_names (Some r) = Some (OPAL_SUCCESS, names') ∧ names' ≡ₚ names.
Proof. exact (create_extract names). Qed.

Lemma orte_regex_round_trip_witness :
  ∃ r names', orte_regex_create (lit "n03,n04,login") = Some r ∧
    orte_regex_extract_node_names (Some r) = Some (OPAL_SUCCESS, names') ∧
    names' ≡ₚ lit <$> ["n03"; "n04"; "login"].
Proof.
  change (lit "n03,n04,login") with (Argv.join_ref COMMA (lit <$> ["n03"; "n04"; "login"])).
  apply (orte_regex_round_trip (lit <$> ["n03"; "n04"; "login"])); [done| |].
  - apply Forall_forall. intros n Hn. apply good_nameb_good.
    cbn in Hn. set_unfold in Hn. by destruct Hn as [->|[->|[->|]]].
  - repeat constructor; by vm_compute.
Defined.

(** A name with a second number after its suffix is not such a name: the compressor
    counts the digits of the whole name but records only the first number, so
    what comes back is a different node. *)
Theorem orte_regex_second_number :
  orte_regex_create (lit "rack12node3,rack12node4") =
    Some (lit "rack[3:12]node3,rack[3:12]node4") ∧
  orte_regex_extract_node_names (Some (lit "rack[3:12]node3,rack[3:12]node4")) =
    Some (OPAL_SUCCESS, lit <$> ["rack012node3"; "rack012node4"]).
Proof. split; vm_compute; reflexivity. Qed.

End Regex.

(** * Expressions of orte/util/regex.c beside the node lists

    The number of processes on each node ([orte_regex_extract_ppn]) and the names of the
    rows of a configuration ([orte_regex_extract_name_range]). *)

Module RegexRange.
Import Argv.

(** ** Processes on each node *)

(** [for (i = 0; i < reps && j < num_nodes; i++) tmp[j++] = count;] with the [j] elements
    written so far. *)
Fixpoint put (reps : nat) (num_nodes count : Z) (out : list Z) : list Z :=
  match reps with
  | O => out
  | S reps => if Z.of_nat (length out) <? num_nodes then put reps num_nodes count (out ++ [count]) else out
  end.

(** The number and, in [(x...)], how often it is repeated; the rest of the text. *)
Definition read_group (begptr : cstring) : Z * Z * cstring :=
  let (count, endptr) := strtol begptr in
  match endptr with
  | "("%char :: "x"%char :: rest =>
      let (reps, endptr) := strtol rest in
      (to_int count, to_int reps, match endptr with ")"%char :: r => r | _ => endptr end)
  | _ => (to_int count, 1, endptr)
  end.

(** One round for each group; every further round consumes a comma. *)
Fixpoint ppn_loop (fuel : nat) (num_nodes : Z) (begptr : cstring) (out : list Z) : option (Z + list Z) :=
  match fuel with
  | O => None
  | S fuel =>
      let '(count, reps, endptr) := read_group begptr in
      let out := put (Z.to_nat (Z.min reps num_nodes)) num_nodes count out in
      match endptr with
      | c :: rest =>
          if ascii_eqb c COMMA then ppn_loop fuel num_nodes rest out
          else if num_nodes <=? Z.of_nat (length out) then Some (inr out) else Some (inl OPAL_ERR_BAD_PARAM)
      | [] => Some (inr out)
      end
  end.

(** A negative number of nodes asks for more memory than there is. *)
Definition orte_regex_extract_ppn (num_nodes : Z) (regexp : cstring) : option (Z + list Z) :=
  if num_nodes <? 0 then Some (inl OPAL_ERR_OUT_OF_RESOURCE) else
  r ← ppn_loop (S (length regexp)) num_nodes regexp [];
  Some (match r with
        | inl rc => inl rc
        | inr out => inr (out ++ replicate (Z.to_nat num_nodes - length out) 0)
        end).

(** ** Ranges of names *)

(** A [char] is signed. *)
Definition schar (c : ascii) : Z := swrap 8 (code c).
Definition char_of (z : Z) : ascii := ascii_of_nat (Z.to_nat (uwrap 8 z)).

(** [for (c = a; c <= b; c++)], 256 values at most before [c] starts over. *)
Fixpoint chars (fuel : nat) (c b : Z) : option (list ascii) :=
  match fuel with
  | O => None
  | S fuel => if c <=? b then rest ← chars fuel (swrap 8 (c + 1)) b; Some (char_of c :: rest) else Some []
  end.

(** The position of the last [c]: what comes before it and after it. *)
Fixpoint cut_last (c : ascii) (s : cstring) : option (cstring * cstring) :=
  match s with
  | [] => None
  | x :: s => match cut_last c s with
              | Some (a, b) => Some (x :: a, b)
              | None => if ascii_eqb x c then Some ([], s) else None
              end
  end.

(** The names with each character from [a] to [b]. *)
Definition char_names (pre post : cstring) (a b : Z) : option (list cstring) :=
  match chars 257 a b with
  | Some l => Some ((λ x, c_text (pre ++ x :: post)) <$> l)
  | None => None
  end.

(** One of the ranges: a value, or first and last character around a dash. *)
Definition expand_range (pre post r : cstring) : option (list cstring) :=
  match (cut DASH r).2 with
  | None => Some [pre ++ r ++ post]
  | Some _ =>
      match r with
      | a :: _ :: c :: _ => char_names pre post (schar a) (schar c)
      | [a; _] => char_names pre post (schar a) 0
      | _ => None
      end
  end.

Fixpoint expand_ranges (pre post : cstring) (l : list cstring) (names : argv_t) : option argv_t :=
  match l with
  | [] => Some names
  | r :: l => new ← expand_range pre post r; expand_ranges pre post l (fold_left append new names)
  end.

(** [tmp] is cut at the first opening bracket before the closing one is looked for: with
    a prefix it is looked for in the prefix. *)
Definition orte_regex_extract_name_range (regexp : cstring) (names : argv_t) : option (argv_t * Z) :=
  match cut LBRACKET regexp with
  | (_, None) => Some (append names regexp, OPAL_SUCCESS)
  | ([], Some b) =>
      match cut_last RBRACKET b with
      | None => Some (names, OPAL_ERR_BAD_PARAM)
      | Some (inner, post) =>
          rngs ← opal_argv_split inner COMMA;
          names ← expand_ranges [] post rngs names; Some (names, OPAL_SUCCESS)
      end
  | (pre, Some b) =>
      match cut_last RBRACKET pre with
      | None => Some (names, OPAL_ERR_BAD_PARAM)
      | Some (pre, post) =>
          rngs ← opal_argv_split b COMMA;
          names ← expand_ranges pre post rngs names; Some (names, OPAL_SUCCESS)
      end
  end.

(** ** What they do *)

Lemma put_spec reps num count : ∀ out, Z.of_nat (length out) ≤ num →
  put reps num count out = take (Z.to_nat num) (out ++ replicate reps count).
Proof.
  induction reps as [|reps IH]; intros out Hle; cbn [put]; [rewrite app_nil_r, take_ge by lia; done|].
  destruct (Z.ltb_spec (Z.of_nat (length out)) num).
  - rewrite IH by (rewrite length_app; simpl; lia). by rewrite <-app_assoc.
  - rewrite take_app_le, take_ge by lia. done.
Qed.

(** A group as it is written: [c(xr)]. *)
Definition group_text (g : Z * Z) : cstring := print_unsigned g.1 ++ lit "(x" ++ print_unsigned g.2 ++ lit ")".
Fixpoint groups_text (gs : list (Z * Z)) : cstring :=
  match gs with
  | [] => []
  | [g] => group_text g
  | g :: gs => group_text g ++ COMMA :: groups_text gs
  end.

Definition group_ok (g : Z * Z) : Prop := 0 ≤ g.1 ≤ INT_MAX ∧ 0 ≤ g.2 ≤ INT_MAX.

Lemma read_group_text g rest : group_ok g →
  read_group (group_text g ++ rest) = (g.1, g.2, rest).
Proof.
  destruct g as [c r]. intros [Hc Hr]. cbn [fst snd] in *. unfold read_group, group_text. cbn [fst snd].
  rewrite <-!app_assoc. unfold INT_MAX in *. rewrite strtol_print; [|unfold LONG_MAX; lia|by intros ? ? [= <- _]].
  cbn [lit app String.list_ascii_of_string]. rewrite strtol_print; [|unfold LONG_MAX; lia|by intros ? ? [= <- _]].
  by rewrite !to_int_small by (unfold INT_MAX; lia).
Qed.

Lemma take_replicate_min {A} n k (x : A) l : take n (l ++ replicate (k `min` n) x) = take n (l ++ replicate k x).
Proof.
  destruct (decide (k ≤ n)%nat); [by rewrite Nat.min_l|]. rewrite Nat.min_r by lia.
  rewrite !take_app. f_equal. rewrite !take_replicate. f_equal. lia.
Qed.

Lemma ppn_loop_spec num gs : 0 ≤ num → gs ≠ [] → Forall group_ok gs → ∀ fuel out,
  (length gs ≤ fuel)%nat → Z.of_nat (length out) ≤ num →
  ppn_loop fuel num (groups_text gs) out =
  Some (inr (take (Z.to_nat num) (out ++ concat ((λ g, replicate (Z.to_nat g.2) g.1) <$> gs)))).
Proof.
  intros Hn Hne Hok. induction Hok as [|g gs Hg Hok IH]; [done|]. intros [|fuel] out Hf Hl; [simpl in Hf; lia|].
  assert (∀ rest, groups_text (g :: gs) = group_text g ++ rest → ppn_loop (S fuel) num (groups_text (g :: gs)) out =
    let out' := take (Z.to_nat num) (out ++ replicate (Z.to_nat g.2) g.1) in
    match rest with
    | [] => Some (inr out')
    | c :: rest => if ascii_eqb c COMMA then ppn_loop fuel num rest out'
        else if num <=? Z.of_nat (length out') then Some (inr out') else Some (inl OPAL_ERR_BAD_PARAM)
    end) as Hstep.
  { intros rest ->. cbn [ppn_loop]. rewrite read_group_text by done. rewrite put_spec by done.
    replace (Z.to_nat (Z.min g.2 num)) with (Z.to_nat g.2 `min` Z.to_nat num)%nat by (destruct Hg; lia).
    by rewrite take_replicate_min. }
  destruct gs as [|g' gs].
  - rewrite (Hstep []) by (symmetry; apply app_nil_r). cbn. by rewrite app_nil_r.
  - rewrite (Hstep (COMMA :: groups_text (g' :: gs))) by done. cbn zeta. cbn [ascii_eqb]. rewrite (proj2 (ascii_eqb_eq _ _) eq_refl).
    rewrite IH by (done || (simpl in *; lia) || (rewrite length_take; lia)). do 2 f_equal.
    cbn [fmap list_fmap concat]. set (y := replicate (Z.to_nat g.2) g.1). set (z := _ ++ concat _).
    rewrite app_assoc. generalize (out ++ y). intros w. destruct (decide (Z.to_nat num ≤ length w)%nat).
    + rewrite !take_app_le by (rewrite ?length_take; lia). by rewrite take_take, Nat.min_id.
    + by rewrite (take_ge w) by lia.
Qed.

(** The processes on each node: an expression written as groups of a number and its
    repetitions expands to the repeated numbers, cut at the number of nodes and filled up
    with zeros. *)
Theorem ppn_expands num gs : 0 ≤ num → gs ≠ [] → Forall group_ok gs →
  ∃ ppn, orte_regex_extract_ppn num (groups_text gs) = Some (inr ppn) ∧ length ppn = Z.to_nat num ∧
    ∀ k, (k < Z.to_nat num)%nat →
      ppn !! k = Some (default 0 (concat ((λ g, replicate (Z.to_nat g.2) g.1) <$> gs) !! k)).
Proof.
  intros Hn Hne Hok. unfold orte_regex_extract_ppn. destruct (Z.ltb_spec num 0); [lia|].
  assert (length gs ≤ S (length (groups_text gs)))%nat as Hf.
  { clear. induction gs as [|g [|g' gs] IH]; [simpl; lia|simpl; lia|].
    cbn [groups_text length] in *. rewrite length_app. cbn [length] in *. lia. }
  rewrite (ppn_loop_spec num gs) by (done || (simpl; lia)). cbn [mbind option_bind].
  set (l := concat _). eexists. split; [reflexivity|]. cbn [app]. rewrite length_app, length_replicate, length_take. split; [lia|].
  intros k Hk. destruct (decide (k < length l)%nat).
  - rewrite lookup_app_l by (rewrite length_take; lia). rewrite lookup_take_lt by lia.
    destruct (lookup_lt_is_Some_2 l k) as [x Ex]; [done|]. by rewrite Ex.
  - rewrite lookup_app_r by (rewrite length_take; lia). rewrite (lookup_ge_None_2 l k) by lia.
    apply lookup_replicate. split; [done|]. rewrite length_take. lia.
Qed.

Lemma ppn_expands_witness :
  ∃ ppn, orte_regex_extract_ppn 5 (lit "4(x3),1(x7)") = Some (inr ppn) ∧ ppn !! 2%nat = Some 4 ∧ ppn !! 3%nat = Some 1.
Proof.
  destruct (ppn_expands 5 [(4, 3); (1, 7)]) as (ppn & E & _ & H); [lia|done|forall_list|].
  exists ppn. split; [exact E|]. split; [exact (H 2%nat ltac:(lia))|exact (H 3%nat ltac:(lia))].
Defined.

Lemma chars_spec b : b < 127 → ∀ fuel a, 0 ≤ a → Z.max 0 (b - a + 1) < Z.of_nat fuel →
  chars fuel a b = Some (char_of <$> seqZ a (b - a + 1)).
Proof.
  intros Hb. induction fuel as [|fuel IH]; intros a Ha Hf.
  - lia.
  - cbn [chars]. destruct (Z.leb_spec a b) as [Hle|Hgt].
    + assert (swrap 8 (a + 1) = a + 1) as -> by (unfold swrap; rewrite Z.mod_small by lia; zbool; lia).
      rewrite IH by lia. cbn [mbind option_bind]. rewrite (seqZ_cons a) by lia. cbn. do 3 f_equal. f_equal. lia.
    + by rewrite seqZ_nil by lia.
Qed.

Lemma cut_last_none c s : Forall (λ x, x ≠ c) s → cut_last c s = None.
Proof.
  induction 1 as [|x s Hx _ IH]; [done|]. cbn. rewrite IH. by rewrite (proj2 (ascii_eqb_neq x c) Hx).
Qed.

Lemma cut_last_app c a b : Forall (λ x, x ≠ c) b → cut_last c (a ++ c :: b) = Some (a, b).
Proof.
  intros Hb. induction a as [|x a IH]; cbn; [|by rewrite IH].
  rewrite cut_last_none by done. by rewrite (proj2 (ascii_eqb_eq c c) eq_refl).
Qed.

Lemma fold_append l : ∀ names, fold_left append l names = match l with [] => names | _ => Some (default [] names ++ l) end.
Proof.
  induction l as [|x l IH]; intros names; [done|]. cbn [fold_left]. rewrite IH.
  destruct l as [|y l]; [done|]. cbn. by rewrite <-app_assoc.
Qed.

Lemma schar_small c : 0 < code c < 127 → schar c = code c.
Proof. intros Hc. unfold schar, swrap. rewrite Z.mod_small by lia. zbool; lia. Qed.

(** The names of rows: text without an opening bracket is one name; a range of
    characters in brackets at the front gives one name for each character, in order; a
    range after a prefix is refused, whatever follows. *)
Theorem name_range_spec names :
  (∀ s, Forall (λ c, c ≠ LBRACKET) s → orte_regex_extract_name_range s names = Some (append names s, OPAL_SUCCESS)) ∧
  (∀ a b post, 0 < code a → code a ≤ code b < 127 → a ≠ COMMA → b ≠ COMMA →
    Forall (λ c, c ≠ RBRACKET ∧ c ≠ NUL) post →
    orte_regex_extract_name_range (LBRACKET :: a :: DASH :: b :: RBRACKET :: post) names =
    Some (Some (default [] names ++ ((λ c, char_of c :: post) <$> seqZ (code a) (code b - code a + 1))), OPAL_SUCCESS)) ∧
  (∀ pre rest, pre ≠ [] → Forall (λ c, c ≠ LBRACKET ∧ c ≠ RBRACKET) pre →
    orte_regex_extract_name_range (pre ++ LBRACKET :: rest) names = Some (names, OPAL_ERR_BAD_PARAM)).
Proof.
  unfold orte_regex_extract_name_range. split_and!.
  - intros s Hs. rewrite (cut_none LBRACKET s Hs). by destruct s.
  - intros a b post Ha Hb Hac Hbc Hp.
    rewrite (cut_app LBRACKET [] _ (Forall_nil_2 _) : cut LBRACKET (LBRACKET :: a :: DASH :: b :: RBRACKET :: post) = _).
    change (a :: DASH :: b :: RBRACKET :: post) with ([a; DASH; b] ++ RBRACKET :: post).
    rewrite cut_last_app by (eapply Forall_impl; [exact Hp|]; by intros ? [? _]).
    assert (opal_argv_split [a; DASH; b] COMMA = Some [[a; DASH; b]]) as ->.
    { unfold opal_argv_split, opal_argv_split_inter. cbn [length split_loop span].
      by rewrite (proj2 (ascii_eqb_neq a COMMA) Hac), (proj2 (ascii_eqb_neq b COMMA) Hbc). }
    cbn [mbind option_bind expand_ranges]. unfold expand_range.
    assert ((cut DASH [a; DASH; b]).2 ≠ None) as Hd.
    { unfold cut. cbn [span]. destruct (ascii_eqb a DASH); [done|]. cbn [negb span].
      by rewrite (proj2 (ascii_eqb_eq DASH DASH) eq_refl). }
    destruct (cut DASH [a; DASH; b]).2; [|done]. unfold char_names.
    rewrite !schar_small, chars_spec by lia. cbn [mbind option_bind]. rewrite fold_append.
    rewrite seqZ_cons by lia. cbn [fmap list_fmap]. rewrite <-list_fmap_compose. do 3 f_equal.
    assert (∀ c, code a ≤ c ≤ code b → c_text ([] ++ char_of c :: post) = char_of c :: post) as Hc.
    { intros c Hc. unfold c_text. cbn [app]. rewrite cut_none; [done|]. constructor.
      - intros E. apply (f_equal code) in E. unfold char_of, code, uwrap in E. rewrite Z.mod_small in E by lia.
        rewrite nat_ascii_embedding in E by lia. change (nat_of_ascii NUL) with 0%nat in E. lia.
      - eapply Forall_impl; [exact Hp|]. by intros ? [_ ?]. }
    rewrite Hc by lia. do 2 f_equal. apply list_fmap_ext. intros i c Hi. apply lookup_seqZ in Hi as [-> Hi]. apply Hc. lia.
  - intros pre rest Hne Hp. rewrite cut_app by (eapply Forall_impl; [exact Hp|]; by intros ? [? _]).
    destruct pre as [|c pre]; [done|].
    by rewrite cut_last_none by (eapply Forall_impl; [exact Hp|]; by intros ? [_ ?]).
Qed.

End RegexRange.
