(* ===== verification/Environ.v ===== *)
(** * Environments (opal/util/opal_environ.c)

    Arrays of strings of the form [name=value] other than the environment of the process
    itself.  They act as maps from names to values. *)

From Stdlib Require Import ZArith Lia Ascii.
From stdpp Require Import prelude numbers strings gmap list.
From S2P Require Import Prelude CString Argv.

Local Open Scope Z_scope.

Module Environ.
Import Argv.

Definition EQUALS : ascii := "="%char.
Definition OPAL_EXISTS : Z := -14.

(** [0 == strncmp(s, compare, strlen(compare))] *)
Fixpoint starts_with (compare s : cstring) : bool :=
  match compare, s with
  | [], _ => true
  | c :: compare, x :: s => ascii_eqb x c && starts_with compare s
  | _ :: _, [] => false
  end.

(** The first entry of the name is replaced or refused, or a new one is appended. *)
Definition opal_setenv (name : cstring) (value : option cstring) (overwrite : bool) (env : argv_t) : argv_t * Z :=
  let newvalue := name ++ EQUALS :: default [] value in
  match env with
  | None => (append None newvalue, OPAL_SUCCESS)
  | Some l =>
      match first_from (starts_with (name ++ [EQUALS])) l 0 (length l) with
      | Some i => if overwrite then (Some (<[i := newvalue]> l), OPAL_SUCCESS) else (Some l, OPAL_EXISTS)
      | None => (append (Some l) newvalue, OPAL_SUCCESS)
      end
  end.

(** The entries behind it move down by one. *)
Definition opal_unsetenv (name : cstring) (env : argv_t) : argv_t * Z :=
  match env with
  | None => (None, OPAL_SUCCESS)
  | Some l =>
      match first_from (starts_with (name ++ [EQUALS])) l 0 (length l) with
      | Some i => (Some (delete i l), OPAL_SUCCESS)
      | None => (Some l, OPAL_ERR_NOT_FOUND)
      end
  end.

(** An entry of [minor], set when [ret] has none of the name. *)
Definition merge_entry (ret : argv_t) (entry : cstring) : argv_t :=
  match cut EQUALS entry with
  | (name, None) => (opal_setenv name None false ret).1
  | (name, Some value) => (opal_setenv name (Some value) false ret).1
  end.

Definition opal_environ_merge (minor major : argv_t) : argv_t :=
  match major, minor with
  | None, None => None
  | None, Some m => opal_argv_copy (Some m)
  | Some l, None => opal_argv_copy (Some l)
  | Some l, Some m => fold_left merge_entry m (opal_argv_copy (Some l))
  end.

(** ** The map of an environment *)

(** The value of the name in an entry. *)
Fixpoint entry_value (compare s : cstring) : option cstring :=
  match compare, s with
  | [], s => Some s
  | c :: compare, x :: s => if ascii_eqb x c then entry_value compare s else None
  | _ :: _, [] => None
  end.

(** [getenv]: the value in the first entry of the name. *)
Fixpoint lookup_env (name : cstring) (l : list cstring) : option cstring :=
  match l with
  | [] => None
  | e :: l => match entry_value (name ++ [EQUALS]) e with
              | Some v => Some v
              | None => lookup_env name l
              end
  end.

Definition clean (name : cstring) : Prop := Forall (λ c, c ≠ EQUALS) name.

Lemma starts_value compare s : starts_with compare s = match entry_value compare s with Some _ => true | None => false end.
Proof.
  revert s. induction compare as [|c compare IH]; intros s; [done|]. destruct s as [|x s]; [done|]. cbn.
  destruct (ascii_eqb x c); [apply IH|done].
Qed.

Lemma entry_value_new name v : entry_value (name ++ [EQUALS]) (name ++ EQUALS :: v) = Some v.
Proof. induction name as [|c name IH]; cbn; by rewrite (proj2 (ascii_eqb_eq _ _) eq_refl). Qed.

(** An entry has one name. *)
Lemma entry_value_other name name' v : clean name → clean name' → name ≠ name' →
  entry_value (name' ++ [EQUALS]) (name ++ EQUALS :: v) = None.
Proof.
  intros Hn Hn' Hne. revert name' Hn' Hne. induction Hn as [|c name Hc _ IH]; intros name' Hn' Hne.
  - destruct Hn' as [|c' name' Hc' _]; [done|]. cbn. by rewrite (proj2 (ascii_eqb_neq EQUALS c') (not_eq_sym Hc')).
  - destruct Hn' as [|c' name' Hc' Hn']; cbn; [by rewrite (proj2 (ascii_eqb_neq c EQUALS) Hc)|].
    destruct (ascii_eqb c c') eqn:E; [|done]. apply ascii_eqb_eq in E as ->. apply IH; [done|congruence].
Qed.

Lemma value_unique name name' e v : clean name → clean name' → entry_value (name ++ [EQUALS]) e = Some v →
  name ≠ name' → entry_value (name' ++ [EQUALS]) e = None.
Proof.
  intros Hn Hn' E. assert (e = name ++ EQUALS :: v) as ->; [|by apply entry_value_other].
  clear Hn Hn'. revert e E. induction name as [|c name IH]; intros [|x e] E; cbn in E; try done;
    destruct (ascii_eqb x _) eqn:Ex; try done; apply ascii_eqb_eq in Ex as ->; [by injection E as ->|].
  cbn. f_equal. by apply IH.
Qed.

Lemma lookup_env_app name l1 l2 : lookup_env name (l1 ++ l2) =
  match lookup_env name l1 with Some v => Some v | None => lookup_env name l2 end.
Proof. induction l1 as [|e l1 IH]; [done|]. cbn. by destruct (entry_value _ e). Qed.

(** Where the name stands first. *)
Lemma first_entry name l :
  match first_from (starts_with (name ++ [EQUALS])) l 0 (length l) with
  | Some i => ∃ l1 e l2 v, l = l1 ++ e :: l2 ∧ length l1 = i ∧ lookup_env name l1 = None ∧
      entry_value (name ++ [EQUALS]) e = Some v
  | None => lookup_env name l = None
  end.
Proof.
  assert (∀ l, (∀ e, e ∈ l → starts_with (name ++ [EQUALS]) e = false) → lookup_env name l = None) as Hnone.
  { clear l. induction l as [|e l IH]; intros Hl; [done|]. cbn. pose proof (Hl e ltac:(by left)) as He.
    rewrite starts_value in He. destruct (entry_value _ e); [done|]. apply IH. intros e' He'. apply Hl. by right. }
  destruct (first_from _ l 0 (length l)) as [i|] eqn:E.
  - apply first_from_Some in E as (Hi & (e & Ei & He) & Hbefore). rewrite starts_value in He.
    destruct (entry_value (name ++ [EQUALS]) e) as [v|] eqn:Ev; [|done].
    exists (take i l), e, (drop (S i) l), v. split_and!; [by rewrite take_drop_middle|apply length_take_le; lia| |done].
    apply Hnone. intros e' (j & Hj)%list_elem_of_lookup. apply lookup_take_Some in Hj as [Hj Hlt].
    by apply (Hbefore j e'); [lia|].
  - apply Hnone. intros e (j & Hj)%list_elem_of_lookup. apply (first_from_None _ _ _ _ E ltac:(lia) j); [|done].
    apply lookup_lt_Some in Hj. lia.
Qed.

(** Setting a name in an environment that is there. *)
Lemma setenv_run name v l b : clean name →
  ∃ l' rc, opal_setenv name v b (Some l) = (Some l', rc) ∧
    (rc = OPAL_EXISTS ↔ b = false ∧ lookup_env name l ≠ None) ∧ (rc = OPAL_EXISTS ∨ rc = OPAL_SUCCESS) ∧
    (rc = OPAL_EXISTS → l' = l) ∧
    ∀ n, clean n → lookup_env n l' = if bool_decide (n = name ∧ rc = OPAL_SUCCESS) then Some (default [] v) else lookup_env n l.
Proof.
  intros Hn. unfold opal_setenv. pose proof (first_entry name l) as Hf.
  destruct (first_from _ l 0 (length l)) as [i|].
  - destruct Hf as (l1 & e & l2 & w & -> & <- & Hl1 & He).
    assert (lookup_env name (l1 ++ e :: l2) = Some w) as Hw by (rewrite lookup_env_app, Hl1; cbn; by rewrite He).
    destruct b.
    + eexists _, _. split; [reflexivity|]. split_and!; [by split; [done|intros [? ?]]|by right|done|].
      intros n Hcn. rewrite insert_app_r_alt, Nat.sub_diag by lia. cbn [insert list_insert].
      rewrite !lookup_env_app. cbn [lookup_env]. case_bool_decide as Hc.
      * destruct Hc as [-> _]. by rewrite Hl1, entry_value_new.
      * rewrite entry_value_other by (done || naive_solver).
        by rewrite (value_unique name n e w) by (done || naive_solver).
    + eexists _, _. split; [reflexivity|]. split_and!; [split; [by rewrite Hw|done]|by left|done|].
      intros n Hcn. by rewrite bool_decide_false by (intros [? ?]; done).
  - eexists _, _. split; [reflexivity|]. split_and!; [by split; [done|intros [? ?]]|by right|done|].
    intros n Hcn. rewrite lookup_env_app. cbn [lookup_env default from_option id]. case_bool_decide as Hc.
    + destruct Hc as [-> _]. by rewrite Hf, entry_value_new.
    + rewrite entry_value_other by (done || naive_solver). by destruct (lookup_env n l).
Qed.

(** An entry without a value counts as one with the empty value. *)
Definition with_value (e : cstring) : cstring :=
  match cut EQUALS e with (name, None) => name ++ [EQUALS] | (name, Some v) => name ++ EQUALS :: v end.

Lemma cut_clean e : clean (cut EQUALS e).1.
Proof.
  unfold cut. destruct (span _ e) as [a b] eqn:E. apply span_eq in E as (_ & Ha & _).
  assert (clean a) by (eapply Forall_impl; [exact Ha|]; intros c Hc; by apply negb_true_iff, ascii_eqb_neq in Hc).
  by destruct b.
Qed.

Lemma merge_entry_run l e :
  ∃ l', merge_entry (Some l) e = Some l' ∧ ∀ n, clean n → lookup_env n l' = lookup_env n (l ++ [with_value e]).
Proof.
  unfold merge_entry, with_value. pose proof (cut_clean e) as Hc. destruct (cut EQUALS e) as [name v]. cbn [fst] in Hc.
  assert (∃ l', (opal_setenv name v false (Some l)).1 = Some l' ∧
    ∀ n, clean n → lookup_env n l' = lookup_env n (l ++ [name ++ EQUALS :: default [] v])) as (l' & E & H).
  { destruct (setenv_run name v l false Hc) as (l' & rc & -> & Hrc & Hor & Hsame & Hl). exists l'. split; [done|].
    intros n Hn. rewrite (Hl n Hn), lookup_env_app. cbn [lookup_env]. case_bool_decide as Hd.
    - destruct Hd as [-> ->]. rewrite entry_value_new.
      destruct (lookup_env name l) eqn:El; [|done]. exfalso. assert (OPAL_SUCCESS = OPAL_EXISTS) by (by apply Hrc).
      done.
    - destruct (decide (n = name)) as [->|Hne].
      + assert (rc = OPAL_EXISTS) as Hex by (destruct Hor; [done|naive_solver]).
        destruct (proj1 Hrc Hex) as [_ Hs]. by destruct (lookup_env name l).
      + rewrite entry_value_other by (done || congruence). by destruct (lookup_env n l). }
  exists l'. destruct v as [v|]; (split; [exact E|exact H]).
Qed.

Lemma argv_copy_id l : opal_argv_copy (Some l) = Some l.
Proof.
  change l with ([] ++ l) at 2. unfold opal_argv_copy. generalize (@nil cstring).
  induction l as [|x l IH]; intros a; cbn [foldl]; [by rewrite app_nil_r|]. change (append (Some a) x) with (Some (a ++ [x])). by rewrite IH, <-app_assoc.
Qed.

Lemma merge_run m : ∀ l, ∃ l', fold_left merge_entry m (Some l) = Some l' ∧
  ∀ n, clean n → lookup_env n l' = lookup_env n (l ++ (with_value <$> m)).
Proof.
  induction m as [|e m IH]; intros l; [exists l; by rewrite app_nil_r|]. cbn [fold_left].
  destruct (merge_entry_run l e) as (l1 & -> & H1). destruct (IH l1) as (l2 & -> & H2). exists l2. split; [done|].
  intros n Hn. rewrite (H2 n Hn), lookup_env_app, (H1 n Hn), !lookup_env_app. cbn [fmap list_fmap lookup_env].
  destruct (lookup_env n l), (entry_value (n ++ [EQUALS]) (with_value e)); done.
Qed.

(** An environment is a map from names to values: setting a name changes that name
    only, and is refused exactly when the name is there and may not be overwritten;
    unsetting touches no other name; a merge gives every name its value in [major], or else
    its first value in [minor]. *)
Theorem environ_is_map l name v : clean name →
  (∀ b, ∃ l' rc, opal_setenv name (Some v) b (Some l) = (Some l', rc) ∧
     (rc = OPAL_EXISTS ↔ b = false ∧ lookup_env name l ≠ None) ∧ (rc = OPAL_EXISTS ∨ rc = OPAL_SUCCESS) ∧
     ∀ n, clean n → lookup_env n l' = if bool_decide (n = name ∧ rc = OPAL_SUCCESS) then Some v else lookup_env n l) ∧
  (∃ l' rc, opal_unsetenv name (Some l) = (Some l', rc) ∧ (rc = OPAL_ERR_NOT_FOUND ↔ lookup_env name l = None) ∧
     ∀ n, clean n → n ≠ name → lookup_env n l' = lookup_env n l) ∧
  (∀ m, ∃ l', opal_environ_merge (Some m) (Some l) = Some l' ∧
     ∀ n, clean n → lookup_env n l' = match lookup_env n l with Some x => Some x | None => lookup_env n (with_value <$> m) end).
Proof.
  intros Hn. split_and!.
  - intros b. destruct (setenv_run name (Some v) l b Hn) as (l' & rc & E & H1 & H2 & _ & H3). by exists l', rc.
  - unfold opal_unsetenv. pose proof (first_entry name l) as Hf. destruct (first_from _ l 0 (length l)) as [i|].
    + destruct Hf as (l1 & e & l2 & w & -> & <- & Hl1 & He). eexists _, _. split; [reflexivity|]. split.
      * split; [done|]. rewrite lookup_env_app, Hl1. cbn. by rewrite He.
      * intros n Hcn Hne. rewrite delete_middle, !lookup_env_app. cbn [lookup_env].
        by rewrite (value_unique name n e w) by (done || congruence).
    + eexists _, _. split; [reflexivity|]. by split.
  - intros m. destruct (merge_run m l) as (l' & E & H). exists l'. unfold opal_environ_merge. rewrite argv_copy_id. split; [exact E|].
    intros n Hcn. by rewrite (H n Hcn), lookup_env_app.
Qed.

Lemma environ_is_map_witness :
  ∃ l', opal_environ_merge (Some [lit "A=2"; lit "B"; lit "C=3"]) (Some [lit "A=1"]) = Some l' ∧
    lookup_env (lit "A") l' = Some (lit "1") ∧ lookup_env (lit "C") l' = Some (lit "3").
Proof.
  destruct (environ_is_map [lit "A=1"] (lit "A") (lit "1")) as (_ & _ & H); [forall_list|].
  destruct (H [lit "A=2"; lit "B"; lit "C=3"]) as (l' & E & Hl). exists l'. split; [exact E|].
  split; [exact (Hl (lit "A") ltac:(forall_list))|exact (Hl (lit "C") ltac:(forall_list))].
Defined.

End Environ.
