(* ===== verification/Dss.v ===== *)
(** * The data serialisation service (opal/dss)

    A buffer keeps the packed bytes and the offset of the next byte to unpack;
    integers travel in network order, the sizes of the generic types ([bool],
    [int], [size_t], [pid_t]) travel with the data.  Packing and unpacking are
    computations on a buffer that end with an error code or a value; [None] is a
    computation without defined behaviour.  Memory allocation succeeds, except
    for the requests of a negative number of bytes that unpacking can make.

    The table of registered types is a record [opal_dss_type_info_t] per type, with
    its pack and unpack functions; [Codec] is what a registered type promises:
    what its pack function appends to a buffer, its unpack function reads back,
    and nothing more. *)

From Stdlib Require Import ZArith Lia Ascii.
From stdpp Require Import prelude numbers strings gmap list.
From S2P Require Import Prelude CString.

Local Open Scope Z_scope.

Module Dss.

(** ** Type identifiers (dss_types.h) *)

Definition OPAL_BYTE : Z := 1.
Definition OPAL_BOOL : Z := 2.
Definition OPAL_STRING : Z := 3.
Definition OPAL_SIZE : Z := 4.
Definition OPAL_PID : Z := 5.
Definition OPAL_INT : Z := 6.
Definition OPAL_INT8 : Z := 7.
Definition OPAL_INT16 : Z := 8.
Definition OPAL_INT32 : Z := 9.
Definition OPAL_INT64 : Z := 10.
Definition OPAL_UINT : Z := 11.
Definition OPAL_UINT8 : Z := 12.
Definition OPAL_UINT16 : Z := 13.
Definition OPAL_UINT32 : Z := 14.
Definition OPAL_UINT64 : Z := 15.
Definition OPAL_FLOAT : Z := 16.
Definition OPAL_TIMEVAL : Z := 18.
Definition OPAL_TIME : Z := 19.
Definition OPAL_BYTE_OBJECT : Z := 20.
Definition OPAL_DATA_TYPE : Z := 21.
Definition OPAL_PTR : Z := 28.
Definition OPAL_NAME : Z := 50.
Definition OPAL_JOBID : Z := 51.
Definition OPAL_VPID : Z := 52.

(** The results of a comparison. *)
Definition OPAL_EQUAL : Z := 0.
Definition OPAL_VALUE1_GREATER : Z := 1.
Definition OPAL_VALUE2_GREATER : Z := -1.

(** The identifiers the generic types travel under, on a machine with 1-byte
    [bool], 4-byte [int] and [pid_t] and 8-byte [size_t]. *)
Definition OPAL_DATA_TYPE_T : Z := OPAL_UINT8.
Definition DSS_TYPE_BOOL : Z := OPAL_UINT8.
Definition DSS_TYPE_INT : Z := OPAL_INT32.
Definition DSS_TYPE_UINT : Z := OPAL_UINT32.
Definition DSS_TYPE_SIZE_T : Z := OPAL_UINT64.
Definition DSS_TYPE_PID_T : Z := OPAL_UINT32.

(** ** Buffers *)

(** [pack_ptr] is always [base_ptr + bytes_used], so the packed bytes are the
    list and [bytes_used] is its length. *)
Record opal_buffer_t := mk_buf {
  fully_desc : bool;
  base : list Z;
  unpack_off : nat;
  bytes_allocated : Z;
}.

Definition bytes_used (b : opal_buffer_t) : Z := Z.of_nat (length (base b)).

Definition opal_dss_initial_size : Z := 128.
Definition opal_dss_threshold_size : Z := 1024.

(** [while (to_alloc < required) to_alloc <<= 1;] *)
Fixpoint double_until (fuel : nat) (to_alloc required : Z) : Z :=
  match fuel with
  | O => to_alloc
  | S f => if to_alloc <? required then double_until f (Z.shiftl to_alloc 1) required else to_alloc
  end.

Definition opal_dss_buffer_extend (b : opal_buffer_t) (bytes_to_add : Z) : opal_buffer_t :=
  if bytes_to_add <=? bytes_allocated b - bytes_used b then b else
  let required := bytes_used b + bytes_to_add in
  let to_alloc :=
    if opal_dss_threshold_size <=? required
    then (required + opal_dss_threshold_size - 1) / opal_dss_threshold_size * opal_dss_threshold_size
    else double_until 11 (if bytes_allocated b =? 0 then opal_dss_initial_size
                          else bytes_allocated b) required in
  mk_buf (fully_desc b) (base b) (unpack_off b) to_alloc.

(** [memcpy] at [pack_ptr], which then moves past the copied bytes. *)
Definition store (bs : list Z) (b : opal_buffer_t) : opal_buffer_t :=
  mk_buf (fully_desc b) (base b ++ bs) (unpack_off b) (bytes_allocated b).

Definition remaining (b : opal_buffer_t) : list Z := drop (unpack_off b) (base b).

Definition skip (b : opal_buffer_t) (n : nat) : opal_buffer_t :=
  mk_buf (fully_desc b) (base b) (unpack_off b + n) (bytes_allocated b).

Definition opal_dss_too_small (b : opal_buffer_t) (bytes_reqd : Z) : bool :=
  if Z.of_nat (length (base b)) <? Z.of_nat (unpack_off b) then true
  else Z.of_nat (length (base b)) - Z.of_nat (unpack_off b) <? bytes_reqd.

(** ** Computations on a buffer *)

Definition M (A : Type) : Type := opal_buffer_t → option (opal_buffer_t * (Z + A)).

#[export] Instance M_ret : MRet M := λ A a b, Some (b, inr a).
#[export] Instance M_bind : MBind M := λ A B k m b,
  match m b with
  | Some (b', inr a) => k a b'
  | Some (b', inl rc) => Some (b', inl rc)
  | None => None
  end.

Definition fail {A} (rc : Z) : M A := λ b, Some (b, inl rc).
(** The value of a variable that was never written. *)
Definition undefined {A} : M A := λ _, None.
Definition is_desc : M bool := λ b, Some (b, inr (fully_desc b)).

(** The variable an unpack of one value fills. *)
Definition only {A} (l : list A) : M A :=
  match l with [a] => mret a | _ => undefined end.

(** ** Big-endian integers ([htons], [htonl], [hton64] and back) *)

Fixpoint be_bytes (n : nat) (v : Z) : list Z :=
  match n with
  | O => []
  | S n' => (v / 256 ^ Z.of_nat n') mod 256 :: be_bytes n' v
  end.

Definition be_val (bs : list Z) : Z := fold_left (λ a x, 256 * a + x) bs 0.

(** ** Raw bytes and fixed-width integers *)

Definition opal_dss_pack_byte (src : list Z) : M unit := λ b,
  Some (store src (opal_dss_buffer_extend b (Z.of_nat (length src))), inr tt).

(** The loop of [pack_int16], [pack_int32] and [pack_int64] over [w]-byte values. *)
Definition pack_words (w : nat) (src : list Z) : M unit := λ b,
  Some (store (concat (be_bytes w <$> src))
          (opal_dss_buffer_extend b (Z.of_nat (length src) * Z.of_nat w)), inr tt).

Definition opal_dss_pack_int16 : list Z → M unit := pack_words 2.
Definition opal_dss_pack_int32 : list Z → M unit := pack_words 4.
Definition opal_dss_pack_int64 : list Z → M unit := pack_words 8.

Definition opal_dss_unpack_byte (num_vals : Z) : M (list Z) := λ b,
  if opal_dss_too_small b (uwrap 64 num_vals)
  then Some (b, inl OPAL_ERR_UNPACK_READ_PAST_END_OF_BUFFER)
  else let n := Z.to_nat num_vals in Some (skip b n, inr (take n (remaining b))).

Fixpoint unpack_loop (w : nat) (n : nat) (b : opal_buffer_t) : opal_buffer_t * list Z :=
  match n with
  | O => (b, [])
  | S n' =>
    let tmp := be_val (take w (remaining b)) in
    let (b', vs) := unpack_loop w n' (skip b w) in (b', tmp :: vs)
  end.

Definition unpack_words (w : nat) (num_vals : Z) : M (list Z) := λ b,
  if opal_dss_too_small b (uwrap 64 (num_vals * Z.of_nat w))
  then Some (b, inl OPAL_ERR_UNPACK_READ_PAST_END_OF_BUFFER)
  else let (b', vs) := unpack_loop w (Z.to_nat num_vals) b in Some (b', inr vs).

Definition opal_dss_unpack_int16 : Z → M (list Z) := unpack_words 2.
Definition opal_dss_unpack_int32 : Z → M (list Z) := unpack_words 4.
Definition opal_dss_unpack_int64 : Z → M (list Z) := unpack_words 8.

(** ** The registered types *)

Record opal_dss_type_info_t (A : Type) := mk_info {
  odti_type : Z;
  odti_pack_fn : list A → M unit;
  odti_unpack_fn : Z → M (list A);
}.
Arguments mk_info {A}.
Arguments odti_type {A}.
Arguments odti_pack_fn {A}.
Arguments odti_unpack_fn {A}.

(** The destination array is read at the type of its elements. *)
Definition read_as (f : Z → Z) (m : M (list Z)) : M (list Z) := l ← m; mret (f <$> l).

Definition t_byte : opal_dss_type_info_t Z := mk_info OPAL_BYTE opal_dss_pack_byte opal_dss_unpack_byte.
Definition t_uint8 : opal_dss_type_info_t Z := mk_info OPAL_UINT8 opal_dss_pack_byte opal_dss_unpack_byte.
Definition t_int8 : opal_dss_type_info_t Z :=
  mk_info OPAL_INT8 (λ l, opal_dss_pack_byte (uwrap 8 <$> l)) (λ n, read_as (swrap 8) (opal_dss_unpack_byte n)).
Definition t_uint16 : opal_dss_type_info_t Z := mk_info OPAL_UINT16 opal_dss_pack_int16 opal_dss_unpack_int16.
Definition t_int16 : opal_dss_type_info_t Z :=
  mk_info OPAL_INT16 opal_dss_pack_int16 (λ n, read_as (swrap 16) (opal_dss_unpack_int16 n)).
Definition t_uint32 : opal_dss_type_info_t Z := mk_info OPAL_UINT32 opal_dss_pack_int32 opal_dss_unpack_int32.
Definition t_int32 : opal_dss_type_info_t Z :=
  mk_info OPAL_INT32 opal_dss_pack_int32 (λ n, read_as (swrap 32) (opal_dss_unpack_int32 n)).
Definition t_uint64 : opal_dss_type_info_t Z := mk_info OPAL_UINT64 opal_dss_pack_int64 opal_dss_unpack_int64.
Definition t_int64 : opal_dss_type_info_t Z :=
  mk_info OPAL_INT64 opal_dss_pack_int64 (λ n, read_as (swrap 64) (opal_dss_unpack_int64 n)).

(** ** Described data *)

Definition opal_dss_store_data_type (type : Z) : M unit := odti_pack_fn t_uint8 [type].

Definition opal_dss_get_data_type : M Z :=
  l ← odti_unpack_fn t_uint8 1; only l.

Definition opal_dss_peek_type : M Z := λ b,
  if negb (fully_desc b) then Some (b, inl OPAL_ERR_UNKNOWN_DATA_TYPE) else
  if (length (base b) <=? unpack_off b)%nat
  then Some (b, inl OPAL_ERR_UNPACK_READ_PAST_END_OF_BUFFER) else
  match opal_dss_get_data_type b with
  | Some (_, r) => Some (b, r)
  | None => None
  end.

Definition opal_dss_pack_buffer {A} (T : opal_dss_type_info_t A) (src : list A) : M unit :=
  d ← is_desc;
  _ ← (if d : bool then opal_dss_store_data_type (odti_type T) else mret tt);
  odti_pack_fn T src.

Definition opal_dss_unpack_buffer {A} (T : opal_dss_type_info_t A) (num_vals : Z) : M (list A) :=
  d ← is_desc;
  _ ← (if d : bool
       then local_type ← opal_dss_get_data_type;
            if odti_type T =? local_type then mret tt else fail OPAL_ERR_PACK_MISMATCH
       else mret tt);
  odti_unpack_fn T num_vals.

Definition opal_dss_pack {A} (T : opal_dss_type_info_t A) (src : list A) : M unit :=
  d ← is_desc;
  _ ← (if d : bool then opal_dss_store_data_type OPAL_INT32 else mret tt);
  _ ← opal_dss_pack_int32 [Z.of_nat (length src)];
  opal_dss_pack_buffer T src.

(** The declared number of values at the front of the buffer. *)
Definition unpack_count : M Z :=
  d ← is_desc;
  _ ← (if d : bool
       then local_type ← opal_dss_get_data_type;
            if OPAL_INT32 =? local_type then mret tt else fail OPAL_ERR_UNPACK_FAILURE
       else mret tt);
  l ← odti_unpack_fn t_int32 1; only l.

(** The result is the return code, [*num_vals] and the values written. *)
Definition opal_dss_unpack {A} (T : opal_dss_type_info_t A) (num_vals : Z) (b : opal_buffer_t)
    : option (opal_buffer_t * (Z * Z * list A)) :=
  if num_vals =? 0 then Some (b, (OPAL_ERR_UNPACK_INADEQUATE_SPACE, num_vals, [])) else
  match unpack_count b with
  | None => None
  | Some (b1, inl rc) => Some (b1, (rc, 0, []))
  | Some (b1, inr local_num) =>
    let short := num_vals <? local_num in
    match opal_dss_unpack_buffer T (if short then num_vals else local_num) b1 with
    | None => None
    | Some (b2, inl rc) => Some (b2, (rc, 0, []))
    | Some (b2, inr l) =>
      Some (b2, if short then (OPAL_ERR_UNPACK_INADEQUATE_SPACE, num_vals, l)
                else (OPAL_SUCCESS, local_num, l))
    end
  end.

(** The one value most callers unpack, with the code they test. *)
Definition unpack1 {A} (T : opal_dss_type_info_t A) : M A := λ b,
  match opal_dss_unpack T 1 b with
  | None => None
  | Some (b', (rc, _, l)) =>
    if rc =? OPAL_SUCCESS
    then match l with [a] => Some (b', inr a) | _ => None end
    else Some (b', inl rc)
  end.

(** ** Generic system types *)

Definition pack_generic {A} (T : opal_dss_type_info_t A) (src : list A) : M unit :=
  d ← is_desc;
  _ ← (if d : bool then mret tt else opal_dss_store_data_type (odti_type T));
  opal_dss_pack_buffer T src.

(** [UNPACK_SIZE_MISMATCH]: unpack at the sender's type and convert. *)
Definition unpack_size_mismatch {A} (conv : Z → A) (remote_type num_vals : Z) : M (list A) :=
  let found T := (l ← opal_dss_unpack_buffer T num_vals; mret (conv <$> l)) : M (list A) in
  if remote_type =? OPAL_UINT8 then found t_uint8
  else if remote_type =? OPAL_INT8 then found t_int8
  else if remote_type =? OPAL_UINT16 then found t_uint16
  else if remote_type =? OPAL_INT16 then found t_int16
  else if remote_type =? OPAL_UINT32 then found t_uint32
  else if remote_type =? OPAL_INT32 then found t_int32
  else if remote_type =? OPAL_UINT64 then found t_uint64
  else if remote_type =? OPAL_INT64 then found t_int64
  else fail OPAL_ERR_NOT_FOUND.

(** [read] is the reading of the destination array on the fast path. *)
Definition unpack_generic {A} (T : opal_dss_type_info_t Z) (read conv : Z → A) (num_vals : Z)
    : M (list A) :=
  d ← is_desc;
  remote_type ← (if d : bool then opal_dss_peek_type else opal_dss_get_data_type);
  if remote_type =? odti_type T
  then l ← opal_dss_unpack_buffer T num_vals; mret (read <$> l)
  else unpack_size_mismatch conv remote_type num_vals.

Definition to_bool (z : Z) : bool := negb (z =? 0).

Definition opal_dss_pack_bool (src : list bool) : M unit := pack_generic t_uint8 (Z.b2z <$> src).
Definition opal_dss_unpack_bool : Z → M (list bool) := unpack_generic t_uint8 to_bool to_bool.
Definition opal_dss_pack_int : list Z → M unit := pack_generic t_int32.
Definition opal_dss_unpack_int : Z → M (list Z) := unpack_generic t_int32 id to_int.
Definition opal_dss_pack_sizet : list Z → M unit := pack_generic t_uint64.
Definition opal_dss_unpack_sizet : Z → M (list Z) := unpack_generic t_uint64 id (uwrap 64).
Definition opal_dss_pack_pid : list Z → M unit := pack_generic t_uint32.
Definition opal_dss_unpack_pid : Z → M (list Z) := unpack_generic t_uint32 to_int to_int.

Definition t_bool : opal_dss_type_info_t bool := mk_info OPAL_BOOL opal_dss_pack_bool opal_dss_unpack_bool.
Definition t_int : opal_dss_type_info_t Z := mk_info OPAL_INT opal_dss_pack_int opal_dss_unpack_int.
Definition t_uint : opal_dss_type_info_t Z :=
  mk_info OPAL_UINT opal_dss_pack_int (λ n, read_as (uwrap 32) (opal_dss_unpack_int n)).
Definition t_size : opal_dss_type_info_t Z := mk_info OPAL_SIZE opal_dss_pack_sizet opal_dss_unpack_sizet.
Definition t_pid : opal_dss_type_info_t Z := mk_info OPAL_PID opal_dss_pack_pid opal_dss_unpack_pid.

(** ** Element by element *)

Fixpoint pack_each {A} (f : A → M unit) (src : list A) : M unit :=
  match src with
  | [] => mret tt
  | a :: rest => _ ← f a; pack_each f rest
  end.

Fixpoint unpack_times {A} (f : M A) (n : nat) : M (list A) :=
  match n with
  | O => mret []
  | S n' => a ← f; l ← unpack_times f n'; mret (a :: l)
  end.

Definition unpack_each {A} (f : M A) (num_vals : Z) : M (list A) := unpack_times f (Z.to_nat num_vals).

(** *** Strings *)

Definition pack_one_string (s : option cstring) : M unit :=
  match s with
  | None => opal_dss_pack_int32 [0]
  | Some s =>
    _ ← opal_dss_pack_int32 [to_int (Z.of_nat (length s)) + 1];
    opal_dss_pack_byte ((code <$> s) ++ [0])
  end.

(** The string in a block: the characters before the first NUL.  A block without
    one is not a string. *)
Fixpoint c_string (bs : list Z) : option cstring :=
  match bs with
  | [] => None
  | x :: r => if x =? 0 then Some [] else cons (ascii_of_nat (Z.to_nat x)) <$> c_string r
  end.

Definition unpack_one_string : M (option cstring) :=
  l ← odti_unpack_fn t_int32 1;
  len ← only l;
  if len =? 0 then mret None else
  if len <? 0 then fail OPAL_ERR_OUT_OF_RESOURCE else
  bs ← opal_dss_unpack_byte len;
  match c_string bs with Some s => mret (Some s) | None => undefined end.

Definition opal_dss_pack_string : list (option cstring) → M unit := pack_each pack_one_string.
Definition opal_dss_unpack_string : Z → M (list (option cstring)) := unpack_each unpack_one_string.
Definition t_string : opal_dss_type_info_t (option cstring) :=
  mk_info OPAL_STRING opal_dss_pack_string opal_dss_unpack_string.

(** *** Floats travel as text: the C library's [%f] and [strtof], on bit patterns *)

Class FloatText := { printf_f : Z → cstring; strtof : cstring → Z }.

Definition opal_dss_pack_float `{FloatText} (src : list Z) : M unit :=
  pack_each (λ f, opal_dss_pack_string [Some (printf_f f)]) src.

Definition unpack_one_float `{FloatText} : M Z :=
  l ← opal_dss_unpack_string 1;
  convert ← only l;
  match convert with
  | None => fail OPAL_ERR_UNPACK_FAILURE
  | Some s => mret (strtof s)
  end.

Definition opal_dss_unpack_float `{FloatText} (num_vals : Z) : M (list Z) := λ b,
  if opal_dss_too_small b (uwrap 64 (num_vals * 4))
  then Some (b, inl OPAL_ERR_UNPACK_READ_PAST_END_OF_BUFFER)
  else unpack_each unpack_one_float num_vals b.

Definition t_float `{FloatText} : opal_dss_type_info_t Z :=
  mk_info OPAL_FLOAT opal_dss_pack_float opal_dss_unpack_float.

(** *** Times *)

Record timeval := mk_tv { tv_sec : Z; tv_usec : Z }.

Definition opal_dss_pack_timeval : list timeval → M unit :=
  pack_each (λ tv, opal_dss_pack_int64 [tv_sec tv; tv_usec tv]).

Definition unpack_one_timeval : M timeval :=
  tmp ← odti_unpack_fn t_int64 2;
  match tmp with [s; u] => mret (mk_tv s u) | _ => undefined end.

Definition opal_dss_unpack_timeval (num_vals : Z) : M (list timeval) := λ b,
  if opal_dss_too_small b (uwrap 64 (num_vals * 16))
  then Some (b, inl OPAL_ERR_UNPACK_READ_PAST_END_OF_BUFFER)
  else unpack_each unpack_one_timeval num_vals b.

Definition t_timeval : opal_dss_type_info_t timeval :=
  mk_info OPAL_TIMEVAL opal_dss_pack_timeval opal_dss_unpack_timeval.

Definition opal_dss_pack_time : list Z → M unit := pack_each (λ t, opal_dss_pack_int64 [uwrap 64 t]).

Definition unpack_one_time : M Z :=
  l ← opal_dss_unpack_int64 1;
  ui64 ← only l;
  mret (swrap 64 ui64).

Definition opal_dss_unpack_time (num_vals : Z) : M (list Z) := λ b,
  if opal_dss_too_small b (uwrap 64 (num_vals * 8))
  then Some (b, inl OPAL_ERR_UNPACK_READ_PAST_END_OF_BUFFER)
  else unpack_each unpack_one_time num_vals b.

Definition t_time : opal_dss_type_info_t Z := mk_info OPAL_TIME opal_dss_pack_time opal_dss_unpack_time.

(** *** Data types, byte objects and process names *)

Definition opal_dss_pack_data_type : list Z → M unit := opal_dss_pack_buffer t_uint8.
Definition opal_dss_unpack_data_type : Z → M (list Z) := opal_dss_unpack_buffer t_uint8.
Definition t_data_type : opal_dss_type_info_t Z :=
  mk_info OPAL_DATA_TYPE opal_dss_pack_data_type opal_dss_unpack_data_type.

Record opal_byte_object_t := mk_bo { bo_size : Z; bo_bytes : list Z }.

Definition pack_one_byte_object (bo : opal_byte_object_t) : M unit :=
  _ ← opal_dss_pack_int32 [bo_size bo];
  if 0 <? bo_size bo then opal_dss_pack_byte (take (Z.to_nat (bo_size bo)) (bo_bytes bo)) else mret tt.

Definition unpack_one_byte_object : M opal_byte_object_t :=
  l ← odti_unpack_fn t_int32 1;
  size ← only l;
  if 0 <? size
  then bytes ← opal_dss_unpack_byte size; mret (mk_bo size bytes)
  else mret (mk_bo size []).

Definition opal_dss_pack_byte_object : list opal_byte_object_t → M unit := pack_each pack_one_byte_object.
Definition opal_dss_unpack_byte_object : Z → M (list opal_byte_object_t) := unpack_each unpack_one_byte_object.
Definition t_byte_object : opal_dss_type_info_t opal_byte_object_t :=
  mk_info OPAL_BYTE_OBJECT opal_dss_pack_byte_object opal_dss_unpack_byte_object.

Record opal_process_name_t := mk_name { jobid : Z; vpid : Z }.

Definition opal_dss_pack_jobid : list Z → M unit := opal_dss_pack_buffer t_uint32.
Definition opal_dss_pack_vpid : list Z → M unit := opal_dss_pack_buffer t_uint32.
Definition opal_dss_unpack_jobid : Z → M (list Z) := opal_dss_unpack_buffer t_uint32.
Definition opal_dss_unpack_vpid : Z → M (list Z) := opal_dss_unpack_buffer t_uint32.

Definition opal_dss_pack_name (src : list opal_process_name_t) : M unit :=
  _ ← opal_dss_pack_jobid (jobid <$> src);
  opal_dss_pack_vpid (vpid <$> src).

Definition opal_dss_unpack_name (num_vals : Z) : M (list opal_process_name_t) :=
  js ← opal_dss_unpack_jobid num_vals;
  vs ← opal_dss_unpack_vpid num_vals;
  mret (zip_with mk_name js vs).

Definition t_name : opal_dss_type_info_t opal_process_name_t :=
  mk_info OPAL_NAME opal_dss_pack_name opal_dss_unpack_name.
Definition t_jobid : opal_dss_type_info_t Z := mk_info OPAL_JOBID opal_dss_pack_jobid opal_dss_unpack_jobid.
Definition t_vpid : opal_dss_type_info_t Z := mk_info OPAL_VPID opal_dss_pack_vpid opal_dss_unpack_vpid.

(** ** Whole buffers (dss_load_unload.c) *)

Definition opal_dss_unload (b : opal_buffer_t) : option (list Z) * Z * opal_buffer_t :=
  if (length (base b) =? 0)%nat then (None, 0, b)
  else (Some (base b), bytes_used b, mk_buf (fully_desc b) [] 0 0).

Definition opal_dss_load (b : opal_buffer_t) (payload : option (list Z)) : opal_buffer_t :=
  match payload with
  | None => mk_buf (fully_desc b) [] 0 0
  | Some bytes => mk_buf (fully_desc b) bytes 0 (Z.of_nat (length bytes))
  end.

Definition OPAL_ERR_BUFFER : Z := -30.

Definition opal_dss_copy_payload (dest src : opal_buffer_t) : opal_buffer_t * Z :=
  if negb (bytes_used dest =? 0) && negb (bool_decide (fully_desc dest = fully_desc src))
  then (dest, OPAL_ERR_BUFFER) else
  let dest := mk_buf (fully_desc src) (base dest) (unpack_off dest) (bytes_allocated dest) in
  let bytes_left := bytes_used src - Z.of_nat (unpack_off src) in
  if bytes_left =? 0 then (dest, OPAL_SUCCESS)
  else (store (remaining src) (opal_dss_buffer_extend dest bytes_left), OPAL_SUCCESS).

(** ** What a buffer computation does *)

(** The buffer was extended by [bs] and keeps its capacity invariant. *)
Definition capacity_ok (b : opal_buffer_t) : Prop :=
  0 ≤ bytes_allocated b ∧ bytes_used b ≤ bytes_allocated b.

Definition extended (b : opal_buffer_t) (bs : list Z) (b' : opal_buffer_t) : Prop :=
  fully_desc b' = fully_desc b ∧ base b' = base b ++ bs ∧ unpack_off b' = unpack_off b ∧
  (capacity_ok b → capacity_ok b').

(** [m] appends exactly [bs] to any buffer of kind [d], with success. *)
Definition packs (d : bool) (m : M unit) (bs : list Z) : Prop :=
  ∀ b, fully_desc b = d → ∃ b', m b = Some (b', inr tt) ∧ extended b bs b'.

(** The unread part of the buffer is [bs] and then [rest]. *)
Definition readable (b : opal_buffer_t) (bs rest : list Z) : Prop :=
  (unpack_off b ≤ length (base b))%nat ∧ remaining b = bs ++ rest.

(** On any buffer of kind [d] whose unread part starts with [bs], [m] consumes
    exactly [bs] and yields [a]. *)
Definition unpacks {A} (d : bool) (m : M A) (bs : list Z) (a : A) : Prop :=
  ∀ b rest, fully_desc b = d → readable b bs rest →
  m b = Some (skip b (length bs), inr a).

(** What the type packs for [vals] it unpacks as [vals']. *)
Definition carries {A} (T : opal_dss_type_info_t A) (d : bool) (vals vals' : list A) : Prop :=
  ∃ bs, packs d (odti_pack_fn T vals) bs ∧
        unpacks d (odti_unpack_fn T (Z.of_nat (length vals))) bs vals'.

(** What a registered type promises for the values [valid]. *)
Class Codec {A} (T : opal_dss_type_info_t A) (valid : A → Prop) := codec :
  ∀ d vals, Forall valid vals → Z.of_nat (length vals) ≤ INT_MAX → carries T d vals vals.

(** *** Bytes of an integer *)

Lemma length_be_bytes n v : length (be_bytes n v) = n.
Proof. induction n; simpl; congruence. Qed.

Lemma be_val_snoc_gen bs a : fold_left (λ a x, 256 * a + x) bs a = a * 256 ^ Z.of_nat (length bs) + be_val bs.
Proof.
  unfold be_val. revert a. induction bs as [|x bs IH]; intros a; cbn [fold_left length]; [simpl; lia|].
  rewrite IH, (IH (256 * 0 + x)). rewrite Nat2Z.inj_succ, Z.pow_succ_r by lia. lia.
Qed.

Lemma be_val_be_bytes n v : be_val (be_bytes n v) = v mod 256 ^ Z.of_nat n.
Proof.
  induction n as [|n IH]; [by rewrite Z.mod_1_r|].
  cbn [be_bytes]. unfold be_val. cbn [fold_left]. rewrite be_val_snoc_gen, IH, length_be_bytes.
  rewrite Nat2Z.inj_succ, Z.pow_succ_r by lia. rewrite (Z.mul_comm 256 (256 ^ _)).
  rewrite (Z.rem_mul_r v (256 ^ Z.of_nat n) 256) by lia. lia.
Qed.

Lemma be_bytes_range n v : Forall (λ x, 0 ≤ x < 256) (be_bytes n v).
Proof. induction n; simpl; constructor; [apply Z.mod_pos_bound; lia|done]. Qed.

Lemma swrap_uwrap w z : 0 < w → - 2 ^ (w - 1) ≤ z < 2 ^ (w - 1) → swrap w (uwrap w z) = z.
Proof.
  intros Hw Hz. unfold swrap, uwrap. rewrite Z.mod_mod by lia.
  assert (2 ^ w = 2 * 2 ^ (w - 1)) as E by (rewrite <-Z.pow_succ_r by lia; f_equal; lia).
  destruct (decide (0 ≤ z)).
  - rewrite Z.mod_small by lia. destruct (Z.ltb_spec z (2 ^ (w - 1))); lia.
  - rewrite <-(Z.mod_unique z (2 ^ w) (-1) (z + 2 ^ w)) by lia.
    destruct (Z.ltb_spec (z + 2 ^ w) (2 ^ (w - 1))); lia.
Qed.

(** *** Capacity *)

Lemma double_until_enough fuel a r : 0 < a → r ≤ a * 2 ^ Z.of_nat fuel → r ≤ double_until fuel a r.
Proof.
  revert a. induction fuel as [|f IH]; intros a Ha Hr; cbn [double_until]; [simpl in Hr; lia|].
  rewrite Nat2Z.inj_succ, Z.pow_succ_r in Hr by lia.
  destruct (Z.ltb_spec a r); [|lia]. apply IH; rewrite Z.shiftl_mul_pow2 by lia; lia.
Qed.

Lemma buffer_extend_room b n : capacity_ok b → 0 ≤ n →
  let b' := opal_dss_buffer_extend b n in
  bytes_used b' + n ≤ bytes_allocated b' ∧ base b' = base b.
Proof.
  intros [H0 H1] Hn. unfold opal_dss_buffer_extend, capacity_ok, bytes_used in *.
  destruct (Z.leb_spec n (bytes_allocated b - Z.of_nat (length (base b)))); cbn zeta; cbn [base bytes_allocated]; [split; [lia|done]|].
  split; [|done]. unfold opal_dss_threshold_size.
  destruct (Z.leb_spec 1024 (Z.of_nat (length (base b)) + n)).
  - pose proof (Z.div_mod (Z.of_nat (length (base b)) + n + 1024 - 1) 1024 ltac:(lia)).
    pose proof (Z.mod_pos_bound (Z.of_nat (length (base b)) + n + 1024 - 1) 1024 ltac:(lia)). lia.
  - apply double_until_enough; unfold opal_dss_initial_size;
      destruct (Z.eqb_spec (bytes_allocated b) 0); simpl; lia.
Qed.

Lemma store_extended b bs n : Z.of_nat (length bs) = n →
  extended b bs (store bs (opal_dss_buffer_extend b n)).
Proof.
  intros <-. unfold extended. split_and!.
  1-3: unfold opal_dss_buffer_extend, store; by destruct (_ <=? _).
  intros Hc. destruct (buffer_extend_room b (Z.of_nat (length bs)) Hc) as [Hr Hb]; [lia|].
  unfold capacity_ok, bytes_used in *. simpl. rewrite length_app, Hb in *. lia.
Qed.

Lemma extended_trans b1 b2 b3 x y : extended b1 x b2 → extended b2 y b3 → extended b1 (x ++ y) b3.
Proof.
  intros (? & Hx & ? & ?) (? & Hy & ? & ?). unfold extended. rewrite Hy, Hx, app_assoc.
  split_and!; try congruence; auto.
Qed.

Lemma extended_refl b : extended b [] b.
Proof. unfold extended. by rewrite app_nil_r. Qed.

(** *** Composition *)

Lemma packs_ret d : packs d (mret tt) [].
Proof. intros b _. exists b. split; [done|apply extended_refl]. Qed.

Lemma packs_bind d (m k : M unit) x y :
  packs d m x → packs d k y → packs d (_ ← m; k) (x ++ y).
Proof.
  intros Hm Hk b Hd. destruct (Hm b Hd) as (b1 & E1 & H1).
  destruct (Hk b1) as (b2 & E2 & H2); [destruct H1; congruence|].
  exists b2. unfold mbind, M_bind. rewrite E1. split; [done|by eapply extended_trans].
Qed.

Lemma skip_add b n m : skip (skip b n) m = skip b (n + m).
Proof. unfold skip. simpl. f_equal. lia. Qed.

Lemma skip_0 b : skip b 0 = b.
Proof. destruct b. unfold skip. simpl. f_equal. lia. Qed.

Lemma readable_skip b x y rest : readable b (x ++ y) rest → readable (skip b (length x)) y rest.
Proof.
  unfold readable, remaining, skip. simpl. intros [Hl E]. split.
  - apply (f_equal length) in E. rewrite length_drop, !length_app in E. lia.
  - by rewrite <-drop_drop, E, <-app_assoc, drop_app_length.
Qed.

Lemma readable_app b x y rest : readable b (x ++ y) rest → readable b x (y ++ rest).
Proof. unfold readable. by rewrite <-app_assoc. Qed.

Lemma unpacks_ret {A} d (a : A) : unpacks d (mret a) [] a.
Proof. intros b rest _ _. simpl. by rewrite skip_0. Qed.

Lemma unpacks_bind {A B} d (m : M A) (k : A → M B) x y a v :
  unpacks d m x a → unpacks d (k a) y v → unpacks d (m ≫= k) (x ++ y) v.
Proof.
  intros Hm Hk b rest Hd Hr. unfold mbind, M_bind.
  rewrite (Hm b (y ++ rest) Hd) by (by apply readable_app).
  rewrite (Hk (skip b (length x)) rest Hd) by (by apply readable_skip).
  by rewrite skip_add, length_app.
Qed.

Lemma unpacks_bind_ret {A B} d (m : M A) (f : A → B) x a :
  unpacks d m x a → unpacks d (a ← m; mret (f a)) x (f a).
Proof.
  intros Hm. rewrite <-(app_nil_r x). eapply unpacks_bind; [done|apply unpacks_ret].
Qed.

Lemma packs_is_desc d (k : bool → M unit) bs : packs d (k d) bs → packs d (is_desc ≫= k) bs.
Proof. intros H b Hb. unfold mbind, M_bind, is_desc. rewrite Hb. by apply H. Qed.

Lemma unpacks_is_desc {A} d (k : bool → M A) bs a : unpacks d (k d) bs a → unpacks d (is_desc ≫= k) bs a.
Proof. intros H b rest Hb Hr. unfold mbind, M_bind at 1, is_desc. rewrite Hb. by eapply H. Qed.

(** *** Fixed-width integers *)

Lemma too_small_false b bs rest n : readable b bs rest → n ≤ Z.of_nat (length bs) →
  opal_dss_too_small b n = false.
Proof.
  intros [Hl E] Hn. unfold opal_dss_too_small. apply (f_equal length) in E. unfold remaining in E.
  rewrite length_drop, length_app in E. zbool; (done || lia).
Qed.

Lemma packs_words d w vals : packs d (pack_words w vals) (concat (be_bytes w <$> vals)).
Proof.
  intros b _. eexists. split; [done|]. apply store_extended.
  induction vals as [|v vals IH]; [done|]. cbn. rewrite length_app, length_be_bytes. lia.
Qed.

Lemma unpack_loop_spec w vals b rest : readable b (concat (be_bytes w <$> vals)) rest →
  unpack_loop w (length vals) b =
  (skip b (length (concat (be_bytes w <$> vals))), (λ v, v mod 256 ^ Z.of_nat w) <$> vals).
Proof.
  revert b. induction vals as [|v vals IH]; intros b Hr; [cbn; by rewrite skip_0|].
  cbn [fmap list_fmap concat length unpack_loop] in *.
  pose proof (readable_skip _ _ _ _ Hr) as Hr'. rewrite length_be_bytes in Hr'.
  rewrite (IH _ Hr'), skip_add, length_app, length_be_bytes. do 2 f_equal.
  destruct Hr as [_ ->]. rewrite <-app_assoc, take_app_length' by (by rewrite length_be_bytes).
  apply be_val_be_bytes.
Qed.

Lemma unpacks_words d w vals : (0 < w ≤ 8)%nat → Z.of_nat (length vals) ≤ INT_MAX →
  unpacks d (unpack_words w (Z.of_nat (length vals))) (concat (be_bytes w <$> vals))
    ((λ v, v mod 256 ^ Z.of_nat w) <$> vals).
Proof.
  intros Hw Hl b rest _ Hr. unfold unpack_words. unfold INT_MAX in Hl.
  assert (length (concat (be_bytes w <$> vals)) = length vals * w)%nat as El.
  { clear. induction vals as [|v vals IH]; [done|]. cbn. rewrite length_app, length_be_bytes. lia. }
  rewrite (too_small_false b _ rest _ Hr).
  - by rewrite Nat2Z.id, (unpack_loop_spec w vals b rest Hr).
  - unfold uwrap. rewrite Z.mod_small, El; nia.
Qed.

Lemma packs_bytes d bs : packs d (opal_dss_pack_byte bs) bs.
Proof. intros b _. eexists. split; [done|]. by apply store_extended. Qed.

Lemma unpacks_bytes d bs : Z.of_nat (length bs) ≤ INT_MAX →
  unpacks d (opal_dss_unpack_byte (Z.of_nat (length bs))) bs bs.
Proof.
  intros Hl b rest _ Hr. unfold opal_dss_unpack_byte. unfold INT_MAX in Hl.
  rewrite (too_small_false b bs rest _ Hr).
  - destruct Hr as [_ ->]. by rewrite Nat2Z.id, take_app_length.
  - unfold uwrap. rewrite Z.mod_small; lia.
Qed.

(** *** Ranges of the C integer types *)

Definition in_u (w z : Z) : Prop := 0 ≤ z < 2 ^ w.
Definition in_s (w z : Z) : Prop := - 2 ^ (w - 1) ≤ z < 2 ^ (w - 1).

Lemma uwrap_id w z : in_u w z → uwrap w z = z.
Proof. apply Z.mod_small. Qed.

Lemma map_id_on {A} (P : A → Prop) (f : A → A) l : (∀ x, P x → f x = x) → Forall P l → f <$> l = l.
Proof. intros Hf. induction 1 as [|x l Hx _ IH]; [done|]. cbn. by rewrite Hf, IH. Qed.

Lemma unpacks_eq {A} d (m : M A) bs a a' : unpacks d m bs a → a = a' → unpacks d m bs a'.
Proof. by intros ? <-. Qed.

Lemma codec_u (w : nat) T : (0 < w ≤ 8)%nat →
  odti_pack_fn T = pack_words w → odti_unpack_fn T = unpack_words w → Codec T (in_u (8 * Z.of_nat w)).
Proof.
  intros Hw Hp Hu d vals Hv Hl. unfold carries. rewrite Hp, Hu. eexists. split; [apply packs_words|].
  eapply unpacks_eq; [by apply unpacks_words|].
  apply (map_id_on (in_u (8 * Z.of_nat w))); [|done]. intros x Hx.
  rewrite Z.mod_small; [done|]. unfold in_u in Hx. by rewrite Z.pow_mul_r in Hx by lia.
Qed.

Lemma unpacks_swords (w : nat) d vals : (0 < w ≤ 8)%nat → Z.of_nat (length vals) ≤ INT_MAX →
  Forall (in_s (8 * Z.of_nat w)) vals →
  unpacks d (read_as (swrap (8 * Z.of_nat w)) (unpack_words w (Z.of_nat (length vals))))
    (concat (be_bytes w <$> vals)) vals.
Proof.
  intros Hw Hl Hv. eapply unpacks_eq; [apply unpacks_bind_ret; by apply unpacks_words|].
  rewrite <-list_fmap_compose. apply (map_id_on (in_s (8 * Z.of_nat w))); [|done].
  intros x Hx. cbn. change 256 with (2 ^ 8). rewrite <-Z.pow_mul_r by lia.
  apply swrap_uwrap; [lia|done].
Qed.

Lemma codec_s (w : nat) T : (0 < w ≤ 8)%nat →
  odti_pack_fn T = pack_words w →
  odti_unpack_fn T = (λ n, read_as (swrap (8 * Z.of_nat w)) (unpack_words w n)) →
  Codec T (in_s (8 * Z.of_nat w)).
Proof.
  intros Hw Hp Hu d vals Hv Hl. unfold carries. rewrite Hp, Hu. eexists.
  split; [apply packs_words|by apply unpacks_swords].
Qed.

#[export] Instance codec_uint8 : Codec t_uint8 (in_u 8).
Proof. intros d vals _ Hl. exists vals. split; [apply packs_bytes|by apply unpacks_bytes]. Qed.
#[export] Instance codec_byte : Codec t_byte (in_u 8).
Proof. intros d vals _ Hl. exists vals. split; [apply packs_bytes|by apply unpacks_bytes]. Qed.
#[export] Instance codec_int8 : Codec t_int8 (in_s 8).
Proof.
  intros d vals Hv Hl. eexists. split; [apply packs_bytes|].
  eapply unpacks_eq; [apply unpacks_bind_ret|].
  - rewrite <-(length_fmap (uwrap 8) vals). apply unpacks_bytes. by rewrite length_fmap.
  - rewrite <-list_fmap_compose. apply (map_id_on (in_s 8)); [|done].
    intros x Hx. by apply swrap_uwrap.
Qed.
#[export] Instance codec_uint16 : Codec t_uint16 (in_u 16).
Proof. apply (codec_u 2); [lia|done|done]. Qed.
#[export] Instance codec_int16 : Codec t_int16 (in_s 16).
Proof. apply (codec_s 2); [lia|done|done]. Qed.
#[export] Instance codec_uint32 : Codec t_uint32 (in_u 32).
Proof. apply (codec_u 4); [lia|done|done]. Qed.
#[export] Instance codec_int32 : Codec t_int32 (in_s 32).
Proof. apply (codec_s 4); [lia|done|done]. Qed.
#[export] Instance codec_uint64 : Codec t_uint64 (in_u 64).
Proof. apply (codec_u 8); [lia|done|done]. Qed.
#[export] Instance codec_int64 : Codec t_int64 (in_s 64).
Proof. apply (codec_s 8); [lia|done|done]. Qed.

(** ** Described data *)

Definition valid_type {A} (T : opal_dss_type_info_t A) : Prop := in_u 8 (odti_type T).

Lemma packs_store_type d t : packs d (opal_dss_store_data_type t) [t].
Proof. apply packs_bytes. Qed.

Lemma unpacks_get_type d t : unpacks d opal_dss_get_data_type [t] t.
Proof.
  unfold opal_dss_get_data_type. change [t] with ([t] ++ []) at 1.
  eapply unpacks_bind; [apply (unpacks_bytes d [t]); done|]. apply unpacks_ret.
Qed.

Definition type_tag (d : bool) (t : Z) : list Z := if d then [t] else [].

Lemma packs_tag d t : packs d (if d then opal_dss_store_data_type t else mret tt) (type_tag d t).
Proof. destruct d; [apply packs_store_type|apply packs_ret]. Qed.

Lemma unpacks_tag d t (e : Z) :
  unpacks d (if d then local_type ← opal_dss_get_data_type;
                       if t =? local_type then mret tt else fail e else mret tt) (type_tag d t) tt.
Proof.
  destruct d; [|apply unpacks_ret]. simpl. change [t] with ([t] ++ []).
  eapply unpacks_bind; [apply unpacks_get_type|]. rewrite Z.eqb_refl. apply unpacks_ret.
Qed.

(** Values packed with their type are read back at that type. *)
Lemma carries_buffer {A} (T : opal_dss_type_info_t A) d vals vals' : carries T d vals vals' →
  ∃ bs, packs d (opal_dss_pack_buffer T vals) (type_tag d (odti_type T) ++ bs) ∧
        unpacks d (opal_dss_unpack_buffer T (Z.of_nat (length vals)))
          (type_tag d (odti_type T) ++ bs) vals'.
Proof.
  intros (bs & Hp & Hu). exists bs. split.
  - apply packs_is_desc, packs_bind; [apply packs_tag|done].
  - apply unpacks_is_desc. eapply unpacks_bind; [apply unpacks_tag|done].
Qed.

Lemma codec_buffer {A} (T : opal_dss_type_info_t A) valid d vals : Codec T valid →
  Forall valid vals → Z.of_nat (length vals) ≤ INT_MAX →
  ∃ bs, packs d (opal_dss_pack_buffer T vals) (type_tag d (odti_type T) ++ bs) ∧
        unpacks d (opal_dss_unpack_buffer T (Z.of_nat (length vals)))
          (type_tag d (odti_type T) ++ bs) vals.
Proof. intros HT Hv Hl. by apply carries_buffer, HT. Qed.

Lemma unpacks_peek {A} (k : Z → M A) t bs v :
  unpacks true (k t) (t :: bs) v → unpacks true (opal_dss_peek_type ≫= k) (t :: bs) v.
Proof.
  intros Hk b rest Hd Hr. unfold mbind, M_bind at 1, opal_dss_peek_type. rewrite Hd. cbn [negb].
  destruct (Nat.leb_spec (length (base b)) (unpack_off b)) as [Hle|_].
  { destruct Hr as [? E]. apply (f_equal length) in E. unfold remaining in E.
    rewrite length_drop in E. simpl in E. lia. }
  rewrite (unpacks_get_type true t b (bs ++ rest)); [|done|].
  - by eapply Hk.
  - destruct Hr as [? E]. split; [done|]. by rewrite E.
Qed.

(** The generic types: the size goes with the data, the sizes agree. *)
Lemma codec_generic {A} (T : opal_dss_type_info_t Z) (U : opal_dss_type_info_t A)
    (to : A → Z) (read conv : Z → A) (validT : Z → Prop) (valid : A → Prop) :
  Codec T validT →
  (∀ l, odti_pack_fn U l = pack_generic T (to <$> l)) →
  (∀ n, odti_unpack_fn U n = unpack_generic T read conv n) →
  (∀ x, valid x → validT (to x) ∧ read (to x) = x) → Codec U valid.
Proof.
  intros HT Hp Hu Hto d vals Hv Hl. unfold carries. rewrite Hp, Hu.
  assert (Forall validT (to <$> vals)) as HvT.
  { apply Forall_fmap. eapply Forall_impl; [exact Hv|]. intros x Hx. apply Hto, Hx. }
  assert (read <$> (to <$> vals) = vals) as Er.
  { rewrite <-list_fmap_compose. apply (map_id_on valid); [|done]. intros x Hx. apply Hto, Hx. }
  destruct (codec_buffer T validT d (to <$> vals) HT HvT) as (bs & HP & HU); [by rewrite length_fmap|].
  rewrite length_fmap in HU. destruct d; simpl in HP, HU.
  - exists (odti_type T :: bs). split.
    + apply packs_is_desc. apply (packs_bind _ _ _ [] _); [apply packs_ret|done].
    + apply unpacks_is_desc, unpacks_peek. rewrite Z.eqb_refl.
      eapply unpacks_eq; [by apply unpacks_bind_ret|done].
  - exists ([odti_type T] ++ bs). split; [apply packs_is_desc, packs_bind; [apply packs_store_type|done]|].
    apply unpacks_is_desc. eapply unpacks_bind; [apply unpacks_get_type|].
    rewrite Z.eqb_refl. eapply unpacks_eq; [by apply unpacks_bind_ret|done].
Qed.

#[export] Instance codec_bool : Codec t_bool (λ _, True).
Proof.
  eapply (codec_generic t_uint8 t_bool Z.b2z to_bool to_bool); [apply codec_uint8|done|done|].
  intros []; unfold in_u; simpl; split; (done || lia).
Qed.

#[export] Instance codec_int : Codec t_int (in_s 32).
Proof.
  eapply (codec_generic t_int32 t_int id id to_int); [apply codec_int32| |done|done].
  intros l. by rewrite list_fmap_id.
Qed.

#[export] Instance codec_size : Codec t_size (in_u 64).
Proof.
  eapply (codec_generic t_uint64 t_size id id (uwrap 64)); [apply codec_uint64| |done|done].
  intros l. by rewrite list_fmap_id.
Qed.

(** A [pid_t] is an [int] that travels as an unsigned integer. *)
#[export] Instance codec_pid : Codec t_pid (λ z, 0 ≤ z ≤ INT_MAX).
Proof.
  eapply (codec_generic t_uint32 t_pid id to_int to_int); [apply codec_uint32| |done|].
  - intros l. by rewrite list_fmap_id.
  - intros z Hz. split; [unfold in_u, INT_MAX in *; simpl; lia|by apply to_int_small].
Qed.

#[export] Instance codec_uint : Codec t_uint (λ z, 0 ≤ z ≤ INT_MAX).
Proof.
  intros d vals Hv Hl.
  assert (Forall (in_s 32) vals) as Hs
    by (eapply Forall_impl; [exact Hv|]; intros z Hz; unfold in_s, INT_MAX in *; simpl; lia).
  destruct (codec_int d vals Hs Hl) as (bs & Hp & Hu).
  exists bs. split; [done|]. eapply unpacks_eq; [by apply unpacks_bind_ret|].
  apply (map_id_on (λ z, 0 ≤ z ≤ INT_MAX)); [|done].
  intros z Hz. apply uwrap_id. unfold in_u, INT_MAX in *. simpl. lia.
Qed.

(** ** Element by element *)

Lemma codec_each {A} (f : A → M unit) (g : M A) (valid : A → Prop) (k : nat) d vals :
  (∀ v, valid v → ∃ bs, packs d (f v) bs ∧ unpacks d g bs v ∧ (k ≤ length bs)%nat) →
  Forall valid vals →
  ∃ bs, packs d (pack_each f vals) bs ∧
        unpacks d (unpack_each g (Z.of_nat (length vals))) bs vals ∧
        (length vals * k ≤ length bs)%nat.
Proof.
  intros Hfg Hv. unfold unpack_each. rewrite Nat2Z.id. induction Hv as [|v vals Hv _ IH].
  { exists []. split_and!; [apply packs_ret|apply unpacks_ret|done]. }
  destruct (Hfg v Hv) as (x & Hx & Hx' & Hk), IH as (y & Hy & Hy' & Hl).
  exists (x ++ y). split_and!; [by apply packs_bind| |rewrite length_app; simpl; lia].
  eapply unpacks_bind; [done|]. by apply unpacks_bind_ret.
Qed.

(** The guards of the functions that check for room before they start. *)
Lemma unpacks_guard {A} d (m : M A) bs a n e : 0 ≤ n < 2 ^ 64 → n ≤ Z.of_nat (length bs) →
  unpacks d m bs a →
  unpacks d (λ b, if opal_dss_too_small b (uwrap 64 n) then Some (b, inl e) else m b) bs a.
Proof.
  intros Hn Hl Hm b rest Hd Hr. rewrite uwrap_id by done.
  rewrite (too_small_false b bs rest n Hr Hl). by eapply Hm.
Qed.

(** *** Strings *)

Definition valid_string (s : option cstring) : Prop :=
  match s with
  | None => True
  | Some s => Z.of_nat (length s) < INT_MAX ∧ Forall (λ c, c ≠ "000"%char) s
  end.

Lemma c_string_code s rest : Forall (λ c, c ≠ "000"%char) s → c_string ((code <$> s) ++ 0 :: rest) = Some s.
Proof.
  induction 1 as [|c s Hc _ IH]; [done|]. cbn [fmap list_fmap app c_string].
  pose proof (code_bounds c). destruct (Z.eqb_spec (code c) 0) as [E|_].
  - destruct Hc. by apply (code_inj c "000"%char).
  - rewrite IH. cbn. unfold code. by rewrite Nat2Z.id, ascii_nat_embedding.
Qed.

(** One 32-bit integer and back. *)
Lemma int32_one d z : in_s 32 z →
  ∃ bs, packs d (opal_dss_pack_int32 [z]) bs ∧ length bs = 4%nat ∧
        ∀ B (k : Z → M B) y v, unpacks d (k z) y v →
          unpacks d (l ← odti_unpack_fn t_int32 1; x ← only l; k x) (bs ++ y) v.
Proof.
  intros Hz. exists (concat (be_bytes 4 <$> [z])). split_and!; [apply packs_words|done|].
  intros B k y v Hk.
  apply (unpacks_bind d _ _ _ y [z]).
  - apply (unpacks_swords 4 d [z]); [lia|done|forall_list].
  - apply (unpacks_bind d _ _ [] y z); [apply unpacks_ret|done].
Qed.

Lemma codec_one_string d s : valid_string s →
  ∃ bs, packs d (pack_one_string s) bs ∧ unpacks d unpack_one_string bs s ∧ (4 ≤ length bs)%nat.
Proof.
  destruct s as [s|]; simpl.
  - intros [Hl Hc]. rewrite to_int_small by lia.
    destruct (int32_one d (Z.of_nat (length s) + 1)) as (x & Hx & Hlx & Hu).
    { unfold in_s, INT_MAX in *. simpl. lia. }
    exists (x ++ (code <$> s) ++ [0]). split_and!.
    + apply packs_bind; [done|apply packs_bytes].
    + apply Hu. destruct (Z.eqb_spec (Z.of_nat (length s) + 1) 0); [lia|].
      destruct (Z.ltb_spec (Z.of_nat (length s) + 1) 0); [lia|].
      rewrite <-(app_nil_r ((code <$> s) ++ [0])). eapply unpacks_bind.
      * replace (Z.of_nat (length s) + 1) with (Z.of_nat (length ((code <$> s) ++ [0])))
          by (rewrite length_app, length_fmap; simpl; lia).
        apply unpacks_bytes. rewrite length_app, length_fmap. simpl. lia.
      * rewrite c_string_code by done. apply unpacks_ret.
    + rewrite length_app. lia.
  - intros _. destruct (int32_one d 0) as (x & Hx & Hlx & Hu); [unfold in_s; simpl; lia|].
    exists x. split_and!; [done| |lia]. rewrite <-(app_nil_r x). apply Hu. apply unpacks_ret.
Qed.

#[export] Instance codec_string : Codec t_string valid_string.
Proof.
  intros d vals Hv _. destruct (codec_each pack_one_string unpack_one_string valid_string 4 d vals)
    as (bs & ? & ? & _); [by apply codec_one_string|done|by exists bs].
Qed.

(** *** Times *)

#[export] Instance codec_timeval : Codec t_timeval (λ tv, in_s 64 (tv_sec tv) ∧ in_s 64 (tv_usec tv)).
Proof.
  intros d vals Hv Hl. unfold INT_MAX in Hl.
  destruct (codec_each (λ tv, opal_dss_pack_int64 [tv_sec tv; tv_usec tv]) unpack_one_timeval
    (λ tv, in_s 64 (tv_sec tv) ∧ in_s 64 (tv_usec tv)) 16 d vals) as (bs & Hp & Hu & Hlen); [|done|].
  - intros [s u] [Hs Hu]. exists (concat (be_bytes 8 <$> [s; u])).
    split_and!; [apply packs_words| |done].
    rewrite <-(app_nil_r (concat _)). apply (unpacks_bind d _ _ _ [] [s; u]); [|apply unpacks_ret].
    apply (unpacks_swords 8 d [s; u]); [lia|done|forall_list].
  - exists bs. split; [done|]. apply unpacks_guard; [lia|lia|done].
Qed.

#[export] Instance codec_time : Codec t_time (in_s 64).
Proof.
  intros d vals Hv Hl. unfold INT_MAX in Hl.
  destruct (codec_each (λ t, opal_dss_pack_int64 [uwrap 64 t]) unpack_one_time (in_s 64) 8 d vals)
    as (bs & Hp & Hu & Hlen); [|done|].
  - intros t Ht. exists (concat (be_bytes 8 <$> [uwrap 64 t])).
    split_and!; [apply packs_words| |done].
    rewrite <-(app_nil_r (concat _)).
    apply (unpacks_bind d _ _ _ [] [uwrap 64 t]).
    + eapply unpacks_eq; [by apply (unpacks_words d 8 [uwrap 64 t]); [lia|]|].
      cbn. f_equal. apply Z.mod_mod. lia.
    + apply (unpacks_bind d _ _ [] [] (uwrap 64 t)); [apply unpacks_ret|].
      rewrite swrap_uwrap by (done || lia). apply unpacks_ret.
  - exists bs. split; [done|]. apply unpacks_guard; [lia|lia|done].
Qed.

(** *** Data types, byte objects and process names *)

#[export] Instance codec_data_type : Codec t_data_type (in_u 8).
Proof.
  intros d vals Hv Hl. destruct (codec_buffer t_uint8 (in_u 8) d vals codec_uint8 Hv Hl) as (bs & ? & ?).
  by eexists.
Qed.

Definition valid_bo (bo : opal_byte_object_t) : Prop :=
  bo_size bo = Z.of_nat (length (bo_bytes bo)) ∧ bo_size bo ≤ INT_MAX.

Lemma codec_one_byte_object d bo : valid_bo bo →
  ∃ bs, packs d (pack_one_byte_object bo) bs ∧ unpacks d unpack_one_byte_object bs bo.
Proof.
  destruct bo as [sz bytes]. intros [Hs Hm]. simpl in *. unfold INT_MAX in Hm.
  destruct (int32_one d sz) as (x & Hx & _ & Hu); [unfold in_s; simpl; lia|].
  exists (x ++ bytes). split; [|apply Hu].
  - apply packs_bind; [done|]. cbn [bo_size bo_bytes]. destruct (Z.ltb_spec 0 sz).
    + rewrite take_ge by lia. apply packs_bytes.
    + destruct bytes; [apply packs_ret|simpl in *; lia].
  - destruct (Z.ltb_spec 0 sz).
    + apply unpacks_bind_ret. rewrite Hs at 1. apply unpacks_bytes. unfold INT_MAX. lia.
    + destruct bytes; [apply unpacks_ret|simpl in *; lia].
Qed.

#[export] Instance codec_byte_object : Codec t_byte_object valid_bo.
Proof.
  intros d vals Hv _.
  destruct (codec_each pack_one_byte_object unpack_one_byte_object valid_bo 0 d vals)
    as (bs & ? & ? & _); [|done|by exists bs].
  intros bo Hbo. destruct (codec_one_byte_object d bo Hbo) as (x & ? & ?). exists x. split_and!; [done|done|lia].
Qed.

Lemma codec_ids d vals : Forall (in_u 32) vals → Z.of_nat (length vals) ≤ INT_MAX →
  ∃ bs, packs d (opal_dss_pack_buffer t_uint32 vals) bs ∧
        unpacks d (opal_dss_unpack_buffer t_uint32 (Z.of_nat (length vals))) bs vals.
Proof.
  intros Hv Hl. destruct (codec_buffer t_uint32 (in_u 32) d vals codec_uint32 Hv Hl) as (bs & ? & ?). eauto.
Qed.

#[export] Instance codec_jobid : Codec t_jobid (in_u 32).
Proof. intros d vals Hv Hl. by apply codec_ids. Qed.
#[export] Instance codec_vpid : Codec t_vpid (in_u 32).
Proof. intros d vals Hv Hl. by apply codec_ids. Qed.

Definition valid_name (n : opal_process_name_t) : Prop := in_u 32 (jobid n) ∧ in_u 32 (vpid n).

#[export] Instance codec_name : Codec t_name valid_name.
Proof.
  intros d vals Hv Hl.
  assert (Forall (in_u 32) (jobid <$> vals) ∧ Forall (in_u 32) (vpid <$> vals)) as [Hj Hvp].
  { split; apply Forall_fmap; (eapply Forall_impl; [exact Hv|]); by intros n [? ?]. }
  destruct (codec_ids d _ Hj) as (x & Hx & Hx'); [by rewrite length_fmap|].
  destruct (codec_ids d _ Hvp) as (y & Hy & Hy'); [by rewrite length_fmap|].
  rewrite length_fmap in Hx', Hy'. exists (x ++ y). split; [by apply packs_bind|].
  eapply unpacks_bind; [exact Hx'|]. eapply unpacks_eq; [by apply unpacks_bind_ret|].
  clear. induction vals as [|[j v] vals IH]; [done|]. cbn. by f_equal.
Qed.

Definition valid_float `{FloatText} (f : Z) : Prop :=
  valid_string (Some (printf_f f)) ∧ strtof (printf_f f) = f.

(** A float survives when the six decimals of its text are enough to name it. *)
#[export] Instance codec_float `{FloatText} : Codec t_float valid_float.
Proof.
  intros d vals Hv Hl. unfold INT_MAX in Hl.
  destruct (codec_each (λ f, opal_dss_pack_string [Some (printf_f f)]) unpack_one_float valid_float 4 d vals)
    as (bs & Hp & Hu & Hlen); [|done|].
  - intros f [Hs Hf]. destruct (codec_one_string d _ Hs) as (x & Hx & Hx' & Hl').
    exists (x ++ []). split_and!; [apply packs_bind; [done|apply packs_ret]| |rewrite app_nil_r; lia].
    apply (unpacks_bind d _ _ x [] [Some (printf_f f)]).
    + change (Z.to_nat 1) with 1%nat. rewrite <-(app_nil_r x).
      eapply unpacks_bind; [done|]. apply unpacks_bind_ret, unpacks_ret.
    + apply (unpacks_bind d _ _ [] [] (Some (printf_f f))); [apply unpacks_ret|].
      rewrite Hf. apply unpacks_ret.
  - exists bs. split; [done|]. apply unpacks_guard; [lia|lia|done].
Qed.

(** One value at a registered type, in the style of the unpack functions. *)
Lemma one_value {A} (T : opal_dss_type_info_t A) valid d v : Codec T valid → valid v →
  ∃ bs, packs d (opal_dss_pack_buffer T [v]) bs ∧
        ∀ B (k : A → M B) y r, unpacks d (k v) y r →
          unpacks d (l ← opal_dss_unpack_buffer T 1; x ← only l; k x) (bs ++ y) r.
Proof.
  intros HT Hv. destruct (codec_buffer T valid d [v] HT) as (bs & Hp & Hu); [forall_list|done|].
  eexists. split; [exact Hp|]. intros B k y r Hk.
  eapply unpacks_bind; [exact Hu|]. apply (unpacks_bind d _ _ [] y v); [apply unpacks_ret|done].
Qed.

(** ** Whole messages: [opal_dss.pack] and [opal_dss.unpack] *)

(** The count at the front of a message. *)
Lemma count_one d n : in_s 32 n →
  ∃ x, packs d (opal_dss_pack_int32 [n]) x ∧ unpacks d unpack_count (type_tag d OPAL_INT32 ++ x) n.
Proof.
  intros Hn. destruct (int32_one d n Hn) as (x & Hx & _ & Hx'). exists x. split; [done|].
  apply unpacks_is_desc. eapply unpacks_bind; [apply unpacks_tag|].
  specialize (Hx' Z mret [] _ (unpacks_ret _ _)). rewrite app_nil_r in Hx'.
  intros b rest Hd Hr. specialize (Hx' b rest Hd Hr). unfold mbind, M_bind in *.
  destruct (odti_unpack_fn t_int32 1 b) as [[b1 [rc|l]]|]; try done.
  unfold only in *. destruct l as [|z []]; (done || exact Hx').
Qed.

Lemma packs_dss {A} (T : opal_dss_type_info_t A) d vals vals' : carries T d vals vals' →
  0 < Z.of_nat (length vals) ≤ INT_MAX →
  ∃ bs, packs d (opal_dss_pack T vals) bs ∧
    ∀ num b rest, Z.of_nat (length vals) ≤ num → fully_desc b = d → readable b bs rest →
      opal_dss_unpack T num b =
      Some (skip b (length bs), (OPAL_SUCCESS, Z.of_nat (length vals), vals')).
Proof.
  intros HT Hl. unfold INT_MAX in Hl. destruct (carries_buffer T d vals vals' HT) as (bs & Hp & Hu).
  destruct (count_one d (Z.of_nat (length vals))) as (x & Hx & Hc); [unfold in_s; simpl; lia|].
  exists ((type_tag d OPAL_INT32 ++ x) ++ (type_tag d (odti_type T) ++ bs)). split.
  - apply packs_is_desc. rewrite <-app_assoc. apply packs_bind; [apply packs_tag|by apply packs_bind].
  - intros num b rest Hn Hd Hr. unfold opal_dss_unpack. destruct (Z.eqb_spec num 0); [lia|].
    rewrite (Hc b (type_tag d (odti_type T) ++ bs ++ rest) Hd) by (rewrite app_assoc; by apply readable_app).
    destruct (Z.ltb_spec num (Z.of_nat (length vals))); [lia|].
    rewrite (Hu (skip b (length (type_tag d OPAL_INT32 ++ x))) rest Hd) by (by apply readable_skip).
    by rewrite skip_add, <-length_app.
Qed.

(** ** Staying inside the buffer *)

Definition inside (b : opal_buffer_t) : Prop := (unpack_off b ≤ length (base b))%nat.

(** Whatever bytes arrived, [m] reads none past the last one. *)
Definition stays {A} (m : M A) : Prop :=
  ∀ b b' r, inside b → m b = Some (b', r) → inside b' ∧ base b' = base b ∧ fully_desc b' = fully_desc b.

Lemma stays_ret {A} (a : A) : stays (mret a).
Proof. by intros b b' r Hb [= <- <-]. Qed.
Lemma stays_fail {A} rc : stays (@fail A rc).
Proof. by intros b b' r Hb [= <- <-]. Qed.
Lemma stays_undefined {A} : stays (@undefined A).
Proof. by intros b b' r Hb. Qed.
Lemma stays_is_desc : stays is_desc.
Proof. by intros b b' r Hb [= <- <-]. Qed.
Lemma stays_only {A} (l : list A) : stays (only l).
Proof. destruct l as [|a []]; [apply stays_undefined|apply stays_ret|apply stays_undefined]. Qed.

Lemma stays_bind {A B} (m : M A) (k : A → M B) : stays m → (∀ a, stays (k a)) → stays (m ≫= k).
Proof.
  intros Hm Hk b b' r Hb. unfold mbind, M_bind.
  destruct (m b) as [[b1 [rc|a]]|] eqn:E; [|intros E'|done].
  - intros [= <- <-]. by eapply Hm.
  - destruct (Hm _ _ _ Hb E) as (H1 & <- & <-). by eapply Hk.
Qed.

Lemma too_small_inside b n w : inside b → opal_dss_too_small b (uwrap 64 (n * Z.of_nat w)) = false →
  - 2 ^ 31 ≤ n < 2 ^ 31 → (0 < w ≤ 16)%nat → (Z.to_nat n * w ≤ length (remaining b))%nat.
Proof.
  intros Hb Ht Hn Hw. unfold opal_dss_too_small, inside in *.
  destruct (Z.ltb_spec (Z.of_nat (length (base b))) (Z.of_nat (unpack_off b))); [done|].
  apply Z.ltb_ge in Ht. unfold remaining. rewrite length_drop.
  destruct (decide (0 ≤ n)); [|lia]. unfold uwrap in Ht. rewrite Z.mod_small in Ht by nia. nia.
Qed.

Create HintDb stays.
#[export] Hint Resolve stays_ret stays_fail stays_undefined stays_is_desc stays_only stays_bind : stays.

Definition int32_range (n : Z) : Prop := - 2 ^ 31 ≤ n < 2 ^ 31.

(** [stays_bind] with what the first computation is known to yield. *)
Definition yields {A} (m : M A) (P : A → Prop) : Prop := ∀ b b' a, m b = Some (b', inr a) → P a.

Lemma stays_bind_yields {A B} (m : M A) (k : A → M B) P :
  stays m → yields m P → (∀ a, P a → stays (k a)) → stays (m ≫= k).
Proof.
  intros Hm Hy Hk b b' r Hb. unfold mbind, M_bind.
  destruct (m b) as [[b1 [rc|a]]|] eqn:E; [|intros E'|done].
  - intros [= <- <-]. by eapply Hm.
  - destruct (Hm _ _ _ Hb E) as (H1 & <- & <-). eapply Hk; [by eapply Hy|done|done].
Qed.

Lemma yields_bind {A B} (m : M A) (k : A → M B) P : (∀ a, yields (k a) P) → yields (m ≫= k) P.
Proof.
  intros Hk b b' v. unfold mbind, M_bind. destruct (m b) as [[b1 [rc|a]]|]; try done. apply Hk.
Qed.

Lemma swrap_range w z : 0 < w → - 2 ^ (w - 1) ≤ swrap w z < 2 ^ (w - 1).
Proof.
  intros Hw. unfold swrap. pose proof (Z.mod_pos_bound z (2 ^ w) ltac:(lia)).
  assert (2 ^ w = 2 * 2 ^ (w - 1)) as E by (rewrite <-Z.pow_succ_r by lia; f_equal; lia).
  destruct (Z.ltb_spec (z mod 2 ^ w) (2 ^ (w - 1))); lia.
Qed.

Lemma stays_bytes n : int32_range n → stays (opal_dss_unpack_byte n).
Proof.
  intros Hn b b' r Hb. unfold opal_dss_unpack_byte.
  destruct (opal_dss_too_small b (uwrap 64 n)) eqn:Ht; intros [= <- <-]; [done|].
  rewrite <-(Z.mul_1_r n) in Ht. apply (too_small_inside b n 1) in Ht; [|done|done|lia].
  unfold inside, remaining, skip in *. rewrite length_drop in Ht. simpl. split; [lia|done].
Qed.

Lemma stays_words w n : (0 < w ≤ 8)%nat → int32_range n → stays (unpack_words w n).
Proof.
  intros Hw Hn b b' r Hb. unfold unpack_words.
  destruct (opal_dss_too_small b _) eqn:Ht; [by intros [= <- <-]|].
  apply (too_small_inside b n w) in Ht; [|done|done|lia]. revert b' r Hb Ht. generalize (Z.to_nat n).
  intros k. enough (∀ b, (k * w ≤ length (remaining b))%nat → inside b →
    let b' := (unpack_loop w k b).1 in inside b' ∧ base b' = base b ∧ fully_desc b' = fully_desc b) as HH.
  { intros b' r Hb Ht. specialize (HH b Ht Hb). destruct (unpack_loop w k b). by intros [= <- <-]. }
  clear -Hw. induction k as [|k IH]; intros b Ht Hb; cbn [unpack_loop]; [done|].
  specialize (IH (skip b w)). destruct (unpack_loop w k (skip b w)) as [b1 vs]. cbn in *.
  unfold remaining, inside, skip in *. simpl in *. rewrite !length_drop in *.
  destruct IH as (? & ? & ?); [lia|lia|]. done.
Qed.

Lemma stays_read_as f m : stays m → stays (read_as f m).
Proof. unfold read_as. eauto with stays. Qed.

Lemma stays_int32_1 : stays (odti_unpack_fn t_int32 1).
Proof. apply stays_read_as, stays_words; [lia|]. unfold int32_range. lia. Qed.

Lemma yields_int32_only : yields (l ← odti_unpack_fn t_int32 1; only l) int32_range.
Proof.
  intros b b' a. unfold mbind, M_bind. cbn [odti_unpack_fn t_int32]. unfold read_as, mbind, M_bind.
  destruct (opal_dss_unpack_int32 1 b) as [[b1 [rc|l]]|]; try done. unfold mret, M_ret.
  destruct l as [|z []]; try done. intros [= <- <-]. apply (swrap_range 32). lia.
Qed.

(** A length or a count read from the buffer, then used. *)
Lemma stays_int32_then {B} (k : Z → M B) : (∀ n, int32_range n → stays (k n)) →
  stays (l ← odti_unpack_fn t_int32 1; n ← only l; k n).
Proof.
  intros Hk b b' r Hb E.
  apply (stays_bind_yields (l ← odti_unpack_fn t_int32 1; only l) k int32_range) with (b := b) (r := r); try done.
  - apply stays_bind; [apply stays_int32_1|intros; apply stays_only].
  - apply yields_int32_only.
  - revert E. unfold mbind, M_bind. destruct (odti_unpack_fn t_int32 1 b) as [[? [|l]]|]; done.
Qed.

Lemma stays_times {A} (g : M A) n : stays g → stays (unpack_times g n).
Proof. intros Hg. induction n; simpl; eauto with stays. Qed.

Lemma stays_guard {A} (m : M A) n e : stays m →
  stays (λ b, if opal_dss_too_small b n then Some (b, inl e) else m b).
Proof.
  intros Hm b b' r Hb. destruct (opal_dss_too_small b n); [by intros [= <- <-]|by apply Hm].
Qed.

Lemma stays_get_type : stays opal_dss_get_data_type.
Proof.
  unfold opal_dss_get_data_type. apply stays_bind; [|intros; apply stays_only].
  apply stays_bytes. unfold int32_range. lia.
Qed.

Lemma stays_peek : stays opal_dss_peek_type.
Proof.
  intros b b' r Hb. unfold opal_dss_peek_type. destruct (negb _); [by intros [= <- <-]|].
  destruct (_ <=? _)%nat; [by intros [= <- <-]|].
  destruct (opal_dss_get_data_type b) as [[? ?]|]; [by intros [= <- <-]|done].
Qed.
#[export] Hint Resolve stays_get_type stays_peek stays_times stays_guard stays_read_as : stays.

(** A registered type whose unpack function never leaves the buffer. *)
Class Stays {A} (T : opal_dss_type_info_t A) := stays_unpack :
  ∀ n, int32_range n → stays (odti_unpack_fn T n).

Lemma stays_buffer {A} (T : opal_dss_type_info_t A) n : Stays T → int32_range n →
  stays (opal_dss_unpack_buffer T n).
Proof.
  intros HT Hn. unfold opal_dss_unpack_buffer. apply stays_bind; [apply stays_is_desc|]. intros d.
  apply stays_bind; [destruct d|intros _; by apply HT]; [|apply stays_ret].
  apply stays_bind; [apply stays_get_type|]. intros t. destruct (_ =? _); auto with stays.
Qed.

#[export] Instance stays_t_uint8 : Stays t_uint8.
Proof. intros n Hn. by apply stays_bytes. Qed.
#[export] Instance stays_t_byte : Stays t_byte.
Proof. intros n Hn. by apply stays_bytes. Qed.
#[export] Instance stays_t_int8 : Stays t_int8.
Proof. intros n Hn. by apply stays_read_as, stays_bytes. Qed.
#[export] Instance stays_t_uint16 : Stays t_uint16.
Proof. intros n Hn. apply stays_words; [lia|done]. Qed.
#[export] Instance stays_t_int16 : Stays t_int16.
Proof. intros n Hn. apply stays_read_as, stays_words; [lia|done]. Qed.
#[export] Instance stays_t_uint32 : Stays t_uint32.
Proof. intros n Hn. apply stays_words; [lia|done]. Qed.
#[export] Instance stays_t_int32 : Stays t_int32.
Proof. intros n Hn. apply stays_read_as, stays_words; [lia|done]. Qed.
#[export] Instance stays_t_uint64 : Stays t_uint64.
Proof. intros n Hn. apply stays_words; [lia|done]. Qed.
#[export] Instance stays_t_int64 : Stays t_int64.
Proof. intros n Hn. apply stays_read_as, stays_words; [lia|done]. Qed.

Lemma stays_generic {A} (T : opal_dss_type_info_t Z) (read conv : Z → A) n : Stays T → int32_range n →
  stays (unpack_generic T read conv n).
Proof.
  intros HT Hn. unfold unpack_generic. apply stays_bind; [apply stays_is_desc|]. intros d.
  apply stays_bind; [destruct d; auto with stays|]. intros t.
  destruct (_ =? _); [apply stays_bind; [by apply stays_buffer|auto with stays]|].
  unfold unpack_size_mismatch.
  repeat (destruct (_ =? _); [apply stays_bind; [apply stays_buffer; [apply _|done]|auto with stays]|]).
  apply stays_fail.
Qed.

#[export] Instance stays_t_bool : Stays t_bool.
Proof. intros n Hn. apply stays_generic; [apply _|done]. Qed.
#[export] Instance stays_t_int : Stays t_int.
Proof. intros n Hn. apply stays_generic; [apply _|done]. Qed.
#[export] Instance stays_t_uint : Stays t_uint.
Proof. intros n Hn. apply stays_read_as, stays_generic; [apply _|done]. Qed.
#[export] Instance stays_t_size : Stays t_size.
Proof. intros n Hn. apply stays_generic; [apply _|done]. Qed.
#[export] Instance stays_t_pid : Stays t_pid.
Proof. intros n Hn. apply stays_generic; [apply _|done]. Qed.

Lemma stays_one_string : stays unpack_one_string.
Proof.
  apply stays_int32_then. intros len Hlen. destruct (_ =? _); [apply stays_ret|].
  destruct (_ <? _); [apply stays_fail|]. apply stays_bind; [by apply stays_bytes|].
  intros bs. destruct (c_string bs); auto with stays.
Qed.
#[export] Instance stays_t_string : Stays t_string.
Proof. intros n Hn. apply stays_times, stays_one_string. Qed.
#[export] Instance stays_t_float `{FloatText} : Stays t_float.
Proof.
  intros n Hn. apply stays_guard, stays_times, stays_bind; [apply stays_times, stays_one_string|].
  intros l. apply stays_bind; [apply stays_only|]. intros []; auto with stays.
Qed.
#[export] Instance stays_t_timeval : Stays t_timeval.
Proof.
  intros n Hn. apply stays_guard, stays_times, stays_bind.
  - apply stays_t_int64. unfold int32_range. lia.
  - intros [|? [|? []]]; auto with stays.
Qed.
#[export] Instance stays_t_time : Stays t_time.
Proof.
  intros n Hn. apply stays_guard, stays_times, stays_bind.
  - apply stays_t_uint64. unfold int32_range. lia.
  - intros l. apply stays_bind; auto with stays.
Qed.
#[export] Instance stays_t_data_type : Stays t_data_type.
Proof. intros n Hn. apply stays_buffer; [apply _|done]. Qed.
Lemma stays_one_byte_object : stays unpack_one_byte_object.
Proof.
  apply stays_int32_then. intros size Hs. destruct (_ <? _); [|apply stays_ret].
  apply stays_bind; [by apply stays_bytes|auto with stays].
Qed.
#[export] Instance stays_t_byte_object : Stays t_byte_object.
Proof. intros n Hn. apply stays_times, stays_one_byte_object. Qed.
#[export] Instance stays_t_jobid : Stays t_jobid.
Proof. intros n Hn. apply stays_buffer; [apply _|done]. Qed.
#[export] Instance stays_t_vpid : Stays t_vpid.
Proof. intros n Hn. apply stays_buffer; [apply _|done]. Qed.
#[export] Instance stays_t_name : Stays t_name.
Proof.
  intros n Hn. apply stays_bind; [by apply stays_t_jobid|]. intros js.
  apply stays_bind; [by apply stays_t_vpid|auto with stays].
Qed.

(** ** Theorems *)

Lemma extended_readable b bs b' : unpack_off b = length (base b) → extended b bs b' → readable b' bs [].
Proof.
  intros Ho (_ & Hb & Hu & _). unfold readable, remaining. rewrite Hu, Ho, Hb, length_app.
  split; [lia|]. by rewrite drop_app_length, app_nil_r.
Qed.

(** The types of this file, which [opal_dss_open] and ORTE register, with the values of each
    that are carried (buffers, values, doubles and statistics have files of their own): those
    its C type holds, but a [pid_t] and an [unsigned int] only when they
    are not negative as an [int], a string and a byte object of up to [INT_MAX] bytes, and a
    [float] that its decimal text names. *)
Inductive dss_registered `{FloatText} : ∀ {A}, opal_dss_type_info_t A → (A → Prop) → Prop :=
  | reg_byte : dss_registered t_byte (in_u 8)
  | reg_bool : dss_registered t_bool (λ _, True)
  | reg_int : dss_registered t_int (in_s 32)
  | reg_uint : dss_registered t_uint (λ z, 0 ≤ z ≤ INT_MAX)
  | reg_int8 : dss_registered t_int8 (in_s 8)
  | reg_uint8 : dss_registered t_uint8 (in_u 8)
  | reg_int16 : dss_registered t_int16 (in_s 16)
  | reg_uint16 : dss_registered t_uint16 (in_u 16)
  | reg_int32 : dss_registered t_int32 (in_s 32)
  | reg_uint32 : dss_registered t_uint32 (in_u 32)
  | reg_int64 : dss_registered t_int64 (in_s 64)
  | reg_uint64 : dss_registered t_uint64 (in_u 64)
  | reg_size : dss_registered t_size (in_u 64)
  | reg_pid : dss_registered t_pid (λ z, 0 ≤ z ≤ INT_MAX)
  | reg_string : dss_registered t_string valid_string
  | reg_float : dss_registered t_float valid_float
  | reg_timeval : dss_registered t_timeval (λ tv, in_s 64 (tv_sec tv) ∧ in_s 64 (tv_usec tv))
  | reg_time : dss_registered t_time (in_s 64)
  | reg_data_type : dss_registered t_data_type (in_u 8)
  | reg_byte_object : dss_registered t_byte_object valid_bo
  | reg_jobid : dss_registered t_jobid (in_u 32)
  | reg_vpid : dss_registered t_vpid (in_u 32)
  | reg_name : dss_registered t_name valid_name.

Lemma registered_codec `{FloatText} {A} (T : opal_dss_type_info_t A) valid : dss_registered T valid → Codec T valid.
Proof. destruct 1; apply _. Qed.

Lemma registered_stays `{FloatText} {A} (T : opal_dss_type_info_t A) valid : dss_registered T valid → Stays T.
Proof. destruct 1; apply _. Qed.

(** C13. What [opal_dss.pack] puts into a buffer with nothing left to read,
    [opal_dss.unpack] takes out again: the same values, their exact number, success,
    and nothing left, in described and undescribed buffers, for each of the types
    [dss_registered] lists and the values it says are carried; the bytes always fit in the
    memory the buffer owns. *)
Theorem opal_dss_round_trip `{FloatText} {A} (T : opal_dss_type_info_t A) valid vals num b :
  dss_registered T valid → Forall valid vals → 0 < Z.of_nat (length vals) ≤ INT_MAX →
  Z.of_nat (length vals) ≤ num → unpack_off b = length (base b) →
  ∃ b1 b2, opal_dss_pack T vals b = Some (b1, inr tt) ∧ (capacity_ok b → capacity_ok b1) ∧
    opal_dss_unpack T num b1 = Some (b2, (OPAL_SUCCESS, Z.of_nat (length vals), vals)) ∧
    remaining b2 = [].
Proof.
  intros HT%registered_codec Hv Hl Hn Ho.
  destruct (packs_dss T (fully_desc b) vals vals (HT _ _ Hv ltac:(lia)) Hl) as (bs & Hp & Hu).
  destruct (Hp b eq_refl) as (b1 & E1 & Hx). pose proof (extended_readable b bs b1 Ho Hx) as Hr.
  exists b1, (skip b1 (length bs)). split_and!; [done|apply Hx|apply (Hu num b1 []); [done|apply Hx|done]|].
  rewrite <-(app_nil_r bs) in Hr. apply (readable_skip b1 bs [] []) in Hr. apply Hr.
Qed.

Lemma opal_dss_round_trip_witness :
  ∃ b1 b2, opal_dss_pack t_string [Some (lit "node7"); None] (mk_buf true [] 0 0) = Some (b1, inr tt) ∧
    (capacity_ok (mk_buf true [] 0 0) → capacity_ok b1) ∧
    opal_dss_unpack t_string 4 b1 = Some (b2, (OPAL_SUCCESS, 2, [Some (lit "node7"); None])) ∧
    remaining b2 = [].
Proof.
  apply (@opal_dss_round_trip {| printf_f := λ _, []; strtof := λ _, 0 |} _ t_string valid_string [Some (lit "node7"); None] 4);
    [constructor| |done|done|done].
  apply Forall_cons_2; [split; [done|forall_list]|forall_list].
Defined.

(** A buffer is a queue: values packed one after the other, at whatever types, are
    unpacked in the same order, whatever is packed behind them. *)
Theorem opal_dss_fifo {A B} (T : opal_dss_type_info_t A) (U : opal_dss_type_info_t B) vT vU xs ys b :
  Codec T vT → Codec U vU → Forall vT xs → Forall vU ys →
  0 < Z.of_nat (length xs) ≤ INT_MAX → 0 < Z.of_nat (length ys) ≤ INT_MAX →
  unpack_off b = length (base b) →
  ∃ b1 b2 b3 b4, opal_dss_pack T xs b = Some (b1, inr tt) ∧ opal_dss_pack U ys b1 = Some (b2, inr tt) ∧
    opal_dss_unpack T (Z.of_nat (length xs)) b2 = Some (b3, (OPAL_SUCCESS, Z.of_nat (length xs), xs)) ∧
    opal_dss_unpack U (Z.of_nat (length ys)) b3 = Some (b4, (OPAL_SUCCESS, Z.of_nat (length ys), ys)) ∧
    remaining b4 = [].
Proof.
  intros HT HU Hx Hy Hlx Hly Ho.
  destruct (packs_dss T (fully_desc b) xs xs (HT _ _ Hx ltac:(lia)) Hlx) as (s & Hp & Hu).
  destruct (packs_dss U (fully_desc b) ys ys (HU _ _ Hy ltac:(lia)) Hly) as (t & Hp' & Hu').
  destruct (Hp b eq_refl) as (b1 & E1 & X1). destruct (Hp' b1) as (b2 & E2 & X2); [apply X1|].
  pose proof (extended_trans _ _ _ _ _ X1 X2) as X12.
  pose proof (extended_readable b (s ++ t) b2 Ho X12) as Hr.
  exists b1, b2, (skip b2 (length s)), (skip (skip b2 (length s)) (length t)). split_and!; try done.
  - apply (Hu _ b2 (t ++ [])); [lia|apply X12|by apply readable_app].
  - apply (Hu' _ _ []); [lia|apply X12|by apply readable_skip].
  - apply (readable_skip b2 s t) in Hr. rewrite <-(app_nil_r t) in Hr.
    apply (readable_skip _ t [] []) in Hr. apply Hr.
Qed.

Lemma opal_dss_fifo_witness :
  ∃ b1 b2 b3 b4, opal_dss_pack t_uint8 [5] (mk_buf false [] 0 0) = Some (b1, inr tt) ∧
    opal_dss_pack t_name [mk_name 1 2] b1 = Some (b2, inr tt) ∧
    opal_dss_unpack t_uint8 1 b2 = Some (b3, (OPAL_SUCCESS, 1, [5])) ∧
    opal_dss_unpack t_name 1 b3 = Some (b4, (OPAL_SUCCESS, 1, [mk_name 1 2])) ∧ remaining b4 = [].
Proof.
  apply (opal_dss_fifo t_uint8 t_name (in_u 8) valid_name [5] [mk_name 1 2]); try done; try apply _.
  - apply Forall_cons_2; [by unfold in_u|forall_list].
  - apply Forall_cons_2; [by unfold valid_name, in_u|forall_list].
Defined.

(** In a described buffer a value cannot be read at another type: unpacking
    reports the mismatch and no values. *)
Theorem opal_dss_type_mismatch {A B} (T : opal_dss_type_info_t A) (U : opal_dss_type_info_t B) valid vals num b :
  Codec T valid → Forall valid vals → 0 < Z.of_nat (length vals) ≤ INT_MAX →
  num ≠ 0 → fully_desc b = true → unpack_off b = length (base b) → odti_type T ≠ odti_type U →
  ∃ b1 b2, opal_dss_pack T vals b = Some (b1, inr tt) ∧
    opal_dss_unpack U num b1 = Some (b2, (OPAL_ERR_PACK_MISMATCH, 0, [])).
Proof.
  intros HT Hv Hl Hn Hd Ho Hne. unfold INT_MAX in Hl.
  destruct (HT true vals Hv) as (bs & Hp & _); [unfold INT_MAX; lia|].
  destruct (count_one true (Z.of_nat (length vals))) as (x & Hx & Hc); [unfold in_s; simpl; lia|].
  assert (packs true (opal_dss_pack T vals) (([OPAL_INT32] ++ x) ++ [odti_type T] ++ bs)) as HP.
  { apply packs_is_desc. rewrite <-app_assoc. apply packs_bind; [apply packs_store_type|].
    apply packs_bind; [done|]. apply packs_is_desc, packs_bind; [apply packs_store_type|done]. }
  destruct (HP b Hd) as (b1 & E1 & X1). pose proof (extended_readable b _ b1 Ho X1) as Hr.
  exists b1. eexists. split; [done|]. unfold opal_dss_unpack. destruct (Z.eqb_spec num 0); [done|].
  assert (fully_desc b1 = true) as Hd1 by (destruct X1; congruence).
  rewrite (Hc b1 (([odti_type T] ++ bs) ++ [])) by (done || by apply readable_app).
  apply (readable_skip b1 ([OPAL_INT32] ++ x)) in Hr.
  unfold opal_dss_unpack_buffer, mbind, M_bind, is_desc. cbn [type_tag].
  change (fully_desc (skip b1 (length ([OPAL_INT32] ++ x)))) with (fully_desc b1). rewrite Hd1.
  rewrite (unpacks_get_type true (odti_type T) (skip b1 (length ([OPAL_INT32] ++ x))) (bs ++ []));
    [|done|by apply readable_app].
  destruct (Z.eqb_spec (odti_type U) (odti_type T)); [congruence|]. reflexivity.
Qed.

Lemma opal_dss_type_mismatch_witness :
  ∃ b1 b2, opal_dss_pack t_int64 [7] (mk_buf true [] 0 0) = Some (b1, inr tt) ∧
    opal_dss_unpack t_uint32 1 b1 = Some (b2, (OPAL_ERR_PACK_MISMATCH, 0, [])).
Proof.
  apply (opal_dss_type_mismatch t_int64 t_uint32 (in_s 64) [7] 1); try done; [apply _|].
  apply Forall_cons_2; [by unfold in_s|forall_list].
Defined.

(** C38. Whatever bytes a peer sent, unpacking them at any of the types [dss_registered] lists, when
    it returns, has not read past the last byte received and has not changed the packed
    bytes.  (It does not return with a defined result for a string without its ending NUL.) *)
Theorem opal_dss_unpack_inside `{FloatText} {A} (T : opal_dss_type_info_t A) valid num b b' r :
  dss_registered T valid → int32_range num → inside b → opal_dss_unpack T num b = Some (b', r) →
  inside b' ∧ base b' = base b.
Proof.
  intros HT%registered_stays Hn Hb. unfold opal_dss_unpack. destruct (_ =? _); [by intros [= <- <-]|].
  assert (stays unpack_count ∧ yields unpack_count int32_range) as [Hc Hy].
  { split.
    - apply stays_bind; [apply stays_is_desc|]. intros d.
      apply stays_bind; [destruct d; [|apply stays_ret]|intros _; apply stays_bind; [apply stays_int32_1|intros; apply stays_only]].
      apply stays_bind; [apply stays_get_type|]. intros t. destruct (_ =? _); auto with stays.
    - apply yields_bind. intros d. apply yields_bind. intros _. apply yields_int32_only. }
  destruct (unpack_count b) as [[b1 [rc|n]]|] eqn:E1; try done.
  { intros [= <- <-]. destruct (Hc _ _ _ Hb E1) as (? & ? & _). done. }
  destruct (Hc _ _ _ Hb E1) as (Hb1 & Eb & _). pose proof (Hy _ _ _ E1) as Hr.
  assert (stays (opal_dss_unpack_buffer T (if num <? n then num else n))) as Hs
    by (apply stays_buffer; [done|by destruct (num <? n)]).
  destruct (opal_dss_unpack_buffer T _ b1) as [[b2 [rc|l]]|] eqn:E2; try done;
    intros [= <- <-]; destruct (Hs _ _ _ Hb1 E2) as (? & ? & _); split; congruence.
Qed.

Lemma opal_dss_unpack_inside_witness :
  let b := mk_buf false [0; 0; 0; 1; 0; 0; 0; 9; 65] 0 9 in
  ∃ b' r, opal_dss_unpack t_string 1 b = Some (b', r) ∧ r.1.1 = OPAL_ERR_UNPACK_READ_PAST_END_OF_BUFFER ∧
          inside b' ∧ base b' = base b.
Proof.
  eexists _, _. split; [reflexivity|]. split; [reflexivity|].
  eapply (@opal_dss_unpack_inside {| printf_f := λ _, []; strtof := λ _, 0 |} _ t_string _ 1
      (mk_buf false [0; 0; 0; 1; 0; 0; 0; 9; 65] 0 9)); [constructor|by unfold int32_range|unfold inside; simpl; lia|reflexivity].
Defined.

(** Moving a payload: unloading a buffer into another one hands over every packed
    byte, unread; copying hands over exactly the unread part, behind what the
    destination already holds, and refuses to mix the two kinds of buffer. *)
Theorem opal_dss_payload dest src :
  inside src →
  (let '(p, n, src') := opal_dss_unload src in
   base (opal_dss_load dest p) = base src ∧ unpack_off (opal_dss_load dest p) = 0%nat ∧
   n = bytes_used src ∧ base src' = []) ∧
  (let '(dest', rc) := opal_dss_copy_payload dest src in
   if decide (base dest = [] ∨ fully_desc dest = fully_desc src)
   then rc = OPAL_SUCCESS ∧ base dest' = base dest ++ remaining src ∧
        (capacity_ok dest → capacity_ok dest')
   else rc = OPAL_ERR_BUFFER ∧ dest' = dest).
Proof.
  intros Hi. split.
  - unfold opal_dss_unload. destruct (Nat.eqb_spec (length (base src)) 0) as [E|E]; simpl.
    + apply nil_length_inv in E. unfold bytes_used. by rewrite E.
    + done.
  - unfold opal_dss_copy_payload.
    assert ((bytes_used dest =? 0) = bool_decide (base dest = [])) as ->.
    { unfold bytes_used. destruct (base dest); [done|]. rewrite bool_decide_eq_false_2 by done.
      apply Z.eqb_neq. simpl. lia. }
    destruct (decide (base dest = [] ∨ fully_desc dest = fully_desc src)) as [Hc|Hc].
    + assert (negb (bool_decide (base dest = [])) && negb (bool_decide (fully_desc dest = fully_desc src)) = false) as ->.
      { destruct Hc as [Hc|Hc]; rewrite (bool_decide_eq_true_2 _ Hc); [done|]. simpl. apply andb_false_r. }
      unfold bytes_used. destruct (Z.eqb_spec (Z.of_nat (length (base src)) - Z.of_nat (unpack_off src)) 0) as [E|E].
      * split_and!; [done| |done]. simpl. unfold remaining. rewrite drop_ge by lia. by rewrite app_nil_r.
      * set (d := mk_buf _ _ _ _).
        destruct (store_extended d (remaining src) (Z.of_nat (length (base src)) - Z.of_nat (unpack_off src)))
          as (_ & Hb & _ & Hcap); [unfold remaining; rewrite length_drop; unfold inside in Hi; lia|].
        split_and!; [done|exact Hb|exact Hcap].
    + rewrite !bool_decide_eq_false_2 by tauto. done.
Qed.

Lemma opal_dss_payload_witness :
  base (opal_dss_copy_payload (mk_buf false [1] 0 128) (mk_buf false [2; 3; 4] 1 128)).1 = [1; 3; 4].
Proof.
  destruct (opal_dss_payload (mk_buf false [1] 0 128) (mk_buf false [2; 3; 4] 1 128)) as [_ H];
    [unfold inside; simpl; lia|].
  destruct (opal_dss_copy_payload _ _) as [d rc]. rewrite decide_True in H by (by right). apply H.
Defined.

End Dss.
