(* ===== verification/ProcTable.v ===== *)
(** * The process table (opal_proc_table_t of opal/class/opal_hash_table.c)

    A hash table from job ids to hash tables from process ids to values.  The inner
    tables are objects of their own: the outer table holds references to them, and an
    object that is used after its release is undefined behaviour. *)

From Stdlib Require Import ZArith Lia.
From stdpp Require Import prelude numbers strings gmap list.
From S2P Require Import Prelude PointerArray CString Dss HashTable HashSpec HashRefines.

Local Open Scope Z_scope.

Module PT.
Import Dss HT HashSpec HashRefines.

Section proc_table.
Context {V : Type} `{Inhabited V}.
Abbreviation vpids_t := (opal_hash_table_t uint32 V).

Record opal_proc_table_t := mk_pt {
  super : opal_hash_table_t uint32 nat;
  pt_size : Z;
  vpids_size : Z;
  heap : gmap nat vpids_t;
}.
Implicit Types pt : opal_proc_table_t.

Definition set_super t pt := mk_pt t (pt_size pt) (vpids_size pt) (heap pt).
Definition set_heap h pt := mk_pt (super pt) (pt_size pt) (vpids_size pt) h.

Context (calloc : Z → bool).

Definition opal_proc_table_construct : opal_proc_table_t := mk_pt opal_hash_table_construct 0 0 ∅.

Definition opal_proc_table_init pt (jobids vpids : Z) : option (opal_proc_table_t * Z) :=
  '(t, rc) ← opal_hash_table_init calloc (super pt) jobids;
  if negb (rc =? OPAL_SUCCESS) then Some (set_super t pt, rc) else
  Some (mk_pt t (pt_size pt) vpids (heap pt), OPAL_SUCCESS).

(** The inner table of a job, as a reference. *)
Definition get_vpids pt (jobid : Z) : option (opal_proc_table_t * (Z + nat)) :=
  '(t, r) ← opal_hash_table_get_value_uint32 (super pt) jobid;
  Some (set_super t pt, r).

Definition opal_proc_table_get_value pt (key : opal_process_name_t) : option (opal_proc_table_t * (Z + V)) :=
  '(pt, r) ← get_vpids pt (jobid key);
  match r with
  | inl rc => Some (pt, inl rc)
  | inr vpids =>
    t ← heap pt !! vpids;
    '(t, v) ← opal_hash_table_get_value_uint32 t (vpid key);
    Some (set_heap (<[vpids := t]> (heap pt)) pt, v)
  end.

(** A new inner table for the job, stored in the outer one. *)
Definition new_vpids pt (jobid : Z) : option (opal_proc_table_t * (Z + nat)) :=
  let vpids := fresh (dom (heap pt)) in
  '(t, rc) ← opal_hash_table_init calloc opal_hash_table_construct (vpids_size pt);
  if negb (rc =? OPAL_SUCCESS) then Some (pt, inl rc) else
  '(s, rc) ← opal_hash_table_set_value_uint32 calloc (super pt) jobid vpids;
  let pt := set_super s pt in
  if negb (rc =? OPAL_SUCCESS) then Some (pt, inl rc) else
  Some (set_heap (<[vpids := t]> (heap pt)) pt, inr vpids).

Definition opal_proc_table_set_value pt (key : opal_process_name_t) (value : V) : option (opal_proc_table_t * Z) :=
  '(pt, r) ← get_vpids pt (jobid key);
  '(pt, r) ← match r with inl _ => new_vpids pt (jobid key) | inr vpids => Some (pt, inr vpids) end;
  match r with
  | inl rc => Some (pt, rc)
  | inr vpids =>
    t ← heap pt !! vpids;
    '(t, rc) ← opal_hash_table_set_value_uint32 calloc t (vpid key) value;
    Some (set_heap (<[vpids := t]> (heap pt)) pt, rc)
  end.

Definition opal_proc_table_remove_value pt (key : opal_process_name_t) : option (opal_proc_table_t * Z) :=
  '(pt, r) ← get_vpids pt (jobid key);
  match r with
  | inl rc => Some (pt, rc)
  | inr vpids =>
    t ← heap pt !! vpids;
    '(t, rc) ← opal_hash_table_remove_value_uint32 t (vpid key);
    let pt := set_heap (<[vpids := t]> (heap pt)) pt in
    if (rc =? OPAL_SUCCESS) && (ht_size t =? 0) then
      '(s, _) ← opal_hash_table_remove_value_uint32 (super pt) (jobid key);
      Some (set_heap (delete vpids (heap pt)) (set_super s pt), rc)
    else Some (pt, rc)
  end.

(** The walk over the outer table; each inner table is emptied and released. *)
Fixpoint release_all (fuel : nat) pt (node : option nat) : option (opal_proc_table_t * Z) :=
  match fuel with
  | O => None
  | S fuel =>
    match opal_hash_table_get_next_key_uint32 (super pt) node with
    | None => Some (pt, OPAL_ERROR)
    | Some (_, vpids, n) =>
      _ ← heap pt !! vpids;
      release_all fuel (set_heap (delete vpids (heap pt)) pt) (Some n)
    end
  end.

Definition opal_proc_table_remove_all pt : option (opal_proc_table_t * Z) :=
  release_all (S (length (ht_table (super pt)))) pt None.

(** A position in the table: an element of the outer and one of an inner table. *)
Definition opal_proc_table_get_first_key pt : option (opal_process_name_t * V * nat * nat) :=
  '(j, vpids, node1) ← opal_hash_table_get_first_key_uint32 (super pt);
  t ← heap pt !! vpids;
  '(v, value, node2) ← opal_hash_table_get_first_key_uint32 t;
  Some (mk_name (u32 j) (u32 v), value, node1, node2).

Definition opal_proc_table_get_next_key pt (in_node1 in_node2 : nat) : option (opal_process_name_t * V * nat * nat) :=
  e ← ht_table (super pt) !! in_node1;
  t ← heap pt !! value e;
  match opal_hash_table_get_next_key_uint32 t (Some in_node2) with
  | Some (v, value, node2) => Some (mk_name (u32 (key e)) (u32 v), value, in_node1, node2)
  | None =>
    '(j, vpids, node1) ← opal_hash_table_get_next_key_uint32 (super pt) (Some in_node1);
    t ← heap pt !! vpids;
    '(v, value, node2) ← opal_hash_table_get_first_key_uint32 t;
    Some (mk_name (u32 j) (u32 v), value, node1, node2)
  end.
End proc_table.
Arguments opal_proc_table_t : clear implicits.

(** ** The map of maps it stands for *)

Section spec.
Context {V : Type} `{Inhabited V}.
Context (calloc : Z → bool) (calloc_limit : ∀ n, calloc n = true → n * 32 < 2 ^ 63).
Implicit Types pt : opal_proc_table_t V.

Record pt_rep_at pt (refs : gmap uint32 nat) (M : gmap uint32 (gmap uint32 V)) : Prop := {
  pr_super : rep (super pt) refs;
  pr_dom j : is_Some (refs !! j) ↔ is_Some (M !! j);
  pr_inner j r mi : refs !! j = Some r → M !! j = Some mi →
    mi ≠ ∅ ∧ ∃ t, heap pt !! r = Some t ∧ rep t mi;
  pr_inj j j' r : refs !! j = Some r → refs !! j' = Some r → j = j';
  pr_size : 0 ≤ vpids_size pt < 2 ^ 60;
}.

Definition pt_rep pt M : Prop := ∃ refs, pt_rep_at pt refs M.

Lemma pt_rep_methods pt refs M : pt_rep_at pt refs M → pt_rep_at (set_super (set_methods true (super pt)) pt) refs M.
Proof. intros [[Hs Hr] ? ? ? ?]. split; try done. split; [by apply stands_set_methods|done]. Qed.

Lemma get_vpids_run pt refs M j : pt_rep_at pt refs M →
  get_vpids pt j = Some (set_super (set_methods true (super pt)) pt,
                         match refs !! U32 j with Some r => inr r | None => inl OPAL_ERR_NOT_FOUND end).
Proof.
  intros HR. unfold get_vpids, opal_hash_table_get_value_uint32.
  rewrite (get_value_run _ refs) by (by destruct HR). done.
Qed.

(** Replacing the inner table of a job. *)
Lemma pt_rep_inner pt refs M j r t mi : pt_rep_at pt refs M → refs !! j = Some r → rep t mi → mi ≠ ∅ →
  pt_rep_at (set_heap (<[r := t]> (heap pt)) pt) refs (<[j := mi]> M).
Proof.
  intros [Hs Hd Hi Hj Hz] Hr Ht Hne. split; [done| | |done|done].
  - intros j'. rewrite Hd, lookup_insert_is_Some. destruct (decide (j = j')) as [<-|]; [|naive_solver].
    split; [by left|]. intros _. apply Hd. by eexists.
  - intros j' r' mi' Hr' HM'. destruct (decide (j = j')) as [<-|Hne'].
    + rewrite lookup_insert_eq in HM'. simplify_eq. split; [done|]. exists t. cbn. by rewrite lookup_insert_eq.
    + rewrite lookup_insert_ne in HM' by done. destruct (Hi j' r' mi' Hr' HM') as (? & t' & Ht' & ?).
      split; [done|]. exists t'. cbn. rewrite lookup_insert_ne; [done|]. intros <-. apply Hne'. by eapply Hj.
Qed.

Lemma rep_methods (t : opal_hash_table_t uint32 V) mi : rep t mi → rep (set_methods true t) mi.
Proof. intros []. split; [by apply stands_set_methods|done]. Qed.

Lemma proc_get_run pt M k : pt_rep pt M →
  ∃ pt', opal_proc_table_get_value pt k =
    Some (pt', match M !! U32 (jobid k) ≫= (.!! U32 (vpid k)) with Some v => inr v | None => inl OPAL_ERR_NOT_FOUND end) ∧
    pt_rep pt' M.
Proof.
  intros [refs HR]. unfold opal_proc_table_get_value. rewrite (get_vpids_run pt refs M) by done. cbn [mbind option_bind].
  pose proof (pt_rep_methods pt refs M HR) as HR1. set (pt1 := set_super _ _) in *.
  destruct (refs !! U32 (jobid k)) as [r|] eqn:Hr; cbn [mbind option_bind].
  - destruct (proj1 (pr_dom _ _ _ HR1 (U32 (jobid k)))) as [mi Hmi]; [by eexists|].
    destruct (pr_inner _ _ _ HR1 _ r mi Hr Hmi) as (Hne & t & Ht & Hrep).
    rewrite Ht. cbn [mbind option_bind]. unfold opal_hash_table_get_value_uint32.
    rewrite (get_value_run t mi) by done. cbn [mbind option_bind]. rewrite Hmi. cbn.
    eexists. split; [reflexivity|]. exists refs.
    replace M with (<[U32 (jobid k) := mi]> M) by (by apply insert_id).
    apply (pt_rep_inner pt1); try done. by apply rep_methods.
  - destruct (M !! U32 (jobid k)) as [mi|] eqn:Hmi.
    { destruct (proj2 (pr_dom _ _ _ HR (U32 (jobid k)))) as [r ?]; [by eexists|congruence]. }
    cbn. eexists. split; [reflexivity|]. by exists refs.
Qed.

(** The outer table gets a job with a new inner table. *)
Lemma pt_rep_new pt refs M j s t mi (r := fresh (dom (heap pt))) : pt_rep_at pt refs M → refs !! j = None →
  rep s (<[j := r]> refs) → rep t mi → mi ≠ ∅ →
  pt_rep_at (set_heap (<[r := t]> (heap pt)) (set_super s pt)) (<[j := r]> refs) (<[j := mi]> M).
Proof.
  intros [Hs Hd Hi Hj Hz] Hrj Hrep Ht Hne.
  assert (∀ j' mi', refs !! j' = Some r → M !! j' = Some mi' → False) as Hfresh.
  { intros j' mi' Hr' HM'. destruct (Hi j' r mi' Hr' HM') as (_ & t' & Ht' & _).
    apply (is_fresh (dom (heap pt))), elem_of_dom. by eexists. }
  assert (∀ j', refs !! j' ≠ Some r) as Hfresh'.
  { intros j' Hr'. destruct (proj1 (Hd j')) as [mi' ?]; [by eexists|]. by eapply Hfresh. }
  split; [done| | | |done].
  - intros j'. rewrite !lookup_insert_is_Some. rewrite (Hd j'). tauto.
  - intros j' r' mi' Hr' HM'. cbn [heap set_heap]. destruct (decide (j = j')) as [<-|Hne'].
    + rewrite lookup_insert_eq in Hr'. rewrite lookup_insert_eq in HM'. simplify_eq. split; [done|]. exists t. by rewrite lookup_insert_eq.
    + rewrite lookup_insert_ne in Hr' by done. rewrite lookup_insert_ne in HM' by done. destruct (Hi j' r' mi' Hr' HM') as (? & t' & Ht' & ?).
      split; [done|]. exists t'. rewrite lookup_insert_ne; [done|]. intros <-. by eapply Hfresh.
  - intros j1 j2 r' H1 H2. destruct (decide (j = j1)) as [<-|], (decide (j = j2)) as [<-|]; [done| | |].
    + rewrite lookup_insert_eq in H1. rewrite lookup_insert_ne in H2 by done. simplify_eq. by apply Hfresh' in H2.
    + rewrite lookup_insert_ne in H1 by done. rewrite lookup_insert_eq in H2. simplify_eq. by apply Hfresh' in H1.
    + rewrite lookup_insert_ne in H1 by done. rewrite lookup_insert_ne in H2 by done. by eapply Hj.
Qed.

Definition set_in (M : gmap uint32 (gmap uint32 V)) (k : opal_process_name_t) (v : V) : gmap uint32 (gmap uint32 V) :=
  <[U32 (jobid k) := <[U32 (vpid k) := v]> (default ∅ (M !! U32 (jobid k)))]> M.

Lemma proc_set_run pt M k v : pt_rep pt M →
  ∃ pt' rc, opal_proc_table_set_value calloc pt k v = Some (pt', rc) ∧
    ((rc = OPAL_SUCCESS ∧ pt_rep pt' (set_in M k v)) ∨ rc = OPAL_ERR_OUT_OF_RESOURCE).
Proof.
  intros [refs HR]. unfold opal_proc_table_set_value. rewrite (get_vpids_run pt refs M) by done. cbn [mbind option_bind].
  pose proof (pt_rep_methods pt refs M HR) as HR1. set (pt1 := set_super _ _) in *. unfold opal_hash_table_set_value_uint32.
  destruct (refs !! U32 (jobid k)) as [r|] eqn:Hr; cbn [mbind option_bind].
  - destruct (proj1 (pr_dom _ _ _ HR1 (U32 (jobid k)))) as [mi Hmi]; [by eexists|].
    destruct (pr_inner _ _ _ HR1 _ r mi Hr Hmi) as (Hne & t & Ht & Hrep). rewrite Ht. cbn [mbind option_bind].
    destruct (set_value_run calloc calloc_limit t mi (U32 (vpid k)) v Hrep) as (t' & rc & -> & Hw). cbn [mbind option_bind].
    eexists _, _. split; [reflexivity|]. destruct Hw as [[-> ?]|[-> _]]; [left; split; [done|]|by right].
    exists refs. unfold set_in. rewrite Hmi. apply (pt_rep_inner pt1); try done. apply insert_non_empty.
  - unfold new_vpids. set (r := fresh (dom (heap pt1))). destruct (hash_init_run (K := uint32) (V := V) calloc calloc_limit (vpids_size pt1)) as (t & rc & -> & Hrc);
      [by destruct HR1|]. cbn [mbind option_bind].
    destruct Hrc as [[-> Ht]| ->]; [|by eexists _, _; split; [reflexivity|right]]. cbn [Z.eqb negb].
    unfold opal_hash_table_set_value_uint32.
    destruct (set_value_run calloc calloc_limit (super pt1) refs (U32 (jobid k)) r) as (s & rc & -> & Hw);
      [by destruct HR1|]. cbn [mbind option_bind].
    destruct Hw as [[-> Hs]|[-> _]]; [|by eexists _, _; split; [reflexivity|right]]. cbn [Z.eqb negb mbind option_bind].
    rewrite Z.eqb_refl. cbn [negb mbind option_bind heap set_heap set_super]. rewrite lookup_insert_eq. cbn [mbind option_bind].
    destruct (set_value_run calloc calloc_limit t ∅ (U32 (vpid k)) v Ht) as (t' & rc & -> & Hw). cbn [mbind option_bind].
    eexists _, _. split; [reflexivity|]. destruct Hw as [[-> Ht']|[-> _]]; [left; split; [done|]|by right].
    eexists. unfold set_in.
    assert (M !! U32 (jobid k) = None) as HM.
    { apply eq_None_not_Some. intros Hsome%(pr_dom _ _ _ HR1). rewrite Hr in Hsome. by destruct Hsome. }
    rewrite HM. cbn [default]. 
    pose proof (pt_rep_new pt1 refs M (U32 (jobid k)) s t' (<[U32 (vpid k) := v]> ∅) HR1 Hr Hs Ht' ltac:(apply insert_non_empty)) as HR2.
    unfold set_heap. cbn [heap super pt_size vpids_size]. rewrite insert_insert_eq. exact HR2.
Qed.

Definition remove_in (M : gmap uint32 (gmap uint32 V)) (k : opal_process_name_t) : gmap uint32 (gmap uint32 V) :=
  let mi := delete (U32 (vpid k)) (default ∅ (M !! U32 (jobid k))) in
  if decide (size mi = 0%nat) then delete (U32 (jobid k)) M else <[U32 (jobid k) := mi]> M.

(** A job whose inner table is released leaves the outer table. *)
Lemma pt_rep_drop pt refs M j r s : pt_rep_at pt refs M → refs !! j = Some r → rep s (delete j refs) →
  pt_rep_at (set_heap (delete r (heap pt)) (set_super s pt)) (delete j refs) (delete j M).
Proof.
  intros [Hs Hd Hi Hj Hz] Hr Hrep. split; [done| | | |done].
  - intros j'. rewrite !lookup_delete_is_Some. rewrite (Hd j'). tauto.
  - intros j' r' mi' Hr' HM'. apply lookup_delete_Some in Hr' as [Hne Hr']. apply lookup_delete_Some in HM' as [_ HM'].
    destruct (Hi j' r' mi' Hr' HM') as (? & t' & Ht' & ?). split; [done|]. exists t'. cbn.
    rewrite lookup_delete_ne; [done|]. intros <-. apply Hne. by eapply Hj.
  - intros j1 j2 r' [_ H1]%lookup_delete_Some [_ H2]%lookup_delete_Some. by eapply Hj.
Qed.

Lemma proc_remove_run pt M k : pt_rep pt M →
  ∃ pt', opal_proc_table_remove_value pt k =
      Some (pt', if decide (M !! U32 (jobid k) ≫= (.!! U32 (vpid k)) = None) then OPAL_ERR_NOT_FOUND else OPAL_SUCCESS) ∧
    pt_rep pt' (if decide (M !! U32 (jobid k) ≫= (.!! U32 (vpid k)) = None) then M else remove_in M k).
Proof.
  intros [refs HR]. unfold opal_proc_table_remove_value. rewrite (get_vpids_run pt refs M) by done. cbn [mbind option_bind].
  pose proof (pt_rep_methods pt refs M HR) as HR1. set (pt1 := set_super _ _) in *. unfold opal_hash_table_remove_value_uint32.
  destruct (refs !! U32 (jobid k)) as [r|] eqn:Hr; cycle 1.
  { assert (M !! U32 (jobid k) = None) as ->.
    { apply eq_None_not_Some. intros Hsome%(pr_dom _ _ _ HR1). rewrite Hr in Hsome. by destruct Hsome. }
    eexists. split; [reflexivity|]. by exists refs. }
  destruct (proj1 (pr_dom _ _ _ HR1 (U32 (jobid k)))) as [mi Hmi]; [by eexists|].
  destruct (pr_inner _ _ _ HR1 _ r mi Hr Hmi) as (Hne & t & Ht & Hrep). rewrite Ht. cbn [mbind option_bind].
  destruct (remove_value_run t mi (U32 (vpid k)) Hrep) as (t' & -> & Hrep'). cbn [mbind option_bind].
  unfold remove_in. rewrite Hmi. cbn [mbind option_bind]. change (default ∅ (Some mi)) with mi.
  assert (ht_size t' = Z.of_nat (size (delete (U32 (vpid k)) mi))) as Hsz by (by destruct Hrep' as [[] _]).
  destruct (decide (mi !! U32 (vpid k) = None)) as [Hk|Hk]; cbn [andb Z.eqb].
  - eexists. split; [reflexivity|]. exists refs. rewrite delete_id in Hrep' by done.
    replace M with (<[U32 (jobid k) := mi]> M) by (by apply insert_id). by apply (pt_rep_inner pt1).
  - rewrite Hsz. cbn [andb]. case_decide as Hz.
    + rewrite Hz. cbn [Z.of_nat Z.eqb]. 
      destruct (remove_value_run (super pt1) refs (U32 (jobid k))) as (s & Es & Hs); [by destruct HR1|].
      change (super (set_heap _ pt1)) with (super pt1). rewrite Z.eqb_refl. cbn [andb]. rewrite Es. cbn [mbind option_bind].
      eexists. split; [reflexivity|]. exists (delete (U32 (jobid k)) refs).
      cbn [heap set_heap set_super super pt_size vpids_size]. unfold set_heap. cbn [heap super pt_size vpids_size set_super].
      rewrite delete_insert_eq. apply (pt_rep_drop pt1); done.
    + destruct (Z.eqb_spec (Z.of_nat (size (delete (U32 (vpid k)) mi))) 0) as [|_]; [lia|]. rewrite andb_false_r.
      eexists. split; [reflexivity|]. exists refs. apply (pt_rep_inner pt1); try done.
      intros E. by rewrite E, map_size_empty in Hz.
Qed.

(** ** Removing everything *)

Lemma release_all_run n pt node ii : match node with None => O | Some p => S p end = ii →
  ht_capacity (super pt) = Z.of_nat (length (ht_table (super pt))) → (length (ht_table (super pt)) - ii < n)%nat →
  let rs := (entries (drop ii (ht_table (super pt)))).*2 in
  NoDup rs → (∀ r, r ∈ rs → is_Some (heap pt !! r)) →
  ∃ h, release_all n pt node = Some (set_heap h pt, OPAL_ERROR) ∧ ∀ r, h !! r = if decide (r ∈ rs) then None else heap pt !! r.
Proof.
  revert pt node ii. induction n as [|n IH]; intros pt node ii Hii Hcap Hn rs Hnd Hin; [lia|]. cbn [release_all].
  unfold opal_hash_table_get_next_key_uint32, opal_hash_table_get_next_key, opal_hash_table_get_next_elt.
  rewrite Hii, Hcap, Nat2Z.id.
  pose proof (entries_next (ht_table (super pt)) (length (ht_table (super pt)) - ii) ii ltac:(lia)) as Hnext.
  destruct (first_from _ _ _ _) as [j|]; subst rs; cbn [mbind option_bind].
  - destruct Hnext as (e & He & Hj & Hent). rewrite He. cbn [mbind option_bind]. rewrite Hent in *. cbn [fmap list_fmap snd] in *.
    apply NoDup_cons in Hnd as [Hni Hnd]. destruct (Hin (value e)) as [t Ht]; [left|]. rewrite Ht. cbn [mbind option_bind].
    apply lookup_lt_Some in He as Hjl.
    destruct (IH (set_heap (delete (value e) (heap pt)) pt) (Some j) (S j)) as (h & Eh & Hh); [done|done|cbn; lia|done| |].
    { intros r Hr. cbn. rewrite lookup_delete_ne; [apply Hin; by right|]. by intros <-. }
    exists h. rewrite Eh. split; [done|]. intros r. rewrite Hh. cbn [heap set_heap super]. destruct (decide (r = value e)) as [->|Hne].
    + rewrite (decide_True (P := value e ∈ _ :: _)) by left. rewrite lookup_delete_eq. by case_decide.
    + rewrite lookup_delete_ne by done. apply decide_ext. rewrite elem_of_cons. tauto.
  - rewrite Hnext. cbn. exists (heap pt). split; [by destruct pt|]. intros r. by rewrite decide_False by apply not_elem_of_nil.
Qed.

(** Removing everything from a process table reports an error, always, and leaves the
    references to the released inner tables in place: the next access to a process of one
    of the jobs uses an object that no longer exists. *)
Theorem proc_remove_all_dangles pt M : pt_rep pt M →
  ∃ pt', opal_proc_table_remove_all pt = Some (pt', OPAL_ERROR) ∧
    ∀ k, is_Some (M !! U32 (jobid k)) → opal_proc_table_get_value pt' k = None.
Proof.
  intros [refs HR]. pose proof HR as [[[Hcap Hlay Hm Hsz Htu] Hroom] Hd Hi Hj _].
  pose proof (holds_entries _ _ _ Hlay Hm) as Href.
  assert (entries (ht_table (super pt)) ≡ₚ map_to_list refs) as Hperm.
  { rewrite Href. symmetry. apply map_to_list_to_map, entries_NoDup, (lay_uniq _ _ Hlay). }
  destruct (release_all_run (S (length (ht_table (super pt)))) pt None O) as (h & E & Hh); [done|done|lia| | |].
  { rewrite drop_0, Hperm. apply NoDup_fmap_2_strong; [|apply NoDup_map_to_list].
    intros [j r] [j' r'] H1%elem_of_map_to_list H2%elem_of_map_to_list. cbn. intros ->. f_equal. by eapply Hj. }
  { intros r Hr. rewrite drop_0, Hperm in Hr. apply list_elem_of_fmap in Hr as ([j r'] & -> & Hin%elem_of_map_to_list).
    destruct (proj1 (Hd j)) as [mi Hmi]; [by eexists|]. by destruct (Hi j r' mi Hin Hmi) as (_ & t & ? & _); eexists. }
  exists (set_heap h pt). split; [done|]. intros k Hk. apply Hd in Hk as [r Hr].
  unfold opal_proc_table_get_value. unfold get_vpids, opal_hash_table_get_value_uint32. cbn [super set_heap].
  rewrite (get_value_run _ refs) by (by destruct HR). cbn [mbind option_bind]. rewrite Hr. cbn [heap set_super set_heap].
  rewrite Hh, decide_True; [done|]. rewrite drop_0, Hperm. apply list_elem_of_fmap. exists (U32 (jobid k), r).
  split; [done|]. by apply elem_of_map_to_list.
Qed.

Lemma proc_init_run jobids vpids : 0 ≤ jobids < 2 ^ 60 → 0 ≤ vpids < 2 ^ 60 →
  ∃ pt rc, opal_proc_table_init calloc (opal_proc_table_construct (V := V)) jobids vpids = Some (pt, rc) ∧
    ((rc = OPAL_SUCCESS ∧ pt_rep pt ∅) ∨ rc = OPAL_ERR_OUT_OF_RESOURCE).
Proof.
  intros Hj Hv. unfold opal_proc_table_init. cbn [super opal_proc_table_construct].
  destruct (hash_init_run (K := uint32) (V := nat) calloc calloc_limit jobids Hj) as (t & rc & -> & Hrc). cbn [mbind option_bind].
  destruct Hrc as [[-> Ht]| ->]; [|by eexists _, _; split; [reflexivity|right]]. cbn.
  eexists _, _. split; [reflexivity|]. left. split; [done|]. exists ∅. split; [done| | | |done].
  - intros j. by rewrite !lookup_empty.
  - intros j r mi. by rewrite lookup_empty.
  - intros j j' r. by rewrite lookup_empty.
Qed.

(** A process table is a map from jobs to maps from processes to values, without
    empty inner maps: lookup, insertion and removal act as on such maps, the last
    process of a job takes the job with it, and none of them meets an inner table that
    has been released.  An insertion can only fail for lack of memory. *)
Theorem proc_table_spec pt M k v : pt_rep pt M →
  (∃ pt', opal_proc_table_get_value pt k =
     Some (pt', match M !! U32 (jobid k) ≫= (.!! U32 (vpid k)) with Some v => inr v | None => inl OPAL_ERR_NOT_FOUND end) ∧
     pt_rep pt' M) ∧
  (∃ pt' rc, opal_proc_table_set_value calloc pt k v = Some (pt', rc) ∧
     ((rc = OPAL_SUCCESS ∧ pt_rep pt' (set_in M k v)) ∨ rc = OPAL_ERR_OUT_OF_RESOURCE)) ∧
  (∃ pt', opal_proc_table_remove_value pt k =
     Some (pt', if decide (M !! U32 (jobid k) ≫= (.!! U32 (vpid k)) = None) then OPAL_ERR_NOT_FOUND else OPAL_SUCCESS) ∧
     pt_rep pt' (if decide (M !! U32 (jobid k) ≫= (.!! U32 (vpid k)) = None) then M else remove_in M k)).
Proof. intros HR. split_and!; [by apply proc_get_run|by apply proc_set_run|by apply proc_remove_run]. Qed.
End spec.

(** ** A small table *)

Lemma small_table : ∃ pt, pt_rep (V := Z) pt (set_in ∅ (mk_name 7 1) 42).
Proof.
  pose proof (λ n, up_to_limit 1000 n ltac:(lia)) as Hlim.
  destruct (proc_init_run (V := Z) (up_to 1000) Hlim 4 4) as (pt0 & rc & E & Hrc); [lia|lia|].
  vm_compute in E. injection E as <- <-. destruct Hrc as [[_ HR]|]; [|done].
  destruct (proc_set_run (up_to 1000) Hlim _ _ (mk_name 7 1) 42 HR) as (pt & rc & E & Hrc).
  assert (rc = OPAL_SUCCESS) as -> by (vm_compute in E; by injection E).
  destruct Hrc as [[_ HR']|]; [|done]. by exists pt.
Qed.

Lemma proc_table_spec_witness : ∃ pt : opal_proc_table_t Z, pt_rep pt (set_in ∅ (mk_name 7 1) 42) ∧
  ∃ pt', opal_proc_table_get_value pt (mk_name 7 1) = Some (pt', inr 42).
Proof.
  destruct small_table as [pt HR]. exists pt. split; [done|].
  destruct (proc_table_spec (up_to 1000) (λ n, up_to_limit 1000 n ltac:(lia)) pt _ (mk_name 7 1) 0 HR) as [(pt' & E & _) _].
  exists pt'. rewrite E. reflexivity.
Defined.

Lemma proc_remove_all_dangles_witness : ∃ pt pt' : opal_proc_table_t Z, pt_rep pt (set_in ∅ (mk_name 7 1) 42) ∧
  opal_proc_table_remove_all pt = Some (pt', OPAL_ERROR) ∧ opal_proc_table_get_value pt' (mk_name 7 1) = None.
Proof.
  destruct small_table as [pt HR]. destruct (proc_remove_all_dangles pt _ HR) as (pt' & E & Hd).
  exists pt, pt'. split; [done|]. split; [done|]. apply Hd. vm_compute. by eexists.
Defined.

(** When the outer table cannot grow, the inner table is released although the outer one
    holds a reference to it. *)
Example proc_set_failed_dangles :
  ('(pt, _) ← opal_proc_table_init (V := Z) (up_to 1) opal_proc_table_construct 0 0;
   '(pt, rc) ← opal_proc_table_set_value (up_to 1) pt (mk_name 7 1) 42;
   Some (rc, snd <$> opal_proc_table_get_value pt (mk_name 7 1))) = Some (OPAL_ERR_OUT_OF_RESOURCE, None).
Proof. vm_compute. reflexivity. Qed.
End PT.
