(* ===== verification/Names.v ===== *)
(** * Process names (orte/util/name_fns.c, name_fns.h, opal/dss/dss_compare.c)

    The two comparisons of process names, with and without wildcards, and the parts of a
    job identifier. *)

From Stdlib Require Import ZArith Lia.
From stdpp Require Import prelude numbers gmap list.
From S2P Require Import Prelude Dss.

Local Open Scope Z_scope.

Module Names.
Import Dss.

Definition ORTE_NS_CMP_JOBID : Z := 2.
Definition ORTE_NS_CMP_VPID : Z := 4.
Definition ORTE_NS_CMP_ALL : Z := 15.
Definition ORTE_NS_CMP_WILD : Z := 16.
Definition ORTE_JOBID_WILDCARD : Z := 4294967294.
Definition ORTE_VPID_WILDCARD : Z := 4294967294.

Definition has (mask fields : Z) : bool := negb (Z.land mask fields =? 0).

Definition compare_vpid (fields : Z) (name1 name2 : opal_process_name_t) : Z :=
  if has ORTE_NS_CMP_VPID fields then
    if has ORTE_NS_CMP_WILD fields && ((ORTE_VPID_WILDCARD =? vpid name1) || (ORTE_VPID_WILDCARD =? vpid name2))
    then OPAL_EQUAL
    else if vpid name1 <? vpid name2 then OPAL_VALUE2_GREATER
    else if vpid name2 <? vpid name1 then OPAL_VALUE1_GREATER
    else OPAL_EQUAL
  else OPAL_EQUAL.

Definition orte_util_compare_name_fields (fields : Z) (name1 name2 : option opal_process_name_t) : Z :=
  match name1, name2 with
  | None, None => OPAL_EQUAL
  | None, Some _ => OPAL_VALUE2_GREATER
  | Some _, None => OPAL_VALUE1_GREATER
  | Some name1, Some name2 =>
    if has ORTE_NS_CMP_JOBID fields then
      if has ORTE_NS_CMP_WILD fields && ((ORTE_JOBID_WILDCARD =? jobid name1) || (ORTE_JOBID_WILDCARD =? jobid name2))
      then compare_vpid fields name1 name2
      else if jobid name1 <? jobid name2 then OPAL_VALUE2_GREATER
      else if jobid name2 <? jobid name1 then OPAL_VALUE1_GREATER
      else compare_vpid fields name1 name2
    else compare_vpid fields name1 name2
  end.

Definition ORTE_JOBID_INVALID : Z := 4294967295.
Definition ORTE_VPID_INVALID : Z := 4294967295.
Definition ORTE_NAME_INVALID : opal_process_name_t := mk_name ORTE_JOBID_INVALID ORTE_VPID_INVALID.

(** The comparison of the type ORTE_NAME: a wildcard equals anything. *)
Definition opal_dss_compare_name (value1 value2 : opal_process_name_t) : Z :=
  let v :=
    if negb (vpid value1 =? ORTE_VPID_WILDCARD) && negb (vpid value2 =? ORTE_VPID_WILDCARD)
    then if vpid value1 <? vpid value2 then OPAL_VALUE2_GREATER
         else if vpid value2 <? vpid value1 then OPAL_VALUE1_GREATER else OPAL_EQUAL
    else OPAL_EQUAL in
  if negb (jobid value1 =? ORTE_JOBID_WILDCARD) && negb (jobid value2 =? ORTE_JOBID_WILDCARD)
  then if jobid value1 <? jobid value2 then OPAL_VALUE2_GREATER
       else if jobid value2 <? jobid value1 then OPAL_VALUE1_GREATER else v
  else v.

Definition ORTE_JOB_FAMILY (n : Z) : Z := Z.land (Z.shiftr n 16) 65535.
Definition ORTE_LOCAL_JOBID (n : Z) : Z := Z.land n 65535.
Definition ORTE_HNP_NAME_FROM_JOB (job : Z) : opal_process_name_t := mk_name (Z.land job 4294901760) 0.

(** The comparison the code makes of the name of a daemon. *)
Definition same_proc (name1 name2 : opal_process_name_t) : bool :=
  orte_util_compare_name_fields ORTE_NS_CMP_ALL (Some name1) (Some name2) =? OPAL_EQUAL.

#[export] Instance process_name_eq_dec : EqDecision opal_process_name_t.
Proof. solve_decision. Defined.

Lemma same_proc_eq a b : same_proc a b = true ↔ a = b.
Proof.
  destruct a as [j1 v1], b as [j2 v2]. unfold same_proc, orte_util_compare_name_fields, compare_vpid. cbn.
  destruct (Z.ltb_spec j1 j2); [split; [done|intros [= -> ->]; lia]|].
  destruct (Z.ltb_spec j2 j1); [split; [done|intros [= -> ->]; lia]|].
  destruct (Z.ltb_spec v1 v2); [split; [done|intros [= -> ->]; lia]|].
  destruct (Z.ltb_spec v2 v1); [split; [done|intros [= -> ->]; lia]|].
  split; [|done]. intros _. f_equal; lia.
Qed.

End Names.
