(* ===== verification/NameText.v ===== *)
(** * Process names as text (orte/util/name_fns.c)

    A process name is written [jobid.vpid], with [*] for a wildcard and [$] for an invalid
    number, and read back; the same for the two numbers on their own and for the type and
    model of a processor.  The hash of a vpid. *)

From Stdlib Require Import ZArith Znumtheory Lia Ascii.
From stdpp Require Import prelude numbers strings gmap list.
From S2P Require Import Prelude CString Dss Names.

Local Open Scope Z_scope.

Module NameText.
Import Dss Names.

Definition ORTE_SCHEMA_DELIMITER_CHAR : ascii := ".".
Definition ORTE_SCHEMA_WILDCARD_STRING : cstring := lit "*".
Definition ORTE_SCHEMA_INVALID_STRING : cstring := lit "$".

Definition ULONG_MAX : Z := 2 ^ 64 - 1.

(** [strtoul(s, NULL, 10)]: a number that has a sign is negated modulo [2^64]; one that is
    too large gives [ULONG_MAX]. *)
Definition strtoul (s : cstring) : Z :=
  let '(_, s1) := span isspace s in
  let '(neg, s2) :=
    match s1 with
    | c :: s' => if ascii_eqb c DASH then (true, s')
                 else if ascii_eqb c "+"%char then (false, s') else (false, s1)
    | [] => (false, s1)
    end in
  let v := dec_value (span isdigit s2).1 in
  if ULONG_MAX <? v then ULONG_MAX else if neg : bool then uwrap 64 (- v) else v.

Definition is_wildcard (s : cstring) : bool := strcmp s ORTE_SCHEMA_WILDCARD_STRING =? 0.
Definition is_invalid (s : cstring) : bool := strcmp s ORTE_SCHEMA_INVALID_STRING =? 0.

(** ** The numbers *)

Definition orte_util_convert_jobid_to_string (jobid : Z) : cstring :=
  if ORTE_JOBID_WILDCARD =? jobid then ORTE_SCHEMA_WILDCARD_STRING else print_int jobid.

Definition orte_util_convert_string_to_jobid (jobidstring : option cstring) : Z * Z :=
  match jobidstring with
  | None => (OPAL_ERR_BAD_PARAM, ORTE_JOBID_INVALID)
  | Some s =>
      if is_wildcard s then (OPAL_SUCCESS, ORTE_JOBID_WILDCARD) else
      if is_invalid s then (OPAL_SUCCESS, ORTE_JOBID_INVALID) else (OPAL_SUCCESS, uwrap 32 (strtoul s))
  end.

Definition orte_util_convert_vpid_to_string (vpid : Z) : cstring :=
  if ORTE_VPID_WILDCARD =? vpid then ORTE_SCHEMA_WILDCARD_STRING else
  if ORTE_VPID_INVALID =? vpid then ORTE_SCHEMA_INVALID_STRING else print_int vpid.

Definition orte_util_convert_string_to_vpid (vpidstring : option cstring) : Z * Z :=
  match vpidstring with
  | None => (OPAL_ERR_BAD_PARAM, ORTE_VPID_INVALID)
  | Some s =>
      if is_wildcard s then (OPAL_SUCCESS, ORTE_VPID_WILDCARD) else
      if is_invalid s then (OPAL_SUCCESS, ORTE_VPID_INVALID) else (OPAL_SUCCESS, uwrap 32 (strtol s).1)
  end.

(** ** The names *)

Definition orte_util_convert_string_to_process_name (name_string : option cstring) : Z * opal_process_name_t :=
  match name_string with
  | None => (OPAL_ERR_BAD_PARAM, ORTE_NAME_INVALID)
  | Some s =>
      match cut ORTE_SCHEMA_DELIMITER_CHAR s with
      | (_, None) => (OPAL_ERR_BAD_PARAM, ORTE_NAME_INVALID)
      | (temp, Some token) =>
          let job := if is_wildcard temp then ORTE_JOBID_WILDCARD
                     else if is_invalid temp then ORTE_JOBID_INVALID else uwrap 32 (strtoul temp) in
          let vpid := if is_wildcard token then ORTE_VPID_WILDCARD
                      else if is_invalid token then ORTE_VPID_INVALID else uwrap 32 (strtoul token) in
          (OPAL_SUCCESS, mk_name job vpid)
      end
  end.

(** [%lu], or the sign for a wildcard or an invalid number. *)
Definition field_text (wildcard invalid n : Z) : cstring :=
  if wildcard =? n then ORTE_SCHEMA_WILDCARD_STRING else
  if invalid =? n then ORTE_SCHEMA_INVALID_STRING else print_unsigned n.

Definition orte_util_convert_process_name_to_string (name : option opal_process_name_t) : Z + cstring :=
  match name with
  | None => inl OPAL_ERR_BAD_PARAM
  | Some n =>
      inr (field_text ORTE_JOBID_WILDCARD ORTE_JOBID_INVALID (jobid n)
             ++ ORTE_SCHEMA_DELIMITER_CHAR :: field_text ORTE_VPID_WILDCARD ORTE_VPID_INVALID (vpid n))
  end.

(** [malloc] succeeds. *)
Definition orte_util_create_process_name (job vpid : Z) : Z * opal_process_name_t := (OPAL_SUCCESS, mk_name job vpid).

(** ** The type and model of a processor *)

(** A part that is not valid leaves the variable of the caller as it is. *)
Definition orte_util_convert_string_to_sysinfo (cpu_type cpu_model : option cstring) (sysinfo_string : option cstring)
    : Z * option cstring * option cstring :=
  match sysinfo_string with
  | None => (OPAL_ERR_BAD_PARAM, cpu_type, cpu_model)
  | Some s =>
      match cut ORTE_SCHEMA_DELIMITER_CHAR s with
      | (_, None) => (OPAL_ERR_BAD_PARAM, cpu_type, cpu_model)
      | (temp, Some token) =>
          (OPAL_SUCCESS, if is_invalid temp then cpu_type else Some temp,
                         if is_invalid token then cpu_model else Some token)
      end
  end.

Definition orte_util_convert_sysinfo_to_string (cpu_type cpu_model : option cstring) : cstring :=
  default ORTE_SCHEMA_INVALID_STRING cpu_type
    ++ ORTE_SCHEMA_DELIMITER_CHAR :: default ORTE_SCHEMA_INVALID_STRING cpu_model.

(** ** The hash of a vpid *)

Definition orte_util_hash_vpid (vpid : Z) : Z :=
  let hash := vpid in
  let hash := uwrap 32 ((hash + 0x7ed55d16) + Z.shiftl hash 12) in
  let hash := Z.lxor (Z.lxor hash 0xc761c23c) (Z.shiftr hash 19) in
  let hash := uwrap 32 ((hash + 0x165667b1) + Z.shiftl hash 5) in
  let hash := Z.lxor (uwrap 32 (hash + 0xd3a2646c)) (uwrap 32 (Z.shiftl hash 9)) in
  let hash := uwrap 32 ((hash + 0xfd7046c5) + Z.shiftl hash 3) in
  Z.lxor (Z.lxor hash 0xb55a4f09) (Z.shiftr hash 16).

(** ** Round trips *)

(** A text of digits is that of a number. *)
Lemma digits_text s : s ≠ [] → Forall (λ c, isdigit c = true) s → is_wildcard s = false ∧ is_invalid s = false.
Proof.
  intros Hs Hd. destruct s as [|c s]; [done|]. apply Forall_cons in Hd as [Hc Hd].
  assert (c ≠ "*"%char ∧ c ≠ "$"%char ∧ c ≠ NUL) as (H1 & H2 & H3)
    by (split_and!; eapply digit_neq; done).
  unfold is_wildcard, is_invalid, strcmp, c_text, cut. cbn.
  rewrite (proj2 (ascii_eqb_neq c NUL) H3). cbn.
  destruct (span _ s) as [a b] eqn:E. split; apply Z.eqb_neq.
  - intros E'. destruct b; cbn -[text_cmp] in E'; apply (text_cmp_eq (c :: a) (lit "*")) in E'; cbn in E'; congruence.
  - intros E'. destruct b; cbn -[text_cmp] in E'; apply (text_cmp_eq (c :: a) (lit "$")) in E'; cbn in E'; congruence.
Qed.

Lemma strtoul_print n : 0 ≤ n ≤ ULONG_MAX → strtoul (print_unsigned n) = n.
Proof.
  intros Hn. destruct (print_unsigned_spec n) as (Hd & Hv & Hne & _); [lia|].
  unfold strtoul. destruct (print_unsigned n) as [|d ds]; [done|].
  pose proof (proj1 (proj1 (Forall_cons _ _ _) Hd)) as Hd0.
  assert (span isspace (d :: ds) = ([], d :: ds)) as -> by (cbn [span]; by rewrite (digit_not_space d Hd0)).
  cbn beta iota. rewrite (proj2 (ascii_eqb_neq d DASH)) by (by eapply digit_neq).
  rewrite (proj2 (ascii_eqb_neq d "+"%char)) by (by eapply digit_neq).
  rewrite (span_all isdigit (d :: ds) Hd). cbn [fst]. rewrite Hv. zbool; lia.
Qed.

Definition read_field (wildcard invalid : Z) (s : cstring) : Z :=
  if is_wildcard s then wildcard else if is_invalid s then invalid else uwrap 32 (strtoul s).

Lemma read_field_text w i n : in_u 32 n → read_field w i (field_text w i n) = n.
Proof.
  intros [H0 H1]. unfold field_text. destruct (Z.eqb_spec w n) as [->|]; [done|].
  destruct (Z.eqb_spec i n) as [->|]; [done|].
  destruct (print_unsigned_spec n) as (Hd & _ & Hne & _); [done|].
  destruct (digits_text _ Hne Hd) as [E1 E2]. unfold read_field. rewrite E1, E2.
  rewrite strtoul_print by (unfold ULONG_MAX; lia). apply Z.mod_small. done.
Qed.

Lemma field_text_plain w i n : 0 ≤ n → Forall (λ c, c ≠ ORTE_SCHEMA_DELIMITER_CHAR) (field_text w i n).
Proof.
  intros Hn. unfold field_text.
  destruct (w =? n); [by repeat constructor|]. destruct (i =? n); [by repeat constructor|].
  eapply Forall_impl; [apply (print_unsigned_spec n Hn)|]. intros c Hc. by eapply digit_neq.
Qed.

Lemma vpid_text n : in_u 32 n → orte_util_convert_string_to_vpid (Some (orte_util_convert_vpid_to_string n)) = (OPAL_SUCCESS, n).
Proof.
  intros [H0 H1]. unfold orte_util_convert_vpid_to_string.
  destruct (Z.eqb_spec ORTE_VPID_WILDCARD n) as [<-|]; [done|].
  destruct (Z.eqb_spec ORTE_VPID_INVALID n) as [<-|]; [done|]. rewrite print_int_nonneg by done.
  destruct (print_unsigned_spec n) as (Hd & _ & Hne & _); [done|].
  destruct (digits_text _ Hne Hd) as [E1 E2]. unfold orte_util_convert_string_to_vpid. rewrite E1, E2, <-(app_nil_r (print_unsigned n)).
  rewrite strtol_print by (done || (unfold LONG_MAX; lia)). f_equal. apply Z.mod_small. done.
Qed.

Lemma jobid_text n : in_u 32 n → orte_util_convert_string_to_jobid (Some (orte_util_convert_jobid_to_string n)) = (OPAL_SUCCESS, n).
Proof.
  intros [H0 H1]. unfold orte_util_convert_jobid_to_string.
  destruct (Z.eqb_spec ORTE_JOBID_WILDCARD n) as [<-|]; [done|]. rewrite print_int_nonneg by done.
  destruct (print_unsigned_spec n) as (Hd & _ & Hne & _); [done|].
  destruct (digits_text _ Hne Hd) as [E1 E2]. unfold orte_util_convert_string_to_jobid. rewrite E1, E2.
  rewrite strtoul_print by (unfold ULONG_MAX; lia). f_equal. apply Z.mod_small. done.
Qed.

(** The text of a process name is read back as that name, wildcards and invalid
    numbers included, and so are the texts of a job identifier and of a vpid on their
    own; a text without a point is not a process name. *)
Theorem name_text n s : in_u 32 (jobid n) → in_u 32 (vpid n) → Forall (λ c, c ≠ ORTE_SCHEMA_DELIMITER_CHAR) s →
  (∃ t, orte_util_convert_process_name_to_string (Some n) = inr t ∧
        orte_util_convert_string_to_process_name (Some t) = (OPAL_SUCCESS, n)) ∧
  orte_util_convert_string_to_jobid (Some (orte_util_convert_jobid_to_string (jobid n))) = (OPAL_SUCCESS, jobid n) ∧
  orte_util_convert_string_to_vpid (Some (orte_util_convert_vpid_to_string (vpid n))) = (OPAL_SUCCESS, vpid n) ∧
  orte_util_convert_string_to_process_name (Some s) = (OPAL_ERR_BAD_PARAM, ORTE_NAME_INVALID).
Proof.
  intros Hj Hv Hs. split_and!; [|by apply jobid_text|by apply vpid_text|].
  - eexists. split; [done|]. unfold orte_util_convert_string_to_process_name.
    rewrite cut_app by (apply field_text_plain, Hj). cbv zeta.
    pose proof (read_field_text ORTE_JOBID_WILDCARD ORTE_JOBID_INVALID _ Hj) as E1.
    pose proof (read_field_text ORTE_VPID_WILDCARD ORTE_VPID_INVALID _ Hv) as E2.
    unfold read_field in E1, E2. rewrite E1, E2. by destruct n.
  - unfold orte_util_convert_string_to_process_name. by rewrite cut_none.
Qed.

Lemma name_text_witness :
  (∃ t, orte_util_convert_process_name_to_string (Some (mk_name 4294967294 7)) = inr t ∧
        orte_util_convert_string_to_process_name (Some t) = (OPAL_SUCCESS, mk_name 4294967294 7)) ∧
  orte_util_convert_string_to_process_name (Some (lit "42")) = (OPAL_ERR_BAD_PARAM, ORTE_NAME_INVALID).
Proof.
  destruct (name_text (mk_name 4294967294 7) (lit "42")) as (H & _ & _ & H');
    [by unfold in_u|by unfold in_u|by repeat constructor|]. by split.
Defined.

(** The parts of the sysinfo come back, unless one is the text [$] or the type has a
    point in it. *)
Lemma sysinfo_text t m : Forall (λ c, c ≠ ORTE_SCHEMA_DELIMITER_CHAR) t → is_invalid t = false → is_invalid m = false →
  orte_util_convert_string_to_sysinfo None None (Some (orte_util_convert_sysinfo_to_string (Some t) (Some m)))
  = (OPAL_SUCCESS, Some t, Some m).
Proof.
  intros Ht Hi Hm. unfold orte_util_convert_string_to_sysinfo, orte_util_convert_sysinfo_to_string. cbn [default].
  unfold default, from_option, id. rewrite cut_app by done. by rewrite Hi, Hm.
Qed.

(** ** No two vpids have the same hash

    Each line of the hash can be undone: the sums multiply by an odd number, the others
    mix a number with its own bits. *)

Lemma rel_prime_pow2 c k : 0 ≤ k → Z.odd c = true → rel_prime (2 ^ k) c.
Proof.
  intros Hk Hc. revert k Hk. refine (natlike_ind _ _ _).
  - apply rel_prime_sym, rel_prime_sym, rel_prime_1.
  - intros k Hk IH. rewrite Z.pow_succ_r by done.
    apply rel_prime_sym, rel_prime_mult; [|by apply rel_prime_sym].
    apply rel_prime_sym, prime_rel_prime; [apply prime_2|].
    intros [z ->]. by rewrite Z.odd_mul, andb_false_r in Hc.
Qed.

Lemma uwrap_eq k x y : 0 ≤ k → uwrap k x = uwrap k y ↔ (2 ^ k | x - y).
Proof.
  intros Hk. unfold uwrap. split.
  - intros E. apply Z.mod_divide; [lia|]. rewrite Zminus_mod, E, Z.sub_diag. apply Z.mod_0_l. lia.
  - intros D%Z.mod_divide; [|lia]. replace x with (y + (x - y)) by ring.
    by rewrite Z.add_mod, D, Z.add_0_r, Z.mod_mod by lia.
Qed.

Lemma sum_inj s c x y : 0 < s → in_u 32 x → in_u 32 y →
  uwrap 32 ((x + c) + Z.shiftl x s) = uwrap 32 ((y + c) + Z.shiftl y s) → x = y.
Proof.
  intros Hs Hx Hy E. apply uwrap_eq in E; [|done]. rewrite !Z.shiftl_mul_pow2 in E by lia.
  replace (x + c + x * 2 ^ s - (y + c + y * 2 ^ s)) with ((1 + 2 ^ s) * (x - y)) in E by ring.
  apply Gauss in E.
  - apply uwrap_eq in E; [|done]. by rewrite !uwrap_id in E.
  - apply rel_prime_pow2; [done|]. rewrite Z.odd_add, Z.odd_pow by lia. done.
Qed.

Lemma lxor_nonneg a b : 0 ≤ a → 0 ≤ b → 0 ≤ Z.lxor a b.
Proof. intros Ha Hb. apply Z.lxor_nonneg. lia. Qed.

Lemma mix_inj s c x y : 0 < s → 0 ≤ x → 0 ≤ y →
  Z.lxor (Z.lxor x c) (Z.shiftr x s) = Z.lxor (Z.lxor y c) (Z.shiftr y s) → x = y.
Proof.
  intros Hs Hx Hy E. assert (Z.lxor x y = Z.shiftr (Z.lxor x y) s) as D.
  { apply Z.bits_inj'. intros n Hn. apply (f_equal (λ z, Z.testbit z n)) in E.
    rewrite Z.shiftr_lxor. rewrite !Z.lxor_spec in *.
    by destruct (Z.testbit x n), (Z.testbit y n), (Z.testbit c n), (Z.testbit (Z.shiftr x s) n),
      (Z.testbit (Z.shiftr y s) n). }
  apply Z.lxor_eq. pose proof (lxor_nonneg x y Hx Hy) as Hd.
  destruct (Z.eq_dec (Z.lxor x y) 0) as [->|Hne]; [done|exfalso].
  rewrite Z.shiftr_div_pow2 in D by lia.
  assert (1 < 2 ^ s) by (apply Z.pow_gt_1; lia).
  pose proof (Z.div_lt (Z.lxor x y) (2 ^ s)). lia.
Qed.

(** One bit more of two numbers agrees. *)
Lemma uwrap_bit k x y : 0 ≤ k → uwrap k x = uwrap k y → Z.testbit x k = Z.testbit y k → uwrap (k + 1) x = uwrap (k + 1) y.
Proof.
  intros Hk E B. apply Z.bits_inj'. intros n Hn. unfold uwrap in *.
  destruct (decide (n < k + 1)) as [Hlt|Hge].
  - rewrite !Z.mod_pow2_bits_low by lia. destruct (decide (n = k)) as [->|]; [done|].
    apply (f_equal (λ z, Z.testbit z n)) in E. by rewrite !Z.mod_pow2_bits_low in E by lia.
  - by rewrite !Z.mod_pow2_bits_high by lia.
Qed.

Lemma bits_sum_inj s c x y : 0 < s → in_u 32 x → in_u 32 y →
  Z.lxor (uwrap 32 (x + c)) (uwrap 32 (Z.shiftl x s)) = Z.lxor (uwrap 32 (y + c)) (uwrap 32 (Z.shiftl y s)) → x = y.
Proof.
  intros Hs Hx Hy E.
  assert (∀ k : nat, (k ≤ 32)%nat → uwrap (Z.of_nat k) x = uwrap (Z.of_nat k) y) as H.
  { induction k as [|k IH]; intros Hk; [unfold uwrap; by rewrite !Z.mod_1_r|].
    specialize (IH ltac:(lia)). replace (Z.of_nat (S k)) with (Z.of_nat k + 1) by lia.
    assert (uwrap (Z.of_nat k + 1) (x + c) = uwrap (Z.of_nat k + 1) (y + c)) as E'.
    - apply uwrap_bit; [lia| |].
      + apply uwrap_eq; [lia|]. apply uwrap_eq in IH; [|lia]. by replace (x + c - (y + c)) with (x - y) by ring.
      + apply (f_equal (λ z, Z.testbit z (Z.of_nat k))) in E. unfold uwrap in E, IH.
        rewrite !Z.lxor_spec, !Z.mod_pow2_bits_low, !Z.shiftl_spec in E by lia.
        destruct (decide (s ≤ Z.of_nat k)).
        * apply (f_equal (λ z, Z.testbit z (Z.of_nat k - s))) in IH. rewrite !Z.mod_pow2_bits_low in IH by lia.
          rewrite IH in E. by destruct (Z.testbit (x + c) _), (Z.testbit (y + c) _), (Z.testbit y _).
        * rewrite !(Z.testbit_neg_r _ (Z.of_nat k - s)), !xorb_false_r in E by lia. done.
    - apply uwrap_eq; [lia|]. apply uwrap_eq in E'; [|lia]. by replace (x - y) with (x + c - (y + c)) by ring. }
  specialize (H 32%nat ltac:(lia)). by rewrite !uwrap_id in H.
Qed.

Lemma in_u_wrap z : in_u 32 (uwrap 32 z).
Proof. apply Z.mod_pos_bound. lia. Qed.

Lemma in_u_lxor a b : in_u 32 a → in_u 32 b → in_u 32 (Z.lxor a b).
Proof.
  intros [Ha Ha'] [Hb Hb']. pose proof (lxor_nonneg a b Ha Hb) as H. split; [done|].
  destruct (Z.eq_dec (Z.lxor a b) 0) as [->|]; [lia|]. apply Z.log2_lt_pow2; [lia|].
  pose proof (Z.log2_lxor a b Ha Hb) as Hl.
  assert (Z.log2 a < 32) by (destruct (Z.eq_dec a 0) as [->|]; [done|apply Z.log2_lt_pow2; lia]).
  assert (Z.log2 b < 32) by (destruct (Z.eq_dec b 0) as [->|]; [done|apply Z.log2_lt_pow2; lia]). lia.
Qed.

Lemma in_u_shiftr a s : 0 ≤ s → in_u 32 a → in_u 32 (Z.shiftr a s).
Proof.
  intros Hs [Ha Ha']. rewrite Z.shiftr_div_pow2 by done. split; [apply Z.div_pos; lia|].
  apply Z.le_lt_trans with a; [|done]. apply Z.div_le_upper_bound; [lia|]. nia.
Qed.

(** The three kinds of line. *)
Definition sum_step (s c x : Z) : Z := uwrap 32 ((x + c) + Z.shiftl x s).
Definition mix_step (s c x : Z) : Z := Z.lxor (Z.lxor x c) (Z.shiftr x s).
Definition bits_step (s c x : Z) : Z := Z.lxor (uwrap 32 (x + c)) (uwrap 32 (Z.shiftl x s)).

#[local] Strategy expand [sum_step mix_step bits_step orte_util_hash_vpid].

Lemma hash_steps x : orte_util_hash_vpid x =
  mix_step 16 0xb55a4f09 (sum_step 3 0xfd7046c5 (bits_step 9 0xd3a2646c
    (sum_step 5 0x165667b1 (mix_step 19 0xc761c23c (sum_step 12 0x7ed55d16 x))))).
Proof. reflexivity. Qed.

Lemma sum_step_u s c x : in_u 32 (sum_step s c x).
Proof. apply in_u_wrap. Qed.
Lemma bits_step_u s c x : in_u 32 (bits_step s c x).
Proof. apply in_u_lxor; apply in_u_wrap. Qed.
Lemma mix_step_u s c x : 0 < s → in_u 32 c → in_u 32 x → in_u 32 (mix_step s c x).
Proof. intros. apply in_u_lxor; [by apply in_u_lxor|apply in_u_shiftr; [lia|done]]. Qed.

Lemma sum_step_inj s c x y : 0 < s → in_u 32 x → in_u 32 y → sum_step s c x = sum_step s c y → x = y.
Proof. apply sum_inj. Qed.
Lemma bits_step_inj s c x y : 0 < s → in_u 32 x → in_u 32 y → bits_step s c x = bits_step s c y → x = y.
Proof. apply bits_sum_inj. Qed.
Lemma mix_step_inj s c x y : 0 < s → in_u 32 x → in_u 32 y → mix_step s c x = mix_step s c y → x = y.
Proof. intros Hs [Hx _] [Hy _]. by apply mix_inj. Qed.

Lemma in_u_const c : (0 <=? c) && (c <? 2 ^ 32) = true → in_u 32 c.
Proof. unfold in_u. lia. Qed.

Create HintDb hash.
#[local] Hint Resolve sum_step_u bits_step_u mix_step_u Z.lt_0_1 : hash.
#[local] Hint Extern 3 (0 < _) => reflexivity : hash.
#[local] Hint Extern 3 (in_u 32 (Zpos _)) => apply in_u_const; reflexivity : hash.

(** The hash of a vpid is one to one: two 32-bit vpids with the same hash are equal. *)
Theorem hash_vpid_inj x y : in_u 32 x → in_u 32 y → orte_util_hash_vpid x = orte_util_hash_vpid y → x = y.
Proof.
  intros Hx Hy E. rewrite !hash_steps in E.
  apply mix_step_inj in E; [|by auto with hash..]. apply sum_step_inj in E; [|by auto with hash..].
  apply bits_step_inj in E; [|by auto with hash..]. apply sum_step_inj in E; [|by auto 7 with hash..].
  apply mix_step_inj in E; [|by auto with hash..]. by apply sum_step_inj in E.
Qed.

Lemma hash_vpid_inj_witness : orte_util_hash_vpid 1 = orte_util_hash_vpid 1 ∧ 1 = 1.
Proof. split; [reflexivity|]. apply (hash_vpid_inj 1 1); [by unfold in_u|by unfold in_u|reflexivity]. Defined.

End NameText.
