(* ===== verification/Fields.v ===== *)
(** * Runs of fields

    The wire formats of the larger objects are sequences of calls to the packing and
    unpacking functions of a buffer, one for each field, with loops over the members of
    a list.  [meets d p u r]: what [p] packs into a buffer of kind [d], [u] unpacks as [r];
    the lemmas take such a pair apart field by field. *)

From Stdlib Require Import ZArith Lia Ascii.
From stdpp Require Import prelude numbers strings gmap list.
From S2P Require Import Prelude CString Dss.

Local Open Scope Z_scope.

Module Fields.
Import Dss.

Definition unpack_field {A} (T : opal_dss_type_info_t A) : M A :=
  l ← opal_dss_unpack_buffer T 1; only l.

Lemma one_field {A} (T : opal_dss_type_info_t A) valid d v : Codec T valid → valid v →
  ∃ bs, packs d (opal_dss_pack_buffer T [v]) bs ∧ unpacks d (unpack_field T) bs v.
Proof.
  intros HT Hv. destruct (codec_buffer T valid d [v] HT) as (bs & Hp & Hu); [forall_list|done|].
  eexists. split; [exact Hp|]. rewrite <-(app_nil_r (type_tag d (odti_type T) ++ bs)).
  eapply unpacks_bind; [exact Hu|]. apply unpacks_ret.
Qed.

(** What is packed is determined. *)
Lemma packs_inj d (m : M unit) x y : packs d m x → packs d m y → x = y.
Proof.
  intros Hx Hy. destruct (Hx (mk_buf d [] 0 0) eq_refl) as (b1 & E1 & _ & X1 & _), (Hy (mk_buf d [] 0 0) eq_refl) as (b2 & E2 & _ & X2 & _).
  rewrite E1 in E2. injection E2 as <-. by rewrite X1 in X2.
Qed.

(** The two sides of a segment meet: [p] packs what [u] unpacks. *)
Definition meets {A} (d : bool) (p : M unit) (u : M A) (r : A) : Prop :=
  ∃ bs, packs d p bs ∧ unpacks d u bs r.

Lemma meets_field {A B} (T : opal_dss_type_info_t A) valid d v (p : M unit) (k : A → M B) r :
  Codec T valid → valid v → meets d p (k v) r →
  meets d (_ ← opal_dss_pack_buffer T [v]; p) (x ← unpack_field T; k x) r.
Proof.
  intros HT Hv (y & Hy & Hy'). destruct (one_field T valid d v HT Hv) as (x & Hx & Hx').
  exists (x ++ y). split; [by apply packs_bind|by eapply unpacks_bind].
Qed.

Lemma meets_last {A B} (T : opal_dss_type_info_t A) valid d v (f : A → B) r :
  Codec T valid → valid v → r = f v → meets d (opal_dss_pack_buffer T [v]) (x ← unpack_field T; mret (f x)) r.
Proof.
  intros HT Hv ->. destruct (one_field T valid d v HT Hv) as (x & Hx & Hx').
  exists x. split; [done|by apply unpacks_bind_ret].
Qed.

Lemma meets_bind {A B} d (p q : M unit) (u : M A) (k : A → M B) a r :
  meets d p u a → meets d q (k a) r → meets d (_ ← p; q) (u ≫= k) r.
Proof.
  intros (x & Hx & Hx') (y & Hy & Hy'). exists (x ++ y).
  split; [by apply packs_bind|by eapply unpacks_bind].
Qed.

(** A run of fields whose validity is at hand. *)
Ltac fields := repeat first [eapply meets_last; [apply _|first [exact I|eassumption]|reflexivity]
                            |eapply meets_field; [apply _|first [exact I|eassumption]|]].

Lemma meets_ret {A} d (a : A) : meets d (mret tt) (mret a) a.
Proof. exists []. split; [apply packs_ret|apply unpacks_ret]. Qed.

Lemma meets_map {A B} d (p : M unit) (u : M A) (f : A → B) r :
  meets d p u r → meets d p (x ← u; mret (f x)) (f r).
Proof. intros (bs & Hp & Hu). exists bs. split; [done|by apply unpacks_bind_ret]. Qed.

(** A loop over the members of a list, each received as [r] says. *)
Lemma meets_each {A B} d (p : A → M unit) (u : M B) (r : A → B) l :
  Forall (λ x, meets d (p x) u (r x)) l →
  meets d (pack_each p l) (unpack_each u (Z.of_nat (length l))) (r <$> l).
Proof.
  intros Hl. unfold unpack_each. rewrite Nat2Z.id. induction Hl as [|x l Hx _ IH]; [apply meets_ret|].
  cbn [pack_each unpack_times length fmap list_fmap]. eapply meets_bind; [done|]. by eapply meets_map.
Qed.

(** A type whose packing function is such a loop. *)
Lemma carries_each {A} id (p : A → M unit) (u : M A) (r : A → A) d l :
  Forall (λ x, meets d (p x) u (r x)) l →
  carries (mk_info id (pack_each p) (unpack_each u)) d l (r <$> l).
Proof. apply meets_each. Qed.

Lemma meets_one {A} (T : opal_dss_type_info_t A) d v v' : carries T d [v] [v'] →
  meets d (opal_dss_pack_buffer T [v]) (unpack_field T) v'.
Proof.
  intros HT. destruct (carries_buffer T d [v] [v'] HT) as (bs & Hp & Hu).
  eexists. split; [exact Hp|]. rewrite <-(app_nil_r (type_tag d (odti_type T) ++ bs)).
  eapply unpacks_bind; [exact Hu|]. apply unpacks_ret.
Qed.

(** The calls of [opal_dss.pack] and [opal_dss.unpack], for one value. *)
Lemma meets_dss {A} (T : opal_dss_type_info_t A) d v v' : carries T d [v] [v'] →
  meets d (opal_dss_pack T [v]) (unpack1 T) v'.
Proof.
  intros HT. destruct (packs_dss T d [v] [v'] HT) as (bs & Hp & Hu); [done|].
  exists bs. split; [done|]. intros b rest Hd Hr. unfold unpack1. by rewrite (Hu 1 b rest).
Qed.

Lemma meets_value {A} (T : opal_dss_type_info_t A) valid d v : Codec T valid → valid v →
  meets d (opal_dss_pack T [v]) (unpack1 T) v.
Proof. intros HT Hv. apply meets_dss, HT; [by apply Forall_singleton|done]. Qed.

(** A whole message: packed at the end of a buffer that has been read, it is what the
    receiver unpacks, up to the bytes [y] that the unpacking function leaves. *)
Lemma message_prefix {A} (T : opal_dss_type_info_t A) b vals vals' x y :
  packs (fully_desc b) (odti_pack_fn T vals) (x ++ y) →
  unpacks (fully_desc b) (odti_unpack_fn T (Z.of_nat (length vals))) x vals' →
  0 < Z.of_nat (length vals) ≤ INT_MAX → unpack_off b = length (base b) →
  ∃ b1 b2, opal_dss_pack T vals b = Some (b1, inr tt) ∧
    opal_dss_unpack T (Z.of_nat (length vals)) b1 =
      Some (b2, (OPAL_SUCCESS, Z.of_nat (length vals), vals')) ∧ remaining b2 = y.
Proof.
  intros Hp Hu Hl Ho. set (d := fully_desc b) in *. set (n := Z.of_nat (length vals)) in *.
  destruct (count_one d n) as (c & Hc & Hc'); [unfold in_s, INT_MAX in *; simpl; lia|].
  assert (packs d (opal_dss_pack T vals) ((type_tag d OPAL_INT32 ++ c) ++ (type_tag d (odti_type T) ++ x) ++ y))
    as HP.
  { apply packs_is_desc. rewrite <-!app_assoc. apply packs_bind; [apply packs_tag|].
    apply packs_bind; [done|]. apply packs_is_desc, packs_bind; [apply packs_tag|done]. }
  destruct (HP b eq_refl) as (b1 & E1 & X1). pose proof (extended_readable b _ b1 Ho X1) as Hr.
  assert (fully_desc b1 = d) as Hd by apply X1.
  eexists b1, _. split; [done|]. unfold opal_dss_unpack. destruct (Z.eqb_spec n 0); [lia|].
  rewrite (Hc' b1 _ Hd (readable_app _ _ _ _ Hr)). apply readable_skip in Hr.
  destruct (Z.ltb_spec n n); [lia|].
  assert (unpacks d (opal_dss_unpack_buffer T n) (type_tag d (odti_type T) ++ x) vals') as HU
    by (apply unpacks_is_desc; eapply unpacks_bind; [apply unpacks_tag|done]).
  rewrite (HU (Dss.skip b1 (length (type_tag d OPAL_INT32 ++ c))) _ Hd (readable_app _ _ _ _ Hr)). split; [done|].
  apply readable_skip in Hr. destruct Hr as [_ ->]. by rewrite app_nil_r.
Qed.

Lemma message_round_trip {A} (T : opal_dss_type_info_t A) v v' b :
  carries T (fully_desc b) [v] [v'] → unpack_off b = length (base b) →
  ∃ b1 b2, opal_dss_pack T [v] b = Some (b1, inr tt) ∧
    opal_dss_unpack T 1 b1 = Some (b2, (OPAL_SUCCESS, 1, [v'])) ∧ remaining b2 = [].
Proof.
  intros (bs & Hp & Hu) Ho. apply (message_prefix T b [v] [v'] bs []); [|done..]. by rewrite app_nil_r.
Qed.

Lemma pack_each_app {A} (p : A → M unit) l1 l2 b :
  pack_each p (l1 ++ l2) b = (_ ← pack_each p l1; pack_each p l2) b.
Proof.
  revert b. induction l1 as [|v l1 IH]; intros b; [done|]. cbn [app pack_each]. unfold mbind, M_bind in *.
  destruct (p v b) as [[b' [?|?]]|]; [done|apply IH|done].
Qed.

(** A message of more values than the receiver has room for: those that fit are unpacked,
    and the code says that the space is inadequate. *)
Lemma message_short {A} (ty : Z) (p : A → M unit) (u : M A) d vals (k : nat) :
  let T := mk_info ty (pack_each p) (unpack_each u) in
  Forall (λ v, meets d (p v) u v) vals → (0 < k < length vals)%nat → Z.of_nat (length vals) ≤ INT_MAX →
  ∃ bs, packs d (opal_dss_pack T vals) bs ∧ ∀ b rest, fully_desc b = d → readable b bs rest →
    ∃ b', opal_dss_unpack T (Z.of_nat k) b =
      Some (b', (OPAL_ERR_UNPACK_INADEQUATE_SPACE, Z.of_nat k, take k vals)).
Proof.
  intros T Hv Hk Hl. unfold INT_MAX in Hl. destruct (count_one d (Z.of_nat (length vals))) as (c & Pc & Uc); [unfold in_s; simpl; lia|].
  assert (Forall (λ v, meets d (p v) u v) (take k vals) ∧ Forall (λ v, meets d (p v) u v) (drop k vals)) as [H1 H2]
    by (split; [by apply Forall_take|by apply Forall_drop]).
  destruct (meets_each d p u id (take k vals) H1) as (x & Px & Ux), (meets_each d p u id (drop k vals) H2) as (y & Py & _).
  rewrite list_fmap_id, length_take in Ux. replace (k `min` length vals)%nat with k in Ux by lia.
  assert (packs d (pack_each p vals) (x ++ y)) as Pxy.
  { rewrite <-(take_drop k vals). intros b Hb. rewrite pack_each_app. by apply (packs_bind d _ _ _ _ Px Py). }
  exists ((type_tag d OPAL_INT32 ++ c) ++ type_tag d ty ++ x ++ y). split.
  - apply packs_is_desc. rewrite <-app_assoc. apply packs_bind; [apply packs_tag|]. apply packs_bind; [done|].
    apply packs_is_desc, packs_bind; [apply packs_tag|done].
  - intros b rest Hd Hr. unfold opal_dss_unpack. destruct (Z.eqb_spec (Z.of_nat k) 0); [lia|].
    rewrite (Uc b _ Hd (readable_app _ _ _ _ Hr)). apply readable_skip in Hr.
    destruct (Z.ltb_spec (Z.of_nat k) (Z.of_nat (length vals))); [|lia].
    assert (unpacks d (opal_dss_unpack_buffer T (Z.of_nat k)) (type_tag d ty ++ x) (take k vals)) as U
      by (apply unpacks_is_desc; eapply unpacks_bind; [apply (unpacks_tag d ty)|exact Ux]).
    rewrite app_assoc in Hr. rewrite (U (Dss.skip b (length (type_tag d OPAL_INT32 ++ c))) _ Hd (readable_app _ _ _ _ Hr)).
    by eexists.
Qed.

End Fields.
