(* ===== verification/DssBuffer.v ===== *)
(** * Buffers in buffers (opal/dss/dss_pack.c, dss_unpack.c: OPAL_BUFFER)

    A buffer packed into another one: the number of its bytes and the bytes.  The receiver
    gets a new buffer of the default kind, not described, that has not been read. *)

From Stdlib Require Import ZArith Lia Ascii.
From stdpp Require Import prelude numbers strings gmap list.
From S2P Require Import Prelude CString Dss Fields.

Local Open Scope Z_scope.

Module DssBuffer.
Import Dss Fields.

Definition OPAL_BUFFER : Z := 27.

(** All the bytes, those that have been read included. *)
Definition pack_one_buffer (ptr : opal_buffer_t) : M unit :=
  _ ← opal_dss_pack_sizet [bytes_used ptr];
  if 0 <? bytes_used ptr then opal_dss_pack_byte (base ptr) else mret tt.

(** The number of bytes passes through an [int32_t]. *)
Definition unpack_one_buffer : M opal_buffer_t :=
  l ← opal_dss_unpack_sizet 1;
  nbytes ← only l;
  let m := swrap 32 nbytes in
  bytes ← (if 0 <? nbytes then opal_dss_unpack_byte m else mret []);
  mret (mk_buf false bytes 0 nbytes).

Definition opal_dss_pack_buffer_contents : list opal_buffer_t → M unit := pack_each pack_one_buffer.
Definition opal_dss_unpack_buffer_contents : Z → M (list opal_buffer_t) := unpack_each unpack_one_buffer.
Definition t_buffer : opal_dss_type_info_t opal_buffer_t :=
  mk_info OPAL_BUFFER opal_dss_pack_buffer_contents opal_dss_unpack_buffer_contents.

(** What the receiver has of a buffer. *)
Definition received_buffer (p : opal_buffer_t) : opal_buffer_t := mk_buf false (base p) 0 (bytes_used p).

Lemma one_buffer d p : bytes_used p ≤ INT_MAX → meets d (pack_one_buffer p) unpack_one_buffer (received_buffer p).
Proof.
  intros Hp. assert (0 ≤ bytes_used p) as H0 by (unfold bytes_used; lia). unfold INT_MAX in Hp.
  destruct (codec_size d [bytes_used p]) as (x & Px & Ux); [apply Forall_singleton; unfold in_u; lia|done|].
  assert (swrap 32 (bytes_used p) = bytes_used p) as Es
    by (unfold swrap; rewrite Z.mod_small by lia; zbool; lia).
  exists (x ++ base p). split.
  - apply packs_bind; [exact Px|]. destruct (Z.ltb_spec 0 (bytes_used p)); [apply packs_bytes|].
    unfold bytes_used in *. destruct (base p); [apply packs_ret|simpl in *; lia].
  - eapply unpacks_bind; [exact Ux|]. apply (unpacks_bind d _ _ [] (base p) (bytes_used p)); [apply unpacks_ret|].
    cbn beta zeta. rewrite Es. apply (unpacks_bind_ret _ _ (λ bytes, mk_buf false bytes 0 (bytes_used p))).
    destruct (Z.ltb_spec 0 (bytes_used p)); [by apply unpacks_bytes|].
    unfold bytes_used in *. destruct (base p); [apply unpacks_ret|simpl in *; lia].
Qed.

Lemma carries_buffers d l : Forall (λ p, bytes_used p ≤ INT_MAX) l →
  carries t_buffer d l (received_buffer <$> l).
Proof. intros Hl. apply carries_each. eapply Forall_impl; [exact Hl|]. intros p. apply one_buffer. Qed.

#[export] Instance stays_t_buffer : Stays t_buffer.
Proof.
  intros n Hn. apply stays_times, stays_bind; [apply stays_t_size; unfold int32_range; lia|].
  intros l. apply stays_bind; [apply stays_only|]. intros nbytes. apply stays_bind; [|auto with stays].
  destruct (_ <? _); [|apply stays_ret]. apply stays_bytes. apply (swrap_range 32). lia.
Qed.

(** ** Messages built up in a buffer of their own

    [holds b bs]: the buffer is of the default kind, nothing of it has been read, and it
    holds the bytes [bs]. *)

Definition holds (b : opal_buffer_t) (bs : list Z) : Prop :=
  fully_desc b = false ∧ unpack_off b = 0%nat ∧ base b = bs.

Lemma holds_new : holds (mk_buf false [] 0 0) [].
Proof. done. Qed.

(** Packing more, with the result of the call not looked at. *)
Lemma holds_pack b bs (p : M unit) x : holds b bs → packs false p x →
  ∃ b', p b = Some (b', inr tt) ∧ holds b' (bs ++ x).
Proof.
  intros (Hd & Ho & Hb) Hp. destruct (Hp b Hd) as (b' & E & X). exists b'. split; [done|].
  destruct X as (? & ? & ? & ?). unfold holds. by split_and!; congruence.
Qed.

Lemma holds_received b bs : holds b bs → holds (received_buffer b) bs.
Proof. by intros (? & ? & <-). Qed.

(** Reading what is next. *)
Definition ahead (b : opal_buffer_t) (bs : list Z) : Prop := fully_desc b = false ∧ readable b bs [].

Lemma holds_ahead b bs : holds b bs → ahead b bs.
Proof. intros (Hd & Ho & Hb). split; [done|]. split; [lia|]. unfold remaining. by rewrite Ho, Hb, app_nil_r. Qed.

Lemma ahead_unpack {A} b x y (u : M A) a : ahead b (x ++ y) → unpacks false u x a →
  u b = Some (skip b (length x), inr a) ∧ ahead (skip b (length x)) y.
Proof.
  intros [Hd Hr] Hu. split; [by apply (Hu b (y ++ [])); [done|apply readable_app]|].
  split; [done|by apply readable_skip].
Qed.

(** At the end of a buffer there is nothing to unpack. *)
Lemma ahead_end {A} (T : opal_dss_type_info_t A) b : ahead b [] →
  unpack1 T b = Some (b, inl OPAL_ERR_UNPACK_READ_PAST_END_OF_BUFFER).
Proof.
  intros [Hd [Hl Hr]]. unfold unpack1, opal_dss_unpack. cbn [Z.eqb].
  assert (unpack_count b = Some (b, inl OPAL_ERR_UNPACK_READ_PAST_END_OF_BUFFER)) as E; [|by rewrite E].
  unfold unpack_count, mbind, M_bind, is_desc. rewrite Hd. cbn -[opal_dss_too_small].
  unfold read_as, mbind, M_bind, opal_dss_unpack_int32, unpack_words.
  assert (opal_dss_too_small b (uwrap 64 (1 * Z.of_nat 4)) = true) as ->; [|done].
  apply (f_equal length) in Hr. unfold remaining in Hr. rewrite length_drop in Hr. simpl in Hr.
  unfold opal_dss_too_small. zbool; try done. replace (uwrap 64 (1 * Z.of_nat 4)) with 4 in * by done. lia.
Qed.

End DssBuffer.
