(* ===== verification/DssStats.v ===== *)
(** * Statistics of processes and nodes (opal/dss: OPAL_PSTAT, OPAL_NODE_STAT)

    What the sensors send about a process and about a node.  The names in the statistics of
    a process are blocks of 32 characters inside the object: the sender packs the string in
    the block, the receiver moves the characters it reads into the block of a new object.
    The share of the processor never travels.  Floats are their bit patterns, so that
    [0.0] is 0. *)

From Stdlib Require Import ZArith Lia Ascii.
From stdpp Require Import prelude numbers strings gmap list.
From S2P Require Import Prelude CString Dss Fields.

Local Open Scope Z_scope.

Module DssStats.
Import Dss Fields.

Definition OPAL_PSTAT : Z := 23.
Definition OPAL_NODE_STAT : Z := 24.
Definition OPAL_PSTAT_MAX_STRING_LEN : nat := 32.

Record opal_pstats_t := mk_pstat {
  ps_node : list Z;
  ps_rank : Z;
  ps_pid : Z;
  ps_cmd : list Z;
  ps_state0 : Z;
  ps_state1 : Z;
  ps_time : timeval;
  ps_percent_cpu : Z;
  ps_priority : Z;
  ps_num_threads : Z;
  ps_vsize : Z;
  ps_rss : Z;
  ps_peak_vsize : Z;
  ps_processor : Z;
  ps_sample_time : timeval;
}.

Record opal_diskstats_t := mk_disk {
  dk_disk : option cstring;
  num_reads_completed : Z;
  num_reads_merged : Z;
  num_sectors_read : Z;
  milliseconds_reading : Z;
  num_writes_completed : Z;
  num_writes_merged : Z;
  num_sectors_written : Z;
  milliseconds_writing : Z;
  num_ios_in_progress : Z;
  milliseconds_io : Z;
  weighted_milliseconds_io : Z;
}.

Record opal_netstats_t := mk_net {
  net_interface : option cstring;
  num_bytes_recvd : Z;
  num_packets_recvd : Z;
  num_recv_errs : Z;
  num_bytes_sent : Z;
  num_packets_sent : Z;
  num_send_errs : Z;
}.

Record opal_node_stats_t := mk_node_stats {
  la : Z;
  la5 : Z;
  la15 : Z;
  total_mem : Z;
  free_mem : Z;
  ns_buffers : Z;
  ns_cached : Z;
  swap_cached : Z;
  swap_total : Z;
  swap_free : Z;
  ns_mapped : Z;
  ns_sample_time : timeval;
  diskstats : list opal_diskstats_t;
  netstats : list opal_netstats_t;
}.

Definition zero_block : list Z := replicate OPAL_PSTAT_MAX_STRING_LEN 0.
Definition zero_time : timeval := mk_tv 0 0.

(** The state of a new object is ['U']. *)
Definition opal_pstat_construct : opal_pstats_t :=
  mk_pstat zero_block 0 0 zero_block 85 0 zero_time 0 (-1) (-1) 0 0 0 (-1) zero_time.

Definition opal_node_stats_construct : opal_node_stats_t :=
  mk_node_stats 0 0 0 0 0 0 0 0 0 0 0 zero_time [] [].

(** [memmove(block, cptr, strlen(cptr))]: no character may lie behind the block, and the
    string must exist. *)
Definition move_into (block : list Z) (cptr : option cstring) : M (list Z) :=
  match cptr with
  | None => undefined
  | Some s => if (length s <=? length block)%nat then mret ((code <$> s) ++ drop (length s) block) else undefined
  end.

Section wire.
Context `{FloatText}.

(** A block that holds no NUL is read past its end. *)
Definition pack_block (block : list Z) : M unit :=
  match c_string block with
  | Some s => opal_dss_pack_buffer t_string [Some s]
  | None => undefined
  end.

Definition pack_one_pstat (p : opal_pstats_t) : M unit :=
  _ ← pack_block (ps_node p);
  _ ← opal_dss_pack_buffer t_int32 [ps_rank p];
  _ ← opal_dss_pack_buffer t_pid [ps_pid p];
  _ ← pack_block (ps_cmd p);
  _ ← opal_dss_pack_buffer t_byte [ps_state0 p];
  _ ← opal_dss_pack_buffer t_timeval [ps_time p];
  _ ← opal_dss_pack_buffer t_int32 [ps_priority p];
  _ ← opal_dss_pack_buffer t_int16 [ps_num_threads p];
  _ ← opal_dss_pack_float [ps_vsize p];
  _ ← opal_dss_pack_float [ps_rss p];
  _ ← opal_dss_pack_float [ps_peak_vsize p];
  _ ← opal_dss_pack_buffer t_int16 [ps_processor p];
  opal_dss_pack_buffer t_timeval [ps_sample_time p].

Definition opal_dss_pack_pstat : list opal_pstats_t → M unit := pack_each pack_one_pstat.

Definition unpack_float : M Z := l ← opal_dss_unpack_float 1; only l.

Definition unpack_block (block : list Z) : M (list Z) := cptr ← unpack_field t_string; move_into block cptr.

Definition unpack_one_pstat : M opal_pstats_t :=
  let p := opal_pstat_construct in
  node ← unpack_block (ps_node p);
  rank ← unpack_field t_int32;
  pid ← unpack_field t_pid;
  cmd ← unpack_block (ps_cmd p);
  state0 ← unpack_field t_byte;
  time ← unpack_field t_timeval;
  priority ← unpack_field t_int32;
  num_threads ← unpack_field t_int16;
  vsize ← unpack_float;
  rss ← unpack_float;
  peak_vsize ← unpack_float;
  processor ← unpack_field t_int16;
  sample_time ← unpack_field t_timeval;
  mret (mk_pstat node rank pid cmd state0 (ps_state1 p) time (ps_percent_cpu p) priority num_threads
          vsize rss peak_vsize processor sample_time).

Definition opal_dss_unpack_pstat : Z → M (list opal_pstats_t) := unpack_each unpack_one_pstat.

Definition t_pstat : opal_dss_type_info_t opal_pstats_t :=
  mk_info OPAL_PSTAT opal_dss_pack_pstat opal_dss_unpack_pstat.

Definition pack_disk_stats (dk : opal_diskstats_t) : M unit :=
  _ ← opal_dss_pack_buffer t_string [dk_disk dk];
  _ ← opal_dss_pack_buffer t_uint64 [num_reads_completed dk];
  _ ← opal_dss_pack_buffer t_uint64 [num_reads_merged dk];
  _ ← opal_dss_pack_buffer t_uint64 [num_sectors_read dk];
  _ ← opal_dss_pack_buffer t_uint64 [milliseconds_reading dk];
  _ ← opal_dss_pack_buffer t_uint64 [num_writes_completed dk];
  _ ← opal_dss_pack_buffer t_uint64 [num_writes_merged dk];
  _ ← opal_dss_pack_buffer t_uint64 [num_sectors_written dk];
  _ ← opal_dss_pack_buffer t_uint64 [milliseconds_writing dk];
  _ ← opal_dss_pack_buffer t_uint64 [num_ios_in_progress dk];
  _ ← opal_dss_pack_buffer t_uint64 [milliseconds_io dk];
  opal_dss_pack_buffer t_uint64 [weighted_milliseconds_io dk].

Definition pack_net_stats (ns : opal_netstats_t) : M unit :=
  _ ← opal_dss_pack_buffer t_string [net_interface ns];
  _ ← opal_dss_pack_buffer t_uint64 [num_bytes_recvd ns];
  _ ← opal_dss_pack_buffer t_uint64 [num_packets_recvd ns];
  _ ← opal_dss_pack_buffer t_uint64 [num_recv_errs ns];
  _ ← opal_dss_pack_buffer t_uint64 [num_bytes_sent ns];
  _ ← opal_dss_pack_buffer t_uint64 [num_packets_sent ns];
  opal_dss_pack_buffer t_uint64 [num_send_errs ns].

(** The number of objects on a list and then the objects. *)
Definition pack_members {A} (p : A → M unit) (l : list A) : M unit :=
  let j := to_int (Z.of_nat (length l)) in
  _ ← opal_dss_pack_buffer t_int32 [j];
  if 0 <? j then pack_each p l else mret tt.

Definition pack_one_node_stat (n : opal_node_stats_t) : M unit :=
  _ ← opal_dss_pack_float [la n];
  _ ← opal_dss_pack_float [la5 n];
  _ ← opal_dss_pack_float [la15 n];
  _ ← opal_dss_pack_float [total_mem n];
  _ ← opal_dss_pack_float [free_mem n];
  _ ← opal_dss_pack_float [ns_buffers n];
  _ ← opal_dss_pack_float [ns_cached n];
  _ ← opal_dss_pack_float [swap_cached n];
  _ ← opal_dss_pack_float [swap_total n];
  _ ← opal_dss_pack_float [swap_free n];
  _ ← opal_dss_pack_float [ns_mapped n];
  _ ← opal_dss_pack_buffer t_timeval [ns_sample_time n];
  _ ← pack_members pack_disk_stats (diskstats n);
  pack_members pack_net_stats (netstats n).

Definition opal_dss_pack_node_stat : list opal_node_stats_t → M unit := pack_each pack_one_node_stat.

Definition unpack_one_disk : M opal_diskstats_t :=
  disk ← unpack_field t_string;
  a ← unpack_field t_uint64; b ← unpack_field t_uint64; c ← unpack_field t_uint64;
  d ← unpack_field t_uint64; e ← unpack_field t_uint64; f ← unpack_field t_uint64;
  g ← unpack_field t_uint64; h ← unpack_field t_uint64; i ← unpack_field t_uint64;
  j ← unpack_field t_uint64; k ← unpack_field t_uint64;
  mret (mk_disk disk a b c d e f g h i j k).

Definition unpack_one_net : M opal_netstats_t :=
  interface ← unpack_field t_string;
  a ← unpack_field t_uint64; b ← unpack_field t_uint64; c ← unpack_field t_uint64;
  d ← unpack_field t_uint64; e ← unpack_field t_uint64; f ← unpack_field t_uint64;
  mret (mk_net interface a b c d e f).

Definition unpack_members {A} (u : M A) : M (list A) := n ← unpack_field t_int32; unpack_each u n.

Definition unpack_disk_stats : M (list opal_diskstats_t) := unpack_members unpack_one_disk.
Definition unpack_net_stats : M (list opal_netstats_t) := unpack_members unpack_one_net.

Definition unpack_one_node_stat : M opal_node_stats_t :=
  l1 ← unpack_float; l5 ← unpack_float; l15 ← unpack_float;
  total ← unpack_float; free ← unpack_float; buffers ← unpack_float; cached ← unpack_float;
  scached ← unpack_float; stotal ← unpack_float; sfree ← unpack_float; mapped ← unpack_float;
  time ← unpack_field t_timeval;
  disks ← unpack_disk_stats;
  nets ← unpack_net_stats;
  mret (mk_node_stats l1 l5 l15 total free buffers cached scached stotal sfree mapped time disks nets).

Definition opal_dss_unpack_node_stat : Z → M (list opal_node_stats_t) := unpack_each unpack_one_node_stat.

Definition t_node_stat : opal_dss_type_info_t opal_node_stats_t :=
  mk_info OPAL_NODE_STAT opal_dss_pack_node_stat opal_dss_unpack_node_stat.
End wire.

(** ** Copies (dss_copy.c) and comparisons (dss_compare.c) *)

Definition opal_dss_copy_pstat (src : opal_pstats_t) : opal_pstats_t :=
  let p := opal_pstat_construct in
  mk_pstat (ps_node src) (ps_rank src) (ps_pid src) (ps_cmd src) (ps_state0 src) (ps_state1 p) (ps_time src)
    (ps_percent_cpu p) (ps_priority src) (ps_num_threads src) (ps_vsize src) (ps_rss src)
    (ps_peak_vsize src) (ps_processor src) (mk_tv (tv_sec (ps_sample_time src)) (tv_usec (ps_sample_time src))).

Definition opal_dss_copy_node_stat (src : opal_node_stats_t) : opal_node_stats_t :=
  let p := opal_node_stats_construct in
  mk_node_stats (la src) (la5 src) (la15 src) (total_mem src) (free_mem src) (ns_buffers p) (ns_cached p)
    (swap_cached p) (swap_total p) (swap_free p) (ns_mapped p)
    (mk_tv (tv_sec (ns_sample_time src)) (tv_usec (ns_sample_time src))) (diskstats p) (netstats p).

Definition opal_dss_compare_pstat (value1 value2 : opal_pstats_t) : Z := OPAL_EQUAL.
Definition opal_dss_compare_node_stat (value1 value2 : opal_node_stats_t) : Z := OPAL_EQUAL.

(** ** What the receiver has *)

(** The string in a block, at most 31 characters. *)
Definition named (block : list Z) (s : cstring) : Prop :=
  length block = OPAL_PSTAT_MAX_STRING_LEN ∧ c_string block = Some s.

(** A string at the front of a block of zeros. *)
Definition block_of (s : cstring) : list Z := (code <$> s) ++ replicate (OPAL_PSTAT_MAX_STRING_LEN - length s) 0.

Definition text_of (block : list Z) : cstring := default [] (c_string block).

Definition received_pstat (p : opal_pstats_t) : opal_pstats_t :=
  mk_pstat (block_of (text_of (ps_node p))) (ps_rank p) (ps_pid p) (block_of (text_of (ps_cmd p))) (ps_state0 p) 0
    (ps_time p) 0 (ps_priority p) (ps_num_threads p) (ps_vsize p) (ps_rss p) (ps_peak_vsize p)
    (ps_processor p) (ps_sample_time p).

Definition valid_time (tv : timeval) : Prop := in_s 64 (tv_sec tv) ∧ in_s 64 (tv_usec tv).

Definition char_block (block : list Z) : Prop := Forall (in_u 8) block ∧ ∃ s, named block s.

Definition valid_pstat `{FloatText} (p : opal_pstats_t) : Prop :=
  char_block (ps_node p) ∧ char_block (ps_cmd p) ∧ in_s 32 (ps_rank p) ∧ 0 ≤ ps_pid p ≤ INT_MAX ∧
  in_u 8 (ps_state0 p) ∧ valid_time (ps_time p) ∧ in_s 32 (ps_priority p) ∧ in_s 16 (ps_num_threads p) ∧
  valid_float (ps_vsize p) ∧ valid_float (ps_rss p) ∧ valid_float (ps_peak_vsize p) ∧
  in_s 16 (ps_processor p) ∧ valid_time (ps_sample_time p).

Definition valid_disk (k : opal_diskstats_t) : Prop :=
  valid_string (dk_disk k) ∧
  Forall (in_u 64) [num_reads_completed k; num_reads_merged k; num_sectors_read k; milliseconds_reading k;
    num_writes_completed k; num_writes_merged k; num_sectors_written k; milliseconds_writing k;
    num_ios_in_progress k; milliseconds_io k; weighted_milliseconds_io k].

Definition valid_net (n : opal_netstats_t) : Prop :=
  valid_string (net_interface n) ∧
  Forall (in_u 64) [num_bytes_recvd n; num_packets_recvd n; num_recv_errs n; num_bytes_sent n;
    num_packets_sent n; num_send_errs n].

Definition valid_node_stats `{FloatText} (n : opal_node_stats_t) : Prop :=
  Forall valid_float [la n; la5 n; la15 n; total_mem n; free_mem n; ns_buffers n; ns_cached n;
    swap_cached n; swap_total n; swap_free n; ns_mapped n] ∧
  valid_time (ns_sample_time n) ∧ Forall valid_disk (diskstats n) ∧ Forall valid_net (netstats n) ∧
  Z.of_nat (length (diskstats n)) ≤ INT_MAX ∧ Z.of_nat (length (netstats n)) ≤ INT_MAX.

(** ** The wire format *)

Lemma c_string_text bs s : Forall (in_u 8) bs → c_string bs = Some s →
  (length s < length bs)%nat ∧ Forall (λ c, c ≠ "000"%char) s.
Proof.
  intros Hb. revert s. induction Hb as [|x bs Hx _ IH]; intros s; cbn [c_string]; [done|].
  destruct (Z.eqb_spec x 0) as [_|Hx0]; [intros [= <-]; simpl; split; [lia|constructor]|].
  destruct (c_string bs) as [t|]; [|done]. intros [= <-]. destruct (IH t eq_refl) as [Hl Ht].
  simpl. split; [lia|]. constructor; [|done]. intros E. apply (f_equal nat_of_ascii) in E.
  unfold in_u in Hx. change (2 ^ 8) with 256 in Hx. rewrite nat_ascii_embedding in E by lia.
  change (nat_of_ascii "000"%char) with 0%nat in E. lia.
Qed.

Lemma char_block_text b : char_block b → c_string b = Some (text_of b) ∧
  (length (text_of b) < OPAL_PSTAT_MAX_STRING_LEN)%nat ∧ Forall (λ c, c ≠ "000"%char) (text_of b).
Proof.
  intros (Hb & s & Hl & Hs). unfold text_of. rewrite Hs. cbn [default].
  destruct (c_string_text b s Hb Hs) as [? ?]. rewrite <-Hl. done.
Qed.

Lemma meets_block `{FloatText} d b : char_block b → meets d (pack_block b) (unpack_block zero_block) (block_of (text_of b)).
Proof.
  intros Hb. destruct (char_block_text b Hb) as (Hs & Hl & Hc). unfold OPAL_PSTAT_MAX_STRING_LEN in Hl.
  unfold pack_block. rewrite Hs.
  destruct (one_field t_string valid_string d (Some (text_of b))) as (x & Hx & Hu);
    [apply _|split; [unfold INT_MAX; lia|done]|].
  exists (x ++ []). split; [by rewrite app_nil_r|]. eapply unpacks_bind; [exact Hu|]. cbn [move_into].
  unfold zero_block. rewrite length_replicate. destruct (Nat.leb_spec (length (text_of b)) OPAL_PSTAT_MAX_STRING_LEN);
    [|unfold OPAL_PSTAT_MAX_STRING_LEN in *; lia].
  rewrite drop_replicate. apply unpacks_ret.
Qed.

Lemma meets_float `{FloatText} d f : valid_float f → meets d (opal_dss_pack_float [f]) unpack_float f.
Proof.
  intros Hf. destruct (codec_float d [f]) as (x & Hx & Hu); [by apply Forall_singleton|done|].
  exists (x ++ []). split; [by rewrite app_nil_r|]. eapply unpacks_bind; [exact Hu|apply unpacks_ret].
Qed.

Lemma meets_stat_members {A B} d (p : A → M unit) (u : M B) (r : A → B) l : Z.of_nat (length l) ≤ INT_MAX →
  Forall (λ x, meets d (p x) u (r x)) l → meets d (pack_members p l) (unpack_members u) (r <$> l).
Proof.
  intros Hl Hm. unfold INT_MAX in Hl. unfold pack_members, unpack_members. rewrite to_int_small by (unfold INT_MAX; lia).
  eapply meets_field; [apply _|unfold in_s; simpl; lia|].
  destruct (Z.ltb_spec 0 (Z.of_nat (length l))); [by apply meets_each|].
  destruct l; [apply meets_ret|simpl in *; lia].
Qed.

(** A run of fields, floats and blocks, taken by the shape of what is packed. *)
Ltac segment :=
  lazymatch goal with
  | |- meets _ (mbind _ (opal_dss_pack_buffer _ _)) _ _ => eapply meets_field; [apply _|first [exact I|eassumption]|]
  | |- meets _ (mbind _ (opal_dss_pack_float _)) _ _ => eapply meets_bind; [by apply meets_float|]
  | |- meets _ (mbind _ (pack_block _)) _ _ => eapply meets_bind; [by apply meets_block|]
  | |- meets _ (opal_dss_pack_buffer _ _) _ _ => eapply meets_last; [apply _|first [exact I|eassumption]|reflexivity]
  end.
Ltac segments := repeat segment.

Lemma meets_pstat `{FloatText} d p : valid_pstat p → meets d (pack_one_pstat p) unpack_one_pstat (received_pstat p).
Proof.
  intros (? & ? & ? & ? & ? & ? & ? & ? & ? & ? & ? & ? & ?). unfold pack_one_pstat, unpack_one_pstat.
  cbn zeta. cbn [ps_node ps_cmd opal_pstat_construct]. segments.
Qed.

Lemma meets_disk d k : valid_disk k → meets d (pack_disk_stats k) unpack_one_disk k.
Proof.
  intros [? Hk]. rewrite !Forall_cons in Hk. destruct Hk as (? & ? & ? & ? & ? & ? & ? & ? & ? & ? & ? & _).
  destruct k. cbn in *. unfold pack_disk_stats, unpack_one_disk. segments.
Qed.

Lemma meets_net d n : valid_net n → meets d (pack_net_stats n) unpack_one_net n.
Proof.
  intros [? Hn]. rewrite !Forall_cons in Hn. destruct Hn as (? & ? & ? & ? & ? & ? & _).
  destruct n. cbn in *. unfold pack_net_stats, unpack_one_net. segments.
Qed.

Lemma node_stats_eta n : n = mk_node_stats (la n) (la5 n) (la15 n) (total_mem n) (free_mem n) (ns_buffers n)
  (ns_cached n) (swap_cached n) (swap_total n) (swap_free n) (ns_mapped n) (ns_sample_time n)
  (diskstats n) (netstats n).
Proof. by destruct n. Qed.

Lemma meets_node_stat `{FloatText} d n : valid_node_stats n → meets d (pack_one_node_stat n) unpack_one_node_stat n.
Proof.
  intros (Hf & ? & Hd & Hn & ? & ?). rewrite !Forall_cons in Hf.
  destruct Hf as (? & ? & ? & ? & ? & ? & ? & ? & ? & ? & ? & _).
  rewrite (node_stats_eta n) at 2. unfold pack_one_node_stat, unpack_one_node_stat. segments.
  eapply meets_bind.
  { apply (meets_stat_members d _ _ id); [done|]. eapply Forall_impl; [exact Hd|]. intros k. apply meets_disk. }
  cbn beta. rewrite list_fmap_id.
  apply (meets_map d _ _ (λ nets, mk_node_stats _ _ _ _ _ _ _ _ _ _ _ _ _ nets)).
  rewrite <-(list_fmap_id (netstats n)) at 2. apply (meets_stat_members d _ _ id); [done|].
  eapply Forall_impl; [exact Hn|]. intros k. apply meets_net.
Qed.

(** ** Theorems *)

Lemma carries_pstat `{FloatText} d ps : Forall valid_pstat ps → carries t_pstat d ps (received_pstat <$> ps).
Proof. intros Hp. apply carries_each. eapply Forall_impl; [exact Hp|]. intros p. apply meets_pstat. Qed.

#[export] Instance codec_node_stat `{FloatText} : Codec t_node_stat valid_node_stats.
Proof.
  intros d ns Hn _. rewrite <-(list_fmap_id ns) at 2. apply carries_each.
  eapply Forall_impl; [exact Hn|]. intros n. apply meets_node_stat.
Qed.

(** The sample of a node (sensor resusage, sigar): the statistics of the node and then
    those of its processes, packed into a buffer of either kind, are what the receiver
    unpacks, the statistics of the node unchanged with their lists of disks and interfaces,
    those of a process with its names at the front of blocks of zeros and with no share of
    the processor; nothing is left in the buffer. *)
Theorem statistics_round_trip `{FloatText} n ps b :
  valid_node_stats n → Forall valid_pstat ps → 0 < Z.of_nat (length ps) ≤ INT_MAX → unpack_off b = length (base b) →
  ∃ b1 b2 b3 b4, opal_dss_pack t_node_stat [n] b = Some (b1, inr tt) ∧
    opal_dss_pack t_pstat ps b1 = Some (b2, inr tt) ∧
    opal_dss_unpack t_node_stat 1 b2 = Some (b3, (OPAL_SUCCESS, 1, [n])) ∧
    opal_dss_unpack t_pstat (Z.of_nat (length ps)) b3 =
      Some (b4, (OPAL_SUCCESS, Z.of_nat (length ps), received_pstat <$> ps)) ∧
    remaining b4 = [].
Proof.
  intros Hn Hps Hl Ho. set (d := fully_desc b).
  destruct (packs_dss t_node_stat d [n] [n]) as (x & Px & Ux); [apply codec_node_stat; [by apply Forall_singleton|done]|done|].
  destruct (packs_dss t_pstat d ps (received_pstat <$> ps)) as (y & Py & Uy); [by apply carries_pstat|done|].
  destruct (Px b eq_refl) as (b1 & E1 & X1). assert (fully_desc b1 = d) as D1 by apply X1.
  destruct (Py b1 D1) as (b2 & E2 & X2). assert (fully_desc b2 = d) as D2 by (etrans; [apply X2|done]).
  pose proof (extended_readable b (x ++ y) b2 Ho (extended_trans _ _ _ _ _ X1 X2)) as Hr.
  exists b1, b2, (Dss.skip b2 (length x)), (Dss.skip (Dss.skip b2 (length x)) (length y)). split_and!; [done..| | |].
  - rewrite (Ux 1 b2 (y ++ [])); [done..|by apply readable_app].
  - rewrite (Uy _ _ []); [done..|by apply readable_skip].
  - apply readable_skip in Hr. rewrite <-(app_nil_r y) in Hr. by apply readable_skip in Hr as [_ ->].
Qed.

(** A name of more than 32 characters is moved past the end of the block: whoever sends it
    writes into the memory of the receiver. *)
Theorem pstat_name_overrun `{FloatText} s b bs rest :
  (OPAL_PSTAT_MAX_STRING_LEN < length s)%nat → valid_string (Some s) →
  packs (fully_desc b) (opal_dss_pack_buffer t_string [Some s]) bs → readable b bs rest →
  unpack_one_pstat b = None.
Proof.
  intros Hl Hs Hp Hr. destruct (one_field t_string valid_string (fully_desc b) (Some s)) as (x & Px & Ux); [apply _|done|].
  rewrite (packs_inj _ _ _ _ Hp Px) in Hr.
  unfold unpack_one_pstat, unpack_block, mbind, M_bind. rewrite (Ux b rest eq_refl Hr). cbn [move_into].
  cbn [ps_node opal_pstat_construct]. unfold zero_block. rewrite length_replicate.
  destruct (Nat.leb_spec (length s) OPAL_PSTAT_MAX_STRING_LEN); [lia|done].
Qed.

(** A copy of the statistics of a process travels like the original. *)
Theorem copy_pstat_travels p : received_pstat (opal_dss_copy_pstat p) = received_pstat p.
Proof. destruct p as [? ? ? ? ? ? ? ? ? ? ? ? ? ? []]. done. Qed.

(** A copy of the statistics of a node keeps its loads and two of its eight amounts of memory. *)
Theorem copy_node_stat_loses n : opal_dss_copy_node_stat n = n ↔
  ns_buffers n = 0 ∧ ns_cached n = 0 ∧ swap_cached n = 0 ∧ swap_total n = 0 ∧ swap_free n = 0 ∧ ns_mapped n = 0 ∧
  diskstats n = [] ∧ netstats n = [].
Proof.
  destruct n as [? ? ? ? ? ? ? ? ? ? ? [] ? ?]. unfold opal_dss_copy_node_stat. cbn. split.
  - intros E. injection E as <- <- <- <- <- <- <- <-. done.
  - intros (-> & -> & -> & -> & -> & -> & -> & ->). done.
Qed.

(** *** At a concrete sample *)

#[local] Instance decimal : FloatText := {| printf_f := print_int; strtof := λ s, (strtol s).1 |}.

Definition sample_time : timeval := mk_tv 1420070400 250000.
Definition sample_node : opal_node_stats_t :=
  mk_node_stats 1 2 3 64 32 4 5 0 16 16 7 sample_time
    [mk_disk (Some (lit "sda")) 1 2 3 4 5 6 7 8 9 10 11] [mk_net (Some (lit "eth0")) 100 2 0 200 3 0].
Definition sample_process : opal_pstats_t :=
  mk_pstat (block_of (lit "n1")) 0 4711 (block_of (lit "a.out")) 82 0 sample_time 12 (-1) 4 100 50 60 3 sample_time.

Lemma statistics_round_trip_witness :
  ∃ b1 b2 b3 b4, opal_dss_pack t_node_stat [sample_node] (mk_buf true [] 0 0) = Some (b1, inr tt) ∧
    opal_dss_pack t_pstat [sample_process] b1 = Some (b2, inr tt) ∧
    opal_dss_unpack t_node_stat 1 b2 = Some (b3, (OPAL_SUCCESS, 1, [sample_node])) ∧
    opal_dss_unpack t_pstat 1 b3 = Some (b4, (OPAL_SUCCESS, 1, [received_pstat sample_process])).
Proof.
  assert (∀ f, f ∈ [0; 1; 2; 3; 4; 5; 7; 16; 32; 50; 60; 64; 100] → valid_float f) as Hf.
  { intros f. apply Forall_forall. repeat constructor; done. }
  assert (valid_time sample_time) as Ht by done.
  destruct (statistics_round_trip sample_node [sample_process] (mk_buf true [] 0 0)) as (b1 & b2 & b3 & b4 & E1 & E2 & E3 & E4 & _).
  - unfold valid_node_stats. split_and!; try done.
    + cbn. repeat (constructor; [apply Hf; set_solver|]). constructor.
    + apply Forall_singleton. split; [split; [done|forall_list]|forall_list].
    + apply Forall_singleton. split; [split; [done|forall_list]|forall_list].
  - apply Forall_singleton. unfold valid_pstat. split_and!; try done; try (apply Hf; set_solver).
    + split; [forall_list|]. exists (lit "n1"). done.
    + split; [forall_list|]. exists (lit "a.out"). done.
  - done.
  - done.
  - exists b1, b2, b3, b4. exact (conj E1 (conj E2 (conj E3 E4))).
Defined.

End DssStats.
