(* ===== verification/DssValue.v ===== *)
(** * Keyed values (opal/dss: OPAL_VALUE and OPAL_DOUBLE)

    An [opal_value_t] is a key, a type and the member of a union that the type selects: a
    scalar, or an array with its size.  A value that is unpacked is a new object, whose
    union is zero: the pointer of an array is NULL when its elements are unpacked to it. *)

From Stdlib Require Import ZArith Lia Ascii.
From stdpp Require Import prelude numbers strings gmap list.
From S2P Require Import Prelude CString Dss Fields.

Local Open Scope Z_scope.

Module DssValue.
Import Dss Fields.

Definition OPAL_UNDEF : Z := 0.
Definition OPAL_DOUBLE : Z := 17.
Definition OPAL_VALUE : Z := 26.
Definition OPAL_FLOAT_ARRAY : Z := 31.
Definition OPAL_DOUBLE_ARRAY : Z := 32.
Definition OPAL_STRING_ARRAY : Z := 33.
Definition OPAL_BOOL_ARRAY : Z := 34.
Definition OPAL_SIZE_ARRAY : Z := 35.
Definition OPAL_BYTE_ARRAY : Z := 36.
Definition OPAL_INT_ARRAY : Z := 37.
Definition OPAL_INT8_ARRAY : Z := 38.
Definition OPAL_INT16_ARRAY : Z := 39.
Definition OPAL_INT32_ARRAY : Z := 40.
Definition OPAL_INT64_ARRAY : Z := 41.
Definition OPAL_UINT_ARRAY : Z := 42.
Definition OPAL_UINT8_ARRAY : Z := 43.
Definition OPAL_UINT16_ARRAY : Z := 44.
Definition OPAL_UINT32_ARRAY : Z := 45.
Definition OPAL_UINT64_ARRAY : Z := 46.
Definition OPAL_PID_ARRAY : Z := 48.
Definition OPAL_TIMEVAL_ARRAY : Z := 49.
Definition OPAL_ERR_NOT_SUPPORTED : Z := -8.
Definition OPAL_ERR_TYPE_MISMATCH : Z := -27.

(** An array: its size, and the elements at its pointer, none for NULL. *)
Record opal_array (A : Type) := mk_array { arr_size : Z; arr_data : list A }.
Arguments mk_array {A}.
Arguments arr_size {A}.
Arguments arr_data {A}.

(** The member of the union; the members of integer type share [V_num], their arrays
    [V_nums], as floats, doubles and their bit patterns do. *)
Inductive value_data :=
  | V_flag (b : bool)
  | V_num (z : Z)
  | V_string (s : option cstring)
  | V_bo (bo : opal_byte_object_t)
  | V_fval (f : Z)
  | V_dval (f : Z)
  | V_tv (tv : timeval)
  | V_name (n : opal_process_name_t)
  | V_ptr (p : Z)
  | V_nums (a : opal_array Z)
  | V_flags (a : opal_array bool)
  | V_strings (a : opal_array (option cstring))
  | V_fvals (a : opal_array Z)
  | V_dvals (a : opal_array Z)
  | V_tvs (a : opal_array timeval).

Record opal_value_t := mk_value {
  value_key : option cstring;
  value_type : Z;
  value_data_ : value_data;
}.

(** The member of integer type that a type selects, and its type on the wire. *)
Definition num_type (type : Z) : option (opal_dss_type_info_t Z) :=
  if type =? OPAL_BYTE then Some t_byte
  else if type =? OPAL_SIZE then Some t_size
  else if type =? OPAL_PID then Some t_pid
  else if type =? OPAL_INT then Some t_int
  else if type =? OPAL_INT8 then Some t_int8
  else if type =? OPAL_INT16 then Some t_int16
  else if type =? OPAL_INT32 then Some t_int32
  else if type =? OPAL_INT64 then Some t_int64
  else if type =? OPAL_UINT then Some t_uint
  else if type =? OPAL_UINT8 then Some t_uint8
  else if type =? OPAL_UINT16 then Some t_uint16
  else if type =? OPAL_UINT32 then Some t_uint32
  else if type =? OPAL_UINT64 then Some t_uint64
  else None.

(** The elements of the arrays of integers. *)
Definition nums_type (type : Z) : option (opal_dss_type_info_t Z) :=
  if type =? OPAL_SIZE_ARRAY then Some t_size
  else if type =? OPAL_BYTE_ARRAY then Some t_byte
  else if type =? OPAL_INT_ARRAY then Some t_int
  else if type =? OPAL_INT8_ARRAY then Some t_int8
  else if type =? OPAL_INT16_ARRAY then Some t_int16
  else if type =? OPAL_INT32_ARRAY then Some t_int32
  else if type =? OPAL_INT64_ARRAY then Some t_int64
  else if type =? OPAL_UINT_ARRAY then Some t_uint
  else if type =? OPAL_UINT8_ARRAY then Some t_uint8
  else if type =? OPAL_UINT16_ARRAY then Some t_uint16
  else if type =? OPAL_UINT32_ARRAY then Some t_uint32
  else if type =? OPAL_UINT64_ARRAY then Some t_uint64
  else if type =? OPAL_PID_ARRAY then Some t_pid
  else None.

(** *** Doubles travel as text, as floats do *)

Class DoubleText := { printf_lf : Z → cstring; strtod : cstring → Z }.

Definition opal_dss_pack_double `{DoubleText} (src : list Z) : M unit :=
  pack_each (λ f, opal_dss_pack_string [Some (printf_lf f)]) src.

Definition unpack_one_double `{DoubleText} : M Z :=
  l ← opal_dss_unpack_string 1;
  convert ← only l;
  match convert with
  | None => fail OPAL_ERR_UNPACK_FAILURE
  | Some s => mret (strtod s)
  end.

Definition opal_dss_unpack_double `{DoubleText} (num_vals : Z) : M (list Z) := λ b,
  if opal_dss_too_small b (uwrap 64 (num_vals * 8))
  then Some (b, inl OPAL_ERR_UNPACK_READ_PAST_END_OF_BUFFER)
  else unpack_each unpack_one_double num_vals b.

Definition t_double `{DoubleText} : opal_dss_type_info_t Z :=
  mk_info OPAL_DOUBLE opal_dss_pack_double opal_dss_unpack_double.

(** ** Packing *)

Section wire.
Context `{FloatText} `{DoubleText}.

(** The size of an array and its elements.  A size of more elements than there are reads
    past them; a negative one, which moves the end of the buffer back, is left out. *)
Definition pack_array {A} (T : opal_dss_type_info_t A) (a : opal_array A) : M unit :=
  _ ← opal_dss_pack_buffer t_int32 [arr_size a];
  if (0 <=? arr_size a) && (arr_size a <=? Z.of_nat (length (arr_data a)))
  then opal_dss_pack_buffer T (take (Z.to_nat (arr_size a)) (arr_data a)) else undefined.

Definition pack_scalar (type : Z) (v : value_data) : M unit :=
  match num_type type with
  | Some T => match v with V_num z => opal_dss_pack_buffer T [z] | _ => undefined end
  | None =>
    if type =? OPAL_BOOL then match v with V_flag b => opal_dss_pack_buffer t_bool [b] | _ => undefined end
    else if type =? OPAL_STRING then match v with V_string s => opal_dss_pack_buffer t_string [s] | _ => undefined end
    else if type =? OPAL_BYTE_OBJECT then match v with V_bo bo => pack_one_byte_object bo | _ => undefined end
    else if type =? OPAL_FLOAT then match v with V_fval f => opal_dss_pack_buffer t_float [f] | _ => undefined end
    else if type =? OPAL_DOUBLE then match v with V_dval f => opal_dss_pack_buffer t_double [f] | _ => undefined end
    else if type =? OPAL_TIMEVAL then match v with V_tv tv => opal_dss_pack_buffer t_timeval [tv] | _ => undefined end
    else if type =? OPAL_PTR then mret tt
    else if type =? OPAL_NAME then match v with V_name n => opal_dss_pack_buffer t_name [n] | _ => undefined end
    else fail OPAL_ERROR
  end.

Definition pack_arrays (type : Z) (v : value_data) : M unit :=
  match nums_type type with
  | Some T => match v with V_nums a => pack_array T a | _ => undefined end
  | None =>
    if type =? OPAL_FLOAT_ARRAY then match v with V_fvals a => pack_array t_float a | _ => undefined end
    else if type =? OPAL_DOUBLE_ARRAY then match v with V_dvals a => pack_array t_double a | _ => undefined end
    else if type =? OPAL_STRING_ARRAY then match v with V_strings a => pack_array t_string a | _ => undefined end
    else if type =? OPAL_BOOL_ARRAY then match v with V_flags a => pack_array t_bool a | _ => undefined end
    else if type =? OPAL_TIMEVAL_ARRAY then match v with V_tvs a => pack_array t_timeval a | _ => undefined end
    else fail OPAL_ERROR
  end.

(** The types of the arrays are those from 31 to 49. *)
Definition is_array (type : Z) : bool := (OPAL_FLOAT_ARRAY <=? type) && (type <=? OPAL_TIMEVAL_ARRAY).

Definition pack_one_value (v : opal_value_t) : M unit :=
  _ ← opal_dss_pack_string [value_key v];
  _ ← opal_dss_pack_data_type [value_type v];
  if is_array (value_type v) then pack_arrays (value_type v) (value_data_ v)
  else pack_scalar (value_type v) (value_data_ v).

Definition opal_dss_pack_value : list opal_value_t → M unit := pack_each pack_one_value.

(** ** Unpacking *)

Definition member {A} (T : opal_dss_type_info_t A) (f : A → value_data) : M value_data :=
  x ← unpack_field T; mret (f x).

Definition unpack_scalar (type : Z) : M value_data :=
  match num_type type with
  | Some T => member T V_num
  | None =>
    if type =? OPAL_BOOL then member t_bool V_flag
    else if type =? OPAL_STRING then member t_string V_string
    else if type =? OPAL_BYTE_OBJECT then bo ← unpack_one_byte_object; mret (V_bo bo)
    else if type =? OPAL_FLOAT then member t_float V_fval
    else if type =? OPAL_DOUBLE then member t_double V_dval
    else if type =? OPAL_TIMEVAL then member t_timeval V_tv
    else if type =? OPAL_NAME then member t_name V_name
    else fail OPAL_ERROR
  end.

(** The unpacking functions with NULL for a destination.  Those of the integers write when
    all the values are there; those of strings, floats and times write them one by one,
    that of strings as soon as it has the length of the first. *)
Definition all_to_null {A} (T : opal_dss_type_info_t A) : opal_dss_type_info_t A :=
  mk_info (odti_type T) (odti_pack_fn T)
    (λ n, l ← odti_unpack_fn T n; match l with [] => mret [] | _ => undefined end).

Definition first_to_null {A B} (first : M B) (n : Z) : M (list A) :=
  if 0 <? n then _ ← first; undefined else mret [].

Definition string_length : M Z := l ← odti_unpack_fn t_int32 1; only l.

Definition strings_to_null : opal_dss_type_info_t (option cstring) :=
  mk_info OPAL_STRING opal_dss_pack_string (first_to_null string_length).

Definition guarded_to_null {A} (T : opal_dss_type_info_t A) (width : Z) (first : M A) : opal_dss_type_info_t A :=
  mk_info (odti_type T) (odti_pack_fn T)
    (λ n b, if opal_dss_too_small b (uwrap 64 (n * width))
            then Some (b, inl OPAL_ERR_UNPACK_READ_PAST_END_OF_BUFFER) else first_to_null first n b).

Definition unpack_array {A} (T : opal_dss_type_info_t A) (f : opal_array A → value_data) : M value_data :=
  size ← unpack_field t_int32;
  l ← opal_dss_unpack_buffer T size;
  mret (f (mk_array size l)).

Definition unpack_arrays (type : Z) : M value_data :=
  match nums_type type with
  | Some T => unpack_array (all_to_null T) V_nums
  | None =>
    if type =? OPAL_FLOAT_ARRAY then unpack_array (guarded_to_null t_float 4 unpack_one_float) V_fvals
    else if type =? OPAL_DOUBLE_ARRAY then unpack_array (guarded_to_null t_double 8 unpack_one_double) V_dvals
    else if type =? OPAL_STRING_ARRAY then unpack_array strings_to_null V_strings
    else if type =? OPAL_BOOL_ARRAY then unpack_array (all_to_null t_bool) V_flags
    else if type =? OPAL_TIMEVAL_ARRAY then unpack_array (guarded_to_null t_timeval 16 unpack_one_timeval) V_tvs
    else fail OPAL_ERROR
  end.

Definition unpack_one_value : M opal_value_t :=
  l ← opal_dss_unpack_string 1; key ← only l;
  l ← opal_dss_unpack_data_type 1; type ← only l;
  v ← (if is_array type then unpack_arrays type else unpack_scalar type);
  mret (mk_value key type v).

Definition opal_dss_unpack_value : Z → M (list opal_value_t) := unpack_each unpack_one_value.

Definition t_value : opal_dss_type_info_t opal_value_t :=
  mk_info OPAL_VALUE opal_dss_pack_value opal_dss_unpack_value.
End wire.

(** ** Construction, load and unload (dss_load_unload.c), copy (dss_copy.c), compare *)

Definition opal_value_construct : opal_value_t := mk_value None OPAL_UNDEF (V_num 0).

(** The types [opal_value_load] and [opal_value_unload] know. *)
Definition supported (type : Z) : bool :=
  match num_type type with
  | Some _ => true
  | None => (type =? OPAL_BOOL) || (type =? OPAL_STRING) || (type =? OPAL_BYTE_OBJECT) ||
            (type =? OPAL_FLOAT) || (type =? OPAL_TIMEVAL) || (type =? OPAL_PTR)
  end.

(** The member a type selects. *)
Definition member_of (type : Z) (v : value_data) : bool :=
  match v with
  | V_flag _ => type =? OPAL_BOOL
  | V_num _ => match num_type type with Some _ => true | None => false end
  | V_string _ => type =? OPAL_STRING
  | V_bo _ => type =? OPAL_BYTE_OBJECT
  | V_fval _ => type =? OPAL_FLOAT
  | V_dval _ => type =? OPAL_DOUBLE
  | V_tv _ => type =? OPAL_TIMEVAL
  | V_name _ => type =? OPAL_NAME
  | V_ptr _ => type =? OPAL_PTR
  | V_nums _ => match nums_type type with Some _ => true | None => false end
  | V_flags _ => type =? OPAL_BOOL_ARRAY
  | V_strings _ => type =? OPAL_STRING_ARRAY
  | V_fvals _ => type =? OPAL_FLOAT_ARRAY
  | V_dvals _ => type =? OPAL_DOUBLE_ARRAY
  | V_tvs _ => type =? OPAL_TIMEVAL_ARRAY
  end.

(** [memset(&kv->data, 0, sizeof(kv->data))], read at the member of the type. *)
Definition zero_data (type : Z) : value_data :=
  if type =? OPAL_BOOL then V_flag false
  else if type =? OPAL_STRING then V_string None
  else if type =? OPAL_BYTE_OBJECT then V_bo (mk_bo 0 [])
  else if type =? OPAL_FLOAT then V_fval 0
  else if type =? OPAL_TIMEVAL then V_tv (mk_tv 0 0)
  else if type =? OPAL_PTR then V_ptr 0
  else V_num 0.

(** Before a string or a byte object is loaded, the pointer that is there is released: the
    union must hold the same member, or be that of a new object. *)
Definition releasable (type : Z) (v : value_data) : bool :=
  match v with V_num z => z =? 0 | _ => member_of type v end.

(** A byte object of no bytes is copied as NULL. *)
Definition copy_bo (bo : opal_byte_object_t) : opal_byte_object_t := if 0 <? bo_size bo then bo else mk_bo 0 [].
Definition copy_member (v : value_data) : value_data := match v with V_bo bo => V_bo (copy_bo bo) | _ => v end.

(** [data] is what the caller points to, [None] for NULL; for OPAL_PTR it is the pointer
    itself.  Reading it at a type it does not have is undefined. *)
Definition opal_value_load (kv : opal_value_t) (data : option value_data) (type : Z) : option (opal_value_t * Z) :=
  let set v := mk_value (value_key kv) type v in
  let owns := (type =? OPAL_STRING) || (type =? OPAL_BYTE_OBJECT) in
  if owns && negb (releasable type (value_data_ kv)) then None else
  match data with
  | None => Some (set (zero_data type), OPAL_SUCCESS)
  | Some v =>
    if negb (supported type) then Some (set (value_data_ kv), OPAL_ERR_NOT_SUPPORTED) else
    if member_of type v then Some (set (copy_member v), OPAL_SUCCESS) else None
  end.

(** [null]: [data] is NULL; [storage]: [*data] is not. *)
Definition opal_value_unload (kv : opal_value_t) (null storage : bool) (type : Z) : option (Z * option value_data) :=
  if negb (type =? value_type kv) then Some (OPAL_ERR_TYPE_MISMATCH, None) else
  if null || negb storage && negb (type =? OPAL_STRING) && negb (type =? OPAL_BYTE_OBJECT)
  then Some (OPAL_ERR_BAD_PARAM, None) else
  if negb (supported type) then Some (OPAL_ERR_NOT_SUPPORTED, None) else
  if member_of type (value_data_ kv) then Some (OPAL_SUCCESS, Some (copy_member (value_data_ kv))) else None.

(** The types [opal_dss_copy_value] knows: no booleans, sizes, floats, doubles or times. *)
Definition copied (type : Z) : bool :=
  match num_type type with
  | Some _ => negb (type =? OPAL_SIZE)
  | None => (type =? OPAL_STRING) || (type =? OPAL_BYTE_OBJECT) || (type =? OPAL_NAME)
  end.

Definition opal_dss_copy_value (src : opal_value_t) : option (opal_value_t * Z) :=
  let p := mk_value (value_key src) (value_type src) (value_data_ opal_value_construct) in
  if copied (value_type src) then
    if member_of (value_type src) (value_data_ src)
    then Some (mk_value (value_key p) (value_type p) (copy_member (value_data_ src)), OPAL_SUCCESS) else None
  else Some (p, OPAL_ERROR).

Definition opal_dss_compare_value (value1 value2 : opal_value_t) : Z := OPAL_EQUAL.

(** ** What the wire format keeps *)

Definition num_range (type z : Z) : Prop :=
  if type =? OPAL_BYTE then in_u 8 z
  else if type =? OPAL_SIZE then in_u 64 z
  else if type =? OPAL_PID then 0 ≤ z ≤ INT_MAX
  else if type =? OPAL_INT then in_s 32 z
  else if type =? OPAL_INT8 then in_s 8 z
  else if type =? OPAL_INT16 then in_s 16 z
  else if type =? OPAL_INT32 then in_s 32 z
  else if type =? OPAL_INT64 then in_s 64 z
  else if type =? OPAL_UINT then 0 ≤ z ≤ INT_MAX
  else if type =? OPAL_UINT8 then in_u 8 z
  else if type =? OPAL_UINT16 then in_u 16 z
  else if type =? OPAL_UINT32 then in_u 32 z
  else in_u 64 z.

Definition nums_range (type z : Z) : Prop :=
  if type =? OPAL_SIZE_ARRAY then in_u 64 z
  else if type =? OPAL_BYTE_ARRAY then in_u 8 z
  else if type =? OPAL_INT_ARRAY then in_s 32 z
  else if type =? OPAL_INT8_ARRAY then in_s 8 z
  else if type =? OPAL_INT16_ARRAY then in_s 16 z
  else if type =? OPAL_INT32_ARRAY then in_s 32 z
  else if type =? OPAL_INT64_ARRAY then in_s 64 z
  else if type =? OPAL_UINT_ARRAY then 0 ≤ z ≤ INT_MAX
  else if type =? OPAL_UINT8_ARRAY then in_u 8 z
  else if type =? OPAL_UINT16_ARRAY then in_u 16 z
  else if type =? OPAL_UINT32_ARRAY then in_u 32 z
  else if type =? OPAL_UINT64_ARRAY then in_u 64 z
  else 0 ≤ z ≤ INT_MAX.

(** A double survives when the six decimals of its text are enough to name it; the shortest
    text, [inf] or [nan], has three characters. *)
Definition valid_double `{DoubleText} (f : Z) : Prop :=
  valid_string (Some (printf_lf f)) ∧ strtod (printf_lf f) = f ∧ (3 ≤ length (printf_lf f))%nat.

Definition valid_time (tv : timeval) : Prop := in_s 64 (tv_sec tv) ∧ in_s 64 (tv_usec tv).

(** An array whose elements are there. *)
Definition valid_array {A} (valid : A → Prop) (a : opal_array A) : Prop :=
  arr_size a = Z.of_nat (length (arr_data a)) ∧ arr_size a ≤ INT_MAX ∧ Forall valid (arr_data a).

Definition valid_data `{FloatText, DoubleText} (type : Z) (v : value_data) : Prop :=
  member_of type v = true ∧
  match v with
  | V_flag _ => True
  | V_num z => num_range type z
  | V_string s => valid_string s
  | V_bo bo => valid_bo bo
  | V_fval f => valid_float f
  | V_dval f => valid_double f
  | V_tv tv => valid_time tv
  | V_name n => valid_name n
  | V_ptr _ => False
  | V_nums a => valid_array (nums_range type) a
  | V_flags a => valid_array (λ _, True) a
  | V_strings a => valid_array valid_string a
  | V_fvals a => valid_array valid_float a
  | V_dvals a => valid_array valid_double a
  | V_tvs a => valid_array valid_time a
  end.

(** The number of elements a value says it has. *)
Definition elements (v : value_data) : Z :=
  match v with
  | V_nums a | V_fvals a | V_dvals a => arr_size a
  | V_flags a => arr_size a
  | V_strings a => arr_size a
  | V_tvs a => arr_size a
  | _ => 0
  end.

Definition valid_value `{FloatText, DoubleText} (v : opal_value_t) : Prop :=
  valid_string (value_key v) ∧ in_u 8 (value_type v) ∧ valid_data (value_type v) (value_data_ v) ∧
  elements (value_data_ v) = 0.

(** ** The wire format *)

Lemma num_value_codec type T : num_type type = Some T → Codec T (num_range type).
Proof.
  unfold num_type, num_range.
  repeat match goal with
  | |- (if ?b then _ else _) = _ → _ => destruct b; [intros [= <-]; apply _|]
  end. done.
Qed.

Lemma nums_codec type T : nums_type type = Some T → Codec T (nums_range type).
Proof.
  unfold nums_type, nums_range.
  repeat match goal with
  | |- (if ?b then _ else _) = _ → _ => destruct b; [intros [= <-]; apply _|]
  end. done.
Qed.

#[export] Instance codec_double `{DoubleText} : Codec t_double valid_double.
Proof.
  intros d vals Hv Hl. unfold INT_MAX in Hl.
  destruct (codec_each (λ f, opal_dss_pack_string [Some (printf_lf f)]) unpack_one_double valid_double 8 d vals)
    as (bs & Hp & Hu & Hlen); [|done|].
  - intros f (Hs & Hf & H3). destruct (codec_one_string d _ Hs) as (x & Hx & Hx' & _).
    assert (8 ≤ length x)%nat as Hx8.
    { rewrite (packs_inj d _ x _ Hx (packs_bind d _ _ _ _ (packs_words d 4 _) (packs_bytes d _))).
      rewrite !length_app, length_fmap. simpl. lia. }
    exists (x ++ []). split_and!; [apply packs_bind; [done|apply packs_ret]| |rewrite app_nil_r; lia].
    apply (unpacks_bind d _ _ x [] [Some (printf_lf f)]).
    + change (Z.to_nat 1) with 1%nat. rewrite <-(app_nil_r x).
      eapply unpacks_bind; [done|]. apply unpacks_bind_ret, unpacks_ret.
    + apply (unpacks_bind d _ _ [] [] (Some (printf_lf f))); [apply unpacks_ret|].
      rewrite Hf. apply unpacks_ret.
  - exists bs. split; [done|]. apply unpacks_guard; [lia|lia|done].
Qed.

(** [m] has no defined behaviour on a buffer whose unread part starts with [bs]. *)
Definition crashes {A} (d : bool) (m : M A) (bs : list Z) : Prop :=
  ∀ b rest, fully_desc b = d → readable b bs rest → m b = None.

Lemma crashes_bind {A B} d (m : M A) (k : A → M B) x y a :
  unpacks d m x a → crashes d (k a) y → crashes d (m ≫= k) (x ++ y).
Proof.
  intros Hm Hk b rest Hd Hr. unfold mbind, M_bind. rewrite (Hm b (y ++ rest) Hd); [|by apply readable_app].
  apply (Hk _ rest); [done|by apply readable_skip].
Qed.

Lemma crashes_first {A B} d (m : M A) (k : A → M B) x : crashes d m x → crashes d (m ≫= k) x.
Proof. intros Hm b rest Hd Hr. unfold mbind, M_bind. by rewrite (Hm b rest Hd Hr). Qed.

Lemma crashes_more {A} d (m : M A) x y : crashes d m x → crashes d m (x ++ y).
Proof. intros Hm b rest Hd Hr. apply (Hm b (y ++ rest) Hd). by apply readable_app. Qed.

Lemma crashes_buffer {A} d (T : opal_dss_type_info_t A) n bs :
  crashes d (odti_unpack_fn T n) bs → crashes d (opal_dss_unpack_buffer T n) (type_tag d (odti_type T) ++ bs).
Proof.
  intros Hc. assert (crashes d (_ ← (if d then local_type ← opal_dss_get_data_type;
      if odti_type T =? local_type then mret tt else fail OPAL_ERR_PACK_MISMATCH else mret tt);
      odti_unpack_fn T n) (type_tag d (odti_type T) ++ bs)) as H by (eapply crashes_bind; [apply unpacks_tag|done]).
  intros b rest Hd. specialize (H b rest Hd). subst d. exact H.
Qed.

(** [T'] is [T] with NULL for a destination: it does the same for no values, and has no
    defined behaviour where [T] finds some. *)
Definition to_null {A} (T T' : opal_dss_type_info_t A) : Prop :=
  odti_type T' = odti_type T ∧
  (∀ n b b' l, 0 < n → odti_unpack_fn T n b = Some (b', inr l) → l ≠ [] → odti_unpack_fn T' n b = None) ∧
  (∀ d bs, unpacks d (odti_unpack_fn T 0) bs [] → unpacks d (odti_unpack_fn T' 0) bs []).

Lemma all_to_null_spec {A} (T : opal_dss_type_info_t A) : to_null T (all_to_null T).
Proof.
  split_and!; [done| |].
  - intros n b b' l _ E Hl. cbn. unfold mbind, M_bind. rewrite E. by destruct l.
  - intros d bs Hu b rest Hd Hr. cbn. unfold mbind, M_bind. by rewrite (Hu b rest Hd Hr).
Qed.

Lemma bind_first {A B} (m : M A) (k : A → M B) b b' r : (m ≫= k) b = Some (b', inr r) →
  ∃ b1 a, m b = Some (b1, inr a).
Proof. unfold mbind, M_bind. destruct (m b) as [[b1 [?|a]]|]; [done|by exists b1, a|done]. Qed.

Lemma first_to_null_crash {A B C} (first : M B) (k : B → M C) n b b' r : 0 < n →
  (first ≫= k) b = Some (b', inr r) → first_to_null (A := A) first n b = None.
Proof.
  intros Hn E. apply bind_first in E as (b1 & a & E). unfold first_to_null. destruct (Z.ltb_spec 0 n); [|lia].
  unfold mbind, M_bind. by rewrite E.
Qed.

Lemma unpack_each_first {A} (f : M A) n : 0 < n →
  unpack_each f n = a ← f; l ← unpack_times f (Z.to_nat n - 1); mret (a :: l).
Proof. intros Hn. unfold unpack_each. destruct (Z.to_nat n) as [|k] eqn:E; [lia|]. cbn. by rewrite Nat.sub_0_r. Qed.

Lemma strings_to_null_spec : to_null t_string strings_to_null.
Proof.
  split_and!; [done| |done]. intros n b b' l Hn E _. cbn in E.
  unfold opal_dss_unpack_string in E. rewrite unpack_each_first in E by done.
  apply bind_first in E as (b1 & a & E). unfold unpack_one_string in E.
  assert (∃ b2 z, string_length b = Some (b2, inr z)) as (b2 & z & E2).
  { revert E. unfold string_length. unfold mbind, M_bind. destruct (odti_unpack_fn t_int32 1 b) as [[b2 [?|w]]|]; [done| |done].
    destruct (only w b2) as [[b3 [?|z]]|]; [done| |done]. intros _. by exists b3, z. }
  change (first_to_null (A := option cstring) string_length n b = None). unfold first_to_null.
  destruct (Z.ltb_spec 0 n); [|lia]. unfold mbind, M_bind. by rewrite E2.
Qed.

Lemma guarded_to_null_spec {A} (T : opal_dss_type_info_t A) width (first : M A) :
  (∀ n b, odti_unpack_fn T n b = if opal_dss_too_small b (uwrap 64 (n * width))
     then Some (b, inl OPAL_ERR_UNPACK_READ_PAST_END_OF_BUFFER) else unpack_each first n b) →
  to_null T (guarded_to_null T width first).
Proof.
  intros HT. split_and!; [done| |].
  - intros n b b' l Hn E _. rewrite HT in E. cbn. destruct (opal_dss_too_small _ _); [done|].
    rewrite unpack_each_first in E by done. by eapply first_to_null_crash.
  - intros d bs Hu b rest Hd Hr. specialize (Hu b rest Hd Hr). rewrite HT in Hu. exact Hu.
Qed.

(** A valid array of no elements travels; one with elements can be packed, and has no
    reader. *)
Lemma array_empty {A} (T T' : opal_dss_type_info_t A) (f : opal_array A → value_data) valid d a :
  to_null T T' → Codec T valid → valid_array valid a → arr_size a = 0 →
  meets d (pack_array T a) (unpack_array T' f) (f a).
Proof.
  intros (Ht & _ & H0) HT (Hs & _ & _) Ha. destruct a as [size data]. cbn in *. subst size.
  destruct data; [|done]. unfold pack_array, unpack_array. cbn [arr_size arr_data].
  eapply meets_field; [apply _|unfold in_s; simpl; lia|]. cbn [length Z.of_nat Z.leb andb].
  destruct (HT d [] (Forall_nil_2 _)) as (bs & Hp & Hu); [done|].
  exists (type_tag d (odti_type T) ++ bs). split.
  - apply packs_is_desc, packs_bind; [apply packs_tag|exact Hp].
  - apply (unpacks_bind_ret d _ (λ l, f (mk_array 0 l))). apply unpacks_is_desc.
    eapply unpacks_bind; [rewrite Ht; apply unpacks_tag|]. by apply H0.
Qed.

Lemma array_crash {A} (T T' : opal_dss_type_info_t A) (f : opal_array A → value_data) valid d a :
  to_null T T' → Codec T valid → valid_array valid a → 0 < arr_size a →
  ∃ bs, packs d (pack_array T a) bs ∧ crashes d (unpack_array T' f) bs.
Proof.
  intros (Ht & H1 & _) HT (Hs & Hm & Hv) Ha. unfold INT_MAX in Hm.
  destruct (one_field t_int32 (in_s 32) d (arr_size a)) as (x & Px & Ux); [apply _|unfold in_s; simpl; lia|].
  destruct (HT d (arr_data a) Hv) as (bs & Hp & Hu); [unfold INT_MAX; lia|].
  exists (x ++ type_tag d (odti_type T) ++ bs). split.
  - apply packs_bind; [done|]. rewrite Hs. rewrite Nat2Z.id, take_ge by lia.
    destruct (Z.leb_spec 0 (Z.of_nat (length (arr_data a)))); [|lia].
    destruct (Z.leb_spec (Z.of_nat (length (arr_data a))) (Z.of_nat (length (arr_data a)))); [|lia].
    apply packs_is_desc, packs_bind; [apply packs_tag|done].
  - eapply crashes_bind; [exact Ux|]. apply crashes_first.
    assert (crashes d (odti_unpack_fn T' (arr_size a)) bs) as Hc.
    { intros b rest Hd Hr. rewrite Hs in *. apply (H1 _ b (Dss.skip b (length bs)) (arr_data a)); [done|by apply (Hu b rest)|].
      intros E. by rewrite E in Ha. }
    rewrite <-Ht. by apply crashes_buffer.
Qed.

(** ** Values *)

Section values.
Context `{FloatText} `{DoubleText}.

Lemma num_type_scalar type T : num_type type = Some T → is_array type = false.
Proof.
  unfold num_type. repeat match goal with
  | |- (if ?t =? ?n then _ else _) = _ → _ => destruct (Z.eqb_spec t n) as [->|_]; [done|]
  end. done.
Qed.

Lemma nums_type_array type T : nums_type type = Some T → is_array type = true.
Proof.
  unfold nums_type. repeat match goal with
  | |- (if ?t =? ?n then _ else _) = _ → _ => destruct (Z.eqb_spec t n) as [->|_]; [done|]
  end. done.
Qed.

Lemma meets_member {A} (T : opal_dss_type_info_t A) valid d (f : A → value_data) x : Codec T valid → valid x →
  meets d (opal_dss_pack_buffer T [x]) (member T f) (f x).
Proof. intros HT Hx. by eapply meets_last. Qed.

(** The members with no elements. *)
Lemma meets_scalar d type v : valid_data type v → is_array type = false →
  meets d (pack_scalar type v) (unpack_scalar type) v.
Proof.
  intros [Hm Hv] Ha. unfold pack_scalar, unpack_scalar. unfold member_of in Hm.
  destruct (num_type type) as [T|] eqn:HT.
  { destruct v; try (apply Z.eqb_eq in Hm; subst type; done).
    - apply (meets_member T (num_range type)); [by apply num_value_codec|done].
    - destruct (nums_type type) eqn:E; [|done]. apply nums_type_array in E. congruence. }
  destruct v; try done; try (apply Z.eqb_eq in Hm; subst type; try done; cbn).
  - by apply (meets_member t_bool (λ _, True)); [apply _|].
  - by apply (meets_member t_string valid_string); [apply _|].
  - destruct (codec_one_byte_object d bo Hv) as (bs & Hp & Hu). exists bs. split; [done|by apply unpacks_bind_ret].
  - by apply (meets_member t_float valid_float); [apply _|].
  - by apply (meets_member t_double valid_double); [apply _|].
  - by eapply (meets_member t_timeval); [apply codec_timeval|].
  - by apply (meets_member t_name valid_name); [apply _|].
  - destruct (nums_type type) eqn:E; [|done]. apply nums_type_array in E. congruence.
Qed.

(** The reader of an array of each type, with NULL for a destination. *)
Definition array_reader (type : Z) (v : value_data) (P : ∀ A (T T' : opal_dss_type_info_t A)
    (valid : A → Prop) (f : opal_array A → value_data) (a : opal_array A), Prop) : Prop :=
  match v with
  | V_nums a => ∃ T, nums_type type = Some T ∧ P Z T (all_to_null T) (nums_range type) V_nums a
  | V_flags a => P bool t_bool (all_to_null t_bool) (λ _, True) V_flags a
  | V_strings a => P (option cstring) t_string strings_to_null valid_string V_strings a
  | V_fvals a => P Z t_float (guarded_to_null t_float 4 unpack_one_float) valid_float V_fvals a
  | V_dvals a => P Z t_double (guarded_to_null t_double 8 unpack_one_double) valid_double V_dvals a
  | V_tvs a => P timeval t_timeval (guarded_to_null t_timeval 16 unpack_one_timeval) valid_time V_tvs a
  | _ => False
  end.

Lemma array_readers type v : valid_data type v → is_array type = true →
  array_reader type v (λ A T T' valid f a, to_null T T' ∧ Codec T valid ∧ valid_array valid a ∧ v = f a ∧
    arr_size a = elements v ∧ pack_arrays type v = pack_array T a ∧ unpack_arrays type = unpack_array T' f).
Proof.
  intros [Hm Hv] Ha. unfold member_of in Hm. destruct v; cbn [array_reader];
    try (apply Z.eqb_eq in Hm; subst type; try done; cbn).
  - destruct (num_type type) eqn:E; [|done]. apply num_type_scalar in E. congruence.
  - unfold pack_arrays, unpack_arrays. destruct (nums_type type) as [T|] eqn:E; [|done].
    exists T. split_and!; try done; [apply all_to_null_spec|by apply nums_codec].
  - split_and!; try done; [apply all_to_null_spec|apply _].
  - split_and!; try done; [apply strings_to_null_spec|apply _].
  - split_and!; try done; [by apply guarded_to_null_spec|apply _].
  - split_and!; try done; [by apply guarded_to_null_spec|apply _].
  - split_and!; try done; [by apply guarded_to_null_spec|apply codec_timeval].
Qed.

Lemma meets_empty_array d type v : valid_data type v → is_array type = true → elements v = 0 →
  meets d (pack_arrays type v) (unpack_arrays type) v.
Proof.
  intros Hv Ha He. pose proof (array_readers type v Hv Ha) as R. destruct v; try done; cbn [array_reader] in R;
    try lazymatch type of R with ex _ => destruct R as (T & _ & R) end; destruct R as (R1 & R2 & R3 & _ & Rs & -> & ->);
    eapply array_empty; eauto; by rewrite Rs.
Qed.

Lemma array_data_crash d type v : valid_data type v → is_array type = true → 0 < elements v →
  ∃ bs, packs d (pack_arrays type v) bs ∧ crashes d (unpack_arrays type) bs.
Proof.
  intros Hv Ha He. pose proof (array_readers type v Hv Ha) as R. destruct v; try done; cbn [array_reader] in R;
    try lazymatch type of R with ex _ => destruct R as (T & _ & R) end; destruct R as (R1 & R2 & R3 & _ & Rs & -> & ->);
    eapply array_crash; eauto; by rewrite Rs.
Qed.

(** The key and the type in front of a value. *)
Lemma value_front d v : valid_string (value_key v) → in_u 8 (value_type v) →
  ∃ x, (∀ m bs, packs d m bs →
          packs d (_ ← opal_dss_pack_string [value_key v]; _ ← opal_dss_pack_data_type [value_type v]; m) (x ++ bs)) ∧
    ∀ B (k : option cstring → Z → M B),
      let u := (l ← opal_dss_unpack_string 1; key ← only l; l ← opal_dss_unpack_data_type 1; type ← only l; k key type) in
      (∀ bs r, unpacks d (k (value_key v) (value_type v)) bs r → unpacks d u (x ++ bs) r) ∧
      (∀ bs, crashes d (k (value_key v) (value_type v)) bs → crashes d u (x ++ bs)).
Proof.
  intros Hk Ht.
  destruct (codec_string d [value_key v]) as (x & Px & Ux); [by apply Forall_singleton|done|].
  destruct (codec_data_type d [value_type v]) as (y & Py & Uy); [by apply Forall_singleton|done|].
  exists (x ++ y). split.
  - intros m bs Hm. rewrite <-app_assoc. apply packs_bind; [done|by apply packs_bind].
  - intros B k u. split; intros bs.
    + intros r Hr. rewrite <-app_assoc. eapply unpacks_bind; [exact Ux|].
      apply (unpacks_bind d _ _ [] _ (value_key v)); [apply unpacks_ret|].
      eapply unpacks_bind; [exact Uy|]. apply (unpacks_bind d _ _ [] _ (value_type v)); [apply unpacks_ret|done].
    + intros Hc. rewrite <-app_assoc. eapply crashes_bind; [exact Ux|].
      apply (crashes_bind d _ _ [] _ (value_key v)); [apply unpacks_ret|].
      eapply crashes_bind; [exact Uy|]. apply (crashes_bind d _ _ [] _ (value_type v)); [apply unpacks_ret|done].
Qed.

Lemma meets_one_value d v : valid_value v → meets d (pack_one_value v) unpack_one_value v.
Proof.
  intros (Hk & Ht & Hv & He). destruct (value_front d v Hk Ht) as (x & Px & Ux).
  assert (meets d (if is_array (value_type v) then pack_arrays (value_type v) (value_data_ v)
                   else pack_scalar (value_type v) (value_data_ v))
    (if is_array (value_type v) then unpack_arrays (value_type v) else unpack_scalar (value_type v)) (value_data_ v))
    as (y & Py & Uy).
  { destruct (is_array (value_type v)) eqn:Ha; [by apply meets_empty_array|by apply meets_scalar]. }
  exists (x ++ y). split; [by apply Px|].
  destruct (Ux _ (λ key type, v ← (if is_array type then unpack_arrays type else unpack_scalar type); mret (mk_value key type v)))
    as [U _].
  apply U. eapply unpacks_eq; [by apply unpacks_bind_ret|]. by destruct v.
Qed.

#[export] Instance codec_value : Codec t_value valid_value.
Proof.
  intros d vs Hv _. rewrite <-(list_fmap_id vs) at 2. apply carries_each.
  eapply Forall_impl; [exact Hv|]. intros v. apply meets_one_value.
Qed.

Lemma one_value_crash d v : valid_string (value_key v) → in_u 8 (value_type v) →
  valid_data (value_type v) (value_data_ v) → 0 < elements (value_data_ v) →
  ∃ bs, packs d (pack_one_value v) bs ∧ crashes d unpack_one_value bs.
Proof.
  intros Hk Ht Hv He. destruct (value_front d v Hk Ht) as (x & Px & Ux).
  assert (is_array (value_type v) = true) as Ha.
  { destruct Hv as [Hm _]. unfold member_of in Hm.
    destruct (value_data_ v); try done; try (apply Z.eqb_eq in Hm; by rewrite Hm).
    destruct (nums_type (value_type v)) eqn:E; [by eapply nums_type_array|done]. }
  destruct (array_data_crash d _ _ Hv Ha He) as (y & Py & Uy). exists (x ++ y). split.
  - apply Px. by rewrite Ha.
  - destruct (Ux _ (λ key type, v ← (if is_array type then unpack_arrays type else unpack_scalar type); mret (mk_value key type v)))
      as [_ U].
    apply U. rewrite Ha. by apply crashes_first.
Qed.
(** A value the packing function knows, with its member in range. *)
Definition packable (v : opal_value_t) : Prop :=
  valid_string (value_key v) ∧ in_u 8 (value_type v) ∧ valid_data (value_type v) (value_data_ v) ∧ 0 ≤ elements (value_data_ v).

(** An array with elements. *)
Definition filled (v : opal_value_t) : Prop := 0 < elements (value_data_ v).

(** Values before the first array with elements are unpacked, and then the receiver crashes. *)
Lemma values_crash d vals : Forall packable vals → Exists filled vals →
  ∃ bs, packs d (opal_dss_pack_value vals) bs ∧ crashes d (opal_dss_unpack_value (Z.of_nat (length vals))) bs.
Proof.
  unfold opal_dss_unpack_value, unpack_each. rewrite Nat2Z.id. induction 1 as [|v vals (Hk & Ht & Hv & Hn) Hvs IH]; intros Hf.
  { by apply Exists_nil in Hf. }
  assert (∃ y, packs d (pack_each pack_one_value vals) y) as (y & Py).
  { clear -Hvs. induction Hvs as [|v vals (Hk & Ht & Hv & Hn) _ (y & IH)]; [exists []; apply packs_ret|].
    destruct (Z.ltb_spec 0 (elements (value_data_ v))) as [He|He].
    - destruct (one_value_crash d v Hk Ht Hv He) as (x & Px & _). exists (x ++ y). by apply packs_bind.
    - destruct (meets_one_value d v) as (x & Px & _); [split_and!; try done; lia|]. exists (x ++ y). by apply packs_bind. }
  destruct (Z.ltb_spec 0 (elements (value_data_ v))) as [He|He].
  - destruct (one_value_crash d v Hk Ht Hv He) as (x & Px & Cx). exists (x ++ y). split; [by apply packs_bind|].
    apply crashes_more, crashes_first, Cx.
  - apply Exists_cons in Hf as [Hf|Hf]; [unfold filled in Hf; lia|]. destruct (IH Hf) as (z & Pz & Cz).
    destruct (meets_one_value d v) as (x & Px & Ux); [split_and!; try done; lia|]. exists (x ++ z). split; [by apply packs_bind|].
    cbn [length unpack_times]. eapply crashes_bind; [exact Ux|]. by apply crashes_first.
Qed.
End values.

(** ** Theorems *)

(** C31. Keyed values of the types the packing function knows, their members in range, are
    packed into a buffer of either kind.  The receiver unpacks the same values, in their order,
    when each is a scalar or an array of no elements; if one of them is an array with
    elements the behaviour of the receiver is undefined, because it unpacks the elements to
    the NULL pointer of a new object. *)
Theorem value_travels `{FloatText, DoubleText} vals b :
  Forall packable vals → 0 < Z.of_nat (length vals) ≤ INT_MAX → unpack_off b = length (base b) →
  ∃ b1, opal_dss_pack t_value vals b = Some (b1, inr tt) ∧
    (Exists filled vals → opal_dss_unpack t_value (Z.of_nat (length vals)) b1 = None) ∧
    (¬ Exists filled vals → ∃ b2, opal_dss_unpack t_value (Z.of_nat (length vals)) b1 =
       Some (b2, (OPAL_SUCCESS, Z.of_nat (length vals), vals)) ∧ remaining b2 = []).
Proof.
  intros Hv Hl Ho. set (d := fully_desc b).
  assert (Exists filled vals ∨ Forall (λ v, ¬ filled v) vals) as [Hf|Hf].
  { assert (∀ v, Decision (filled v)) by (intros v; unfold filled; apply _).
    destruct (decide (Exists filled vals)) as [?|Hn]; [by left|right].
    apply Forall_forall. intros v Hin Hfv. apply Hn, Exists_exists. by exists v. }
  - destruct (values_crash d vals Hv Hf) as (x & Px & Ux).
    destruct (count_one d (Z.of_nat (length vals))) as (c & Pc & Uc); [unfold in_s, INT_MAX in *; simpl; lia|].
    assert (packs d (opal_dss_pack t_value vals) ((type_tag d OPAL_INT32 ++ c) ++ type_tag d OPAL_VALUE ++ x)) as P.
    { apply packs_is_desc. rewrite <-app_assoc. apply packs_bind; [apply packs_tag|]. apply packs_bind; [done|].
      apply packs_is_desc, packs_bind; [apply packs_tag|done]. }
    destruct (P b eq_refl) as (b1 & E1 & X1). pose proof (extended_readable b _ b1 Ho X1) as Hr.
    assert (fully_desc b1 = d) as D1 by apply X1. exists b1. split; [done|]. split; [intros _|done].
    unfold opal_dss_unpack. destruct (Z.eqb_spec (Z.of_nat (length vals)) 0); [lia|].
    rewrite (Uc b1 _ D1 (readable_app _ _ _ _ Hr)). apply readable_skip in Hr.
    pose proof (crashes_buffer d t_value (Z.of_nat (length vals)) x Ux) as U.
    destruct (Z.ltb_spec (Z.of_nat (length vals)) (Z.of_nat (length vals))); [lia|]. by rewrite (U (Dss.skip b1 _) [] D1 Hr).
  - assert (Forall valid_value vals) as Hval.
    { apply Forall_forall. intros v Hin. rewrite Forall_forall in Hv, Hf. destruct (Hv v Hin) as (? & ? & ? & ?). specialize (Hf v Hin).
      unfold filled in Hf. split_and!; try done. lia. }
    destruct (packs_dss t_value d vals vals (codec_value _ _ Hval ltac:(lia)) Hl) as (bs & Hp & Hu).
    destruct (Hp b eq_refl) as (b1 & E1 & Hx). pose proof (extended_readable b bs b1 Ho Hx) as Hr.
    exists b1. split; [done|]. split; [intros (v & Hin & Hfv)%Exists_exists; rewrite Forall_forall in Hf; by destruct (Hf v Hin)|]. intros _.
    exists (Dss.skip b1 (length bs)). split; [apply (Hu _ b1 []); [lia|apply Hx|done]|].
    rewrite <-(app_nil_r bs) in Hr. apply (readable_skip b1 bs [] []) in Hr. apply Hr.
Qed.

(** A value that was loaded is unloaded at its type, and at no other; the key stays. *)
Theorem value_load_unload kv v type :
  supported type = true → member_of type v = true → releasable type (value_data_ kv) = true ∨ type ≠ OPAL_STRING ∧ type ≠ OPAL_BYTE_OBJECT →
  ∃ kv', opal_value_load kv (Some v) type = Some (kv', OPAL_SUCCESS) ∧ value_key kv' = value_key kv ∧
    opal_value_unload kv' false true type = Some (OPAL_SUCCESS, Some (copy_member v)) ∧
    ∀ null storage other, other ≠ type → opal_value_unload kv' null storage other = Some (OPAL_ERR_TYPE_MISMATCH, None).
Proof.
  intros Hs Hm Hr. exists (mk_value (value_key kv) type (copy_member v)). unfold opal_value_load, opal_value_unload.
  assert (((type =? OPAL_STRING) || (type =? OPAL_BYTE_OBJECT)) && negb (releasable type (value_data_ kv)) = false) as ->.
  { destruct Hr as [->|[? ?]]; [apply andb_false_r|]. destruct (Z.eqb_spec type OPAL_STRING), (Z.eqb_spec type OPAL_BYTE_OBJECT); done. }
  rewrite Hs, Hm. cbn [negb value_type value_data_ value_key]. rewrite Z.eqb_refl. cbn [negb orb andb].
  assert (member_of type (copy_member v) = true) as -> by by destruct v.
  assert (copy_member (copy_member v) = copy_member v) as ->.
  { destruct v as [| | |bo| | | | | | | | | | |]; try done. cbn. unfold copy_bo. destruct (0 <? bo_size bo) eqn:E; cbn; by rewrite ?E. }
  split_and!; try done. intros null storage other Ho. destruct (Z.eqb_spec other type); done.
Qed.

(** A copy of a value travels like the value, where the type can be copied; booleans,
    sizes, floats, doubles and times are packed and unpacked, and cannot be copied. *)
Theorem copy_value_spec v : member_of (value_type v) (value_data_ v) = true →
  opal_dss_copy_value v =
    if copied (value_type v) then Some (mk_value (value_key v) (value_type v) (copy_member (value_data_ v)), OPAL_SUCCESS)
    else Some (mk_value (value_key v) (value_type v) (V_num 0), OPAL_ERROR).
Proof. intros Hm. unfold opal_dss_copy_value. by rewrite Hm. Qed.

Theorem not_copied : copied <$> [OPAL_BOOL; OPAL_SIZE; OPAL_FLOAT; OPAL_DOUBLE; OPAL_TIMEVAL] = [false; false; false; false; false].
Proof. done. Qed.

(** *** At concrete inputs *)

#[local] Instance decimal : FloatText := {| printf_f := print_int; strtof := λ s, (strtol s).1 |}.
#[local] Instance decimals : DoubleText := {| printf_lf := print_int; strtod := λ s, (strtol s).1 |}.

Definition host_value : opal_value_t := mk_value (Some (lit "taphost")) OPAL_STRING (V_string (Some (lit "n1"))).
Definition nums_value : opal_value_t := mk_value (Some (lit "samples")) OPAL_INT32_ARRAY (V_nums (mk_array 2 [4; -7])).

Lemma value_travels_witness :
  (∃ b1 b2, opal_dss_pack t_value [host_value; host_value] (mk_buf true [] 0 0) = Some (b1, inr tt) ∧
     opal_dss_unpack t_value 2 b1 = Some (b2, (OPAL_SUCCESS, 2, [host_value; host_value]))) ∧
  ∃ b1, opal_dss_pack t_value [host_value; nums_value] (mk_buf false [] 0 0) = Some (b1, inr tt) ∧ opal_dss_unpack t_value 2 b1 = None.
Proof.
  assert (packable host_value) as Hh by (split; [split; [done|forall_list]|split; [done|split; [split; [done|split; [done|forall_list]]|done]]]).
  assert (packable nums_value) as Hn by (split; [split; [done|forall_list]|split; [done|split; [split; [done|split_and!; [done|done|forall_list]]|done]]]).
  split.
  - destruct (value_travels [host_value; host_value] (mk_buf true [] 0 0)) as (b1 & E1 & _ & E2);
      [by repeat apply Forall_cons_2|done|done|].
    assert (¬ filled host_value) as Hnf by (intros Hf; discriminate Hf).
    assert (¬ Exists filled [host_value; host_value]) as Hne by (intros Hx; repeat (apply Exists_cons in Hx as [Hx|Hx]; [done|]); by apply Exists_nil in Hx).
    destruct (E2 Hne) as (b2 & E3 & _). exists b1, b2. exact (conj E1 E3).
  - destruct (value_travels [host_value; nums_value] (mk_buf false [] 0 0)) as (b1 & E1 & E2 & _);
      [by repeat apply Forall_cons_2|done|done|].
    exists b1. split; [exact E1|]. apply E2. right. by left.
Defined.

End DssValue.
