(* ===== verification/DssCompare.v ===== *)
(** * Comparing, copying, peeking and registering (opal/dss/dss_compare.c, dss_copy.c,
    dss_peek.c, dss_register.c, dss_lookup.c)

    The comparison of two values of a type, the copy of a value, the look at what comes next
    in a described buffer, and the table of the types. *)

From Stdlib Require Import ZArith Lia Ascii.
From stdpp Require Import prelude numbers strings gmap list.
From S2P Require Import Prelude CString Dss Fields DssBuffer DssValue.

Local Open Scope Z_scope.

Module DssCompare.
Import Dss Fields DssBuffer DssValue.

Definition OPAL_NULL : Z := 22.
Definition OPAL_ERR_DATA_TYPE_REDEF : Z := -31.
Definition OPAL_VPID_WILDCARD : Z := 4294967294.
Definition OPAL_JOBID_WILDCARD : Z := 4294967294.

(** ** Comparison *)

(** The integer types, each with a function of the same text. *)
Definition opal_dss_compare_int (value1 value2 : Z) : Z :=
  if value2 <? value1 then OPAL_VALUE1_GREATER else if value1 <? value2 then OPAL_VALUE2_GREATER else OPAL_EQUAL.

Definition opal_dss_compare_null : Z := OPAL_EQUAL.

Definition opal_dss_compare_bool (value1 value2 : bool) : Z :=
  if value1 && negb value2 then OPAL_VALUE1_GREATER else if value2 && negb value1 then OPAL_VALUE2_GREATER else OPAL_EQUAL.

Definition opal_dss_compare_string (value1 value2 : cstring) : Z :=
  if 0 <? strcmp value1 value2 then OPAL_VALUE2_GREATER
  else if strcmp value1 value2 <? 0 then OPAL_VALUE1_GREATER else OPAL_EQUAL.

Definition opal_dss_compare_timeval (value1 value2 : timeval) : Z :=
  if tv_sec value2 <? tv_sec value1 then OPAL_VALUE1_GREATER
  else if tv_sec value1 <? tv_sec value2 then OPAL_VALUE2_GREATER
  else if tv_usec value2 <? tv_usec value1 then OPAL_VALUE1_GREATER
  else if tv_usec value1 <? tv_usec value2 then OPAL_VALUE2_GREATER
  else OPAL_EQUAL.

(** The two pointers are compared, not the times they point to. *)
Definition opal_dss_compare_time (address1 address2 time1 time2 : Z) : Z :=
  if address2 <? address1 then OPAL_VALUE1_GREATER
  else if address1 <? address2 then OPAL_VALUE2_GREATER else OPAL_EQUAL.

(** The loop over the bytes; the bytes of the second object are read to the same length. *)
Fixpoint checksum_loop (bytes1 bytes2 : list Z) (checksum : Z) : Z :=
  match bytes1, bytes2 with
  | a :: rest1, b :: rest2 =>
    let diff := a - b in
    let checksum := if INT_MAX - Z.abs checksum - Z.abs diff <? 0 then 0 else checksum in
    checksum_loop rest1 rest2 (checksum + diff)
  | _, _ => checksum
  end.

Definition opal_dss_compare_byte_object (value1 value2 : opal_byte_object_t) : Z :=
  if bo_size value2 <? bo_size value1 then OPAL_VALUE1_GREATER
  else if bo_size value1 <? bo_size value2 then OPAL_VALUE2_GREATER
  else
    let checksum := checksum_loop (bo_bytes value1) (bo_bytes value2) 0 in
    if checksum <? 0 then OPAL_VALUE2_GREATER else if 0 <? checksum then OPAL_VALUE1_GREATER else OPAL_EQUAL.

Definition opal_dss_compare_buffer_contents (value1 value2 : opal_buffer_t) : Z := OPAL_EQUAL.

Definition opal_dss_compare_vpid (value1 value2 : Z) : Z :=
  if (value1 =? OPAL_VPID_WILDCARD) || (value2 =? OPAL_VPID_WILDCARD) then OPAL_EQUAL else opal_dss_compare_int value1 value2.

Definition opal_dss_compare_jobid (value1 value2 : Z) : Z :=
  if (value1 =? OPAL_JOBID_WILDCARD) || (value2 =? OPAL_JOBID_WILDCARD) then OPAL_EQUAL else opal_dss_compare_int value1 value2.

(** ** Copies *)

(** The sizes that the standard copy knows. *)
Definition std_size (type : Z) : option nat :=
  if type =? OPAL_BOOL then Some 1%nat
  else if (type =? OPAL_INT) || (type =? OPAL_UINT) then Some 4%nat
  else if type =? OPAL_SIZE then Some 8%nat
  else if type =? OPAL_PID then Some 4%nat
  else if (type =? OPAL_BYTE) || (type =? OPAL_INT8) || (type =? OPAL_UINT8) then Some 1%nat
  else if (type =? OPAL_INT16) || (type =? OPAL_UINT16) then Some 2%nat
  else if (type =? OPAL_INT32) || (type =? OPAL_UINT32) then Some 4%nat
  else if (type =? OPAL_INT64) || (type =? OPAL_UINT64) then Some 8%nat
  else if type =? OPAL_DATA_TYPE then Some 1%nat
  else if type =? OPAL_FLOAT then Some 4%nat
  else if type =? OPAL_TIMEVAL then Some 16%nat
  else if type =? OPAL_TIME then Some 8%nat
  else if type =? OPAL_NAME then Some 8%nat
  else None.

(** [src] is the memory from the pointer on; reading past it is undefined. *)
Definition opal_dss_std_copy (src : list Z) (type : Z) : option (Z + list Z) :=
  match std_size type with
  | None => Some (inl OPAL_ERR_UNKNOWN_DATA_TYPE)
  | Some datasize => if (datasize <=? length src)%nat then Some (inr (take datasize src)) else None
  end.

Definition opal_dss_copy_null : list Z := [0].
Definition opal_dss_copy_string (src : option cstring) : option cstring := c_text <$> src.
Definition opal_dss_copy_byte_object (src : opal_byte_object_t) : opal_byte_object_t :=
  mk_bo (bo_size src) (take (Z.to_nat (bo_size src)) (bo_bytes src)).
Definition opal_dss_copy_buffer_contents (src : opal_buffer_t) : opal_buffer_t :=
  (opal_dss_copy_payload (mk_buf false [] 0 0) src).1.
Definition opal_dss_copy_name (src : opal_process_name_t) : opal_process_name_t := mk_name (jobid src) (vpid src).

(** ** Peeking *)

(** The code, the type and the number of values that come next; the buffer itself is not
    touched. *)
Definition opal_dss_peek (buffer : opal_buffer_t) : option (Z * Z * Z) :=
  if (length (base buffer) <=? unpack_off buffer)%nat then Some (OPAL_ERR_UNPACK_READ_PAST_END_OF_BUFFER, OPAL_NULL, 0) else
  if negb (fully_desc buffer) then Some (OPAL_ERR_UNKNOWN_DATA_TYPE, OPAL_UNDEF, 0) else
  '(tmp, r) ← opal_dss_get_data_type buffer;
  match r with
  | inl ret => Some (ret, OPAL_NULL, 0)
  | inr local_type =>
    if negb (OPAL_INT32 =? local_type) then Some (OPAL_ERR_UNPACK_FAILURE, OPAL_NULL, 0) else
    '(tmp, r) ← odti_unpack_fn t_int32 1 tmp;
    match r with
    | inl ret => Some (ret, OPAL_NULL, 0)
    | inr [num_vals] =>
      '(_, r) ← opal_dss_get_data_type tmp;
      Some (match r with inl ret => (ret, OPAL_NULL, 0) | inr type => (OPAL_SUCCESS, type, num_vals) end)
    | inr _ => None
    end
  end.

(** ** The table of types *)

(** The names of the types that are registered, by their numbers. *)
Definition types := gmap Z cstring.

Definition taken (name : cstring) (type : Z) (t : types) : bool :=
  existsb (λ '(k, n), (strcmp n name =? 0) || ((0 <? type) && (k =? type))) (map_to_list t).

Definition opal_dss_register (name : cstring) (type : Z) (t : types) : types * Z :=
  if taken name type t then (t, OPAL_ERR_DATA_TYPE_REDEF) else
  if type <=? 0 then (t, OPAL_ERR_BAD_PARAM) else (<[type := name]> t, OPAL_SUCCESS).

Definition opal_dss_lookup_data_type (type : Z) (t : types) : option cstring := t !! type.

(** ** Which comparisons are orders *)

(** A comparison that is a total order: it says EQUAL for equal values only, turns round with
    its arguments, and is transitive. *)
Class Ordering {A} (cmp : A → A → Z) : Prop := {
  cmp_equal a b : cmp a b = OPAL_EQUAL ↔ a = b;
  cmp_turn a b : cmp a b = OPAL_VALUE1_GREATER ↔ cmp b a = OPAL_VALUE2_GREATER;
  cmp_trans a b c : cmp a b = OPAL_VALUE1_GREATER → cmp b c = OPAL_VALUE1_GREATER → cmp a c = OPAL_VALUE1_GREATER;
}.

(** Splits every comparison of the goal. *)
Ltac by_cases := repeat match goal with |- context [?x <? ?y] => destruct (Z.ltb_spec x y) end;
  unfold OPAL_EQUAL, OPAL_VALUE1_GREATER, OPAL_VALUE2_GREATER; try lia.

#[export] Instance ordering_int : Ordering opal_dss_compare_int.
Proof. split; unfold opal_dss_compare_int; intros *; by_cases. Qed.

#[export] Instance ordering_bool : Ordering opal_dss_compare_bool.
Proof. split; intros; repeat match goal with b : bool |- _ => destruct b end; done. Qed.

#[export] Instance ordering_timeval : Ordering opal_dss_compare_timeval.
Proof.
  split; unfold opal_dss_compare_timeval.
  - intros [s1 u1] [s2 u2]. cbn. assert (mk_tv s1 u1 = mk_tv s2 u2 ↔ s1 = s2 ∧ u1 = u2) as -> by (split; [by intros [= -> ->]|by intros [-> ->]]).
    by_cases.
  - intros *. by_cases.
  - intros *. by_cases.
Qed.

(** Strings are ordered, but the other way round: the result names the smaller one. *)
Lemma string_ordering a b :
  opal_dss_compare_string a b = OPAL_EQUAL ↔ c_text a = c_text b.
Proof.
  unfold opal_dss_compare_string, strcmp. rewrite <-text_cmp_eq. by_cases.
Qed.

Theorem compare_string_reversed a b : 0 < strcmp a b → opal_dss_compare_string a b = OPAL_VALUE2_GREATER.
Proof. intros H. unfold opal_dss_compare_string. by_cases. Qed.

(** ** Byte objects *)

Definition sum (l : list Z) : Z := foldr Z.add 0 l.

Lemma checksum_exact l1 : ∀ l2 c, Forall (in_u 8) l1 → Forall (in_u 8) l2 → length l1 = length l2 →
  Z.abs c + 255 * Z.of_nat (length l1) ≤ INT_MAX → checksum_loop l1 l2 c = c + sum l1 - sum l2.
Proof.
  induction l1 as [|a l1 IH]; intros [|b l2] c H1 H2 Hl Hc; try done; [cbn; lia|]. cbn [checksum_loop].
  apply Forall_cons in H1 as [Ha H1]. apply Forall_cons in H2 as [Hb H2]. unfold in_u in Ha, Hb. change (2 ^ 8) with 256 in *.
  cbn [length] in *. destruct (Z.ltb_spec (INT_MAX - Z.abs c - Z.abs (a - b)) 0); [lia|].
  change (sum (a :: l1)) with (a + sum l1). change (sum (b :: l2)) with (b + sum l2).
  rewrite IH; [lia|done|done|lia|lia].
Qed.

(** The comparison of byte objects, of up to 8 million bytes so that the sum of the
    bytes stays in an int: the longer object is the greater one, and of two of the same
    length the one with the greater sum of its bytes.  It is not an order of the contents:
    objects with the same bytes in another order are equal. *)
Theorem compare_byte_object_spec a b : Forall (in_u 8) (bo_bytes a) → Forall (in_u 8) (bo_bytes b) →
  bo_size a = Z.of_nat (length (bo_bytes a)) → bo_size b = Z.of_nat (length (bo_bytes b)) → bo_size a ≤ 8421504 →
  opal_dss_compare_byte_object a b =
    match Z.compare (bo_size a) (bo_size b) with
    | Gt => OPAL_VALUE1_GREATER
    | Lt => OPAL_VALUE2_GREATER
    | Eq => opal_dss_compare_int (sum (bo_bytes a)) (sum (bo_bytes b))
    end ∧
  (bo_bytes a ≡ₚ bo_bytes b → opal_dss_compare_byte_object a b = OPAL_EQUAL).
Proof.
  intros Ha Hb Hsa Hsb Hs.
  assert (opal_dss_compare_byte_object a b = match Z.compare (bo_size a) (bo_size b) with
    | Gt => OPAL_VALUE1_GREATER | Lt => OPAL_VALUE2_GREATER
    | Eq => opal_dss_compare_int (sum (bo_bytes a)) (sum (bo_bytes b)) end) as E.
  { unfold opal_dss_compare_byte_object. destruct (Z.compare_spec (bo_size a) (bo_size b)) as [Heq|?|?].
    - rewrite checksum_exact; [|done|done|lia|unfold INT_MAX; cbn; lia]. unfold opal_dss_compare_int.
      by_cases.
    - by_cases.
    - by_cases. }
  split; [done|]. intros Hp. rewrite E, Hsa, Hsb, Hp, Z.compare_refl.
  assert (sum (bo_bytes a) = sum (bo_bytes b)) as -> by (clear -Hp; unfold sum; induction Hp; cbn [foldr]; lia).
  unfold opal_dss_compare_int. by_cases.
Qed.

Lemma compare_byte_object_spec_witness :
  opal_dss_compare_byte_object (mk_bo 2 [1; 2]) (mk_bo 2 [2; 1]) = OPAL_EQUAL.
Proof.
  apply (compare_byte_object_spec (mk_bo 2 [1; 2]) (mk_bo 2 [2; 1])).
  - repeat constructor; discriminate.
  - repeat constructor; discriminate.
  - reflexivity.
  - reflexivity.
  - discriminate.
  - apply perm_swap.
Defined.

(** Wildcards make the comparison of names no order: 1 and 2 both equal the wildcard. *)
Example wildcard_not_transitive :
  opal_dss_compare_vpid 1 OPAL_VPID_WILDCARD = OPAL_EQUAL ∧ opal_dss_compare_vpid OPAL_VPID_WILDCARD 2 = OPAL_EQUAL ∧
  opal_dss_compare_vpid 1 2 = OPAL_VALUE2_GREATER.
Proof. done. Qed.

(** ** Peeking tells what comes next *)

(** What has been packed into a described buffer is what a look at the buffer tells,
    once everything before it has been read: the type of the values and their number.
    Unpacking with these gives the values. *)
Theorem peek_tells {A} (T : opal_dss_type_info_t A) valid b vals : Codec T valid → Forall valid vals →
  fully_desc b = true → unpack_off b = length (base b) → (0 < length vals)%nat → Z.of_nat (length vals) ≤ INT_MAX →
  ∃ b', opal_dss_pack T vals b = Some (b', inr tt) ∧
    opal_dss_peek b' = Some (OPAL_SUCCESS, odti_type T, Z.of_nat (length vals)) ∧
    ∃ b'', opal_dss_unpack T (Z.of_nat (length vals)) b' = Some (b'', (OPAL_SUCCESS, Z.of_nat (length vals), vals)) ∧ remaining b'' = [].
Proof.
  intros HT Hv Hd Ho Hl Hm.
  destruct (packs_dss T true vals vals (HT _ _ Hv Hm)) as (bs & Hp & Hu); [lia|].
  destruct (carries_buffer T true vals vals (HT _ _ Hv Hm)) as (y & Py & _).
  destruct (codec_int32 true [Z.of_nat (length vals)]) as (x & Px & Ux); [apply Forall_singleton; unfold in_s, INT_MAX in *; simpl (2 ^ _); lia|done|].
  assert (bs = [OPAL_INT32] ++ x ++ [odti_type T] ++ y) as Ebs.
  { apply (packs_inj true (opal_dss_pack T vals)); [done|]. apply packs_is_desc. cbn [andb].
    apply packs_bind; [apply packs_store_type|]. apply packs_bind; [exact Px|exact Py]. }
  destruct (Hp b Hd) as (b1 & E1 & Hx). pose proof (extended_readable b bs b1 Ho Hx) as Hr. destruct Hx as (Hd1 & Hb1 & Ho1 & _).
  exists b1. split; [done|]. split.
  - unfold opal_dss_peek. rewrite Hd1, Hd. cbn [negb].
    destruct (Nat.leb_spec (length (base b1)) (unpack_off b1)) as [Hle|_].
    { rewrite Ho1, Ho, Hb1, length_app, Ebs in Hle. cbn in Hle. lia. }
    rewrite Ebs in Hr. assert (fully_desc b1 = true) as Hd2 by congruence. apply readable_app in Hr as Hr1.
    rewrite (unpacks_get_type true OPAL_INT32 b1 _ Hd2 Hr1). cbn [mbind option_bind negb Z.eqb OPAL_INT32 Pos.eqb].
    apply readable_skip in Hr as Hr2. apply readable_app in Hr2 as Hr2'.
    rewrite (Ux (skip b1 (length [OPAL_INT32])) _ Hd2 Hr2' : odti_unpack_fn t_int32 1 _ = _). cbn [mbind option_bind].
    apply readable_skip in Hr2 as Hr3. apply readable_app in Hr3 as Hr3'.
    by rewrite (unpacks_get_type true (odti_type T) (skip (skip b1 (length [OPAL_INT32])) (length x)) _ Hd2 Hr3').
  - exists (skip b1 (length bs)). split; [apply (Hu _ b1 []); [lia|congruence|done]|].
    rewrite <-(app_nil_r bs) in Hr. apply (readable_skip b1 bs [] []) in Hr. apply Hr.
Qed.

Lemma peek_tells_witness :
  ∃ b', opal_dss_pack t_uint16 [7; 8; 9] (mk_buf true [] 0 0) = Some (b', inr tt) ∧
    opal_dss_peek b' = Some (OPAL_SUCCESS, OPAL_UINT16, 3).
Proof.
  destruct (peek_tells t_uint16 (in_u 16) (mk_buf true [] 0 0) [7; 8; 9]) as (b' & E & Hp & _).
  - apply _.
  - repeat constructor; discriminate.
  - reflexivity.
  - reflexivity.
  - cbn; lia.
  - discriminate.
  - exists b'. split; [exact E|exact Hp].
Defined.

(** ** Types are registered once *)

(** Names are registered once, and stay. *)
Definition unique (t : types) : Prop := ∀ k1 k2 n1 n2, t !! k1 = Some n1 → t !! k2 = Some n2 → c_text n1 = c_text n2 → k1 = k2.

Lemma taken_spec name type t : taken name type t = true ↔
  ∃ k n, t !! k = Some n ∧ (c_text n = c_text name ∨ 0 < type ∧ k = type).
Proof.
  unfold taken. rewrite existsb_exists. split.
  - intros ([k n] & Hin & H). exists k, n. apply list_elem_of_In, elem_of_map_to_list in Hin. split; [done|].
    apply orb_true_iff in H as [H|H]; [left|right].
    + apply Z.eqb_eq in H. by apply text_cmp_eq.
    + apply andb_true_iff in H as [H1 H2]. lia.
  - intros (k & n & Hk & H). exists (k, n). split; [by apply list_elem_of_In, elem_of_map_to_list|].
    apply orb_true_iff. destruct H as [H|[H1 ->]]; [left|right].
    + apply Z.eqb_eq. unfold strcmp. by apply text_cmp_eq.
    + apply andb_true_iff. lia.
Qed.

Theorem register_once name type t : unique t →
  let '(t', rc) := opal_dss_register name type t in
  unique t' ∧ (rc = OPAL_SUCCESS → 0 < type ∧ t !! type = None ∧ opal_dss_lookup_data_type type t' = Some name) ∧
  (rc ≠ OPAL_SUCCESS → t' = t) ∧ (∀ k n, opal_dss_lookup_data_type k t = Some n → opal_dss_lookup_data_type k t' = Some n).
Proof.
  intros Hu. unfold opal_dss_register, opal_dss_lookup_data_type. destruct (taken name type t) eqn:Et; [done|].
  destruct (Z.leb_spec type 0); [done|].
  assert (∀ k n, t !! k = Some n → c_text n ≠ c_text name ∧ k ≠ type) as Hfree.
  { intros k n Hk. split; intros H1; (assert (taken name type t = true) by (apply taken_spec; exists k, n; auto)); congruence. }
  split_and!; [| |done|].
  - intros k1 k2 n1 n2 H1 H2 E. apply lookup_insert_Some in H1 as [[<- <-]|[? H1]], H2 as [[<- <-]|[? H2]]; [done| | |by eapply Hu].
    + by destruct (Hfree _ _ H2).
    + by destruct (Hfree _ _ H1).
  - intros _. split_and!; [done| |apply lookup_insert_eq]. destruct (t !! type) as [n|] eqn:E; [|done]. by destruct (Hfree _ _ E).
  - intros k n Hk. apply lookup_insert_Some. right. split; [|done]. intros <-. by destruct (Hfree _ _ Hk).
Qed.

End DssCompare.
