(* ===== verification/Analytics.v ===== *)
(** * Workflows of analytics (orcm/mca/analytics/base)

    An aggregator keeps a list of workflows.  A workflow has an id, a progress thread of its
    own and a list of steps; a step names an analytics component, holds the attributes it was
    given and the module the component made for it.  The messages of the tools create and
    delete workflows.  [None] stands for undefined behaviour: a NULL pointer that is read,
    memory that is released and was never allocated.

    The buffer of a message lies on the stack of the function that delivers it
    (orte/mca/rml/base/rml_base_msg_handlers.c), so a handler that releases it frees memory
    that [malloc] never gave. *)

From Stdlib Require Import ZArith Lia Ascii.
From stdpp Require Import prelude numbers strings gmap list.
From S2P Require Import Prelude CString Argv Dss DssValue.

Local Open Scope Z_scope.


(** * Progress threads (orcm/runtime/orcm_progress.c)

    A thread that runs the events of an event base of its own, known by a name.  The
    trackers of the running threads form a list; the list itself is constructed with the
    first thread.  What the operating system answers (a new event base, a pipe, flags, a
    new thread) is an argument. *)

Module Progress.

(** A tracker: the name, the event base, and whether its thread runs. *)
Record orcm_progress_tracker_t := mk_trk { trk_name : cstring; trk_base : nat; trk_running : bool }.

(** [tracking] is [None] until the list is constructed ([inited] is false).  [fresh] names
    the next event base. *)
Record progress_t := mk_progress { tracking : option (list orcm_progress_tracker_t); fresh : nat }.

(** What the system answers to one start: the event base, the pipe, close-on-exec, the thread. *)
Record answers := mk_answers { base_ok : bool; pipe_ok : bool; cloexec_ok : bool; thread_ok : bool }.

Definition orcm_start_progress_thread (a : answers) (name : cstring) (p : progress_t) : progress_t * option nat :=
  if negb (base_ok a) || negb (pipe_ok a) || negb (cloexec_ok a) || negb (thread_ok a) then (p, None) else
  let trk := mk_trk name (fresh p) true in
  (mk_progress (Some (default [] (tracking p) ++ [trk])) (S (fresh p)), Some (fresh p)).

(** The first tracker of a name, its thread stopped and joined; with [cleanup] it leaves the
    list. *)
Fixpoint stop_first (name : cstring) (cleanup : bool) (l : list orcm_progress_tracker_t) : list orcm_progress_tracker_t :=
  match l with
  | [] => []
  | trk :: rest =>
    if strcmp name (trk_name trk) =? 0
    then if cleanup then rest else mk_trk (trk_name trk) (trk_base trk) false :: rest
    else trk :: stop_first name cleanup rest
  end.

(** [name] is [None] for NULL, which [strcmp] is given as soon as there is a tracker. *)
Definition orcm_stop_progress_thread (name : option cstring) (cleanup : bool) (p : progress_t) : option progress_t :=
  match tracking p with
  | None => Some p
  | Some l =>
    match name, l with
    | _, [] => Some p
    | None, _ :: _ => None
    | Some name, _ => Some (mk_progress (Some (stop_first name cleanup l)) (fresh p))
    end
  end.

Definition ORCM_ERROR : Z := OPAL_ERROR.
Definition ORCM_ERR_NOT_FOUND : Z := OPAL_ERR_NOT_FOUND.

(** The loop goes on after a thread was started; [start] is what [opal_thread_start] answers.
    Every tracker of the list has its engine. *)
Fixpoint restart_loop (start : Z) (name : cstring) (l : list orcm_progress_tracker_t)
    : list orcm_progress_tracker_t * Z :=
  match l with
  | [] => ([], ORCM_ERR_NOT_FOUND)
  | trk :: rest =>
    if strcmp name (trk_name trk) =? 0 then
      if negb (start =? OPAL_SUCCESS) then (trk :: rest, start) else
      let '(rest', rc) := restart_loop start name rest in (mk_trk (trk_name trk) (trk_base trk) true :: rest', rc)
    else let '(rest', rc) := restart_loop start name rest in (trk :: rest', rc)
  end.

Definition orcm_restart_progress_thread (start : Z) (name : cstring) (p : progress_t) : progress_t * Z :=
  match tracking p with
  | None => (p, ORCM_ERROR)
  | Some l => let '(l', rc) := restart_loop start name l in (mk_progress (Some l') (fresh p), rc)
  end.

(** ** Lemmas *)

Definition trackers (p : progress_t) : list orcm_progress_tracker_t := default [] (tracking p).

Definition all_ok : answers := mk_answers true true true true.

Lemma start_ok name p : orcm_start_progress_thread all_ok name p =
  (mk_progress (Some (trackers p ++ [mk_trk name (fresh p) true])) (S (fresh p)), Some (fresh p)).
Proof. done. Qed.

(** Stopping a thread by its name takes away the one tracker of that name. *)
Lemma stop_first_at name l1 trk l2 : Forall (λ t, strcmp name (trk_name t) ≠ 0) l1 → strcmp name (trk_name trk) = 0 →
  stop_first name true (l1 ++ trk :: l2) = l1 ++ l2.
Proof.
  intros Hl Ht. induction Hl as [|t l1 Hn _ IH]; cbn [app stop_first].
  - by rewrite Ht.
  - destruct (Z.eqb_spec (strcmp name (trk_name t)) 0); [done|]. by rewrite IH.
Qed.

Lemma stop_first_other name l : Forall (λ t, strcmp name (trk_name t) ≠ 0) l → stop_first name true l = l.
Proof.
  induction 1 as [|t l Hn _ IH]; [done|]. cbn [stop_first].
  destruct (Z.eqb_spec (strcmp name (trk_name t)) 0); [done|]. by rewrite IH.
Qed.

(** Restarting never reports success: a thread that was started again is reported as not
    found. *)
Theorem restart_never_succeeds start name p : (orcm_restart_progress_thread start name p).2 ≠ OPAL_SUCCESS.
Proof.
  unfold orcm_restart_progress_thread. destruct (tracking p) as [l|]; [|done].
  destruct (restart_loop start name l) as [l' rc] eqn:E. cbn. revert l' rc E.
  induction l as [|t l IH]; intros l' rc; cbn [restart_loop]; [by intros [= <- <-]|].
  destruct (strcmp name (trk_name t) =? 0).
  - destruct (Z.eqb_spec start OPAL_SUCCESS) as [_|Hs]; cbn [negb]; [|by intros [= <- <-]].
    destruct (restart_loop start name l) as [r rc'] eqn:El. intros [= <- <-]. by eapply IH.
  - destruct (restart_loop start name l) as [r rc'] eqn:El. intros [= <- <-]. by eapply IH.
Qed.

End Progress.

Module Analytics.
Import Argv Dss DssValue Progress.

Definition ORCM_SUCCESS : Z := OPAL_SUCCESS.
Definition ORCM_ERR_BAD_PARAM : Z := OPAL_ERR_BAD_PARAM.
Definition ORCM_ERR_OUT_OF_RESOURCE : Z := OPAL_ERR_OUT_OF_RESOURCE.
Definition ORCM_ERR_NOT_AVAILABLE : Z := -16.
Definition ORCM_ANALYTICS_WORKFLOW_CREATE : Z := 1.
Definition ORCM_ANALYTICS_WORKFLOW_DELETE : Z := 2.
Definition ORCM_ANALYTICS_WORKFLOW_LIST : Z := 3.
Definition MCA_BASE_MAX_COMPONENT_NAME_LEN : nat := 63.

(** An attribute of a step is a value with a key, of type OPAL_STRING. *)
Record orcm_workflow_step_t := mk_step {
  step_attributes : list opal_value_t;
  step_analytic : cstring;
  step_mod : option nat;
}.

Record orcm_workflow_t := mk_wf {
  wf_name : option cstring;
  wf_id : Z;
  wf_steps : list orcm_workflow_step_t;
  wf_base : option nat;
  wf_active : bool;
}.

(** A component: its name, whether it is available, and the module its [create_handle]
    makes. *)
Record orcm_analytics_base_component_t := mk_component {
  component_name : cstring;
  available : bool;
  create_handle : option nat;
}.

(** The framework: its components, the counter of ids, the workflows and the threads. *)
Record orcm_analytics_base_t := mk_analytics {
  framework_components : list orcm_analytics_base_component_t;
  workflow_id : Z;
  workflows : list orcm_workflow_t;
  progress : progress_t;
}.

Definition set_progress (p : progress_t) (st : orcm_analytics_base_t) : orcm_analytics_base_t :=
  mk_analytics (framework_components st) (workflow_id st) (workflows st) p.
Definition set_workflows (l : list orcm_workflow_t) (st : orcm_analytics_base_t) : orcm_analytics_base_t :=
  mk_analytics (framework_components st) (workflow_id st) l (progress st).

(** The order of construction of a workflow: no name, no steps, no event base. *)
Definition wk_con (id : Z) : orcm_workflow_t := mk_wf None id [] None false.
Definition wkstep_con : orcm_workflow_step_t := mk_step [] [] None.

(** Releasing a workflow stops the thread of its name, when it has an event base. *)
Definition wk_des (wf : orcm_workflow_t) (p : progress_t) : option progress_t :=
  match wf_base wf with
  | None => Some p
  | Some _ => orcm_stop_progress_thread (wf_name wf) true p
  end.

(** ** Attributes *)

Definition comma : ascii := ",".
Definition equals : ascii := "=".

(** [attr_string] is [None] for NULL. *)
Definition split_or_null (s : option cstring) (d : ascii) : argv_t :=
  match s with None => None | Some s => opal_argv_split s d end.

(** The loop over the tokens; a token of other than two parts ends it, with the attributes
    before it already on the list. *)
Fixpoint attributes_loop (tokens : list cstring) (attr_list : list opal_value_t) : list opal_value_t * Z :=
  match tokens with
  | [] => (attr_list, ORCM_SUCCESS)
  | token :: rest =>
    match opal_argv_split token equals with
    | Some [key; value] =>
      attributes_loop rest (attr_list ++ [mk_value (Some key) OPAL_STRING (V_string (Some value))])
    | _ => (attr_list, ORCM_ERR_BAD_PARAM)
    end
  end.

Definition parse_attributes (attr_list : list opal_value_t) (attr_string : option cstring) : list opal_value_t * Z :=
  attributes_loop (default [] (split_or_null attr_string comma)) attr_list.

(** ** The module of a step *)

Definition strncmp_same (n : nat) (a b : cstring) : bool := bool_decide (take n (c_text a) = take n (c_text b)).

(** Every component of the name is asked; the last one that made a module counts.  No
    component of the name is no error. *)
Fixpoint select_loop (components : list orcm_analytics_base_component_t) (workstep : orcm_workflow_step_t)
    : orcm_workflow_step_t * Z :=
  match components with
  | [] => (workstep, ORCM_SUCCESS)
  | c :: rest =>
    if strncmp_same (MCA_BASE_MAX_COMPONENT_NAME_LEN + 1) (component_name c) (step_analytic workstep) then
      if negb (available c) then (workstep, ORCM_ERR_NOT_AVAILABLE) else
      let workstep := mk_step (step_attributes workstep) (step_analytic workstep) (create_handle c) in
      match create_handle c with
      | None => (workstep, ORCM_ERR_OUT_OF_RESOURCE)
      | Some _ => select_loop rest workstep
      end
    else select_loop rest workstep
  end.

Definition orcm_analytics_base_select_workflow_step (st : orcm_analytics_base_t) (workstep : orcm_workflow_step_t)
    : orcm_workflow_step_t * Z := select_loop (framework_components st) workstep.

(** ** Creation *)

Section create.
Context `{FloatText} `{DoubleText}.

(** [data.string] of a value: of one that is not a string it is no pointer, unless it is
    the zero of a new object. *)
Definition data_string (v : opal_value_t) : option (option cstring) :=
  match value_data_ v with
  | V_string s => Some s
  | V_num z => if z =? 0 then Some None else None
  | _ => None
  end.

(** What one turn of the loop over the steps does: goes on with or without a new step, or
    leaves with an error.  [values] are the two pointers that are unpacked to; a message
    with fewer values leaves the others as they were. *)
Inductive turn :=
  | T_next (values : list opal_value_t) (step : option orcm_workflow_step_t)
  | T_error (rc : Z).

Definition create_step (st : orcm_analytics_base_t) (values : list opal_value_t) (buffer : opal_buffer_t)
    : option (opal_buffer_t * turn) :=
  '(buffer, (rc, _, l)) ← opal_dss_unpack t_value 2 buffer;
  if negb (rc =? OPAL_SUCCESS) then Some (buffer, T_error rc) else
  let values := l ++ drop (length l) values in
  name ← values !! 0%nat ≫= data_string;
  attrs ← values !! 1%nat ≫= data_string;
  analytic ← name; (* strdup(NULL) *)
  let '(attributes, rc) := parse_attributes [] attrs in
  if negb (rc =? ORCM_SUCCESS) then Some (buffer, T_error rc) else
  let '(step, rc) := orcm_analytics_base_select_workflow_step st (mk_step attributes analytic None) in
  Some (buffer, T_next values (if rc =? ORCM_SUCCESS then Some step else None)).

(** [n] turns of the loop. *)
Fixpoint create_steps (st : orcm_analytics_base_t) (n : nat) (values : list opal_value_t)
    (steps : list orcm_workflow_step_t) (buffer : opal_buffer_t)
    : option (opal_buffer_t * (Z + list orcm_workflow_step_t)) :=
  match n with
  | O => Some (buffer, inr steps)
  | S n' =>
    '(buffer, t) ← create_step st values buffer;
    match t with
    | T_error rc => Some (buffer, inl rc)
    | T_next values None => create_steps st n' values steps buffer
    | T_next values (Some step) => create_steps st n' values (steps ++ [step]) buffer
    end
  end.

(** The turns of [for (i = 0; i < num_steps; i = i+2)]. *)
Definition turns (num_steps : Z) : nat := Z.to_nat ((num_steps + 1) / 2).

Definition threadname (id : Z) : cstring := lit "wfid" ++ print_int id.

(** [release buffer]: the caller's buffer is released on every error that is found before
    the steps are complete. *)
Definition release_buffer (on_stack : bool) : option unit := if on_stack then None else Some tt.

(** The result is the return code and what [*wfid] is, when it was written. *)
Definition orcm_analytics_base_workflow_create (a : answers) (on_stack : bool) (buffer : opal_buffer_t)
    (st : orcm_analytics_base_t) : option (opal_buffer_t * orcm_analytics_base_t * option Z * Z) :=
  match unpack1 t_int buffer with
  | None => None
  | Some (buffer, inl rc) => _ ← release_buffer on_stack; Some (buffer, st, None, rc)
  | Some (buffer, inr num_steps) =>
    let wf := wk_con (workflow_id st) in
    next ← ck_int (workflow_id st + 1);
    let st := mk_analytics (framework_components st) next (workflows st) (progress st) in
    let '(p, base) := orcm_start_progress_thread a (threadname (wf_id wf)) (progress st) in
    let st := set_progress p st in
    match base with
    | None => Some (buffer, st, Some (wf_id wf), ORCM_ERR_OUT_OF_RESOURCE)
    | Some base =>
      '(buffer, r) ← create_steps st (turns num_steps) [opal_value_construct; opal_value_construct] [] buffer;
      match r with
      | inl rc =>
        _ ← release_buffer on_stack;
        p ← wk_des (mk_wf None (wf_id wf) [] (Some base) true) (progress st);
        Some (buffer, set_progress p st, Some (wf_id wf), rc)
      | inr steps =>
        let wf := mk_wf (wf_name wf) (wf_id wf) steps (Some base) true in
        Some (buffer, set_workflows (workflows st ++ [wf]) st, Some (wf_id wf), ORCM_SUCCESS)
      end
    end
  end.

(** ** Deletion *)

(** The thread of a workflow is stopped under the name it was started with; the workflow
    leaves the list and is released, which stops the thread of its [name]. *)
Definition delete_one (wf : orcm_workflow_t) (p : progress_t) : option progress_t :=
  p ← (if wf_active wf then orcm_stop_progress_thread (Some (threadname (wf_id wf))) true p else Some p);
  wk_des wf p.

Fixpoint delete_loop (id : Z) (l : list orcm_workflow_t) (p : progress_t) : option (list orcm_workflow_t * progress_t) :=
  match l with
  | [] => Some ([], p)
  | wf :: rest =>
    if id =? wf_id wf then p ← delete_one wf p; delete_loop id rest p
    else '(rest', p) ← delete_loop id rest p; Some (wf :: rest', p)
  end.

Definition orcm_analytics_base_workflow_delete (id : Z) (st : orcm_analytics_base_t) : option (orcm_analytics_base_t * Z) :=
  '(l, p) ← delete_loop id (workflows st) (progress st);
  Some (set_progress p (set_workflows l st), ORCM_SUCCESS).

(** ** Messages *)

(** The answer: what [m] packs and then the code; one that cannot be packed is not sent. *)
Definition send_answer (m : M unit) (rc : Z) (st : orcm_analytics_base_t)
    : option (option opal_buffer_t * orcm_analytics_base_t) :=
  match (_ ← m; opal_dss_pack t_int [rc]) (mk_buf false [] 0 0) with
  | None => None
  | Some (_, inl _) => Some (None, st)
  | Some (ans, inr _) => Some (Some ans, st)
  end.

(** The result is the answer and the state.  [*wfid] that was never written has no value. *)
Definition orcm_analytics_base_recv (a : answers) (buffer : opal_buffer_t) (st : orcm_analytics_base_t)
    : option (option opal_buffer_t * orcm_analytics_base_t) :=
  match unpack1 t_uint8 buffer with
  | None => None
  | Some (_, inl rc) => send_answer (mret tt) rc st
  | Some (buffer, inr command) =>
    if command =? ORCM_ANALYTICS_WORKFLOW_CREATE then
      '(_, st, id, rc) ← orcm_analytics_base_workflow_create a true buffer st;
      id ← id;
      send_answer (opal_dss_pack t_int [id]) rc st
    else if command =? ORCM_ANALYTICS_WORKFLOW_DELETE then
      match unpack1 t_int buffer with
      | None => None
      | Some (_, inl rc) => send_answer (mret tt) rc st
      | Some (_, inr id) =>
        '(st, rc) ← orcm_analytics_base_workflow_delete id st; send_answer (mret tt) rc st
      end
    else send_answer (mret tt) ORCM_ERR_BAD_PARAM st
  end.

(** The request of oflow: the command, the number of values, and all the values of the file
    in one call. *)
Definition oflow_request (oflow_array : list opal_value_t) : M unit :=
  _ ← opal_dss_pack t_uint8 [ORCM_ANALYTICS_WORKFLOW_CREATE];
  _ ← opal_dss_pack t_int [Z.of_nat (length oflow_array)];
  match oflow_array with [] => mret tt | _ => opal_dss_pack t_value oflow_array end.
End create.

(** ** Data for the workflows *)

(** The words of an [opal_list_t]: its object (class and count), then the sentinel, which
    starts with an object of its own, and the length.  An item has its object and then its
    links. *)
Inductive word :=
  | W_class (name : cstring)
  | W_int (z : Z)
  | W_item (i : nat)
  | W_sentinel.

Definition object_words (class : cstring) : list word := [W_class class; W_int 1].

Definition first_item (n : nat) : word := if (n =? 0)%nat then W_sentinel else W_item 0.
Definition last_item (n : nat) : word := if (n =? 0)%nat then W_sentinel else W_item (n - 1).

Definition list_words (n : nat) : list word :=
  object_words (lit "opal_list_t") ++
  (object_words (lit "opal_list_item_t") ++ [first_item n; last_item n; W_int 0]) ++ [W_int (Z.of_nat n)].

(** [opal_list_get_next(item)]: the word behind the object of an item. *)
Definition opal_list_get_next (item : list word) : option word := item !! 2%nat.

(** What ORCM_ACTIVATE_WORKFLOW_STEP takes for the first step: it passes the list in place
    of an item. *)
Definition first_step (wf : orcm_workflow_t) : option word := opal_list_get_next (list_words (length (wf_steps wf))).

(** A step is activated when it is one; the sentinel ends the workflow. *)
Definition activate_first (wf : orcm_workflow_t) : option (option nat) :=
  match first_step wf with
  | Some W_sentinel => Some None
  | Some (W_item i) => Some (Some i)
  | _ => None
  end.

(** The workflows whose first step was activated, with the step. *)
Definition orcm_analytics_base_send_data (st : orcm_analytics_base_t) : option (list (Z * option nat) * Z) :=
  l ← mapM (λ wf, i ← activate_first wf; Some (wf_id wf, i)) (workflows st);
  Some (l, ORCM_SUCCESS).

(** The host and the tag a step's data is sent to: the first [taphost] and the last
    [taptag]. *)
Fixpoint tap_loop (attributes : list opal_value_t) (taphost : option cstring) (taptag : Z) : option (option cstring * Z) :=
  match attributes with
  | [] => Some (taphost, taptag)
  | attr :: rest =>
    key ← value_key attr;
    let host := strncmp_same 10 (lit "taphost") key in
    let tag := strncmp_same 10 (lit "taptag") key in
    taphost ← (if host && bool_decide (taphost = None) then s ← data_string attr; s ← s; Some (Some s) else Some taphost);
    taptag ← (if tag then s ← data_string attr; s ← s; Some (uwrap 32 (strtol s).1) else Some taptag);
    tap_loop rest taphost taptag
  end.

Definition step_tap (step : orcm_workflow_step_t) : option (option cstring * Z) := tap_loop (step_attributes step) None 0.

End Analytics.
