(* ===== verification/AnalyticsSpec.v ===== *)
(** * Workflows: what the messages do

    The invariant of the registry of workflows, kept by every message that the handler
    survives; what a request to create a workflow does; and what a request to delete one
    does. *)

From Stdlib Require Import ZArith Lia Ascii.
From stdpp Require Import prelude numbers strings gmap list.
From S2P Require Import Prelude CString Argv Dss Fields DssBuffer DssValue Analytics.

Local Open Scope Z_scope.

Module AnalyticsSpec.
Import Argv Dss Fields DssBuffer DssValue Progress Analytics.

(** ** Names of threads *)

Definition plain (s : cstring) : Prop := Forall (λ c, c ≠ NUL) s.

Lemma plain_text s : plain s → c_text s = s.
Proof.
  intros Hs. unfold c_text, cut. rewrite span_all; [done|]. eapply Forall_impl; [exact Hs|]. intros c Hc.
  by rewrite (proj2 (ascii_eqb_neq c NUL) Hc).
Qed.

Lemma strcmp_plain a b : plain a → plain b → strcmp a b = 0 ↔ a = b.
Proof. intros Ha Hb. unfold strcmp. rewrite !plain_text by done. apply text_cmp_eq. Qed.

Lemma threadname_plain id : 0 ≤ id → plain (threadname id).
Proof.
  intros Hid. unfold threadname. rewrite print_int_nonneg by done. apply Forall_app. split; [forall_list|].
  destruct (print_unsigned_spec id Hid) as (Hd & _). eapply Forall_impl; [exact Hd|]. intros c Hc. by eapply digit_neq.
Qed.

Lemma threadname_inj i j : 0 ≤ i → 0 ≤ j → threadname i = threadname j → i = j.
Proof.
  intros Hi Hj E. unfold threadname in E. apply app_inv_head in E. rewrite !print_int_nonneg in E by done.
  destruct (print_unsigned_spec i Hi) as (_ & <- & _), (print_unsigned_spec j Hj) as (_ & <- & _). by rewrite E.
Qed.

(** ** The invariant *)

Definition names (st : orcm_analytics_base_t) : list cstring := trk_name <$> trackers (progress st).

(** A workflow of the list: it is active and has no name, and a running thread is tracked
    under the name that goes with its id, with the event base of the workflow. *)
Definition registered (st : orcm_analytics_base_t) (wf : orcm_workflow_t) : Prop :=
  0 ≤ wf_id wf < workflow_id st ∧ wf_name wf = None ∧ wf_active wf = true ∧
  ∃ base, wf_base wf = Some base ∧ mk_trk (threadname (wf_id wf)) base true ∈ trackers (progress st).

Record well_formed (st : orcm_analytics_base_t) : Prop := mk_well_formed {
  inv_counter : 0 ≤ workflow_id st;
  inv_ids : NoDup (wf_id <$> workflows st);
  inv_workflows : Forall (registered st) (workflows st);
  inv_plain : Forall plain (names st);
  inv_names : NoDup (names st);
  inv_owned : ∀ id, 0 ≤ id → threadname id ∈ names st → id ∈ wf_id <$> workflows st;
}.

Lemma registered_name st wf : registered st wf → threadname (wf_id wf) ∈ names st.
Proof. intros (_ & _ & _ & base & _ & Ht). apply list_elem_of_fmap. by exists (mk_trk (threadname (wf_id wf)) base true). Qed.

(** The name of the next workflow is free. *)
Lemma inv_fresh st : well_formed st → ∀ id, workflow_id st ≤ id → threadname id ∉ names st.
Proof.
  intros [Hc _ Hw _ _ Ho] id Hid Hin. apply Ho in Hin as (wf & -> & Hin)%list_elem_of_fmap; [|lia].
  rewrite Forall_forall in Hw. destruct (Hw wf Hin) as [? _]. lia.
Qed.

(** The framework as it is opened, with whatever other threads the daemon runs, none of
    them under the name of a workflow. *)
Definition opened (components : list orcm_analytics_base_component_t) (p : progress_t) : orcm_analytics_base_t :=
  mk_analytics components 0 [] p.

Lemma opened_well_formed components p :
  Forall plain (trk_name <$> trackers p) → NoDup (trk_name <$> trackers p) →
  (∀ id, 0 ≤ id → threadname id ∉ trk_name <$> trackers p) → well_formed (opened components p).
Proof. intros H1 H2 H3. split; first [done|exact NoDup_nil_2|exact (Forall_nil_2 _)|intros id Hid Hin; by destruct (H3 id Hid)]. Qed.

(** ** Creation *)

Section create.
Context `{FloatText} `{DoubleText}.

(** When the handler survives a request, the id was taken; then either the thread could not
    be started, or there is one more workflow and one more thread. *)
Lemma create_cases a buffer st buffer' st' id rc :
  orcm_analytics_base_workflow_create a true buffer st = Some (buffer', st', id, rc) →
  id = Some (workflow_id st) ∧ workflow_id st' = workflow_id st + 1 ∧
  ((rc = ORCM_ERR_OUT_OF_RESOURCE ∧ workflows st' = workflows st ∧ progress st' = progress st) ∨
   (rc = ORCM_SUCCESS ∧ ∃ steps base, workflows st' = workflows st ++ [mk_wf None (workflow_id st) steps (Some base) true] ∧
      trackers (progress st') = trackers (progress st) ++ [mk_trk (threadname (workflow_id st)) base true])).
Proof.
  unfold orcm_analytics_base_workflow_create.
  destruct (unpack1 t_int buffer) as [[b [e|num_steps]]|]; [done| |done].
  destruct (ck_int (workflow_id st + 1)) as [next|] eqn:Ec; [|done].
  apply ck_int_inv in Ec as [-> _].
  cbn [mbind option_bind]. cbn zeta. cbn [workflow_id workflows progress wk_con wf_id wf_name].
  unfold orcm_start_progress_thread. destruct (negb (base_ok a) || _ || _ || _); [intros [= <- <- <- <-]; by split_and!; [..|left]|].
  cbn [mbind option_bind].
  match goal with |- context [create_steps ?x ?n ?v ?l ?c] => destruct (create_steps x n v l c) as [[b2 [e|steps]]|]; [done| |done] end. cbn.
  intros [= <- <- <- <-]. cbn. split; [done|]. split; [done|]. right. split; [done|]. by eexists _, _.
Qed.

Lemma create_well_formed a buffer st buffer' st' id rc : well_formed st →
  orcm_analytics_base_workflow_create a true buffer st = Some (buffer', st', id, rc) → well_formed st'.
Proof.
  intros Hwf (_ & Ec & [(_ & Ew & Ep)|(_ & steps & base & Ew & Ep)])%create_cases;
    pose proof (inv_fresh _ Hwf) as Hf; destruct Hwf as [Hc Hi Hw Hp Hn Ho].
  - assert (names st' = names st) as En by (unfold names; by rewrite Ep).
    split; rewrite ?En, ?Ew; [lia|done| |done|done|done].
    eapply Forall_impl; [exact Hw|]. intros wf (? & ? & ? & ?). unfold registered. rewrite Ec, Ep. split_and!; try done; lia.
  - assert (names st' = names st ++ [threadname (workflow_id st)]) as En by (unfold names; by rewrite Ep, fmap_app).
    split; rewrite ?En, ?Ew, ?Ec; [lia| | | | |].
    + rewrite fmap_app. apply NoDup_app. split_and!; [done| |apply NoDup_singleton].
      intros x (wf & -> & Hin)%list_elem_of_fmap. cbn. rewrite list_elem_of_singleton.
      rewrite Forall_forall in Hw. destruct (Hw wf Hin) as [? _]. lia.
    + apply Forall_app. split.
      * eapply Forall_impl; [exact Hw|]. intros wf (? & ? & ? & b0 & ? & ?). unfold registered. rewrite Ec, Ep.
        split_and!; try done; try lia. exists b0. split; [done|set_solver].
      * apply Forall_singleton. unfold registered. rewrite Ec, Ep. cbn. split_and!; try done; try lia.
        exists base. split; [done|set_solver].
    + apply Forall_app. split; [done|]. apply Forall_singleton. by apply threadname_plain.
    + apply NoDup_app. split_and!; [done| |apply NoDup_singleton]. intros x Hx ->%list_elem_of_singleton.
      by apply (Hf (workflow_id st)).
    + intros id' Hid. rewrite elem_of_app, list_elem_of_singleton, fmap_app. intros [Hin|E].
      * apply elem_of_app. left. by apply Ho.
      * apply threadname_inj in E as ->; [|lia..]. apply elem_of_app. right. set_solver.
Qed.
End create.

(** ** Deletion *)

Lemma delete_loop_none id l p : id ∉ wf_id <$> l → delete_loop id l p = Some (l, p).
Proof.
  induction l as [|wf l IH]; intros Hn; [done|]. cbn [fmap list_fmap] in Hn. apply not_elem_of_cons in Hn as [Hn Hl].
  cbn [delete_loop]. destruct (Z.eqb_spec id (wf_id wf)); [done|]. by rewrite IH.
Qed.

Lemma delete_loop_one id l1 wf l2 p : id ∉ wf_id <$> l1 → id ∉ wf_id <$> l2 → wf_id wf = id →
  delete_loop id (l1 ++ wf :: l2) p = p ← delete_one wf p; Some (l1 ++ l2, p).
Proof.
  induction l1 as [|w l1 IH]; intros H1 H2 Hid; cbn [app delete_loop].
  - rewrite Hid, Z.eqb_refl. destruct (delete_one wf p) as [p'|]; [|done]. cbn. by apply delete_loop_none.
  - cbn [fmap list_fmap] in H1. apply not_elem_of_cons in H1 as [Hn H1].
    destruct (Z.eqb_spec id (wf_id w)); [done|]. rewrite IH by done. by destruct (delete_one wf p).
Qed.

(** The thread of a workflow is stopped; releasing the workflow then stops a thread of no
    name, which only an empty list of threads survives. *)
Lemma delete_one_spec st wf : well_formed st → wf ∈ workflows st →
  delete_one wf (progress st) =
  if (length (trackers (progress st)) =? 1)%nat then Some (mk_progress (Some []) (fresh (progress st))) else None.
Proof.
  intros [Hc Hi Hw Hp Hn Hf] Hin. rewrite Forall_forall in Hw. pose proof (registered_name _ _ (Hw wf Hin)) as Ht.
  destruct (Hw wf Hin) as (Hid & Hname & Hact & base & Hb & _).
  unfold delete_one, wk_des. rewrite Hact, Hb, Hname. unfold names, trackers in *.
  destruct (tracking (progress st)) as [l|] eqn:El; [change (default [] (Some l)) with l in *|by apply elem_of_nil in Ht].
  apply list_elem_of_fmap in Ht as (trk & Hname' & Htrk). apply list_elem_of_split in Htrk as (l1 & l2 & ->).
  rewrite fmap_app in Hn, Hp. cbn [fmap list_fmap] in Hn, Hp. apply NoDup_app in Hn as (Hn1 & Hn12 & Hn2).
  apply Forall_app in Hp as [Hp1 Hp2].
  assert (plain (threadname (wf_id wf))) as Hpl by (apply threadname_plain; lia).
  assert (stop_first (threadname (wf_id wf)) true (l1 ++ trk :: l2) = l1 ++ l2) as Es.
  { apply stop_first_at; [|rewrite <-Hname'; by apply strcmp_plain].
    apply Forall_forall. intros t Hin1 E. rewrite Forall_fmap, Forall_forall in Hp1.
    apply strcmp_plain in E; [|done|by apply Hp1]. apply (Hn12 (trk_name t)); [apply list_elem_of_fmap; by exists t|].
    rewrite <-E, Hname'. set_solver. }
  assert (orcm_stop_progress_thread (Some (threadname (wf_id wf))) true (progress st) =
    Some (mk_progress (Some (l1 ++ l2)) (fresh (progress st)))) as ->.
  { unfold orcm_stop_progress_thread. rewrite El, Es. by destruct l1. }
  cbn [mbind option_bind]. unfold orcm_stop_progress_thread. cbn [tracking fresh].
  rewrite !length_app. cbn [length]. destruct l1; [destruct l2; [done|]|]; cbn [app length].
  - by destruct (Nat.eqb_spec (0 + S (S (length l2))) 1); [lia|].
  - by destruct (Nat.eqb_spec (S (length l1) + S (length l2)) 1); [lia|].
Qed.

(** The three cases of a deletion. *)
Lemma delete_absent id st : id ∉ wf_id <$> workflows st →
  orcm_analytics_base_workflow_delete id st = Some (st, ORCM_SUCCESS).
Proof.
  intros Hn. unfold orcm_analytics_base_workflow_delete. rewrite delete_loop_none by done. by destruct st.
Qed.

Lemma delete_present id st : well_formed st → id ∈ wf_id <$> workflows st →
  orcm_analytics_base_workflow_delete id st =
  if (length (trackers (progress st)) =? 1)%nat
  then Some (mk_analytics (framework_components st) (workflow_id st) [] (mk_progress (Some []) (fresh (progress st))), ORCM_SUCCESS)
  else None.
Proof.
  intros Hwf (wf & -> & Hin)%list_elem_of_fmap. pose proof (delete_one_spec st wf Hwf Hin) as Ed.
  unfold orcm_analytics_base_workflow_delete. destruct Hwf as [Hc Hi Hw Hp Hn Hf].
  apply list_elem_of_split in Hin as (l1 & l2 & El). rewrite El in *. rewrite fmap_app in Hi. cbn [fmap list_fmap] in Hi.
  apply NoDup_app in Hi as (_ & H12 & [H2 _]%NoDup_cons).
  rewrite delete_loop_one; [|intros H1; apply (H12 _ H1); set_solver|done|done]. rewrite Ed.
  destruct (Nat.eqb_spec (length (trackers (progress st))) 1) as [E1|]; [|done]. cbn [mbind option_bind].
  assert (l1 ++ l2 = []) as ->; [|done].
  (* one thread, hence one workflow *)
  destruct (l1 ++ l2) as [|w l] eqn:Ew; [done|]. exfalso.
  assert (w ∈ l1 ++ l2) as Hw2 by (rewrite Ew; set_solver).
  rewrite Forall_forall in Hw. pose proof (registered_name st wf (Hw wf ltac:(set_solver))) as T1.
  pose proof (registered_name st w (Hw w ltac:(set_solver))) as T2. unfold names in T1, T2.
  destruct (Hw wf) as (Hr1 & _); [set_solver|]. destruct (Hw w) as (Hr2 & _); [set_solver|].
  destruct (trackers (progress st)) as [|t [|]]; [done| |done]. cbn in T1, T2.
  rewrite list_elem_of_singleton in T1, T2. rewrite <-T2 in T1. apply threadname_inj in T1; [|lia..].
  apply elem_of_app in Hw2 as [Hw2|Hw2].
  - apply (H12 (wf_id wf)); [apply list_elem_of_fmap; by exists w|set_solver].
  - apply H2. apply list_elem_of_fmap. by exists w.
Qed.

(** ** Messages *)

Section messages.
Context `{FloatText} `{DoubleText}.

Lemma send_answer_state m rc st ans st' : send_answer m rc st = Some (ans, st') → st = st'.
Proof. unfold send_answer. repeat case_match; congruence. Qed.

(** C15. Every message to the framework that its handler survives, whatever its bytes and
    whatever the operating system answers, keeps the registry of workflows well-formed: ids
    are unique and below the counter; every workflow is active, and its thread is tracked
    under its name, with its event base, and runs; a thread under the name of a workflow
    belongs to one of the list; and names of threads are unique. *)
Theorem analytics_invariant a buffer st ans st' :
  well_formed st → orcm_analytics_base_recv a buffer st = Some (ans, st') → well_formed st'.
Proof.
  intros Hwf. unfold orcm_analytics_base_recv.
  destruct (unpack1 t_uint8 buffer) as [[b [rc|command]]|]; [by intros <-%send_answer_state| |done].
  destruct (command =? ORCM_ANALYTICS_WORKFLOW_CREATE).
  { destruct (orcm_analytics_base_workflow_create a true b st) as [[[[b' s] id] rc]|] eqn:Ec; [|done]. cbn.
    destruct id as [id|]; [|done]. cbn. intros <-%send_answer_state. by eapply create_well_formed. }
  destruct (command =? ORCM_ANALYTICS_WORKFLOW_DELETE); [|by intros <-%send_answer_state].
  destruct (unpack1 t_int b) as [[b2 [rc|id]]|]; [by intros <-%send_answer_state| |done].
  destruct (decide (id ∈ wf_id <$> workflows st)) as [Hin|Hin].
  - rewrite delete_present by done. destruct (_ =? 1)%nat; [|done]. cbn. intros <-%send_answer_state.
    destruct Hwf. split; cbn; first [done|exact NoDup_nil_2|exact (Forall_nil_2 _)|by intros ? ? ?%elem_of_nil].
  - rewrite delete_absent by done. cbn. by intros <-%send_answer_state.
Qed.

(** What the sender of a request reads in the answer. *)
Fixpoint reads (ans : opal_buffer_t) (l : list Z) : Prop :=
  match l with
  | [] => remaining ans = []
  | z :: rest => ∃ ans', unpack1 t_int ans = Some (ans', inr z) ∧ reads ans' rest
  end.

(** What [m] packs is read back as the integers [l]. *)
Definition leads (m : M unit) (l : list Z) : Prop :=
  ∃ x, packs false m x ∧ ∀ b y r, ahead b (x ++ y) → (∀ b', ahead b' y → reads b' r) → reads b (l ++ r).

Lemma leads_nothing : leads (mret tt) [].
Proof. exists []. split; [apply packs_ret|]. intros b y r Hb Hr. by apply Hr. Qed.

Lemma leads_int z : in_s 32 z → leads (opal_dss_pack t_int [z]) [z].
Proof.
  intros Hz. destruct (meets_value t_int (in_s 32) false z codec_int Hz) as (x & Px & Ux).
  exists x. split; [done|]. intros b y r Hb Hr. destruct (ahead_unpack b x y _ z Hb Ux) as [E Hb'].
  cbn [app reads]. eexists. split; [exact E|by apply Hr].
Qed.

(** The answer: what was packed before the code, and the code. *)
Lemma answered m l rc st : leads m l → in_s 32 rc →
  ∃ ans, send_answer m rc st = Some (Some ans, st) ∧ reads ans (l ++ [rc]).
Proof.
  intros (x & Px & Rx) Hrc. destruct (leads_int rc Hrc) as (y & Py & Ry).
  destruct (holds_pack _ _ _ _ holds_new (packs_bind false _ _ _ _ Px Py)) as (ans & E & Hh).
  exists ans. unfold send_answer. split; [by rewrite E|]. apply holds_ahead in Hh. cbn [app] in Hh. rewrite <-(app_nil_r y) in Hh.
  apply (Rx ans (y ++ []) [rc] Hh). intros b' Hb'. apply (Ry b' [] [] Hb'). intros b2 [_ [_ Hr]]. exact Hr.
Qed.

(** A message that the handler reads as a request to delete a workflow. *)
Definition delete_request (id : Z) : M unit :=
  _ ← opal_dss_pack t_uint8 [ORCM_ANALYTICS_WORKFLOW_DELETE];
  opal_dss_pack t_int [id].

(** A request to delete a workflow.  An id that no workflow has changes nothing.  The
    only workflow, when its thread is the only progress thread of the daemon, is removed
    with its thread.  Both are answered with success.  While any other progress thread
    runs, that of another workflow for one, the behaviour is undefined: releasing the
    workflow stops a thread of the name NULL. *)
Theorem workflow_deletion a b bs id st : well_formed st → in_s 32 id →
  packs false (delete_request id) bs → ahead b bs →
  (id ∉ wf_id <$> workflows st →
     ∃ ans, orcm_analytics_base_recv a b st = Some (Some ans, st) ∧ reads ans [ORCM_SUCCESS]) ∧
  (id ∈ wf_id <$> workflows st → length (trackers (progress st)) = 1%nat →
     ∃ ans, orcm_analytics_base_recv a b st = Some (Some ans, mk_analytics (framework_components st) (workflow_id st) []
       (mk_progress (Some []) (fresh (progress st)))) ∧ reads ans [ORCM_SUCCESS]) ∧
  (id ∈ wf_id <$> workflows st → (1 < length (trackers (progress st)))%nat → orcm_analytics_base_recv a b st = None).
Proof.
  intros Hwf Hid Hp Hb.
  destruct (meets_value t_uint8 (in_u 8) false ORCM_ANALYTICS_WORKFLOW_DELETE codec_uint8) as (x & Px & Ux); [done|].
  destruct (meets_value t_int (in_s 32) false id codec_int Hid) as (y & Py & Uy).
  rewrite (packs_inj _ _ _ _ Hp (packs_bind false _ _ _ _ Px Py)), <-(app_nil_r y) in Hb.
  destruct (ahead_unpack b x _ _ _ Hb Ux) as [E1 Hb1]. destruct (ahead_unpack _ y _ _ _ Hb1 Uy) as [E2 _].
  assert (∀ r, orcm_analytics_base_workflow_delete id st = r → orcm_analytics_base_recv a b st =
    '(st, rc) ← r; send_answer (mret tt) rc st) as Er.
  { intros r <-. unfold orcm_analytics_base_recv. rewrite E1. cbn [Z.eqb ORCM_ANALYTICS_WORKFLOW_CREATE
      ORCM_ANALYTICS_WORKFLOW_DELETE Pos.eqb]. by rewrite E2. }
  assert (∀ s, ∃ ans, send_answer (mret tt) ORCM_SUCCESS s = Some (Some ans, s) ∧ reads ans [ORCM_SUCCESS]) as Ha
    by (intros s; by apply (answered _ [] ORCM_SUCCESS s leads_nothing)).
  split_and!.
  - intros Hn. rewrite (Er _ (delete_absent id st Hn)). apply Ha.
  - intros Hin H1. rewrite (Er _ (delete_present id st Hwf Hin)), H1. apply Ha.
  - intros Hin H1. rewrite (Er _ (delete_present id st Hwf Hin)).
    destruct (Nat.eqb_spec (length (trackers (progress st))) 1); [lia|done].
Qed.

(** ** Requests to create a workflow *)

(** A step as it is asked for: the component, the attributes, and the keys of the two
    values that carry them. *)
Record step_spec := mk_step_spec {
  sp_keys : option cstring * option cstring;
  sp_name : cstring;
  sp_attrs : list (cstring * cstring);
}.

Definition attr_token (kv : cstring * cstring) : cstring := join_ref equals [kv.1; kv.2].
Definition attr_text (attrs : list (cstring * cstring)) : cstring := join_ref comma (attr_token <$> attrs).
Definition attr_value (kv : cstring * cstring) : opal_value_t := mk_value (Some kv.1) OPAL_STRING (V_string (Some kv.2)).

Definition step_values (s : step_spec) : opal_value_t * opal_value_t :=
  (mk_value (sp_keys s).1 OPAL_STRING (V_string (Some (sp_name s))),
   mk_value (sp_keys s).2 OPAL_STRING (V_string (Some (attr_text (sp_attrs s))))).

(** Keys and values are not empty and hold no separator; the texts fit a message. *)
Definition valid_attr (kv : cstring * cstring) : Prop :=
  (kv.1 ≠ [] ∧ no_char equals kv.1 ∧ no_char comma kv.1) ∧ (kv.2 ≠ [] ∧ no_char equals kv.2 ∧ no_char comma kv.2).

Definition valid_step (s : step_spec) : Prop :=
  Forall valid_attr (sp_attrs s) ∧ valid_value (step_values s).1 ∧ valid_value (step_values s).2.

(** The step that comes of it, when the component that is asked for does not refuse. *)
Definition made_step (st : orcm_analytics_base_t) (s : step_spec) : option orcm_workflow_step_t :=
  let '(step, rc) := orcm_analytics_base_select_workflow_step st (mk_step (attr_value <$> sp_attrs s) (sp_name s) None) in
  if rc =? ORCM_SUCCESS then Some step else None.

(** The components of the name, and the steps there should be: with the module the component
    makes; none when it is not available or makes no module; and without a module when there
    is no such component. *)
Definition named_components (st : orcm_analytics_base_t) (s : step_spec) : list orcm_analytics_base_component_t :=
  filter (λ c, strncmp_same (MCA_BASE_MAX_COMPONENT_NAME_LEN + 1) (component_name c) (sp_name s) = true) (framework_components st).

Definition asked (st : orcm_analytics_base_t) (s : step_spec) : list orcm_workflow_step_t :=
  let step := mk_step (attr_value <$> sp_attrs s) (sp_name s) in
  match named_components st s with
  | [] => [step None]
  | c :: _ => if available c then match create_handle c with Some m => [step (Some m)] | None => [] end else []
  end.

Lemma made_asked st s : (length (named_components st s) ≤ 1)%nat → option_list (made_step st s) = asked st s.
Proof.
  unfold made_step, asked, named_components, orcm_analytics_base_select_workflow_step.
  set (attrs := attr_value <$> sp_attrs s). set (P := strncmp_same (MCA_BASE_MAX_COMPONENT_NAME_LEN + 1)).
  assert (∀ l m, filter (λ c, P (component_name c) (sp_name s) = true) l = [] →
    select_loop l (mk_step attrs (sp_name s) m) = (mk_step attrs (sp_name s) m, ORCM_SUCCESS)) as Hnone.
  { induction l as [|c l IH]; intros m Hl; [done|]. cbn [select_loop step_analytic]. fold P. rewrite filter_cons in Hl.
    case_decide as Hd; [done|]. destruct (P (component_name c) (sp_name s)); [done|]. by apply IH. }
  induction (framework_components st) as [|c l IH]; intros Hlen; [done|]. cbn [select_loop step_analytic]. fold P.
  rewrite filter_cons in *. case_decide as Hd; [|destruct (P (component_name c) (sp_name s)); [done|by apply IH]].
  rewrite Hd. cbn [length] in Hlen. destruct (available c); [|done]. cbn [negb step_attributes].
  destruct (create_handle c) as [h|]; [|done]. rewrite Hnone; [done|]. apply nil_length_inv. lia.
Qed.

Lemma split_join d l : Forall (λ s, s ≠ [] ∧ no_char d s) l → default [] (opal_argv_split (join_ref d l) d) = l.
Proof.
  intros Hl. unfold opal_argv_split, opal_argv_split_inter. rewrite split_loop_join by (done || lia). by destruct l.
Qed.

Lemma attributes_loop_spec attrs acc : Forall valid_attr attrs →
  attributes_loop (attr_token <$> attrs) acc = (acc ++ (attr_value <$> attrs), ORCM_SUCCESS).
Proof.
  intros Hl. revert acc. induction Hl as [|[k v] attrs ((?&?&?)&?&?&?) _ IH]; intros acc; cbn [fmap list_fmap attributes_loop].
  - by rewrite app_nil_r.
  - assert (opal_argv_split (attr_token (k, v)) equals = Some [k; v]) as ->.
    { unfold opal_argv_split, opal_argv_split_inter, attr_token.
      rewrite split_loop_join; [done| |done]. forall_list. }
    rewrite IH. by rewrite <-app_assoc.
Qed.

Lemma parse_attributes_text attrs : Forall valid_attr attrs →
  parse_attributes [] (Some (attr_text attrs)) = (attr_value <$> attrs, ORCM_SUCCESS).
Proof.
  intros Hl. unfold parse_attributes, split_or_null, attr_text. rewrite split_join; [by apply attributes_loop_spec|].
  apply Forall_fmap. eapply Forall_impl; [exact Hl|]. intros [k v] ((?&?&?)&?&?&?). cbn in *. split; [by destruct k|].
  unfold attr_token, no_char. cbn. rewrite app_nil_r. apply Forall_app. split; [done|]. by constructor.
Qed.

(** One turn, and then all of them. *)
Lemma create_step_spec st values s : valid_step s →
  ∃ x, packs false (opal_dss_pack t_value [(step_values s).1; (step_values s).2]) x ∧
    ∀ b y, ahead b (x ++ y) → ahead (Dss.skip b (length x)) y ∧
      ∃ values', create_step st values b = Some (Dss.skip b (length x), T_next values' (made_step st s)).
Proof.
  intros (Ha & H1 & H2).
  destruct (packs_dss t_value false [(step_values s).1; (step_values s).2] [(step_values s).1; (step_values s).2])
    as (x & Px & Ux); [apply codec_value; [forall_list|done]|done|].
  exists x. split; [done|]. intros b y [Hd Hr]. split; [split; [done|by apply readable_skip]|]. eexists.
  unfold create_step. rewrite (Ux 2 b (y ++ [])); [|done|done|by apply readable_app]. cbn [mbind option_bind].
  change (negb (OPAL_SUCCESS =? OPAL_SUCCESS)) with false. cbn iota.
  cbn [app lookup list_lookup mbind option_bind data_string value_data_ step_values fst snd].
  rewrite (parse_attributes_text _ Ha). change (negb (ORCM_SUCCESS =? ORCM_SUCCESS)) with false. cbn iota.
  unfold made_step. destruct (orcm_analytics_base_select_workflow_step _ _). reflexivity.
Qed.

(** What the framework does first with the request of oflow: it takes the id, starts the
    thread, and goes on to the steps. *)
Definition begun (st : orcm_analytics_base_t) : orcm_analytics_base_t :=
  mk_analytics (framework_components st) (workflow_id st + 1) (workflows st)
    (mk_progress (Some (trackers (progress st) ++ [mk_trk (threadname (workflow_id st)) (fresh (progress st)) true])) (S (fresh (progress st)))).

Lemma oflow_received values z b bs st : 0 ≤ workflow_id st < INT_MAX → 0 < Z.of_nat (length values) ≤ INT_MAX →
  packs false (opal_dss_pack t_value values) z → packs false (oflow_request values) bs → ahead b bs →
  ∃ b', ahead b' z ∧ orcm_analytics_base_recv all_ok b st =
    '(buffer, r) ← create_steps (begun st) (turns (Z.of_nat (length values))) [opal_value_construct; opal_value_construct] [] b';
    match r with
    | inl rc => None
    | inr steps => send_answer (opal_dss_pack t_int [workflow_id st]) ORCM_SUCCESS
        (set_workflows (workflows st ++ [mk_wf None (workflow_id st) steps (Some (fresh (progress st))) true]) (begun st))
    end.
Proof.
  intros Hc Hl Pz Hp Hb. unfold INT_MAX in *.
  destruct (meets_value t_uint8 (in_u 8) false ORCM_ANALYTICS_WORKFLOW_CREATE codec_uint8) as (x & Px & Ux); [done|].
  destruct (meets_value t_int (in_s 32) false (Z.of_nat (length values)) codec_int) as (y & Py & Uy); [unfold in_s; simpl; lia|].
  rewrite (packs_inj _ _ _ (x ++ y ++ z) Hp) in Hb
    by (apply packs_bind; [done|]; apply packs_bind; [done|]; destruct values; [cbn in Hl; lia|exact Pz]).
  destruct (ahead_unpack b x _ _ _ Hb Ux) as [E1 Hb1]. destruct (ahead_unpack _ y _ _ _ Hb1 Uy) as [E2 Hb2].
  eexists. split; [exact Hb2|]. unfold orcm_analytics_base_recv. rewrite E1.
  cbn [Z.eqb ORCM_ANALYTICS_WORKFLOW_CREATE Pos.eqb]. unfold orcm_analytics_base_workflow_create. rewrite E2.
  rewrite ck_int_Some by (unfold INT_MIN, INT_MAX; lia). cbn [mbind option_bind]. cbn zeta.
  cbn [wk_con wf_id wf_name progress framework_components workflow_id workflows]. rewrite start_ok. cbv beta iota zeta.
  change (set_progress (mk_progress _ _) _) with (begun st).
  by destruct (create_steps _ _ _ _ _) as [[b' [rc|steps]]|].
Qed.

(** C16. What the framework does with a request in the form in which oflow packs one.  With
    the two values of one step, its attributes well-formed, the workflow is created: the answer
    is its id and success; it has the next id and joins the list, active, with a new running
    thread under its name.  It has one step, with the attributes and the module of the
    component of that name; no step when the component is not available or makes no module;
    and a step without a module when there is no such component.  With more values the
    framework, which unpacks two at a time, finds the space inadequate and releases the buffer
    of the message, which has no defined behaviour.  (The values are those of the message;
    that oflow reads them from memory it has freed is not a matter of the framework.) *)
Theorem oflow_creation b bs s more st : well_formed st → workflow_id st < INT_MAX →
  valid_step s → Forall valid_value more → Z.of_nat (length more) + 2 ≤ INT_MAX → (length (named_components st s) ≤ 1)%nat →
  packs false (oflow_request ((step_values s).1 :: (step_values s).2 :: more)) bs → ahead b bs →
  let id := workflow_id st in
  match more with
  | [] => ∃ ans, reads ans [id; ORCM_SUCCESS] ∧
      orcm_analytics_base_recv all_ok b st =
      Some (Some ans, mk_analytics (framework_components st) (id + 1)
        (workflows st ++ [mk_wf None id (asked st s) (Some (fresh (progress st))) true])
        (mk_progress (Some (trackers (progress st) ++ [mk_trk (threadname id) (fresh (progress st)) true])) (S (fresh (progress st)))))
  | _ => orcm_analytics_base_recv all_ok b st = None
  end.
Proof.
  intros [Hc _ _ _ _ _] Hmax Hs Hm Hlen Hone Hp Hb id. set (values := (step_values s).1 :: (step_values s).2 :: more) in *.
  assert (0 < Z.of_nat (length values) ≤ INT_MAX) as Hl by (cbn [length values]; lia).
  destruct more as [|v more].
  - destruct (create_step_spec (begun st) [opal_value_construct; opal_value_construct] s Hs) as (z & Pz & Uz).
    destruct (oflow_received values z b bs st) as (b' & Hb' & ->); [lia|done|done|done|done|].
    rewrite <-(app_nil_r z) in Hb'. destruct (Uz b' [] Hb') as (_ & values' & E).
    change (turns (Z.of_nat (length values))) with 1%nat. cbn [create_steps]. rewrite E. cbn [mbind option_bind].
    rewrite <-made_asked by done. change (made_step (begun st) s) with (made_step st s).
    destruct (answered (opal_dss_pack t_int [id]) [id] ORCM_SUCCESS
      (set_workflows (workflows st ++ [mk_wf None id (option_list (made_step st s)) (Some (fresh (progress st))) true]) (begun st)))
      as (ans & Ea & Ra); [apply leads_int; unfold in_s, id, INT_MAX in *; simpl; lia|done|].
    exists ans. split; [done|]. by destruct (made_step st s).
  - assert (Forall valid_value values) as Hv by (destruct Hs as (_ & H1 & H2); exact (Forall_cons_2 _ _ _ H1 (Forall_cons_2 _ _ _ H2 Hm))).
    destruct (message_short OPAL_VALUE pack_one_value unpack_one_value false values 2) as (z & Pz & Uz);
      [eapply Forall_impl; [exact Hv|]; intros ?; apply meets_one_value|cbn [length values]; lia|lia|].
    destruct (oflow_received values z b bs st) as (b' & [Hd' Hr'] & ->); [lia|done|done|done|done|].
    destruct (Uz b' _ Hd' Hr') as (b2 & E3).
    assert (∃ n, turns (Z.of_nat (length values)) = S n) as [n En].
    { exists (turns (Z.of_nat (length values)) - 1)%nat. unfold turns.
      assert (1 ≤ (Z.of_nat (length values) + 1) / 2) by (apply Z.div_le_lower_bound; lia). lia. }
    rewrite En. cbn [create_steps]. unfold create_step.
    change t_value with (mk_info OPAL_VALUE (pack_each pack_one_value) (unpack_each unpack_one_value)).
    change 2 with (Z.of_nat 2). rewrite E3. reflexivity.
Qed.

(** A component that is not there is no error: the step has no module, and the code that
    activates it reads through NULL. *)
Theorem select_unknown st step :
  Forall (λ c, strncmp_same (MCA_BASE_MAX_COMPONENT_NAME_LEN + 1) (component_name c) (step_analytic step) = false)
    (framework_components st) →
  orcm_analytics_base_select_workflow_step st step = (step, ORCM_SUCCESS).
Proof.
  intros Hc. unfold orcm_analytics_base_select_workflow_step.
  induction Hc as [|c l Hc _ IH]; cbn [select_loop]; [done|]. by rewrite Hc.
Qed.

(** Data is never handed to the first step of a workflow: the macro reads the word behind
    the object of the list, which is the class of the sentinel, and takes it for a step. *)
Theorem send_data_undefined st : workflows st ≠ [] → orcm_analytics_base_send_data st = None.
Proof. intros Hw. unfold orcm_analytics_base_send_data. by destruct (workflows st). Qed.

Lemma oflow_request_packs values : Forall valid_value values → 0 < Z.of_nat (length values) ≤ INT_MAX →
  ∃ bs, packs false (oflow_request values) bs.
Proof.
  intros Hv Hl. unfold INT_MAX in Hl.
  destruct (meets_value t_uint8 (in_u 8) false ORCM_ANALYTICS_WORKFLOW_CREATE codec_uint8) as (x & Px & _); [done|].
  destruct (meets_value t_int (in_s 32) false (Z.of_nat (length values)) codec_int) as (y & Py & _); [unfold in_s; simpl; lia|].
  destruct (packs_dss t_value false values values) as (z & Pz & _); [apply codec_value; [done|unfold INT_MAX; lia]|by destruct values|].
  exists (x ++ y ++ z). apply packs_bind; [done|]. apply packs_bind; [done|]. destruct values; [cbn in Hl; lia|exact Pz].
Qed.

Lemma delete_request_packs id : in_s 32 id → ∃ bs, packs false (delete_request id) bs.
Proof.
  intros Hid. destruct (meets_value t_uint8 (in_u 8) false ORCM_ANALYTICS_WORKFLOW_DELETE codec_uint8) as (x & Px & _); [done|].
  destruct (meets_value t_int (in_s 32) false id codec_int Hid) as (y & Py & _). exists (x ++ y). by apply packs_bind.
Qed.
End messages.

(** ** At concrete inputs *)

#[local] Instance decimal : FloatText := {| printf_f := print_int; strtof := λ s, (strtol s).1 |}.
#[local] Instance decimals : DoubleText := {| printf_lf := print_int; strtod := λ s, (strtol s).1 |}.

(** A daemon with the two components average and window, the second not available. *)
Definition components : list orcm_analytics_base_component_t :=
  [mk_component (lit "average") true (Some 7%nat); mk_component (lit "window") false None].
Definition fresh_framework : orcm_analytics_base_t := opened components (mk_progress None 0).

Lemma fresh_well_formed : well_formed fresh_framework.
Proof. apply opened_well_formed; [constructor..|]. intros id _. apply not_elem_of_nil. Qed.

Definition message (bs : list Z) : opal_buffer_t := mk_buf false bs 0 (Z.of_nat (length bs)).

Lemma message_ahead bs : ahead (message bs) bs.
Proof. by apply holds_ahead. Qed.

Definition one_step : step_spec :=
  mk_step_spec (None, None) (lit "average") [(lit "taphost", lit "n1"); (lit "taptag", lit "12345")].

Lemma string_value s : valid_string (Some s) → valid_value (mk_value None OPAL_STRING (V_string (Some s))).
Proof. done. Qed.

Lemma one_step_valid : valid_step one_step.
Proof.
  split; [|split; apply string_value; (split; [done|forall_list])].
  assert (∀ k v, k ≠ [] → v ≠ [] → no_char equals k → no_char equals v → no_char comma k → no_char comma v → valid_attr (k, v)) as Ha
    by done.
  apply Forall_cons_2; [|apply Forall_singleton].
  - apply Ha; [done|done|forall_list..].
  - apply Ha; [done|done|forall_list..].
Qed.

(** The framework with the workflow of that step. *)
Definition after_one : orcm_analytics_base_t :=
  mk_analytics components 1
    [mk_wf None 0 [mk_step [attr_value (lit "taphost", lit "n1"); attr_value (lit "taptag", lit "12345")] (lit "average") (Some 7%nat)]
       (Some 0%nat) true]
    (mk_progress (Some [mk_trk (lit "wfid0") 0 true]) 1).

(** One step makes the workflow; two steps have no defined behaviour. *)
Definition value_1 : opal_value_t := (step_values one_step).1.
Definition value_2 : opal_value_t := (step_values one_step).2.

Lemma oflow_values_valid : Forall valid_value [value_1; value_2].
Proof. destruct one_step_valid as (_ & H1 & H2). apply Forall_cons_2; [exact H1|by apply Forall_singleton]. Qed.

Lemma oflow_creation_witness :
  (∃ b ans, orcm_analytics_base_recv all_ok b fresh_framework = Some (Some ans, after_one) ∧ reads ans [0; ORCM_SUCCESS]) ∧
  (∃ b, orcm_analytics_base_recv all_ok b fresh_framework = None).
Proof.
  pose proof oflow_values_valid as Hv. split.
  - destruct (oflow_request_packs [value_1; value_2] Hv) as (bs & P); [done|].
    destruct (oflow_creation (message bs) bs one_step [] fresh_framework fresh_well_formed) as (ans & R & E);
      [done|apply one_step_valid|apply Forall_nil_2|done|vm_compute; lia|exact P|apply message_ahead|].
    exists (message bs), ans. split; [exact E|exact R].
  - destruct (oflow_request_packs [value_1; value_2; value_1; value_2]) as (bs & P);
      [by apply (Forall_app_2 _ [value_1; value_2] [value_1; value_2])|done|].
    exists (message bs). exact (oflow_creation (message bs) bs one_step [value_1; value_2] fresh_framework fresh_well_formed
      eq_refl one_step_valid Hv ltac:(vm_compute; discriminate) ltac:(vm_compute; lia) P (message_ahead bs)).
Defined.

Definition one_step_bytes : list Z :=
  match oflow_request [value_1; value_2] (mk_buf false [] 0 0) with Some (b, _) => base b | None => [] end.

Lemma analytics_invariant_witness :
  (snd <$> orcm_analytics_base_recv all_ok (message one_step_bytes) fresh_framework) = Some after_one ∧ well_formed after_one.
Proof.
  destruct (orcm_analytics_base_recv all_ok (message one_step_bytes) fresh_framework) as [[ans st']|] eqn:E;
    [|exfalso; vm_compute in E; discriminate].
  assert (st' = after_one) as Est by (vm_compute in E; injection E as _ <-; reflexivity).
  split; [cbn; by rewrite Est|]. rewrite <-Est. exact (analytics_invariant all_ok _ fresh_framework ans st' fresh_well_formed E).
Defined.

(** Two workflows, and none. *)
Definition with_thread (n : nat) (id : Z) (l : list orcm_workflow_t) (trks : list orcm_progress_tracker_t) : orcm_analytics_base_t :=
  mk_analytics components id l (mk_progress (Some trks) n).
Definition bare_wf (id : Z) (base : nat) : orcm_workflow_t := mk_wf None id [] (Some base) true.
Definition one_workflow : orcm_analytics_base_t := with_thread 1 1 [bare_wf 0 0] [mk_trk (threadname 0) 0 true].
Definition two_workflows : orcm_analytics_base_t :=
  with_thread 2 2 [bare_wf 0 0; bare_wf 1 1] [mk_trk (threadname 0) 0 true; mk_trk (threadname 1) 1 true].

Lemma bare_registered n id l trks k base : 0 ≤ k < id → mk_trk (threadname k) base true ∈ trks →
  registered (with_thread n id l trks) (bare_wf k base).
Proof. intros Hk Hin. split; [done|]. split; [done|]. split; [done|]. by exists base. Qed.

Lemma one_workflow_ok : well_formed one_workflow.
Proof.
  split; [done|apply NoDup_singleton| | |apply NoDup_singleton|].
  - apply Forall_singleton. apply bare_registered; [lia|by apply list_elem_of_singleton].
  - apply Forall_singleton. by apply threadname_plain.
  - intros id Hid. change (names one_workflow) with [threadname 0].
    intros E%list_elem_of_singleton. apply threadname_inj in E as ->; [|lia..]. by apply list_elem_of_singleton.
Qed.

Lemma two_workflows_ok : well_formed two_workflows.
Proof.
  assert (threadname 0 ≠ threadname 1) as Hne by (intros E%threadname_inj; lia).
  split; [done| | | | |].
  - cbn. apply NoDup_cons. split; [set_solver|apply NoDup_singleton].
  - apply Forall_cons_2; [|apply Forall_singleton]; (apply bare_registered; [lia|set_solver]).
  - apply Forall_cons_2; [|apply Forall_singleton]; by apply threadname_plain.
  - apply NoDup_cons. split; [rewrite list_elem_of_singleton; done|apply NoDup_singleton].
  - intros id Hid. change (names two_workflows) with [threadname 0; threadname 1].
    intros [E|E%list_elem_of_singleton]%elem_of_cons; apply threadname_inj in E as ->; cbn; (lia || set_solver).
Qed.

Lemma workflow_deletion_witness : ∃ b ans,
  orcm_analytics_base_recv all_ok b fresh_framework = Some (Some ans, fresh_framework) ∧ reads ans [ORCM_SUCCESS] ∧
  (∃ ans', orcm_analytics_base_recv all_ok b one_workflow = Some (Some ans', with_thread 1 1 [] [])) ∧
  orcm_analytics_base_recv all_ok b two_workflows = None.
Proof.
  assert (in_s 32 0) as H0 by done. destruct (delete_request_packs 0 H0) as (bs & P).
  destruct (workflow_deletion all_ok (message bs) bs 0 fresh_framework fresh_well_formed H0 P (message_ahead bs)) as (Habs & _).
  destruct (workflow_deletion all_ok (message bs) bs 0 one_workflow one_workflow_ok H0 P (message_ahead bs)) as (_ & Hone & _).
  destruct (workflow_deletion all_ok (message bs) bs 0 two_workflows two_workflows_ok H0 P (message_ahead bs)) as (_ & _ & Htwo).
  destruct Habs as (ans & E & R); [apply not_elem_of_nil|]. destruct Hone as (ans' & E' & _); [cbn; set_solver|done|].
  exists (message bs), ans. split_and!; [exact E|exact R|exists ans'; exact E'|]. apply Htwo; [cbn; set_solver|cbn; lia].
Defined.

End AnalyticsSpec.
