(* ===== verification/Sensor.v ===== *)
(** * The base of the sensors (orcm/mca/sensor/base)

    A daemon queries the sensor components and keeps the modules of those that answer, one
    for each quantity, by falling priority.  Data that the threads of the components collect
    goes to a cache; a sample takes the cache and what the modules add into the bucket of a
    sampler.  The messages of octl set and read sample rates and the policies on events.

    What a module does with a bucket, and how it takes a new sample rate, are functions that
    the module is given by. *)

From Stdlib Require Import ZArith Lia Ascii.
From stdpp Require Import prelude numbers strings gmap list.
From S2P Require Import Prelude ModuleSort CString Dss.

Local Open Scope Z_scope.

Module Sensor.
Import ModuleSort Dss.

Definition ORCM_SUCCESS : Z := OPAL_SUCCESS.
Definition ORTE_ERR_BAD_PARAM : Z := OPAL_ERR_BAD_PARAM.
Definition ORCM_SET_SENSOR_COMMAND : Z := 1.
Definition ORCM_GET_SENSOR_COMMAND : Z := 2.
Definition ORCM_SET_SENSOR_SAMPLE_RATE_COMMAND : Z := 3.
Definition ORCM_GET_SENSOR_SAMPLE_RATE_COMMAND : Z := 4.
Definition ORCM_SET_SENSOR_POLICY_COMMAND : Z := 5.
Definition ORCM_GET_SENSOR_POLICY_COMMAND : Z := 6.

(** ** Data *)

(** The functions of a module, [None] or false for NULL: [init] by its result, [sample] by
    what it does to the bucket and the messages it sends, the two functions for the inventory
    by what they do to the buffer, the two functions for the rate by the rate that is kept
    and by what is left in the variable, 0 before the call. *)
Record orcm_sensor_base_module_t := mk_sensor_module {
  init_fn : option Z;
  finalize_fn : bool;
  start_fn : bool;
  stop_fn : bool;
  sample_fn : option (opal_buffer_t → opal_buffer_t * list opal_buffer_t);
  log_fn : bool;
  inventory_collect_fn : option (opal_buffer_t → opal_buffer_t);
  inventory_log_fn : option (option cstring → opal_buffer_t → opal_buffer_t);
  set_rate_fn : option (Z → Z → Z);
  get_rate_fn : option (Z → Z);
}.

(** A component with what its query returns, [None] for no query function. *)
Record orcm_sensor_base_component_t := mk_sensor_component {
  component_name : cstring;
  data_measured : cstring;
  query : option (option orcm_sensor_base_module_t * Z);
}.

(** [rate] is the sample rate that the module keeps. *)
Record orcm_sensor_active_module_t := mk_active {
  component : orcm_sensor_base_component_t;
  module : orcm_sensor_base_module_t;
  priority : Z;
  sampling : bool;
  rate : Z;
}.

Record orcm_sensor_policy_t := mk_policy {
  sensor_name : cstring;
  max_count : Z;
  time_window : Z;
  threshold : Z;
  hi_thres : bool;
  severity : Z;
  action : cstring;
}.

(** The parameters that the user sets. *)
Record parameters := mk_params {
  log_samples : bool;
  collect_metrics : bool;
  collect_inventory : bool;
  set_dynamic_inventory : bool;
}.

(** With the static variables of the files of the base; [modules] with all its slots. *)
Record orcm_sensor_base_t := mk_sensor_base {
  params : parameters;
  ev_active : bool;
  modules : list (option orcm_sensor_active_module_t);
  sample_rate : Z;
  cache : opal_buffer_t;
  policy : list orcm_sensor_policy_t;
  dbhandle : Z;
  dbhandle_acquired : bool;
  selected : bool;
  recv_issued : bool;
  mods_active : bool;
}.

Record orcm_sensor_sampler_t := mk_sampler {
  sensors : option cstring;
  tv_rate : Z;
  bucket : opal_buffer_t;
  cbfunc : bool;
}.

Definition new_buffer : opal_buffer_t := mk_buf false [] 0 0.

Definition set_modules (l : list (option orcm_sensor_active_module_t)) (st : orcm_sensor_base_t) : orcm_sensor_base_t :=
  mk_sensor_base (params st) (ev_active st) l (sample_rate st) (cache st) (policy st) (dbhandle st) (dbhandle_acquired st) (selected st) (recv_issued st) (mods_active st).
Definition set_base_rate (r : Z) (st : orcm_sensor_base_t) : orcm_sensor_base_t :=
  mk_sensor_base (params st) (ev_active st) (modules st) r (cache st) (policy st) (dbhandle st) (dbhandle_acquired st) (selected st) (recv_issued st) (mods_active st).
Definition set_cache (b : opal_buffer_t) (st : orcm_sensor_base_t) : orcm_sensor_base_t :=
  mk_sensor_base (params st) (ev_active st) (modules st) (sample_rate st) b (policy st) (dbhandle st) (dbhandle_acquired st) (selected st) (recv_issued st) (mods_active st).
Definition set_policy (l : list orcm_sensor_policy_t) (st : orcm_sensor_base_t) : orcm_sensor_base_t :=
  mk_sensor_base (params st) (ev_active st) (modules st) (sample_rate st) (cache st) l (dbhandle st) (dbhandle_acquired st) (selected st) (recv_issued st) (mods_active st).
Definition set_db (h : Z) (acquired : bool) (st : orcm_sensor_base_t) : orcm_sensor_base_t :=
  mk_sensor_base (params st) (ev_active st) (modules st) (sample_rate st) (cache st) (policy st) h acquired (selected st) (recv_issued st) (mods_active st).
Definition set_running (ev recv mods : bool) (st : orcm_sensor_base_t) : orcm_sensor_base_t :=
  mk_sensor_base (params st) ev (modules st) (sample_rate st) (cache st) (policy st) (dbhandle st) (dbhandle_acquired st) (selected st) recv mods.
Definition set_selected  (st : orcm_sensor_base_t) : orcm_sensor_base_t :=
  mk_sensor_base (params st) (ev_active st) (modules st) (sample_rate st) (cache st) (policy st) (dbhandle st) (dbhandle_acquired st) true (recv_issued st) (mods_active st).

(** [orcm_sensor_base_open]: the array of modules has three free slots from the start. *)
Definition orcm_sensor_base_open (p : parameters) (rate : Z) : orcm_sensor_base_t :=
  mk_sensor_base p false (replicate 3 None) rate new_buffer [] (-1) false false false false.

(** ** Selection (sensor_base_select.c) *)

Definition same (a b : cstring) : bool := strcmp a b =? 0.

(** The loop over the modules found so far: a module of the same quantity and a lower
    priority leaves its slot and ends the loop; one of at least the priority makes the new
    one a duplicate. *)
Fixpoint duplicate_loop (measured : cstring) (p : Z) (tmp : list (option orcm_sensor_active_module_t)) (duplicate : bool)
    : list (option orcm_sensor_active_module_t) * bool :=
  match tmp with
  | [] => ([], duplicate)
  | None :: rest => let '(rest', d) := duplicate_loop measured p rest duplicate in (None :: rest', d)
  | Some tm :: rest =>
    if same measured (data_measured (component tm)) then
      if priority tm <? p then (None :: rest, duplicate)
      else let '(rest', d) := duplicate_loop measured p rest true in (Some tm :: rest', d)
    else let '(rest', d) := duplicate_loop measured p rest duplicate in (Some tm :: rest', d)
  end.

(** [opal_pointer_array_add]: the first free slot, or one more. *)
Fixpoint add_slot {A} (a : A) (l : list (option A)) : list (option A) :=
  match l with
  | [] => [Some a]
  | None :: rest => Some a :: rest
  | x :: rest => x :: add_slot a rest
  end.

(** What the component's query gives, when it can be used: a new active module. *)
Definition candidate (c : orcm_sensor_base_component_t) : option orcm_sensor_active_module_t :=
  match query c with
  | Some (Some m, p) => if p <? 0 then None else Some (mk_active c m p true 0)
  | _ => None
  end.

Definition query_step (tmp : list (option orcm_sensor_active_module_t)) (c : orcm_sensor_base_component_t)
    : list (option orcm_sensor_active_module_t) :=
  match candidate c with
  | None => tmp
  | Some m =>
    let '(tmp, duplicate) := duplicate_loop (data_measured c) (priority m) tmp false in
    if duplicate then tmp else add_slot m tmp
  end.

(** A module that cannot be initialized: an aggregator keeps it to log what others sample;
    elsewhere it is finalized, without a look whether it can be, and leaves a NULL. *)
Definition init_module (aggregator : bool) (m : orcm_sensor_active_module_t) : option (option orcm_sensor_active_module_t) :=
  match init_fn (module m) with
  | Some rc =>
    if rc =? ORCM_SUCCESS then Some (Some m)
    else if aggregator then Some (Some (mk_active (component m) (module m) (priority m) false (rate m)))
    else if finalize_fn (module m) then Some None else None
  | None => Some (Some m)
  end.

Definition init_slot (aggregator : bool) (slot : option orcm_sensor_active_module_t) : option (option orcm_sensor_active_module_t) :=
  match slot with None => Some None | Some m => init_module aggregator m end.

(** [None] where a module without a function to finalize it has to be finalized. *)
Definition orcm_sensor_base_select (aggregator : bool) (components : list orcm_sensor_base_component_t)
    (st : orcm_sensor_base_t) : option orcm_sensor_base_t :=
  if selected st then Some st else
  let st := set_selected st in
  let tmp := foldl query_step [] components in
  match present tmp with
  | [] => Some st
  | _ =>
    sorted ← sort_loop priority (S (2 * length tmp)) 0 tmp [];
    l ← mapM (init_slot aggregator) (foldl (λ l m, add_slot m l) (modules st) sorted);
    Some (set_modules l st)
  end.

(** ** Starting and stopping (sensor_base_fns.c) *)

(** What the calls do outside the state of the base. *)
Inductive effect :=
  | F_recv (on : bool)
  | F_open_db
  | F_close_db (handle : Z)
  | F_thread_start
  | F_thread_stop
  | F_thread_restart
  | F_module_start (i : nat)
  | F_module_stop (i : nat)
  | F_sampler (s : orcm_sensor_sampler_t)
  | F_inventory (b : opal_buffer_t)
  | F_recv_inventory.

(** The modules in their slots, with the numbers of the slots. *)
Fixpoint each_module {A} (f : nat → orcm_sensor_active_module_t → list A) (l : list (option orcm_sensor_active_module_t))
    (i : nat) : list A :=
  match l with
  | [] => []
  | None :: rest => each_module f rest (S i)
  | Some m :: rest => f i m ++ each_module f rest (S i)
  end.

(** The inventory: the name of the node and what the modules add; it is sent when the name
    can be packed. *)
Definition collect_inventory_info (nodename : cstring) (st : orcm_sensor_base_t) : list effect :=
  match opal_dss_pack t_string [Some nodename] new_buffer with
  | Some (b, inr _) =>
    [F_inventory (foldl (λ b f, f b) b (each_module (λ _ m, option_list (inventory_collect_fn (module m))) (modules st) 0))]
  | _ => []
  end.

(** The answer of the database to the request to open it. *)
Definition db_open_cb (aggregator : bool) (handle status : Z) (st : orcm_sensor_base_t) : orcm_sensor_base_t * list effect :=
  if status =? 0 then (set_db handle true st, if aggregator then [F_recv_inventory] else []) else (st, []).

Definition is_module (slot : option orcm_sensor_active_module_t) : bool :=
  match slot with Some _ => true | None => false end.

(** The sampler that samples again and again. *)
Definition base_sampler (st : orcm_sensor_base_t) : orcm_sensor_sampler_t := mk_sampler None (sample_rate st) new_buffer false.

(** The part of [orcm_sensor_base_start] that brings the modules up, with whether it goes on
    to the inventory; [thread_ok] says whether the thread can be started. *)
Definition start_modules (aggregator thread_ok : bool) (st : orcm_sensor_base_t) : orcm_sensor_base_t * list effect * bool :=
  if negb (mods_active st) then
    let e1 := if negb (dbhandle_acquired st) && aggregator then [F_open_db] else [] in
    if negb (ev_active st) && negb thread_ok then (st, e1, false) else
    let e2 := if negb (ev_active st) then [F_thread_start] else [] in
    let mods := existsb is_module (modules st) in
    let e3 := each_module (λ i m, if start_fn (module m) then [F_module_start i] else []) (modules st) 0 in
    let e4 := if mods && (0 <? sample_rate st) && collect_metrics (params st) then [F_sampler (base_sampler st)] else [] in
    (set_running true (recv_issued st) mods st, e1 ++ e2 ++ e3 ++ e4, true)
  else if negb (ev_active st) then (set_running true (recv_issued st) (mods_active st) st, [F_thread_restart], true)
  else (st, [], true).

Definition orcm_sensor_base_start (aggregator thread_ok : bool) (nodename : cstring) (st : orcm_sensor_base_t)
    : orcm_sensor_base_t * list effect :=
  if (length (modules st) =? 0)%nat then (st, []) else
  let e1 := if recv_issued st then [] else [F_recv true] in
  let st := set_running (ev_active st) true (mods_active st) st in
  let '(st, e2, go_on) := start_modules aggregator thread_ok st in
  let e3 := if go_on && collect_inventory (params st) && negb (set_dynamic_inventory (params st))
            then collect_inventory_info nodename st else [] in
  (st, e1 ++ e2 ++ e3).

Definition orcm_sensor_base_stop (aggregator : bool) (st : orcm_sensor_base_t) : orcm_sensor_base_t * list effect :=
  let e1 := if recv_issued st then [F_recv false] else [] in
  let st := set_running (ev_active st) false (mods_active st) st in
  if negb (mods_active st) then (st, e1) else
  let e2 := if ev_active st then [F_thread_stop] else [] in
  let st := set_running false (recv_issued st) (mods_active st) st in
  let e3 := each_module (λ i m, if stop_fn (module m) then [F_module_stop i] else []) (modules st) 0 in
  let close := dbhandle_acquired st && aggregator in
  (if close then set_db (dbhandle st) false st else st,
   e1 ++ e2 ++ e3 ++ (if close then [F_close_db (dbhandle st)] else [])).

(** ** Samples (sensor_base_fns.c) *)

Definition to_lower (c : ascii) : Z := if (65 <=? code c) && (code c <=? 90) then code c + 32 else code c.

Fixpoint prefix_ci (needle hay : cstring) : bool :=
  match needle, hay with
  | [], _ => true
  | _ :: _, [] => false
  | a :: n, b :: h => (to_lower a =? to_lower b) && prefix_ci n h
  end.

(** [NULL != strcasestr(hay, needle)] *)
Fixpoint strcasestr (hay needle : cstring) : bool :=
  prefix_ci needle hay || match hay with [] => false | _ :: h => strcasestr h needle end.

(** The threads of the components hand over what they collected. *)
Definition orcm_sensor_base_collect (x_bucket : opal_buffer_t) (st : orcm_sensor_base_t) : orcm_sensor_base_t :=
  set_cache (opal_dss_copy_payload (cache st) x_bucket).1 st.

(** The cache is moved to the bucket. *)
Definition sweep (st : orcm_sensor_base_t) (s : orcm_sensor_sampler_t) : orcm_sensor_base_t * orcm_sensor_sampler_t :=
  if 0 <? bytes_used (cache st)
  then (set_cache new_buffer st,
        mk_sampler (sensors s) (tv_rate s) (opal_dss_copy_payload (bucket s) (cache st)).1 (cbfunc s))
  else (st, s).

(** The request includes the module. *)
Definition included (s : orcm_sensor_sampler_t) (m : orcm_sensor_active_module_t) : bool :=
  match sensors s with None => true | Some names => strcasestr names (component_name (component m)) end.

(** The modules in their order; the bucket goes through their sample functions. *)
Fixpoint sample_modules (s : orcm_sensor_sampler_t) (l : list (option orcm_sensor_active_module_t)) (b : opal_buffer_t)
    : opal_buffer_t * list opal_buffer_t :=
  match l with
  | [] => (b, [])
  | None :: rest => sample_modules s rest b
  | Some m :: rest =>
    let '(b, sent) := if included s m then match sample_fn (module m) with Some f => f b | None => (b, []) end else (b, []) in
    let '(b, sent') := sample_modules s rest b in
    (b, sent ++ sent')
  end.

(** What becomes of the sampler: it waits for the next sample, or is released; and what its
    callback was given. *)
Inductive sampled :=
  | S_idle
  | S_again (s : orcm_sensor_sampler_t) (given : option opal_buffer_t)
  | S_released (given : option opal_buffer_t).

(** The state, the sampler, and the messages that the modules sent. *)
Definition take_sample (st : orcm_sensor_base_t) (s : orcm_sensor_sampler_t)
    : orcm_sensor_base_t * sampled * list opal_buffer_t :=
  if negb (mods_active st) then (st, S_idle, []) else
  let '(st, s) := sweep st s in
  let '(b, sent) := sample_modules s (modules st) (bucket s) in
  let given := if cbfunc s then Some b else None in
  let b := if cbfunc s then new_buffer else b in
  if 0 <? tv_rate s then
    let r := if negb (sample_rate st =? 0) && negb (tv_rate s =? sample_rate st) then sample_rate st else tv_rate s in
    (st, S_again (mk_sampler (sensors s) r b (cbfunc s)) given, sent)
  else (st, S_released given, sent).

(** A sample on request, taken once. *)
Definition orcm_sensor_base_manually_sample (names : cstring) (callback : bool) (st : orcm_sensor_base_t)
    : option orcm_sensor_sampler_t :=
  if negb (mods_active st) then None else Some (mk_sampler (Some names) 0 new_buffer callback).

(** The module that logs the data of a component: the first of the name, when it can. *)
Fixpoint log_loop (comp : cstring) (l : list (option orcm_sensor_active_module_t)) (i : nat) : option nat :=
  match l with
  | [] => None
  | None :: rest => log_loop comp rest (S i)
  | Some m :: rest =>
    if same comp (component_name (component m)) then if log_fn (module m) then Some i else None
    else log_loop comp rest (S i)
  end.

Definition orcm_sensor_base_log (comp : option cstring) (st : orcm_sensor_base_t) : option nat :=
  if (length (modules st) =? 0)%nat then None else
  match comp with
  | None => None
  | Some comp => if dbhandle st <? 0 then None else log_loop comp (modules st) 0
  end.

(** The modules that log an inventory: all of the name, one after the other on the buffer. *)
Fixpoint inventory_loop (host : option cstring) (comp : cstring) (l : list (option orcm_sensor_active_module_t)) (i : nat)
    (b : opal_buffer_t) : opal_buffer_t * list (nat * opal_buffer_t) :=
  match l with
  | [] => (b, [])
  | None :: rest => inventory_loop host comp rest (S i) b
  | Some m :: rest =>
    match same comp (component_name (component m)), inventory_log_fn (module m) with
    | true, Some f => let '(b', l') := inventory_loop host comp rest (S i) (f host b) in (b', (i, b) :: l')
    | _, _ => inventory_loop host comp rest (S i) b
    end
  end.

(** The names of components that follow the name of the node; NULL is passed over. *)
Fixpoint inventory_names (fuel : nat) (host : option cstring) (st : orcm_sensor_base_t) (b : opal_buffer_t)
    : option (list (nat * opal_buffer_t)) :=
  match fuel with
  | O => None
  | S fuel =>
    '(b, r) ← unpack1 t_string b;
    match r with
    | inl _ => Some []
    | inr None => inventory_names fuel host st b
    | inr (Some comp) =>
      let '(b, l) := inventory_loop host comp (modules st) 0 b in
      l' ← inventory_names fuel host st b;
      Some (l ++ l')
    end
  end.

Definition recv_inventory (fuel : nat) (buffer : opal_buffer_t) (st : orcm_sensor_base_t) : option (list (nat * opal_buffer_t)) :=
  '(b, r) ← unpack1 t_string buffer;
  match r with
  | inl _ => Some []
  | inr host => if dbhandle_acquired st then inventory_names fuel host st b else Some []
  end.

Definition orcm_sensor_base_set_sample_rate (r : Z) (st : orcm_sensor_base_t) : orcm_sensor_base_t := set_base_rate r st.
Definition orcm_sensor_base_get_sample_rate (st : orcm_sensor_base_t) : Z := sample_rate st.

(** ** Messages *)

Section messages.
Context `{FloatText}.

(** The loops over the modules that look for a name. *)
Fixpoint set_rates (name : cstring) (r : Z) (l : list (option orcm_sensor_active_module_t)) (found_me : bool)
    : list (option orcm_sensor_active_module_t) * bool :=
  match l with
  | [] => ([], found_me)
  | None :: rest => let '(rest', f) := set_rates name r rest found_me in (None :: rest', f)
  | Some m :: rest =>
    if same name (component_name (component m)) then
      match set_rate_fn (module m) with
      | Some set =>
        let '(rest', f) := set_rates name r rest true in
        (Some (mk_active (component m) (module m) (priority m) (sampling m) (set (rate m) r)) :: rest', f)
      | None => let '(rest', f) := set_rates name r rest found_me in (Some m :: rest', f)
      end
    else let '(rest', f) := set_rates name r rest found_me in (Some m :: rest', f)
  end.

Fixpoint get_rates (name : cstring) (l : list (option orcm_sensor_active_module_t)) (found : option Z) : option Z :=
  match l with
  | [] => found
  | None :: rest => get_rates name rest found
  | Some m :: rest =>
    get_rates name rest
      (if same name (component_name (component m)) then
         match get_rate_fn (module m) with Some get => Some (get (rate m)) | None => found end
       else found)
  end.

(** The policy of the same sensor, kind of threshold and severity is updated; without one
    there is a new policy. *)
Definition same_policy (p q : orcm_sensor_policy_t) : bool :=
  same (sensor_name p) (sensor_name q) && eqb (hi_thres p) (hi_thres q) && (severity p =? severity q).

Fixpoint update_policy (new : orcm_sensor_policy_t) (l : list orcm_sensor_policy_t) : list orcm_sensor_policy_t :=
  match l with
  | [] => [new]
  | plc :: rest =>
    if same_policy new plc
    then mk_policy (sensor_name plc) (max_count new) (time_window new) (threshold new) (hi_thres plc) (severity plc)
           (action new) :: rest
    else plc :: update_policy new rest
  end.

(** A string that is given to [strcmp] or [strdup]. *)
Definition text (s : option cstring) : M cstring := match s with Some s => mret s | None => undefined end.

Definition unpack_policy : M orcm_sensor_policy_t :=
  name ← unpack1 t_string;
  thres ← unpack1 t_float;
  hi ← unpack1 t_bool;
  count ← unpack1 t_int;
  window ← unpack1 t_int;
  sev ← unpack1 t_int;
  act ← unpack1 t_string;
  name ← text name;
  act ← text act;
  mret (mk_policy name count window thres hi sev act).

Definition pack_policy (p : orcm_sensor_policy_t) : M unit :=
  _ ← opal_dss_pack t_string [Some (sensor_name p)];
  _ ← opal_dss_pack t_float [threshold p];
  _ ← opal_dss_pack t_bool [hi_thres p];
  _ ← opal_dss_pack t_int [max_count p];
  _ ← opal_dss_pack t_int [time_window p];
  _ ← opal_dss_pack t_int [severity p];
  opal_dss_pack t_string [Some (action p)].

Definition pack_policies (l : list orcm_sensor_policy_t) : M unit :=
  _ ← opal_dss_pack t_int [to_int (Z.of_nat (length l))];
  pack_each pack_policy l.

(** What a request asks for, once it has been read. *)
Inductive request :=
  | R_set_rate (name : cstring) (r : Z)
  | R_set_policy (p : orcm_sensor_policy_t)
  | R_get_rate (name : cstring)
  | R_get_policy.

(** Reading a request; a code is an error that is answered. *)
Definition read_request : M request :=
  command ← unpack1 t_uint8;
  if command =? ORCM_SET_SENSOR_COMMAND then
    sub_command ← unpack1 t_uint8;
    if sub_command =? ORCM_SET_SENSOR_SAMPLE_RATE_COMMAND then
      name ← unpack1 t_string; r ← unpack1 t_int; name ← text name; mret (R_set_rate name r)
    else if sub_command =? ORCM_SET_SENSOR_POLICY_COMMAND then p ← unpack_policy; mret (R_set_policy p)
    else fail ORTE_ERR_BAD_PARAM
  else if command =? ORCM_GET_SENSOR_COMMAND then
    sub_command ← unpack1 t_uint8;
    if sub_command =? ORCM_GET_SENSOR_SAMPLE_RATE_COMMAND then
      name ← unpack1 t_string; name ← text name; mret (R_get_rate name)
    else if sub_command =? ORCM_GET_SENSOR_POLICY_COMMAND then mret R_get_policy
    else fail ORTE_ERR_BAD_PARAM
  else fail ORTE_ERR_BAD_PARAM.

Definition base_name : cstring := lit "base".

(** The new state and what is packed into the answer. *)
Definition serve (r : request) (st : orcm_sensor_base_t) : orcm_sensor_base_t * M unit :=
  match r with
  | R_set_rate name r =>
    let '(st, found_me) :=
      if same name base_name then (orcm_sensor_base_set_sample_rate r st, true)
      else let '(l, f) := set_rates name r (modules st) false in (set_modules l st, f) in
    (st, opal_dss_pack t_int [if found_me : bool then ORCM_SUCCESS else ORTE_ERR_BAD_PARAM])
  | R_set_policy p => (set_policy (update_policy p (policy st)) st, opal_dss_pack t_int [ORCM_SUCCESS])
  | R_get_rate name =>
    let found :=
      if same name base_name then Some (orcm_sensor_base_get_sample_rate st) else get_rates name (modules st) None in
    (st, match found with
         | Some r =>
           _ ← opal_dss_pack t_int [ORCM_SUCCESS];
           _ ← opal_dss_pack t_string [Some name];
           opal_dss_pack t_int [r]
         | None => opal_dss_pack t_int [ORTE_ERR_BAD_PARAM]
         end)
  | R_get_policy => (st, pack_policies (policy st))
  end.

(** The result is the answer and the state. *)
Definition orcm_sensor_base_recv (buffer : opal_buffer_t) (st : orcm_sensor_base_t)
    : option (orcm_sensor_base_t * option opal_buffer_t) :=
  '(_, r) ← read_request buffer;
  let '(st, m) := match r with
                  | inl _ => (st, opal_dss_pack t_int [ORTE_ERR_BAD_PARAM])
                  | inr r => serve r st
                  end in
  '(ans, ok) ← m new_buffer;
  Some (st, match ok with inr _ => Some ans | inl _ => None end).
End messages.

End Sensor.
