(* ===== verification/OctlSensor.v ===== *)
(** * The sensor commands of octl (orcm/tools/octl/sensor.c)

    The commands set and read the policies and the sample rates of the nodes of a list, one
    node after the other.  The exchange of a request for an answer with the daemon of a node
    is an argument, with a code for a node that cannot be found or reached.  All answers of
    one command are collected in one buffer.  What a command prints is its result. *)

From Stdlib Require Import ZArith Lia Ascii.
From stdpp Require Import prelude numbers strings gmap list.
From S2P Require Import Prelude CString Argv Regex Dss Sensor.

Local Open Scope Z_scope.

Module OctlSensor.
Import Argv Regex Dss Sensor.

Definition ORTE_NOTIFIER_EMERG : Z := 0.
Definition ORTE_NOTIFIER_ALERT : Z := 1.
Definition ORTE_NOTIFIER_CRIT : Z := 2.
Definition ORTE_NOTIFIER_ERROR : Z := 3.
Definition ORTE_NOTIFIER_WARN : Z := 4.
Definition ORTE_NOTIFIER_NOTICE : Z := 5.
Definition ORTE_NOTIFIER_INFO : Z := 6.
Definition ORTE_NOTIFIER_DEBUG : Z := 7.

(** The severity that a word names. *)
Definition severity_of (s : cstring) : option Z :=
  if same s (lit "emerg") then Some ORTE_NOTIFIER_EMERG
  else if same s (lit "alert") then Some ORTE_NOTIFIER_ALERT
  else if same s (lit "crit") then Some ORTE_NOTIFIER_CRIT
  else if same s (lit "error") then Some ORTE_NOTIFIER_ERROR
  else if same s (lit "warn") then Some ORTE_NOTIFIER_WARN
  else if same s (lit "notice") then Some ORTE_NOTIFIER_NOTICE
  else if same s (lit "info") then Some ORTE_NOTIFIER_INFO
  else if same s (lit "debug") then Some ORTE_NOTIFIER_DEBUG
  else None.

(** The word a severity is printed as. *)
Definition severity_text (severity : Z) : cstring :=
  lit (if severity =? ORTE_NOTIFIER_EMERG then "EMERG"
       else if severity =? ORTE_NOTIFIER_ALERT then "ALERT"
       else if severity =? ORTE_NOTIFIER_CRIT then "CRIT"
       else if severity =? ORTE_NOTIFIER_ERROR then "ERROR"
       else if severity =? ORTE_NOTIFIER_WARN then "WARN"
       else if severity =? ORTE_NOTIFIER_NOTICE then "NOTICE"
       else if severity =? ORTE_NOTIFIER_INFO then "INFO"
       else if severity =? ORTE_NOTIFIER_DEBUG then "DEBUG"
       else "UNKNOWN").

(** A line of the table of policies: the policy, and its words for the threshold and the
    severity. *)
Record policy_line := mk_line { line_policy : orcm_sensor_policy_t; line_type : cstring; line_sev : cstring }.

Definition print_policy (p : orcm_sensor_policy_t) : policy_line :=
  mk_line p (lit (if hi_thres p then "Hi" else "Lo")) (severity_text (severity p)).

(** The nodes of an argument; no node is an error. *)
Definition nodes_of (s : cstring) : option (option (list cstring)) :=
  '(_, l) ← orte_regex_extract_node_names (Some s);
  Some (match l with [] => None | _ => Some l end).

(** [(int)strtol(s, NULL, 10)] when the last character is a digit; an empty argument has
    none. *)
Definition int_arg (s : cstring) : option (option Z) :=
  c ← last s; Some (if isdigit c then Some (to_int (strtol s).1) else None).

Section octl.
Context `{FloatText} (atof : cstring → Z).
Context {W : Type} (exchange : cstring → opal_buffer_t → W → option (W * (Z + opal_buffer_t))).

(** One node: the request is sent and the answer is added to the buffer of the answers. *)
Definition ask_node (node : cstring) (buf xfer : opal_buffer_t) (w : W) : option (W * (Z + opal_buffer_t)) :=
  '(w, r) ← exchange node buf w;
  Some (w, match r with inl rc => inl rc | inr data => inr (opal_dss_copy_payload xfer data).1 end).

(** ** Setting *)

(** The loop that prints Success or Failure for each node. *)
Fixpoint set_loop (nodelist : list cstring) (buf xfer : opal_buffer_t) (w : W) : option (W * (Z + list bool)) :=
  match nodelist with
  | [] => Some (w, inr [])
  | node :: rest =>
    '(w, r) ← ask_node node buf xfer w;
    match r with
    | inl rc => Some (w, inl rc)
    | inr xfer =>
      '(xfer, r) ← unpack1 t_int xfer;
      match r with
      | inl rc => Some (w, inl rc)
      | inr result =>
        '(w, r) ← set_loop rest buf xfer w;
        Some (w, match r with inl rc => inl rc | inr l => inr ((result =? ORCM_SUCCESS) :: l) end)
      end
    end
  end.

Definition send_request {A} (request : M unit) (k : opal_buffer_t → W → option (W * (Z + A))) (w : W)
    : option (W * (Z + A)) :=
  '(buf, r) ← request new_buffer;
  match r with inl rc => Some (w, inl rc) | inr _ => k buf w end.

(** The command and the sub-command, both a byte. *)
Definition pack_commands (command cmd : Z) : M unit :=
  _ ← opal_dss_pack t_uint8 [command];
  opal_dss_pack t_uint8 [uwrap 8 cmd].

Definition policy_of_args (argv : list cstring) : option (option orcm_sensor_policy_t) :=
  name ← argv !! 4%nat; thres ← argv !! 5%nat; hilo ← argv !! 6%nat; count ← argv !! 7%nat;
  window ← argv !! 8%nat; sev ← argv !! 9%nat; act ← argv !! 10%nat;
  if negb (same hilo (lit "hi")) && negb (same hilo (lit "lo")) then Some None else
  count ← int_arg count;
  match count with
  | None => Some None
  | Some count =>
    window ← int_arg window;
    match window, severity_of sev with
    | Some window, Some sev => Some (Some (mk_policy name count window (atof thres) (same hilo (lit "hi")) sev act))
    | _, _ => Some None
    end
  end.

Definition orcm_octl_sensor_policy_set (cmd : Z) (argv : list cstring) (w : W) : option (W * (Z + list bool)) :=
  if negb (opal_argv_count (Some argv) =? 11) then Some (w, inl OPAL_ERR_BAD_PARAM) else
  nodes ← argv !! 3%nat; nodelist ← nodes_of nodes;
  match nodelist with
  | None => Some (w, inl OPAL_ERR_BAD_PARAM)
  | Some nodelist =>
    p ← policy_of_args argv;
    match p with
    | None => Some (w, inl OPAL_ERR_BAD_PARAM)
    | Some p =>
      send_request (_ ← pack_commands ORCM_SET_SENSOR_COMMAND cmd; pack_policy p)
        (λ buf, set_loop nodelist buf new_buffer) w
    end
  end.

Definition orcm_octl_sensor_sample_rate_set (cmd : Z) (argv : list cstring) (w : W) : option (W * (Z + list bool)) :=
  if negb (opal_argv_count (Some argv) =? 6) then Some (w, inl OPAL_ERR_BAD_PARAM) else
  name ← argv !! 3%nat; rate ← argv !! 4%nat; nodes ← argv !! 5%nat;
  rate ← int_arg rate;
  match rate with
  | None => Some (w, inl OPAL_ERR_BAD_PARAM)
  | Some rate =>
    nodelist ← nodes_of nodes;
    match nodelist with
    | None => Some (w, inl OPAL_ERR_BAD_PARAM)
    | Some nodelist =>
      send_request (_ ← pack_commands ORCM_SET_SENSOR_COMMAND cmd; _ ← opal_dss_pack t_string [Some name]; opal_dss_pack t_int [rate])
        (λ buf, set_loop nodelist buf new_buffer) w
    end
  end.

(** ** Reading *)

(** A NULL action is printed as the C library prints it. *)
Definition read_policy : M orcm_sensor_policy_t :=
  name ← unpack1 t_string;
  thres ← unpack1 t_float;
  hi ← unpack1 t_bool;
  count ← unpack1 t_int;
  window ← unpack1 t_int;
  sev ← unpack1 t_int;
  act ← unpack1 t_string;
  name ← text name;
  mret (mk_policy name count window thres hi sev (default (lit "(null)") act)).

(** The table of one node: the number of policies and the policies. *)
Definition read_policies : M (Z * list policy_line) :=
  num ← unpack1 t_int;
  l ← unpack_each read_policy num;
  mret (num, print_policy <$> l).

(** The loop over the nodes.  The loop over the policies of a node uses the same variable, so
    that it stands at the number of policies when the next node is due; a node without
    policies ends the command. *)
Fixpoint policy_get_loop (fuel i : nat) (nodelist : list cstring) (buf xfer : opal_buffer_t) (w : W)
    : option (W * (Z + list (cstring * list policy_line))) :=
  match fuel with
  | O => None
  | S fuel =>
    match nodelist !! i with
    | None => Some (w, inr [])
    | Some node =>
      '(w, r) ← ask_node node buf xfer w;
      match r with
      | inl rc => Some (w, inl rc)
      | inr xfer =>
        '(xfer, r) ← read_policies xfer;
        match r with
        | inl rc => Some (w, inl rc)
        | inr (num, l) =>
          if num =? 0 then Some (w, inr [(node, [])]) else
          '(w, r) ← policy_get_loop fuel (S (Z.to_nat num)) nodelist buf xfer w;
          Some (w, match r with inl rc => inl rc | inr t => inr ((node, l) :: t) end)
        end
      end
    end
  end.

Definition orcm_octl_sensor_policy_get (fuel : nat) (cmd : Z) (argv : list cstring) (w : W)
    : option (W * (Z + list (cstring * list policy_line))) :=
  if negb (opal_argv_count (Some argv) =? 4) then Some (w, inl OPAL_ERR_BAD_PARAM) else
  nodes ← argv !! 3%nat; nodelist ← nodes_of nodes;
  match nodelist with
  | None => Some (w, inl OPAL_ERR_BAD_PARAM)
  | Some nodelist =>
    send_request (pack_commands ORCM_GET_SENSOR_COMMAND cmd)
      (λ buf, policy_get_loop fuel 0 nodelist buf new_buffer) w
  end.

(** Whatever goes wrong ends the command, which has succeeded all the same. *)
Definition read_rate : M (option cstring * Z) := name ← unpack1 t_string; r ← unpack1 t_int; mret (name, r).

Fixpoint rate_get_loop (nodelist : list cstring) (buf xfer : opal_buffer_t) (w : W)
    : option (W * list (option cstring * Z)) :=
  match nodelist with
  | [] => Some (w, [])
  | node :: rest =>
    '(w, r) ← ask_node node buf xfer w;
    match r with
    | inl rc => Some (w, [])
    | inr xfer =>
      '(xfer, r) ← unpack1 t_int xfer;
      match r with
      | inl rc => Some (w, [])
      | inr response =>
        if negb (response =? 0) then Some (w, []) else
        '(xfer, r) ← read_rate xfer;
        match r with
        | inl rc => Some (w, [])
        | inr line => '(w, l) ← rate_get_loop rest buf xfer w; Some (w, line :: l)
        end
      end
    end
  end.

Definition orcm_octl_sensor_sample_rate_get (cmd : Z) (argv : list cstring) (w : W)
    : option (W * (Z + list (option cstring * Z))) :=
  if negb (opal_argv_count (Some argv) =? 5) then Some (w, inl OPAL_ERR_BAD_PARAM) else
  name ← argv !! 3%nat; nodes ← argv !! 4%nat; nodelist ← nodes_of nodes;
  match nodelist with
  | None => Some (w, inl OPAL_ERR_BAD_PARAM)
  | Some nodelist =>
    send_request (_ ← pack_commands ORCM_GET_SENSOR_COMMAND cmd; opal_dss_pack t_string [Some name])
      (λ buf w, '(w, l) ← rate_get_loop nodelist buf new_buffer w; Some (w, inr l)) w
  end.
End octl.

End OctlSensor.
