(* ===== verification/SensorSpec.v ===== *)
(** * What the base of the sensors keeps and delivers

    The modules that are selected, the data that is collected and sampled, and the policies
    and rates that octl sets and reads. *)

From Stdlib Require Import ZArith Lia Ascii.
From stdpp Require Import prelude numbers strings gmap list sorting.
From S2P Require Import Prelude ModuleSort CString Argv Regex Dss Fields DssBuffer Sensor OctlSensor.

Local Open Scope Z_scope.

Module SensorSpec.
Import ModuleSort Argv Regex Dss Fields DssBuffer Sensor OctlSensor.

Lemma same_iff a b : same a b = true ↔ c_text a = c_text b.
Proof. unfold same, strcmp. rewrite Z.eqb_eq. apply text_cmp_eq. Qed.

(** ** Selection *)

Definition measures (m : orcm_sensor_active_module_t) : cstring := c_text (data_measured (component m)).

(** The modules found so far, for the candidates [cs]: one for each quantity, from a
    candidate, of no lower priority than any candidate of the quantity. *)
Record kept (cs l : list orcm_sensor_active_module_t) : Prop := mk_kept {
  kept_one : NoDup (measures <$> l);
  kept_from m : m ∈ l → m ∈ cs;
  kept_best c : c ∈ cs → ∃ m, m ∈ l ∧ measures m = measures c ∧ priority c ≤ priority m;
}.

Lemma present_add_slot {A} (a : A) l : present (add_slot a l) ≡ₚ a :: present l.
Proof.
  induction l as [|[x|] l IH]; cbn [add_slot]; [done| |done].
  change (present (Some x :: add_slot a l)) with (x :: present (add_slot a l)).
  change (present (Some x :: l)) with (x :: present l). rewrite IH. apply perm_swap.
Qed.

(** What the loop over the modules does, when there is one module for each quantity. *)
Lemma duplicate_loop_spec c p tmp : NoDup (measures <$> present tmp) →
  match duplicate_loop c p tmp false with
  | (tmp', true) => tmp' = tmp ∧ ∃ m, m ∈ present tmp ∧ measures m = c_text c ∧ p ≤ priority m
  | (tmp', false) =>
      (tmp' = tmp ∧ c_text c ∉ measures <$> present tmp) ∨
      ∃ m, present tmp ≡ₚ m :: present tmp' ∧ measures m = c_text c ∧ priority m < p
  end.
Proof.
  assert (∀ l, c_text c ∉ measures <$> present l → ∀ d, duplicate_loop c p l d = (l, d)) as Hskip.
  { intros l. induction l as [|[x|] l IH]; intros Hn d; cbn [duplicate_loop]; [done| |by rewrite IH].
    change (present (Some x :: l)) with (x :: present l) in Hn. cbn in Hn. apply not_elem_of_cons in Hn as [Hx Hn].
    destruct (same c (data_measured (component x))) eqn:E; [by apply same_iff in E|]. by rewrite IH. }
  induction tmp as [|[x|] tmp IH]; intros Hd; cbn [duplicate_loop].
  - left. split; [done|]. apply not_elem_of_nil.
  - change (present (Some x :: tmp)) with (x :: present tmp) in *. cbn [fmap list_fmap] in Hd. apply NoDup_cons in Hd as [Hx Hd].
    destruct (same c (data_measured (component x))) eqn:E.
    + apply same_iff in E. destruct (Z.ltb_spec (priority x) p).
      * right. exists x. split_and!; [done|done|lia].
      * rewrite Hskip by (rewrite E; exact Hx). split; [done|]. exists x. split_and!; [set_solver|done|lia].
    + assert (measures x ≠ c_text c) as Hne. { intros E2. symmetry in E2. apply same_iff in E2. congruence. }
      specialize (IH Hd). destruct (duplicate_loop c p tmp false) as [tmp' [|]].
      * destruct IH as (-> & m & Hm & ?). split; [done|]. exists m. split; [set_solver|done].
      * destruct IH as [(-> & Hn)|(m & Hp & Hm & Hlt)].
        -- left. split; [done|]. cbn. apply not_elem_of_cons. by split.
        -- right. exists m. split_and!; [|done|done]. change (present (Some x :: tmp')) with (x :: present tmp').
           rewrite Hp. apply perm_swap.
  - change (present (None :: tmp)) with (present tmp) in *. specialize (IH Hd).
    destruct (duplicate_loop c p tmp false) as [tmp' [|]].
    + destruct IH as (-> & ?). done.
    + destruct IH as [(-> & ?)|?]; [by left|by right].
Qed.

Lemma kept_perm cs l l' : l ≡ₚ l' → kept cs l → kept cs l'.
Proof.
  intros Hp [H1 H2 H3]. split; [by rewrite <-Hp|intros m; rewrite <-Hp; apply H2|].
  intros c Hc. destruct (H3 c Hc) as (m & Hm & ?). exists m. by rewrite <-Hp.
Qed.

Lemma candidate_measures c m : candidate c = Some m → measures m = c_text (data_measured c).
Proof. unfold candidate. repeat case_match; intros [= <-]; done. Qed.

Lemma query_step_kept cs tmp c : kept cs (present tmp) →
  kept (cs ++ option_list (candidate c)) (present (query_step tmp c)).
Proof.
  intros [H1 H2 H3]. unfold query_step. destruct (candidate c) as [m|] eqn:Ec; cbn [option_list]; [|by rewrite app_nil_r].
  pose proof (candidate_measures c m Ec) as Em. pose proof (duplicate_loop_spec (data_measured c) (priority m) tmp H1) as Hd.
  destruct (duplicate_loop (data_measured c) (priority m) tmp false) as [tmp' [|]].
  - destruct Hd as (-> & m' & Hm' & Hmm & Hle). split; [done|set_solver|].
    intros x Hx. apply elem_of_app in Hx as [Hx|Hx]; [by apply H3|]. apply list_elem_of_singleton in Hx as ->.
    exists m'. split_and!; [done|congruence|done].
  - apply (kept_perm _ (m :: present tmp')); [by rewrite present_add_slot|].
    destruct Hd as [(-> & Hn)|(m' & Hp & Hmm & Hlt)].
    + split.
      * cbn. apply NoDup_cons. split; [by rewrite Em|done].
      * set_solver.
      * intros x [Hx|Hx%list_elem_of_singleton]%elem_of_app.
        -- destruct (H3 x Hx) as (y & Hy & ?). exists y. split; [set_solver|done].
        -- subst. exists m. split_and!; [set_solver|done|done].
    + rewrite Hp in H1. cbn in H1. apply NoDup_cons in H1 as [Hn1 H1]. split.
      * cbn. apply NoDup_cons. split; [by rewrite Em, <-Hmm|done].
      * intros x Hx. apply elem_of_cons in Hx as [->|Hx]; [set_solver|]. apply elem_of_app. left. apply H2. rewrite Hp. set_solver.
      * intros x [Hx|Hx%list_elem_of_singleton]%elem_of_app.
        -- destruct (H3 x Hx) as (y & Hy & Hxy & Hle). rewrite Hp in Hy. apply elem_of_cons in Hy as [->|Hy].
           ++ exists m. split_and!; [set_solver|congruence|lia].
           ++ exists y. split; [set_solver|done].
        -- subst. exists m. split_and!; [set_solver|done|done].
Qed.

(** The modules that cannot be initialized, and what is in the place of a module after the
    initialization. *)
Definition init_fails (m : orcm_sensor_active_module_t) : bool :=
  match init_fn (module m) with Some rc => bool_decide (rc ≠ ORCM_SUCCESS) | None => false end.

Definition initialized (aggregator : bool) (m : orcm_sensor_active_module_t) : option orcm_sensor_active_module_t :=
  if init_fails m then if aggregator then Some (mk_active (component m) (module m) (priority m) false (rate m)) else None
  else Some m.

Lemma add_all (l a : list orcm_sensor_active_module_t) n :
  foldl (λ l m, add_slot m l) ((Some <$> a) ++ replicate n None) l = (Some <$> a ++ l) ++ replicate (n - length l) None.
Proof.
  revert a n. induction l as [|m l IH]; intros a n; cbn [foldl length].
  - by rewrite app_nil_r, Nat.sub_0_r.
  - assert (add_slot m ((Some <$> a) ++ replicate n None) = (Some <$> a ++ [m]) ++ replicate (n - 1) None) as ->.
    { induction a as [|x a IHa]; cbn; [destruct n; [done|cbn; by rewrite Nat.sub_0_r]|]. by f_equal. }
    rewrite IH, <-app_assoc. cbn [app]. f_equal. f_equal. lia.
Qed.

Lemma init_slots aggregator (l : list orcm_sensor_active_module_t) n :
  (∀ m, m ∈ l → init_fn (module m) = None ∨ init_fn (module m) = Some ORCM_SUCCESS ∨ finalize_fn (module m) = true) →
  mapM (init_slot aggregator) ((Some <$> l) ++ replicate n None) = Some ((initialized aggregator <$> l) ++ replicate n None).
Proof.
  intros Hf. induction l as [|m l IH].
  - induction n as [|n IHn]; [done|]. cbn in *. by rewrite IHn.
  - specialize (IH ltac:(intros x Hx; apply Hf; set_solver)).
    assert (init_module aggregator m = Some (initialized aggregator m)) as E1.
    { specialize (Hf m ltac:(set_solver)). unfold init_module, initialized, init_fails.
      destruct (init_fn (module m)) as [rc|] eqn:Ei; [|done].
      destruct (Z.eqb_spec rc ORCM_SUCCESS); [by rewrite bool_decide_false by tauto|]. rewrite bool_decide_true by done.
      destruct aggregator; [done|]. destruct Hf as [?|[?|Hfin]]; [done|congruence|]. by rewrite Hfin. }
    cbn [fmap list_fmap app mapM init_slot]. rewrite E1. cbn [mbind option_bind]. by rewrite IH.
Qed.

(** C28. The selection of sensors, after the framework has been opened.  When every module
    that cannot be initialized can be finalized, it ends with the array of modules by falling
    priority, and free slots behind them: one for each quantity that a usable component
    measures, of the highest priority among those that measure it.  A module whose
    initialization fails is missing from its place, and on an aggregator there and marked as
    not sampling; every other module is there as its component gave it. *)
Theorem sensor_selection aggregator components p rate :
  Forall (λ m, init_fn (module m) = None ∨ init_fn (module m) = Some ORCM_SUCCESS ∨ finalize_fn (module m) = true)
    (omap candidate components) →
  ∃ st' sorted k, orcm_sensor_base_select aggregator components (orcm_sensor_base_open p rate) = Some st' ∧
    modules st' = (initialized aggregator <$> sorted) ++ replicate k None ∧
    kept (omap candidate components) sorted ∧ StronglySorted (λ a b, priority b ≤ priority a) sorted.
Proof.
  intros Hf. set (tmp := foldl query_step [] components).
  assert (kept (omap candidate components) (present tmp)) as Hk.
  { assert (∀ cs l t, kept cs (present t) → kept (cs ++ omap candidate l) (present (foldl query_step t l))) as HH.
    { intros cs l. revert cs. induction l as [|c l IH]; intros cs t Ht; cbn [omap list_omap foldl].
      - by rewrite app_nil_r.
      - specialize (IH _ _ (query_step_kept cs t c Ht)). rewrite <-app_assoc in IH. by destruct (candidate c). }
    apply (HH [] components []). split; [constructor|set_solver|set_solver]. }
  unfold orcm_sensor_base_select. cbn [selected orcm_sensor_base_open set_selected modules]. fold tmp. cbn zeta.
  destruct (present tmp) as [|m0 rest] eqn:Ep.
  - eexists _, [], 3%nat. split_and!; [done|done|done|constructor].
  - rewrite <-Ep in Hk. destruct (sort_total priority tmp) as (sorted & Es & [Hp Hs _]). rewrite Es. cbn [mbind option_bind].
    assert (kept (omap candidate components) sorted) as Hks by (by eapply kept_perm).
    rewrite Forall_forall in Hf. pose proof (add_all sorted [] 3) as Ea. cbn [fmap list_fmap app] in Ea. rewrite Ea.
    rewrite (init_slots aggregator sorted (3 - length sorted)) by (intros m Hm; exact (Hf m (kept_from _ _ Hks m Hm))).
    by eexists _, sorted, _.
Qed.

Definition ok_module : orcm_sensor_base_module_t :=
  mk_sensor_module (Some ORCM_SUCCESS) true true true None false None None None None.
Definition bad_module : orcm_sensor_base_module_t :=
  mk_sensor_module (Some (-1)) true true true None false None None None None.
Definition sample_component (name measured : string) (m : orcm_sensor_base_module_t) (p : Z) : orcm_sensor_base_component_t :=
  mk_sensor_component (lit name) (lit measured) (Some (Some m, p)).

(** Two components that read core temperatures, and one for power that fails. *)
Definition sample_components : list orcm_sensor_base_component_t :=
  [sample_component "sigar" "coretemp" ok_module 10; sample_component "componentpower" "power" bad_module 60;
   sample_component "coretemp" "coretemp" ok_module 50].
Definition sample_params : parameters := mk_params true true false false.

Lemma sensor_selection_witness :
  ∃ st' sorted, orcm_sensor_base_select false sample_components (orcm_sensor_base_open sample_params 5) = Some st' ∧
    kept (omap candidate sample_components) sorted ∧ length (modules st') = 3%nat.
Proof.
  destruct (sensor_selection false sample_components sample_params 5) as (st' & l & k & E & _ & Hk & _).
  - repeat constructor; cbn; tauto.
  - exists st', l. split_and!; [exact E|exact Hk|]. vm_compute in E. injection E as <-. reflexivity.
Defined.

(** ** What is collected is sampled once *)

Lemma copy_payload_extended dest src : fully_desc dest = fully_desc src → inside src →
  extended dest (remaining src) (opal_dss_copy_payload dest src).1.
Proof.
  intros Hd Hi. unfold opal_dss_copy_payload. rewrite (bool_decide_eq_true_2 _ Hd), andb_false_r.
  replace (mk_buf (fully_desc src) (base dest) (unpack_off dest) (bytes_allocated dest)) with dest
    by (rewrite <-Hd; by destruct dest).
  unfold bytes_used. destruct (Z.eqb_spec (Z.of_nat (length (base src)) - Z.of_nat (unpack_off src)) 0) as [E|E].
  - unfold remaining. rewrite drop_ge by lia. apply extended_refl.
  - apply store_extended. unfold remaining. rewrite length_drop. unfold inside in Hi. lia.
Qed.

(** What happens to the cache: data from a collecting thread, or a sample by a sampler. *)
Inductive event :=
  | E_collect (x_bucket : opal_buffer_t)
  | E_sample (s : orcm_sensor_sampler_t).

(** The buckets that the callbacks of the samplers are given, with their samplers. *)
Fixpoint run (evs : list event) (st : orcm_sensor_base_t)
    : orcm_sensor_base_t * list (orcm_sensor_sampler_t * opal_buffer_t) :=
  match evs with
  | [] => (st, [])
  | E_collect b :: rest => run rest (orcm_sensor_base_collect b st)
  | E_sample s :: rest =>
    let '(st, r, _) := take_sample st s in
    let '(st', out) := run rest st in
    (st', match r with
          | S_again _ (Some b) | S_released (Some b) => (s, b) :: out
          | _ => out
          end)
  end.


(** A module that adds to the bucket, changes nothing that is there, and sends nothing. *)
Definition appends (f : opal_buffer_t → opal_buffer_t * list opal_buffer_t) : Prop :=
  ∀ b, fully_desc b = false → ∃ x b', f b = (b', []) ∧ extended b x b'.

Definition all_append (s : orcm_sensor_sampler_t) (l : list (option orcm_sensor_active_module_t)) : Prop :=
  ∀ m f, Some m ∈ l → included s m = true → sample_fn (module m) = Some f → appends f.

Definition event_ok (l : list (option orcm_sensor_active_module_t)) (e : event) : Prop :=
  match e with
  | E_collect b => fully_desc b = false ∧ inside b
  | E_sample s => cbfunc s = true ∧ fully_desc (bucket s) = false ∧ all_append s l
  end.

Lemma sample_modules_extended s l b : all_append s l → fully_desc b = false →
  ∃ x b', sample_modules s l b = (b', []) ∧ extended b x b'.
Proof.
  revert b. induction l as [|[m|] l IH]; intros b Hl Hb; cbn [sample_modules].
  - exists [], b. split; [done|apply extended_refl].
  - assert (∃ x b', (if included s m then match sample_fn (module m) with Some f => f b | None => (b, []) end else (b, [])) = (b', []) ∧
      extended b x b') as (x & b1 & -> & Hx).
    { destruct (included s m) eqn:Ei; [|exists [], b; split; [done|apply extended_refl]].
      destruct (sample_fn (module m)) as [f|] eqn:E; [|exists [], b; split; [done|apply extended_refl]].
      apply (Hl m f); [set_solver|done|done|done]. }
    destruct (IH b1) as (y & b2 & -> & Hy); [intros m' f' Hm'; apply Hl; set_solver|destruct Hx; congruence|].
    exists (x ++ y), b2. split; [done|by eapply extended_trans].
  - apply IH; [|done]. intros m f Hm. apply (Hl m f). set_solver.
Qed.

(** The cache goes to the end of the bucket. *)
Lemma sweep_moves st s : holds (cache st) (base (cache st)) → fully_desc (bucket s) = false →
  ∃ st1 s1, sweep st s = (st1, s1) ∧ extended (bucket s) (base (cache st)) (bucket s1) ∧ holds (cache st1) [] ∧
    modules st1 = modules st ∧ mods_active st1 = mods_active st ∧ cbfunc s1 = cbfunc s ∧ sensors s1 = sensors s ∧
    tv_rate s1 = tv_rate s ∧ params st1 = params st.
Proof.
  intros (Hcd & Hco & _) Hd. unfold sweep. destruct (Z.ltb_spec 0 (bytes_used (cache st))) as [Hu|Hu]; eexists _, _; split; try done.
  - split_and!; try done. cbn [bucket].
    replace (base (cache st)) with (remaining (cache st)) by (unfold remaining; by rewrite Hco).
    apply copy_payload_extended; [congruence|]. unfold inside. lia.
  - assert (base (cache st) = []) as E0 by (apply nil_length_inv; unfold bytes_used in Hu; lia).
    rewrite E0. split_and!; try done. apply extended_refl.
Qed.

(** A sample moves the whole cache behind what the bucket held. *)
Lemma take_sample_moves st s : mods_active st = true → holds (cache st) (base (cache st)) → event_ok (modules st) (E_sample s) →
  ∃ st' r b extra, take_sample st s = (st', r, []) ∧ (r = S_released (Some b) ∨ ∃ s', r = S_again s' (Some b)) ∧
    base b = base (bucket s) ++ base (cache st) ++ extra ∧ holds (cache st') [] ∧
    mods_active st' = true ∧ modules st' = modules st.
Proof.
  intros Ha Hc (Hcb & Hd & Hm). unfold take_sample. rewrite Ha. cbn [negb].
  destruct (sweep_moves st s Hc Hd) as (st1 & s1 & -> & Hx & Hc1 & Hm1 & Ha1 & Hcb1 & Hs1 & _ & _).
  assert (all_append s1 (modules st1)) as Hap by (rewrite Hm1; intros m f Hin Hi; apply (Hm m f Hin); unfold included in *; by rewrite Hs1 in Hi).
  destruct (sample_modules_extended s1 (modules st1) (bucket s1) Hap) as (x & b & -> & Hx1); [destruct Hx; congruence|].
  rewrite Hcb1, Hcb. assert (base b = base (bucket s) ++ base (cache st) ++ x) as Eb
    by (destruct Hx as (_ & E1 & _), Hx1 as (_ & -> & _); by rewrite E1, app_assoc).
  destruct (0 <? tv_rate s1); eexists st1, _, b, x; (split; [done|]); split_and!; try done; try congruence; [right; by eexists|by left].
Qed.

(** What was collected before each sample and after the one before it, with the sampler, and
    what was collected after the last; [acc] is in the cache. *)
Fixpoint between (acc : list Z) (evs : list event) : list (orcm_sensor_sampler_t * list Z) * list Z :=
  match evs with
  | [] => ([], acc)
  | E_collect b :: rest => between (acc ++ remaining b) rest
  | E_sample s :: rest => ((s, acc) :: (between [] rest).1, (between [] rest).2)
  end.


Definition sample_base : orcm_sensor_base_t :=
  mk_sensor_base sample_params true [Some (mk_active (sample_component "sigar" "coretemp" ok_module 10) ok_module 10 true 0)] 5
    new_buffer [] 0 true true true true.


(** ** Starting again *)

Lemma stop_modules aggregator st : mods_active st = true →
  ∃ st1 e1, orcm_sensor_base_stop aggregator st = (st1, e1) ∧ mods_active st1 = true ∧ ev_active st1 = false ∧
    ∀ i m, modules st !! i = Some (Some m) → stop_fn (module m) = true → F_module_stop i ∈ e1.
Proof.
  intros Ha.
  assert (∀ l k i m, l !! i = Some (Some m) → stop_fn (module m) = true →
    F_module_stop (k + i) ∈ each_module (λ i m, if stop_fn (module m) then [F_module_stop i] else []) l k) as Hstop.
  { induction l as [|[x|] l IH]; intros k [|i] m Hl Hm; try done; cbn [each_module]; cbn in Hl.
    - injection Hl as ->. rewrite Hm, Nat.add_0_r. set_solver.
    - apply elem_of_app. right. rewrite Nat.add_succ_r. by apply (IH (S k) i m).
    - rewrite Nat.add_succ_r. by apply (IH (S k) i m). }
  unfold orcm_sensor_base_stop. cbn zeta. cbn [set_running mods_active ev_active modules dbhandle_acquired]. rewrite Ha. cbn [negb].
  eexists _, _. split; [reflexivity|]. split_and!; [by destruct (_ && _)|by destruct (_ && _)|].
  intros i m Hi Hm. specialize (Hstop _ 0%nat i m Hi Hm). apply elem_of_app. right. apply elem_of_app. right. apply elem_of_app. by left.
Qed.

(** After a start and a stop, the next start brings the thread up again but starts none of
    the modules, all of which were stopped. *)
Theorem restart_starts_nothing aggregator nodename st : mods_active st = true →
  ∃ st1 e1 st2 e2, orcm_sensor_base_stop aggregator st = (st1, e1) ∧
    orcm_sensor_base_start aggregator true nodename st1 = (st2, e2) ∧
    (∀ i m, modules st !! i = Some (Some m) → stop_fn (module m) = true → F_module_stop i ∈ e1) ∧
    (∀ i, F_module_start i ∉ e2).
Proof.
  intros Ha. destruct (stop_modules aggregator st Ha) as (st1 & e1 & E & H1 & H2 & Hstop).
  destruct (orcm_sensor_base_start aggregator true nodename st1) as [st2 e2] eqn:Es.
  exists st1, e1, st2, e2. split_and!; [done|done|done|]. intros i. unfold orcm_sensor_base_start in Es.
  destruct (length (modules st1) =? 0)%nat; [injection Es as <- <-; set_solver|].
  unfold start_modules in Es. cbn [set_running mods_active ev_active] in Es. rewrite H1, H2 in Es. cbn [negb] in Es.
  injection Es as <- <-. unfold collect_inventory_info. repeat case_match; set_solver.
Qed.

(** ** Policies *)

(** The policies of a node as a map: a sensor, the kind of threshold and the severity name
    the policy. *)
Definition policy_key (p : orcm_sensor_policy_t) : cstring * bool * Z := (c_text (sensor_name p), hi_thres p, severity p).
Definition policy_value (p : orcm_sensor_policy_t) : Z * Z * Z * cstring := (max_count p, time_window p, threshold p, action p).
Definition policy_map (l : list orcm_sensor_policy_t) : gmap (cstring * bool * Z) (Z * Z * Z * cstring) :=
  list_to_map ((λ p, (policy_key p, policy_value p)) <$> l).

Lemma same_policy_iff p q : same_policy p q = true ↔ policy_key p = policy_key q.
Proof.
  unfold same_policy, policy_key. rewrite !andb_true_iff, same_iff, eqb_true_iff, Z.eqb_eq. intuition congruence.
Qed.

Lemma policy_map_cons p l : policy_map (p :: l) = <[policy_key p := policy_value p]> (policy_map l).
Proof. done. Qed.

(** The list of policies implements the map, and an update is an insertion. *)
Lemma update_policy_map p l : policy_map (update_policy p l) = <[policy_key p := policy_value p]> (policy_map l).
Proof.
  induction l as [|q l IH]; [done|]. cbn [update_policy]. destruct (same_policy p q) eqn:E.
  - apply same_policy_iff in E. rewrite !policy_map_cons, E, insert_insert_eq. done.
  - assert (policy_key p ≠ policy_key q) as Hn by (intros H; apply same_policy_iff in H; congruence).
    rewrite !policy_map_cons, IH. by apply insert_insert_ne.
Qed.

Lemma update_policy_keys p l : NoDup (policy_key <$> l) → NoDup (policy_key <$> update_policy p l).
Proof.
  induction l as [|q l IH]; intros Hn; [apply NoDup_singleton|]. cbn [update_policy]. destruct (same_policy p q) eqn:E; [done|].
  apply NoDup_cons in Hn as [Hq Hn]. apply NoDup_cons. split; [|by apply IH].
  assert (policy_key p ≠ policy_key q) as Hpq by (intros H; apply same_policy_iff in H; congruence).
  clear -Hq Hpq. induction l as [|r l IH]; [set_solver|]. cbn [update_policy]. destruct (same_policy p r) eqn:E2; [set_solver|].
  cbn [fmap list_fmap] in *. apply not_elem_of_cons in Hq as [Hr Hq]. apply not_elem_of_cons. split; [done|by apply IH].
Qed.

Lemma update_policy_idem p l : update_policy p (update_policy p l) = update_policy p l.
Proof.
  induction l as [|q l IH]; cbn [update_policy].
  - rewrite (proj2 (same_policy_iff p p) eq_refl). by destruct p.
  - destruct (same_policy p q) eqn:E; cbn [update_policy]; [|by rewrite E, IH].
    set (q' := mk_policy _ _ _ _ _ _ _). assert (same_policy p q' = true) as ->; [|done].
    apply same_policy_iff in E. by apply same_policy_iff.
Qed.

(** ** Messages of policies *)

Lemma meets_then {A B} d (p : M unit) (u : M A) (k : A → M B) a r :
  meets d p u a → unpacks d (k a) [] r → meets d p (u ≫= k) r.
Proof. intros (x & Px & Ux) Hk. exists x. split; [done|]. rewrite <-(app_nil_r x). by eapply unpacks_bind. Qed.

Section wire.
Context `{FloatText}.

Record valid_policy (p : orcm_sensor_policy_t) : Prop := mk_valid_policy {
  vp_name : valid_string (Some (sensor_name p));
  vp_threshold : valid_float (threshold p);
  vp_count : in_s 32 (max_count p);
  vp_window : in_s 32 (time_window p);
  vp_severity : in_s 32 (severity p);
  vp_action : valid_string (Some (action p));
}.

(** A reader of the fields of a policy gets them as they were packed. *)
Lemma policy_fields {A} p (k : option cstring → Z → bool → Z → Z → Z → option cstring → M A) r : valid_policy p →
  unpacks false (k (Some (sensor_name p)) (threshold p) (hi_thres p) (max_count p) (time_window p) (severity p)
                   (Some (action p))) [] r →
  meets false (pack_policy p)
    (name ← unpack1 t_string; thres ← unpack1 t_float; hi ← unpack1 t_bool; count ← unpack1 t_int;
     window ← unpack1 t_int; sev ← unpack1 t_int; act ← unpack1 t_string; k name thres hi count window sev act) r.
Proof.
  intros [H1 H2 H3 H4 H5 H6] Hk. unfold pack_policy.
  repeat (eapply meets_bind; [eapply meets_value; [apply _|first [exact I|eassumption]]|]; cbn beta).
  eapply meets_then; [eapply meets_value; [apply _|eassumption]|exact Hk].
Qed.

Lemma meets_unpack_policy p : valid_policy p → meets false (pack_policy p) unpack_policy p.
Proof. intros Hp. apply policy_fields; [done|]. destruct p. apply unpacks_ret. Qed.

Lemma meets_read_policy p : valid_policy p → meets false (pack_policy p) read_policy p.
Proof. intros Hp. apply policy_fields; [done|]. destruct p. apply unpacks_ret. Qed.

Lemma meets_read_policies l : Forall valid_policy l → Z.of_nat (length l) ≤ INT_MAX →
  meets false (pack_policies l) read_policies (Z.of_nat (length l), print_policy <$> l).
Proof.
  intros Hl Hn. unfold pack_policies, read_policies. unfold INT_MAX in Hn.
  assert (to_int (Z.of_nat (length l)) = Z.of_nat (length l)) as -> by (apply to_int_small; unfold INT_MAX; lia).
  eapply meets_bind; [eapply meets_value; [apply codec_int|unfold in_s; simpl (2 ^ _); lia]|]. cbn beta.
  eapply meets_map with (f := λ x, (Z.of_nat (length l), print_policy <$> x)).
  rewrite <-(list_fmap_id l) at 3. apply (meets_each false pack_policy read_policy id).
  eapply Forall_impl; [exact Hl|]. intros p. apply meets_read_policy.
Qed.

(** Setting a policy, as the daemon reads it. *)
Lemma meets_set_request p : valid_policy p →
  meets false (_ ← pack_commands ORCM_SET_SENSOR_COMMAND ORCM_SET_SENSOR_POLICY_COMMAND; pack_policy p) read_request (R_set_policy p).
Proof.
  intros Hp. destruct (meets_unpack_policy p Hp) as (z & Pz & Uz).
  destruct (meets_value t_uint8 (in_u 8) false ORCM_SET_SENSOR_COMMAND codec_uint8) as (x & Px & Ux); [done|].
  destruct (meets_value t_uint8 (in_u 8) false ORCM_SET_SENSOR_POLICY_COMMAND codec_uint8) as (y & Py & Uy); [done|].
  exists ((x ++ y) ++ z). split; [apply packs_bind; [by apply packs_bind|done]|]. rewrite <-app_assoc.
  eapply unpacks_bind; [exact Ux|]. eapply unpacks_bind; [exact Uy|]. by apply unpacks_bind_ret.
Qed.

Lemma meets_get_request :
  meets false (pack_commands ORCM_GET_SENSOR_COMMAND ORCM_GET_SENSOR_POLICY_COMMAND) read_request R_get_policy.
Proof.
  destruct (meets_value t_uint8 (in_u 8) false ORCM_GET_SENSOR_COMMAND codec_uint8) as (x & Px & Ux); [done|].
  destruct (meets_value t_uint8 (in_u 8) false ORCM_GET_SENSOR_POLICY_COMMAND codec_uint8) as (y & Py & Uy); [done|].
  exists (x ++ y). split; [by apply packs_bind|]. eapply unpacks_bind; [exact Ux|].
  rewrite <-(app_nil_r y). eapply unpacks_bind; [exact Uy|]. apply unpacks_ret.
Qed.

(** ** The daemons of the nodes *)

(** The daemon of a node serves a request; the tool knows no other nodes. *)
Definition exchange (node : cstring) (buf : opal_buffer_t) (w : gmap cstring orcm_sensor_base_t)
    : option (gmap cstring orcm_sensor_base_t * (Z + opal_buffer_t)) :=
  match w !! node with
  | None => Some (w, inl OPAL_ERR_NOT_FOUND)
  | Some st =>
    '(st, ans) ← orcm_sensor_base_recv (received_buffer buf) st;
    ans ← ans;
    Some (<[node := st]> w, inr (received_buffer ans))
  end.

(** A request that is read as [r] is answered with what [serve] packs. *)
Lemma recv_serves buf bs r st x : holds buf bs → unpacks false read_request bs r → packs false (serve r st).2 x →
  ∃ ans, orcm_sensor_base_recv (received_buffer buf) st = Some ((serve r st).1, Some ans) ∧ holds ans x.
Proof.
  intros Hh Hu Hp. unfold orcm_sensor_base_recv.
  pose proof (holds_ahead _ _ (holds_received _ _ Hh)) as Ha. rewrite <-(app_nil_r bs) in Ha.
  destruct (ahead_unpack _ _ _ _ _ Ha Hu) as [E _]. rewrite E. cbn [mbind option_bind].
  destruct (serve r st) as [st' m]. destruct (holds_pack _ _ _ _ holds_new Hp) as (ans & Ea & Hans).
  exists ans. cbn [fst snd] in *. unfold new_buffer. rewrite Ea. done.
Qed.

Lemma ask_node_ahead node buf bs r w st x xfer : w !! node = Some st → holds buf bs → unpacks false read_request bs r →
  packs false (serve r st).2 x → ahead xfer [] →
  ∃ xfer', ask_node exchange node buf xfer w = Some (<[node := (serve r st).1]> w, inr xfer') ∧ ahead xfer' x.
Proof.
  intros Hw Hh Hu Hp [Hd [Hl Hr]]. destruct (recv_serves buf bs r st x Hh Hu Hp) as (ans & E & Hans).
  apply holds_received in Hans. pose proof Hans as (Had & Hao & Hab).
  destruct (copy_payload_extended xfer (received_buffer ans)) as (Ed & Eb & Eo & _); [congruence|unfold inside; lia|].
  eexists. unfold ask_node, exchange. rewrite Hw, E. cbn. split; [done|]. split; [congruence|].
  unfold readable, remaining in *. rewrite Eo, Eb, Hao, Hab, length_app. split; [lia|].
  rewrite drop_app_le by lia. rewrite Hr. by rewrite !app_nil_r.
Qed.

(** ** Setting and reading policies from octl *)

Definition apply_policy (p : orcm_sensor_policy_t) (st : orcm_sensor_base_t) : orcm_sensor_base_t :=
  set_policy (update_policy p (policy st)) st.

Definition updated (p : orcm_sensor_policy_t) (nodes : list cstring) (w : gmap cstring orcm_sensor_base_t)
    : gmap cstring orcm_sensor_base_t :=
  foldl (λ w node, alter (apply_policy p) node w) w nodes.

Lemma updated_lookup p nodes w n :
  updated p nodes w !! n = if decide (n ∈ nodes) then apply_policy p <$> (w !! n) else w !! n.
Proof.
  revert w. induction nodes as [|m nodes IH]; intros w; [by rewrite decide_False by set_solver|].
  cbn [updated foldl]. change (foldl _ (alter ?f m w) nodes) with (updated p nodes (alter f m w)). rewrite IH.
  destruct (decide (n = m)) as [->|Hn].
  - rewrite lookup_alter_eq, (decide_True (P := m ∈ m :: nodes)) by set_solver. destruct (decide (m ∈ nodes)); [|done].
    destruct (w !! m) as [st|]; [|done]. cbn. unfold apply_policy. cbn. by rewrite update_policy_idem.
  - rewrite lookup_alter_ne by done. destruct (decide (n ∈ nodes)) as [Hin|Hin].
    + by rewrite decide_True by set_solver.
    + by rewrite decide_False by set_solver.
Qed.

(** The loop over the nodes: each answers with success and has the policy. *)
Lemma set_loop_updates p buf bs nodes : holds buf bs → unpacks false read_request bs (R_set_policy p) → ∀ w xfer,
  (∀ n, n ∈ nodes → is_Some (w !! n)) → ahead xfer [] →
  set_loop exchange nodes buf xfer w = Some (updated p nodes w, inr (replicate (length nodes) true)).
Proof.
  intros Hh Hu. induction nodes as [|m nodes IH]; intros w xfer Hw Hx; [done|]. cbn [set_loop].
  destruct (Hw m ltac:(set_solver)) as [st Hm].
  destruct (meets_value t_int (in_s 32) false ORCM_SUCCESS codec_int) as (x & Px & Ux); [done|].
  destruct (ask_node_ahead m buf bs _ w st x xfer Hm Hh Hu Px Hx) as (xfer' & E & Hx'). rewrite E. cbn [mbind option_bind].
  rewrite <-(app_nil_r x) in Hx'. destruct (ahead_unpack _ _ _ _ _ Hx' Ux) as [Eu Hx2]. rewrite Eu. cbn [mbind option_bind].
  assert (<[m := (serve (R_set_policy p) st).1]> w = alter (apply_policy p) m w) as ->.
  { apply map_eq. intros i. destruct (decide (i = m)) as [->|Hi].
    - by rewrite lookup_insert_eq, lookup_alter_eq, Hm.
    - by rewrite lookup_insert_ne, lookup_alter_ne by done. }
  rewrite IH; [done| |done]. intros n Hn. destruct (decide (n = m)) as [->|Hi].
  - rewrite lookup_alter_eq, Hm. by eexists.
  - rewrite lookup_alter_ne by done. apply Hw. set_solver.
Qed.

(** One turn of the loop that reads the policies of a node. *)
Lemma policy_get_turn fuel i nodes buf bs xfer w n st : nodes !! i = Some n → w !! n = Some st →
  Forall valid_policy (policy st) → Z.of_nat (length (policy st)) ≤ INT_MAX →
  holds buf bs → unpacks false read_request bs R_get_policy → ahead xfer [] →
  ∃ xfer', ahead xfer' [] ∧
  policy_get_loop exchange (S fuel) i nodes buf xfer w =
    if Z.of_nat (length (policy st)) =? 0 then Some (w, inr [(n, [])]) else
    '(w, r) ← policy_get_loop exchange fuel (S (length (policy st))) nodes buf xfer' w;
    Some (w, match r with inl rc => inl rc | inr t => inr ((n, print_policy <$> policy st) :: t) end).
Proof.
  intros Hn Hw Hv Hl Hh Hu Hx. destruct (meets_read_policies (policy st) Hv Hl) as (x & Px & Ux).
  destruct (ask_node_ahead n buf bs _ w st x xfer Hw Hh Hu Px Hx) as (xfer' & E & Hx').
  rewrite <-(app_nil_r x) in Hx'. destruct (ahead_unpack _ _ _ _ _ Hx' Ux) as [Eu Hx2].
  eexists. split; [exact Hx2|]. cbn [policy_get_loop]. rewrite Hn, E. cbn [mbind option_bind]. rewrite Eu. cbn [mbind option_bind].
  cbn [serve fst]. rewrite insert_id by done. by rewrite Nat2Z.id.
Qed.

Lemma holds_fresh : holds new_buffer [].
Proof. done. Qed.

Lemma argc_is (argv : list cstring) n z : length argv = n → z = Z.of_nat n → negb (opal_argv_count (Some argv) =? z) = false.
Proof. intros <- ->. unfold opal_argv_count. by rewrite Z.eqb_refl. Qed.

(** C19. Policies from octl.  Setting a policy on nodes that are all known succeeds on each
    of them: a node of the list has its policies, a map from the sensor, kind of threshold
    and severity, with the new one inserted and nothing else changed, and any other node is
    unchanged.  Reading the
    policies of one node then prints exactly the policies that it has. *)
Theorem policy_set_get (atof : cstring → Z) argv arg nodes p w :
  length argv = 11%nat → argv !! 3%nat = Some arg → nodes_of arg = Some (Some nodes) →
  policy_of_args atof argv = Some (Some p) → valid_policy p → (∀ n, n ∈ nodes → is_Some (w !! n)) →
  ∃ w', orcm_octl_sensor_policy_set atof exchange ORCM_SET_SENSOR_POLICY_COMMAND argv w
          = Some (w', inr (replicate (length nodes) true)) ∧
  ∀ n st, w !! n = Some st → ∃ st', w' !! n = Some st' ∧
    (n ∉ nodes → st' = st) ∧
    (n ∈ nodes → st' = set_policy (update_policy p (policy st)) st ∧
       policy_map (policy st') = <[policy_key p := policy_value p]> (policy_map (policy st)) ∧
       (NoDup (policy_key <$> policy st) → NoDup (policy_key <$> policy st'))) ∧
    ∀ argv' arg' fuel, length argv' = 4%nat → argv' !! 3%nat = Some arg' → nodes_of arg' = Some (Some [n]) → (2 ≤ fuel)%nat →
      Forall valid_policy (policy st') → Z.of_nat (length (policy st')) ≤ INT_MAX →
      orcm_octl_sensor_policy_get exchange fuel ORCM_GET_SENSOR_POLICY_COMMAND argv' w'
        = Some (w', inr [(n, print_policy <$> policy st')]).
Proof.
  intros Hargc Harg Hnodes Hp Hv Hw. exists (updated p nodes w). split.
  - unfold orcm_octl_sensor_policy_set. rewrite (argc_is argv _ 11 Hargc eq_refl), Harg. cbn [mbind option_bind]. rewrite Hnodes. cbn [mbind option_bind]. rewrite Hp. cbn [mbind option_bind].
    destruct (meets_set_request p Hv) as (bs & P & U). destruct (holds_pack _ _ _ _ holds_fresh P) as (buf & E & Hh).
    unfold send_request. rewrite E. cbn [mbind option_bind]. by apply (set_loop_updates p buf bs).
  - intros n st Hn. pose proof (updated_lookup p nodes w n) as Hl. rewrite Hn in Hl. cbn [fmap option_fmap option_map] in Hl.
    exists (if decide (n ∈ nodes) then apply_policy p st else st). split; [by destruct (decide _)|]. split; [|split].
    + intros Hin. by rewrite decide_False.
    + intros Hin. rewrite decide_True by done. split_and!; [done|apply update_policy_map|apply update_policy_keys].
    + assert (updated p nodes w !! n = Some (if decide (n ∈ nodes) then apply_policy p st else st)) as Hst by (by destruct (decide _)).
      clear Hl. set (st' := if decide (n ∈ nodes) then apply_policy p st else st) in *.
      intros argv' arg' fuel Hargc' Harg' Hn' Hf Hvs Hlen.
      unfold orcm_octl_sensor_policy_get. rewrite (argc_is argv' _ 4 Hargc' eq_refl), Harg'. cbn [mbind option_bind]. rewrite Hn'. cbn [mbind option_bind].
      destruct meets_get_request as (bs & P & U). destruct (holds_pack _ _ _ _ holds_fresh P) as (buf & E & Hh).
      unfold send_request. rewrite E. cbn [mbind option_bind]. destruct fuel as [|[|fuel]]; [lia|lia|].
      destruct (policy_get_turn (S fuel) 0 [n] buf bs new_buffer _ n st' eq_refl Hst Hvs Hlen Hh U) as (xfer & _ & ->);
        [by apply holds_ahead|].
      destruct (policy st') as [|q l] eqn:El; [done|]. destruct (Z.eqb_spec (Z.of_nat (length (q :: l))) 0); [simpl in *; lia|].
      done.
Qed.

(** Reading the policies of three nodes or more, when the first and the third have one policy
    each, does not end: the loop comes back to the third node forever. *)
Theorem policy_get_diverges argv arg n0 n1 n2 rest w st0 st2 q0 q2 fuel :
  length argv = 4%nat → argv !! 3%nat = Some arg → nodes_of arg = Some (Some (n0 :: n1 :: n2 :: rest)) →
  w !! n0 = Some st0 → w !! n2 = Some st2 → policy st0 = [q0] → policy st2 = [q2] → valid_policy q0 → valid_policy q2 →
  orcm_octl_sensor_policy_get exchange fuel ORCM_GET_SENSOR_POLICY_COMMAND argv w = None.
Proof.
  intros Hargc Harg Hnodes H0 H2 E0 E2 V0 V2.
  unfold orcm_octl_sensor_policy_get. rewrite (argc_is argv _ 4 Hargc eq_refl), Harg. cbn [mbind option_bind]. rewrite Hnodes. cbn [mbind option_bind].
  destruct meets_get_request as (bs & P & U). destruct (holds_pack _ _ _ _ holds_fresh P) as (buf & E & Hh).
  unfold send_request. rewrite E. cbn [mbind option_bind].
  set (nodes := n0 :: n1 :: n2 :: rest).
  assert (∀ f xfer, ahead xfer [] → policy_get_loop exchange f 2 nodes buf xfer w = None) as Hloop.
  { intros f. induction f as [|f IH]; intros xfer Hx; [done|].
    destruct (policy_get_turn f 2 nodes buf bs xfer w n2 st2 eq_refl H2) as (xfer' & Hx' & ->);
      rewrite ?E2; [by apply Forall_singleton|done|done|done|done|]. cbn [length Z.of_nat Z.eqb]. by rewrite IH. }
  destruct fuel as [|fuel]; [done|].
  destruct (policy_get_turn fuel 0 nodes buf bs new_buffer w n0 st0 eq_refl H0) as (xfer' & Hx' & ->);
    rewrite ?E0; [by apply Forall_singleton|done|done|done|by apply holds_ahead|]. cbn [length Z.of_nat Z.eqb]. by rewrite Hloop.
Qed.

End wire.
Definition sample_args : list cstring :=
  lit <$> ["sensor"; "set"; "policy"; "node1"; "coretemp"; "80"; "hi"; "3"; "60"; "crit"; "syslog"]%string.
Definition sample_query : list cstring := lit <$> ["sensor"; "get"; "policy"; "node1"]%string.
Definition sample_atof (s : cstring) : Z := (strtol s).1.
Definition sample_policy : orcm_sensor_policy_t := mk_policy (lit "coretemp") 3 60 80 true 2 (lit "syslog").
#[local] Instance decimal : FloatText := {| printf_f := print_int; strtof := λ s, (strtol s).1 |}.

Lemma policy_set_get_witness :
  ∃ w', orcm_octl_sensor_policy_set sample_atof exchange ORCM_SET_SENSOR_POLICY_COMMAND sample_args {[ lit "node1" := sample_base ]}
          = Some (w', inr [true]) ∧
        orcm_octl_sensor_policy_get exchange 2 ORCM_GET_SENSOR_POLICY_COMMAND sample_query w'
          = Some (w', inr [(lit "node1", [print_policy sample_policy])]).
Proof.
  set (w := {[ lit "node1" := sample_base ]} : gmap cstring orcm_sensor_base_t).
  assert (valid_policy sample_policy) as Hv by (split; vm_compute; repeat constructor; discriminate).
  destruct (policy_set_get sample_atof sample_args (lit "node1") [lit "node1"] sample_policy w) as (w' & E & Hw).
  - reflexivity.
  - reflexivity.
  - vm_compute. reflexivity.
  - vm_compute. reflexivity.
  - exact Hv.
  - intros n Hn%list_elem_of_singleton. subst n. exists sample_base. apply lookup_singleton_eq.
  - exists w'. split; [exact E|]. destruct (Hw (lit "node1") sample_base) as (st' & _ & _ & Hst & Hget); [apply lookup_singleton_eq|].
    destruct (Hst ltac:(by left)) as [-> _]. apply (Hget sample_query (lit "node1")).
    + reflexivity.
    + reflexivity.
    + vm_compute. reflexivity.
    + lia.
    + apply Forall_singleton. exact Hv.
    + vm_compute. discriminate.
Defined.

End SensorSpec.
