(* ===== verification/Attr.v ===== *)
(** * Attributes (orte/util/attr.c and their wire format)

    An attribute is a key, a type and the member of a union that the type selects.
    The list of constraints of an allocation is a list of attributes. *)

From Stdlib Require Import ZArith Lia Ascii.
From stdpp Require Import prelude numbers strings gmap list.
From S2P Require Import Prelude CString Dss.

Local Open Scope Z_scope.

Module Attr.
Import Dss.

Definition OPAL_ERR_NOT_SUPPORTED : Z := -8.
Definition ORTE_ERR_TYPE_MISMATCH : Z := -27.

(** The member of the union; the members of integer type share [D_num]. *)
Inductive attr_data :=
  | D_flag (b : bool)
  | D_num (z : Z)
  | D_string (s : option cstring)
  | D_bo (bo : opal_byte_object_t)
  | D_fval (f : Z)
  | D_tv (tv : timeval)
  | D_ptr (p : Z).

Record orte_attribute_t := mk_attr {
  attr_key : Z;
  attr_local : bool;
  attr_type : Z;
  attr_value : attr_data;
}.

(** The integer members and the types they travel at. *)
Definition num_type (type : Z) : option (opal_dss_type_info_t Z) :=
  if type =? OPAL_BYTE then Some t_byte
  else if type =? OPAL_SIZE then Some t_size
  else if type =? OPAL_PID then Some t_pid
  else if type =? OPAL_INT then Some t_int
  else if type =? OPAL_INT8 then Some t_int8
  else if type =? OPAL_INT16 then Some t_int16
  else if type =? OPAL_INT32 then Some t_int32
  else if type =? OPAL_INT64 then Some t_int64
  else if type =? OPAL_UINT then Some t_uint
  else if type =? OPAL_UINT8 then Some t_uint8
  else if type =? OPAL_UINT16 then Some t_uint16
  else if type =? OPAL_UINT32 then Some t_uint32
  else if type =? OPAL_UINT64 then Some t_uint64
  else if type =? OPAL_VPID then Some t_vpid
  else if type =? OPAL_JOBID then Some t_jobid
  else None.

(** [memset(&kv->data, 0, sizeof(kv->data))], read at the member of the type. *)
Definition zero_data (type : Z) : attr_data :=
  if type =? OPAL_BOOL then D_flag false
  else if type =? OPAL_STRING then D_string None
  else if type =? OPAL_BYTE_OBJECT then D_bo (mk_bo 0 [])
  else if type =? OPAL_FLOAT then D_fval 0
  else if type =? OPAL_TIMEVAL then D_tv (mk_tv 0 0)
  else if type =? OPAL_PTR then D_ptr 0
  else D_num 0.

(** The member that belongs to a type the switches know. *)
Definition member_of (type : Z) (d : attr_data) : bool :=
  match d with
  | D_flag _ => type =? OPAL_BOOL
  | D_num _ => match num_type type with Some _ => true | None => false end
  | D_string _ => type =? OPAL_STRING
  | D_bo _ => type =? OPAL_BYTE_OBJECT
  | D_fval _ => type =? OPAL_FLOAT
  | D_tv _ => type =? OPAL_TIMEVAL
  | D_ptr _ => type =? OPAL_PTR
  end.

Definition supported (type : Z) : bool :=
  match num_type type with
  | Some _ => true
  | None => (type =? OPAL_BOOL) || (type =? OPAL_STRING) || (type =? OPAL_BYTE_OBJECT) ||
            (type =? OPAL_FLOAT) || (type =? OPAL_TIMEVAL) || (type =? OPAL_PTR)
  end.

(** The value copied for a byte object: one of no bytes is stored as NULL. *)
Definition copy_data (d : attr_data) : attr_data :=
  match d with
  | D_bo bo => if 0 <? bo_size bo then D_bo bo else D_bo (mk_bo 0 [])
  | _ => d
  end.

(** [data] is what the caller points to, [None] for NULL.  The result is the
    attribute and the return code; reading the pointer at a type it does not
    have is undefined. *)
Definition orte_attr_load (kv : orte_attribute_t) (data : option attr_data) (type : Z)
    : option (orte_attribute_t * Z) :=
  let set d := mk_attr (attr_key kv) (attr_local kv) type d in
  match data with
  | None => Some (set (zero_data type), OPAL_SUCCESS)
  | Some d =>
    if negb (supported type) then Some (set (attr_value kv), OPAL_ERR_NOT_SUPPORTED) else
    if member_of type d then Some (set (copy_data d), OPAL_SUCCESS) else None
  end.

(** [storage] says that [*data] points to storage of the caller; the value is what
    is written through [data]. *)
Definition orte_attr_unload (kv : orte_attribute_t) (storage : bool) (type : Z)
    : option (Z * option attr_data) :=
  if negb (type =? attr_type kv) then Some (ORTE_ERR_TYPE_MISMATCH, None) else
  if negb storage && negb (type =? OPAL_STRING) && negb (type =? OPAL_BYTE_OBJECT) && negb (type =? OPAL_PTR)
  then None (* assert(0) *) else
  if negb (supported type) then Some (OPAL_ERR_NOT_SUPPORTED, None)
  else Some (OPAL_SUCCESS, Some (copy_data (attr_value kv))).

Fixpoint orte_get_attribute (attributes : list orte_attribute_t) (key : Z) (storage : bool) (type : Z)
    : option (bool * option attr_data) :=
  match attributes with
  | [] => Some (false, None)
  | kv :: rest =>
    if key =? attr_key kv then
      if negb (attr_type kv =? type) then Some (false, None) else
      '(_, d) ← orte_attr_unload kv storage type; Some (true, d)
    else orte_get_attribute rest key storage type
  end.

(** The attribute as [orte_attr_cons] leaves it, with its key and scope. *)
Definition new_attr (key : Z) (local : bool) : orte_attribute_t := mk_attr key local 0 (D_num 0).

Fixpoint orte_set_attribute (attributes : list orte_attribute_t) (key : Z) (local : bool)
    (data : option attr_data) (type : Z) : option (list orte_attribute_t * Z) :=
  match attributes with
  | [] =>
    '(kv, rc) ← orte_attr_load (new_attr key local) data type;
    Some (if rc =? OPAL_SUCCESS then ([kv], OPAL_SUCCESS) else ([], rc))
  | kv :: rest =>
    if key =? attr_key kv then
      if negb (attr_type kv =? type) then Some (kv :: rest, ORTE_ERR_TYPE_MISMATCH) else
      '(kv', rc) ← orte_attr_load kv data type; Some (kv' :: rest, rc)
    else '(rest', rc) ← orte_set_attribute rest key local data type; Some (kv :: rest', rc)
  end.

Fixpoint orte_remove_attribute (attributes : list orte_attribute_t) (key : Z) : list orte_attribute_t :=
  match attributes with
  | [] => []
  | kv :: rest => if key =? attr_key kv then rest else kv :: orte_remove_attribute rest key
  end.

(** ** Wire format (orte_dt_pack_attr, orte_dt_unpack_attr) *)

Section wire.
Context `{FloatText}.

Definition pack_data (type : Z) (d : attr_data) : M unit :=
  match num_type type with
  | Some T => match d with D_num z => opal_dss_pack_buffer T [z] | _ => undefined end
  | None =>
    if type =? OPAL_BOOL then match d with D_flag b => opal_dss_pack_buffer t_bool [b] | _ => undefined end
    else if type =? OPAL_STRING then match d with D_string s => opal_dss_pack_buffer t_string [s] | _ => undefined end
    else if type =? OPAL_BYTE_OBJECT then match d with D_bo bo => pack_one_byte_object bo | _ => undefined end
    else if type =? OPAL_FLOAT then match d with D_fval f => opal_dss_pack_buffer t_float [f] | _ => undefined end
    else if type =? OPAL_TIMEVAL then match d with D_tv tv => opal_dss_pack_buffer t_timeval [tv] | _ => undefined end
    else if type =? OPAL_PTR then mret tt
    else fail OPAL_ERROR
  end.

Definition pack_one_attr (a : orte_attribute_t) : M unit :=
  _ ← opal_dss_pack_buffer t_uint16 [attr_key a];
  _ ← opal_dss_pack_buffer t_data_type [attr_type a];
  pack_data (attr_type a) (attr_value a).

Definition unpack_member {A} (T : opal_dss_type_info_t A) (f : A → attr_data) : M attr_data :=
  l ← opal_dss_unpack_buffer T 1; v ← only l; mret (f v).

Definition unpack_data (type : Z) : M attr_data :=
  match num_type type with
  | Some T => unpack_member T D_num
  | None =>
    if type =? OPAL_BOOL then unpack_member t_bool D_flag
    else if type =? OPAL_STRING then unpack_member t_string D_string
    else if type =? OPAL_BYTE_OBJECT then bo ← unpack_one_byte_object; mret (D_bo bo)
    else if type =? OPAL_FLOAT then unpack_member t_float D_fval
    else if type =? OPAL_TIMEVAL then unpack_member t_timeval D_tv
    else fail OPAL_ERROR
  end.

(** The scope does not travel: an unpacked attribute has the default one, local. *)
Definition unpack_one_attr : M orte_attribute_t :=
  l ← opal_dss_unpack_buffer t_uint16 1; key ← only l;
  l ← opal_dss_unpack_buffer t_data_type 1; type ← only l;
  d ← unpack_data type;
  mret (mk_attr key true type d).

Definition orte_dt_pack_attr : list orte_attribute_t → M unit := pack_each pack_one_attr.
Definition orte_dt_unpack_attr : Z → M (list orte_attribute_t) := unpack_each unpack_one_attr.

Definition OPAL_DSS_ID_DYNAMIC : Z := 100.
Definition ORTE_ATTRIBUTE : Z := OPAL_DSS_ID_DYNAMIC + 17.
Definition t_attr : opal_dss_type_info_t orte_attribute_t :=
  mk_info ORTE_ATTRIBUTE orte_dt_pack_attr orte_dt_unpack_attr.

(** ** What the wire format keeps *)

Definition num_range (type z : Z) : Prop :=
  if type =? OPAL_BYTE then in_u 8 z
  else if type =? OPAL_SIZE then in_u 64 z
  else if type =? OPAL_PID then 0 ≤ z ≤ INT_MAX
  else if type =? OPAL_INT then in_s 32 z
  else if type =? OPAL_INT8 then in_s 8 z
  else if type =? OPAL_INT16 then in_s 16 z
  else if type =? OPAL_INT32 then in_s 32 z
  else if type =? OPAL_INT64 then in_s 64 z
  else if type =? OPAL_UINT then 0 ≤ z ≤ INT_MAX
  else if type =? OPAL_UINT8 then in_u 8 z
  else if type =? OPAL_UINT16 then in_u 16 z
  else if type =? OPAL_UINT32 then in_u 32 z
  else if type =? OPAL_UINT64 then in_u 64 z
  else in_u 32 z.

Lemma num_codec type T : num_type type = Some T → Codec T (num_range type).
Proof.
  unfold num_type, num_range.
  repeat match goal with
  | |- (if ?b then _ else _) = _ → _ => destruct b; [intros [= <-]; apply _|]
  end. done.
Qed.

Definition valid_data (type : Z) (d : attr_data) : Prop :=
  member_of type d = true ∧
  match d with
  | D_num z => num_range type z
  | D_string s => valid_string s
  | D_bo bo => valid_bo bo
  | D_fval f => valid_float f
  | D_tv tv => in_s 64 (tv_sec tv) ∧ in_s 64 (tv_usec tv)
  | D_flag _ => True
  | D_ptr _ => False
  end.

Definition valid_attr (a : orte_attribute_t) : Prop :=
  in_u 16 (attr_key a) ∧ in_u 8 (attr_type a) ∧ valid_data (attr_type a) (attr_value a).

Lemma codec_data d type v : valid_data type v →
  ∃ bs, packs d (pack_data type v) bs ∧ unpacks d (unpack_data type) bs v.
Proof.
  unfold valid_data, pack_data, unpack_data, unpack_member, member_of. intros [Hm Hv].
  destruct (num_type type) as [T|] eqn:HT.
  { destruct v; try (apply Z.eqb_eq in Hm; subst type; done).
    destruct (one_value T (num_range type) d z) as (bs & Hp & Hu); [by apply num_codec|done|].
    exists (bs ++ []). rewrite app_nil_r at 1. split; [done|]. apply Hu, unpacks_ret. }
  destruct v; try done; apply Z.eqb_eq in Hm; subst type; cbn.
  - destruct (one_value t_bool (λ _, True) d b) as (bs & Hp & Hu); [apply _|done|].
    exists (bs ++ []). rewrite app_nil_r at 1. split; [done|]. apply Hu, unpacks_ret.
  - destruct (one_value t_string valid_string d s) as (bs & Hp & Hu); [apply _|done|].
    exists (bs ++ []). rewrite app_nil_r at 1. split; [done|]. apply Hu, unpacks_ret.
  - destruct (codec_one_byte_object d bo Hv) as (bs & Hp & Hu).
    exists bs. split; [done|]. by apply unpacks_bind_ret.
  - destruct (one_value t_float valid_float d f) as (bs & Hp & Hu); [apply _|done|].
    exists (bs ++ []). rewrite app_nil_r at 1. split; [done|]. apply Hu, unpacks_ret.
  - destruct (one_value t_timeval _ d tv codec_timeval Hv) as (bs & Hp & Hu).
    exists (bs ++ []). rewrite app_nil_r at 1. split; [done|]. apply Hu, unpacks_ret.
Qed.

(** The attribute as its receiver sees it. *)
Definition received (a : orte_attribute_t) : orte_attribute_t :=
  mk_attr (attr_key a) true (attr_type a) (attr_value a).

Lemma codec_one_attr d a : valid_attr a →
  ∃ bs, packs d (pack_one_attr a) bs ∧ unpacks d unpack_one_attr bs (received a).
Proof.
  intros (Hk & Ht & Hv).
  destruct (one_value t_uint16 (in_u 16) d (attr_key a)) as (x & Hx & Hx'); [apply _|done|].
  destruct (one_value t_data_type (in_u 8) d (attr_type a)) as (y & Hy & Hy'); [apply _|done|].
  destruct (codec_data d _ _ Hv) as (z & Hz & Hz'). exists (x ++ y ++ z). split.
  - apply packs_bind; [done|by apply packs_bind].
  - apply Hx', Hy'. by apply (unpacks_bind_ret d _ (mk_attr (attr_key a) true (attr_type a))).
Qed.
End wire.

Lemma stays_num_type type T : num_type type = Some T → Stays T.
Proof.
  unfold num_type.
  repeat match goal with
  | |- (if ?b then _ else _) = _ → _ => destruct b; [intros [= <-]; apply _|]
  end. done.
Qed.

Lemma stays_member {A} (T : opal_dss_type_info_t A) (f : A → attr_data) : Stays T → stays (unpack_member T f).
Proof.
  intros HT. apply stays_bind; [apply stays_buffer; [done|by unfold int32_range]|]. intros l.
  apply stays_bind; auto with stays.
Qed.

#[export] Instance stays_t_attr `{FloatText} : Stays t_attr.
Proof.
  intros n Hn. apply stays_times. repeat (apply stays_bind; [first [apply stays_only|apply stays_buffer; [apply _|by unfold int32_range]]|intros ?]).
  apply stays_bind; [|auto with stays]. unfold unpack_data.
  destruct (num_type _) eqn:E; [by eapply stays_member, stays_num_type|].
  repeat (destruct (_ =? _); [first [apply stays_member, _|idtac]|]); [|apply stays_fail].
  apply stays_bind; [apply stays_one_byte_object|auto with stays].
Qed.

(** ** Theorems *)

Lemma copy_data_idemp d : copy_data (copy_data d) = copy_data d.
Proof. destruct d as [| | |bo| | |]; try done. simpl. destruct (0 <? bo_size bo) eqn:E; simpl; by rewrite ?E. Qed.

Lemma attr_unload_loaded kv type d : attr_type kv = type → attr_value kv = copy_data d →
  supported type = true → orte_attr_unload kv true type = Some (OPAL_SUCCESS, Some (copy_data d)).
Proof.
  intros Ht Hv Hs. unfold orte_attr_unload. by rewrite Ht, Hv, Z.eqb_refl, Hs, copy_data_idemp.
Qed.

Lemma attr_load_ok kv d type : supported type = true → member_of type d = true →
  orte_attr_load kv (Some d) type = Some (mk_attr (attr_key kv) (attr_local kv) type (copy_data d), OPAL_SUCCESS).
Proof. intros Hs Hm. unfold orte_attr_load. by rewrite Hs, Hm. Qed.

(** Setting an attribute and reading it at the same type gives the value that was
    set; the other attributes, their order and their values are untouched; an
    attribute that exists at another type is never overwritten. *)
Theorem orte_set_get_attribute l key local d type :
  supported type = true → member_of type d = true →
  ∃ l' rc, orte_set_attribute l key local (Some d) type = Some (l', rc) ∧
  filter (λ a, attr_key a ≠ key) l' = filter (λ a, attr_key a ≠ key) l ∧
  (∀ k st ty, k ≠ key → orte_get_attribute l' k st ty = orte_get_attribute l k st ty) ∧
  ((rc = OPAL_SUCCESS ∧ orte_get_attribute l' key true type = Some (true, Some (copy_data d))) ∨
   (rc = ORTE_ERR_TYPE_MISMATCH ∧ l' = l ∧ ∃ a, a ∈ l ∧ attr_key a = key ∧ attr_type a ≠ type)).
Proof.
  intros Hs Hm. induction l as [|kv l IH]; cbn [orte_set_attribute].
  - rewrite attr_load_ok by done. eexists _, _. split; [reflexivity|]. cbn [attr_key].
    split_and!.
    + by rewrite filter_cons_False by (cbn; tauto).
    + intros k st ty Hk. cbn. by destruct (Z.eqb_spec k key).
    + left. split; [done|]. cbn [orte_get_attribute attr_key attr_type new_attr].
      rewrite !Z.eqb_refl. cbn [negb]. by rewrite (attr_unload_loaded _ type d).
  - destruct (Z.eqb_spec key (attr_key kv)) as [->|Hne].
    + destruct (Z.eqb_spec (attr_type kv) type) as [Ht|Ht]; cbn [negb].
      * rewrite attr_load_ok by done. eexists _, _. split; [reflexivity|]. split_and!.
        -- by rewrite !filter_cons_False by (cbn; tauto).
        -- intros k st ty Hk. cbn. by destruct (Z.eqb_spec k (attr_key kv)).
        -- left. split; [done|]. cbn [orte_get_attribute attr_key attr_type].
           rewrite !Z.eqb_refl. cbn [negb]. by rewrite (attr_unload_loaded _ type d).
      * eexists _, _. split; [reflexivity|]. split_and!; try done. right.
        split_and!; try done. exists kv. split_and!; [constructor|done|done].
    + destruct IH as (l' & rc & -> & Hf & Hg & Hr). eexists _, _. split; [reflexivity|]. split_and!.
      * by rewrite !filter_cons_True, Hf by congruence.
      * intros k st ty Hk. cbn. by rewrite Hg.
      * destruct Hr as [[-> Hr]|(-> & -> & a & Ha & ? & ?)]; [left|right].
        -- split; [done|]. cbn. by destruct (Z.eqb_spec key (attr_key kv)).
        -- split_and!; try done. exists a. split_and!; [by constructor|done|done].
Qed.

Lemma orte_set_get_attribute_witness :
  ∃ l', orte_set_attribute [mk_attr 4 true OPAL_STRING (D_string None)] 7 false (Some (D_num 250)) OPAL_INT32
          = Some (l', OPAL_SUCCESS) ∧
        orte_get_attribute l' 7 true OPAL_INT32 = Some (true, Some (D_num 250)).
Proof.
  destruct (orte_set_get_attribute [mk_attr 4 true OPAL_STRING (D_string None)] 7 false (D_num 250) OPAL_INT32)
    as (l' & rc & E & _ & _ & [[-> Hg]|(_ & _ & a & Ha & Hk & _)]); [done|done| |].
  - exists l'. by split.
  - apply list_elem_of_singleton in Ha as ->. done.
Defined.

(** An attribute that points into the sender's memory is packed without complaint
    and cannot be unpacked: the receiver stops with an error at it, in either kind
    of buffer. *)
Theorem orte_attr_ptr_not_received `{FloatText} d :
  ∃ b1 b2, pack_one_attr (mk_attr 7 false OPAL_PTR (D_ptr 1)) (mk_buf d [] 0 0) = Some (b1, inr tt) ∧
           unpack_one_attr b1 = Some (b2, inl OPAL_ERROR).
Proof. destruct d; do 2 eexists; split; reflexivity. Qed.

End Attr.
