(* ===== verification/Heartbeat.v ===== *)
(** * Heartbeats (orcm/mca/sensor/heartbeat/sensor_heartbeat.c)

    The heartbeat is the module of the lowest priority: it sends what the modules before it
    put into the bucket.  The receiver counts the beats of each daemon, when it has a list of
    daemons, and hands each record of the message to the module that logs it.

    The main theorem follows the records of sensors from the thread that collects them, over
    the cache, the bucket and the message, to the log function of the receiver. *)

From Stdlib Require Import ZArith Lia Ascii.
From stdpp Require Import prelude numbers strings gmap list.
From S2P Require Import Prelude CString Dss Fields DssBuffer Names Attr Sensor SensorSpec.

Local Open Scope Z_scope.

Module Heartbeat.
Import Dss Fields DssBuffer Names Attr Sensor SensorSpec.

Definition ORTE_PROC_NBEATS : Z := 300 + 14.
Definition ORTE_PROC_STATE_RUNNING : Z := 4.
Definition ORTE_PROC_STATE_HEARTBEAT_FAILED : Z := 50 + 9.

(** ** Data *)

Record orte_proc_t := mk_proc { proc_name : opal_process_name_t; proc_state : Z; attributes : list orte_attribute_t }.

(** The static variables of the file; [daemons] is NULL except on the head node. *)
Record heartbeat_t := mk_heartbeat {
  daemons : option (list (option orte_proc_t));
  check_active : bool;
  check_time : Z;
}.

(** The process: whether it is coming up or going down, its name and its kind, and the names
    of its daemon and of the head node. *)
Record process_t := mk_process {
  closing : bool;
  my_name : opal_process_name_t;
  is_cm : bool;
  my_daemon : opal_process_name_t;
  my_hnp : opal_process_name_t;
}.

(** ** The module *)

Definition init (hnp : bool) (job : list (option orte_proc_t)) (h : heartbeat_t) : heartbeat_t * Z :=
  (if hnp then mk_heartbeat (Some job) (check_active h) (check_time h) else h, ORCM_SUCCESS).

Definition finalize (h : heartbeat_t) : heartbeat_t := mk_heartbeat (daemons h) false (check_time h).

(** An overflow of the product is undefined. *)
Definition start (rate : Z) (h : heartbeat_t) : option heartbeat_t :=
  match daemons h with
  | Some _ =>
    if check_active h then Some h
    else if (INT_MIN <=? 3 * rate) && (3 * rate <=? INT_MAX) then Some (mk_heartbeat (daemons h) true (3 * rate)) else None
  | None => Some h
  end.

Definition target (p : process_t) : opal_process_name_t := if is_cm p then my_daemon p else my_hnp p.

Definition defined (n : opal_process_name_t) : bool :=
  negb (ORTE_JOBID_INVALID =? jobid n) && negb (ORTE_VPID_INVALID =? vpid n).

(** The bucket and the messages to the target. *)
Definition sample (p : process_t) (log : bool) (bucket : opal_buffer_t) : opal_buffer_t * list opal_buffer_t :=
  if closing p then (bucket, []) else
  if negb (defined (target p)) then (bucket, []) else
  if log then (new_buffer, [(opal_dss_copy_payload new_buffer bucket).1]) else (bucket, [new_buffer]).

Definition orcm_sensor_heartbeat_module (p : process_t) (log : bool) : orcm_sensor_base_module_t :=
  mk_sensor_module (Some ORCM_SUCCESS) true true false (Some (sample p log)) false None None None None.

Definition mca_sensor_heartbeat_component (p : process_t) (log : bool) : orcm_sensor_base_component_t :=
  mk_sensor_component (lit "heartbeat") (lit "heartbeat") (Some (Some (orcm_sensor_heartbeat_module p log), 5)).

(** ** Counting beats *)

(** The number of beats.  The pointer that is passed on is made of the bytes of [beats], all
    zero, and the bytes behind it: when there is such an attribute the value is written
    through it, which is undefined; without the attribute nothing is written. *)
Definition get_beats (attrs : list orte_attribute_t) : option Z :=
  '(_, v) ← orte_get_attribute attrs ORTE_PROC_NBEATS false OPAL_INT32;
  Some (match v with Some (D_num z) => z | _ => 0 end).

Definition set_beats (n : Z) (attrs : list orte_attribute_t) : option (list orte_attribute_t) :=
  '(attrs, _) ← orte_set_attribute attrs ORTE_PROC_NBEATS true (Some (D_num n)) OPAL_INT32; Some attrs.

(** The loop over the daemons: the daemons whose failure is activated. *)
Fixpoint check_loop (me : Z) (procs : list (option orte_proc_t)) : option (list (option orte_proc_t) * list opal_process_name_t) :=
  match procs with
  | [] => Some ([], [])
  | None :: rest => '(l, failed) ← check_loop me rest; Some (None :: l, failed)
  | Some proc :: rest =>
    if (vpid (proc_name proc) =? me) || negb (proc_state proc =? ORTE_PROC_STATE_RUNNING)
    then '(l, failed) ← check_loop me rest; Some (Some proc :: l, failed)
    else
      beats ← get_beats (attributes proc);
      attrs ← set_beats 0 (attributes proc);
      '(l, failed) ← check_loop me rest;
      Some (Some (mk_proc (proc_name proc) (proc_state proc) attrs) :: l,
            if beats =? 0 then proc_name proc :: failed else failed)
  end.

(** The timer is only set while there is a list of daemons. *)
Definition check_heartbeat (p : process_t) (h : heartbeat_t) : option (heartbeat_t * list opal_process_name_t) :=
  if closing p then Some (mk_heartbeat (daemons h) false (check_time h), []) else
  procs ← daemons h;
  '(l, failed) ← check_loop (vpid (my_name p)) procs;
  Some (mk_heartbeat (Some l) (check_active h) (check_time h), failed).

Definition mark_beat (sender : opal_process_name_t) (h : heartbeat_t) : option heartbeat_t :=
  match daemons h with
  | None => Some h
  | Some procs =>
    match procs !! Z.to_nat (vpid sender) with
    | Some (Some proc) =>
      beats ← get_beats (attributes proc);
      attrs ← set_beats (beats + 1) (attributes proc);
      let state := if proc_state proc =? ORTE_PROC_STATE_HEARTBEAT_FAILED then ORTE_PROC_STATE_RUNNING else proc_state proc in
      Some (mk_heartbeat (Some (<[Z.to_nat (vpid sender) := Some (mk_proc (proc_name proc) state attrs)]> procs))
              (check_active h) (check_time h))
    | _ => Some h
    end
  end.

(** ** Receiving *)

(** What is logged: the module that gets it, if any, and the buffer behind the name of the
    component. *)
Fixpoint log_records (fuel : nat) (st : orcm_sensor_base_t) (b : opal_buffer_t) : option (list (option nat * opal_buffer_t)) :=
  match fuel with
  | O => None
  | S fuel =>
    '(b, r) ← unpack1 t_buffer b;
    match r with
    | inl _ => Some []
    | inr buf =>
      '(buf, c) ← unpack1 t_string buf;
      match c with
      | inl _ => Some []
      | inr comp => l ← log_records fuel st b; Some ((orcm_sensor_base_log comp st, buf) :: l)
      end
    end
  end.

Definition recv_beats (p : process_t) (sender : opal_process_name_t) (buffer : opal_buffer_t) (st : orcm_sensor_base_t)
    (h : heartbeat_t) : option (heartbeat_t * list (option nat * opal_buffer_t)) :=
  if closing p then Some (h, []) else
  h ← mark_beat sender h;
  l ← log_records (S (length (base buffer))) st buffer;
  Some (h, l).

(** ** Beats are counted once *)

(** The first beat of a daemon is counted; its second beat, and the next check while it runs,
    are undefined. *)
Theorem second_beat_undefined p sender h procs proc st :
  closing p = false → daemons h = Some procs → procs !! Z.to_nat (vpid sender) = Some (Some proc) →
  ORTE_PROC_NBEATS ∉ attr_key <$> attributes proc →
  ∃ h', (∀ b l, log_records (S (length (base b))) st b = Some l → recv_beats p sender b st h = Some (h', l)) ∧
        ∀ b, recv_beats p sender b st h' = None.
Proof.
  intros Hc Hd Hp Hn.
  assert (∀ attrs storage, ORTE_PROC_NBEATS ∉ attr_key <$> attrs → orte_get_attribute attrs ORTE_PROC_NBEATS storage OPAL_INT32 = Some (false, None)) as Hg.
  { intros attrs sto. induction attrs as [|a attrs IH]; intros Ha; [done|]. cbn [orte_get_attribute]. cbn [fmap list_fmap] in Ha.
    apply not_elem_of_cons in Ha as [H1 H2]. destruct (Z.eqb_spec ORTE_PROC_NBEATS (attr_key a)); [done|by apply IH]. }
  assert (∀ attrs n, ORTE_PROC_NBEATS ∉ attr_key <$> attrs →
    ∃ attrs', set_beats n attrs = Some attrs' ∧ orte_get_attribute attrs' ORTE_PROC_NBEATS false OPAL_INT32 = None) as Hs.
  { intros attrs n. induction attrs as [|a attrs IH]; intros Ha; [by eexists|]. cbn [fmap list_fmap] in Ha.
    apply not_elem_of_cons in Ha as [H1 H2]. destruct (IH H2) as (attrs' & E1 & E2). unfold set_beats in *. cbn [orte_set_attribute].
    destruct (Z.eqb_spec ORTE_PROC_NBEATS (attr_key a)) as [|Hne]; [done|].
    destruct (orte_set_attribute attrs _ _ _ _) as [[l rc]|]; [|done]. cbn in E1. injection E1 as ->. eexists. split; [done|].
    cbn [orte_get_attribute]. by destruct (Z.eqb_spec ORTE_PROC_NBEATS (attr_key a)). }
  destruct (Hs (attributes proc) (0 + 1) Hn) as (attrs' & E1 & E2).
  assert (∃ h', mark_beat sender h = Some h' ∧ ∃ procs' proc', daemons h' = Some procs' ∧ procs' !! Z.to_nat (vpid sender) = Some (Some proc') ∧
    attributes proc' = attrs') as (h' & Em & procs' & proc' & Hd' & Hp' & Ha').
  { unfold mark_beat, get_beats. rewrite Hd, Hp, Hg by done. cbn [mbind option_bind]. rewrite E1. cbn [mbind option_bind].
    eexists. split; [done|]. eexists _, _. split; [done|]. rewrite list_lookup_insert_eq by (by eapply lookup_lt_Some). split; [done|done]. }
  exists h'. unfold recv_beats. rewrite Hc, Em. split; intros b; [by intros l ->|].
  unfold mark_beat, get_beats. by rewrite Hd', Hp', Ha', E2.
Qed.

(** ** Records on their way *)

(** What a sensor reports: the name of its component and its data. *)
Definition record : Type := cstring * list Z.

Definition bytes_of (m : M unit) : list Z := match m new_buffer with Some (b, inr _) => base b | _ => [] end.

Lemma bytes_of_packs m bs : packs false m bs → bytes_of m = bs.
Proof. intros Hm. unfold bytes_of. by destruct (Hm new_buffer eq_refl) as (b & -> & _ & -> & _). Qed.

(** The buffer of a record begins with the name; in a bucket it is packed as a buffer. *)
Definition name_bytes (r : record) : list Z := bytes_of (opal_dss_pack t_string [Some r.1]).
Definition record_buf (r : record) : opal_buffer_t :=
  let bs := name_bytes r ++ r.2 in mk_buf false bs 0 (Z.of_nat (length bs)).
Definition record_wire (r : record) : list Z := bytes_of (opal_dss_pack t_buffer [record_buf r]).
Definition wire (rs : list record) : list Z := concat (record_wire <$> rs).

Definition valid_record (r : record) : Prop := valid_string (Some r.1) ∧ bytes_used (record_buf r) ≤ INT_MAX.

(** What the receiver does with a record. *)
Definition logged (st : orcm_sensor_base_t) (r : record) : option nat * opal_buffer_t :=
  (orcm_sensor_base_log (Some r.1) st, skip (record_buf r) (length (name_bytes r))).

Lemma wire_app rs1 rs2 : wire (rs1 ++ rs2) = wire rs1 ++ wire rs2.
Proof. unfold wire. by rewrite fmap_app, concat_app. Qed.

Lemma record_unpacks r : valid_record r → unpacks false (unpack1 t_buffer) (record_wire r) (record_buf r).
Proof.
  intros [_ Hr]. destruct (meets_dss t_buffer false (record_buf r) (received_buffer (record_buf r))) as (x & Px & Ux).
  { apply (carries_buffers false [record_buf r]). by apply Forall_singleton. }
  unfold record_wire. by rewrite (bytes_of_packs _ _ Px).
Qed.

Lemma record_name r : valid_record r →
  unpack1 t_string (record_buf r) = Some (skip (record_buf r) (length (name_bytes r)), inr (Some r.1)).
Proof.
  intros [Hs _]. destruct (meets_value t_string valid_string false (Some r.1) codec_string Hs) as (x & Px & Ux).
  assert (name_bytes r = x) as En by (by apply bytes_of_packs). rewrite En.
  apply (Ux (record_buf r) r.2); [done|]. split; [cbn; lia|]. unfold remaining, record_buf. cbn. by rewrite En.
Qed.

Lemma record_wire_nonempty r : valid_record r → (1 ≤ length (record_wire r))%nat.
Proof.
  intros Hr. pose proof (record_unpacks r Hr) as Hu. destruct (record_wire r) as [|z l] eqn:E; [|cbn; lia].
  assert (ahead new_buffer []) as Ha by (by apply holds_ahead). pose proof (ahead_end t_buffer new_buffer Ha) as E1.
  destruct Ha as [Hd Hrd]. specialize (Hu new_buffer [] Hd Hrd). congruence.
Qed.

Lemma wire_length rs : Forall valid_record rs → (length rs ≤ length (wire rs))%nat.
Proof.
  induction 1 as [|r rs Hr _ IH]; [done|]. pose proof (record_wire_nonempty r Hr). unfold wire in *. cbn. rewrite length_app. lia.
Qed.

Lemma log_records_all st rs : Forall valid_record rs → ∀ fuel b, (length rs < fuel)%nat → ahead b (wire rs) →
  log_records fuel st b = Some (logged st <$> rs).
Proof.
  induction 1 as [|r rs Hr _ IH]; intros fuel b Hf Hb; (destruct fuel as [|fuel]; [cbn in Hf; lia|]); cbn [log_records].
  - by rewrite (ahead_end t_buffer b Hb).
  - unfold wire in Hb. cbn [fmap list_fmap concat] in Hb. destruct (ahead_unpack b _ _ _ _ Hb (record_unpacks r Hr)) as [E Hb'].
    rewrite E. cbn [mbind option_bind]. rewrite (record_name r Hr). cbn [mbind option_bind].
    rewrite (IH fuel); [done|cbn in Hf; lia|exact Hb'].
Qed.

(** A whole message of records. *)
Lemma recv_beats_logs p sender msg rs st h : closing p = false → daemons h = None → Forall valid_record rs → holds msg (wire rs) →
  recv_beats p sender (received_buffer msg) st h = Some (h, logged st <$> rs).
Proof.
  intros Hc Hd Hrs Hm. unfold recv_beats, mark_beat. rewrite Hc, Hd. cbn [mbind option_bind].
  apply holds_received in Hm. pose proof Hm as (_ & _ & Eb). rewrite Eb.
  rewrite (log_records_all st rs Hrs); [done| |by apply holds_ahead]. pose proof (wire_length rs Hrs). lia.
Qed.

(** ** From the sensors to the log *)

(** What a daemon does: a thread hands over records, or it is time for the next sample. *)
Inductive activity :=
  | A_collect (rs : list record)
  | A_sample.

Definition xfer_bucket (rs : list record) : opal_buffer_t := mk_buf false (wire rs) 0 (Z.of_nat (length (wire rs))).

(** The sampler that waits for the next sample, and the messages that are sent. *)
Fixpoint live (acts : list activity) (st : orcm_sensor_base_t) (s : orcm_sensor_sampler_t)
    : orcm_sensor_base_t * orcm_sensor_sampler_t * list opal_buffer_t :=
  match acts with
  | [] => (st, s, [])
  | A_collect rs :: rest => live rest (orcm_sensor_base_collect (xfer_bucket rs) st) s
  | A_sample :: rest =>
    let '(st, r, sent) := take_sample st s in
    match r with
    | S_again s _ => let '(st, s, sent') := live rest st s in (st, s, sent ++ sent')
    | _ => (st, s, sent)
    end
  end.

Definition collected (a : activity) : list record := match a with A_collect rs => rs | A_sample => [] end.

(** A module that reports records. *)
Definition reports (f : opal_buffer_t → opal_buffer_t * list opal_buffer_t) : Prop :=
  ∀ b, fully_desc b = false → ∃ rs b', Forall valid_record rs ∧ f b = (b', []) ∧ extended b (wire rs) b'.

(** A daemon that reports: its modules [ms] report records, and the heartbeat is the last. *)
Record reporting (p : process_t) (ms : list orcm_sensor_active_module_t) (st : orcm_sensor_base_t) : Prop := mk_reporting {
  rp_active : mods_active st = true;
  rp_rate : 0 < sample_rate st;
  rp_log : log_samples (params st) = true;
  rp_up : closing p = false ∧ defined (target p) = true;
  rp_modules : ∃ hb k, modules st = (Some <$> ms) ++ Some hb :: replicate k None ∧
    module hb = orcm_sensor_heartbeat_module p (log_samples (params st)) ∧
    ∀ m f, m ∈ ms → sample_fn (module m) = Some f → reports f;
}.

(** A sampler of all modules that waits for its next sample. *)
Definition waiting (s : orcm_sensor_sampler_t) : Prop :=
  sensors s = None ∧ cbfunc s = false ∧ 0 < tv_rate s ∧ holds (bucket s) [].

Lemma nones_sample s k b : sample_modules s (replicate k None) b = (b, []).
Proof. induction k as [|k IH]; [done|exact IH]. Qed.

Lemma modules_report s ms b : sensors s = None → (∀ m f, m ∈ ms → sample_fn (module m) = Some f → reports f) →
  fully_desc b = false →
  ∃ rs b', Forall valid_record rs ∧ extended b (wire rs) b' ∧
    ∀ rest, sample_modules s ((Some <$> ms) ++ rest) b = sample_modules s rest b'.
Proof.
  intros Hs. revert b. induction ms as [|m ms IH]; intros b Hm Hb.
  - exists [], b. split_and!; [constructor|apply extended_refl|done].
  - cbn [fmap list_fmap app sample_modules]. unfold included at 1. rewrite Hs.
    assert (∃ rs b', Forall valid_record rs ∧ extended b (wire rs) b' ∧
      match sample_fn (module m) with Some f => f b | None => (b, []) end = (b', [])) as (rs & b1 & Hrs & Hx & ->).
    { destruct (sample_fn (module m)) as [f|] eqn:E; [|exists [], b; split_and!; [constructor|apply extended_refl|done]].
      destruct (Hm m f ltac:(set_solver) E b Hb) as (rs & b' & ? & ? & ?). by exists rs, b'. }
    destruct (IH b1) as (rs2 & b2 & Hrs2 & Hx2 & E); [intros m' f Hm'; apply Hm; set_solver|destruct Hx; congruence|].
    exists (rs ++ rs2), b2. split_and!; [by apply Forall_app|rewrite wire_app; by eapply extended_trans|].
    intros rest. specialize (E rest). cbn in E |- *. rewrite E. by destruct (sample_modules s rest b2).
Qed.

(** The records the modules report when they are asked in turn, each with the bucket of the one
    before it. *)
Definition reported (ms : list orcm_sensor_active_module_t) (added : list record) : Prop :=
  ∃ s b b', sensors s = None ∧ sample_modules s (Some <$> ms) b = (b', []) ∧ extended b (wire added) b'.

(** One sample: the message holds what was in the cache and what the modules report. *)
Lemma sample_sends p ms st s cached : reporting p ms st → waiting s → Forall valid_record cached → holds (cache st) (wire cached) →
  ∃ st' s' msg added, take_sample st s = (st', S_again s' None, [msg]) ∧ reporting p ms st' ∧ waiting s' ∧
    holds (cache st') [] ∧ holds msg (wire (cached ++ added)) ∧ Forall valid_record added ∧ reported ms added.
Proof.
  intros [Ha Hr Hl [Hup Hdef] (hb & k & Em & Ehb & Hms)] (Hs & Hcb & Ht & Hbd & Hbo & Hb) Hv Hc.
  pose proof Hc as (_ & _ & Ec). unfold take_sample. rewrite Ha. cbn [negb].
  assert (holds (cache st) (base (cache st))) as Hc' by (by rewrite Ec).
  destruct (sweep_moves st s Hc' Hbd) as (st1 & s1 & Esw & Hx & Hc1 & Hm1 & Ha1 & Hcb1 & Hs1 & Ht1 & Hp1).
  assert (sample_rate st1 = sample_rate st) as Hr1 by (unfold sweep in Esw; destruct (0 <? _); by injection Esw as <- <-).
  rewrite Esw, Hm1, Em.
  destruct (modules_report s1 ms (bucket s1)) as (added & b1 & Hadd & Hx1 & Hrest);
    [congruence|done|destruct Hx; congruence|].
  assert (reported ms added) as Hrep.
  { exists s1, (bucket s1), b1. split_and!; [congruence| |done]. rewrite <-(app_nil_r (Some <$> ms)). apply (Hrest []). }
  rewrite Hrest.
  cbn [sample_modules]. unfold included. rewrite Hs1, Hs, Ehb. cbn [orcm_sensor_heartbeat_module sample_fn]. rewrite Hl. unfold sample.
  rewrite Hup, Hdef. cbn [negb]. rewrite nones_sample, Hcb1, Hcb. cbn [app].
  assert (extended (bucket s) (wire (cached ++ added)) b1) as Hx2
    by (rewrite wire_app, <-Ec; by eapply extended_trans).
  destruct Hx2 as (Hd2 & Eb2 & Eo2 & _). rewrite Hb in Eb2. rewrite Hbo in Eo2.
  destruct (copy_payload_extended new_buffer b1) as (Hmd & Hmb & Hmo & _); [cbn; congruence|unfold inside; lia|].
  destruct (Z.ltb_spec 0 (tv_rate s1)); [|lia].
  eexists st1, _, _, added. split; [done|]. split_and!; try done.
  - split; [congruence|lia|by rewrite Hp1|done|]. exists hb, k. split_and!; [congruence|by rewrite Ehb, Hp1|done].
  - split_and!; cbn [sensors cbfunc tv_rate bucket]; [done|done| |done].
    destruct (negb (sample_rate st1 =? 0) && negb (tv_rate s1 =? sample_rate st1)); lia.
  - split_and!; [done|done|]. rewrite Hmb. unfold remaining. by rewrite Eo2, Eb2.
Qed.

(** What was collected before each sample and after the one before it, and what was
    collected after the last; [acc] is in the cache. *)
Fixpoint between (acc : list record) (acts : list activity) : list (list record) * list record :=
  match acts with
  | [] => ([], acc)
  | A_collect rs :: rest => between (acc ++ rs) rest
  | A_sample :: rest => (acc :: (between [] rest).1, (between [] rest).2)
  end.

(** C10. Sensor data reaches the log of the receiver.  A daemon that logs its samples, has a
    target, and whose modules report records, with the heartbeat as the last of them, sends one
    message for each sample, in their order.  A receiver that is not closing and does not
    count beats (every one but the head node) hands the records of a message, one after the other, each to the module
    that logs its component: first what the threads collected since the sample before, all of
    it, then what the modules report.  In the cache there is left what was collected after
    the last sample. *)
Theorem samples_reach_log p ms acts st s cached : reporting p ms st → waiting s → Forall valid_record cached →
  holds (cache st) (wire cached) → Forall (λ a, Forall valid_record (collected a)) acts →
  ∃ st' s' sent, live acts st s = (st', s', sent) ∧ holds (cache st') (wire (between cached acts).2) ∧
    Forall2 (λ msg part, ∃ added, reported ms added ∧
        ∀ receiver sender log h, closing receiver = false → daemons h = None →
        recv_beats receiver sender (received_buffer msg) log h = Some (h, logged log <$> part ++ added))
      sent (between cached acts).1.
Proof.
  revert st s cached. induction acts as [|[rs|] acts IH]; intros st s cached Hst Hs Hv Hc Hacts; cbn [live between].
  - exists st, s, []. split_and!; [done|done|constructor].
  - apply Forall_cons in Hacts as [Hrs Hacts]. destruct Hc as (Hcd & Hco & Hcb). cbn in Hrs.
    destruct (copy_payload_extended (cache st) (xfer_bucket rs)) as (Ed & Eb & Eo & _); [cbn; congruence|unfold inside; cbn; lia|].
    apply IH; try done.
    + by destruct Hst as [? ? ? ? ?]; split.
    + by apply Forall_app.
    + unfold holds. cbn [orcm_sensor_base_collect set_cache cache]. rewrite wire_app. split_and!; [congruence|congruence|].
      by rewrite Eb, Hcb.
  - apply Forall_cons in Hacts as [_ Hacts].
    destruct (sample_sends p ms st s cached Hst Hs Hv Hc) as (st1 & s1 & msg & added & -> & Hst1 & Hs1 & Hc1 & Hmsg & Hadd & Hrep).
    destruct (IH st1 s1 []) as (st' & s' & sent & -> & Hl & HF); [done|done|constructor|done|done|].
    exists st', s', (msg :: sent). split_and!; [done|done|]. constructor; [|done]. exists added. split; [done|].
    intros receiver sender log h Hcl Hdm. apply recv_beats_logs; [done|done|by apply Forall_app|done].
Qed.

(** A module that packs a record into the bucket, as the sensors do. *)
Definition report (r : record) (b : opal_buffer_t) : opal_buffer_t * list opal_buffer_t :=
  (match opal_dss_pack t_buffer [record_buf r] b with Some (b', _) => b' | None => b end, []).

Lemma report_reports r : valid_record r → reports (report r).
Proof.
  intros Hr b Hb. destruct (meets_dss t_buffer false (record_buf r) (received_buffer (record_buf r))) as (x & Px & _).
  { apply (carries_buffers false [record_buf r]), Forall_singleton, Hr. }
  destruct (Px b Hb) as (b' & E & Hx). exists [r], b'. split_and!; [by apply Forall_singleton| |].
  - unfold report. by rewrite E.
  - unfold wire, record_wire. cbn. by rewrite (bytes_of_packs _ _ Px), app_nil_r.
Qed.

Definition temperature : record := (lit "coretemp", [0; 0; 0; 55]).
Definition frequency : record := (lit "freq", [0; 12]).
Definition sample_process : process_t := mk_process false (mk_name 0 1) true (mk_name 0 0) (mk_name 0 0).
Definition coretemp_module : orcm_sensor_active_module_t :=
  mk_active (sample_component "coretemp" "coretemp" ok_module 50)
    (mk_sensor_module None true true true (Some (report temperature)) true None None None None) 50 true 0.
Definition sample_daemon : orcm_sensor_base_t :=
  mk_sensor_base (mk_params true true false false) true
    [Some coretemp_module;
     Some (mk_active (mca_sensor_heartbeat_component sample_process true) (orcm_sensor_heartbeat_module sample_process true) 5 true 0);
     None]
    5 new_buffer [] (-1) false true true true.

Lemma samples_reach_log_witness :
  ∃ st' s' msg, live [A_collect [frequency]; A_sample; A_collect [temperature]] sample_daemon (mk_sampler None 5 new_buffer false) =
      (st', s', [msg]) ∧ holds (cache st') (wire [temperature]) ∧
    ∃ added, ∀ log, recv_beats sample_process (mk_name 0 1) (received_buffer msg) log (mk_heartbeat None false 0) =
      Some (mk_heartbeat None false 0, logged log <$> frequency :: added).
Proof.
  assert (valid_record frequency) as Hf by (vm_compute; repeat constructor; discriminate).
  assert (valid_record temperature) as Ht by (vm_compute; repeat constructor; discriminate).
  destruct (samples_reach_log sample_process [coretemp_module] [A_collect [frequency]; A_sample; A_collect [temperature]] sample_daemon
    (mk_sampler None 5 new_buffer false) []) as (st' & s' & sent & E & Hl & HF).
  - split; [reflexivity|reflexivity|reflexivity|split; reflexivity|].
    eexists _, 1%nat. split; [reflexivity|]. split; [reflexivity|].
    intros m f Hm%list_elem_of_singleton. subst m. intros Hsf. injection Hsf as <-. apply report_reports, Ht.
  - repeat split; reflexivity.
  - constructor.
  - repeat split; reflexivity.
  - repeat (apply Forall_cons_2; [cbn; repeat (apply Forall_cons_2; [assumption|]); apply Forall_nil_2|]). apply Forall_nil_2.
  - cbn [between app fst snd] in HF, Hl. inversion HF as [|msg part sent' parts' (added & _ & Hrb) Hnil]; subst. inversion Hnil; subst.
    exists st', s', msg. split; [exact E|]. split; [exact Hl|]. exists added. intros log. by apply Hrb.
Defined.

End Heartbeat.
