(* ===== verification/CfgiDt.v ===== *)
(** * The objects of a configuration (cfgi_types.h, cfgi_base_frame.c, cfgi_dt_fns.c)

    A cluster has rows, a row racks, a rack nodes; each of them has a controller, which is
    a node too.  The wire format and the comparison of these objects and of the
    schedulers.  An object holds its members: [opal_list_t] fields are lists, and the
    pointers to the enclosing object ([rack], [row], [cluster]) are references. *)

From Stdlib Require Import ZArith Lia Ascii.
From stdpp Require Import prelude numbers strings gmap list.
From S2P Require Import Prelude CString Argv Dss Names Fields Attr.

Local Open Scope Z_scope.

Module CfgiDt.
Import Argv Dss Names Fields.

Record orcm_config_t := mk_config {
  mca_params : argv_t;
  env : argv_t;
  port : option cstring;
  aggregator : bool;
}.

Record orcm_node_t := mk_node {
  node_name : option cstring;
  node_rack : option nat;
  daemon : opal_process_name_t;
  config : orcm_config_t;
  state : Z;
  scd_state : Z;
  npes : Z;
  topology : option nat;
}.

Record orcm_rack_t := mk_rack {
  rack_name : option cstring;
  rack_row : option nat;
  rack_controller : orcm_node_t;
  nodes : list orcm_node_t;
}.

Record orcm_row_t := mk_row {
  row_name : option cstring;
  row_cluster : option nat;
  row_controller : orcm_node_t;
  racks : list orcm_rack_t;
}.

Record orcm_cluster_t := mk_cluster {
  cluster_name : option cstring;
  cluster_controller : orcm_node_t;
  rows : list orcm_row_t;
}.

Record orcm_scheduler_t := mk_scheduler {
  sched_controller : orcm_node_t;
  queues : argv_t;
}.

(** ** Constructors (cfgi_base_frame.c) *)

Definition ORCM_NODE_STATE_UNDEF : Z := 0.
Definition ORCM_SCD_NODE_STATE_UNDEF : Z := 0.

Definition cfg_cons : orcm_config_t := mk_config None None None false.
Definition nd_con : orcm_node_t :=
  mk_node None None ORTE_NAME_INVALID cfg_cons ORCM_NODE_STATE_UNDEF ORCM_SCD_NODE_STATE_UNDEF 0 None.
Definition rk_con : orcm_rack_t := mk_rack None None nd_con [].
Definition row_con : orcm_row_t := mk_row None None nd_con [].
Definition cl_con : orcm_cluster_t := mk_cluster None nd_con [].
Definition sc_con : orcm_scheduler_t := mk_scheduler nd_con None.

(** ** Packing *)

(** The count of an argv and its strings, one by one. *)
Definition pack_argv (argv : argv_t) : M unit :=
  let k := opal_argv_count argv in
  _ ← opal_dss_pack_buffer t_int32 [k];
  if 0 <? k then pack_each (λ s, opal_dss_pack_buffer t_string [Some s]) (default [] argv) else mret tt.

Definition pack_config (config : orcm_config_t) : M unit :=
  _ ← pack_argv (mca_params config);
  _ ← pack_argv (env config);
  _ ← opal_dss_pack_buffer t_string [port config];
  opal_dss_pack_buffer t_bool [aggregator config].

Definition pack_one_node (node : orcm_node_t) : M unit :=
  _ ← opal_dss_pack_buffer t_string [node_name node];
  _ ← opal_dss_pack_buffer t_name [daemon node];
  _ ← pack_config (config node);
  _ ← opal_dss_pack_buffer t_int8 [state node];
  opal_dss_pack_buffer t_int8 [scd_state node].

Definition orcm_pack_node : list orcm_node_t → M unit := pack_each pack_one_node.

(** ** Unpacking *)

(** [opal_argv_append_nosize] copies its argument with [strdup]: no NULL there. *)
Fixpoint unpack_append (n : nat) (argv : argv_t) : M argv_t :=
  match n with
  | O => mret argv
  | S n' =>
      tmp ← unpack_field t_string;
      match tmp with
      | None => undefined
      | Some s => unpack_append n' (append argv s)
      end
  end.

Definition unpack_argv (argv : argv_t) : M argv_t :=
  k ← unpack_field t_int32;
  if 0 <? k then unpack_append (Z.to_nat k) argv else mret argv.

Definition unpack_config (config : orcm_config_t) : M orcm_config_t :=
  v_mca_params ← unpack_argv (mca_params config);
  v_env ← unpack_argv (env config);
  v_port ← unpack_field t_string;
  v_aggregator ← unpack_field t_bool;
  mret (mk_config v_mca_params v_env v_port v_aggregator).

Definition unpack_one_node : M orcm_node_t :=
  v_name ← unpack_field t_string;
  v_daemon ← unpack_field t_name;
  v_config ← unpack_config (config nd_con);
  v_state ← unpack_field t_int8;
  v_scd_state ← unpack_field t_int8;
  mret (mk_node v_name (node_rack nd_con) v_daemon v_config v_state v_scd_state (npes nd_con)
    (topology nd_con)).

Definition orcm_unpack_node : Z → M (list orcm_node_t) := unpack_each unpack_one_node.

Definition ORTE_DSS_ID_DYNAMIC : Z := Attr.OPAL_DSS_ID_DYNAMIC + 50.
Definition ORCM_NODE : Z := ORTE_DSS_ID_DYNAMIC + 2.
Definition t_node : opal_dss_type_info_t orcm_node_t := mk_info ORCM_NODE orcm_pack_node orcm_unpack_node.

(** ** Racks, rows and clusters: a name, a controller and the members *)

(** The size of a list, a [size_t], in an [int32_t], and the members in order. *)
Definition pack_members {A} (T : opal_dss_type_info_t A) (l : list A) : M unit :=
  let j := to_int (Z.of_nat (length l)) in
  _ ← opal_dss_pack_buffer t_int32 [j];
  pack_each (λ x, opal_dss_pack_buffer T [x]) l.

Definition unpack_members {A} (T : opal_dss_type_info_t A) (l : list A) : M (list A) :=
  j ← unpack_field t_int32;
  new ← unpack_each (unpack_field T) j;
  mret (l ++ new).

Definition pack_one_rack (rack : orcm_rack_t) : M unit :=
  _ ← opal_dss_pack_buffer t_string [rack_name rack];
  _ ← opal_dss_pack_buffer t_node [rack_controller rack];
  pack_members t_node (nodes rack).

Definition unpack_one_rack : M orcm_rack_t :=
  v_name ← unpack_field t_string;
  v_controller ← unpack_field t_node;
  v_nodes ← unpack_members t_node (nodes rk_con);
  mret (mk_rack v_name (rack_row rk_con) v_controller v_nodes).

Definition orcm_pack_rack : list orcm_rack_t → M unit := pack_each pack_one_rack.
Definition orcm_unpack_rack : Z → M (list orcm_rack_t) := unpack_each unpack_one_rack.
Definition ORCM_RACK : Z := ORTE_DSS_ID_DYNAMIC + 3.
Definition t_rack : opal_dss_type_info_t orcm_rack_t := mk_info ORCM_RACK orcm_pack_rack orcm_unpack_rack.

Definition pack_one_row (row : orcm_row_t) : M unit :=
  _ ← opal_dss_pack_buffer t_string [row_name row];
  _ ← opal_dss_pack_buffer t_node [row_controller row];
  pack_members t_rack (racks row).

Definition unpack_one_row : M orcm_row_t :=
  v_name ← unpack_field t_string;
  v_controller ← unpack_field t_node;
  v_racks ← unpack_members t_rack (racks row_con);
  mret (mk_row v_name (row_cluster row_con) v_controller v_racks).

Definition orcm_pack_row : list orcm_row_t → M unit := pack_each pack_one_row.
Definition orcm_unpack_row : Z → M (list orcm_row_t) := unpack_each unpack_one_row.
Definition ORCM_ROW : Z := ORTE_DSS_ID_DYNAMIC + 4.
Definition t_row : opal_dss_type_info_t orcm_row_t := mk_info ORCM_ROW orcm_pack_row orcm_unpack_row.

Definition pack_one_cluster (cluster : orcm_cluster_t) : M unit :=
  _ ← opal_dss_pack_buffer t_string [cluster_name cluster];
  _ ← opal_dss_pack_buffer t_node [cluster_controller cluster];
  pack_members t_row (rows cluster).

Definition unpack_one_cluster : M orcm_cluster_t :=
  v_name ← unpack_field t_string;
  v_controller ← unpack_field t_node;
  v_rows ← unpack_members t_row (rows cl_con);
  mret (mk_cluster v_name v_controller v_rows).

Definition orcm_pack_cluster : list orcm_cluster_t → M unit := pack_each pack_one_cluster.
Definition orcm_unpack_cluster : Z → M (list orcm_cluster_t) := unpack_each unpack_one_cluster.
Definition ORCM_CLUSTER : Z := ORTE_DSS_ID_DYNAMIC + 5.
Definition t_cluster : opal_dss_type_info_t orcm_cluster_t :=
  mk_info ORCM_CLUSTER orcm_pack_cluster orcm_unpack_cluster.

(** ** Schedulers *)

Definition pack_one_scheduler (scheduler : orcm_scheduler_t) : M unit :=
  _ ← opal_dss_pack_buffer t_node [sched_controller scheduler];
  let j := opal_argv_count (queues scheduler) in
  _ ← opal_dss_pack_buffer t_int32 [j];
  pack_each (λ s, opal_dss_pack_buffer t_string [Some s]) (default [] (queues scheduler)).

Definition orcm_pack_scheduler : list orcm_scheduler_t → M unit := pack_each pack_one_scheduler.

Definition fill_scheduler (scheduler : orcm_scheduler_t) : M orcm_scheduler_t :=
  v_controller ← unpack_field t_node;
  v_queues ← unpack_argv (queues scheduler);
  mret (mk_scheduler v_controller v_queues).

(** The loop creates all the objects; the fields are read after it, once, into the
    last object created. *)
Definition orcm_unpack_scheduler (num_vals : Z) : M (list orcm_scheduler_t) :=
  match Z.to_nat num_vals with
  | O => fail OPAL_ERR_OUT_OF_RESOURCE
  | S n => scheduler ← fill_scheduler sc_con; mret (replicate n sc_con ++ [scheduler])
  end.

Definition ORCM_SCHEDULER : Z := ORTE_DSS_ID_DYNAMIC + 6.
Definition t_scheduler : opal_dss_type_info_t orcm_scheduler_t :=
  mk_info ORCM_SCHEDULER orcm_pack_scheduler orcm_unpack_scheduler.

(** ** Comparison

    A function compares one field after the other and returns at the first that
    differs: [orelse c k] goes on with [k] when [c] finds no difference. *)

Definition orelse (c : Z) (k : option Z) : option Z := if c =? OPAL_EQUAL then k else Some c.

Definition compare_num (value1 value2 : Z) : Z :=
  if value2 <? value1 then OPAL_VALUE1_GREATER
  else if value1 <? value2 then OPAL_VALUE2_GREATER else OPAL_EQUAL.

Definition sign_of (rc : Z) : Z :=
  if 0 <? rc then OPAL_VALUE1_GREATER else if rc <? 0 then OPAL_VALUE2_GREATER else OPAL_EQUAL.

Definition compare_text (value1 value2 : option cstring) : Z :=
  match value1, value2 with
  | None, None => OPAL_EQUAL
  | Some _, None => OPAL_VALUE1_GREATER
  | None, Some _ => OPAL_VALUE2_GREATER
  | Some s1, Some s2 => sign_of (strcmp s1 s2)
  end.

(** Counts first, then the strings joined with the delimiter 0. *)
Definition compare_argv (value1 value2 : argv_t) : option Z :=
  match value1, value2 with
  | None, None => Some OPAL_EQUAL
  | Some _, None => Some OPAL_VALUE1_GREATER
  | None, Some _ => Some OPAL_VALUE2_GREATER
  | Some _, Some _ =>
      orelse (compare_num (opal_argv_count value1) (opal_argv_count value2))
        (string_comp1 ← opal_argv_join value1 NUL;
         string_comp2 ← opal_argv_join value2 NUL;
         Some (sign_of (strcmp string_comp1 string_comp2)))
  end.

Definition orcm_compare_node (value1 value2 : orcm_node_t) : option Z :=
  orelse (compare_text (node_name value1) (node_name value2))
  (orelse (compare_num (jobid (daemon value1)) (jobid (daemon value2)))
  (orelse (compare_num (vpid (daemon value1)) (vpid (daemon value2)))
  (c ← compare_argv (mca_params (config value1)) (mca_params (config value2));
   orelse c
  (c ← compare_argv (env (config value1)) (env (config value2));
   orelse c
  (orelse (compare_text (port (config value1)) (port (config value2)))
  (orelse (compare_num (Z.b2z (aggregator (config value1))) (Z.b2z (aggregator (config value2))))
  (orelse (compare_num (state value1) (state value2))
  (orelse (compare_num (scd_state value1) (scd_state value2))
  (Some OPAL_EQUAL))))))))).

(** A result of [opal_dss.compare] that the callers pass on. *)
Definition decisive (rc : Z) : bool :=
  (OPAL_VALUE1_GREATER =? rc) || (OPAL_VALUE2_GREATER =? rc) || (OPAL_ERR_BAD_PARAM =? rc).

Definition compare_controllers (node1 node2 : orcm_node_t) : option Z :=
  rc ← orcm_compare_node node1 node2; Some (if decisive rc then rc else OPAL_EQUAL).

Definition orcm_compare_rack (value1 value2 : orcm_rack_t) : option Z :=
  orelse (compare_text (rack_name value1) (rack_name value2))
    (compare_controllers (rack_controller value1) (rack_controller value2)).

Definition orcm_compare_row (value1 value2 : orcm_row_t) : option Z :=
  orelse (compare_text (row_name value1) (row_name value2))
    (compare_controllers (row_controller value1) (row_controller value2)).

Definition orcm_compare_cluster (value1 value2 : orcm_cluster_t) : option Z :=
  orelse (compare_text (cluster_name value1) (cluster_name value2))
    (compare_controllers (cluster_controller value1) (cluster_controller value2)).

Definition orcm_compare_scheduler (value1 value2 : orcm_scheduler_t) : option Z :=
  rc ← compare_controllers (sched_controller value1) (sched_controller value2);
  orelse rc (compare_argv (queues value1) (queues value2)).

End CfgiDt.
