(* ===== verification/CfgiSpec.v ===== *)
(** * What travels of a configuration, and how its objects compare

    Round trips of nodes, racks, rows and clusters, with what the receiver does not get;
    the fate of several schedulers in one message; the order that the comparison
    functions define. *)

From Stdlib Require Import ZArith Lia Ascii.
From stdpp Require Import prelude numbers strings gmap list.
From S2P Require Import Prelude CString Argv Dss Names Fields CfgiDt.

Local Open Scope Z_scope.

Module CfgiSpec.
Import Argv Dss Names Fields CfgiDt.

(** ** Objects as their receiver sees them *)

(** An array without strings has no elements to append: the receiver keeps NULL. *)
Definition received_argv (argv : argv_t) : argv_t :=
  match argv with Some [] => None | _ => argv end.

Definition received_config (c : orcm_config_t) : orcm_config_t :=
  mk_config (received_argv (mca_params c)) (received_argv (env c)) (port c) (aggregator c).

(** Neither the rack of a node nor its topology and number of processors travel. *)
Definition received_node (n : orcm_node_t) : orcm_node_t :=
  mk_node (node_name n) None (daemon n) (received_config (config n)) (state n) (scd_state n) 0 None.

Definition received_rack (r : orcm_rack_t) : orcm_rack_t :=
  mk_rack (rack_name r) None (received_node (rack_controller r)) (received_node <$> nodes r).

Definition received_row (r : orcm_row_t) : orcm_row_t :=
  mk_row (row_name r) None (received_node (row_controller r)) (received_rack <$> racks r).

Definition received_cluster (c : orcm_cluster_t) : orcm_cluster_t :=
  mk_cluster (cluster_name c) (received_node (cluster_controller c)) (received_row <$> rows c).

Definition received_scheduler (s : orcm_scheduler_t) : orcm_scheduler_t :=
  mk_scheduler (received_node (sched_controller s)) (received_argv (queues s)).

(** ** What a C program can hold: strings end at their NUL, counts are ints *)

Definition valid_argv (argv : argv_t) : Prop :=
  Forall (λ s, valid_string (Some s)) (default [] argv) ∧ opal_argv_count argv ≤ INT_MAX.

Definition valid_members {A} (P : A → Prop) (l : list A) : Prop :=
  Forall P l ∧ Z.of_nat (length l) ≤ INT_MAX.

Record valid_node (n : orcm_node_t) : Prop := {
  vn_name : valid_string (node_name n);
  vn_daemon : valid_name (daemon n);
  vn_params : valid_argv (mca_params (config n));
  vn_env : valid_argv (env (config n));
  vn_port : valid_string (port (config n));
  vn_state : in_s 8 (state n);
  vn_scd_state : in_s 8 (scd_state n);
}.

Definition valid_rack (r : orcm_rack_t) : Prop :=
  valid_string (rack_name r) ∧ valid_node (rack_controller r) ∧ valid_members valid_node (nodes r).
Definition valid_row (r : orcm_row_t) : Prop :=
  valid_string (row_name r) ∧ valid_node (row_controller r) ∧ valid_members valid_rack (racks r).
Definition valid_cluster (c : orcm_cluster_t) : Prop :=
  valid_string (cluster_name c) ∧ valid_node (cluster_controller c) ∧ valid_members valid_row (rows c).
Definition valid_scheduler (s : orcm_scheduler_t) : Prop :=
  valid_node (sched_controller s) ∧ valid_argv (queues s).

(** ** The two sides of each format meet *)

Lemma append_all l acc d : Forall (λ s, valid_string (Some s)) l →
  meets d (pack_each (λ s, opal_dss_pack_buffer t_string [Some s]) l)
    (unpack_append (length l) acc)
    (match l with [] => acc | _ => Some (default [] acc ++ l) end).
Proof.
  intros Hl. revert acc. induction Hl as [|s l Hs _ IH]; intros acc; [apply meets_ret|].
  cbn [pack_each unpack_append length]. eapply meets_field; [apply codec_string|done|]. cbn beta iota.
  specialize (IH (append acc s)). rewrite append_eq in *. destruct l as [|s' l]; [done|].
  cbn [from_option] in IH. unfold id in *. by rewrite <-app_assoc in IH.
Qed.

Lemma count_in_s argv : valid_argv argv → in_s 32 (opal_argv_count argv).
Proof. intros [_ H]. unfold in_s, INT_MAX in *. destruct argv; simpl in *; lia. Qed.

Lemma meets_argv d argv : valid_argv argv →
  meets d (pack_argv argv) (unpack_argv None) (received_argv argv).
Proof.
  intros Ha. eapply meets_field; [apply codec_int32|by apply count_in_s|].
  destruct argv as [[|s l]|]; [apply meets_ret| |apply meets_ret].
  destruct (Z.ltb_spec 0 (opal_argv_count (Some (s :: l)))) as [_|Hn]; [|simpl in Hn; lia].
  unfold opal_argv_count. rewrite Nat2Z.id. apply (append_all (s :: l) None), Ha.
Qed.

Lemma meets_config d c : valid_argv (mca_params c) → valid_argv (env c) → valid_string (port c) →
  meets d (pack_config c) (unpack_config cfg_cons) (received_config c).
Proof.
  intros Hm He Hp. eapply meets_bind; [by apply meets_argv|]. eapply meets_bind; [by apply meets_argv|].
  cbn beta. fields.
Qed.

Lemma meets_node d n : valid_node n → meets d (pack_one_node n) unpack_one_node (received_node n).
Proof.
  intros []. unfold pack_one_node, unpack_one_node. fields. eapply meets_bind; [by apply meets_config|].
  cbn beta. fields.
Qed.

(** A type whose valid values arrive as [r] says. *)
Definition arrives {A} (T : opal_dss_type_info_t A) (valid : A → Prop) (r : A → A) : Prop :=
  ∀ d v, valid v → meets d (opal_dss_pack_buffer T [v]) (unpack_field T) (r v).

Lemma arrives_each {A} id (p : A → M unit) u valid (r : A → A) :
  (∀ d v, valid v → meets d (p v) u (r v)) → arrives (mk_info id (pack_each p) (unpack_each u)) valid r.
Proof. intros H d v Hv. apply meets_one, (carries_each _ _ _ r), Forall_singleton, H, Hv. Qed.

Lemma arrives_node : arrives t_node valid_node received_node.
Proof. apply arrives_each, meets_node. Qed.

Lemma meets_members {A} (T : opal_dss_type_info_t A) valid r d l :
  arrives T valid r → valid_members valid l → meets d (pack_members T l) (unpack_members T []) (r <$> l).
Proof.
  intros HT [Hv Hl]. unfold pack_members, unpack_members. rewrite to_int_small by lia.
  eapply meets_field; [apply codec_int32|unfold in_s, INT_MAX in *; simpl; lia|].
  apply (meets_map d _ _ (app [])), meets_each. eapply Forall_impl; [exact Hv|]. intros x. apply HT.
Qed.

(** A name, a controller and members. *)
Lemma meets_level {A B} (T : opal_dss_type_info_t A) valid r d name node l (f : option cstring → orcm_node_t → list A → B) :
  arrives T valid r → valid_string name → valid_node node → valid_members valid l →
  meets d (_ ← opal_dss_pack_buffer t_string [name];
           _ ← opal_dss_pack_buffer t_node [node]; pack_members T l)
    (v_name ← unpack_field t_string; v_node ← unpack_field t_node;
     v_members ← unpack_members T []; mret (f v_name v_node v_members))
    (f name (received_node node) (r <$> l)).
Proof.
  intros HT Hs Hn Hl. eapply meets_field; [apply codec_string|done|].
  eapply meets_bind; [by apply arrives_node|]. by eapply (meets_map d _ _ (f name (received_node node))), meets_members.
Qed.

Lemma arrives_rack : arrives t_rack valid_rack received_rack.
Proof. apply arrives_each. intros d v (? & ? & ?). by eapply (meets_level t_node _ _ _ _ _ _ (λ n, mk_rack n None)); [apply arrives_node|..]. Qed.

Lemma arrives_row : arrives t_row valid_row received_row.
Proof. apply arrives_each. intros d v (? & ? & ?). by eapply (meets_level t_rack _ _ _ _ _ _ (λ n, mk_row n None)); [apply arrives_rack|..]. Qed.

Lemma meets_cluster d v : valid_cluster v → meets d (pack_one_cluster v) unpack_one_cluster (received_cluster v).
Proof. intros (? & ? & ?). by eapply (meets_level t_row _ _ _ _ _ _ mk_cluster); [apply arrives_row|..]. Qed.

Lemma meets_scheduler d s : valid_scheduler s →
  meets d (pack_one_scheduler s) (fill_scheduler sc_con) (received_scheduler s).
Proof.
  intros [Hn Hq]. eapply meets_bind; [by apply arrives_node|].
  apply (meets_map d _ _ (mk_scheduler (received_node (sched_controller s)))).
  destruct (meets_argv d (queues s) Hq) as (bs & Hp & Hu). exists bs. split; [|done].
  unfold pack_argv in Hp. destruct (queues s) as [[|q l]|]; exact Hp.
Qed.

(** ** Comparison

    [ordering key cmp]: [cmp] is a three-way comparison that orders the objects and
    holds two of them for equal exactly when their keys are. *)

Record ordering {A K} (key : A → K) (cmp : A → A → Z) : Prop := {
  ord_range a b : -1 ≤ cmp a b ≤ 1;
  ord_anti a b : cmp b a = - cmp a b;
  ord_equal a b : cmp a b = OPAL_EQUAL ↔ key a = key b;
  ord_trans a b c : cmp a b ≤ 0 → cmp b c ≤ 0 → cmp a c ≤ 0;
}.

(** [cmp] decides, and [next] where it finds no difference. *)
Definition lex (c k : Z) : Z := if c =? OPAL_EQUAL then k else c.

Lemma ordering_lex {A K L} (k1 : A → K) (k2 : A → L) c1 c2 : ordering k1 c1 → ordering k2 c2 →
  ordering (λ a, (k1 a, k2 a)) (λ a b, lex (c1 a b) (c2 a b)).
Proof.
  intros [R1 S1 E1 T1] [R2 S2 E2 T2]. unfold lex, OPAL_EQUAL in *. split.
  - intros a b. specialize (R1 a b). specialize (R2 a b). zbool; lia.
  - intros a b. rewrite (S1 a b), (S2 a b). zbool; lia.
  - intros a b. destruct (Z.eqb_spec (c1 a b) 0) as [H|H].
    + rewrite E2. apply E1 in H. split; [by intros ->; rewrite H|by intros [=]].
    + split; [done|]. intros [= H' _]. by apply E1 in H'.
  - intros a b c. pose proof (S1 a c). pose proof (S1 a b). pose proof (S1 b c).
    pose proof (T1 a b c). pose proof (T1 b c a). pose proof (T1 c a b). pose proof (T2 a b c).
    zbool; lia.
Qed.

Lemma ordering_map {A B K} (f : A → B) (key : B → K) cmp : ordering key cmp →
  ordering (λ a, key (f a)) (λ a b, cmp (f a) (f b)).
Proof. intros [R S E T]. split; eauto. Qed.

Lemma ordering_num : ordering id compare_num.
Proof.
  unfold compare_num, OPAL_VALUE1_GREATER, OPAL_VALUE2_GREATER, OPAL_EQUAL, id.
  split; intros; zbool; (lia || (split; intros; (lia || done))).
Qed.

(** NULL comes before every value. *)
Definition compare_null {A} (cmp : A → A → Z) (a b : option A) : Z :=
  match a, b with
  | None, None => OPAL_EQUAL
  | Some _, None => OPAL_VALUE1_GREATER
  | None, Some _ => OPAL_VALUE2_GREATER
  | Some a, Some b => cmp a b
  end.

Lemma ordering_null {A K} (key : A → K) cmp : ordering key cmp → ordering (fmap key) (compare_null cmp).
Proof.
  intros [R S E T]. unfold OPAL_EQUAL in *.
  split; intros [a|] [b|]; try intros [c|]; simpl; unfold OPAL_EQUAL, OPAL_VALUE1_GREATER, OPAL_VALUE2_GREATER;
    eauto; try lia; try (split; intros; (done || lia)).
  rewrite E. split; [by intros ->|by intros [=]].
Qed.

Lemma ordering_strcmp : ordering c_text (λ a b, sign_of (strcmp a b)).
Proof.
  unfold strcmp. apply (ordering_map c_text id (λ a b, sign_of (text_cmp a b))).
  assert (∀ a b, sign_of (text_cmp a b) = text_cmp a b) as Es.
  { induction a as [|x a IH]; intros [|y b]; simpl; auto. zbool; auto. }
  unfold OPAL_EQUAL, id in *. split; intros a b; rewrite ?Es.
  - revert b. induction a as [|x a IH]; intros [|y b]; simpl; try lia. specialize (IH b). zbool; lia.
  - revert b. induction a as [|x a IH]; intros [|y b]; simpl; try lia. specialize (IH b). zbool; lia.
  - apply text_cmp_eq.
  - intros c. rewrite !Es. revert b c. induction a as [|x a IH]; intros [|y b] [|z c]; simpl; try lia.
    specialize (IH b c). zbool; lia.
Qed.

Lemma ordering_text : ordering (fmap c_text) compare_text.
Proof. exact (ordering_null c_text _ ordering_strcmp). Qed.

(** *** Keys *)

(** Of an array, the number of strings and the first of them: the strings are joined
    with NULs between them, and [strcmp] stops at the first one. *)
Definition argv_key (argv : argv_t) : option (Z * cstring) :=
  (λ l, (Z.of_nat (length l), c_text (default [] (head l)))) <$> argv.

Lemma span_stop P s x r : P x = false → (span P (s ++ x :: r)).1 = (span P s).1.
Proof.
  intros Hx. induction s as [|c s IH]; simpl; [by rewrite Hx|]. destruct (P c); [|done].
  destruct (span P (s ++ x :: r)), (span P s). simpl in *. congruence.
Qed.

Lemma c_text_span s : c_text s = (span (λ x, negb (ascii_eqb x NUL)) s).1.
Proof. unfold c_text, cut. by destruct (span _ s) as [? []]. Qed.

Lemma c_text_joined l : c_text (join_ref NUL l) = c_text (default [] (head l)).
Proof.
  destruct l as [|s [|t l]]; [done|cbn; by rewrite app_nil_r|]. rewrite !c_text_span. by apply span_stop.
Qed.

Definition argv_cmp (l1 l2 : list cstring) : Z :=
  lex (compare_num (Z.of_nat (length l1)) (Z.of_nat (length l2)))
    (sign_of (strcmp (join_ref NUL l1) (join_ref NUL l2))).

Lemma compare_argv_eq a b : compare_argv a b = Some (compare_null argv_cmp a b).
Proof.
  destruct a as [a|], b as [b|]; [|done..]. unfold compare_argv, argv_cmp, orelse, lex. cbn [compare_null].
  rewrite !join_eq. cbn. by destruct (_ =? OPAL_EQUAL).
Qed.

Lemma ordering_argv : ordering argv_key (compare_null argv_cmp).
Proof.
  apply ordering_null. destruct (ordering_lex _ _ _ _ (ordering_map (λ l, Z.of_nat (length l)) _ _ ordering_num)
    (ordering_map (join_ref NUL) _ _ ordering_strcmp)) as [R S E T].
  split; [exact R|exact S| |exact T]. intros a b. etrans; [exact (E a b)|]. cbn beta.
  unfold id. by rewrite !c_text_joined.
Qed.

Definition node_key (n : orcm_node_t) :=
  (c_text <$> node_name n, (jobid (daemon n), (vpid (daemon n),
   (argv_key (mca_params (config n)), (argv_key (env (config n)),
   (c_text <$> port (config n), (Z.b2z (aggregator (config n)), (state n, scd_state n)))))))).

Definition rack_key (r : orcm_rack_t) := (c_text <$> rack_name r, node_key (rack_controller r)).
Definition row_key (r : orcm_row_t) := (c_text <$> row_name r, node_key (row_controller r)).
Definition cluster_key (c : orcm_cluster_t) := (c_text <$> cluster_name c, node_key (cluster_controller c)).
Definition scheduler_key (s : orcm_scheduler_t) := (node_key (sched_controller s), argv_key (queues s)).

(** [f] always answers, and orders the objects by their keys. *)
Definition orders {A K} (key : A → K) (f : A → A → option Z) : Prop :=
  ∃ cmp, (∀ a b, f a b = Some (cmp a b)) ∧ ordering key cmp.

Lemma orders_then {A K L} (k1 : A → K) (k2 : A → L) c1 f : ordering k1 c1 → orders k2 f →
  orders (λ a, (k1 a, k2 a)) (λ a b, orelse (c1 a b) (f a b)).
Proof.
  intros H1 (c2 & E & H2). eexists. split; [|exact (ordering_lex _ _ _ _ H1 H2)].
  intros a b. unfold orelse, lex. rewrite E. by destruct (_ =? OPAL_EQUAL).
Qed.

Lemma orders_bind {A K L} (k1 : A → K) (k2 : A → L) f1 f2 : orders k1 f1 → orders k2 f2 →
  orders (λ a, (k1 a, k2 a)) (λ a b, c ← f1 a b; orelse c (f2 a b)).
Proof.
  intros (c1 & E & H1) H2. destruct (orders_then _ _ _ _ H1 H2) as (c & E' & H'). exists c. split; [|done].
  intros a b. rewrite E. apply E'.
Qed.

Lemma orders_map {A B K} (g : A → B) (key : B → K) f : orders key f →
  orders (λ a, key (g a)) (λ a b, f (g a) (g b)).
Proof.
  intros (c & E & H). exists (λ a b, c (g a) (g b)). split; [intros; apply E|by apply ordering_map].
Qed.

Lemma orders_argv : orders argv_key compare_argv.
Proof. exists (compare_null argv_cmp). split; [apply compare_argv_eq|apply ordering_argv]. Qed.

Lemma orders_last : orders scd_state (λ a b, orelse (compare_num (scd_state a) (scd_state b)) (Some OPAL_EQUAL)).
Proof.
  eexists. split; [|exact (ordering_map scd_state _ _ ordering_num)]. intros a b. unfold orelse.
  by destruct (Z.eqb_spec (compare_num (scd_state a) (scd_state b)) OPAL_EQUAL) as [->|].
Qed.

Lemma orders_node : orders node_key orcm_compare_node.
Proof.
  unfold node_key, orcm_compare_node.
  apply orders_then; [apply (ordering_map node_name), ordering_text|].
  apply orders_then; [exact (ordering_map (λ n, jobid (daemon n)) _ _ ordering_num)|].
  apply orders_then; [exact (ordering_map (λ n, vpid (daemon n)) _ _ ordering_num)|].
  apply orders_bind; [exact (orders_map (λ n, mca_params (config n)) _ _ orders_argv)|].
  apply orders_bind; [exact (orders_map (λ n, env (config n)) _ _ orders_argv)|].
  apply orders_then; [exact (ordering_map (λ n, port (config n)) _ _ ordering_text)|].
  apply orders_then; [exact (ordering_map (λ n, Z.b2z (aggregator (config n))) _ _ ordering_num)|].
  apply orders_then; [exact (ordering_map state _ _ ordering_num)|]. apply orders_last.
Qed.

Lemma orders_controllers : orders node_key compare_controllers.
Proof.
  destruct orders_node as (c & E & H). exists c. split; [|done]. intros a b. unfold compare_controllers.
  rewrite E. cbn. f_equal. pose proof (ord_range _ _ H a b). unfold decisive, OPAL_EQUAL, OPAL_VALUE1_GREATER, OPAL_VALUE2_GREATER.
  assert (c a b = -1 ∨ c a b = 0 ∨ c a b = 1) as [->|[->| ->]] by lia; done.
Qed.

(** ** Theorems *)

(** C36. A configuration reaches its receiver: packing a cluster with [opal_dss.pack] and
    unpacking the bytes gives back its rows, racks and nodes in order, with names,
    controllers, daemons, settings and states, and nothing is left in the buffer.  Not kept
    are the pointers from a node to its rack, from a rack to its row and from a row to its
    cluster, the processors and the topology of a node, and an empty array of strings,
    which becomes NULL. *)
Theorem cluster_round_trip c b :
  valid_cluster c → unpack_off b = length (base b) →
  ∃ b1 b2, opal_dss_pack t_cluster [c] b = Some (b1, inr tt) ∧
    opal_dss_unpack t_cluster 1 b1 = Some (b2, (OPAL_SUCCESS, 1, [received_cluster c])) ∧
    remaining b2 = [].
Proof.
  intros Hc Ho. apply message_round_trip; [|done].
  apply (carries_each _ _ _ received_cluster), Forall_singleton. by apply meets_cluster.
Qed.

(** Schedulers in one message: the receiver gets as many objects as were packed, with
    success, but all except the last are as their constructor leaves them, the last one
    holds the first scheduler of the message, and the bytes of the others stay in the
    buffer, where the next unpacking meets them.  Only a message of one scheduler
    arrives whole. *)
Theorem schedulers_in_one_message s rest b :
  Forall valid_scheduler (s :: rest) → Z.of_nat (length (s :: rest)) ≤ INT_MAX →
  unpack_off b = length (base b) →
  ∃ b1 b2 left, opal_dss_pack t_scheduler (s :: rest) b = Some (b1, inr tt) ∧
    opal_dss_unpack t_scheduler (Z.of_nat (length (s :: rest))) b1 =
      Some (b2, (OPAL_SUCCESS, Z.of_nat (length (s :: rest)),
        replicate (length rest) sc_con ++ [received_scheduler s])) ∧
    remaining b2 = left ∧ packs (fully_desc b) (orcm_pack_scheduler rest) left.
Proof.
  intros Hv Hl Ho. apply Forall_cons in Hv as [Hs Hr].
  destruct (meets_scheduler (fully_desc b) s Hs) as (x & Hx & Hx').
  destruct (meets_each (fully_desc b) pack_one_scheduler (fill_scheduler sc_con) received_scheduler rest)
    as (y & Hy & _); [eapply Forall_impl; [exact Hr|]; intros v; apply meets_scheduler|].
  destruct (message_prefix t_scheduler b (s :: rest) (replicate (length rest) sc_con ++ [received_scheduler s]) x y)
    as (b1 & b2 & E1 & E2 & E3); [by apply packs_bind| |simpl in *; lia|done|by exists b1, b2, y].
  cbn [odti_unpack_fn t_scheduler]. unfold orcm_unpack_scheduler. rewrite Nat2Z.id. cbn [length].
  by apply (unpacks_bind_ret _ _ (λ v, replicate (length rest) sc_con ++ [v])).
Qed.

(** The comparison functions of nodes, racks, rows, clusters and schedulers always
    answer and define total orders: the answers for exchanged arguments are opposite,
    and they are transitive.  Two objects are equal exactly when their keys are, and the keys
    leave much out: of an array of strings only their number and the first one count,
    and of racks, rows and clusters only the name and the controller, not the members. *)
Theorem compare_orders :
  orders node_key orcm_compare_node ∧ orders rack_key orcm_compare_rack ∧
  orders row_key orcm_compare_row ∧ orders cluster_key orcm_compare_cluster ∧
  orders scheduler_key orcm_compare_scheduler.
Proof.
  split_and!; [apply orders_node| | | |].
  - apply orders_then; [exact (ordering_map rack_name _ _ ordering_text)|
      exact (orders_map rack_controller _ _ orders_controllers)].
  - apply orders_then; [exact (ordering_map row_name _ _ ordering_text)|
      exact (orders_map row_controller _ _ orders_controllers)].
  - apply orders_then; [exact (ordering_map cluster_name _ _ ordering_text)|
      exact (orders_map cluster_controller _ _ orders_controllers)].
  - apply orders_bind; [exact (orders_map sched_controller _ _ orders_controllers)|
      exact (orders_map queues _ _ orders_argv)].
Qed.

(** ** A small cluster *)

Definition sample_config : orcm_config_t :=
  mk_config (Some [lit "sensor=heartbeat"; lit "db=print"]) (Some []) (Some (lit "55805")) true.
Definition sample_node (name : string) (vpid : Z) : orcm_node_t :=
  mk_node (Some (lit name)) (Some 3%nat) (mk_name 0 vpid) sample_config 2 1 16 (Some 7%nat).
Definition sample_rack : orcm_rack_t :=
  mk_rack (Some (lit "rack1")) (Some 2%nat) (sample_node "rack1" 5) [sample_node "n1" 1; sample_node "n2" 2].
Definition sample_cluster : orcm_cluster_t :=
  mk_cluster (Some (lit "default")) nd_con [mk_row None (Some 1%nat) nd_con [sample_rack]].

Lemma sample_node_valid name vpid : valid_string (Some (lit name)) → 0 ≤ vpid < 2 ^ 32 →
  valid_node (sample_node name vpid).
Proof.
  intros Hn Hv. split; try done.
  - split; [|done]. repeat (apply Forall_cons_2; [split; [done|forall_list]|]). forall_list.
  - split; [done|forall_list].
Qed.

Lemma nd_con_valid : valid_node nd_con.
Proof. split; try done; (split; unfold in_u; simpl; lia) || (split; [forall_list|done]). Qed.

Lemma sample_rack_valid : valid_rack sample_rack.
Proof.
  assert (∀ s, s = "rack1" ∨ s = "n1" ∨ s = "n2" → valid_string (Some (lit s))) as Hs.
  { intros s [->|[->| ->]]; (split; [done|forall_list]). }
  split_and!; [by apply Hs; left|apply sample_node_valid; [by apply Hs; left|lia]|split; [|done]].
  repeat apply Forall_cons_2; try apply Forall_nil_2;
    (apply sample_node_valid; [apply Hs; by auto|lia]).
Qed.

Lemma cluster_round_trip_witness :
  ∃ b1 b2, opal_dss_pack t_cluster [sample_cluster] (mk_buf true [] 0 0) = Some (b1, inr tt) ∧
    opal_dss_unpack t_cluster 1 b1 = Some (b2, (OPAL_SUCCESS, 1, [received_cluster sample_cluster])) ∧
    remaining b2 = [].
Proof.
  apply (cluster_round_trip sample_cluster (mk_buf true [] 0 0)); [|done].
  split_and!; [split; [done|forall_list]|apply nd_con_valid|split; [|done]].
  apply Forall_singleton. split_and!; [done|apply nd_con_valid|split; [|done]].
  apply Forall_singleton, sample_rack_valid.
Defined.

(** Two schedulers: the first one arrives in the second object, the second one stays. *)
Lemma schedulers_in_one_message_witness :
  let s1 := mk_scheduler nd_con (Some [lit "debug"]) in
  let s2 := mk_scheduler nd_con (Some [lit "default:7"]) in
  ∃ b1 b2 left, opal_dss_pack t_scheduler [s1; s2] (mk_buf false [] 0 0) = Some (b1, inr tt) ∧
    opal_dss_unpack t_scheduler 2 b1 = Some (b2, (OPAL_SUCCESS, 2, [sc_con; received_scheduler s1])) ∧
    remaining b2 = left ∧ packs false (orcm_pack_scheduler [s2]) left.
Proof.
  intros s1 s2. apply (schedulers_in_one_message s1 [s2] (mk_buf false [] 0 0)); [|done..].
  repeat apply Forall_cons_2; try apply Forall_nil_2;
    (split; [apply nd_con_valid|split; [apply Forall_singleton; split; [done|forall_list]|done]]).
Defined.

(** Nodes with different environments are equal. *)
Example compare_node_blind : let n e := mk_node (Some (lit "n1")) None (mk_name 0 1)
    (mk_config None (Some [lit "A=1"; lit e]) None false) 2 1 0 None in
  orcm_compare_node (n "B=1"%string) (n "B=2"%string) = Some OPAL_EQUAL.
Proof. reflexivity. Qed.

End CfgiSpec.
