(* ===== verification/CfgiBase.v ===== *)
(** * Lookups in the configuration (cfgi_base_stubs.c)

    The daemon on a host and the host of a daemon, by a walk over the clusters:
    the controller of a cluster, of a row, of a rack, and the nodes of the rack. *)

From Stdlib Require Import ZArith Lia Ascii.
From stdpp Require Import prelude numbers strings gmap list.
From S2P Require Import Prelude CString Argv Dss Names CfgiDt.

Local Open Scope Z_scope.

Module CfgiBase.
Import Dss Names CfgiDt.

(** [OPAL_LIST_FOREACH] with a [return] in the body. *)
Fixpoint foreach {A B} (f : A → option B) (l : list A) : option B :=
  match l with
  | [] => None
  | x :: rest => match f x with Some r => Some r | None => foreach f rest end
  end.

Section walk.
Context {B : Type} (f : orcm_node_t → option B).

Definition in_rack (rack : orcm_rack_t) : option B :=
  match f (rack_controller rack) with Some r => Some r | None => foreach f (nodes rack) end.
Definition in_row (row : orcm_row_t) : option B :=
  match f (row_controller row) with Some r => Some r | None => foreach in_rack (racks row) end.
Definition in_cluster (cluster : orcm_cluster_t) : option B :=
  match f (cluster_controller cluster) with Some r => Some r | None => foreach in_row (rows cluster) end.
End walk.

Definition orcm_cfgi_base_get_hostname_proc (orcm_clusters : list orcm_cluster_t) (hostname : cstring)
    : Z + opal_process_name_t :=
  let test node :=
    match node_name node with
    | Some name => if strcmp name hostname =? 0 then Some (daemon node) else None
    | None => None
    end in
  match foreach (in_cluster test) orcm_clusters with
  | Some proc => inr proc
  | None => inl OPAL_ERR_NOT_FOUND
  end.

(** The name found is copied with [strdup]. *)
Definition orcm_cfgi_base_get_proc_hostname (orcm_clusters : list orcm_cluster_t) (proc : opal_process_name_t)
    : option (Z + cstring) :=
  let test node :=
    if same_proc (daemon node) proc then Some (node_name node) else None in
  match foreach (in_cluster test) orcm_clusters with
  | Some (Some name) => Some (inr name)
  | Some None => None
  | None => Some (inl OPAL_ERR_NOT_FOUND)
  end.

(** ** The walk visits every node *)

Definition rack_nodes (r : orcm_rack_t) : list orcm_node_t := rack_controller r :: nodes r.
Definition row_nodes (r : orcm_row_t) : list orcm_node_t := row_controller r :: concat (rack_nodes <$> racks r).
Definition cluster_nodes (c : orcm_cluster_t) : list orcm_node_t := cluster_controller c :: concat (row_nodes <$> rows c).
Definition all_nodes (cs : list orcm_cluster_t) : list orcm_node_t := concat (cluster_nodes <$> cs).

Lemma foreach_app {A B} (f : A → option B) l1 l2 :
  foreach f (l1 ++ l2) = match foreach f l1 with Some r => Some r | None => foreach f l2 end.
Proof. induction l1 as [|x l IH]; [done|]. simpl. by destruct (f x). Qed.

Lemma foreach_concat {A B C} (f : A → option B) (g : C → option B) (h : C → list A) l :
  (∀ x, g x = foreach f (h x)) → foreach g l = foreach f (concat (h <$> l)).
Proof. intros Hg. induction l as [|x l IH]; [done|]. cbn. by rewrite foreach_app, Hg, IH. Qed.

Lemma walk_all {B} (f : orcm_node_t → option B) cs : foreach (in_cluster f) cs = foreach f (all_nodes cs).
Proof.
  apply foreach_concat. intros c. unfold in_cluster. cbn. destruct (f (cluster_controller c)); [done|].
  apply foreach_concat. intros r. unfold in_row. cbn. destruct (f (row_controller r)); [done|].
  by apply foreach_concat.
Qed.

Lemma foreach_found {A B} (f : A → option B) l x y : x ∈ l → f x = Some y →
  (∀ z b, z ∈ l → f z = Some b → b = y) → foreach f l = Some y.
Proof.
  intros Hx Hf Hu. induction l as [|z l IH]; [by apply elem_of_nil in Hx|]. cbn.
  destruct (f z) as [b|] eqn:E; [by rewrite (Hu z b) by (by left || done)|].
  apply elem_of_cons in Hx as [->|Hx]; [congruence|]. apply IH; [done|]. intros z' b Hz. apply Hu. by right.
Qed.

Lemma foreach_none {A B} (f : A → option B) l : (∀ z, z ∈ l → f z = None) → foreach f l = None.
Proof.
  induction l as [|z l IH]; intros H; [done|]. cbn. rewrite H by by left. apply IH. intros z' Hz. apply H. by right.
Qed.

Lemma strcmp_same a : strcmp a a = 0.
Proof. unfold strcmp. induction (c_text a) as [|c l IH]; [done|]. cbn. zbool; (done || lia). Qed.

Lemma c_text_plain s : Forall (λ c, c ≠ NUL) s → c_text s = s.
Proof. intros Hs. unfold c_text. by rewrite (cut_none NUL s). Qed.

Lemma compare_same a b : same_proc a b = bool_decide (a = b).
Proof. apply eq_true_iff_eq. by rewrite same_proc_eq, bool_decide_eq_true. Qed.

(** The two lookups are inverse to each other: for a node of the configuration whose
    host name and daemon name no other node shares, its host name leads to its daemon and
    its daemon to its host name, wherever in the hierarchy it is; what no node has is
    reported as not found. *)
Theorem hostname_round_trip cs n name :
  n ∈ all_nodes cs → node_name n = Some name → Forall (λ c, c ≠ NUL) name →
  (∀ m s, m ∈ all_nodes cs → node_name m = Some s → c_text s = name → daemon m = daemon n) →
  (∀ m, m ∈ all_nodes cs → daemon m = daemon n → node_name m = Some name) →
  orcm_cfgi_base_get_hostname_proc cs name = inr (daemon n) ∧
  orcm_cfgi_base_get_proc_hostname cs (daemon n) = Some (inr name) ∧
  (∀ s, (∀ m t, m ∈ all_nodes cs → node_name m = Some t → c_text t ≠ c_text s) →
     orcm_cfgi_base_get_hostname_proc cs s = inl OPAL_ERR_NOT_FOUND) ∧
  (∀ p, p ∉ daemon <$> all_nodes cs → orcm_cfgi_base_get_proc_hostname cs p = Some (inl OPAL_ERR_NOT_FOUND)).
Proof.
  intros Hin Hname Hnul Hn Hd.
  assert (∀ a b, (strcmp a b =? 0) = bool_decide (c_text a = c_text b)) as Hcmp.
  { intros a b. case_bool_decide as E; [unfold strcmp; rewrite E; apply Z.eqb_eq, (strcmp_same b)|].
    apply Z.eqb_neq. intros E'. apply E. by apply text_cmp_eq. }
  unfold orcm_cfgi_base_get_hostname_proc, orcm_cfgi_base_get_proc_hostname. split_and!.
  - rewrite walk_all. erewrite (foreach_found _ _ n (daemon n)); [done|done|by rewrite Hname, strcmp_same|].
    intros m b Hm. destruct (node_name m) as [s|] eqn:E; [|done]. rewrite Hcmp. case_bool_decide as Es; [|done].
    intros [= <-]. apply (Hn m s Hm E). by rewrite Es, c_text_plain.
  - rewrite walk_all. erewrite (foreach_found _ _ n (Some name)); [done|done| |].
    + rewrite compare_same, bool_decide_true by done. by rewrite Hname.
    + intros m b Hm. rewrite compare_same. case_bool_decide as E; [|done]. intros [= <-]. by apply Hd.
  - intros s Hs. rewrite walk_all, foreach_none; [done|]. intros m Hm. destruct (node_name m) as [t|] eqn:E; [|done].
    rewrite Hcmp, bool_decide_false; [done|]. by eapply Hs.
  - intros p Hp. rewrite walk_all, foreach_none; [done|]. intros m Hm. rewrite compare_same, bool_decide_false; [done|].
    intros <-. apply Hp. by apply list_elem_of_fmap_2.
Qed.

Lemma hostname_round_trip_witness :
  let n := mk_node (Some (lit "n2")) None (mk_name 0 2) cfg_cons 2 1 0 None in
  let cs := [mk_cluster None nd_con [mk_row None None nd_con
              [mk_rack (Some (lit "rack1")) None (mk_node (Some (lit "rack1")) None (mk_name 0 1) cfg_cons 2 1 0 None) [n]]]] in
  orcm_cfgi_base_get_hostname_proc cs (lit "n2") = inr (mk_name 0 2) ∧
  orcm_cfgi_base_get_proc_hostname cs (mk_name 0 2) = Some (inr (lit "n2")).
Proof.
  intros n cs. destruct (hostname_round_trip cs n (lit "n2")) as (E1 & E2 & _).
  - cbn. right. right. right. by left.
  - reflexivity.
  - forall_list.
  - intros m s Hm. cbn in Hm. repeat (apply elem_of_cons in Hm as [->|Hm]; [by intros [= <-]|]). by apply elem_of_nil in Hm.
  - intros m Hm. cbn in Hm. repeat (apply elem_of_cons in Hm as [->|Hm]; [by intros [=]|]). by apply elem_of_nil in Hm.
  - exact (conj E1 E2).
Defined.

End CfgiBase.
