(* ===== verification/CfgiFile30.v ===== *)
(** * From a configuration file to a system (orcm/mca/cfgi/file30/cfgi_file30.c)

    The elements of the file, a tree of names, values and subordinate elements, are turned
    into the schedulers and clusters of the system; then every scheduler, controller and
    node gets its process name, and the cluster definition for [RoutedOrcm] is packed.
    Objects are values here: the name of the row is passed to the functions of a rack, and
    that of the rack to those of a node, where the code follows a pointer. *)

From Stdlib Require Import ZArith Lia Ascii.
From stdpp Require Import prelude numbers strings gmap list.
From S2P Require Import Prelude CString Argv Regex Environ Dss Names DssBuffer CfgiDt.

Local Open Scope Z_scope.

Module CfgiFile30.
Import Argv RegexRange Environ CfgiDt.

(** [orcm_cfgi_xml_parser_t] *)
Inductive xml_t := mk_xml (xml_name : cstring) (value : argv_t) (subvals : list xml_t).
Definition xml_name (x : xml_t) : cstring := let '(mk_xml n _ _) := x in n.
Definition value (x : xml_t) : argv_t := let '(mk_xml _ v _) := x in v.
Definition subvals (x : xml_t) : list xml_t := let '(mk_xml _ _ s) := x in s.

(** [NULL != x->value && NULL != x->value[0]] *)
Definition first_value (x : xml_t) : option cstring := match value x with Some (v :: _) => Some v | _ => None end.

Definition is_tag (x : xml_t) (tag : string) : bool := strcmp (xml_name x) (lit tag) =? 0.

(** ** Results: undefined behaviour, an error code or a value *)

Definition R (A : Type) : Type := option (Z + A).
Definition ret {A} (a : A) : R A := Some (inr a).
Definition fail {A} (rc : Z) : R A := Some (inl rc).
Definition bindR {A B} (m : R A) (k : A → R B) : R B :=
  match m with
  | Some (inr a) => k a
  | Some (inl rc) => Some (inl rc)
  | None => None
  end.
Notation "'let*' x ':=' m 'in' k" := (bindR m (λ x, k)) (at level 200, x pattern, m at level 100, k at level 200).

(** [OPAL_LIST_FOREACH], left on an error. *)
Fixpoint foldR {A B} (f : B → A → R A) (l : list B) (a : A) : R A :=
  match l with
  | [] => ret a
  | b :: l => let* a := f b a in foldR f l a
  end.

(** ** The attributes of a process *)

Section config.
Context (OPAL_MCA_PREFIX : cstring).

Definition add_param (s : cstring) (cfg : orcm_config_t) : orcm_config_t :=
  mk_config (append (mca_params cfg) s) (env cfg) (port cfg) (aggregator cfg).
Definition set_env (e : argv_t) (cfg : orcm_config_t) : orcm_config_t :=
  mk_config (mca_params cfg) e (port cfg) (aggregator cfg).
Definition set_port (s : cstring) (cfg : orcm_config_t) : orcm_config_t :=
  mk_config (mca_params cfg) (env cfg) (Some s) (aggregator cfg).
Definition set_aggregator (cfg : orcm_config_t) : orcm_config_t :=
  mk_config (mca_params cfg) (env cfg) (port cfg) true.

(** The prefix of MCA parameters, if it is missing. *)
Definition with_prefix (s : cstring) : cstring := if starts_with OPAL_MCA_PREFIX s then s else OPAL_MCA_PREFIX ++ s.

Definition log_env (file : cstring) (e : argv_t) : argv_t :=
  let e := (opal_setenv (lit "OPAL_OUTPUT_REDIRECT") (Some (lit "file")) true e).1 in
  let e := (opal_setenv (lit "OPAL_OUTPUT_LOCATION") (Some file) true e).1 in
  (opal_setenv (lit "OPAL_OUTPUT_SUFFIX") (Some (lit ".log")) true e).1.

(** An [envar] element whose value is empty is split into nothing, and NULL is indexed. *)
Definition parse_orcm_config (cfg : orcm_config_t) (xml : xml_t) : R orcm_config_t :=
  if is_tag xml "port" then
    ret (match first_value xml with Some v => set_port v cfg | None => cfg end)
  else if is_tag xml "cores" then
    ret (match first_value xml with
         | Some v => add_param (OPAL_MCA_PREFIX ++ lit "orte_daemon_cores=" ++ v) cfg
         | None => cfg
         end)
  else if is_tag xml "mca-params" then
    ret (match first_value xml with
         | Some v => fold_left (λ cfg s, add_param (with_prefix s) cfg) (default [] (opal_argv_split v COMMA)) cfg
         | None => cfg
         end)
  else if is_tag xml "log" then
    ret (match first_value xml with Some v => set_env (log_env v (env cfg)) cfg | None => cfg end)
  else if is_tag xml "envar" then
    match first_value xml with
    | Some v => match opal_argv_split v COMMA with
                | Some vals => ret (set_env (fold_left append vals (env cfg)) cfg)
                | None => None
                end
    | None => ret cfg
    end
  else if is_tag xml "aggregator" then
    ret (match first_value xml with
         | Some (c :: _) => if ascii_eqb c "y" then set_aggregator cfg else cfg
         | Some [] => cfg
         | None => set_aggregator cfg
         end)
  else ret cfg.

(** ** Names *)

(** [@] stands for the first letter of the row. *)
Definition pack_charname (base : ascii) (s : cstring) : cstring :=
  c_text ((λ c, if ascii_eqb c "@" then base else c) <$> s).

(** From the first to the last [#]. *)
Definition hash_digits (v : cstring) : Z :=
  match list_find (λ c, c = "#"%char) v, list_find (λ c, c = "#"%char) (reverse v) with
  | Some (p, _), Some (q, _) => Z.of_nat (length v - 1 - q) - Z.of_nat p + 1
  | _, _ => 0
  end.

(** [%0*d] of a number that is not negative. *)
Definition padded (digits idx : Z) : cstring :=
  let ds := print_unsigned idx in replicate (Z.to_nat digits - length ds) ZERO ++ ds.

(** The name of a rack or a node: a leading [@] stands for the name of what encloses it,
    with [sep] behind it, [#]s for the number of this one; other text that comes with them
    is dropped.  The name of what encloses it is copied even if it is NULL. *)
Definition expand_name (outer : option cstring) (sep v : cstring) (idx : Z) : option cstring :=
  let digits := hash_digits v in
  match v with
  | "@"%char :: _ =>
      match outer with
      | Some name => Some (name ++ sep ++ padded digits idx)
      | None => None
      end
  | _ => Some (if digits =? 0 then v else padded digits idx)
  end.

(** ** Nodes *)

Definition ORTE_NODE_STATE_UNDEF : Z := 0.
Definition ORTE_NODE_STATE_UNKNOWN : Z := 1.

Definition set_node_name (name : option cstring) (n : orcm_node_t) : orcm_node_t :=
  mk_node name (node_rack n) (daemon n) (config n) (state n) (scd_state n) (npes n) (topology n).
Definition set_config (c : orcm_config_t) (n : orcm_node_t) : orcm_node_t :=
  mk_node (node_name n) (node_rack n) (daemon n) c (state n) (scd_state n) (npes n) (topology n).
Definition set_state (s : Z) (n : orcm_node_t) : orcm_node_t :=
  mk_node (node_name n) (node_rack n) (daemon n) (config n) s (scd_state n) (npes n) (topology n).
Definition set_daemon (p : Dss.opal_process_name_t) (n : orcm_node_t) : orcm_node_t :=
  mk_node (node_name n) (node_rack n) p (config n) (state n) (scd_state n) (npes n) (topology n).

Definition parse_node (rack : option cstring) (idx : Z) (x : xml_t) (node : orcm_node_t) : R orcm_node_t :=
  if is_tag x "name" then
    match first_value x with
    | None => fail OPAL_ERR_BAD_PARAM
    | Some v => match expand_name rack (lit ".") v idx with
                | Some name => ret (set_node_name (Some name) node)
                | None => None
                end
    end
  else
    let* cfg := parse_orcm_config (config node) x in ret (set_config cfg node).

(** A controller: its name, its state and its attributes. *)
Definition parse_controller (name : cstring) (x : xml_t) (c : orcm_node_t) : R orcm_node_t :=
  let c := set_state ORTE_NODE_STATE_UNKNOWN (set_node_name (Some name) c) in
  let* cfg := foldR (λ xx cfg, parse_orcm_config cfg xx) (subvals x) (config c) in
  ret (set_config cfg c).

(** The search of an object by name; one without a name is a NULL for [strcmp]. *)
Fixpoint find_named {A} (name_of : A → option cstring) (v : cstring) (l : list A) (i : nat) : option (option nat) :=
  match l with
  | [] => Some None
  | a :: l =>
      match name_of a with
      | None => None
      | Some n => if strcmp n v =? 0 then Some (Some i) else find_named name_of v l (S i)
      end
  end.

(** [n] new objects, each with its number. *)
Fixpoint make_each {A} (make : Z → R A) (n : nat) (k : Z) (l : list A) : R (list A) :=
  match n with
  | O => ret l
  | S n => let* a := make k in make_each make n (k + 1) (l ++ [a])
  end.

(** The value of a [node] or [rack] element: the number of objects to be made, or the name
    of one, which is looked for among those there are. *)
Definition parse_members {A} (name_of : A → option cstring) (new : option cstring → A) (parse : Z → A → R A)
    (v : cstring) (l : list A) : R (list A) :=
  match v with
  | "#"%char :: num => make_each (λ n, parse n (new None)) (Z.to_nat (to_int (strtol num).1)) 0 l
  | _ =>
      match find_named name_of v l 0 with
      | None => None
      | Some (Some i) =>
          match l !! i with
          | Some a => let* a := parse 0 a in ret (<[i := a]> l)
          | None => None
          end
      | Some None => let* a := parse 0 (new (Some v)) in ret (l ++ [a])
      end
  end.

Definition new_node (name : option cstring) : orcm_node_t :=
  set_state ORTE_NODE_STATE_UNKNOWN (set_node_name name nd_con).

Definition parse_rack (row : option cstring) (idx : Z) (x : xml_t) (rack : orcm_rack_t) : R orcm_rack_t :=
  if is_tag x "controller" then
    match first_value x with
    | None => fail OPAL_ERR_BAD_PARAM
    | Some v =>
        match expand_name row [] v idx with
        | None => None
        | Some name =>
            let* c := parse_controller name x (rack_controller rack) in
            ret (mk_rack (Some name) (rack_row rack) c (nodes rack))
        end
    end
  else if is_tag x "node" then
    match first_value x with
    | None => fail OPAL_ERR_BAD_PARAM
    | Some v =>
        let* l := parse_members node_name new_node (λ n nd, foldR (parse_node (rack_name rack) n) (subvals x) nd) v
                    (nodes rack) in
        ret (mk_rack (rack_name rack) (rack_row rack) (rack_controller rack) l)
    end
  else ret rack.

(** A new rack gets its name from its controller, not from the element. *)
Definition parse_row (x : xml_t) (row : orcm_row_t) : R orcm_row_t :=
  if is_tag x "controller" then
    match first_value x, row_name row with
    | None, _ => fail OPAL_ERR_BAD_PARAM
    | Some _, None => None
    | Some v, Some rname =>
        let* c := parse_controller (pack_charname (default NUL (head rname)) v) x (row_controller row) in
        ret (mk_row (row_name row) (row_cluster row) c (racks row))
    end
  else if is_tag x "rack" then
    match first_value x with
    | None => fail OPAL_ERR_BAD_PARAM
    | Some v =>
        let* l := parse_members rack_name (λ _, rk_con) (λ n rk, foldR (parse_rack (row_name row) n) (subvals x) rk) v
                    (racks row) in
        ret (mk_row (row_name row) (row_cluster row) (row_controller row) l)
    end
  else ret row.

(** ** Clusters and schedulers *)

Fixpoint extract_names (vals : list cstring) (names : argv_t) : R argv_t :=
  match vals with
  | [] => ret names
  | v :: vals =>
      match orte_regex_extract_name_range v names with
      | None => None
      | Some (names, rc) => if rc =? OPAL_SUCCESS then extract_names vals names else fail rc
      end
  end.

Definition row_named (name : cstring) : orcm_row_t := mk_row (Some name) None nd_con [].

(** One of the rows an element names. *)
Definition parse_row_named (x : xml_t) (name : cstring) (rows : list orcm_row_t) : R (list orcm_row_t) :=
  match find_named row_name name rows 0 with
  | None => None
  | Some (Some i) =>
      match rows !! i with
      | Some r => let* r := foldR parse_row (subvals x) r in ret (<[i := r]> rows)
      | None => None
      end
  | Some None => let* r := foldR parse_row (subvals x) (row_named name) in ret (rows ++ [r])
  end.

Definition parse_rows (x : xml_t) (v : cstring) (rows : list orcm_row_t) : R (list orcm_row_t) :=
  match opal_argv_split v COMMA with
  | None => ret rows
  | Some vals =>
      let* names := extract_names vals None in
      match names with
      | None => fail OPAL_ERR_BAD_PARAM
      | Some names => foldR (parse_row_named x) names rows
      end
  end.

(** The loop over the elements of a cluster.  For a controller its variable [xx], in which
    the end of the list is looked up, is used for a loop within it: from then on the end
    is not recognized ([lost]). *)
Fixpoint parse_cluster_loop (l : list xml_t) (lost : bool) (cluster : orcm_cluster_t) : R orcm_cluster_t :=
  match l with
  | [] => if lost then None else ret cluster
  | x :: l =>
      if is_tag x "controller" then
        match first_value x with
        | None => fail OPAL_ERR_BAD_PARAM
        | Some v =>
            let* c := parse_controller v x (cluster_controller cluster) in
            parse_cluster_loop l true (mk_cluster (cluster_name cluster) c (rows cluster))
        end
      else if is_tag x "row" then
        match first_value x with
        | None => fail OPAL_ERR_BAD_PARAM
        | Some v =>
            let* rs := parse_rows x v (rows cluster) in
            parse_cluster_loop l lost (mk_cluster (cluster_name cluster) (cluster_controller cluster) rs)
        end
      else parse_cluster_loop l lost cluster
  end.

Definition parse_cluster (xx : xml_t) (cluster : orcm_cluster_t) : R orcm_cluster_t :=
  parse_cluster_loop (subvals xx) false cluster.

Definition parse_sched_item (x : xml_t) (s : orcm_scheduler_t) : R orcm_scheduler_t :=
  if is_tag x "queues" then
    match first_value x with
    | None => fail OPAL_ERR_BAD_PARAM
    | Some _ => ret (mk_scheduler (sched_controller s) (fold_left append (default [] (value x)) (queues s)))
    end
  else if is_tag x "node" then
    match first_value x with
    | None => fail OPAL_ERR_BAD_PARAM
    | Some v => ret (mk_scheduler (set_node_name (Some v) (sched_controller s)) (queues s))
    end
  else
    let* cfg := parse_orcm_config (config (sched_controller s)) x in
    ret (mk_scheduler (set_config cfg (sched_controller s)) (queues s)).

Definition parse_scheduler (xx : xml_t) (s : orcm_scheduler_t) : R orcm_scheduler_t := foldR parse_sched_item (subvals xx) s.

(** [orcm_clusters] and [orcm_schedulers] *)
Record system_t := mk_system { orcm_clusters : list orcm_cluster_t; orcm_schedulers : list orcm_scheduler_t }.

Definition parse_section (x : xml_t) (sys : system_t) : R system_t :=
  if is_tag x "cluster" then
    let* c := parse_cluster x (mk_cluster (first_value x) nd_con []) in
    ret (mk_system (orcm_clusters sys ++ [c]) (orcm_schedulers sys))
  else if is_tag x "scheduler" then
    let* s := parse_scheduler x sc_con in
    ret (mk_system (orcm_clusters sys) (orcm_schedulers sys ++ [s]))
  else fail OPAL_ERR_BAD_PARAM.

(** The first part of [define_system]. *)
Definition parse_system (cfg : list xml_t) (sys : system_t) : R system_t :=
  foldR (λ xx sys, if is_tag xx "configuration" then foldR parse_section (subvals xx) sys else ret sys) cfg sys.

End config.
End CfgiFile30.
