(* ===== verification/CfgiSystem.v ===== *)
(** * The names of the processes of a system (cfgi_file30.c: define_system; orcm/util/utils.c)

    After the configuration has been read every scheduler, controller and node of it gets
    the next vpid; the cluster definition is packed, with the racks in the buffer of their
    row; a process that finds its own node takes its name, its attributes and its
    environment; the addresses of the controllers that aggregate are collected. *)

From Stdlib Require Import ZArith Lia Ascii.
From stdpp Require Import prelude numbers strings gmap list.
From S2P Require Import Prelude CString Argv Environ Dss Names NameText DssBuffer CfgiDt CfgiFile30.

Local Open Scope Z_scope.

Module CfgiSystem.
Import Argv Environ Dss Names NameText DssBuffer CfgiDt CfgiFile30.

Definition ORTE_PROC_DAEMON : Z := 2.
Definition ORTE_PROC_SCHEDULER : Z := 8192.
Definition ORCM_AGGREGATOR : Z := Z.lor 128 64.

(** ** The environment of the process *)

Fixpoint put_entry (name s : cstring) (l : list cstring) : list cstring :=
  match l with
  | [] => [s]
  | e :: l => if starts_with (name ++ [EQUALS]) e then s :: l else e :: put_entry name s l
  end.

(** [putenv]: a text without a [=] removes the variable. *)
Definition putenv (s : cstring) (environ : list cstring) : list cstring :=
  match cut EQUALS s with
  | (name, Some _) => put_entry name s environ
  | (name, None) => filter (λ e, starts_with (name ++ [EQUALS]) e = false) environ
  end.

(** What the names of a network stand for: [opal_net_isaddr] and [opal_ifislocal] ask the
    operating system, [resolve] is [gethostbyname] and the first of its addresses. *)
Class Network := {
  opal_net_isaddr : cstring → bool;
  opal_ifislocal : cstring → bool;
  resolve : cstring → option cstring;
}.

Section define_system.
Context {net : Network} (OPAL_MCA_PREFIX nodename : cstring).

Definition setup_environ (env : argv_t) (environ : list cstring) : option (list cstring) :=
  match env with
  | None => Some environ
  | Some env =>
      tmp ← opal_environ_merge (Some env) (Some environ);
      Some (fold_left (λ e s, if starts_with OPAL_MCA_PREFIX s then putenv s e else e) tmp environ)
  end.

(** The variables of [define_system]: [next] is its [vpid], [mynode] the node that was
    found to be this one, [static] the buffer in which [inet_ntoa] leaves its text, and
    [my_ip], when it is not the name of this node, points there. *)
Record walk_t := mk_walk {
  next : Z;
  found_me : bool;
  mynode : option orcm_node_t;
  my_vpid : Z;
  proc_type : Z;
  environ : list cstring;
  uribuf : opal_buffer_t;
  static : cstring;
  ip_is_static : bool;
}.

Implicit Types s : walk_t.

Definition my_ip s : cstring := if ip_is_static s then static s else nodename.

Definition is_type s (t : Z) : bool := negb (Z.land t (proc_type s) =? 0).

Definition set_next (v : Z) s : walk_t :=
  mk_walk v (found_me s) (mynode s) (my_vpid s) (proc_type s) (environ s) (uribuf s) (static s) (ip_is_static s).
Definition set_uri (b : opal_buffer_t) (text : cstring) s : walk_t :=
  mk_walk (next s) (found_me s) (mynode s) (my_vpid s) (proc_type s) (environ s) b text (ip_is_static s).
Definition set_me (n : orcm_node_t) (t : Z) (e : list cstring) s : walk_t :=
  mk_walk (next s) true (Some n) (next s) t e (uribuf s) (static s) (ip_is_static s).

(** The conversion of the name of this node. *)
Definition start (vpid type : Z) (e : list cstring) (text : cstring) : walk_t :=
  let '(text, st) := if opal_net_isaddr nodename then (text, false)
                     else match resolve nodename with None => (text, false) | Some a => (a, true) end in
  mk_walk 0 false None vpid type e (mk_buf false [] 0 0) text st.

(** [opal_dss.pack] of one value, with its result not looked at. *)
Definition put {A} (T : opal_dss_type_info_t A) (a : A) (b : opal_buffer_t) : option opal_buffer_t :=
  '(b, _) ← opal_dss_pack T [a] b; Some b.

(** The address of a node, and the buffer of [inet_ntoa] after it. *)
Definition node_addr (name text : cstring) : option cstring * cstring :=
  if (strcmp name nodename =? 0) || (strcmp name (lit "localhost") =? 0) || opal_ifislocal name
  then (Some (lit "localhost"), text)
  else if opal_net_isaddr name then (Some name, text)
  else match resolve name with None => (None, text) | Some a => (Some a, a) end.

(** [%s] of NULL. *)
Definition text_of (s : option cstring) : cstring := default (lit "(null)") s.

(** The name of the node is compared even if it is NULL. *)
Definition orcm_util_construct_uri (node : orcm_node_t) s : option walk_t :=
  name ← node_name node;
  let '(addr, text) := node_addr name (static s) in
  match addr with
  | None => Some (set_uri (uribuf s) text s)
  | Some addr =>
      match orte_util_convert_process_name_to_string (Some (daemon node)) with
      | inl _ => None
      | inr proc_name =>
          b ← put t_string (Some (proc_name ++ lit ";tcp://" ++ addr ++ lit ":" ++ text_of (port (config node)))) (uribuf s);
          Some (set_uri b text s)
      end
  end.

(** Whether a node is the one this process runs on; if so the process becomes it. *)
Definition check_me (node : orcm_node_t) s : option walk_t :=
  match node_name node with
  | None => Some s
  | Some name =>
      if strcmp name (if opal_net_isaddr name then my_ip s else nodename) =? 0 then
        let t := if aggregator (config node) then ORCM_AGGREGATOR else proc_type s in
        e ← setup_environ (mca_params (config node)) (environ s);
        let uri := OPAL_MCA_PREFIX ++ lit "oob_tcp_static_ipv4_ports=" ++ text_of (port (config node)) in
        Some (set_me node t (putenv uri e) s)
      else Some s
  end.

(** The next vpid for a node.  [uri]: its address is collected; [role]: the type of the
    processes that look whether it is theirs. *)
Definition assign (uri : bool) (role : Z) (node : orcm_node_t) s : option (orcm_node_t * walk_t) :=
  let node := set_daemon (mk_name 0 (next s)) node in
  s ← (if uri then orcm_util_construct_uri node s else Some s);
  s ← (if negb (found_me s) && is_type s role then check_me node s else Some s);
  Some (node, set_next (uwrap 32 (next s + 1)) s).

(** A controller, if there is one. *)
Definition assign_controller (c : orcm_node_t) s : option (orcm_node_t * walk_t) :=
  if state c =? ORTE_NODE_STATE_UNDEF then Some (c, s) else assign (aggregator (config c)) ORTE_PROC_DAEMON c s.

(** A loop over a list whose members are changed in place, with a buffer. *)
Fixpoint each {A} (f : A → opal_buffer_t → walk_t → option (A * opal_buffer_t * walk_t))
    (l : list A) (b : opal_buffer_t) s : option (list A * opal_buffer_t * walk_t) :=
  match l with
  | [] => Some ([], b, s)
  | a :: l =>
      '(a, b, s) ← f a b s;
      '(l, b, s) ← each f l b s;
      Some (a :: l, b, s)
  end.

Definition name_sched (sched : orcm_scheduler_t) (schedbuf : opal_buffer_t) s
    : option (orcm_scheduler_t * opal_buffer_t * walk_t) :=
  '(c, s) ← assign true ORTE_PROC_SCHEDULER (sched_controller sched) s;
  schedbuf ← put t_name (daemon c) schedbuf;
  Some (mk_scheduler c (queues sched), schedbuf, s).

Definition name_node (node : orcm_node_t) (rackbuf : opal_buffer_t) s : option (orcm_node_t * opal_buffer_t * walk_t) :=
  '(node, s) ← assign false ORTE_PROC_DAEMON node s;
  rackbuf ← put t_name (daemon node) rackbuf;
  Some (node, rackbuf, s).

Definition name_rack (rack : orcm_rack_t) (rowbuf : opal_buffer_t) s : option (orcm_rack_t * opal_buffer_t * walk_t) :=
  '(c, s) ← assign_controller (rack_controller rack) s;
  rackbuf ← put t_name (daemon c) (mk_buf false [] 0 0);
  '(l, rackbuf, s) ← each name_node (nodes rack) rackbuf s;
  rowbuf ← put t_buffer rackbuf rowbuf;
  Some (mk_rack (rack_name rack) (rack_row rack) c l, rowbuf, s).

Definition name_row (row : orcm_row_t) (clusterbuf : opal_buffer_t) s : option (orcm_row_t * opal_buffer_t * walk_t) :=
  rowbuf ← put t_int32 (to_int (Z.of_nat (length (racks row)))) (mk_buf false [] 0 0);
  '(c, s) ← assign_controller (row_controller row) s;
  rowbuf ← put t_name (daemon c) rowbuf;
  '(l, rowbuf, s) ← each name_rack (racks row) rowbuf s;
  clusterbuf ← put t_buffer rowbuf clusterbuf;
  Some (mk_row (row_name row) (row_cluster row) c l, clusterbuf, s).

Definition name_cluster (cluster : orcm_cluster_t) (clusterbuf : opal_buffer_t) s
    : option (orcm_cluster_t * opal_buffer_t * walk_t) :=
  '(c, s) ← assign_controller (cluster_controller cluster) s;
  clusterbuf ← put t_name (daemon c) clusterbuf;
  clusterbuf ← put t_int32 (to_int (Z.of_nat (length (rows cluster)))) clusterbuf;
  '(l, clusterbuf, s) ← each name_row (rows cluster) clusterbuf s;
  Some (mk_cluster (cluster_name cluster) c l, clusterbuf, s).

(** The second part of [define_system]: the system with its names, the cluster definition
    and what the walk has found. *)
Definition name_system (sys : system_t) s : option (system_t * opal_buffer_t * walk_t) :=
  '(scheds, schedbuf, s) ← each name_sched (orcm_schedulers sys) (mk_buf false [] 0 0) s;
  clusterbuf ← put t_buffer schedbuf (mk_buf false [] 0 0);
  let s := if Z.of_nat (length (orcm_schedulers sys)) =? 0 then set_next 1 s else s in
  '(clusters, clusterbuf, s) ← each name_cluster (orcm_clusters sys) clusterbuf s;
  Some (mk_system clusters scheds, clusterbuf, s).

(** What [define_system] returns and writes: the system, the number of processes and the
    buffer with the cluster definition and the addresses; [vpid], [type], [e] and [text]
    are the name and the type of the process, its environment and the buffer of
    [inet_ntoa]. *)
Definition define_system (config : list xml_t) (sys : system_t) (buf : opal_buffer_t) (vpid type : Z)
    (e : list cstring) (text : cstring) : R (system_t * Z * opal_buffer_t * walk_t) :=
  let s := start vpid type e text in
  let* sys := parse_system OPAL_MCA_PREFIX config sys in
  match name_system sys s with
  | None => None
  | Some (sys, clusterbuf, s) =>
      match put t_buffer clusterbuf buf with
      | None => None
      | Some buf =>
          match put t_buffer (uribuf s) buf with
          | None => None
          | Some buf => ret (sys, next s, buf, s)
          end
      end
  end.

End define_system.
End CfgiSystem.
