(* ===== verification/XmlLex.v ===== *)
(** * Cutting a configuration file into items (lex_xml of orcm/mca/cfgi/file30/cfgi_file30.c)

    The file is read into a block, and the items (tags, closing tags and data) are written
    over the front of the same block while the rest of it is still being read: [lex_step]
    reads at [i] and writes at [k].  [lexed_text] is the same cut without a shared block;
    [lex_in_place] says when the two agree. *)

From Stdlib Require Import ZArith Lia Ascii.
From stdpp Require Import prelude numbers strings gmap list.
From S2P Require Import Prelude CString CfgiFile30.

Local Open Scope Z_scope.

Module XmlLex.
Import CfgiFile30.

Definition ORCM_ERROR : Z := OPAL_ERROR.
Definition ORCM_ERR_BAD_PARAM : Z := OPAL_ERR_BAD_PARAM.
Definition ORCM_ERR_NOT_FOUND : Z := OPAL_ERR_NOT_FOUND.

Definition TAB : ascii := "009"%char.
Definition LF : ascii := "010"%char.
Definition CR : ascii := "013"%char.
Definition QUOTE : ascii := "034"%char.

Definition is_whitespace (c : ascii) : bool :=
  ascii_eqb c " " || ascii_eqb c TAB || ascii_eqb c LF || ascii_eqb c CR.

(** Characters above 127 are negative [char]s, and forbidden as such. *)
Definition is_forbidden (c : ascii) : bool := (code c <=? 31) || (127 <=? code c).

(** ** The block

    An access outside it has no defined behaviour ([None]). *)

(** [strchr(tx + i, c)] for a [c] that is not NUL: the offset of the first [c], unless a NUL
    comes first ([Some None], a NULL pointer). *)
Fixpoint scan (c : ascii) (s : list ascii) (p : nat) : option (option nat) :=
  match s with
  | [] => None
  | x :: s => if ascii_eqb x c then Some (Some p) else if ascii_eqb x NUL then Some None else scan c s (S p)
  end.
Definition strchr (tx : list ascii) (i : nat) (c : ascii) : option (option nat) := scan c (drop i tx) i.

(** The block and the offset of the next write, which is [k + 1] of the code. *)
Definition out_t : Type := list ascii * nat.

(** [tx[++k] = c] *)
Definition emit (c : ascii) (s : out_t) : option out_t :=
  let '(tx, k) := s in if bool_decide (k < length tx)%nat then Some (<[k := c]> tx, S k) else None.

(** [for (...; q < p; ++q) tx[++k] = *q], with [n] for [p - q] *)
Fixpoint copy (f : ascii → ascii) (n q : nat) (s : out_t) : option out_t :=
  match n with
  | O => Some s
  | S n => match s.1 !! q with
           | Some c => match emit (f c) s with Some s => copy f n (S q) s | None => None end
           | None => None
           end
  end.

Definition opt {A} (o : option A) : R A := match o with Some a => ret a | None => None end.

(** What stands before a [>] that ends a directive. *)
Definition ends_directive (prev2 prev1 : ascii) : bool :=
  ascii_eqb prev1 "?" || (ascii_eqb prev1 "-" && ascii_eqb prev2 "-").
Definition char_at (tx : list ascii) (p : nat) : ascii := default NUL (tx !! p).

(** From one [>] to the next until one ends the directive; when there is none left, the
    code looks at the characters before a NULL pointer. *)
Fixpoint directive_end (fuel : nat) (tx : list ascii) (p : nat) : option nat :=
  if ends_directive (char_at tx (p - 2)) (char_at tx (p - 1)) then Some p
  else match fuel with
       | O => None
       | S fuel => match strchr tx (S p) ">" with
                   | Some (Some p) => directive_end fuel tx p
                   | _ => None
                   end
       end.

(** A character no tag or quoted text may have. *)
Definition bad_char (c : ascii) : bool := negb (ascii_eqb c TAB) && is_forbidden c.
Definition range (tx : list ascii) (i p : nat) : list ascii := take (p - i) (drop i tx).

(** ** One turn of the loop: the value of [i] behind it, before [++i], and [came_from_data] *)

Definition lex_step (fsize i : nat) (s : out_t) (came_from_data : Z) : R (nat * out_t * Z) :=
  let* c := opt (s.1 !! i) in
  if is_whitespace c then ret (i, s, came_from_data)
  else if ascii_eqb c "<" then
    let* (s, came_from_data) :=
      (if came_from_data =? 1 then let* s := opt (emit LF s) in ret (s, 0) else ret (s, came_from_data)) in
    let* p := opt (strchr s.1 i ">") in
    match p with
    | None => fail ORCM_ERR_BAD_PARAM
    | Some p =>
        let* c1 := opt (s.1 !! S i) in
        if ascii_eqb c1 "!" || ascii_eqb c1 "?" then
          let* p := opt (directive_end (length s.1) s.1 p) in
          if bool_decide (fsize ≤ p)%nat then fail ORCM_ERR_BAD_PARAM else ret (p, s, came_from_data)
        else if existsb bad_char (range s.1 i p) then fail ORCM_ERR_BAD_PARAM
        else
          let* s := opt (copy id (p - S i) (S i) s) in
          let* s := opt (emit LF s) in
          ret (p, s, came_from_data)
    end
  else if ascii_eqb c QUOTE then
    let* p := opt (strchr s.1 (S i) QUOTE) in
    match p with
    | None => fail ORCM_ERR_BAD_PARAM
    | Some p =>
        if existsb bad_char (range s.1 i p) then fail ORCM_ERR_BAD_PARAM
        else
          let* s := opt (emit TAB s) in
          let* s := opt (copy (λ c, if ascii_eqb c TAB then " "%char else c) (p - S i) (S i) s) in
          let* s := opt (emit LF s) in
          ret (p, s, came_from_data)
    end
  else
    let* s := (if came_from_data =? 1 then ret s else opt (emit TAB s)) in
    let* s := opt (emit c s) in
    ret (i, s, 1).

(** [i] grows with every turn: [fuel = fsize] turns are enough. *)
Fixpoint lex_loop (fuel fsize i : nat) (s : out_t) (came_from_data : Z) : R out_t :=
  if bool_decide (i < fsize)%nat then
    match fuel with
    | O => None
    | S fuel => let* (i, s, came_from_data) := lex_step fsize i s came_from_data in
                lex_loop fuel fsize (S i) s came_from_data
    end
  else ret s.

(** ** The items

    The [char *] of an item is what the block holds from there on, so that [t[0]] is its
    head, [t + 1] its tail, which may be the text of the next item, and [c_text t] its text. *)
Abbreviation ptr := (list ascii).

Fixpoint item_starts (s : list ascii) (k i : nat) : list nat :=
  match s with
  | [] => []
  | c :: s => if ascii_eqb c LF then k :: item_starts s (S i) (S i) else item_starts s k (S i)
  end.

Definition with_nuls (s : list ascii) : list ascii := (λ c, if ascii_eqb c LF then NUL else c) <$> s.

Definition items_of (tx : list ascii) (text_length : nat) : list ptr :=
  let mem := with_nuls (take text_length tx) ++ drop text_length tx in
  (λ k, drop k mem) <$> item_starts (take text_length tx) 0 0.

Definition min_file_size : nat := 32.
Definition some_added_extra : nat := 32.
Definition block (bytes : list ascii) : list ascii := bytes ++ replicate some_added_extra NUL.

(** [None] is a file that cannot be opened. *)
Definition lex_xml (file : option (list ascii)) : R (list ptr) :=
  match file with
  | None => fail ORCM_ERR_NOT_FOUND
  | Some bytes =>
      let fsize := length bytes in
      if bool_decide (fsize < min_file_size)%nat then fail ORCM_ERROR
      else
        let* (tx, k) := lex_loop fsize fsize 0 (block bytes, 0%nat) (-1) in
        let* (tx, _) := opt (emit NUL (tx, k)) in
        let items := items_of tx k in
        if bool_decide (items = []) then fail ORCM_ERR_BAD_PARAM else ret items
  end.

(** ** The cut without a shared block

    [s] is what is still to be read, [slack] the number of characters by which the writing
    is behind, [data] says that unquoted data has not been closed.  The result is the text
    written, an item per line; it is not defined where a write would overtake the reading. *)

(** The text before the first [c] and behind it; NUL ends the text. *)
Fixpoint before (c : ascii) (s : list ascii) : option (list ascii * list ascii) :=
  match s with
  | [] => None
  | x :: s => if ascii_eqb x c then Some ([], s)
              else if ascii_eqb x NUL then None
              else match before c s with Some (a, b) => Some (x :: a, b) | None => None end
  end.

Fixpoint skip_directive (prev2 prev1 : ascii) (s : list ascii) : option (list ascii) :=
  match s with
  | [] => None
  | x :: s => if ascii_eqb x ">" && ends_directive prev2 prev1 then Some s
              else if ascii_eqb x NUL then None else skip_directive prev1 x s
  end.

Definition prepend (t : list ascii) (r : R (list ascii)) : R (list ascii) := let* u := r in ret (t ++ u).
Definition blank (c : ascii) : ascii := if ascii_eqb c TAB then " "%char else c.

Fixpoint lexed_text (fuel : nat) (s : list ascii) (slack : nat) (data : bool) : R (list ascii) :=
  match s, fuel with
  | [], _ => ret []
  | _, O => None
  | c :: s', S fuel =>
      if is_whitespace c then lexed_text fuel s' (S slack) data
      else if ascii_eqb c "<" then
        if data && bool_decide (slack = 0%nat) then None else
        let nl := if data then [LF] else [] in
        let slack := (slack - length nl)%nat in
        match before ">" s', s' with
        | Some (t, s2), c1 :: s3 =>
            if ascii_eqb c1 "!" || ascii_eqb c1 "?" then
              match skip_directive c c1 s3 with
              | Some s4 => prepend nl (lexed_text fuel s4 (slack + (length s - length s4))%nat false)
              | None => None
              end
            else if existsb bad_char t then fail ORCM_ERR_BAD_PARAM
            else prepend (nl ++ t ++ [LF]) (lexed_text fuel s2 (S slack) false)
        | _, _ => fail ORCM_ERR_BAD_PARAM
        end
      else if ascii_eqb c QUOTE then
        match before QUOTE s' with
        | Some (t, s2) =>
            if existsb bad_char t then fail ORCM_ERR_BAD_PARAM
            else prepend (TAB :: (blank <$> t) ++ [LF]) (lexed_text fuel s2 slack data)
        | None => fail ORCM_ERR_BAD_PARAM
        end
      else if data then prepend [c] (lexed_text fuel s' slack true)
      else if bool_decide (slack = 0%nat) then None
      else prepend [TAB; c] (lexed_text fuel s' (slack - 1)%nat true)
  end.


(** The lines that are ended; [cur] is the start of the first one. *)
Fixpoint lines (cur s : list ascii) : list (list ascii) :=
  match s with
  | [] => []
  | c :: s => if ascii_eqb c LF then cur :: lines [] s else lines (cur ++ [c]) s
  end.

(** The texts of the items of a file, by this cut. *)
Definition texts_of (bytes : list ascii) : R (list cstring) :=
  let* t := lexed_text (length bytes) bytes 0 false in
  match lines [] t with
  | [] => fail ORCM_ERR_BAD_PARAM
  | ls => ret (c_text <$> ls)
  end.

(** ** The two cuts agree *)

Lemma bind_ret {A B} (a : A) (k : A → R B) : bindR (ret a) k = k a.
Proof. done. Qed.

Lemma bind_assoc {A B C} (m : R A) (f : A → R B) (g : B → R C) : bindR (bindR m f) g = bindR m (λ a, bindR (f a) g).
Proof. by destruct m as [[|]|]. Qed.

Lemma before_eq c s a b : before c s = Some (a, b) → s = a ++ c :: b.
Proof.
  revert a b. induction s as [|x s IH]; intros a b; cbn; [done|].
  destruct (ascii_eqb x c) eqn:E; [apply ascii_eqb_eq in E as ->; by intros [= <- <-]|].
  destruct (ascii_eqb x NUL); [done|]. destruct (before c s) as [[a' b']|]; [|done].
  intros [= <- <-]. cbn. f_equal. by apply IH.
Qed.

Lemma scan_before c s n p : c ≠ NUL → (0 < n)%nat →
  scan c (s ++ replicate n NUL) p = Some ((λ ab, (p + length ab.1)%nat) <$> before c s).
Proof.
  intros Hc Hn. revert p. induction s as [|x s IH]; intros p; cbn.
  - destruct n as [|n]; [lia|]. cbn. assert (ascii_eqb NUL c = false) as -> by (by apply ascii_eqb_neq).
    by assert (ascii_eqb NUL NUL = true) as -> by (by apply ascii_eqb_eq).
  - destruct (ascii_eqb x c); cbn; [by rewrite Nat.add_0_r|]. destruct (ascii_eqb x NUL); [done|].
    rewrite IH. destruct (before c s) as [[a b]|]; cbn; [|done]. do 2 f_equal. lia.
Qed.

Lemma skip_length prev2 prev1 s r : skip_directive prev2 prev1 s = Some r → (length r < length s)%nat.
Proof.
  revert prev2 prev1. induction s as [|x s IH]; intros prev2 prev1; cbn; [done|]. case_match; [intros [= <-]; lia|].
  case_match; [done|]. intros Hr%IH. lia.
Qed.

Section block.
Context (bytes : list ascii).
Local Abbreviation src := (block bytes).

(** The block while [out] has been written over its front. *)
Definition written (out : list ascii) : out_t := (out ++ drop (length out) src, length out).

Lemma written_length out : (length out ≤ length src)%nat → length (written out).1 = length src.
Proof. intros H. unfold written. cbn. rewrite length_app, length_drop. lia. Qed.

Lemma written_drop out i : (length out ≤ i)%nat → drop i (written out).1 = drop i src.
Proof.
  intros H. unfold written. cbn [fst]. rewrite drop_app_ge by lia. rewrite drop_drop. f_equal. lia.
Qed.

Lemma written_lookup out i : (length out ≤ i)%nat → (written out).1 !! i = src !! i.
Proof. intros H. rewrite <-(Nat.add_0_r i), <-!lookup_drop, written_drop; done. Qed.

Lemma emit_written c out : (length out < length src)%nat → emit c (written out) = Some (written (out ++ [c])).
Proof.
  intros H. destruct (lookup_lt_is_Some_2 src (length out)) as [x Hx]; [done|].
  unfold emit, written. rewrite bool_decide_true by (rewrite length_app, length_drop; lia).
  f_equal. rewrite length_app. cbn [length]. rewrite Nat.add_1_r. f_equal. rewrite insert_app_r_alt by lia.
  by rewrite Nat.sub_diag, <-app_assoc, (drop_S src x) by done.
Qed.

Lemma copy_written f n q out : (length out ≤ q)%nat → (q + n ≤ length src)%nat →
  copy f n q (written out) = Some (written (out ++ (f <$> take n (drop q src)))).
Proof.
  revert q out. induction n as [|n IH]; intros q out Hq Hn; cbn [copy].
  - by rewrite take_0, app_nil_r.
  - rewrite written_lookup by done. destruct (lookup_lt_is_Some_2 src q) as [c Hc]; [lia|]. rewrite Hc.
    rewrite emit_written by lia. rewrite IH by (rewrite ?length_app; cbn; lia).
    by rewrite (drop_S src c q Hc), <-app_assoc.
Qed.

(** [s] is what the file holds from [i] on. *)
Definition unread (i : nat) (s : list ascii) : Prop := drop i bytes = s ∧ (i + length s = length bytes)%nat.

Lemma unread_app i a s : unread i (a ++ s) → unread (i + length a) s.
Proof.
  intros [H1 H2]. rewrite length_app in H2. split; [|lia]. by rewrite <-drop_drop, H1, drop_app_length.
Qed.

Lemma unread_cons i c s : unread i (c :: s) → unread (S i) s.
Proof. intros H. rewrite <-Nat.add_1_r. by apply (unread_app i [c]). Qed.

Lemma unread_before i c s t s2 : unread i s → before c s = Some (t, s2) →
  unread (i + S (length t)) s2 ∧ length s = (length t + S (length s2))%nat.
Proof.
  intros Hs Hb%before_eq. subst s. split; [|by rewrite length_app]. change (t ++ c :: s2) with (t ++ [c] ++ s2) in Hs.
  rewrite app_assoc in Hs. apply unread_app in Hs. by rewrite length_app, Nat.add_1_r in Hs.
Qed.

Lemma unread_src i s : unread i s → drop i src = s ++ replicate some_added_extra NUL.
Proof. intros [H1 H2]. unfold block. rewrite drop_app_le by lia. by rewrite H1. Qed.

Lemma unread_lookup i c s : unread i (c :: s) → src !! i = Some c.
Proof. intros H%unread_src. by rewrite <-(Nat.add_0_r i), <-lookup_drop, H. Qed.

Lemma unread_bound i s : unread i s → (i + length s + some_added_extra = length src)%nat.
Proof. intros [_ H]. unfold block. rewrite length_app, length_replicate. lia. Qed.

Lemma strchr_written out i s c : unread i s → (length out ≤ i)%nat → c ≠ NUL →
  strchr (written out).1 i c = Some ((λ ab, (i + length ab.1)%nat) <$> before c s).
Proof.
  intros Hs Hi Hc. unfold strchr. rewrite written_drop, (unread_src i s) by done. apply scan_before; [done|]. unfold some_added_extra. lia.
Qed.

Lemma range_written out i a s : unread i (a ++ s) → (length out ≤ i)%nat → range (written out).1 i (i + length a) = a.
Proof.
  intros Hs Hi. unfold range. rewrite written_drop, (unread_src _ _ Hs) by done.
  replace (i + length a - i)%nat with (length a) by lia. by rewrite <-app_assoc, take_app_length.
Qed.

(** From [j] on, the directive ends where [skip_directive] says. *)
Lemma directive_written out fuel s prev2 prev1 j :
  unread j s → (length out ≤ j - 2)%nat → (2 ≤ j)%nat → (length s ≤ fuel)%nat →
  src !! (j - 2)%nat = Some prev2 → src !! (j - 1)%nat = Some prev1 →
  match strchr (written out).1 j ">" with Some (Some p) => directive_end fuel (written out).1 p | _ => None end =
  (λ r, (j + (length s - length r) - 1)%nat) <$> skip_directive prev2 prev1 s.
Proof.
  intros Hs Hj. revert fuel prev2 prev1 j Hs Hj. induction s as [|x s IH]; intros fuel prev2 prev1 j Hs Hj Hj2 Hf H2 H1.
  { by rewrite (strchr_written _ _ _ _ Hs) by (done || lia). }
  assert (∀ fuel, (length s ≤ fuel)%nat →
    match strchr (written out).1 (S j) ">" with Some (Some p) => directive_end fuel (written out).1 p | _ => None end =
    (λ r, (S j + (length s - length r) - 1)%nat) <$> skip_directive prev1 x s) as IHs.
  { intros fuel' Hf'. apply IH; [by eapply unread_cons|lia|lia|done|by replace (S j - 2)%nat with (j - 1)%nat by lia|].
    replace (S j - 1)%nat with j by lia. by eapply unread_lookup. }
  pose proof (λ r, skip_length prev1 x s r) as Hr.
  rewrite (strchr_written _ _ _ _ Hs) by (done || lia). cbn [before skip_directive]. cbn [length] in Hf.
  destruct (ascii_eqb x ">") eqn:Ex; cbn [andb].
  - cbn [fmap option_fmap option_map fst length]. rewrite Nat.add_0_r. destruct fuel as [|fuel]; [lia|].
    cbn [directive_end]. unfold char_at. rewrite !written_lookup, H2, H1 by lia. cbn [from_option id].
    destruct (ends_directive prev2 prev1); [cbn -[Nat.sub Nat.add]; f_equal; lia|].
    apply ascii_eqb_eq in Ex as ->. assert (ascii_eqb ">" NUL = false) as -> by done. rewrite IHs by lia.
    destruct (skip_directive prev1 ">" s) as [r|]; [|done]. cbn. f_equal. specialize (Hr r eq_refl). lia.
  - specialize (IHs fuel ltac:(lia)). rewrite (strchr_written _ _ _ _ (unread_cons _ _ _ Hs)) in IHs by (done || lia).
    destruct (ascii_eqb x NUL); [done|].
    transitivity ((λ r, (S j + (length s - length r) - 1)%nat) <$> skip_directive prev1 x s).
    + rewrite <-IHs. destruct (before ">" s) as [[a b]|]; cbn; [|done]. f_equal. lia.
    + destruct (skip_directive prev1 x s) as [r|]; [|done]. cbn. f_equal. specialize (Hr r eq_refl). lia.
Qed.

Lemma unread_skip i prev2 prev1 s r : unread i s → skip_directive prev2 prev1 s = Some r → unread (i + (length s - length r)) r.
Proof.
  revert i prev2 prev1. induction s as [|x s IH]; intros i prev2 prev1 Hs; cbn [skip_directive]; [done|].
  case_match; [intros [= <-]; cbn [length]; replace (i + (S (length s) - length s))%nat with (S i) by lia; by eapply unread_cons|].
  case_match; [done|]. intros Hr. pose proof (skip_length _ _ _ _ Hr) as Hl. cbn [length].
  replace (i + (S (length s) - length r))%nat with (S i + (length s - length r))%nat by lia.
  eapply IH; [by eapply unread_cons|done].
Qed.

(** *** The turns of the loop *)

Local Abbreviation fsize := (length bytes).
Local Abbreviation step := (lex_step fsize).

Lemma opt_bind {A B} (a : A) (k : A → R B) : bindR (opt (Some a)) k = k a.
Proof. done. Qed.

Lemma step_blank i c s out came : unread i (c :: s) → (length out ≤ i)%nat → is_whitespace c = true →
  step i (written out) came = ret (i, written out, came).
Proof. intros Hs Hi Hc. unfold lex_step. by rewrite written_lookup, (unread_lookup _ _ _ Hs), opt_bind, Hc. Qed.

Lemma step_quoted i s out came : unread i (QUOTE :: s) → (length out ≤ i)%nat →
  step i (written out) came =
  match before QUOTE s with
  | Some (t, s2) =>
      if existsb bad_char t then fail ORCM_ERR_BAD_PARAM
      else ret ((i + S (length t))%nat, written (out ++ TAB :: (blank <$> t) ++ [LF]), came)
  | None => fail ORCM_ERR_BAD_PARAM
  end.
Proof.
  intros Hs Hi. pose proof (unread_bound _ _ Hs) as Hl. cbn [length] in Hl. pose proof (unread_cons _ _ _ Hs) as Hs1.
  unfold lex_step. rewrite written_lookup, (unread_lookup _ _ _ Hs), opt_bind by done.
  assert (is_whitespace QUOTE = false ∧ ascii_eqb QUOTE "<" = false ∧ ascii_eqb QUOTE QUOTE = true) as (-> & -> & ->) by done.
  rewrite (strchr_written _ _ _ _ Hs1) by (done || lia). rewrite opt_bind.
  destruct (before QUOTE s) as [[t s2]|] eqn:Eb; [|done]. cbn [fmap option_fmap option_map fst]. apply before_eq in Eb as ->.
  rewrite length_app in Hl. cbn [length] in Hl.
  replace (S i + length t)%nat with (i + length (QUOTE :: t))%nat by (cbn; lia).
  rewrite (range_written _ _ _ (QUOTE :: s2)) by (cbn [app]; done). cbn [existsb]. assert (bad_char QUOTE = false) as -> by done. cbn [orb].
  destruct (existsb bad_char t); [done|]. rewrite emit_written, opt_bind by lia. cbn [length].
  replace (i + S (length t) - S i)%nat with (length t) by lia.
  rewrite copy_written, opt_bind by (rewrite ?length_app; cbn [length]; lia).
  rewrite (unread_src _ _ Hs1), <-(app_assoc t), take_app_length.
  rewrite emit_written, opt_bind by (rewrite !length_app, length_fmap; cbn [length]; lia). by rewrite <-!app_assoc.
Qed.

Lemma step_plain i c s out came : unread i (c :: s) → (length out ≤ i)%nat →
  is_whitespace c = false → ascii_eqb c "<" = false → ascii_eqb c QUOTE = false →
  step i (written out) came = ret (i, written (out ++ if came =? 1 then [c] else [TAB; c]), 1).
Proof.
  intros Hs Hi H1 H2 H3. pose proof (unread_bound _ _ Hs) as Hl. cbn [length] in Hl. unfold some_added_extra in Hl.
  unfold lex_step. rewrite written_lookup, (unread_lookup _ _ _ Hs), opt_bind, H1, H2, H3 by done.
  destruct (came =? 1); cbn [bindR ret]; rewrite ?emit_written, ?opt_bind by lia; [done|].
  rewrite emit_written, opt_bind by (rewrite length_app; cbn [length]; lia). by rewrite <-app_assoc.
Qed.

(** What the code does at a [<] before it looks for the [>]. *)
Definition nl_of (came : Z) : list ascii := if came =? 1 then [LF] else [].
Definition closed (came : Z) : Z := if came =? 1 then 0 else came.

Lemma step_open i s out came : unread i ("<"%char :: s) → (length out + length (nl_of came) ≤ i)%nat →
  step i (written out) came =
  match before ">" s, s with
  | Some (t, s2), c1 :: s3 =>
      if ascii_eqb c1 "!" || ascii_eqb c1 "?" then
        match skip_directive "<" c1 s3 with
        | Some s4 => ret ((fsize - length s4 - 1)%nat, written (out ++ nl_of came), closed came)
        | None => None
        end
      else if existsb bad_char t then fail ORCM_ERR_BAD_PARAM
      else ret ((i + S (length t))%nat, written (out ++ nl_of came ++ t ++ [LF]), closed came)
  | _, _ => fail ORCM_ERR_BAD_PARAM
  end.
Proof.
  intros Hs Hi. pose proof (unread_bound _ _ Hs) as Hl. cbn [length] in Hl. unfold some_added_extra in Hl.
  unfold lex_step. rewrite written_lookup, (unread_lookup _ _ _ Hs), opt_bind by lia.
  assert (is_whitespace "<" = false ∧ ascii_eqb "<" "<" = true) as (-> & ->) by done.
  assert ((if came =? 1 then bindR (opt (emit LF (written out))) (λ s, ret (s, 0)) else ret (written out, came)) =
    ret (written (out ++ nl_of came), closed came)) as ->.
  { unfold nl_of, closed in *. destruct (came =? 1); [|by rewrite app_nil_r]. cbn [length] in Hi. by rewrite emit_written by lia. }
  set (out' := out ++ nl_of came). assert (length out' ≤ i)%nat as Ho by (unfold out'; rewrite length_app; lia).
  cbn [bindR ret]. rewrite (strchr_written _ _ _ _ Hs), opt_bind by done. cbn [before].
  assert (ascii_eqb "<" ">" = false ∧ ascii_eqb "<" NUL = false) as (-> & ->) by done.
  destruct (before ">" s) as [[t s2]|] eqn:Eb; [|done]. cbn [fmap option_fmap option_map fst length].
  pose proof (before_eq _ _ _ _ Eb) as Es.
  destruct s as [|c1 s3]; [by destruct t|]. pose proof (unread_cons _ _ _ Hs) as Hs1.
  rewrite written_lookup, (unread_lookup _ _ _ Hs1), opt_bind by lia.
  destruct (ascii_eqb c1 "!" || ascii_eqb c1 "?") eqn:Ec.
  - pose proof (unread_cons _ _ _ Hs1) as Hs2. pose proof (unread_bound _ _ Hs2) as Hl2. unfold some_added_extra in Hl2.
    pose proof (directive_written out' (length src) s3 "<"%char c1 (S (S i)) Hs2) as Hd. cbn [Nat.sub] in Hd. rewrite Nat.sub_0_r in Hd.
    specialize (Hd Ho ltac:(lia) ltac:(lia) (unread_lookup _ _ _ Hs) (unread_lookup _ _ _ Hs1)).
    rewrite (strchr_written _ _ _ _ Hs2) in Hd by (done || lia). cbn [before] in Eb.
    assert (ascii_eqb c1 ">" = false ∧ ascii_eqb c1 NUL = false) as [E1 E2]
      by (apply orb_true_iff in Ec as [Ec|Ec]; apply ascii_eqb_eq in Ec as ->; done). rewrite E1, E2 in Eb.
    destruct (before ">" s3) as [[t' b]|] eqn:Eb'; [|done]. injection Eb as <- <-. cbn [fmap option_fmap option_map fst] in Hd.
    rewrite written_length by (unfold some_added_extra in *; lia). cbn [length].
    replace (i + S (S (length t')))%nat with (S (S i) + length t')%nat by lia. rewrite Hd.
    destruct (skip_directive "<" c1 s3) as [s4|] eqn:E4; [|done]. cbn [fmap option_fmap option_map]. rewrite opt_bind.
    assert (length s4 < length s3)%nat as H4 by (by eapply skip_length). destruct Hs2 as [_ Hs2].
    rewrite bool_decide_false by lia. unfold ret. repeat f_equal. lia.
  - replace (i + S (length t))%nat with (i + length ("<"%char :: t))%nat by (cbn; lia).
    rewrite (range_written _ _ _ (">"%char :: s2)) by (cbn [app]; congruence). cbn [existsb].
    assert (bad_char "<" = false) as -> by done. cbn [orb]. destruct (existsb bad_char t); [done|]. cbn [length].
    rewrite Es, length_app in Hl. cbn [length] in Hl. rewrite Es in Hs1.
    replace (i + S (length t) - S i)%nat with (length t) by lia. rewrite copy_written, opt_bind by lia.
    rewrite (unread_src _ _ Hs1), <-app_assoc, take_app_length, list_fmap_id.
    rewrite emit_written, opt_bind by (rewrite !length_app; lia). unfold out'. by rewrite <-!app_assoc.
Qed.

Definition outcome (out : list ascii) (r : Z + list ascii) : R out_t :=
  match r with inl rc => fail rc | inr t => ret (written (out ++ t)) end.

Lemma prepend_Some t m r : prepend t m = Some r →
  ∃ r', m = Some r' ∧ ∀ out, outcome out r = outcome (out ++ t) r'.
Proof.
  unfold prepend, bindR, outcome. destruct m as [[rc|u]|]; [| |done]; intros [= <-]; eexists; (split; [done|]); intros out; [done|].
  by rewrite app_assoc.
Qed.

(** While the writing stays behind, the block does not matter. *)
Lemma loop_written fuel s i out came r : unread i s → (length out ≤ i)%nat → (length s ≤ fuel)%nat →
  lexed_text fuel s (i - length out) (came =? 1) = Some r →
  lex_loop fuel fsize i (written out) came = outcome out r.
Proof.
  revert s i out came r. induction fuel as [|fuel IH]; intros s i out came r Hs Hi Hf.
  { destruct s; [|cbn in Hf; lia]. destruct Hs as [_ Hs]. cbn in *. rewrite bool_decide_false by lia. intros [= <-]. cbn. by rewrite app_nil_r. }
  destruct s as [|c s]; [destruct Hs as [_ Hs]; cbn in *; rewrite bool_decide_false by lia; intros [= <-]; cbn; by rewrite app_nil_r|].
  cbn [lexed_text lex_loop]. cbn [length] in Hf. rewrite (bool_decide_true (i < fsize)%nat) by (destruct Hs as [_ Hs]; cbn in Hs; lia).
  pose proof (unread_cons _ _ _ Hs) as Hs1.
  destruct (is_whitespace c) eqn:Hw.
  { rewrite (step_blank _ _ _ _ _ Hs Hi Hw). cbn [bindR ret]. intros H. apply (IH s); [done|lia|lia|]. by replace (S i - length out)%nat with (S (i - length out)) by lia. }
  destruct (ascii_eqb c "<") eqn:Hc1.
  { apply ascii_eqb_eq in Hc1 as ->. destruct ((came =? 1) && bool_decide ((i - length out)%nat = 0%nat)) eqn:Ed; [done|].
    assert (length out + length (nl_of came) ≤ i)%nat as Hi'.
    { unfold nl_of. destruct (came =? 1); cbn in *; [|lia]. apply bool_decide_eq_false in Ed. lia. }
    rewrite (step_open _ _ _ _ Hs Hi'). fold (nl_of came).
    assert (closed came =? 1 = false) as Hcl by (unfold closed; destruct (came =? 1) eqn:E; done).
    destruct (before ">" s) as [[t s2]|] eqn:Eb; [|by intros [= <-]]. destruct s as [|c1 s3] eqn:Es; [by destruct t|].
    destruct (ascii_eqb c1 "!" || ascii_eqb c1 "?").
    - destruct (skip_directive "<" c1 s3) as [s4|] eqn:E4; [|done]. intros (r' & Hr & ->)%prepend_Some. cbn [bindR ret].
      pose proof (skip_length _ _ _ _ E4) as H4. pose proof (unread_skip _ _ _ _ _ (unread_cons _ _ _ Hs1) E4) as Hs4.
      cbn [length] in *. pose proof Hs4 as [_ Hl4]. pose proof Hs as [_ Hl]. cbn [length] in Hl.
      replace (S (fsize - length s4 - 1))%nat with (fsize - length s4)%nat by lia.
      apply (IH s4); [by replace (fsize - length s4)%nat with (S (S i) + (length s3 - length s4))%nat by lia|rewrite length_app; lia|lia|].
      rewrite Hcl, length_app. rewrite <-Hr. f_equal. lia.
    - destruct (existsb bad_char t); [by intros [= <-]|]. intros (r' & Hr & ->)%prepend_Some. cbn [bindR ret].
      destruct (unread_before _ _ _ _ _ Hs1 Eb) as [Hs2 Hl2]. cbn [length] in Hf, Hl2.
      apply (IH s2); [by replace (S (i + S (length t))) with (S i + S (length t))%nat by lia|rewrite !length_app; cbn [length]; lia|lia|].
      rewrite Hcl, <-Hr, !length_app. cbn [length]. f_equal. lia. }
  destruct (ascii_eqb c QUOTE) eqn:Hc2.
  { apply ascii_eqb_eq in Hc2 as ->. rewrite (step_quoted _ _ _ _ Hs Hi).
    destruct (before QUOTE s) as [[t s2]|] eqn:Eb; [|by intros [= <-]].
    destruct (existsb bad_char t); [by intros [= <-]|]. intros (r' & Hr & ->)%prepend_Some. cbn [bindR ret].
    destruct (unread_before _ _ _ _ _ Hs1 Eb) as [Hs2 Hl2].
    apply (IH s2); [by replace (S (i + S (length t))) with (S i + S (length t))%nat by lia| |lia|].
    - rewrite length_app. cbn [length]. rewrite length_app, length_fmap. cbn [length]. lia.
    - rewrite <-Hr, length_app. cbn [length]. rewrite length_app, length_fmap. cbn [length]. f_equal. lia. }
  rewrite (step_plain _ _ _ _ _ Hs Hi Hw Hc1 Hc2). cbn [bindR ret]. destruct (came =? 1).
  - intros (r' & Hr & ->)%prepend_Some. apply (IH s); [done|rewrite length_app; cbn; lia|lia|].
    rewrite length_app. cbn [length]. rewrite <-Hr. f_equal. lia.
  - destruct (bool_decide_reflect ((i - length out)%nat = 0%nat)); [done|].
    intros (r' & Hr & ->)%prepend_Some. apply (IH s); [done|rewrite length_app; cbn; lia|lia|].
    rewrite length_app. cbn [length]. rewrite <-Hr. f_equal. lia.
Qed.

End block.

(** The text that begins at [t] is [s]. *)
Definition reads (t : ptr) (s : cstring) : Prop := ∃ r, t = s ++ NUL :: r.

Lemma reads_text t s : reads t s → c_text t = c_text s.
Proof.
  intros [r ->]. unfold c_text, cut. induction s as [|c s IH]; [done|]. cbn. destruct (ascii_eqb c NUL); [done|]. cbn.
  destruct (span _ (s ++ _)) as [a b], (span _ s) as [a' b']. destruct b, b'; cbn in *; by rewrite IH.
Qed.

Lemma with_nuls_plain s : Forall (λ c, c ≠ LF) s → with_nuls s = s.
Proof.
  unfold with_nuls. induction 1 as [|c s Hc _ IH]; [done|]. cbn. rewrite IH. by assert (ascii_eqb c LF = false) as -> by (by apply ascii_eqb_neq).
Qed.

Lemma items_lines pre cur s rest : Forall (λ c, c ≠ LF) cur →
  Forall2 reads ((λ k, drop k (with_nuls (pre ++ cur ++ s) ++ rest)) <$> item_starts s (length pre) (length (pre ++ cur))) (lines cur s).
Proof.
  revert pre cur. induction s as [|c s IH]; intros pre cur Hcur; [done|]. cbn [item_starts lines].
  destruct (ascii_eqb c LF) eqn:Ec.
  - apply ascii_eqb_eq in Ec as ->. cbn [fmap list_fmap]. constructor.
    + eexists (with_nuls s ++ rest). unfold with_nuls. rewrite !fmap_app, <-!app_assoc, drop_app_length' by (by rewrite length_fmap).
      fold (with_nuls cur). rewrite with_nuls_plain by done. done.
    + specialize (IH (pre ++ cur ++ [LF]) []). rewrite !app_nil_r, <-!app_assoc in IH. cbn [app] in IH.
      replace (S (length (pre ++ cur))) with (length (pre ++ cur ++ [LF])) by (rewrite !length_app; cbn; lia). by apply IH.
  - specialize (IH pre (cur ++ [c])). rewrite <-!app_assoc in IH. cbn [app] in IH.
    replace (S (length (pre ++ cur))) with (length (pre ++ cur ++ [c])) by (rewrite !length_app; cbn; lia).
    apply IH. apply Forall_app_2; [done|]. apply Forall_singleton. by apply ascii_eqb_neq.
Qed.

Lemma prepend_length a m t n : prepend a m = ret t → (∀ u, m = ret u → (length u ≤ n)%nat) → (length t ≤ length a + n)%nat.
Proof.
  unfold prepend, bindR, ret. destruct m as [[|u]|]; try done. intros [= <-] H. specialize (H u eq_refl). rewrite length_app. lia.
Qed.

Lemma lexed_length fuel s slack data t : lexed_text fuel s slack data = ret t → (length t ≤ slack + length s)%nat.
Proof.
  revert s slack data t. induction fuel as [|fuel IH]; intros [|c s] slack data t; cbn [lexed_text]; try done;
    [by intros [= <-]; cbn; lia|by intros [= <-]; cbn; lia|].
  destruct (is_whitespace c); [intros H%IH; cbn; lia|]. destruct (ascii_eqb c "<").
  { destruct (data && bool_decide (slack = 0%nat)) eqn:Ed; [done|]. set (nl := if data then [LF] else []).
    assert (length nl ≤ slack)%nat as Hn by (subst nl; destruct data; [apply bool_decide_eq_false in Ed|]; cbn; lia).
    destruct (before ">" s) as [[a s2]|] eqn:Eb; [|done]. destruct s as [|c1 s3]; [done|]. destruct (ascii_eqb c1 "!" || ascii_eqb c1 "?").
    - destruct (skip_directive c c1 s3) as [s4|] eqn:E4; [|done]. intros H. apply skip_length in E4.
      eapply prepend_length in H; [|intros u Hu; exact (IH _ _ _ _ Hu)]. cbn [length] in *. lia.
    - destruct (existsb bad_char a); [done|]. intros H. apply before_eq in Eb.
      eapply prepend_length in H; [|intros u Hu; exact (IH _ _ _ _ Hu)]. rewrite Eb in *. rewrite !length_app in H. cbn [length] in *.
      rewrite length_app. cbn [length]. lia. }
  destruct (ascii_eqb c QUOTE).
  { destruct (before QUOTE s) as [[a s2]|] eqn:Eb; [|done]. destruct (existsb bad_char a); [done|]. intros H. apply before_eq in Eb as ->.
    eapply prepend_length in H; [|intros u Hu; exact (IH _ _ _ _ Hu)]. cbn [length] in *. rewrite !length_app, length_fmap in *.
    cbn [length] in *. lia. }
  destruct data; [|destruct (bool_decide_reflect (slack = 0%nat)); [done|]]; intros H;
    (eapply prepend_length in H; [|intros u Hu; exact (IH _ _ _ _ Hu)]; cbn [length] in *; lia).
Qed.

(** The items of [lex_xml] when the writing stays behind. *)
Lemma lex_xml_lines bytes r : (min_file_size ≤ length bytes)%nat → lexed_text (length bytes) bytes 0 false = Some r →
  match r with
  | inl rc => lex_xml (Some bytes) = fail rc
  | inr t => ∃ items, Forall2 reads items (lines [] t) ∧
      lex_xml (Some bytes) = if bool_decide (items = []) then fail ORCM_ERR_BAD_PARAM else ret items
  end.
Proof.
  intros Hl Ht. unfold lex_xml. rewrite bool_decide_false by lia. change (block bytes, 0%nat) with (written bytes []).
  rewrite (loop_written bytes (length bytes) bytes 0 [] (-1) r); [|split; [by rewrite drop_0|done]|cbn; lia|lia|done].
  destruct r as [rc|t]; [done|]. apply lexed_length in Ht. cbn [Nat.add] in Ht.
  cbn [outcome bindR ret app]. unfold outcome. cbn [app bindR ret].
  assert (length t < length (block bytes))%nat as Hb by (unfold block, some_added_extra; rewrite length_app, length_replicate; lia).
  pose proof (emit_written bytes NUL t Hb) as He. unfold written in He at 1. unfold written at 1. rewrite He, opt_bind.
  unfold written. rewrite length_app. eexists. split; [|done]. unfold items_of. rewrite <-!app_assoc, take_app_length, drop_app_length.
  apply (items_lines [] [] t). constructor.
Qed.

(** C7. The lexer works in place, but as long as a write never overtakes the reading the
    items of a file have the texts that the cut without a shared block gives, and the
    errors are the same. *)
Theorem lex_in_place bytes r : (min_file_size ≤ length bytes)%nat → texts_of bytes = Some r →
  (let* items := lex_xml (Some bytes) in ret (c_text <$> items)) = Some r.
Proof.
  unfold texts_of. intros Hl Ht. destruct (lexed_text (length bytes) bytes 0 false) as [[rc|t]|] eqn:E; [| |done].
  - apply (lex_xml_lines bytes (inl rc) Hl) in E. by rewrite E.
  - apply (lex_xml_lines bytes (inr t) Hl) in E as (items & Hi & ->). cbn [bindR] in Ht.
    assert (c_text <$> items = c_text <$> lines [] t) as Htx.
    { clear -Hi. induction Hi as [|x l xs ls Hx _ IH]; [done|]. cbn. by rewrite IH, (reads_text x l). }
    destruct (lines [] t) as [|l ls], items as [|x xs]; inversion Hi; subst; cbn [bool_decide] in *; [by rewrite <-Ht|].
    rewrite bool_decide_false by done. cbn [bindR ret]. by rewrite Htx.
Qed.

End XmlLex.
