(* ===== verification/XmlDoc.v ===== *)
(** * Configuration documents and how they are written

    A document is a list of fields, a tag with its data, and sections, a tag with what it
    encloses.  [spells] relates it to every text it may be written as: with blanks and
    directives between the tags, and with data quoted or not.  [lex_document] says that
    lex_xml reads all these texts as the items of the document. *)

From Stdlib Require Import ZArith Lia Ascii.
From stdpp Require Import prelude numbers strings gmap list.
From S2P Require Import Prelude CString CfgiFile30 XmlLex.

Local Open Scope Z_scope.

Module XmlDoc.
Import CfgiFile30 XmlLex.

Inductive content :=
  | Field (tag data : cstring)
  | Sect (tag : cstring) (body : list content).

(** Induction through the bodies. *)
Lemma content_induction (P : content → Prop) :
  (∀ tag data, P (Field tag data)) → (∀ tag body, Forall P body → P (Sect tag body)) → ∀ c, P c.
Proof.
  intros HF HS. fix IH 1. intros [tag data|tag body]; [apply HF|]. apply HS. induction body; constructor; [apply IH|done].
Qed.

(** ** Items: data begins with a tab, a closing tag with a slash *)

Definition SLASH : ascii := "/"%char.

Fixpoint items (c : content) : list cstring :=
  match c with
  | Field tag data => [tag; TAB :: data; SLASH :: tag]
  | Sect tag body => tag :: flat_map items body ++ [SLASH :: tag]
  end.
Abbreviation items_of_list := (flat_map items).

(** ** Texts *)

(** A character that may be in a tag or in quoted data. *)
Definition visible (c : ascii) : Prop := bad_char c = false ∧ c ≠ TAB.

Definition tag_ok (tag : cstring) : Prop :=
  Forall (λ c, visible c ∧ c ≠ ">"%char) tag ∧
  match tag with c :: _ => c ≠ "!"%char ∧ c ≠ "?"%char ∧ c ≠ SLASH | [] => False end.

Definition open_tag (tag : cstring) : list ascii := "<"%char :: tag ++ [">"%char].
Definition close_tag (tag : cstring) : list ascii := "<"%char :: SLASH :: tag ++ [">"%char].

(** A directive: [d] follows the [<], and the first [>] that may end it does. *)
Definition directive_ok (d : list ascii) : Prop :=
  match d with
  | c1 :: d => (c1 = "!"%char ∨ c1 = "?"%char) ∧ ∀ s, skip_directive "<" c1 (d ++ s) = Some s ∧ is_Some (before ">" (c1 :: d ++ s))
  | [] => False
  end.

(** Data, quoted or not, with the blanks around it.  In unquoted data blanks do not count. *)
Inductive value_text : cstring → list ascii → Prop :=
  | quoted l t r :
      Forall (λ c, is_whitespace c = true) l → Forall (λ c, is_whitespace c = true) r →
      Forall (λ c, bad_char c = false ∧ c ≠ QUOTE) t →
      value_text (blank <$> t) (l ++ QUOTE :: t ++ QUOTE :: r)
  | plain t :
      Forall (λ c, c ≠ "<"%char ∧ c ≠ QUOTE ∧ c ≠ NUL) t → filter (λ c, is_whitespace c = false) t ≠ [] →
      value_text (filter (λ c, is_whitespace c = false) t) t.

Inductive spells : list content → list ascii → Prop :=
  | spells_nil : spells [] []
  | spells_blank c l s : is_whitespace c = true → spells l s → spells l (c :: s)
  | spells_directive d l s : directive_ok d → spells l s → spells l ("<"%char :: d ++ s)
  | spells_field tag data v l s : tag_ok tag → value_text data v → spells l s →
      spells (Field tag data :: l) (open_tag tag ++ v ++ close_tag tag ++ s)
  | spells_sect tag body t l s : tag_ok tag → spells body t → spells l s →
      spells (Sect tag body :: l) (open_tag tag ++ t ++ close_tag tag ++ s).

(** ** Reading a text *)

(** Reading [a] writes [out]. *)
Definition eats (a : list ascii) (sl : nat) (d : bool) (out : list ascii) (sl' : nat) (d' : bool) : Prop :=
  ∀ fuel rest, (length (a ++ rest) ≤ fuel)%nat → ∃ fuel', (length rest ≤ fuel')%nat ∧
    lexed_text fuel (a ++ rest) sl d = prepend out (lexed_text fuel' rest sl' d').

Lemma prepend_nil m : prepend [] m = m.
Proof. by destruct m as [[|]|]. Qed.

Lemma prepend_app a b m : prepend a (prepend b m) = prepend (a ++ b) m.
Proof. destruct m as [[|u]|]; [done| |done]. cbn. unfold ret. by rewrite app_assoc. Qed.

Lemma eats_nil sl d : eats [] sl d [] sl d.
Proof. intros fuel rest Hf. exists fuel. by rewrite prepend_nil. Qed.

Lemma eats_app a b sl d o1 sl1 d1 o2 sl2 d2 :
  eats a sl d o1 sl1 d1 → eats b sl1 d1 o2 sl2 d2 → eats (a ++ b) sl d (o1 ++ o2) sl2 d2.
Proof.
  intros Ha Hb fuel rest Hf. rewrite <-app_assoc in Hf. destruct (Ha fuel (b ++ rest) Hf) as (f1 & Hf1 & E1).
  destruct (Hb f1 rest Hf1) as (f2 & Hf2 & E2). exists f2. split; [done|]. by rewrite <-app_assoc, E1, E2, prepend_app.
Qed.

Lemma before_app c a s : Forall (λ x, x ≠ c ∧ x ≠ NUL) a → before c (a ++ c :: s) = Some (a, s).
Proof.
  induction 1 as [|x a [H1 H2] _ IH]; cbn; [by assert (ascii_eqb c c = true) as -> by (by apply ascii_eqb_eq)|].
  rewrite IH. assert (ascii_eqb x c = false ∧ ascii_eqb x NUL = false) as [-> ->] by (by rewrite !ascii_eqb_neq). done.
Qed.

Lemma eats_blank c sl d : is_whitespace c = true → eats [c] sl d [] (S sl) d.
Proof.
  intros Hc [|fuel] rest Hf; cbn in Hf; [lia|]. exists fuel. split; [lia|]. rewrite prepend_nil. cbn [app lexed_text]. by rewrite Hc.
Qed.

Lemma eats_blanks l sl d : Forall (λ c, is_whitespace c = true) l → eats l sl d [] (sl + length l) d.
Proof.
  intros H. revert sl. induction H as [|c l Hc _ IH]; intros sl; [rewrite Nat.add_0_r; apply eats_nil|].
  apply (eats_app [c] l _ _ [] (S sl) d []); [by apply eats_blank|]. cbn [length].
  replace (sl + S (length l))%nat with (S sl + length l)%nat by lia. apply IH.
Qed.

(** A tag, and what it closes. *)
Lemma eats_marker m sl (d : bool) :
  Forall (λ c, visible c ∧ c ≠ ">"%char) m → match m with c :: _ => c ≠ "!"%char ∧ c ≠ "?"%char | [] => False end →
  (if d then (1 ≤ sl)%nat else True) →
  eats ("<"%char :: m ++ [">"%char]) sl d ((if d then [LF] else []) ++ m ++ [LF]) (S (sl - if d then 1 else 0)) false.
Proof.
  intros Hm Hh Hd [|fuel] rest Hf; [cbn in Hf; lia|]. exists fuel. cbn [app] in *. rewrite <-app_assoc in *. cbn [app] in *.
  rewrite !length_cons, length_app in Hf. cbn [length] in Hf. split; [lia|]. cbn [lexed_text].
  assert (is_whitespace "<" = false ∧ ascii_eqb "<" "<" = true) as (-> & ->) by done.
  assert (d && bool_decide (sl = 0%nat) = false) as ->.
  { destruct d; [|done]. apply bool_decide_eq_false. lia. }
  rewrite before_app. 2:{ eapply Forall_impl; [done|]. intros c [[Hb Ht] Hc]. split; [done|]. intros ->. done. }
  destruct m as [|c m]; [done|]. destruct Hh as [H1 H2]. cbn [app].
  assert (ascii_eqb c "!" || ascii_eqb c "?" = false) as -> by (by apply orb_false_iff; rewrite !ascii_eqb_neq).
  assert (existsb bad_char (c :: m) = false) as ->.
  { apply not_true_iff_false. intros (x & Hx & Hb)%existsb_exists. rewrite Forall_forall in Hm.
    apply list_elem_of_In, Hm in Hx as [[Hv _] _]. congruence. }
  by destruct d.
Qed.

Lemma eats_quoted t sl : Forall (λ c, bad_char c = false ∧ c ≠ QUOTE) t →
  eats (QUOTE :: t ++ [QUOTE]) sl false (TAB :: (blank <$> t) ++ [LF]) sl false.
Proof.
  intros Ht [|fuel] rest Hf; [cbn in Hf; lia|]. exists fuel. cbn [app] in *. rewrite <-app_assoc in *. cbn [app] in *.
  rewrite !length_cons, length_app in Hf. cbn [length] in Hf. split; [lia|]. cbn [lexed_text].
  assert (is_whitespace QUOTE = false ∧ ascii_eqb QUOTE "<" = false ∧ ascii_eqb QUOTE QUOTE = true) as (-> & -> & ->) by done.
  rewrite before_app. 2:{ eapply Forall_impl; [done|]. intros c [Hb Hc]. split; [done|]. intros ->. done. }
  assert (existsb bad_char t = false) as ->; [|done].
  apply not_true_iff_false. intros (x & Hx & Hb)%existsb_exists. rewrite Forall_forall in Ht.
  apply list_elem_of_In, Ht in Hx as [Hv _]. congruence.
Qed.

(** Unquoted data: a tab before the first character. *)
Lemma eats_plain_rest t sl : Forall (λ c, c ≠ "<"%char ∧ c ≠ QUOTE ∧ c ≠ NUL) t →
  ∃ sl', (sl ≤ sl')%nat ∧ eats t sl true (filter (λ c, is_whitespace c = false) t) sl' true.
Proof.
  intros H. revert sl. induction H as [|c t (H1 & H2 & _) _ IH]; intros sl; [exists sl; split; [done|apply eats_nil]|].
  rewrite filter_cons. destruct (decide (is_whitespace c = false)) as [Hc|Hc].
  - destruct (IH sl) as (sl' & Hsl & He). exists sl'. split; [done|]. apply (eats_app [c] t _ _ [c] sl true); [|done].
    intros [|fuel] rest Hf; cbn in Hf; [lia|]. exists fuel. split; [lia|]. cbn [app lexed_text].
    assert (ascii_eqb c "<" = false ∧ ascii_eqb c QUOTE = false) as [-> ->] by (by rewrite !ascii_eqb_neq). by rewrite Hc.
  - destruct (IH (S sl)) as (sl' & Hsl & He). exists sl'. split; [lia|]. apply (eats_app [c] t _ _ [] (S sl) true); [|done].
    apply eats_blank. by apply not_false_iff_true.
Qed.

Lemma eats_plain t sl : (1 ≤ sl)%nat → Forall (λ c, c ≠ "<"%char ∧ c ≠ QUOTE ∧ c ≠ NUL) t →
  filter (λ c, is_whitespace c = false) t ≠ [] →
  ∃ sl', (sl ≤ S sl')%nat ∧ eats t sl false (TAB :: filter (λ c, is_whitespace c = false) t) sl' true.
Proof.
  intros Hsl H. revert sl Hsl. induction H as [|c t (H1 & H2 & _) Ht IH]; intros sl Hsl Hn; [done|].
  rewrite filter_cons in *. destruct (decide (is_whitespace c = false)) as [Hc|Hc].
  - destruct (eats_plain_rest t (sl - 1) Ht) as (sl' & Hsl' & He). exists sl'. split; [lia|].
    apply (eats_app [c] t _ _ [TAB; c] (sl - 1)%nat true); [|done]. intros [|fuel] rest Hf; cbn in Hf; [lia|]. exists fuel.
    split; [lia|]. cbn [app lexed_text].
    assert (ascii_eqb c "<" = false ∧ ascii_eqb c QUOTE = false) as [-> ->] by (by rewrite !ascii_eqb_neq). rewrite Hc.
    by rewrite bool_decide_false by lia.
  - destruct (IH (S sl)) as (sl' & Hsl' & He); [lia|done|]. exists sl'. split; [lia|]. apply (eats_app [c] t _ _ [] (S sl) false); [|done].
    apply eats_blank. by apply not_false_iff_true.
Qed.

Lemma eats_tag tag sl : tag_ok tag → eats (open_tag tag) sl false (tag ++ [LF]) (S sl) false.
Proof.
  intros [Ht Hh]. pose proof (eats_marker tag sl false Ht) as H. cbn [app] in H. rewrite Nat.sub_0_r in H. apply H; [|done].
  destruct tag; naive_solver.
Qed.

Lemma eats_close tag sl (d : bool) : tag_ok tag → (if d then (1 ≤ sl)%nat else True) →
  eats (close_tag tag) sl d ((if d then [LF] else []) ++ (SLASH :: tag) ++ [LF]) (S (sl - if d then 1 else 0)) false.
Proof.
  intros [Ht _] Hd. pose proof (eats_marker (SLASH :: tag) sl d) as H. apply H; [|done|done]. by constructor.
Qed.

(** ** A document *)

(** An item per line. *)
Definition text_of (l : list cstring) : list ascii := flat_map (λ t, t ++ [LF]) l.

Lemma eats_field tag data v sl : tag_ok tag → value_text data v → (1 ≤ sl)%nat →
  ∃ sl', (sl ≤ sl')%nat ∧ eats (open_tag tag ++ v ++ close_tag tag) sl false (text_of (items (Field tag data))) sl' false.
Proof.
  intros Htag Hv Hsl. cbn [items text_of flat_map]. rewrite app_nil_r. destruct Hv as [l t r Hl Hr Ht|t Ht Hn].
  - exists (S (S sl + length l + length r - 0)). split; [lia|].
    assert (eats (open_tag tag ++ l ++ (QUOTE :: t ++ [QUOTE]) ++ r ++ close_tag tag) sl false
      ((tag ++ [LF]) ++ [] ++ (TAB :: (blank <$> t) ++ [LF]) ++ [] ++ ([] ++ (SLASH :: tag) ++ [LF]))
      (S (S sl + length l + length r - 0)) false) as H.
    { repeat (eapply eats_app; [eauto using eats_tag, eats_blanks, eats_quoted|]). by apply (eats_close tag _ false). }
    repeat rewrite <-?app_assoc, <-?app_comm_cons in *. exact H.
  - destruct (eats_plain t (S sl)) as (sl' & Hsl' & He); [lia|done|done|]. exists (S (sl' - 1)). split; [lia|].
    assert (eats (open_tag tag ++ t ++ close_tag tag) sl false
      ((tag ++ [LF]) ++ (TAB :: filter (λ c, is_whitespace c = false) t) ++ ([LF] ++ (SLASH :: tag) ++ [LF])) (S (sl' - 1)) false) as H.
    { eapply eats_app; [by apply eats_tag|]. eapply eats_app; [done|]. apply (eats_close tag sl' true); [done|lia]. }
    repeat rewrite <-?app_assoc, <-?app_comm_cons in *. exact H.
Qed.

Lemma eats_directive d sl : directive_ok d → eats ("<"%char :: d) sl false [] (sl + S (length d)) false.
Proof.
  intros Hd [|fuel] rest Hf; [cbn in Hf; lia|]. exists fuel. cbn [app] in *. rewrite length_cons, length_app in Hf. split; [lia|].
  destruct d as [|c1 d]; [done|]. destruct Hd as [Hc Hd]. destruct (Hd rest) as [Hs [[a b] Hb]]. cbn [lexed_text app].
  assert (is_whitespace "<" = false ∧ ascii_eqb "<" "<" = true) as (-> & ->) by done. cbn [andb]. rewrite Hb.
  assert (ascii_eqb c1 "!" || ascii_eqb c1 "?" = true) as -> by (apply orb_true_iff; rewrite !ascii_eqb_eq; tauto).
  rewrite Hs. f_equal. f_equal. cbn [length]. rewrite length_app. lia.
Qed.

Lemma text_of_app a b : text_of (a ++ b) = text_of a ++ text_of b.
Proof. apply flat_map_app. Qed.

(** The top level of a file has no room for fields; behind the first tag there is. *)
Definition roomy (sl : nat) (l : list content) : Prop := (1 ≤ sl)%nat ∨ Forall (λ c, ∃ tag body, c = Sect tag body) l.

Lemma spells_eats l s sl : spells l s → roomy sl l →
  ∃ sl', (sl ≤ sl')%nat ∧ eats s sl false (text_of (items_of_list l)) sl' false.
Proof.
  intros H. revert sl. induction H as [|c l s Hc H IH|d l s Hd H IH|tag data v l s Htag Hv H IH|tag body t l s Htag Hb IHb H IH]; intros sl Hr.
  - exists sl. split; [done|]. apply eats_nil.
  - destruct (IH (S sl)) as (sl' & Hsl & He); [destruct Hr; [left; lia|by right]|]. exists sl'. split; [lia|].
    apply (eats_app [c] s _ _ [] (S sl) false); [by apply eats_blank|done].
  - destruct (IH (sl + S (length d))%nat) as (sl' & Hsl & He); [destruct Hr; [left; lia|by right]|]. exists sl'. split; [lia|].
    apply (eats_app ("<"%char :: d) s _ _ [] (sl + S (length d))%nat false); [|done]. by apply eats_directive.
  - destruct Hr as [Hr|Hr]; [|apply Forall_cons in Hr as [(? & ? & ?) _]; done].
    destruct (eats_field tag data v sl Htag Hv Hr) as (sl1 & Hsl1 & He1). destruct (IH sl1) as (sl' & Hsl & He); [left; lia|].
    exists sl'. split; [lia|]. rewrite (app_assoc v), (app_assoc (open_tag tag)). cbn [flat_map]. rewrite text_of_app. by eapply eats_app.
  - destruct (IHb (S sl)) as (sl1 & Hsl1 & He1); [left; lia|]. destruct (IH (S (sl1 - 0))) as (sl' & Hsl & He).
    { left. lia. }
    exists sl'. split; [lia|]. cbn [flat_map items]. rewrite !text_of_app.
    pose proof (eats_close tag sl1 false Htag I) as Hc. cbn [app] in Hc.
    assert (eats (open_tag tag ++ t ++ close_tag tag ++ s) sl false
      ((tag ++ [LF]) ++ text_of (items_of_list body) ++ (SLASH :: tag ++ [LF]) ++ text_of (items_of_list l)) sl' false) as H'.
    { eapply eats_app; [by apply eats_tag|]. eapply eats_app; [done|]. by eapply eats_app. }
    unfold text_of in *. cbn [flat_map]. rewrite flat_map_app. cbn [flat_map].
    repeat rewrite <-?app_assoc, <-?app_comm_cons, ?app_nil_r in *. exact H'.
Qed.

(** Neither a line end nor a NUL: an item of a line of its own that is a C string. *)
Definition one_line (s : cstring) : Prop := Forall (λ c, c ≠ LF ∧ c ≠ NUL) s.

Lemma tag_one_line tag : tag_ok tag → one_line tag.
Proof. intros [H _]. eapply Forall_impl; [done|]. intros c [[Hc _] _]. split; intros ->; done. Qed.

Lemma value_one_line data v : value_text data v → one_line data.
Proof.
  intros [l t r _ _ Ht|t Ht _].
  - apply Forall_fmap. eapply Forall_impl; [done|]. intros c [Hc _]. unfold blank, compose.
    destruct (ascii_eqb c TAB) eqn:E; [done|]. split; intros ->; done.
  - apply Forall_forall. intros c [Hw Hc]%list_elem_of_filter. rewrite Forall_forall in Ht. destruct (Ht c Hc) as (_ & _ & H0).
    split; [|done]. intros ->. done.
Qed.

Lemma spells_one_line l s : spells l s → Forall one_line (items_of_list l).
Proof.
  induction 1 as [|c l s Hc H IH|d l s Hd H IH|tag data v l s Htag Hv H IH|tag body t l s Htag Hb IHb H IH]; try done.
  - cbn. apply tag_one_line in Htag. apply value_one_line in Hv. repeat (constructor; [done || by constructor|]). done.
  - cbn. apply tag_one_line in Htag. constructor; [done|]. rewrite <-app_assoc. apply Forall_app_2; [done|]. cbn. constructor; [by constructor|done].
Qed.

Lemma lines_line cur t s : Forall (λ c, c ≠ LF) t → lines cur (t ++ LF :: s) = (cur ++ t) :: lines [] s.
Proof.
  intros H. revert cur. induction H as [|c t Hc _ IH]; intros cur; cbn.
  - by rewrite app_nil_r.
  - assert (ascii_eqb c LF = false) as -> by (by apply ascii_eqb_neq). by rewrite IH, <-app_assoc.
Qed.

Lemma lines_text l : Forall one_line l → lines [] (text_of l) = l.
Proof.
  induction 1 as [|t l Ht _ IH]; [done|]. cbn. rewrite <-app_assoc. cbn. rewrite lines_line; [unfold text_of in IH; by rewrite IH|].
  eapply Forall_impl; [done|]. by intros c [? _].
Qed.

(** A file begins with a section, perhaps after blanks and directives. *)
Definition is_file (l : list content) (s : list ascii) : Prop :=
  spells l s ∧ Forall (λ c, ∃ tag body, c = Sect tag body) l ∧ l ≠ [] ∧ (min_file_size ≤ length s)%nat.

Lemma lex_file l s : is_file l s → ∃ its, lex_xml (Some s) = ret its ∧ Forall2 reads its (items_of_list l).
Proof.
  intros (Hs & Hl & Hn & Hm). destruct (spells_eats l s 0 Hs) as (sl & _ & He); [by right|].
  destruct (He (length s) []) as (f & Hf & E); [by rewrite app_nil_r|]. rewrite app_nil_r in E.
  assert (lexed_text f [] sl false = ret []) as E' by (by destruct f). rewrite E' in E. cbn in E. rewrite app_nil_r in E.
  apply (lex_xml_lines s (inr (text_of (items_of_list l))) Hm) in E as (its & Hi & E). rewrite lines_text in Hi by (by eapply spells_one_line).
  exists its. split; [|done]. rewrite E, bool_decide_false; [done|]. intros ->. apply Forall2_length in Hi.
  destruct l as [|c l]; [done|]. by destruct c.
Qed.

(** However a document is written, with blanks and directives between its tags and its
    data quoted or not, lex_xml finds the document's tags, data and closing tags, in their
    order: the writing never overtakes the reading in such a file. *)
Theorem lex_document l s : is_file l s →
  (let* its := lex_xml (Some s) in ret (c_text <$> its)) = ret (items_of_list l).
Proof.
  intros Hf. destruct (lex_file l s Hf) as (its & -> & Hi). cbn [bindR ret]. do 2 f_equal.
  destruct Hf as (Hs & _). apply spells_one_line in Hs. induction Hi as [|x t xs ts Hx _ IH]; [done|].
  apply Forall_cons in Hs as [Ht Hs]. cbn. rewrite IH by done. f_equal. rewrite (reads_text x t Hx). unfold c_text.
  rewrite cut_none; [done|]. eapply Forall_impl; [done|]. by intros c [_ ?].
Qed.

(** ** One way to write a document *)

Fixpoint render (c : content) : list ascii :=
  match c with
  | Field tag data => open_tag tag ++ (QUOTE :: data ++ [QUOTE]) ++ close_tag tag ++ [LF]
  | Sect tag body => open_tag tag ++ (LF :: flat_map render body) ++ close_tag tag ++ [LF]
  end.

Definition tag_char (c : ascii) : bool := negb (is_forbidden c) && negb (ascii_eqb c ">").
Definition printable_tag (tag : cstring) : bool :=
  forallb tag_char tag &&
  match tag with c :: _ => negb (ascii_eqb c "!") && negb (ascii_eqb c "?") && negb (ascii_eqb c SLASH) | [] => false end.
Definition data_char (c : ascii) : bool := negb (is_forbidden c) && negb (ascii_eqb c QUOTE).
Fixpoint printable (c : content) : bool :=
  match c with
  | Field tag data => printable_tag tag && forallb data_char data
  | Sect tag body => printable_tag tag && forallb printable body
  end.

Lemma forallb_Forall {A} (f : A → bool) (P : A → Prop) l : (∀ x, f x = true → P x) → forallb f l = true → Forall P l.
Proof. intros H Hf. apply Forall_forall. intros x Hx%list_elem_of_In. rewrite forallb_forall in Hf. auto. Qed.

Lemma printable_visible c : is_forbidden c = false → visible c.
Proof. intros H. unfold visible, bad_char. rewrite H, andb_false_r. split; [done|]. by intros ->. Qed.

Lemma printable_tag_ok tag : printable_tag tag = true → tag_ok tag.
Proof.
  intros [H1 H2]%andb_true_iff. split.
  - eapply forallb_Forall; [|done]. intros c [Hc%negb_true_iff Hg%negb_true_iff]%andb_true_iff. split; [by apply printable_visible|by apply ascii_eqb_neq].
  - destruct tag as [|c tag]; [done|]. rewrite !andb_true_iff, !negb_true_iff, !ascii_eqb_neq in H2. tauto.
Qed.

Lemma render_spells_list l : Forall (λ c, ∀ l s, spells l s → spells (c :: l) (render c ++ s)) l → spells l (flat_map render l).
Proof. induction 1 as [|c l Hc _ IH]; [constructor|]. cbn. by apply Hc. Qed.

Lemma render_spells c l s : printable c = true → spells l s → spells (c :: l) (render c ++ s).
Proof.
  revert l s. induction c as [tag data|tag body IH] using content_induction; intros l s Hp Hs; cbn [printable] in Hp;
    apply andb_true_iff in Hp as [Ht%printable_tag_ok Hd]; cbn [render]; rewrite <-!app_assoc; cbn [app].
  - rewrite <-(app_assoc data). cbn [app].
    change (QUOTE :: data ++ QUOTE :: close_tag tag ++ LF :: s) with ([] ++ QUOTE :: data ++ QUOTE :: [] ++ close_tag tag ++ LF :: s).
    assert (Forall (λ c, is_forbidden c = false ∧ c ≠ QUOTE) data) as Hdata.
    { eapply forallb_Forall; [|done]. intros c [Hc%negb_true_iff Hq%negb_true_iff%ascii_eqb_neq]%andb_true_iff. done. }
    assert (blank <$> data = data) as Eb.
    { clear -Hdata. induction Hdata as [|c data [Hc _] _ IH]; [done|]. cbn. rewrite IH. f_equal. unfold blank. destruct (ascii_eqb c TAB) eqn:E; [|done].
      by apply ascii_eqb_eq in E as ->. }
    rewrite <-Eb at 1.
    replace ([] ++ QUOTE :: data ++ QUOTE :: [] ++ close_tag tag ++ LF :: s) with (([] ++ QUOTE :: data ++ QUOTE :: []) ++ close_tag tag ++ LF :: s)
      by (cbn [app]; by rewrite <-app_assoc).
    apply spells_field; [done| |by apply spells_blank]. apply quoted; [constructor|constructor|].
    eapply Forall_impl; [done|]. intros c [Hc Hq]. split; [by apply printable_visible|done].
  - change (LF :: flat_map render body ++ close_tag tag ++ LF :: s) with ((LF :: flat_map render body) ++ close_tag tag ++ LF :: s).
    apply spells_sect; [done| |by apply spells_blank]. apply spells_blank; [done|]. apply render_spells_list.
    rewrite forallb_forall in Hd. rewrite !Forall_forall in *. intros c Hc l' s' Hs'. apply IH; [done|by apply Hd, list_elem_of_In|done].
Qed.

(** A document that begins with a section is a file. *)
Lemma render_file tag body : printable (Sect tag body) = true → (min_file_size ≤ length (render (Sect tag body)))%nat →
  is_file [Sect tag body] (render (Sect tag body)).
Proof.
  intros Hp Hl. split_and!; [|by repeat econstructor|done|done]. pose proof (render_spells _ [] [] Hp spells_nil) as H. by rewrite app_nil_r in H.
Qed.

End XmlDoc.
