(* ===== verification/XmlItems.v ===== *)
(** * The items of a configuration file (orcm/mca/cfgi/file30/cfgi_file30.c)

    What the code knows about single items: the tags there are, which of them enclose
    others and which may occur only once; the removal of empty fields; the checks on the
    whole list of items; and the version that file30_init looks for. *)

From Stdlib Require Import ZArith Lia Ascii.
From stdpp Require Import prelude numbers strings gmap list.
From S2P Require Import Prelude CString CfgiFile30 XmlLex.

Local Open Scope Z_scope.

Module XmlItems.
Import CfgiFile30 XmlLex.

Definition ORCM_SUCCESS : Z := OPAL_SUCCESS.
Definition ORCM_ERR_TAKE_NEXT_OPTION : Z := -46.

Definition tolower (c : ascii) : ascii :=
  if (65 <=? code c) && (code c <=? 90) then ascii_of_nat (nat_of_ascii c + 32) else c.

(** [0 == strcasecmp(t, u)] *)
Definition nocase (t u : list ascii) : bool := bool_decide (tolower <$> c_text t = tolower <$> c_text u).
Definition named (t : ptr) (name : string) : bool := nocase t (lit name).

(** [t[0]], and the two letters of a [case] as one. *)
Definition first (t : ptr) : ascii := default NUL (head t).
Definition letter (t : ptr) : ascii := tolower (first t).

Definition is_data (t : ptr) : bool := ascii_eqb (first t) TAB.
Definition is_closing (t : ptr) : bool := ascii_eqb (first t) "/".
(** [t + 1] *)
Definition next (t : ptr) : ptr := tail t.

(** ** Tags *)

Definition isa_known_tag (t : ptr) : bool :=
  match letter t with
  | "a"%char => named t "aggregator"
  | "c"%char => named t "configuration" || named t "controller" || named t "count" || named t "cores" || named t "creation"
  | "e"%char => named t "envar"
  | "h"%char => named t "host"
  | "j"%char => named t "junction"
  | "l"%char => named t "log"
  | "m"%char => named t "mca-params"
  | "n"%char => named t "name"
  | "p"%char => named t "port"
  | "q"%char => named t "queues"
  | "r"%char => named t "role"
  | "s"%char => named t "scheduler" || named t "shost"
  | "t"%char => named t "type"
  | "v"%char => named t "version"
  | _ => false
  end.

Definition isa_sectional_item (t : ptr) : bool :=
  match letter t with
  | "c"%char => named t "controller" || named t "configuration"
  | "j"%char => named t "junction"
  | "s"%char => named t "scheduler"
  | _ => false
  end.

(** The [case]s of [a] and [h] fall through to the next one, which has other names. *)
Definition isa_singleton (t : ptr) : bool :=
  let c_case := named t "controller" || named t "count" || named t "cores" || named t "creation" in
  match letter t with
  | "a"%char => named t "aggregator" || c_case
  | "c"%char => c_case
  | "e"%char => named t "envar"
  | "h"%char => named t "host"
  | "l"%char => named t "log"
  | "n"%char => named t "name"
  | "p"%char => named t "port"
  | "r"%char => named t "role"
  | "s"%char => named t "scheduler" || named t "shost"
  | "t"%char => named t "type"
  | "v"%char => named t "version"
  | _ => false
  end.

(** ** Empty fields

    A tag that its closing tag follows at once is removed with it: the pointers of the two
    are set to NULL, and the others moved up.  The first character of the second item is
    taken for a slash, whatever it is. *)
Fixpoint remove_empty_items (items : list ptr) : list ptr :=
  match items with
  | t :: ((t2 :: r) as rest) =>
      if is_data t || is_closing t || is_data t2 then t :: remove_empty_items rest
      else if nocase t (next t2) then remove_empty_items r
      else t :: remove_empty_items rest
  | _ => items
  end.

(** ** The checks *)

(** Every tag is a known one. *)
Definition known_item (t : ptr) : bool := is_data t || isa_known_tag (if is_closing t then next t else t).

(** A tag that encloses no others is followed by its data and by a closing tag; the number
    of opening and closing tags: [None] is the error. *)
Fixpoint count_tags (items : list ptr) (openings closings : Z) : option (Z * Z) :=
  match items with
  | [] => Some (openings, closings)
  | t :: rest =>
      let '(openings, closings) :=
        if is_closing t then (openings, closings + 1) else if is_data t then (openings, closings) else (openings + 1, closings) in
      if isa_sectional_item t || is_data t || is_closing t then count_tags rest openings closings
      else match rest with
           | d :: c :: _ => if is_data d && is_closing c then count_tags rest openings closings else None
           | _ => None
           end
  end.

(** The data of the fields [tag]; the item behind a tag is read without a check, [None]
    when there is none. *)
Fixpoint data_of (tag : string) (items : list ptr) : option (list ptr) :=
  match items with
  | [] => Some []
  | t :: rest =>
      if named t tag then
        match rest with
        | d :: _ => match data_of tag rest with Some ds => Some (next d :: ds) | None => None end
        | [] => None
        end
      else data_of tag rest
  end.

Definition count (P : ptr → bool) (l : list ptr) : nat := length (filter (λ t, P t = true) l).

(** The roles are RECORD, exactly once, or MOD. *)
Definition check_roles (items : list ptr) : option Z :=
  match data_of "role" items with
  | Some ds =>
      Some (if forallb (λ d, named d "RECORD" || named d "MOD") ds then
              if bool_decide (count (λ d, named d "RECORD") ds = 1%nat) then ORCM_SUCCESS else ORCM_ERR_BAD_PARAM
            else ORCM_ERR_BAD_PARAM)
  | None => None
  end.

(** There is a node, and nothing of the type [inter]; other types are counted only. *)
Definition check_types (items : list ptr) : option Z :=
  match data_of "type" items with
  | Some ds =>
      Some (if bool_decide (count (λ d, named d "inter") ds ≠ 0%nat) then ORCM_ERR_BAD_PARAM
            else if bool_decide (count (λ d, named d "node") ds = 0%nat) then ORCM_ERR_BAD_PARAM else ORCM_SUCCESS)
  | None => None
  end.

(** The first [aggregator] is yes or no; the code stops at it in any case. *)
Definition check_aggregator (items : list ptr) : option Z :=
  match data_of "aggregator" items with
  | Some (d :: _) => Some (if ascii_eqb (letter d) "y" || ascii_eqb (letter d) "n" then ORCM_SUCCESS else ORCM_ERR_BAD_PARAM)
  | Some [] => Some ORCM_SUCCESS
  | None => None
  end.

Definition USHRT_MAX : Z := 65535.
Definition port_ok (d : ptr) : bool :=
  match strtol (c_text d) with
  | (number, []) => (0 <=? number) && (number <=? USHRT_MAX)
  | _ => false
  end.
Definition check_all_port_fields (items : list ptr) : option Z :=
  match data_of "port" items with
  | Some ds => Some (if forallb port_ok ds then ORCM_SUCCESS else ORCM_ERR_BAD_PARAM)
  | None => None
  end.

(** The next check, if the last one passed. *)
Definition andthen (m : option Z) (k : option Z) : option Z :=
  match m with Some rc => if rc =? ORCM_SUCCESS then k else Some rc | None => None end.

(** What the check of the aggregators finds is overwritten by the check of the ports. *)
Definition check_validity_of_the_inputs (items : list ptr) : option Z :=
  if bool_decide (items = []) then Some ORCM_ERR_BAD_PARAM
  else if negb (forallb known_item items) then Some ORCM_ERR_BAD_PARAM
  else match count_tags items 0 0 with
       | None => Some ORCM_ERR_BAD_PARAM
       | Some (openings, closings) =>
           if negb (openings =? closings) then Some ORCM_ERR_BAD_PARAM
           else
             andthen (check_roles items)
               (andthen (check_types items)
                  match check_aggregator items with
                  | Some erri => let erri := check_all_port_fields items in erri
                  | None => None
                  end)
       end.

(** ** The version *)

(** The loop over the items: the versions must begin with a 3; [None] is an error. *)
Fixpoint find_version (items : list ptr) (version_found : bool) : option bool :=
  match items with
  | [] => Some version_found
  | t :: rest =>
      if is_closing t || is_data t then find_version rest version_found
      else if named t "version" then
        match rest with
        | [] => None
        | data :: _ =>
            if negb (is_data data) then None
            else if ascii_eqb (first (next data)) "3" then find_version rest true else None
        end
      else find_version rest version_found
  end.

(** [config_file] is [None] for NULL, else the file of that name if it can be opened. *)
Definition file30_init (config_file : option (option (list ascii))) : option Z :=
  match config_file with
  | None => Some ORCM_ERR_TAKE_NEXT_OPTION
  | Some file =>
      match lex_xml file with
      | None => None
      | Some (inl _) => Some ORCM_ERR_TAKE_NEXT_OPTION
      | Some (inr items) =>
          match find_version items false with
          | Some true => Some ORCM_SUCCESS
          | _ => Some ORCM_ERR_TAKE_NEXT_OPTION
          end
      end
  end.

End XmlItems.
