(* ===== verification/XmlStruct.v ===== *)
(** * The sections of a configuration (orcm/mca/cfgi/file30/cfgi_file30.c)

    The items of a configuration are arranged in rows, one for each section in the order of
    the opening tags: a row holds the index of the section's own tag, then the indices of
    the tags of its fields, and for each section directly inside it the negated number of
    that one's row.  The code finds the section an item belongs to by searching backwards
    for one that has no end yet. *)

From Stdlib Require Import ZArith Lia Ascii.
From stdpp Require Import prelude numbers strings gmap list.
From S2P Require Import Prelude CString CfgiFile30 XmlLex XmlItems.

Local Open Scope Z_scope.

Module XmlStruct.
Import CfgiFile30 XmlLex XmlItems.

(** ** The configuration that is asked for *)

(** From the tag [configuration] to its role, which only the version and the date may
    precede.  The item behind [role] is read without a check of the length. *)
Fixpoint find_begin (want_record : bool) (items : list ptr) (i : nat) (beg : option nat) : R (option nat) :=
  match items with
  | [] => ret beg
  | t :: rest =>
      match beg with
      | None => find_begin want_record rest (S i)
                  (if ascii_eqb (letter t) "c" && named t "configuration" then Some i else None)
      | Some _ =>
          if is_closing t || is_data t then find_begin want_record rest (S i) beg
          else if named t "role" then
            match rest with
            | [] => None
            | d :: _ =>
                if negb (is_data d) then fail ORCM_ERR_BAD_PARAM
                else if named (next d) "RECORD" then
                  if want_record then ret beg else find_begin want_record rest (S i) None
                else if named (next d) "MOD" then
                  if negb want_record then ret beg else find_begin want_record rest (S i) None
                else fail ORCM_ERR_BAD_PARAM
            end
          else if named t "version" || named t "creation" then find_begin want_record rest (S i) beg
          else fail ORCM_ERR_BAD_PARAM
      end
  end.

(** The first closing tag of a configuration; a capital C is not recognised here. *)
Fixpoint find_end (items : list ptr) (i : nat) : option nat :=
  match items with
  | [] => None
  | t :: rest =>
      if is_closing t && ascii_eqb (first (next t)) "c" && named (next t) "configuration" then Some (S i) else find_end rest (S i)
  end.

(** [None]: no configuration is found, and the two results are equal. *)
Definition find_beginend_configuration (start : nat) (items : list ptr) (want_record : bool) : R (option (nat * nat)) :=
  if bool_decide (length items ≤ start)%nat then fail ORCM_ERR_BAD_PARAM
  else
    let* beg := find_begin want_record (drop start items) start None in
    match beg with
    | None => ret None
    | Some beg => match find_end (drop beg items) beg with
                  | Some e => ret (Some (beg, e))
                  | None => fail ORCM_ERR_BAD_PARAM
                  end
    end.

(** ** The rows *)

Inductive kind := Skip | Start | End_ | FieldTag.
Definition kind_of (t : ptr) : kind :=
  if is_data t then Skip
  else if is_closing t then (if isa_sectional_item (next t) then End_ else Skip)
  else if isa_sectional_item t then Start else FieldTag.

Definition is_start (t : ptr) : bool := match kind_of t with Start => true | _ => false end.
Definition is_end (t : ptr) : bool := match kind_of t with End_ => true | _ => false end.

(** A write into an allocated array. *)
Definition set_at {A} (l : list A) (i : nat) (x : A) : R (list A) :=
  if bool_decide (i < length l)%nat then ret (<[i := x]> l) else None.

(** [for (k = ...; k >= 0; --k) if (0 == section_ends[k]) break;]: the index is unsigned, and
    the search runs below the array when no section is open. *)
Fixpoint find_open (ends : list nat) (k : nat) : option nat :=
  match ends !! k with
  | Some 0%nat => Some k
  | Some _ => match k with O => None | S k => find_open ends k end
  | None => None
  end.

(** [sz] is [sz_section + 1]; [section_parents] holds [None] for [nota_index]. *)
Record sections := mk_sections {
  sz : nat; section_starts : list nat; section_ends : list nat; section_parents : list (option nat); section_counts : list nat }.

Definition open_section (ends : list nat) (sz : nat) : R nat := match sz with O => None | S k => opt (find_open ends k) end.

Definition incr (counts : list nat) (k : nat) : R (list nat) :=
  let* n := opt (counts !! k) in set_at counts k (S n).

(** One item of the first walk: starts, ends and parents of the sections, and how many
    fields each has. *)
Definition scan_item (t : ptr) (i : nat) (s : sections) : R sections :=
  let '(mk_sections sz starts ends parents counts) := s in
  match kind_of t with
  | Skip => ret s
  | FieldTag =>
      match sz with
      | O => fail ORCM_ERR_BAD_PARAM
      | S _ => let* k := open_section ends sz in
               let* counts := incr counts k in
               ret (mk_sections sz starts ends parents counts)
      end
  | End_ =>
      let* k := open_section ends sz in
      let* ends := set_at ends k i in
      ret (mk_sections sz starts ends parents counts)
  | Start =>
      let* starts := set_at starts sz i in
      let* ends := set_at ends sz 0%nat in
      let* parents :=
        (match sz with
         | O => ret parents
         | S _ => let* k := open_section ends sz in set_at parents sz (Some k)
         end) in
      ret (mk_sections (S sz) starts ends parents counts)
  end.

(** The second walk writes the fields into the rows. *)
Record filling := mk_filling { f_sz : nat; f_ends : list nat; f_counts : list nat; f_rows : list (list Z) }.

(** The next free entry of row [k]. *)
Definition add_entry (k : nat) (z : Z) (counts : list nat) (rows : list (list Z)) : R (list nat * list (list Z)) :=
  let* n := opt (counts !! k) in
  let* row := opt (rows !! k) in
  let* row := set_at row n z in
  let* rows := set_at rows k row in
  let* counts := set_at counts k (S n) in
  ret (counts, rows).

Definition fill_item (t : ptr) (i : nat) (s : filling) : R filling :=
  let '(mk_filling sz ends counts rows) := s in
  match kind_of t with
  | Skip => ret s
  | FieldTag =>
      match sz with
      | O => fail ORCM_ERR_BAD_PARAM
      | S _ => let* k := open_section ends sz in
               let* (counts, rows) := add_entry k (Z.of_nat i) counts rows in
               ret (mk_filling sz ends counts rows)
      end
  | End_ =>
      let* k := open_section ends sz in
      let* ends := set_at ends k i in
      ret (mk_filling sz ends counts rows)
  | Start =>
      let* ends := set_at ends sz 0%nat in
      ret (mk_filling (S sz) ends counts rows)
  end.

Fixpoint walk {S} (f : ptr → nat → S → R S) (items : list ptr) (i : nat) (s : S) : R S :=
  match items with
  | [] => ret s
  | t :: rest => let* s := f t i s in walk f rest (i + 1)%nat s
  end.

(** A loop over the sections that have a parent. *)
Fixpoint each_child {S} (f : nat → nat → S → R S) (parents : list (option nat)) (k : nat) (s : S) : R S :=
  match parents with
  | [] => ret s
  | None :: rest => each_child f rest (k + 1)%nat s
  | Some p :: rest => let* s := f k p s in each_child f rest (k + 1)%nat s
  end.

(** The rows are blocks of the length [o_hier_row_length] says, so that one is not kept. *)
Definition structure_lexed_items (begin_offset end_offset : nat) (items : list ptr) : R (list (list Z)) :=
  if bool_decide (length items = 0%nat) then fail ORCM_ERR_BAD_PARAM
  else if bool_decide (end_offset ≤ begin_offset)%nat || bool_decide (length items ≤ begin_offset)%nat ||
          bool_decide (length items < end_offset)%nat then fail ORCM_ERR_BAD_PARAM
  else
    let part := take (end_offset - begin_offset) (drop begin_offset items) in
    match part with
    | [] => None
    | t0 :: _ =>
        if negb (isa_sectional_item t0) then fail ORCM_ERR_BAD_PARAM
        else
          let n := count is_start part in
          if bool_decide (n ≠ count is_end part) || bool_decide (n = 0%nat) then fail ORCM_ERR_BAD_PARAM
          else
            let zeros := replicate n 0%nat in
            let parents := None :: replicate (n - 1) (Some 0%nat) in
            let* s := walk scan_item part begin_offset (mk_sections 0 zeros zeros parents zeros) in
            if bool_decide (sz s ≠ n) then fail ORCM_ERR_BAD_PARAM
            else
              let* lengths := each_child (λ _ p l, incr l p) (section_parents s) 0 (section_counts s) in
              let rows := (λ l, replicate (S l) 0) <$> lengths in
              let rows := zip_with (λ row start, <[0%nat := Z.of_nat start]> row) rows (section_starts s) in
              let* f := walk fill_item part begin_offset (mk_filling 0 zeros (replicate n 1%nat) rows) in
              let* (_, rows) := each_child (λ k p s, add_entry p (- Z.of_nat k) s.1 s.2) (section_parents s) 0 (f_counts f, f_rows f) in
              ret rows
    end.

(** ** Checks on the rows *)

Definition item_at (items : list ptr) (z : Z) : R ptr := opt (zget items z).

(** The tag of the section whose row is [-u]. *)
Definition section_tag (items : list ptr) (hierarchy : list (list Z)) (u : Z) : R ptr :=
  let* row := opt (zget hierarchy (- u)) in
  let* z := opt (head row) in
  item_at items z.

Fixpoint no_equal_section (items : list ptr) (hierarchy : list (list Z)) (t : ptr) (later : list Z) : R unit :=
  match later with
  | [] => ret ()
  | v :: later =>
      if 0 <=? v then fail ORCM_ERR_BAD_PARAM
      else let* t2 := section_tag items hierarchy v in
           if nocase t t2 then fail ORCM_ERR_BAD_PARAM else no_equal_section items hierarchy t later
  end.

Fixpoint no_equal_field (items : list ptr) (t : ptr) (later : list Z) : R unit :=
  match later with
  | [] => ret ()
  | v :: later =>
      if v <? 0 then ret ()
      else let* t2 := item_at items v in
           if nocase t t2 then fail ORCM_ERR_BAD_PARAM else no_equal_field items t later
  end.

Fixpoint check_row (items : list ptr) (hierarchy : list (list Z)) (row : list Z) : R unit :=
  match row with
  | [] => ret ()
  | u :: later =>
      let* _ :=
        (if u <? 0 then
           let* t := section_tag items hierarchy u in
           if isa_singleton t then no_equal_section items hierarchy t later else ret ()
         else
           let* t := item_at items u in
           if isa_singleton t then no_equal_field items t later else ret ()) in
      check_row items hierarchy later
  end.

Fixpoint all_rows (f : list Z → R unit) (rows : list (list Z)) : R unit :=
  match rows with
  | [] => ret ()
  | row :: rows => let* _ := f row in all_rows f rows
  end.

Definition remove_duplicate_singletons (items : list ptr) (hierarchy : list (list Z)) : R unit :=
  all_rows (λ row, let* z := opt (head row) in let* _ := item_at items z in check_row items hierarchy row) hierarchy.

(** The data of the first field [name]; [ret None] is NULL. *)
Fixpoint name_field (items : list ptr) (row : list Z) : R (option ptr) :=
  match row with
  | [] => ret None
  | u :: row =>
      if u <? 0 then name_field items row
      else let* t := item_at items u in
           if named t "name" then let* d := item_at items (u + 1) in ret (Some (next d)) else name_field items row
  end.
Definition get_name_field (which_row : Z) (items : list ptr) (hierarchy : list (list Z)) : R (option ptr) :=
  match zget hierarchy which_row with
  | Some row => name_field items row
  | None => ret None
  end.

Definition junction_has_name (items : list ptr) (row : list Z) : R unit :=
  let* u := opt (head row) in
  if u <? 0 then ret ()
  else let* t := item_at items u in
       if named t "junction" then
         let* name := name_field items row in
         match name with Some _ => ret () | None => fail ORCM_ERR_BAD_PARAM end
       else ret ().
Definition check_junctions_have_names (items : list ptr) (hierarchy : list (list Z)) : R unit :=
  all_rows (junction_has_name items) hierarchy.

(** The children of a row whose first entry is negative: no two junctions have one name.
    The error of a row does not end the loop over the rows. *)
Definition child_name (items : list ptr) (hierarchy : list (list Z)) (u : Z) : R (option ptr) :=
  if 0 <=? u then ret None
  else let* t := section_tag items hierarchy u in
       if named t "junction" then
         let* name := get_name_field (- u) items hierarchy in
         match name with Some n => ret (Some n) | None => fail ORCM_ERR_BAD_PARAM end
       else ret None.

Fixpoint no_equal_name (items : list ptr) (hierarchy : list (list Z)) (a : ptr) (later : list Z) : R unit :=
  match later with
  | [] => ret ()
  | v :: later =>
      let* b := child_name items hierarchy v in
      match b with
      | Some b => if strcmp a b =? 0 then fail ORCM_ERR_BAD_PARAM else no_equal_name items hierarchy a later
      | None => no_equal_name items hierarchy a later
      end
  end.

Fixpoint unique_children (items : list ptr) (hierarchy : list (list Z)) (row : list Z) : R unit :=
  match row with
  | [] => ret ()
  | u :: later =>
      let* a := child_name items hierarchy u in
      let* _ := (match a with Some a => no_equal_name items hierarchy a later | None => ret () end) in
      unique_children items hierarchy later
  end.

Fixpoint check_parents (items : list ptr) (hierarchy : list (list Z)) (rows : list (list Z)) (erri : Z) : R Z :=
  match rows with
  | [] => ret erri
  | row :: rows =>
      let* context := opt (head row) in
      if 0 <=? context then check_parents items hierarchy rows erri
      else let* t := item_at items (- context) in
           if named t "junction" then
             match unique_children items hierarchy row with
             | None => None
             | Some (inl rc) => check_parents items hierarchy rows rc
             | Some (inr _) => check_parents items hierarchy rows erri
             end
           else check_parents items hierarchy rows erri
  end.
Definition check_parent_has_uniquely_named_children (items : list ptr) (hierarchy : list (list Z)) : R unit :=
  let* erri := check_parents items hierarchy hierarchy ORCM_SUCCESS in
  if erri =? ORCM_SUCCESS then ret () else fail erri.

End XmlStruct.
