(* ===== verification/XmlRows.v ===== *)
(** * The rows of a document

    [rows] gives the rows of a document by recursion; [structure_document] says that
    structure_lexed_items, which has no recursion and no stack, finds them. *)

From Stdlib Require Import ZArith Lia Ascii.
From stdpp Require Import prelude numbers strings gmap list.
From S2P Require Import Prelude CString CfgiFile30 XmlLex XmlDoc XmlItems XmlStruct.

Local Open Scope Z_scope.

Module XmlRows.
Import CfgiFile30 XmlLex XmlDoc XmlItems XmlStruct.

(** ** The numbering of a document *)

(** The number of sections. *)
Fixpoint nsec (c : content) : nat :=
  match c with Field _ _ => 0 | Sect _ b => S (sum_list_with nsec b) end.
Abbreviation nsecs := (sum_list_with nsec).

(** [f] at every content of a list, with the index of its first item and the number of the
    row that its first section would have. *)
Definition over {A} (f : content → nat → nat → list A) : list content → nat → nat → list A :=
  fix go l o m := match l with
                  | [] => []
                  | c :: l => f c o m ++ go l (o + length (items c))%nat (m + nsec c)%nat
                  end.

Definition field_offs (c : content) (o _ : nat) : list Z := match c with Field _ _ => [Z.of_nat o] | Sect _ _ => [] end.
Definition child_rows (c : content) (_ m : nat) : list Z := match c with Field _ _ => [] | Sect _ _ => [- Z.of_nat m] end.

Definition row_of (o m : nat) (body : list content) : list Z :=
  Z.of_nat o :: over field_offs body (S o) (S m) ++ over child_rows body (S o) (S m).

Fixpoint rows (c : content) (o m : nat) : list (list Z) :=
  match c with
  | Field _ _ => []
  | Sect _ b => row_of o m b :: over rows b (S o) (S m)
  end.

(** What the walks of the code find, in its order: where sections start and end, their
    parents, and which entry belongs to which row. *)
Fixpoint starts (c : content) (o m : nat) : list nat :=
  match c with Field _ _ => [] | Sect _ b => o :: over starts b (S o) (S m) end.
Fixpoint ends (c : content) (o m : nat) : list nat :=
  match c with Field _ _ => [] | Sect _ b => (S o + length (items_of_list b))%nat :: over ends b (S o) (S m) end.
Fixpoint parents (k : nat) (c : content) (o m : nat) : list (option nat) :=
  match c with Field _ _ => [] | Sect _ b => Some k :: over (parents m) b (S o) (S m) end.
Fixpoint fields_in (k : nat) (c : content) (o m : nat) : list (nat * Z) :=
  match c with Field _ _ => [(k, Z.of_nat o)] | Sect _ b => over (fields_in m) b (S o) (S m) end.
Fixpoint children_in (k : nat) (c : content) (o m : nat) : list (nat * Z) :=
  match c with Field _ _ => [] | Sect _ b => (k, - Z.of_nat m) :: over (children_in m) b (S o) (S m) end.

(** The entries that belong to row [k]. *)
Definition bucket (k : nat) (ops : list (nat * Z)) : list Z := snd <$> filter (λ p, p.1 = k) ops.

Lemma bucket_app k a b : bucket k (a ++ b) = bucket k a ++ bucket k b.
Proof. unfold bucket. by rewrite filter_app, fmap_app. Qed.

Lemma bucket_cons k j z ops : bucket k ((j, z) :: ops) = if decide (j = k) then z :: bucket k ops else bucket k ops.
Proof. unfold bucket. rewrite filter_cons. by destruct (decide (j = k)) as [->|]; rewrite ?decide_True, ?decide_False by done. Qed.

Lemma over_cons {A} (f : content → nat → nat → list A) c l o m :
  over f (c :: l) o m = f c o m ++ over f l (o + length (items c)) (m + nsec c).
Proof. done. Qed.

Lemma over_length {A} (f : content → nat → nat → list A) l o m :
  (∀ c o m, c ∈ l → length (f c o m) = nsec c) → length (over f l o m) = nsecs l.
Proof.
  revert o m. induction l as [|c l IH]; intros o m H; [done|]. cbn. rewrite length_app, H by by left. f_equal.
  apply IH. intros c' o' m' Hc. apply H. by right.
Qed.

(** The keys of the entries of [c]: its parent and the rows of [c]. *)
Definition keys_ok (k m n : nat) (ops : list (nat * Z)) : Prop := Forall (λ p, p.1 = k ∨ (m ≤ p.1 < m + n)%nat) ops.

Lemma keys_mono k m n m' n' ops : keys_ok k m n ops → (m' ≤ m)%nat → (m + n ≤ m' + n')%nat → keys_ok k m' n' ops.
Proof. intros H H1 H2. eapply Forall_impl; [done|]. cbn. intros p [?|?]; [by left|right; lia]. Qed.

Lemma keys_over (f : content → nat → nat → list (nat * Z)) k l o m :
  (∀ c o m, c ∈ l → keys_ok k m (nsec c) (f c o m)) → keys_ok k m (nsecs l) (over f l o m).
Proof.
  revert o m. induction l as [|c l IH]; intros o m H; [by constructor|]. cbn. apply Forall_app_2.
  - eapply keys_mono; [apply H; by left|lia|lia].
  - eapply keys_mono; [apply IH; intros c' o' m' Hc; apply H; by right|lia|lia].
Qed.

Lemma keys_inner k m n ops : keys_ok m (S m) n ops → keys_ok k m (S n) ops.
Proof. intros H. eapply Forall_impl; [done|]. cbn. intros p [?|?]; right; lia. Qed.

Lemma keys_fields k c o m : keys_ok k m (nsec c) (fields_in k c o m).
Proof.
  revert k o m. induction c as [tag data|tag b IH] using content_induction; intros k o m; cbn; [constructor; [by left|constructor]|].
  apply keys_inner, keys_over. intros c' o' m' Hc. rewrite Forall_forall in IH. by apply IH.
Qed.

Lemma keys_children k c o m : keys_ok k m (nsec c) (children_in k c o m).
Proof.
  revert k o m. induction c as [tag data|tag b IH] using content_induction; intros k o m; cbn; [constructor|].
  constructor; [by left|]. apply keys_inner, keys_over. intros c' o' m' Hc. rewrite Forall_forall in IH. by apply IH.
Qed.

Lemma bucket_none j k m n ops : keys_ok k m n ops → j ≠ k → ¬ (m ≤ j < m + n)%nat → bucket j ops = [].
Proof.
  intros H Hk Hj. induction H as [|[i z] ops Hi _ IH]; [done|]. rewrite bucket_cons, decide_False; [done|]. cbn in Hi. lia.
Qed.

(** The entries of a section's own row. *)
Lemma bucket_fields k l o m : (k < m)%nat → bucket k (over (fields_in k) l o m) = over field_offs l o m.
Proof.
  revert o m. induction l as [|c l IH]; intros o m Hk; [done|]. rewrite !over_cons, bucket_app, IH by lia. f_equal.
  destruct c as [tag data|tag b]; cbn [fields_in children_in field_offs child_rows]; [by rewrite bucket_cons, decide_True|]. eapply bucket_none; [apply keys_over; intros; apply keys_fields|lia|lia].
Qed.

Lemma bucket_children k l o m : (k < m)%nat → bucket k (over (children_in k) l o m) = over child_rows l o m.
Proof.
  revert o m. induction l as [|c l IH]; intros o m Hk; [done|]. rewrite !over_cons, bucket_app, IH by lia. f_equal.
  destruct c as [tag data|tag b]; cbn [fields_in children_in field_offs child_rows]; [done|]. rewrite bucket_cons, decide_True by done. f_equal.
  eapply bucket_none; [apply keys_over; intros; apply keys_children|lia|lia].
Qed.

Lemma length_starts c o m : length (starts c o m) = nsec c.
Proof.
  revert o m. induction c as [tag data|tag b IH] using content_induction; intros o m; cbn; [done|]. f_equal. apply over_length.
  intros c' o' m' Hc. rewrite Forall_forall in IH. by apply IH.
Qed.

Lemma length_rows c o m : length (rows c o m) = nsec c.
Proof.
  revert o m. induction c as [tag data|tag b IH] using content_induction; intros o m; cbn; [done|]. f_equal. apply over_length.
  intros c' o' m' Hc. rewrite Forall_forall in IH. by apply IH.
Qed.

Lemma zip_with_seq_ext {A B} (f g : A → nat → B) l m n :
  (∀ x j, (m ≤ j < m + n)%nat → f x j = g x j) → zip_with f l (seq m n) = zip_with g l (seq m n).
Proof.
  revert l m. induction n as [|n IH]; intros [|x l] m H; try done. cbn. f_equal; [apply H; lia|]. apply IH. intros y j Hj. apply H. lia.
Qed.

(** The rows are the buckets of the entries. *)
Definition bucket_row (f c : list (nat * Z)) (s j : nat) : list Z := Z.of_nat s :: bucket j f ++ bucket j c.

Lemma rows_buckets_list k l o m : (k < m)%nat →
  (∀ c o m, c ∈ l → (k < m)%nat → rows c o m = zip_with (bucket_row (fields_in k c o m) (children_in k c o m)) (starts c o m) (seq m (nsec c))) →
  over rows l o m = zip_with (bucket_row (over (fields_in k) l o m) (over (children_in k) l o m)) (over starts l o m) (seq m (nsecs l)).
Proof.
  revert o m. induction l as [|c l IH]; intros o m Hk H; [done|]. rewrite !over_cons. cbn [sum_list_with].
  rewrite seq_app, zip_with_app by (by rewrite length_starts, length_seq). rewrite (H c) by (done || by left).
  rewrite (IH (o + length (items c))%nat (m + nsec c)%nat) by (lia || (intros c' o' m' Hc; apply H; by right)).
  assert (∀ a b j, bucket j (a ++ b) = bucket j a ++ bucket j b) as Ha by (intros; apply bucket_app).
  assert (∀ j, (m ≤ j < m + nsec c)%nat → bucket j (over (fields_in k) l (o + length (items c)) (m + nsec c)) = [] ∧
    bucket j (over (children_in k) l (o + length (items c)) (m + nsec c)) = []) as H1.
  { intros j Hj. split; (eapply bucket_none; [apply keys_over; intros; apply keys_fields || apply keys_children|lia|lia]). }
  assert (∀ j, (m + nsec c ≤ j)%nat → bucket j (fields_in k c o m) = [] ∧ bucket j (children_in k c o m) = []) as H2.
  { intros j Hj. split; (eapply bucket_none; [apply keys_fields || apply keys_children|lia|lia]). }
  f_equal; apply zip_with_seq_ext; intros s j Hj; unfold bucket_row; rewrite !bucket_app.
  - destruct (H1 j) as [-> ->]; [lia|]. by rewrite !app_nil_r.
  - destruct (H2 j) as [-> ->]; [lia|]. done.
Qed.

Lemma rows_buckets k c o m : (k < m)%nat →
  rows c o m = zip_with (bucket_row (fields_in k c o m) (children_in k c o m)) (starts c o m) (seq m (nsec c)).
Proof.
  revert k o m. induction c as [tag data|tag b IH] using content_induction; intros k o m Hk; [done|]. rewrite Forall_forall in IH.
  cbn [rows fields_in children_in starts nsec seq zip_with]. f_equal.
  - unfold row_of, bucket_row. f_equal. rewrite bucket_cons, decide_False by lia. by rewrite bucket_fields, bucket_children by lia.
  - rewrite (rows_buckets_list m b (S o) (S m)) by (lia || (intros c o' m' Hc Hm; by apply IH)).
    apply zip_with_seq_ext. intros s j Hj. unfold bucket_row. by rewrite (bucket_cons j k), decide_False by lia.
Qed.

(** ** The walks *)

(** Tags that are what they are used for. *)
Fixpoint tags_ok (c : content) : bool :=
  match c with
  | Field tag _ => isa_known_tag tag && negb (isa_sectional_item tag)
  | Sect tag b => isa_sectional_item tag && forallb tags_ok b
  end.

Lemma walk_app {T} (f : ptr → nat → T → R T) a b i s :
  walk f (a ++ b) i s = let* s := walk f a i s in walk f b (i + length a)%nat s.
Proof.
  revert i s. induction a as [|t a IH]; intros i s; cbn [walk app length]; [by rewrite Nat.add_0_r|].
  rewrite bind_assoc. destruct (f t i s) as [[rc|s']|]; [done| |done]. cbn [bindR]. rewrite IH. f_equal.
  by replace (i + 1 + length a)%nat with (i + S (length a))%nat by lia.
Qed.

Lemma set_at_app {A} (a : list A) x y r : set_at (a ++ x :: r) (length a) y = ret (a ++ y :: r).
Proof.
  unfold set_at. rewrite bool_decide_true by (rewrite length_app; cbn; lia). by rewrite insert_app_r_alt, Nat.sub_diag by lia.
Qed.

(** Section [k] is the innermost one that is open. *)
Definition open_at (E : list nat) (k : nat) : Prop := E !! k = Some 0%nat ∧ Forall (λ e, e ≠ 0%nat) (drop (S k) E).

Lemma open_at_app E k a : open_at E k → Forall (λ e, e ≠ 0%nat) a → open_at (E ++ a) k.
Proof.
  intros [H1 H2] Ha. pose proof (lookup_lt_Some _ _ _ H1). split; [by rewrite lookup_app_l|].
  rewrite drop_app_le by lia. by apply Forall_app_2.
Qed.

Lemma open_at_new E a : Forall (λ e, e ≠ 0%nat) a → open_at (E ++ 0%nat :: a) (length E).
Proof.
  intros Ha. split; [by rewrite lookup_app_r, Nat.sub_diag by lia|].
  rewrite drop_app_ge by lia. by replace (S (length E) - length E)%nat with 1%nat by lia.
Qed.

Lemma open_section_spec E k r : open_at E k → open_section (E ++ r) (length E) = ret k.
Proof.
  intros [H1 H2]. unfold open_section. pose proof (lookup_lt_Some _ _ _ H1) as Hk.
  assert (∀ j, (k ≤ j < length E)%nat → find_open (E ++ r) j = Some k) as H.
  { induction j as [|j IH]; intros Hj; cbn [find_open]; rewrite lookup_app_l by lia.
    - assert (k = 0%nat) as -> by lia. by rewrite H1.
    - destruct (decide (k = S j)) as [->|Hne]; [by rewrite H1|].
      destruct (lookup_lt_is_Some_2 E (S j)) as [e He]; [lia|]. rewrite He.
      assert (e ≠ 0%nat) as He0.
      { rewrite Forall_lookup in H2. apply (H2 (j - k)%nat). rewrite lookup_drop. by replace (S k + (j - k))%nat with (S j) by lia. }
      destruct e; [done|]. apply IH. lia. }
  destruct (length E) as [|n] eqn:El; [lia|]. by rewrite H by lia.
Qed.

(** How many entries each of the rows has. *)
Definition sizes (n : nat) (ops : list (nat * Z)) : list nat := (λ j, length (bucket j ops)) <$> seq 0 n.

Lemma incr_sizes n ops k z : (k < n)%nat → incr (sizes n ops) k = ret (sizes n (ops ++ [(k, z)])).
Proof.
  intros Hk. unfold incr, sizes. rewrite list_lookup_fmap, lookup_seq_lt by done. cbn [fmap option_fmap option_map Nat.add].
  rewrite opt_bind. unfold set_at. rewrite bool_decide_true by (by rewrite length_fmap, length_seq). f_equal. f_equal.
  apply list_eq. intros j. destruct (decide (j < n)%nat) as [Hj|Hj].
  - rewrite list_lookup_fmap, lookup_seq_lt by done. cbn. rewrite bucket_app, length_app, bucket_cons.
    destruct (decide (k = j)) as [->|Hne].
    + rewrite list_lookup_insert_eq by (by rewrite length_fmap, length_seq). cbn. f_equal. lia.
    + rewrite list_lookup_insert_ne, list_lookup_fmap, lookup_seq_lt by done. cbn. f_equal. lia.
  - rewrite !lookup_ge_None_2; [done| |]; rewrite ?length_insert, length_fmap, length_seq; lia.
Qed.

(** Tags are neither data nor closing tags. *)
Lemma known_first t : isa_known_tag t = true → is_data t = false ∧ is_closing t = false.
Proof.
  unfold isa_known_tag, letter, is_data, is_closing. intros H.
  split; apply not_true_iff_false; intros E%ascii_eqb_eq; rewrite E in H; discriminate H.
Qed.

Lemma sectional_first t : isa_sectional_item t = true → is_data t = false ∧ is_closing t = false.
Proof.
  unfold isa_sectional_item, letter, is_data, is_closing. intros H.
  split; apply not_true_iff_false; intros E%ascii_eqb_eq; rewrite E in H; discriminate H.
Qed.

Lemma kind_field tag : isa_known_tag tag && negb (isa_sectional_item tag) = true → kind_of tag = FieldTag.
Proof.
  intros [H1 H2%negb_true_iff]%andb_true_iff. unfold kind_of. destruct (known_first tag H1) as [-> ->]. by rewrite H2.
Qed.

Lemma kind_start tag : isa_sectional_item tag = true → kind_of tag = Start.
Proof. intros H. unfold kind_of. destruct (sectional_first tag H) as [-> ->]. by rewrite H. Qed.

Lemma kind_data d : kind_of (TAB :: d) = Skip.
Proof. done. Qed.

Lemma kind_closing tag : kind_of (SLASH :: tag) = if isa_sectional_item tag then End_ else Skip.
Proof. done. Qed.

Lemma tags_ok_sect tag b : tags_ok (Sect tag b) = true → isa_sectional_item tag = true ∧ Forall (λ c, tags_ok c = true) b.
Proof.
  cbn. intros [H1 H2]%andb_true_iff. split; [done|]. apply Forall_forall. intros c Hc%list_elem_of_In.
  rewrite forallb_forall in H2. by apply H2.
Qed.

(** *** The first walk *)

Definition scanned (A E : list nat) (P : list (option nat)) (ops : list (nat * Z)) (r : nat) : sections :=
  mk_sections (length E) (A ++ replicate r 0%nat) (E ++ replicate r 0%nat) (P ++ replicate r (Some 0%nat)) (sizes (length E + r) ops).

Definition scans (c : content) : Prop := ∀ k o A E P ops r,
  (nsec c ≤ r)%nat → length A = length E → length P = length E → open_at E k →
  walk scan_item (items c) o (scanned A E P ops r) =
  ret (scanned (A ++ starts c o (length E)) (E ++ ends c o (length E)) (P ++ parents k c o (length E))
         (ops ++ fields_in k c o (length E)) (r - nsec c)).

Lemma length_ends c o m : length (ends c o m) = nsec c.
Proof.
  revert o m. induction c as [tag data|tag b IH] using content_induction; intros o m; cbn; [done|]. f_equal. apply over_length.
  intros c' o' m' Hc. rewrite Forall_forall in IH. by apply IH.
Qed.

Lemma length_parents k c o m : length (parents k c o m) = nsec c.
Proof.
  revert k o m. induction c as [tag data|tag b IH] using content_induction; intros k o m; cbn; [done|]. f_equal. apply over_length.
  intros c' o' m' Hc. rewrite Forall_forall in IH. by apply IH.
Qed.

Lemma ends_nonzero c o m : Forall (λ e, e ≠ 0%nat) (ends c o m).
Proof.
  revert o m. induction c as [tag data|tag b IH] using content_induction; intros o m; cbn; [constructor|]. constructor; [lia|].
  revert IH. generalize (S o) (S m). clear. induction b as [|c b IHb]; intros o m H; [constructor|]. apply Forall_cons in H as [Hc Hb].
  apply Forall_app_2; [done|]. by apply IHb.
Qed.

Lemma ends_nonzero_list l o m : Forall (λ e, e ≠ 0%nat) (over ends l o m).
Proof. revert o m. induction l as [|c l IH]; intros o m; [constructor|]. apply Forall_app_2; [apply ends_nonzero|apply IH]. Qed.

Lemma scan_list l k o A E P ops r : Forall scans l →
  (nsecs l ≤ r)%nat → length A = length E → length P = length E → open_at E k →
  walk scan_item (items_of_list l) o (scanned A E P ops r) =
  ret (scanned (A ++ over starts l o (length E)) (E ++ over ends l o (length E)) (P ++ over (parents k) l o (length E))
         (ops ++ over (fields_in k) l o (length E)) (r - nsecs l)).
Proof.
  intros H. revert o A E P ops r. induction H as [|c l Hc _ IH]; intros o A E P ops r Hr HA HP Hk.
  - cbn. by rewrite !app_nil_r, Nat.sub_0_r.
  - cbn [flat_map sum_list_with] in *. rewrite walk_app, (Hc k o A E P ops r) by (done || lia). rewrite bind_ret.
    rewrite IH; [|lia|by rewrite !length_app, length_starts, length_ends, HA|by rewrite !length_app, length_parents, length_ends, HP|
      apply open_at_app; [done|apply ends_nonzero]].
    rewrite !length_app, length_ends, !over_cons, <-!app_assoc. by rewrite Nat.sub_add_distr.
Qed.

Lemma Forall_mp {A} (P Q : A → Prop) l : Forall (λ x, P x → Q x) l → Forall P l → Forall Q l.
Proof. rewrite !Forall_forall. eauto. Qed.

Lemma match_pos {A} (n : nat) (x y : A) : n ≠ 0%nat → match n with O => x | S _ => y end = y.
Proof. by destruct n. Qed.

Lemma scan_field t i k A E P ops r : kind_of t = FieldTag → open_at E k →
  scan_item t i (scanned A E P ops r) = ret (scanned A E P (ops ++ [(k, Z.of_nat i)]) r).
Proof.
  intros Ht Hk. pose proof (lookup_lt_Some _ _ _ (proj1 Hk)) as Hl. unfold scanned, scan_item.
  rewrite Ht, (open_section_spec E k _ Hk), match_pos, bind_ret by lia. by rewrite (incr_sizes _ _ _ (Z.of_nat i)), bind_ret by lia.
Qed.

Lemma scan_start t i k A E P ops r : kind_of t = Start → open_at E k → length A = length E → length P = length E →
  scan_item t i (scanned A E P ops (S r)) = ret (scanned (A ++ [i]) (E ++ [0%nat]) (P ++ [Some k]) ops r).
Proof.
  intros Ht Hk HA HP. pose proof (lookup_lt_Some _ _ _ (proj1 Hk)) as Hl. unfold scanned, scan_item. rewrite Ht. cbn [replicate].
  rewrite <-HA at 1. rewrite set_at_app, bind_ret, set_at_app, bind_ret, match_pos by lia.
  rewrite (open_section_spec E k _ Hk), bind_ret. rewrite <-HP at 1. rewrite set_at_app, bind_ret.
  rewrite <-!app_assoc, !length_app. cbn [app length]. by replace (length E + 1 + r)%nat with (length E + S r)%nat by lia; rewrite Nat.add_1_r.
Qed.

Lemma scan_end t i A E1 E2 P ops r : kind_of t = End_ → Forall (λ e, e ≠ 0%nat) E2 →
  scan_item t i (scanned A (E1 ++ 0%nat :: E2) P ops r) = ret (scanned A (E1 ++ i :: E2) P ops r).
Proof.
  intros Ht HE. unfold scanned, scan_item. rewrite Ht, (open_section_spec _ (length E1)) by (by apply open_at_new). rewrite bind_ret.
  rewrite <-!app_assoc, <-!app_comm_cons, set_at_app, bind_ret. by rewrite !length_app.
Qed.

Lemma scan_content c : tags_ok c = true → scans c.
Proof.
  induction c as [tag data|tag b IH] using content_induction; intros Ht k o A E P ops r Hr HA HP Hk.
  - cbn [items walk]. rewrite (scan_field _ _ k) by (done || by apply kind_field). rewrite bind_ret.
    unfold scan_item. rewrite kind_data, kind_closing. pose proof Ht as [_ Hs%negb_true_iff]%andb_true_iff. rewrite Hs.
    cbn [starts ends parents fields_in nsec]. by rewrite !app_nil_r, Nat.sub_0_r.
  - apply tags_ok_sect in Ht as [Hs Hb]. cbn [nsec] in Hr. destruct r as [|r]; [lia|].
    cbn [items walk]. rewrite (scan_start _ _ k) by (done || by apply kind_start). rewrite bind_ret, walk_app.
    rewrite (scan_list b (length E)); [|exact (Forall_mp _ _ _ IH Hb)|lia|by rewrite !length_app, HA|by rewrite !length_app, HP|apply open_at_new; constructor].
    rewrite bind_ret. cbn [walk]. rewrite <-(app_assoc E). cbn [app].
    rewrite scan_end; [|by rewrite kind_closing, Hs|apply ends_nonzero_list]. rewrite !bind_ret.
    cbn [starts ends parents fields_in nsec]. rewrite !length_app, <-!app_assoc. cbn [app length].
    by rewrite !Nat.add_1_r, Nat.sub_succ.
Qed.

(** *** The rows are filled *)

Section filling.
Context (all : list (nat * Z)) (ss : list nat) (n : nat) (Hss : length ss = n).

(** The rows when [ops] of all the entries have been written. *)
Definition partial_row (ops : list (nat * Z)) (s j : nat) : list Z :=
  Z.of_nat s :: bucket j ops ++ replicate (length (bucket j all) - length (bucket j ops)) 0.
Definition filled (ops : list (nat * Z)) : list (list Z) := zip_with (partial_row ops) ss (seq 0 n).

Lemma lookup_filled ops j s : ss !! j = Some s → filled ops !! j = Some (partial_row ops s j).
Proof.
  intros Hs. unfold filled. rewrite lookup_zip_with, Hs. cbn. rewrite lookup_seq_lt; [done|]. apply lookup_lt_Some in Hs. lia.
Qed.

Lemma add_entry_filled ops k z rest : (k < n)%nat → all = ops ++ (k, z) :: rest →
  add_entry k z (S <$> sizes n ops) (filled ops) = ret (S <$> sizes n (ops ++ [(k, z)]), filled (ops ++ [(k, z)])).
Proof.
  intros Hk Hall. destruct (lookup_lt_is_Some_2 ss k) as [s Hs]; [lia|]. unfold add_entry, sizes.
  rewrite !list_lookup_fmap, lookup_seq_lt by done. cbn [fmap option_fmap option_map Nat.add]. rewrite opt_bind.
  rewrite (lookup_filled ops k s Hs), opt_bind. unfold partial_row.
  assert (length (bucket k all) - length (bucket k ops) = S (length (bucket k rest)))%nat as ->.
  { rewrite Hall, bucket_app, length_app, bucket_cons, decide_True by done. cbn. lia. }
  cbn [replicate]. rewrite app_comm_cons. change (S (length (bucket k ops))) with (length (Z.of_nat s :: bucket k ops)).
  rewrite set_at_app, bind_ret. unfold set_at.
  rewrite bool_decide_true by (unfold filled; rewrite length_zip_with, length_seq; lia). rewrite bind_ret.
  rewrite bool_decide_true by (by rewrite !length_fmap, length_seq). rewrite bind_ret. f_equal. f_equal. f_equal.
  - apply list_eq. intros j. destruct (decide (j < n)%nat) as [Hj|Hj].
    + destruct (decide (k = j)) as [->|Hne].
      * rewrite list_lookup_insert_eq by (by rewrite !length_fmap, length_seq). rewrite !list_lookup_fmap, lookup_seq_lt by done. cbn.
        rewrite bucket_app, length_app, bucket_cons, decide_True by done. cbn. f_equal. lia.
      * rewrite list_lookup_insert_ne, !list_lookup_fmap, lookup_seq_lt by done. cbn.
        rewrite bucket_app, bucket_cons, decide_False by done. cbn. by rewrite app_nil_r.
    + rewrite !lookup_ge_None_2; [done| |]; rewrite ?length_insert, !length_fmap, length_seq; lia.
  - apply list_eq. intros j. destruct (ss !! j) as [s'|] eqn:Hj.
    + rewrite (lookup_filled _ j s' Hj). destruct (decide (k = j)) as [->|Hne].
      * rewrite list_lookup_insert_eq by (unfold filled; rewrite length_zip_with, length_seq; lia). assert (s' = s) as -> by congruence.
        assert (bucket j [(j, z)] = [z]) as E1 by (by rewrite bucket_cons, decide_True).
        assert (bucket j ((j, z) :: rest) = z :: bucket j rest) as E2 by (by rewrite bucket_cons, decide_True).
        unfold partial_row. rewrite Hall, !bucket_app, E1, E2, !length_app. cbn [app length]. rewrite <-app_assoc. cbn [app].
        by replace (length (bucket j ops) + S (length (bucket j rest)) - (length (bucket j ops) + 1))%nat with (length (bucket j rest)) by lia.
      * rewrite list_lookup_insert_ne, (lookup_filled _ j s' Hj) by done. unfold partial_row.
        rewrite bucket_app, bucket_cons, decide_False by done. cbn. by rewrite app_nil_r.
    + apply lookup_ge_None_1 in Hj. unfold filled. rewrite !lookup_ge_None_2; [done| |]; rewrite ?length_insert, length_zip_with, length_seq; lia.
Qed.

Definition filled_to (E : list nat) (ops : list (nat * Z)) (r : nat) : filling :=
  mk_filling (length E) (E ++ replicate r 0%nat) (S <$> sizes n ops) (filled ops).

Definition fills (c : content) : Prop := ∀ k o E ops r rest,
  (nsec c ≤ r)%nat → (length E + r = n)%nat → open_at E k → all = ops ++ fields_in k c o (length E) ++ rest →
  walk fill_item (items c) o (filled_to E ops r) =
  ret (filled_to (E ++ ends c o (length E)) (ops ++ fields_in k c o (length E)) (r - nsec c)).

Lemma fill_list l k o E ops r rest : Forall fills l →
  (nsecs l ≤ r)%nat → (length E + r = n)%nat → open_at E k → all = ops ++ over (fields_in k) l o (length E) ++ rest →
  walk fill_item (items_of_list l) o (filled_to E ops r) =
  ret (filled_to (E ++ over ends l o (length E)) (ops ++ over (fields_in k) l o (length E)) (r - nsecs l)).
Proof.
  intros H. revert o E ops r. induction H as [|c l Hc _ IH]; intros o E ops r Hr HE Hk Ha.
  - cbn. by rewrite !app_nil_r, Nat.sub_0_r.
  - cbn [flat_map sum_list_with] in *. rewrite over_cons, <-app_assoc in Ha.
    rewrite walk_app, (Hc k o E ops r (over (fields_in k) l (o + length (items c)) (length E + nsec c) ++ rest)) by (done || lia).
    rewrite bind_ret. rewrite IH; [|lia|rewrite length_app, length_ends; lia|apply open_at_app; [done|apply ends_nonzero]|].
    + rewrite !length_app, length_ends, !over_cons, <-!app_assoc. by rewrite Nat.sub_add_distr.
    + by rewrite length_app, length_ends, <-app_assoc.
Qed.

Lemma fill_field t i k E ops r rest : kind_of t = FieldTag → open_at E k → (length E + r = n)%nat →
  all = ops ++ (k, Z.of_nat i) :: rest → fill_item t i (filled_to E ops r) = ret (filled_to E (ops ++ [(k, Z.of_nat i)]) r).
Proof.
  intros Ht Hk HE Ha. pose proof (lookup_lt_Some _ _ _ (proj1 Hk)) as Hl. unfold filled_to, fill_item.
  rewrite Ht, (open_section_spec E k _ Hk), match_pos, bind_ret by lia. by rewrite (add_entry_filled ops k _ rest) by (done || lia).
Qed.

Lemma fill_start t i E ops r : kind_of t = Start → fill_item t i (filled_to E ops (S r)) = ret (filled_to (E ++ [0%nat]) ops r).
Proof.
  intros Ht. unfold filled_to, fill_item. rewrite Ht. cbn [replicate]. rewrite set_at_app, bind_ret, <-app_assoc, length_app.
  cbn [app length]. by rewrite Nat.add_1_r.
Qed.

Lemma fill_end t i E1 E2 ops r : kind_of t = End_ → Forall (λ e, e ≠ 0%nat) E2 →
  fill_item t i (filled_to (E1 ++ 0%nat :: E2) ops r) = ret (filled_to (E1 ++ i :: E2) ops r).
Proof.
  intros Ht HE. unfold filled_to, fill_item. rewrite Ht, (open_section_spec _ (length E1)) by (by apply open_at_new). rewrite bind_ret.
  rewrite <-!app_assoc, <-!app_comm_cons, set_at_app, bind_ret. by rewrite !length_app.
Qed.

Lemma fill_content c : tags_ok c = true → fills c.
Proof.
  induction c as [tag data|tag b IH] using content_induction; intros Ht k o E ops r rest Hr HE Hk Ha.
  - cbn [items walk]. rewrite (fill_field _ _ k _ _ _ rest) by (done || by apply kind_field). rewrite bind_ret.
    unfold fill_item. rewrite kind_data, kind_closing. pose proof Ht as [_ Hs%negb_true_iff]%andb_true_iff. rewrite Hs.
    cbn [ends fields_in nsec]. by rewrite !app_nil_r, Nat.sub_0_r.
  - apply tags_ok_sect in Ht as [Hs Hb]. cbn [nsec fields_in] in *. destruct r as [|r]; [lia|].
    cbn [items walk]. rewrite fill_start by (by apply kind_start). rewrite bind_ret, walk_app, Nat.add_1_r.
    rewrite (fill_list b (length E) _ _ _ _ rest); [|exact (Forall_mp _ _ _ IH Hb)|lia|rewrite length_app; cbn; lia|apply open_at_new; constructor|].
    2:{ rewrite length_app. cbn [length]. by rewrite Nat.add_1_r. }
    rewrite bind_ret. cbn [walk]. rewrite <-(app_assoc E). cbn [app].
    rewrite fill_end; [|by rewrite kind_closing, Hs|apply ends_nonzero_list]. rewrite !bind_ret.
    cbn [ends nsec]. rewrite !length_app. cbn [app length]. by rewrite !Nat.add_1_r, Nat.sub_succ.
Qed.

End filling.

(** *** The children *)

Fixpoint child_ops (P : list (option nat)) (j : nat) : list (nat * Z) :=
  match P with
  | [] => []
  | None :: P => child_ops P (j + 1)
  | Some p :: P => (p, - Z.of_nat j) :: child_ops P (j + 1)
  end.

Lemma child_ops_app P Q j : child_ops (P ++ Q) j = child_ops P j ++ child_ops Q (j + length P).
Proof.
  revert j. induction P as [|[p|] P IH]; intros j; cbn; rewrite ?Nat.add_0_r, ?IH; try done;
    by replace (j + 1 + length P)%nat with (j + S (length P))%nat by lia.
Qed.

Lemma child_ops_list k l o m :
  (∀ c o m, c ∈ l → child_ops (parents k c o m) m = children_in k c o m) →
  child_ops (over (parents k) l o m) m = over (children_in k) l o m.
Proof.
  revert o m. induction l as [|c l IH]; intros o m H; [done|]. rewrite !over_cons, child_ops_app, length_parents, (H c) by by left.
  f_equal. apply IH. intros c' o' m' Hc. apply H. by right.
Qed.

Lemma child_ops_parents k c o m : child_ops (parents k c o m) m = children_in k c o m.
Proof.
  revert k o m. induction c as [tag data|tag b IH] using content_induction; intros k o m; [done|]. cbn [parents children_in child_ops].
  f_equal. rewrite Nat.add_1_r. rewrite Forall_forall in IH. apply child_ops_list. intros c o' m' Hc. by apply IH.
Qed.

Lemma each_child_sizes n P j ops : Forall (λ p, (p.1 < n)%nat) (child_ops P j) →
  each_child (λ _ p l, incr l p) P j (sizes n ops) = ret (sizes n (ops ++ child_ops P j)).
Proof.
  revert j ops. induction P as [|[p|] P IH]; intros j ops HP; cbn [each_child child_ops]; [by rewrite app_nil_r| |by apply IH].
  cbn [child_ops] in HP. apply Forall_cons in HP as [Hp HP]. rewrite (incr_sizes n ops p (- Z.of_nat j)) by done.
  rewrite bind_ret, IH by done. by rewrite <-app_assoc.
Qed.

Lemma each_child_filled all ss n P j ops rest : length ss = n → Forall (λ p, (p.1 < n)%nat) (child_ops P j) →
  all = ops ++ child_ops P j ++ rest →
  each_child (λ k p s, add_entry p (- Z.of_nat k) s.1 s.2) P j (S <$> sizes n ops, filled all ss n ops) =
  ret (S <$> sizes n (ops ++ child_ops P j), filled all ss n (ops ++ child_ops P j)).
Proof.
  intros Hss. revert j ops. induction P as [|[p|] P IH]; intros j ops HP Ha; cbn [each_child child_ops]; [by rewrite app_nil_r| |by apply IH].
  cbn [child_ops] in *. apply Forall_cons in HP as [Hp HP]. cbn [fst snd].
  rewrite (add_entry_filled all ss n Hss ops p (- Z.of_nat j) (child_ops P (j + 1) ++ rest)) by done.
  rewrite bind_ret, IH; [by rewrite <-app_assoc|done|]. by rewrite <-app_assoc.
Qed.

(** ** The whole structure *)

Lemma count_app P a b : count P (a ++ b) = (count P a + count P b)%nat.
Proof. unfold count. by rewrite filter_app, length_app. Qed.

Lemma count_cons P t l : count P (t :: l) = ((if P t then 1 else 0) + count P l)%nat.
Proof. unfold count. rewrite filter_cons. by destruct (P t) eqn:E; rewrite ?decide_True, ?decide_False by congruence. Qed.

Lemma count_kinds c : tags_ok c = true → count is_start (items c) = nsec c ∧ count is_end (items c) = nsec c.
Proof.
  induction c as [tag data|tag b IH] using content_induction; intros Ht.
  - pose proof Ht as [_ Hs%negb_true_iff]%andb_true_iff. cbn [items]. rewrite !count_cons.
    unfold is_start, is_end. rewrite (kind_field tag Ht), kind_data, kind_closing, Hs. done.
  - apply tags_ok_sect in Ht as [Hs Hb]. pose proof (Forall_mp _ _ _ IH Hb) as H. cbn [items nsec].
    assert (count is_start (items_of_list b) = nsecs b ∧ count is_end (items_of_list b) = nsecs b) as [E1 E2].
    { clear -H. induction H as [|c b [Hc1 Hc2] _ [IH1 IH2]]; [done|]. cbn [flat_map sum_list_with]. rewrite !count_app. lia. }
    rewrite !count_cons, !count_app, E1, E2, !count_cons. unfold is_start, is_end. rewrite (kind_start tag Hs), kind_closing, Hs. cbn. lia.
Qed.

Lemma sizes_nil n : sizes n [] = replicate n 0%nat.
Proof. unfold sizes. generalize 0%nat at 1 as m. induction n as [|n IH]; intros m; [done|]. cbn. f_equal. apply IH. Qed.

Lemma set_at_0 {A} (x y : A) r : set_at (x :: r) 0 y = ret (y :: r).
Proof. apply (set_at_app []). Qed.

Section root.
Context (tag : cstring) (b : list content) (o : nat) (Ht : tags_ok (Sect tag b) = true).
Local Abbreviation n := (S (nsecs b)).
Local Abbreviation F := (over (fields_in 0) b (S o) 1).
Local Abbreviation C := (over (children_in 0) b (S o) 1).
Local Abbreviation ss := (o :: over starts b (S o) 1).
Local Abbreviation PP := (None :: over (parents 0) b (S o) 1).

Lemma scan_root : walk scan_item (items (Sect tag b)) o
    (mk_sections 0 (replicate n 0%nat) (replicate n 0%nat) (None :: replicate (n - 1) (Some 0%nat)) (replicate n 0%nat)) =
  ret (scanned ss ((S o + length (items_of_list b))%nat :: over ends b (S o) 1) PP F 0).
Proof.
  destruct (tags_ok_sect _ _ Ht) as [Hs Hb]. cbn [items walk]. unfold scan_item at 1. rewrite (kind_start tag Hs). cbn [replicate].
  rewrite set_at_0, bind_ret, set_at_0, !bind_ret, Nat.add_1_r.
  assert (∀ r, mk_sections 1 (o :: replicate r 0%nat) (0%nat :: replicate r 0%nat) (None :: replicate r (Some 0%nat)) (0%nat :: replicate r 0%nat) =
    scanned [o] [0%nat] [None] [] r) as E by (intros r; unfold scanned; by rewrite sizes_nil).
  rewrite Nat.sub_succ, Nat.sub_0_r, E, walk_app, (scan_list b 0); [|by eapply Forall_impl; [done|]; intros; apply scan_content|done|done|done|by apply (open_at_new []); constructor].
  rewrite bind_ret. cbn [walk length app]. rewrite (scan_end _ _ _ [] : ∀ E2 P ops r, _ → _ → scan_item _ _ (scanned _ (0%nat :: E2) P ops r) = ret (scanned _ (_ :: E2) P ops r)); [|by rewrite kind_closing, Hs|apply ends_nonzero_list].
  rewrite bind_ret, Nat.sub_diag. done.
Qed.

Lemma keys_root : Forall (λ p, (p.1 < n)%nat) C.
Proof.
  assert (keys_ok 0 1 (nsecs b) C) as H by (apply keys_over; intros; apply keys_children).
  eapply Forall_impl; [done|]. cbn. intros p [?|?]; lia.
Qed.

Lemma length_ss : length ss = n.
Proof. cbn. f_equal. apply over_length. intros. apply length_starts. Qed.

Lemma fill_root : walk fill_item (items (Sect tag b)) o (mk_filling 0 (replicate n 0%nat) (replicate n 1%nat) (filled (F ++ C) ss n [])) =
  ret (filled_to (F ++ C) ss n ((S o + length (items_of_list b))%nat :: over ends b (S o) 1) F 0).
Proof.
  destruct (tags_ok_sect _ _ Ht) as [Hs Hb]. cbn [items walk].
  assert (mk_filling 0 (replicate n 0%nat) (replicate n 1%nat) (filled (F ++ C) ss n []) = filled_to (F ++ C) ss n [] [] n) as ->.
  { unfold filled_to. by rewrite sizes_nil, fmap_replicate. }
  rewrite fill_start by (by apply kind_start). rewrite bind_ret, walk_app, Nat.add_1_r. cbn [app].
  rewrite (fill_list (F ++ C) ss n length_ss b 0 _ _ _ _ C); [|by eapply Forall_impl; [done|]; intros; apply (fill_content _ _ _ length_ss)|done|done|by apply (open_at_new []); constructor|done].
  rewrite bind_ret. cbn [walk length app]. rewrite (fill_end _ _ _ _ _ [] : ∀ E2 ops r, _ → _ → fill_item _ _ (filled_to _ _ _ (0%nat :: E2) ops r) = ret (filled_to _ _ _ (_ :: E2) ops r)); [|by rewrite kind_closing, Hs|apply ends_nonzero_list].
  rewrite bind_ret, Nat.sub_diag. done.
Qed.

Lemma rows_root : rows (Sect tag b) o 0 = filled (F ++ C) ss n (F ++ C).
Proof.
  assert (filled (F ++ C) ss n (F ++ C) = zip_with (bucket_row F C) ss (seq 0 n)) as ->.
  { unfold filled. apply zip_with_seq_ext. intros s j _. unfold partial_row, bucket_row. by rewrite Nat.sub_diag, app_nil_r, bucket_app. }
  cbn [rows seq zip_with]. f_equal.
  - unfold row_of, bucket_row. by rewrite bucket_fields, bucket_children by lia.
  - apply rows_buckets_list; [lia|]. intros. by apply rows_buckets.
Qed.

Lemma rows_empty : zip_with (λ row start, <[0%nat := Z.of_nat start]> row) ((λ l, replicate (S l) 0) <$> sizes n (F ++ C)) ss = filled (F ++ C) ss n [].
Proof.
  unfold filled, sizes. generalize ss, (F ++ C). intros l ops. generalize 0%nat at 2 3 as m. revert l. generalize n. clear.
  induction n as [|n IH]; intros [|s l] m; try done. cbn. f_equal; [|apply IH]. unfold partial_row. cbn. by rewrite Nat.sub_0_r.
Qed.

End root.

(** What structure_lexed_items finds for a section with what surrounds it. *)
Lemma structure_section pre post tag b : tags_ok (Sect tag b) = true →
  structure_lexed_items (length pre) (length pre + length (items (Sect tag b))) (pre ++ items (Sect tag b) ++ post) =
  ret (rows (Sect tag b) (length pre) 0).
Proof.
  intros Ht. set (c := Sect tag b). assert (0 < length (items c))%nat as Hl by (cbn; lia). destruct (tags_ok_sect _ _ Ht) as [Hs Hb].
  unfold structure_lexed_items. rewrite !length_app.
  rewrite !bool_decide_false by lia. cbn [orb].
  replace (length pre + length (items c) - length pre)%nat with (length (items c)) by lia.
  rewrite drop_app_length, take_app_length. destruct (count_kinds c Ht) as [-> ->].
  rewrite !bool_decide_false by (cbn; lia || congruence). cbn [orb].
  assert (items c = tag :: items_of_list b ++ [SLASH :: tag]) as Ei by done. rewrite Ei at 1. rewrite Hs. cbn [negb].
  change (nsec c) with (S (nsecs b)). unfold c. rewrite (scan_root tag b (length pre) Ht), bind_ret. cbn [sz scanned].
  set (E := (S (length pre) + length (items_of_list b))%nat :: over ends b (S (length pre)) 1).
  assert (length E = S (nsecs b)) as HE by (cbn; f_equal; apply over_length; intros; apply length_ends).
  rewrite HE, bool_decide_false by (intros Hx; by apply Hx). unfold scanned. cbn [section_parents section_counts section_starts].
  rewrite HE. change (replicate 0 (Some 0%nat)) with (@nil (option nat)). change (replicate 0 0%nat) with (@nil nat).
  rewrite !app_nil_r, Nat.add_0_r.
  assert (child_ops (None :: over (parents 0) b (S (length pre)) 1) 0 = over (children_in 0) b (S (length pre)) 1) as Hc.
  { cbn. apply child_ops_list. intros. apply child_ops_parents. }
  pose proof (keys_root b (length pre)) as Hkeys.
  rewrite each_child_sizes, bind_ret, Hc by (rewrite Hc; exact Hkeys).
  rewrite rows_empty, (fill_root tag b (length pre) Ht), bind_ret. cbn [f_counts f_rows filled_to].
  rewrite (each_child_filled _ _ _ _ _ _ []) by (apply length_ss || rewrite Hc, ?app_nil_r; done).
  by rewrite bind_ret, Hc, (rows_root tag).
Qed.

(** C8. The structure of a document is found without recursion or a stack: a row for each
    section in the order of the opening tags, with its fields and the rows of the sections
    directly inside it. *)
Theorem structure_document tag b : tags_ok (Sect tag b) = true →
  structure_lexed_items 0 (length (items (Sect tag b))) (items (Sect tag b)) = ret (rows (Sect tag b) 0 0).
Proof.
  intros Ht. pose proof (structure_section [] [] tag b Ht) as H. cbn [app length Nat.add] in H. by rewrite app_nil_r in H.
Qed.

End XmlRows.

(** * The rows are well typed, whatever the items are

    When structure_lexed_items succeeds, every entry of every row is what the comment above
    that function says: the first one the index of the opening tag of a section, the
    others indices of the tags of fields or negated numbers of rows. *)

Module XmlTyped.
Import CfgiFile30 XmlLex XmlDoc XmlItems XmlStruct XmlRows.

Lemma bind_inv {A B} (m : R A) (k : A → R B) b : bindR m k = ret b → ∃ a, m = ret a ∧ k a = ret b.
Proof. destruct m as [[|a]|]; try done. by exists a. Qed.

Lemma opt_inv {A} (o : option A) a : opt o = ret a → o = Some a.
Proof. destruct o; [|done]. by intros [= ->]. Qed.

Lemma set_at_inv {A} (l : list A) i x l' : set_at l i x = ret l' → (i < length l)%nat ∧ l' = <[i := x]> l.
Proof. unfold set_at. case_bool_decide; [|done]. by intros [= <-]. Qed.

Ltac binds :=
  repeat match goal with
  | H : bindR _ _ = ret _ |- _ => apply bind_inv in H as (? & ? & ?)
  | H : opt _ = ret _ |- _ => apply opt_inv in H
  | H : set_at _ _ _ = ret _ |- _ => apply set_at_inv in H as [? ->]
  | H : ret _ = ret _ |- _ => injection H as; subst
  | H : fail _ = ret _ |- _ => discriminate H
  | H : None = ret _ |- _ => discriminate H
  | x : _ * _ |- _ => destruct x
  end; cbn [fst snd sz section_starts section_ends section_parents section_counts f_sz f_ends f_counts f_rows] in *; subst.

Lemma find_open_le ends k p : find_open ends k = Some p → (p ≤ k)%nat.
Proof.
  induction k as [|k IH]; cbn [find_open]; destruct (ends !! _) as [[|e]|]; try done; try by intros [= <-].
  intros H%IH. lia.
Qed.

Lemma open_section_lt ends sz k : open_section ends sz = ret k → (k < sz)%nat.
Proof. destruct sz as [|n]; [done|]. cbn. intros H%opt_inv%find_open_le. lia. Qed.

Lemma incr_inv l k l' : incr l k = ret l' → ∃ c, l !! k = Some c ∧ l' = <[k := S c]> l.
Proof. unfold incr. intros H. binds. by eexists. Qed.

Lemma add_entry_inv k z c rs c' rs' : add_entry k z c rs = ret (c', rs') →
  ∃ n row, c !! k = Some n ∧ rs !! k = Some row ∧ (n < length row)%nat ∧ c' = <[k := S n]> c ∧ rs' = <[k := <[n := z]> row]> rs.
Proof. unfold add_entry. intros H. binds. eexists _, _. by split_and!. Qed.

(** ** The second walk repeats the first *)

Definition agree (s : sections) (f : filling) : Prop :=
  sz s = f_sz f ∧ section_ends s = f_ends f ∧ f_counts f = S <$> section_counts s.

Lemma agree_item t i s f s' f' : agree s f → scan_item t i s = ret s' → fill_item t i f = ret f' → agree s' f'.
Proof.
  destruct s as [sz st en pa co], f as [fsz fen fco frs]. unfold agree. cbn. intros (<- & <- & ->) Hs Hf.
  destruct (kind_of t).
  - binds. done.
  - binds. split_and!; [done|done|done].
  - binds. unfold ret in *. by simplify_eq.
  - destruct sz as [|n]; [done|]. binds. 
    repeat match goal with H : incr _ _ = ret _ |- _ => apply incr_inv in H as (? & ? & ->) 
      | H : add_entry _ _ _ _ = ret (_, _) |- _ => apply add_entry_inv in H as (? & ? & ? & ? & ? & -> & ->) end.
    unfold ret in *. simplify_eq. split_and!; [done|done|]. rewrite list_lookup_fmap in *. simplify_option_eq. by rewrite list_fmap_insert.
Qed.

Lemma agree_walk part i s f s' f' : agree s f → walk scan_item part i s = ret s' → walk fill_item part i f = ret f' → agree s' f'.
Proof.
  revert i s f. induction part as [|t part IH]; intros i s f Ha Hs Hf; cbn [walk] in *; binds; [done|]. eauto using agree_item.
Qed.

Lemma agree_children P k l l' c rs c' rs' : c = S <$> l →
  each_child (λ _ p l, incr l p) P k l = ret l' →
  each_child (λ k p s, add_entry p (- Z.of_nat k) s.1 s.2) P k (c, rs) = ret (c', rs') → c' = S <$> l'.
Proof.
  revert k l c rs. induction P as [|[p|] P IH]; intros k l c rs Hc Hl Hr; cbn [each_child] in *; binds; [done| |eauto].
  repeat match goal with H : incr _ _ = ret _ |- _ => apply incr_inv in H as (? & ? & ->)
    | H : add_entry _ _ _ _ = ret (_, _) |- _ => apply add_entry_inv in H as (? & ? & ? & ? & ? & -> & ->) end.
  rewrite list_lookup_fmap in *. simplify_option_eq. eapply IH; [|done|done]. by rewrite list_fmap_insert.
Qed.

(** ** Types *)

Section typed.
Context (items : list ptr) (n : nat).

Definition kind_at (j : nat) (k : kind) : Prop := ∃ t, items !! j = Some t ∧ kind_of t = k.

(** A field, or another row. *)
Definition entry_ok (z : Z) : Prop :=
  (∃ j, z = Z.of_nat j ∧ kind_at j FieldTag) ∨ (∃ j, z = - Z.of_nat j ∧ (0 < j < n)%nat).

(** The first [m] entries of the rows have been written. *)
Definition typed (ss c : list nat) (rs : list (list Z)) : Prop := ∀ k row m, rs !! k = Some row → c !! k = Some m →
  (1 ≤ m)%nat ∧ (∃ s, ss !! k = Some s ∧ row !! 0%nat = Some (Z.of_nat s)) ∧ ∀ j z, (1 ≤ j < m)%nat → row !! j = Some z → entry_ok z.

Lemma typed_add ss k z c rs c' rs' : typed ss c rs → entry_ok z → add_entry k z c rs = ret (c', rs') →
  typed ss c' rs' ∧ length <$> rs' = length <$> rs.
Proof.
  intros Ht Hz (m & row & Hm & Hrow & Hlt & -> & ->)%add_entry_inv. split.
  - intros k' row' m'. destruct (Ht k row m Hrow Hm) as (H1 & (s & Hs & Hh) & Hj).
    destruct (decide (k = k')) as [<-|Hne]; [|rewrite !list_lookup_insert_ne by done; apply Ht].
    rewrite !list_lookup_insert_eq by (by eapply lookup_lt_Some). intros [= <-] [= <-]. split_and!; [lia| |].
    + exists s. split; [done|]. by rewrite list_lookup_insert_ne by lia.
    + intros j z' Hjm. destruct (decide (m = j)) as [<-|Hmj]; [rewrite list_lookup_insert_eq by done; by intros [= <-]|].
      rewrite list_lookup_insert_ne by done. apply Hj. lia.
  - apply list_eq. intros j. rewrite !list_lookup_fmap. destruct (decide (k = j)) as [<-|Hne]; [|by rewrite list_lookup_insert_ne].
    rewrite list_lookup_insert_eq by (by eapply lookup_lt_Some). rewrite Hrow. cbn. by rewrite length_insert.
Qed.

Lemma typed_fill ss part i f f' post : drop i items = part ++ post → typed ss (f_counts f) (f_rows f) → walk fill_item part i f = ret f' →
  typed ss (f_counts f') (f_rows f') ∧ length <$> f_rows f' = length <$> f_rows f.
Proof.
  revert i f. induction part as [|t part IH]; intros i f Hd Ht Hw; cbn [walk] in Hw; binds; [done|].
  assert (items !! i = Some t) as Hi by (by rewrite <-(Nat.add_0_r i), <-lookup_drop, Hd).
  assert (drop (i + 1) items = part ++ post) as Hd' by (by rewrite <-drop_drop, Hd).
  match goal with H : fill_item _ _ _ = ret ?f1 |- _ =>
    assert (typed ss (f_counts f1) (f_rows f1) ∧ length <$> f_rows f1 = length <$> f_rows f) as [H1 H2]; [|destruct (IH _ f1 Hd' H1 ltac:(eassumption)) as [H3 H4]; split; [done|by rewrite H4]]; revert H end.
  destruct f as [fsz fen fco frs]. unfold fill_item. destruct (kind_of t) eqn:Ek; intros Hf; [| | |destruct fsz; [done|]]; binds; try done.
  eapply typed_add; [done| |done]. left. eexists. split; [done|]. by exists t.
Qed.

Lemma typed_children ss P k c rs c' rs' : typed ss c rs → (1 ≤ k)%nat → (k + length P ≤ n)%nat →
  each_child (λ k p s, add_entry p (- Z.of_nat k) s.1 s.2) P k (c, rs) = ret (c', rs') →
  typed ss c' rs' ∧ length <$> rs' = length <$> rs.
Proof.
  revert k c rs. induction P as [|[p|] P IH]; intros k c rs Ht Hk Hn He; cbn [each_child length] in *; binds; [done| |eapply (IH (k + 1)%nat); [exact Ht|lia|lia|exact He]].
  match goal with H : add_entry _ _ _ _ = ret _ |- _ => apply (typed_add ss) in H as [H1 H2]; [|done|right; exists k; split; [done|lia]] end.
  match goal with H : each_child _ _ _ _ = ret _ |- _ => apply IH in H as [H3 H4]; [|done|lia|lia] end. split; [done|by rewrite H4].
Qed.

Lemma each_child_length P k l l' : each_child (λ _ p l, incr l p) P k l = ret l' → length l' = length l.
Proof.
  revert k l. induction P as [|[p|] P IH]; intros k l H; cbn [each_child] in H; binds; [done| |eauto].
  match goal with H : incr _ _ = ret _ |- _ => apply incr_inv in H as (? & ? & ->) end.
  erewrite IH by done. by rewrite length_insert.
Qed.

(** The first walk. *)
Definition scan_typed (s : sections) : Prop :=
  (length (section_starts s) = n ∧ length (section_counts s) = n) ∧ length (section_parents s) = n ∧ section_parents s !! 0%nat = Some None ∧
  ∀ j q, (j < sz s)%nat → section_starts s !! j = Some q → kind_at q Start.

Lemma scan_typed_walk part i s s' post : drop i items = part ++ post → scan_typed s → walk scan_item part i s = ret s' → scan_typed s'.
Proof.
  revert i s. induction part as [|t part IH]; intros i s Hd Ht Hw; cbn [walk] in Hw; binds; [done|].
  assert (items !! i = Some t) as Hi by (by rewrite <-(Nat.add_0_r i), <-lookup_drop, Hd).
  assert (drop (i + 1) items = part ++ post) as Hd' by (by rewrite <-drop_drop, Hd).
  match goal with H : scan_item _ _ _ = ret ?s1 |- _ => apply (IH _ s1 Hd'); [|done]; revert H end.
  destruct s as [z ss ee pp cc], Ht as ([T0 T1] & T2 & T3 & T4). unfold scan_item. cbn [section_starts section_parents section_counts sz] in *.
  destruct (kind_of t) eqn:Ek; intros Hf; [| | |destruct z; [done|]]; [binds; done| |binds; done|].
  2:{ binds. match goal with H : incr _ _ = ret _ |- _ => apply incr_inv in H as (? & ? & ->) end. by split_and!; cbn; rewrite ?length_insert. }
  binds. split_and!; cbn.
  - by rewrite length_insert.
  - done.
  - destruct z; binds; [done|]. by rewrite length_insert.
  - destruct z; binds; [done|]. by rewrite list_lookup_insert_ne.
  - intros j q Hj. destruct (decide (z = j)) as [<-|Hne].
    + rewrite list_lookup_insert_eq by done. intros [= <-]. by exists t.
    + rewrite list_lookup_insert_ne by done. apply T4. lia.
Qed.

End typed.

(** C37. Whenever structure_lexed_items succeeds, on whatever items, its rows are well typed:
    each begins with the index of the opening tag of a section, and its other entries are
    indices of tags of fields, or negated numbers of rows other than the first. *)
Theorem structure_typed b e items rs : structure_lexed_items b e items = ret rs →
  Forall (λ row, ∃ s l, row = Z.of_nat s :: l ∧ kind_at items s Start ∧ Forall (entry_ok items (length rs)) l) rs.
Proof.
  unfold structure_lexed_items. destruct (bool_decide _); [done|]. destruct (_ || _ || _); [done|].
  assert (drop b items = take (e - b) (drop b items) ++ drop (e - b) (drop b items)) as Hd by (by rewrite take_drop). revert Hd.
  generalize (take (e - b) (drop b items)) as part, (drop (e - b) (drop b items)) as post. intros [|t0 part'] post; [done|].
  set (part := t0 :: part'). intros Hd. destruct (negb _); [done|]. set (n := count is_start part).
  clearbody n part. destruct (bool_decide (n ≠ _)) eqn:En0; [done|]. destruct (bool_decide (n = 0%nat)) eqn:En; [done|]. cbn [orb]. apply bool_decide_eq_false in En. intros H.
  apply bind_inv in H as (s & Hs & H). destruct (bool_decide_reflect (sz s ≠ n)) as [|Hsz]; [done|].
  apply bind_inv in H as (lengths & Hl & H). apply bind_inv in H as (f & Hf & H). apply bind_inv in H as ([c rows'] & Hc & H). cbn in H. injection H as <-.
  assert (agree s f) as Ha by (eapply agree_walk; [|exact Hs|exact Hf]; split_and!; cbn; [done|done|by rewrite fmap_replicate]).
  assert (scan_typed items n s) as ([T0 T1] & T2 & T3 & T4).
  { eapply scan_typed_walk; [exact Hd| |exact Hs]. split_and!; cbn; rewrite ?length_replicate; (done || lia || (intros; lia)). }
  assert (length lengths = n) as Ll by (by rewrite (each_child_length _ _ _ _ Hl)).
  set (rows0 := zip_with (λ row start, <[0%nat:=Z.of_nat start]> row) ((λ l, replicate (S l) 0) <$> lengths) (section_starts s)) in *.
  assert (∀ k row, rows0 !! k = Some row → ∃ l q, lengths !! k = Some l ∧ section_starts s !! k = Some q ∧ row = <[0%nat := Z.of_nat q]> (replicate (S l) 0)) as R0.
  { intros k row. unfold rows0. rewrite lookup_zip_with, list_lookup_fmap. destruct (lengths !! k) as [l|], (section_starts s !! k) as [q|]; cbn; try done.
    intros [= <-]. by exists l, q. }
  apply (typed_fill items n (section_starts s) _ _ _ _ _ Hd) in Hf as [Tf Lf]; cbn [f_counts f_rows] in *.
  2:{ intros k row m (l & q & _ & Hq & ->)%R0 [-> _]%lookup_replicate_1. split_and!; [done| |intros; lia]. by exists q. }
  destruct (section_parents s) as [|[p|] P] eqn:EP; [done|done|]. cbn [each_child length Nat.add] in Hl, Hc, T2.
  pose proof (agree_children P 1 _ _ _ _ _ _ (proj2 (proj2 Ha)) Hl Hc) as Ec.
  apply (typed_children items n (section_starts s)) in Hc as [Tc Lc]; [|done|lia|lia]. rewrite Lf in Lc.
  assert (length rows' = n) as Lr.
  { rewrite <-(length_fmap length rows'), Lc, length_fmap. unfold rows0. rewrite length_zip_with, length_fmap. lia. }
  apply Forall_lookup. intros k row Hk. rewrite Lr.
  assert (∃ l, lengths !! k = Some l ∧ length row = S l) as (l & Hlk & Hrow).
  { assert ((length <$> rows0) !! k = Some (length row)) as E by (rewrite <-Lc, list_lookup_fmap, Hk; done).
    rewrite list_lookup_fmap in E. destruct (rows0 !! k) as [row0|] eqn:E0; [|done]. injection E as E.
    destruct (R0 k row0 E0) as (l & q & Hl' & _ & ->). exists l. split; [done|]. by rewrite <-E, length_insert, length_replicate. }
  destruct (Tc k row (S l) Hk) as (_ & (q & Hq & Hh) & He); [by rewrite Ec, list_lookup_fmap, Hlk|].
  destruct row as [|z row]; [done|]. injection Hh as ->. exists q, row. split_and!; [done| |].
  - apply T4 with k; [|done]. apply lookup_lt_Some in Hk. lia.
  - apply Forall_lookup. intros j z Hz. apply (He (S j) z); [|done]. apply lookup_lt_Some in Hz. cbn in Hrow. lia.
Qed.

End XmlTyped.
