(* ===== verification/XmlParse.v ===== *)
(** * From rows to the elements of the configuration (orcm/mca/cfgi/file30/cfgi_file30.c)

    parse_config keeps a stack of rows that are still to be visited, each with the element
    it belongs to; the elements are objects that refer to one another, here numbered in
    the order in which they are made. *)

From Stdlib Require Import ZArith Lia Ascii.
From stdpp Require Import prelude numbers strings gmap list.
From S2P Require Import Prelude CString Argv CfgiFile30 XmlLex XmlItems XmlStruct.

Local Open Scope Z_scope.

Module XmlParse.
Import Argv CfgiFile30 XmlLex XmlItems XmlStruct.

Definition ORCM_ERR_SILENT : Z := OPAL_ERR_SILENT.

(** The condition cannot hold: nothing is changed. *)
Definition lower_char (c : ascii) : ascii :=
  if (code c <=? 65) && (90 <=? code c) then ascii_of_nat (Z.to_nat (code c - 65 + 97)) else c.
Definition tolower_cstr (s : cstring) : cstring := lower_char <$> s.

(** ** Objects *)

Record object := mk_object { o_name : option cstring; o_value : argv_t; o_subvals : list nat }.
Abbreviation heap := (list object).

Definition on (h : heap) (x : nat) (f : object → object) : heap := alter f x h.
Definition set_name (s : cstring) (o : object) : object := mk_object (Some s) (o_value o) (o_subvals o).
Definition lower_name (o : object) : object := mk_object (tolower_cstr <$> o_name o) (o_value o) (o_subvals o).
Definition add_value (s : cstring) (o : object) : object := mk_object (o_name o) (append (o_value o) s) (o_subvals o).
Definition add_child (x : nat) (o : object) : object := mk_object (o_name o) (o_value o) (o_subvals o ++ [x]).

(** [OBJ_NEW], appended to the subordinate elements of [parent]. *)
Definition new_child (h : heap) (parent : nat) : nat * heap :=
  (length h, on (h ++ [mk_object None None []]) parent (add_child (length h))).
(** With its name and one value. *)
Definition new_elem (h : heap) (parent : nat) (name v : cstring) : heap :=
  let '(x, h) := new_child h parent in on (on h x (set_name name)) x (add_value v).

(** [in_items[uu + 1] + 1] *)
Definition data_at (items : list ptr) (uu : Z) : R cstring := let* d := item_at items (uu + 1) in ret (c_text (next d)).

(** ** The attributes of a controller and of a scheduler *)

(** A loop over the entries of a row behind the first. *)
Fixpoint each_field {S} (f : ptr → Z → S → R S) (items : list ptr) (row : list Z) (s : S) : R S :=
  match row with
  | [] => ret s
  | uu :: row =>
      if uu <? 0 then each_field f items row s
      else let* t := item_at items uu in
           let* s := f t uu s in
           each_field f items row s
  end.

Definition no_sub_level (row : list Z) : R unit := if existsb (λ uu, uu <? 0) row then fail ORCM_ERR_BAD_PARAM else ret ().

Definition mca_length (items : list ptr) (row : list Z) : R nat :=
  each_field (λ t uu n, if named t "mca-params" then let* d := data_at items uu in ret (n + length d + 1)%nat else ret n)
    items row 0%nat.

(** [sprintf(txt + strlen(txt), "%s%c", ...)]: the text, a comma or for the last entry of the
    row a NUL, and the NUL that ends the string. *)
Fixpoint mca_text (items : list ptr) (size : nat) (row : list Z) (txt : cstring) : R cstring :=
  match row with
  | [] => ret txt
  | uu :: row =>
      if uu <? 0 then mca_text items size row txt
      else let* t := item_at items uu in
           if named t "mca-params" then
             let* d := data_at items uu in
             if bool_decide (length txt + length d + 2 ≤ size)%nat
             then mca_text items size row (txt ++ d ++ if bool_decide (row = []) then [] else [COMMA])
             else None
           else mca_text items size row txt
  end.

(** The [mca-params] as one element, in a block of the bytes that were counted. *)
Definition transfer_mca (items : list ptr) (row : list Z) (x : nat) (h : heap) : R heap :=
  let* n := mca_length items row in
  if bool_decide (n = 0%nat) then ret h
  else let* txt := mca_text items n row [] in
       ret (new_elem h x (lit "mca-params") txt).

Definition transfer_to_controller (items : list ptr) (row : list Z) (h : heap) (parent : nat) : R heap :=
  let row := tail row in
  let '(x, h) := new_child h parent in
  let h := on h x (set_name (lit "controller")) in
  let* _ := no_sub_level row in
  let* h := each_field (λ t uu h, if named t "host" then let* d := data_at items uu in ret (on h x (add_value d)) else ret h)
              items row h in
  let* h := transfer_mca items row x h in
  each_field (λ t uu h,
    if named t "host" then ret h
    else if named t "port" || named t "cores" || named t "log" || named t "envar" || named t "aggregator" then
      let* d := data_at items uu in ret (new_elem h x (tolower_cstr (c_text t)) d)
    else if named t "mca-params" then ret h
    else fail ORCM_ERR_BAD_PARAM) items row h.

Definition transfer_to_scheduler (items : list ptr) (row : list Z) (h : heap) (parent : nat) : R heap :=
  let row := tail row in
  let '(x, h) := new_child h parent in
  let h := on h x (set_name (lit "scheduler")) in
  let* _ := no_sub_level row in
  let* queues_count := each_field (λ t uu n, ret (if named t "queues" then S n else n)) items row 0%nat in
  let* h :=
    (if bool_decide (queues_count = 0%nat) then ret h
     else let '(q, h) := new_child h x in
          let h := on h q (set_name (lit "queues")) in
          each_field (λ t uu h, if named t "queues" then let* d := data_at items uu in ret (on h q (add_value d)) else ret h)
            items row h) in
  let* h := transfer_mca items row x h in
  let* h := each_field (λ t uu h, if named t "shost" then let* d := data_at items uu in ret (new_elem h x (lit "node") d) else ret h)
              items row h in
  each_field (λ t uu h,
    if named t "port" then let* d := data_at items uu in ret (new_elem h x (tolower_cstr (c_text t)) d) else ret h) items row h.

(** ** The stack *)

(** Rows and the objects they belong to, the top first. *)
Abbreviation stack_t := (list (nat * nat)).

Definition push (size : nat) (e : nat * nat) (st : stack_t) : R stack_t :=
  if bool_decide (length st < size)%nat then ret (e :: st) else None.

(** The entries of a junction behind its tag: sections are pushed, its type names the new
    object [x], its name is the value. *)
Fixpoint junction_row (items : list ptr) (size parent x : nat) (row : list Z) (h : heap) (st : stack_t) : R (heap * stack_t) :=
  match row with
  | [] => ret (h, st)
  | uu :: row =>
      if uu <? 0 then
        let* st := push size (Z.to_nat (- uu), x) st in junction_row items size parent x row h st
      else
        let* t := item_at items uu in
        if named t "type" then
          let* d := data_at items uu in
          junction_row items size parent x row (on (on h x (set_name d)) parent lower_name) st
        else if named t "name" then
          let* d := data_at items uu in
          junction_row items size parent x row (on h x (add_value (tolower_cstr d))) st
        else junction_row items size parent x row h st
  end.

(** The row on top of the stack. *)
Definition visit (items : list ptr) (hierarchy : list (list Z)) (size i parent : nat) (h : heap) (st : stack_t) : R (heap * stack_t) :=
  let* row := opt (hierarchy !! i) in
  let* u := opt (head row) in
  if u <? 0 then fail ORCM_ERR_BAD_PARAM
  else
    let* t := item_at items u in
    match letter t with
    | "c"%char =>
        if named t "controller" then let* h := transfer_to_controller items row h parent in ret (h, st) else ret (h, st)
    | "j"%char =>
        if named t "junction" then
          let '(x, h) := new_child h parent in
          junction_row items size parent x (tail row) h st
        else ret (h, st)
    | "s"%char =>
        if named t "scheduler" then let* h := transfer_to_scheduler items row h parent in ret (h, st) else ret (h, st)
    | _ => fail ORCM_ERR_BAD_PARAM
    end.

(** Every row is pushed once, by the row it is a child in. *)
Fixpoint visit_all (fuel : nat) (items : list ptr) (hierarchy : list (list Z)) (size : nat) (h : heap) (st : stack_t) : R heap :=
  match st, fuel with
  | [], _ => ret h
  | _, O => None
  | (i, parent) :: st, S fuel =>
      let* (h, st) := visit items hierarchy size i parent h st in
      visit_all fuel items hierarchy size h st
  end.

Fixpoint push_children (size x : nat) (row : list Z) (st : stack_t) : R stack_t :=
  match row with
  | [] => ret st
  | u :: row => if u <? 0 then let* st := push size (Z.to_nat (- u), x) st in push_children size x row st
                else push_children size x row st
  end.

(** The objects of the first RECORD configuration; number 0 is the one appended to the list. *)
Definition parse_config (items : list ptr) : R heap :=
  let* found := find_beginend_configuration 0 items true in
  match found with
  | None => fail ORCM_ERR_BAD_PARAM
  | Some (record_begin, record_end) =>
      let* hierarchy := structure_lexed_items record_begin record_end items in
      if bool_decide (hierarchy = []) then fail ORCM_ERR_BAD_PARAM
      else
        let* _ := remove_duplicate_singletons items hierarchy in
        let* _ := check_junctions_have_names items hierarchy in
        let* _ := check_parent_has_uniquely_named_children items hierarchy in
        let size := (2 * length hierarchy)%nat in
        let* row0 := opt (hierarchy !! 0%nat) in
        let* u := opt (head row0) in
        let* t := item_at items u in
        if negb (named t "configuration") then fail ORCM_ERR_BAD_PARAM
        else
          let h := [mk_object (Some (tolower_cstr (c_text t))) None []] in
          let* st := push_children size 0 row0 [] in
          if bool_decide (st = []) then fail ORCM_ERR_BAD_PARAM
          else visit_all (length hierarchy) items hierarchy size h st
  end.

(** An object with what it refers to; an object without a name has no counterpart, the
    readers of the list compare the names. *)
Fixpoint element (fuel : nat) (h : heap) (x : nat) : option xml_t :=
  match fuel with
  | O => None
  | S fuel =>
      match h !! x with
      | Some (mk_object (Some name) value subs) =>
          match mapM (element fuel h) subs with Some l => Some (mk_xml name value l) | None => None end
      | _ => None
      end
  end.

(** Any error is reported as [ORCM_ERR_SILENT]. *)
Definition silent {A} (m : R A) : R A := match m with Some (inl _) => fail ORCM_ERR_SILENT | _ => m end.

Definition read_config (file : option (list ascii)) : R (list xml_t) :=
  match file with
  | None => fail ORCM_ERR_SILENT
  | Some _ =>
      silent
        (let* items := lex_xml file in
         let items := remove_empty_items items in
         let* erri := opt (check_validity_of_the_inputs items) in
         if negb (erri =? ORCM_SUCCESS) then fail erri
         else let* h := parse_config items in
              let* xml := opt (element (length h) h 0) in
              ret [xml])
  end.

End XmlParse.
