(* ===== verification/XmlSame.v ===== *)
(** * Items that have the same texts

    An item is a pointer into the block of the lexer, and what follows its text there is
    irrelevant as long as the text is not empty: the functions on items give the same
    results on the bare texts. *)

From Stdlib Require Import ZArith Lia Ascii.
From stdpp Require Import prelude numbers strings gmap list.
From S2P Require Import Prelude CString Argv CfgiFile30 XmlLex XmlItems XmlStruct XmlParse.

Local Open Scope Z_scope.

Module XmlSame.
Import CfgiFile30 XmlLex XmlItems XmlStruct XmlParse.

Definition same_text (p q : ptr) : Prop := c_text p = c_text q.
Definition same (p q : ptr) : Prop := same_text p q ∧ c_text p ≠ [].

#[export] Instance same_text_equiv : Equivalence same_text.
Proof. unfold same_text. split; [done|by intros ??|intros ???; congruence]. Qed.

Lemma c_text_cons c p : c_text (c :: p) = if ascii_eqb c NUL then [] else c :: c_text p.
Proof. unfold c_text, cut. cbn. destruct (ascii_eqb c NUL); [done|]. cbn. by destruct (span _ p) as [a [|]]. Qed.

Lemma first_text p : first p = default NUL (head (c_text p)).
Proof.
  destruct p as [|c p]; [done|]. rewrite c_text_cons. unfold first. cbn. destruct (ascii_eqb c NUL) eqn:E; [|done].
  by apply ascii_eqb_eq in E.
Qed.

Lemma next_text p : c_text p ≠ [] → c_text (next p) = tail (c_text p).
Proof. destruct p as [|c p]; [done|]. rewrite c_text_cons. by destruct (ascii_eqb c NUL). Qed.

#[export] Instance first_proper : Proper (same_text ==> eq) first.
Proof. intros p q H. by rewrite !first_text, H. Qed.
#[export] Instance letter_proper : Proper (same_text ==> eq) letter.
Proof. intros p q H. unfold letter. by rewrite H. Qed.
#[export] Instance nocase_proper : Proper (same_text ==> same_text ==> eq) nocase.
Proof. intros p q H p' q' H'. unfold nocase. by rewrite H, H'. Qed.
#[export] Instance named_proper : Proper (same_text ==> eq ==> eq) named.
Proof. intros p q H ? n ->. unfold named. by rewrite H. Qed.
#[export] Instance is_data_proper : Proper (same_text ==> eq) is_data.
Proof. intros p q H. unfold is_data. by rewrite H. Qed.
#[export] Instance is_closing_proper : Proper (same_text ==> eq) is_closing.
Proof. intros p q H. unfold is_closing. by rewrite H. Qed.
Ltac tag_proper f :=
  let p := fresh in let q := fresh in let H := fresh in intros p q H; unfold f;
  rewrite (letter_proper p q H), !(λ n, named_proper p q H n n eq_refl); reflexivity.
#[export] Instance isa_known_tag_proper : Proper (same_text ==> eq) isa_known_tag.
Proof. tag_proper isa_known_tag. Qed.
#[export] Instance isa_sectional_item_proper : Proper (same_text ==> eq) isa_sectional_item.
Proof. tag_proper isa_sectional_item. Qed.
#[export] Instance isa_singleton_proper : Proper (same_text ==> eq) isa_singleton.
Proof. tag_proper isa_singleton. Qed.

Lemma same_next p q : same p q → same_text (next p) (next q).
Proof. intros [H Hp]. unfold same_text. rewrite !next_text by (done || by rewrite <-H). by rewrite H. Qed.

#[export] Instance kind_of_proper : Proper (same ==> eq) kind_of.
Proof. intros p q H. pose proof (same_next p q H) as Hn. destruct H as [H _]. unfold kind_of.
  by rewrite (is_data_proper p q H), (is_closing_proper p q H), (isa_sectional_item_proper p q H), (isa_sectional_item_proper _ _ Hn). Qed.

(** ** Lists of items *)

Lemma remove_empty_cons t t2 r : remove_empty_items (t :: t2 :: r) =
  if is_data t || is_closing t || is_data t2 then t :: remove_empty_items (t2 :: r)
  else if nocase t (next t2) then remove_empty_items r else t :: remove_empty_items (t2 :: r).
Proof. done. Qed.

Section lists.
Context (items texts : list ptr).

(** What an item decides by itself. *)
Ltac one H :=
  let Hn := fresh "Hn" in pose proof (same_next _ _ H) as Hn;
  let Ht := fresh "Ht" in pose proof (proj1 H) as Ht;
  rewrite ?(is_data_proper _ _ Ht), ?(is_closing_proper _ _ Ht), ?(isa_sectional_item_proper _ _ Ht), ?(isa_known_tag_proper _ _ Ht),
    ?(isa_known_tag_proper _ _ Hn), ?(letter_proper _ _ Ht), ?(first_proper _ _ Hn), ?(λ n, named_proper _ _ Ht n n eq_refl),
    ?(λ n, named_proper _ _ Hn n n eq_refl).

Lemma remove_empty_same : Forall2 same items texts → Forall2 same (remove_empty_items items) (remove_empty_items texts).
Proof.
  remember (length items) as n eqn:En. assert (length items ≤ n)%nat as Hn by lia. clear En. revert items texts Hn.
  induction n as [|n IH]; intros l k Hn H; [destruct H; cbn in Hn; [constructor|lia]|].
  destruct H as [|p q l k Hp H]; [constructor|]. destruct H as [|p2 q2 l k Hp2 H]; [cbn; by repeat first [done|constructor]|]. rewrite !remove_empty_cons. cbn [length] in *.
  one Hp. one Hp2. rewrite (nocase_proper _ _ Ht _ _ Hn1).
  assert (Forall2 same (p2 :: l) (q2 :: k)) as H2 by (by constructor).
  destruct (is_data q || is_closing q || is_data q2); [constructor; [done|apply IH; [cbn; lia|done]]|].
  destruct (nocase q (next q2)); [apply IH; [lia|done]|constructor; [done|apply IH; [cbn; lia|done]]].
Qed.

Lemma known_same : Forall2 same items texts → forallb known_item items = forallb known_item texts.
Proof.
  induction 1 as [|p q l k Hp _ IH]; [done|]. cbn. rewrite IH. f_equal. unfold known_item. one Hp.
  destruct (is_closing q); one Hp; done.
Qed.

Lemma count_tags_same o c : Forall2 same items texts → count_tags items o c = count_tags texts o c.
Proof.
  intros H. revert o c. induction H as [|p q l k Hp H IH]; intros o c; [done|]. cbn [count_tags]. one Hp.
  destruct (if is_closing q then _ else _) as [o' c'].
  destruct (isa_sectional_item q || is_data q || is_closing q); [apply IH|].
  destruct H as [|d d' l k Hd H]; [done|]. destruct H as [|e e' l k He H]; [done|]. one Hd. one He. by rewrite IH.
Qed.

Lemma data_of_same tag : Forall2 same items texts →
  match data_of tag items, data_of tag texts with
  | Some a, Some b => Forall2 same_text a b
  | None, None => True
  | _, _ => False
  end.
Proof.
  induction 1 as [|p q l k Hp H IH]; [constructor|]. cbn [data_of]. one Hp. destruct (named q tag); [|done].
  destruct H as [|d d' l k Hd H]; [done|]. destruct (data_of tag (d :: l)), (data_of tag (d' :: k)); try done.
  constructor; [by apply same_next|done].
Qed.

Lemma forallb_same f (a b : list ptr) : (∀ p q, same_text p q → f p = f q) → Forall2 same_text a b → forallb f a = forallb f b.
Proof. intros Hf. induction 1 as [|p q a b Hp _ IH]; [done|]. cbn. by rewrite IH, (Hf p q). Qed.

Lemma count_same (f : ptr → bool) (a b : list ptr) : (∀ p q, same_text p q → f p = f q) → Forall2 same_text a b → count f a = count f b.
Proof.
  intros Hf. unfold count. induction 1 as [|p q a b Hp _ IH]; [done|]. rewrite !filter_cons.
  destruct (decide (f p = true)) as [E|E]; rewrite (Hf p q Hp) in E.
  - rewrite decide_True by done. cbn. by rewrite IH.
  - rewrite decide_False by done. done.
Qed.

Lemma port_same p q : same_text p q → port_ok p = port_ok q.
Proof. unfold port_ok. by intros ->. Qed.

Lemma validity_same : Forall2 same items texts → check_validity_of_the_inputs items = check_validity_of_the_inputs texts.
Proof.
  intros H. unfold check_validity_of_the_inputs. rewrite known_same, count_tags_same by done.
  assert (∀ n p q, same_text p q → named p n = named q n) as Hn by (intros; by apply named_proper).
  assert (bool_decide (items = []) = bool_decide (texts = [])) as -> by (by destruct H).
  assert (check_roles items = check_roles texts) as ->.
  { unfold check_roles. pose proof (data_of_same "role" H) as Hd. destruct (data_of "role" items), (data_of "role" texts); try done.
    rewrite (forallb_same _ _ _ (λ p q Hp, f_equal2 orb (Hn "RECORD" p q Hp) (Hn "MOD" p q Hp)) Hd). by rewrite (count_same _ _ _ (Hn "RECORD") Hd). }
  assert (check_types items = check_types texts) as ->.
  { unfold check_types. pose proof (data_of_same "type" H) as Hd. destruct (data_of "type" items), (data_of "type" texts); try done.
    by rewrite (count_same _ _ _ (Hn "inter") Hd), (count_same _ _ _ (Hn "node") Hd). }
  assert (check_aggregator items = check_aggregator texts) as ->.
  { unfold check_aggregator. pose proof (data_of_same "aggregator" H) as Hd. destruct (data_of "aggregator" items), (data_of "aggregator" texts); try done.
    destruct Hd as [|p q a b Hp]; [done|]. by rewrite (letter_proper _ _ Hp). }
  assert (check_all_port_fields items = check_all_port_fields texts) as ->; [|done].
  unfold check_all_port_fields. pose proof (data_of_same "port" H) as Hd. destruct (data_of "port" items), (data_of "port" texts); try done.
  by rewrite (forallb_same _ _ _ port_same Hd).
Qed.

Lemma find_begin_same w i beg : Forall2 same items texts → find_begin w items i beg = find_begin w texts i beg.
Proof.
  intros H. revert i beg. induction H as [|p q l k Hp H IH]; intros i beg; [done|]. cbn [find_begin]. one Hp.
  destruct beg as [b|]; [|apply IH]. destruct (is_closing q || is_data q); [apply IH|].
  destruct (named q "role").
  - destruct H as [|d d' l k Hd H]; [done|]. one Hd. by rewrite !IH.
  - destruct (named q "version" || named q "creation"); [apply IH|done].
Qed.

Lemma find_end_same i : Forall2 same items texts → find_end items i = find_end texts i.
Proof. intros H. revert i. induction H as [|p q l k Hp H IH]; intros i; [done|]. cbn [find_end]. one Hp. by rewrite IH. Qed.

Lemma walk_same {T} (f : ptr → nat → T → R T) i s : (∀ p q i s, same p q → f p i s = f q i s) → Forall2 same items texts →
  walk f items i s = walk f texts i s.
Proof.
  intros Hf H. revert i s. induction H as [|p q l k Hp H IH]; intros i s; [done|]. cbn [walk]. rewrite (Hf p q i s Hp).
  destruct (f q i s) as [[|s']|]; [done| |done]. apply IH.
Qed.

Lemma count_kind_same f : (∀ p q, same p q → f p = f q) → Forall2 same items texts → count f items = count f texts.
Proof.
  intros Hf. unfold count. induction 1 as [|p q a b Hp _ IH]; [done|]. rewrite !filter_cons.
  destruct (decide (f p = true)) as [E|E]; rewrite (Hf p q Hp) in E.
  - rewrite decide_True by done. cbn. by rewrite IH.
  - rewrite decide_False by done. done.
Qed.

End lists.

Section indexed.
Context (items texts : list ptr) (H : Forall2 same items texts).

Lemma find_beginend_same start w : find_beginend_configuration start items w = find_beginend_configuration start texts w.
Proof.
  unfold find_beginend_configuration. rewrite (Forall2_length _ _ _ H), (find_begin_same _ (drop start texts)) by (by apply Forall2_drop).
  destruct (bool_decide _); [done|]. destruct (find_begin _ _ _ _) as [[|[b|]]|]; try done. cbn [bindR].
  by rewrite (find_end_same _ (drop b texts)) by (by apply Forall2_drop).
Qed.

Lemma structure_same b e : structure_lexed_items b e items = structure_lexed_items b e texts.
Proof.
  unfold structure_lexed_items. rewrite (Forall2_length _ _ _ H).
  set (P := take (e - b) (drop b items)). set (Q := take (e - b) (drop b texts)).
  assert (Forall2 same P Q) as HPQ by (by apply Forall2_take, Forall2_drop).
  assert (∀ p q, same p q → is_start p = is_start q) as H1 by (intros p q Hp; unfold is_start; by rewrite (kind_of_proper p q Hp)).
  assert (∀ p q, same p q → is_end p = is_end q) as H2 by (intros p q Hp; unfold is_end; by rewrite (kind_of_proper p q Hp)).
  rewrite (count_kind_same P Q is_start H1 HPQ), (count_kind_same P Q is_end H2 HPQ).
  destruct (bool_decide _); [done|]. destruct (_ || _ || _); [done|].
  assert (∀ i s, walk scan_item P i s = walk scan_item Q i s) as W1.
  { intros i s. apply walk_same; [|done]. intros p q i' [] Hp. unfold scan_item. by rewrite (kind_of_proper p q Hp). }
  assert (∀ i s, walk fill_item P i s = walk fill_item Q i s) as W2.
  { intros i s. apply walk_same; [|done]. intros p q i' [] Hp. unfold fill_item. by rewrite (kind_of_proper p q Hp). }
  clearbody P Q. destruct HPQ as [|p q P Q Hp _]; [done|]. rewrite (isa_sectional_item_proper _ _ (proj1 Hp)).
  destruct (negb _); [done|]. destruct (_ || _); [done|]. rewrite W1.
  destruct (walk scan_item _ _ _) as [[|s]|]; [done| |done]. cbn [bindR]. destruct (bool_decide _); [done|].
  destruct (each_child _ _ _ _) as [[|l]|]; [done| |done]. cbn [bindR]. by rewrite W2.
Qed.

(** An item by its index. *)
Lemma item_at_same {A} z (f g : ptr → R A) : (∀ p q, same p q → f p = g q) → bindR (item_at items z) f = bindR (item_at texts z) g.
Proof.
  intros Hf. unfold item_at, zget. destruct (z <? 0); [done|]. pose proof (Forall2_lookup_lr same items texts (Z.to_nat z)) as Hl.
  destruct (items !! Z.to_nat z) as [p|] eqn:E1, (texts !! Z.to_nat z) as [q|] eqn:E2; cbn; [|exfalso..|done].
  - apply Hf. by eapply Hl.
  - apply lookup_lt_Some in E1. apply lookup_ge_None in E2. rewrite (Forall2_length _ _ _ H) in E1. lia.
  - apply lookup_lt_Some in E2. apply lookup_ge_None in E1. rewrite (Forall2_length _ _ _ H) in E1. lia.
Qed.

Lemma data_at_same uu : data_at items uu = data_at texts uu.
Proof. apply item_at_same. intros p q Hp. by rewrite (same_next p q Hp). Qed.

Lemma section_tag_same {A} hierarchy u (f g : ptr → R A) : (∀ p q, same p q → f p = g q) →
  bindR (section_tag items hierarchy u) f = bindR (section_tag texts hierarchy u) g.
Proof.
  intros Hf. unfold section_tag. destruct (zget hierarchy (- u)) as [row|]; [|done]. cbn [opt bindR ret].
  destruct (head row) as [z|]; [|done]. cbn [opt bindR ret]. by apply item_at_same.
Qed.

Lemma check_row_same hierarchy row : check_row items hierarchy row = check_row texts hierarchy row.
Proof.
  assert (∀ later p q, same p q → no_equal_section items hierarchy p later = no_equal_section texts hierarchy q later) as H1.
  { induction later as [|v later IH]; intros p q Hp; cbn; [done|]. destruct (0 <=? v); [done|]. apply section_tag_same.
    intros p2 q2 Hp2. rewrite (nocase_proper p q (proj1 Hp) p2 q2 (proj1 Hp2)). by rewrite (IH p q). }
  assert (∀ later p q, same p q → no_equal_field items p later = no_equal_field texts q later) as H2.
  { induction later as [|v later IH]; intros p q Hp; cbn; [done|]. destruct (v <? 0); [done|]. apply item_at_same.
    intros p2 q2 Hp2. rewrite (nocase_proper p q (proj1 Hp) p2 q2 (proj1 Hp2)). by rewrite (IH p q). }
  induction row as [|u row IH]; cbn [check_row]; [done|]. rewrite IH. f_equal. destruct (u <? 0).
  - apply section_tag_same. intros p q Hp. by rewrite (isa_singleton_proper p q (proj1 Hp)), (H1 row p q Hp).
  - apply item_at_same. intros p q Hp. by rewrite (isa_singleton_proper p q (proj1 Hp)), (H2 row p q Hp).
Qed.

Lemma all_rows_same f g rows : (∀ row, f row = g row) → all_rows f rows = all_rows g rows.
Proof. intros Hf. induction rows as [|row rows IH]; [done|]. cbn. by rewrite IH, Hf. Qed.

Lemma duplicates_same hierarchy : remove_duplicate_singletons items hierarchy = remove_duplicate_singletons texts hierarchy.
Proof.
  apply all_rows_same. intros row. destruct (head row) as [z|]; [|done]. cbn [opt bindR ret]. apply item_at_same. intros; apply check_row_same.
Qed.

Lemma junctions_same hierarchy : check_junctions_have_names items hierarchy = check_junctions_have_names texts hierarchy.
Proof.
  apply all_rows_same. intros row. unfold junction_has_name. destruct (head row) as [z|]; [|done]. cbn [opt bindR ret].
  destruct (z <? 0); [done|]. apply item_at_same. intros p q Hp. rewrite (named_proper _ _ (proj1 Hp) _ _ eq_refl).
  destruct (named q "junction"); [|done].
  assert (bindR (name_field items row) (λ n, match n with Some _ => ret () | None => fail ORCM_ERR_BAD_PARAM end) =
    bindR (name_field texts row) (λ n, match n with Some _ => ret () | None => fail ORCM_ERR_BAD_PARAM end)) as E; [|done].
  clear Hp. induction row as [|u row IH]; cbn [name_field]; [done|]. destruct (u <? 0); [apply IH|].
  rewrite !bind_assoc. apply item_at_same. intros p' q' Hp. rewrite (named_proper _ _ (proj1 Hp) _ _ eq_refl).
  destruct (named q' "name"); [|apply IH]. rewrite !bind_assoc. by apply item_at_same.
Qed.

Lemma each_field_same {T} (f g : ptr → Z → T → R T) row s : (∀ p q uu s, same p q → f p uu s = g q uu s) →
  each_field f items row s = each_field g texts row s.
Proof.
  intros Hf. revert s. induction row as [|uu row IH]; intros s; cbn [each_field]; [done|]. destruct (uu <? 0); [apply IH|].
  apply item_at_same. intros p q Hp. rewrite (Hf p q uu s Hp). destruct (g q uu s) as [[|s']|]; [done| |done]. apply IH.
Qed.


Lemma mca_same row x h : transfer_mca items row x h = transfer_mca texts row x h.
Proof.
  unfold transfer_mca, mca_length.
  rewrite (each_field_same _ (λ t uu n, if named t "mca-params" then let* d := data_at texts uu in ret (n + length d + 1)%nat else ret n)).
  2:{ intros p q uu n Hp. by rewrite (named_proper _ _ (proj1 Hp) _ _ eq_refl), data_at_same. }
  destruct (each_field _ texts row 0%nat) as [[|n]|]; [done| |done]. cbn [bindR]. destruct (bool_decide _); [done|]. f_equal.
  generalize (@nil ascii) as txt, n as size. induction row as [|uu row IH]; intros txt size; cbn [mca_text]; [done|].
  destruct (uu <? 0); [apply IH|]. apply item_at_same. intros p q Hp. rewrite (named_proper _ _ (proj1 Hp) _ _ eq_refl), data_at_same.
  destruct (named q "mca-params"); [|apply IH]. destruct (data_at texts uu) as [[|d]|]; [done| |done]. cbn [bindR].
  destruct (bool_decide _); [apply IH|done].
Qed.

Ltac field_same := apply each_field_same; let p := fresh in let q := fresh in let Hp := fresh in intros p q ? ? Hp;
  rewrite ?(λ n, named_proper p q (proj1 Hp) n n eq_refl), ?data_at_same, ?(proj1 Hp : c_text p = c_text q); reflexivity.

Lemma bind_cong {A B} (m m' : R A) (k k' : A → R B) : m = m' → (∀ a, k a = k' a) → bindR m k = bindR m' k'.
Proof. intros -> Hk. destruct m' as [[|a]|]; [done| |done]. apply Hk. Qed.

Lemma controller_same row h x : transfer_to_controller items row h x = transfer_to_controller texts row h x.
Proof.
  unfold transfer_to_controller. destruct (new_child h x) as [y h']. apply bind_cong; [done|]. intros _.
  apply bind_cong; [field_same|]. intros h1. apply bind_cong; [apply mca_same|]. intros h2. field_same.
Qed.

Lemma scheduler_same row h x : transfer_to_scheduler items row h x = transfer_to_scheduler texts row h x.
Proof.
  unfold transfer_to_scheduler. destruct (new_child h x) as [y h']. apply bind_cong; [done|]. intros _.
  apply bind_cong; [field_same|]. intros n. apply bind_cong; [destruct (bool_decide _); [done|]; destruct (new_child _ _); field_same|].
  intros h1. apply bind_cong; [apply mca_same|]. intros h2. apply bind_cong; [field_same|]. intros h3. field_same.
Qed.

Lemma junction_same size parent x row h st : junction_row items size parent x row h st = junction_row texts size parent x row h st.
Proof.
  revert h st. induction row as [|uu row IH]; intros h st; cbn [junction_row]; [done|]. destruct (uu <? 0).
  - apply bind_cong; [done|]. intros st'. apply IH.
  - apply item_at_same. intros p q Hp. rewrite !(λ n, named_proper p q (proj1 Hp) n n eq_refl), data_at_same.
    destruct (named q "type"); [apply bind_cong; [done|]; intros; apply IH|].
    destruct (named q "name"); [apply bind_cong; [done|]; intros; apply IH|apply IH].
Qed.

Lemma visit_same hierarchy size i parent h st : visit items hierarchy size i parent h st = visit texts hierarchy size i parent h st.
Proof.
  unfold visit. apply bind_cong; [done|]. intros row. apply bind_cong; [done|]. intros u. destruct (u <? 0); [done|].
  apply item_at_same. intros p q Hp. rewrite (letter_proper _ _ (proj1 Hp)), !(λ n, named_proper p q (proj1 Hp) n n eq_refl).
  rewrite controller_same, scheduler_same. destruct (new_child h parent) as [x h']. by rewrite junction_same.
Qed.

Lemma visit_all_same fuel hierarchy size h st : visit_all fuel items hierarchy size h st = visit_all fuel texts hierarchy size h st.
Proof.
  revert h st. induction fuel as [|fuel IH]; intros h [|[i parent] st]; try done. cbn [visit_all].
  apply bind_cong; [apply visit_same|]. intros [h' st']. apply IH.
Qed.


End indexed.

End XmlSame.

(** * Elements as objects

    [objs] lays an element out as the objects parse_config makes for it: the element, then
    those of its subordinate elements one after the other.  [element] reads it back. *)

Module XmlObjects.
Import Argv CfgiFile30 XmlLex XmlParse.

Lemma xml_induction (P : xml_t → Prop) : (∀ n v s, Forall P s → P (mk_xml n v s)) → ∀ x, P x.
Proof. intros H. fix IH 1. intros [n v s]. apply H. induction s; constructor; [apply IH|done]. Qed.

Fixpoint xsize (x : xml_t) : nat := let '(mk_xml _ _ s) := x in S (sum_list_with xsize s).
Abbreviation xsizes := (sum_list_with xsize).

(** [f] at each element of a list, with the number of its first object. *)
Definition spread {A} (f : xml_t → nat → list A) : list xml_t → nat → list A :=
  fix go l b := match l with
                | [] => []
                | x :: l => f x b ++ go l (b + xsize x)%nat
                end.
Definition base (_ : xml_t) (b : nat) : list nat := [b].

Fixpoint objs (x : xml_t) (b : nat) : heap :=
  let '(mk_xml n v s) := x in mk_object (Some n) v (spread base s (S b)) :: spread objs s (S b).

Lemma spread_app {A} (f : xml_t → nat → list A) l k b : spread f (l ++ k) b = spread f l b ++ spread f k (b + xsizes l).
Proof.
  revert b. induction l as [|x l IH]; intros b; cbn; [by rewrite Nat.add_0_r|]. by rewrite IH, <-app_assoc, Nat.add_assoc.
Qed.

Lemma length_objs x b : length (objs x b) = xsize x.
Proof.
  revert b. induction x as [n v s IH] using xml_induction. intros b. cbn. f_equal. generalize (S b). induction IH as [|x s Hx _ IHs]; intros b'; [done|].
  cbn. by rewrite length_app, Hx, IHs.
Qed.

Lemma length_spread l b : length (spread objs l b) = xsizes l.
Proof. revert b. induction l as [|x l IH]; intros b; [done|]. cbn. by rewrite length_app, length_objs, IH. Qed.

(** ** Changing the last element *)

Lemma on_here pre o r f : on (pre ++ o :: r) (length pre) f = pre ++ f o :: r.
Proof. unfold on. by rewrite alter_app_r_alt, Nat.sub_diag by lia. Qed.

Lemma on_length h x f : length (on h x f) = length h.
Proof. apply length_alter. Qed.

Lemma on_app_l a b x f : (x < length a)%nat → on (a ++ b) x f = on a x f ++ b.
Proof. intros H. by apply alter_app_l. Qed.

Lemma objs_value pre n v s d :
  on (pre ++ objs (mk_xml n v s) (length pre)) (length pre) (add_value d) = pre ++ objs (mk_xml n (append v d) s) (length pre).
Proof. cbn [objs]. by rewrite on_here. Qed.

Lemma objs_name pre n n' v s :
  on (pre ++ objs (mk_xml n v s) (length pre)) (length pre) (set_name n') = pre ++ objs (mk_xml n' v s) (length pre).
Proof. cbn [objs]. by rewrite on_here. Qed.

Lemma objs_child pre n v s y :
  let h := pre ++ objs (mk_xml n v s) (length pre) in
  on h (length pre) (add_child (length h)) ++ objs y (length h) = pre ++ objs (mk_xml n v (s ++ [y])) (length pre).
Proof.
  intros h. assert (length h = S (length pre) + xsizes s)%nat as Hl.
  { subst h. cbn [objs]. rewrite length_app. cbn. rewrite length_spread. lia. }
  rewrite Hl. subst h. cbn [objs]. rewrite on_here, <-app_assoc. cbn [app]. unfold add_child. cbn [o_name o_value o_subvals].
  rewrite !spread_app. cbn [spread base app]. by rewrite !app_nil_r.
Qed.

Lemma new_elem_objs h x name d : (x < length h)%nat →
  new_elem h x name d = on h x (add_child (length h)) ++ objs (mk_xml name (Some [d]) []) (length h).
Proof.
  intros Hx. unfold new_elem, new_child. rewrite on_app_l by done. 
  pose proof (on_length h x (add_child (length h))) as E. revert E. generalize (on h x (add_child (length h))) as h'.
  intros h' <-. by rewrite !on_here.
Qed.

(** ** Reading it back *)

Lemma element_objs x pre post fuel : (xsize x ≤ fuel)%nat → element fuel (pre ++ objs x (length pre) ++ post) (length pre) = Some x.
Proof.
  revert pre post fuel. induction x as [n v s IH] using xml_induction. intros pre post fuel Hf. cbn [xsize] in Hf. destruct fuel as [|fuel]; [lia|].
  cbn [element objs]. rewrite lookup_app_r, Nat.sub_diag by lia. cbn [app lookup list_lookup].
  set (o := mk_object (Some n) v (spread base s (S (length pre)))).
  assert (mapM (element fuel (pre ++ o :: spread objs s (S (length pre)) ++ post)) (spread base s (S (length pre))) = Some s) as ->; [|done].
  replace (pre ++ o :: spread objs s (S (length pre)) ++ post) with ((pre ++ [o]) ++ spread objs s (S (length pre)) ++ post)
    by (by rewrite <-app_assoc).
  replace (S (length pre)) with (length (pre ++ [o])) by (rewrite length_app; cbn; lia). generalize (pre ++ [o]) as a. clear pre o.
  assert (xsizes s ≤ fuel)%nat as Hs by lia. clear Hf. induction IH as [|x s Hx _ IHs]; intros a; [done|]. cbn [sum_list_with] in Hs.
  cbn [spread base app mapM]. rewrite <-app_assoc, Hx by lia. cbn. specialize (IHs ltac:(lia) (a ++ objs x (length a))).
  rewrite length_app, length_objs, <-app_assoc in IHs. by rewrite IHs.
Qed.

End XmlObjects.
