(* ===== verification/XmlSpec.v ===== *)
(** * What a document stands for

    [xml_of] is the element of a section by recursion.  The sections of a junction come out
    in the reverse of their order in the file, because parse_config takes them from a stack.
    The lemmas say that the transfer functions and the stack of parse_config make the
    objects of that element. *)

From Stdlib Require Import ZArith Lia Ascii.
From stdpp Require Import prelude numbers strings gmap list.
From S2P Require Import Prelude CString Argv CfgiFile30 XmlLex XmlDoc XmlItems XmlStruct XmlRows XmlParse XmlSame.

Local Open Scope Z_scope.

Module XmlSpec.
Import Argv CfgiFile30 XmlLex XmlDoc XmlItems XmlStruct XmlRows XmlParse XmlObjects.

(** ** Fields and elements *)

(** The fields of a body that [sel] chooses. *)
Definition chosen {A} (sel : cstring → cstring → option A) (b : list content) : list A :=
  flat_map (λ c, match c with Field t d => match sel t d with Some a => [a] | None => [] end | Sect _ _ => [] end) b.

Definition datas (tag : string) : list content → list cstring := chosen (λ t d, if named t tag then Some d else None).
Definition argv_of (l : list cstring) : argv_t := match l with [] => None | _ => Some l end.
Definition leaf (e : cstring * cstring) : xml_t := mk_xml e.1 (Some [e.2]) [].

Definition is_attr (t : cstring) : bool :=
  named t "port" || named t "cores" || named t "log" || named t "envar" || named t "aggregator".
Definition controller_xml (b : list content) : xml_t :=
  mk_xml (lit "controller") (argv_of (datas "host" b))
    (leaf <$> chosen (λ t d, if is_attr t then Some (t, d) else None) b).

Definition queue_elems (b : list content) : list xml_t :=
  match datas "queues" b with [] => [] | ds => [mk_xml (lit "queues") (Some ds) []] end.
Definition scheduler_xml (b : list content) : xml_t :=
  mk_xml (lit "scheduler") None
    (queue_elems b ++
     (leaf <$> chosen (λ t d, if named t "shost" then Some (lit "node", d) else None) b) ++
     (leaf <$> chosen (λ t d, if named t "port" then Some (t, d) else None) b)).

Definition the_data (tag : string) (b : list content) : cstring := default [] (head (datas tag b)).

Fixpoint xml_of (c : content) : xml_t :=
  match c with
  | Field t d => leaf (t, d)
  | Sect t b =>
      if named t "controller" then controller_xml b
      else if named t "scheduler" then scheduler_xml b
      else mk_xml (the_data "type" b) (argv_of (datas "name" b))
             (reverse (flat_map (λ c, match c with Field _ _ => [] | Sect _ _ => [xml_of c] end) b))
  end.

(** ** Looking items up by their index *)

(** [its] is in the list from index [o] on. *)
Definition at_offset {A} (l : list A) (o : nat) (its : list A) : Prop := ∃ pre post, l = pre ++ its ++ post ∧ length pre = o.

Lemma at_app {A} (l : list A) o a b : at_offset l o (a ++ b) → at_offset l o a ∧ at_offset l (o + length a) b.
Proof.
  intros (pre & post & E & <-). split; [exists pre, (b ++ post)|exists (pre ++ a), post]; (split; [by rewrite E, <-?app_assoc, <-?app_assoc|]); [done|].
  by rewrite length_app.
Qed.

Section texts.
Context (texts : list ptr).

Lemma at_cons o t r : at_offset texts o (t :: r) → item_at texts (Z.of_nat o) = ret t ∧ at_offset texts (S o) r.
Proof.
  intros H. split.
  - destruct H as (pre & post & E & <-). unfold item_at. by rewrite E, zget_nat, lookup_app_r, Nat.sub_diag by lia.
  - rewrite <-Nat.add_1_r. by apply (at_app texts o [t] r).
Qed.

Lemma at_field o t d : at_offset texts o (items (Field t d)) → one_line d →
  item_at texts (Z.of_nat o) = ret t ∧ data_at texts (Z.of_nat o) = ret d.
Proof.
  intros Hat Hd. cbn [items] in Hat. apply at_cons in Hat as [Ht Hat]. split; [done|]. apply at_cons in Hat as [Hd' _].
  unfold data_at. replace (Z.of_nat o + 1) with (Z.of_nat (S o)) by lia. rewrite Hd'. cbn. unfold ret. do 2 f_equal.
  unfold c_text. rewrite cut_none; [done|]. eapply Forall_impl; [done|]. by intros c [_ ?].
Qed.

Definition clean (b : list content) : Prop := Forall one_line (items_of_list b).

Lemma clean_cons c b : clean (c :: b) → Forall one_line (items c) ∧ clean b.
Proof. apply Forall_app. Qed.

Lemma clean_field t d : Forall one_line (items (Field t d)) → one_line t ∧ one_line d.
Proof. cbn. rewrite !Forall_cons. intros (H1 & H2 & _). split; [done|]. by apply Forall_cons in H2 as [_ H2]. Qed.

Lemma offs_nonneg o : (Z.of_nat o <? 0) = false.
Proof. zbool; [lia|done]. Qed.

(** A loop over the fields of a section. *)
Definition fold_fields {T} (g : cstring → cstring → T → T) (b : list content) (s : T) : T :=
  fold_left (λ s c, match c with Field t d => g t d s | Sect _ _ => s end) b s.

Lemma each_field_fold {T} (f : ptr → Z → T → R T) (g : cstring → cstring → T → T) b o m s :
  at_offset texts o (items_of_list b) → clean b →
  (∀ t d uu s, Field t d ∈ b → data_at texts uu = ret d → f t uu s = ret (g t d s)) →
  each_field f texts (over field_offs b o m) s = ret (fold_fields g b s).
Proof.
  revert o m s. induction b as [|c b IH]; intros o m s Hat Hcl Hf; [done|]. cbn [flat_map] in Hat. apply at_app in Hat as [Hc Hb].
  apply clean_cons in Hcl as [Hcc Hcb]. rewrite over_cons. destruct c as [t d|t b']; cbn [field_offs app].
  - destruct (at_field o t d Hc) as [Ht Hd]; [by apply clean_field in Hcc as [_ ?]|].
    cbn [each_field]. rewrite offs_nonneg, Ht, bind_ret, (Hf t d) by (done || by left). rewrite bind_ret. cbn [fold_fields fold_left].
    apply IH; [done|done|]. intros t' d' uu s' Hin. apply Hf. by right.
  - cbn [fold_fields fold_left]. apply IH; [done|done|]. intros t' d' uu s' Hin. apply Hf. by right.
Qed.

End texts.

(** ** The transfer functions *)

Lemma tolower_same s : tolower_cstr s = s.
Proof.
  unfold tolower_cstr. induction s as [|c s IH]; [done|]. cbn [fmap list_fmap]. rewrite IH. f_equal. unfold lower_char.
  destruct (code c <=? 65) eqn:E1, (90 <=? code c) eqn:E2; try done. apply Z.leb_le in E1, E2. lia.
Qed.

Lemma one_line_text s : one_line s → c_text s = s.
Proof. intros H. unfold c_text. rewrite cut_none; [done|]. eapply Forall_impl; [done|]. by intros c [_ ?]. Qed.

Lemma append_argv l v : foldl append (argv_of l) v = argv_of (l ++ v).
Proof.
  revert l. induction v as [|d v IH]; intros l; cbn [foldl]; [by rewrite app_nil_r|].
  replace (append (argv_of l) d) with (argv_of (l ++ [d])); [by rewrite IH, <-app_assoc|].
  rewrite append_eq. destruct l; done.
Qed.

Section folds.
Context (pre : heap) (n : cstring).
Local Abbreviation heap_of v s := (pre ++ objs (mk_xml n v s) (length pre)).

Lemma fold_values tag b v s :
  fold_fields (λ t d h, if named t tag then on h (length pre) (add_value d) else h) b (heap_of v s) =
  heap_of (foldl append v (datas tag b)) s.
Proof.
  revert v. induction b as [|[t d|t b'] b IH]; intros v; [done| |].
  - change (fold_fields ?f (Field t d :: b) ?h) with (fold_fields f b (f t d h)). cbv beta. unfold datas, chosen in *. cbn [flat_map].
    destruct (named t tag); [|apply IH]. rewrite objs_value. cbn [app foldl]. apply IH.
  - apply IH.
Qed.

Lemma fold_elems (sel : cstring → cstring → option (cstring * cstring)) b v s :
  fold_fields (λ t d h, match sel t d with Some e => new_elem h (length pre) e.1 e.2 | None => h end) b (heap_of v s) =
  heap_of v (s ++ (leaf <$> chosen sel b)).
Proof.
  revert s. induction b as [|[t d|t b'] b IH]; intros s; [by rewrite app_nil_r| |].
  - change (fold_fields ?f (Field t d :: b) ?h) with (fold_fields f b (f t d h)). cbv beta. unfold chosen in *. cbn [flat_map].
    destruct (sel t d) as [[n' d']|]; [|apply IH]. cbn [fst snd].
    rewrite new_elem_objs by (rewrite length_app, length_objs; cbn; lia).
    change (mk_xml n' (Some [d']) []) with (leaf (n', d')). rewrite objs_child, IH. cbn. by rewrite <-app_assoc.
  - apply IH.
Qed.

End folds.

Section transfers.
Context (texts : list ptr).

Definition is_field (c : content) : bool := match c with Field _ _ => true | Sect _ _ => false end.

Lemma mca_length_spec b o m : at_offset texts o (items_of_list b) → clean b →
  mca_length texts (over field_offs b o m) = ret (sum_list_with (λ d, S (length d)) (datas "mca-params" b)).
Proof.
  intros Hat Hcl. unfold mca_length.
  rewrite (each_field_fold texts _ (λ t d n, if named t "mca-params" then (n + length d + 1)%nat else n)); [|done|done|].
  2:{ intros t d uu s Hin Hd. destruct (named t "mca-params"); [|done]. by rewrite Hd. }
  assert (∀ k, fold_fields (λ t d n, if named t "mca-params" then (n + length d + 1)%nat else n) b k =
    (k + sum_list_with (λ d, S (length d)) (datas "mca-params" b))%nat) as E; [|by rewrite E].
  clear. unfold datas, chosen, fold_fields. induction b as [|[t d|t b'] b IH]; intros k; cbn; [lia| |apply IH].
  rewrite IH. destruct (named t "mca-params"); cbn; lia.
Qed.

(** Without parameters there is nothing to transfer. *)
Lemma transfer_mca_none b o m x h : at_offset texts o (items_of_list b) → clean b → datas "mca-params" b = [] →
  transfer_mca texts (over field_offs b o m) x h = ret h.
Proof. intros Hat Hcl Hd. unfold transfer_mca. by rewrite mca_length_spec, bind_ret, Hd by done. Qed.

Lemma no_children b o m : forallb is_field b = true → over child_rows b o m = [].
Proof.
  revert o m. induction b as [|[t d|t b'] b IH]; intros o m H; [done| |done]. rewrite over_cons. by apply IH.
Qed.

Lemma no_sub_level_fields b o m : forallb is_field b = true → no_sub_level (over field_offs b o m) = ret ().
Proof.
  intros H. unfold no_sub_level. assert (existsb (λ uu, uu <? 0) (over field_offs b o m) = false) as ->; [|done].
  clear H. revert o m. induction b as [|[t d|t b'] b IH]; intros o m; [done| |apply IH]. rewrite over_cons. cbn [field_offs app existsb].
  by rewrite offs_nonneg, IH.
Qed.

Lemma new_named h parent name : (parent < length h)%nat →
  let '(x, h') := new_child h parent in
  x = length (on h parent (add_child (length h))) ∧
  on h' x (set_name name) = on h parent (add_child (length h)) ++ objs (mk_xml name None []) x.
Proof.
  intros Hp. unfold new_child. rewrite on_app_l by done. split; [by rewrite on_length|].
  pose proof (on_length h parent (add_child (length h))) as E. revert E. generalize (on h parent (add_child (length h))) as h'.
  intros h' <-. by rewrite on_here.
Qed.

(** The fields a controller and a scheduler may have.  Parameters are not among them: the
    code writes past the end of their block. *)
Definition controller_field (c : content) : bool :=
  match c with Field t _ => named t "host" || is_attr t | Sect _ _ => false end.
Definition scheduler_field (c : content) : bool :=
  match c with Field t _ => negb (named t "mca-params") | Sect _ _ => false end.

Lemma scheduler_fields b : forallb scheduler_field b = true → forallb is_field b = true ∧ datas "mca-params" b = [].
Proof.
  unfold datas, chosen. induction b as [|[t d|t b'] b IH]; cbn; [done| |done].
  intros [Ht Hb]%andb_true_iff. apply negb_true_iff in Ht. rewrite Ht. by apply IH.
Qed.

Lemma named_unique t (a b : string) : named t a = true → nocase (lit a) (lit b) = false → named t b = false.
Proof.
  unfold named, nocase. intros H1%bool_decide_eq_true H2%bool_decide_eq_false. apply bool_decide_eq_false. congruence.
Qed.

Lemma data_of_field b t d : clean b → Field t d ∈ b → one_line t.
Proof.
  intros Hcl Hin. unfold clean in Hcl. rewrite Forall_flat_map in Hcl. rewrite Forall_forall in Hcl. specialize (Hcl _ Hin).
  by apply clean_field in Hcl as [? _].
Qed.

Lemma controller_no_params b : forallb controller_field b = true → forallb scheduler_field b = true.
Proof.
  rewrite !forallb_forall. intros H c Hc. specialize (H c Hc). destruct c as [t d|]; [|done]. cbn in *. unfold is_attr in H.
  repeat (apply orb_true_iff in H as [H|H]); by rewrite (named_unique t _ "mca-params" H).
Qed.

Lemma controller_spec b o i h parent : at_offset texts (S o) (items_of_list b) → clean b → forallb controller_field b = true →
  (parent < length h)%nat →
  transfer_to_controller texts (row_of o i b) h parent =
  ret (on h parent (add_child (length h)) ++ objs (controller_xml b) (length h)).
Proof.
  intros Hat Hcl Hf Hp. assert (forallb is_field b = true) as Hff.
  { apply forallb_forall. intros c Hc. rewrite forallb_forall in Hf. specialize (Hf c Hc). by destruct c. }
  unfold transfer_to_controller, row_of. cbn [tail]. rewrite (no_children b), app_nil_r by done.
  pose proof (new_named h parent (lit "controller") Hp) as Hn. destruct (new_child h parent) as [x h'] eqn:En. destruct Hn as [Hx ->].
  pose proof (on_length h parent (add_child (length h))) as Hl. rewrite Hx. revert Hl. generalize (on h parent (add_child (length h))) as pre. intros pre <-.
  rewrite no_sub_level_fields, bind_ret by done.
  rewrite (each_field_fold texts _ (λ t d h, if named t "host" then on h (length pre) (add_value d) else h)); [|done|done|].
  2:{ intros t d uu s Hin Hd. destruct (named t "host"); [|done]. by rewrite Hd. }
  rewrite bind_ret, fold_values, transfer_mca_none, bind_ret by (done || by apply scheduler_fields, controller_no_params).
  rewrite (each_field_fold texts _ (λ t d h, match (if is_attr t then Some (t, d) else None) with Some e => new_elem h (length pre) e.1 e.2 | None => h end)); [|done|done|].
  - rewrite fold_elems. unfold controller_xml. pose proof (append_argv [] (datas "host" b)) as E. cbn [argv_of app] in E. by rewrite E.
  - intros t d uu s Hin Hd. rewrite forallb_forall in Hf. pose proof (Hf _ (proj1 (list_elem_of_In _ _) Hin)) as Hfc. cbn in Hfc.
    rewrite Hd. fold (is_attr t). pose proof (data_of_field b t d Hcl Hin) as Ht. rewrite bind_ret, tolower_same, one_line_text by done.
    destruct (named t "host") eqn:Eh.
    + assert (is_attr t = false) as ->; [|done]. unfold is_attr. by rewrite !(named_unique t "host") by done.
    + destruct (is_attr t); [done|]. cbn in Hfc. by rewrite Hfc.
Qed.

(** The queues, in one element. *)
Lemma queues_spec {A} b o m pre (k : heap → R A) : at_offset texts o (items_of_list b) → clean b →
  (let row := over field_offs b o m in
   let x := length pre in
   let h := pre ++ objs (mk_xml (lit "scheduler") None []) x in
   let* queues_count := each_field (λ t uu n, ret (if named t "queues" then S n else n)) texts row 0%nat in
   let* h :=
     (if bool_decide (queues_count = 0%nat) then ret h
      else let '(q, h) := new_child h x in
           let h := on h q (set_name (lit "queues")) in
           each_field (λ t uu h, if named t "queues" then let* d := data_at texts uu in ret (on h q (add_value d)) else ret h) texts row h) in
   k h) = k (pre ++ objs (mk_xml (lit "scheduler") None (queue_elems b)) (length pre)).
Proof.
  intros Hat Hcl. cbv zeta.
  rewrite (each_field_fold texts _ (λ t d n, if named t "queues" then S n else n)) by done. rewrite bind_ret.
  assert (∀ c, fold_fields (λ t d n, if named t "queues" then S n else n) b c = (c + length (datas "queues" b))%nat) as ->.
  { clear. unfold datas, chosen, fold_fields. induction b as [|[t d|t b'] b IH]; intros c; cbn; [lia| |apply IH].
    rewrite IH. destruct (named t "queues"); cbn; lia. }
  unfold queue_elems. destruct (datas "queues" b) as [|d ds] eqn:Ed; [done|]. rewrite bool_decide_false by (cbn; lia).
  set (h := pre ++ objs (mk_xml (lit "scheduler") None []) (length pre)).
  assert (length pre < length h)%nat as Hp by (subst h; rewrite length_app, length_objs; cbn; lia).
  pose proof (new_named h (length pre) (lit "queues") Hp) as Hn. destruct (new_child h (length pre)) as [q h'] eqn:En. destruct Hn as [Hx ->].
  pose proof (objs_child pre (lit "scheduler") None [] (mk_xml (lit "queues") (Some (d :: ds)) [])) as Ho. cbv zeta in Ho. fold h in Ho.
  pose proof (on_length h (length pre) (add_child (length h))) as Hl. rewrite <-Hl in Ho at 2. rewrite Hx. cbn [app] in Ho. rewrite <-Ho. clear Ho.
  generalize (on h (length pre) (add_child (length h))) as pre'. intros pre'.
  rewrite (each_field_fold texts _ (λ t d h, if named t "queues" then on h (length pre') (add_value d) else h)); [|done|done|].
  2:{ intros t' d' uu s Hin Hd. destruct (named t' "queues"); [|done]. by rewrite Hd. }
  rewrite bind_ret, fold_values, Ed. pose proof (append_argv [] (d :: ds)) as E. cbn [argv_of app] in E. by rewrite E.
Qed.

Lemma scheduler_spec b o i h parent : at_offset texts (S o) (items_of_list b) → clean b → forallb scheduler_field b = true →
  (parent < length h)%nat →
  transfer_to_scheduler texts (row_of o i b) h parent =
  ret (on h parent (add_child (length h)) ++ objs (scheduler_xml b) (length h)).
Proof.
  intros Hat Hcl [Hff Hmca]%scheduler_fields Hp. unfold transfer_to_scheduler, row_of. cbn [tail]. rewrite (no_children b), app_nil_r by done.
  pose proof (new_named h parent (lit "scheduler") Hp) as Hn. destruct (new_child h parent) as [x h'] eqn:En. destruct Hn as [Hx ->].
  pose proof (on_length h parent (add_child (length h))) as Hl. rewrite Hx. revert Hl. generalize (on h parent (add_child (length h))) as pre.
  intros pre <-. clear En Hx. rewrite no_sub_level_fields, bind_ret, queues_spec by done.
  rewrite transfer_mca_none, bind_ret by done.
  rewrite (each_field_fold texts _ (λ t d h, match (if named t "shost" then Some (lit "node", d) else None) with
    Some e => new_elem h (length pre) e.1 e.2 | None => h end)); [|done|done|].
  2:{ intros t d uu s Hin Hd. destruct (named t "shost"); [|done]. by rewrite Hd. }
  rewrite bind_ret, fold_elems.
  rewrite (each_field_fold texts _ (λ t d h, match (if named t "port" then Some (t, d) else None) with
    Some e => new_elem h (length pre) e.1 e.2 | None => h end)); [|done|done|].
  - rewrite fold_elems. unfold scheduler_xml. by rewrite <-!app_assoc.
  - intros t d uu s Hin Hd. rewrite Hd, bind_ret, tolower_same, one_line_text by (by eapply data_of_field). by destruct (named t "port").
Qed.

End transfers.

(** ** The stack *)

(** Sections that are what parse_config expects. *)
Fixpoint sect_ok (c : content) : bool :=
  match c with
  | Field _ _ => true
  | Sect t b =>
      if named t "controller" then forallb controller_field b
      else if named t "scheduler" then forallb scheduler_field b
      else named t "junction" && bool_decide (length (datas "type" b) = 1%nat) && bool_decide (datas "name" b ≠ []) && forallb sect_ok b
  end.

Definition kids : list content → nat → nat → list (content * nat * nat) :=
  over (λ c o m, match c with Field _ _ => [] | Sect _ _ => [(c, o, m)] end).

Lemma lower_name_same o : lower_name o = o.
Proof. destruct o as [[s|] v l]; [|done]. unfold lower_name. cbn. by rewrite tolower_same. Qed.

Lemma on_lower h p : on h p lower_name = h.
Proof.
  unfold on. apply list_eq. intros j. destruct (decide (j = p)) as [->|Hj].
  - rewrite list_lookup_alter_eq. destruct (h !! p); [|done]. cbn. by rewrite lower_name_same.
  - by rewrite list_lookup_alter_ne.
Qed.

Section stack.
Context (texts : list ptr) (hierarchy : list (list Z)) (size : nat).

Lemma junction_fields pre parent b o m rest st nm v : at_offset texts o (items_of_list b) → clean b →
  junction_row texts size parent (length pre) (over field_offs b o m ++ rest) (pre ++ [mk_object nm v []]) st =
  junction_row texts size parent (length pre) rest
    (pre ++ [mk_object (foldl (λ _ d, Some d) nm (datas "type" b)) (foldl append v (datas "name" b)) []]) st.
Proof.
  revert o m nm v. induction b as [|c b IH]; intros o m nm v Hat Hcl; [done|]. cbn [flat_map] in Hat. apply at_app in Hat as [Hc Hb].
  apply clean_cons in Hcl as [Hcc Hcb]. rewrite over_cons. destruct c as [t d|t b']; cbn [field_offs app]; [|by apply IH].
  destruct (at_field texts o t d Hc) as [Ht Hd]; [by apply clean_field in Hcc as [_ ?]|].
  unfold datas, chosen in *. cbn [junction_row flat_map]. rewrite offs_nonneg, Ht, bind_ret, Hd. destruct (named t "type") eqn:Et.
  - rewrite (named_unique t "type" "name") by done. rewrite bind_ret, on_lower, on_here. by apply IH.
  - destruct (named t "name"); [|by apply IH]. rewrite bind_ret, on_here, tolower_same. by apply IH.
Qed.

Definition entry (x : nat) (k : content * nat * nat) : nat * nat := (k.2, x).

Lemma junction_children x parent b o m h st : (0 < m)%nat → (length st + nsecs b ≤ size)%nat →
  junction_row texts size parent x (over child_rows b o m) h st = ret (h, reverse (entry x <$> kids b o m) ++ st).
Proof.
  revert o m st. induction b as [|c b IH]; intros o m st Hm Hs; [done|]. rewrite over_cons. unfold kids. rewrite over_cons. fold kids.
  destruct c as [t d|t b']; cbn [child_rows app]; [apply IH; [lia|cbn in Hs; lia]|]. cbn [sum_list_with nsec] in Hs.
  cbn [junction_row]. assert ((- Z.of_nat m <? 0) = true) as -> by (zbool; [done|lia]). unfold push.
  rewrite bool_decide_true, bind_ret by lia. rewrite IH by (cbn [length]; lia).
  rewrite Z.opp_involutive, Nat2Z.id. cbn [app fmap list_fmap]. rewrite reverse_cons, <-app_assoc. done.
Qed.

Definition located (c : content) (o i : nat) : Prop := at_offset texts o (items c) ∧ at_offset hierarchy i (rows c o i).

Lemma kids_located b o m : at_offset texts o (items_of_list b) → at_offset hierarchy m (over rows b o m) →
  Forall (λ k, (k.1.1 ∈ b ∧ is_field k.1.1 = false) ∧ located k.1.1 k.1.2 k.2) (kids b o m).
Proof.
  revert o m. induction b as [|c b IH]; intros o m Ht Hr; [constructor|]. cbn [flat_map] in Ht. rewrite over_cons in Hr.
  apply at_app in Ht as [Ht1 Ht2]. apply at_app in Hr as [Hr1 Hr2]. rewrite length_rows in Hr2.
  unfold kids. rewrite over_cons. fold kids. apply Forall_app_2.
  - destruct c; [constructor|]. constructor; [|constructor]. split; [split; [by left|done]|done].
  - eapply Forall_impl; [by apply IH|]. intros k [[Hk1 Hk2] Hk3]. split; [split; [by right|done]|done].
Qed.

Lemma kids_sum b o m : sum_list_with (λ k, nsec k.1.1) (kids b o m) = nsecs b.
Proof.
  revert o m. induction b as [|[t d|t b'] b IH]; intros o m; [done|apply IH|]. unfold kids. rewrite over_cons. fold kids.
  cbn [app sum_list_with]. by rewrite IH.
Qed.

Lemma kids_contents b o m : xml_of <$> ((λ k, k.1.1) <$> kids b o m) = flat_map (λ c, match c with Field _ _ => [] | Sect _ _ => [xml_of c] end) b.
Proof.
  revert o m. induction b as [|[t d|t b'] b IH]; intros o m; [done|apply IH|]. unfold kids. rewrite over_cons. fold kids.
  cbn [app fmap list_fmap flat_map]. f_equal. apply IH.
Qed.

(** Visiting a section makes its objects and leaves the rest of the stack. *)
Definition visits (c : content) : Prop := ∀ o i h parent st fuel,
  located c o i → (parent < length h)%nat → (length st + nsec c ≤ size)%nat →
  visit_all (nsec c + fuel) texts hierarchy size h ((i, parent) :: st) =
  visit_all fuel texts hierarchy size (on h parent (add_child (length h)) ++ objs (xml_of c) (length h)) st.

Lemma visit_kids ks pre n v s st fuel : Forall (λ k, located k.1.1 k.1.2 k.2 ∧ visits k.1.1 ∧ (0 < nsec k.1.1)%nat) ks →
  (length st + sum_list_with (λ k, nsec k.1.1) ks ≤ size)%nat →
  visit_all (sum_list_with (λ k, nsec k.1.1) ks + fuel) texts hierarchy size
    (pre ++ objs (mk_xml n v s) (length pre)) ((entry (length pre) <$> ks) ++ st) =
  visit_all fuel texts hierarchy size
    (pre ++ objs (mk_xml n v (s ++ (xml_of <$> ((λ k, k.1.1) <$> ks)))) (length pre)) st.
Proof.
  intros H. revert s. induction H as [|k ks (Hk & Hv & Hn) H IH]; intros s Hs; [cbn; by rewrite app_nil_r|]. cbn [sum_list_with] in *.
  assert (length ks ≤ sum_list_with (λ k, nsec k.1.1) ks)%nat as Hl.
  { clear -H. induction H as [|k ks (_ & _ & Hn) _ IH]; cbn; lia. }
  rewrite fmap_cons. cbn [app]. unfold entry at 1. rewrite <-Nat.add_assoc, (Hv k.1.2); [|done|rewrite length_app, length_objs; cbn; lia|].
  2:{ rewrite length_app, length_fmap. lia. }
  rewrite objs_child, IH by lia. cbn [fmap list_fmap]. by rewrite <-app_assoc.
Qed.

Lemma visit_step i parent h st fuel c row o b : hierarchy !! i = Some row → row = row_of o i b → item_at texts (Z.of_nat o) = ret c →
  visit_all (S fuel) texts hierarchy size h ((i, parent) :: st) =
  let* (h, st) :=
    match letter c with
    | "c"%char => if named c "controller" then let* h := transfer_to_controller texts row h parent in ret (h, st) else ret (h, st)
    | "j"%char => if named c "junction" then
                    let '(x, h) := new_child h parent in junction_row texts size parent x (tail row) h st
                  else ret (h, st)
    | "s"%char => if named c "scheduler" then let* h := transfer_to_scheduler texts row h parent in ret (h, st) else ret (h, st)
    | _ => fail ORCM_ERR_BAD_PARAM
    end in
  visit_all fuel texts hierarchy size h st.
Proof.
  intros Hi -> Hc. cbn [visit_all]. unfold visit. rewrite Hi, opt_bind. cbn [row_of head]. rewrite opt_bind, offs_nonneg, Hc, bind_ret. done.
Qed.

Lemma named_letter t (n : string) : named t n = true → letter t = default NUL (head (tolower <$> c_text (lit n))).
Proof.
  unfold named, nocase, letter. intros H%bool_decide_eq_true. rewrite <-H, XmlSame.first_text.
  destruct (c_text t); [done|]. done.
Qed.

Lemma located_row t b o i : located (Sect t b) o i →
  item_at texts (Z.of_nat o) = ret t ∧ hierarchy !! i = Some (row_of o i b) ∧
  at_offset texts (S o) (items_of_list b) ∧ at_offset hierarchy (S i) (over rows b (S o) (S i)).
Proof.
  intros [Ht Hr]. cbn [items rows] in *. apply at_cons in Ht as [Ht Hb]. apply at_app in Hb as [Hb _]. split_and!; [done| |done|].
  - destruct Hr as (pre & post & -> & <-). by rewrite lookup_app_r, Nat.sub_diag by lia.
  - rewrite <-(Nat.add_1_r i) at 1. by apply (at_app hierarchy i [row_of o i b]) in Hr as [_ ?].
Qed.

Lemma controller_fields b : forallb controller_field b = true → forallb is_field b = true.
Proof. rewrite !forallb_forall. intros H c Hc. specialize (H c Hc). by destruct c. Qed.

Lemma nsecs_fields b : forallb is_field b = true → nsecs b = 0%nat.
Proof. induction b as [|[t d|t b'] b IH]; [done|apply IH|done]. Qed.

Lemma sum_reverse {A} (f : A → nat) l : sum_list_with f (reverse l) = sum_list_with f l.
Proof. induction l as [|x l IH]; [done|]. rewrite reverse_cons, sum_list_with_app, IH. cbn. lia. Qed.

Lemma visit_content c : is_field c = false → sect_ok c = true → Forall one_line (items c) → visits c.
Proof.
  induction c as [t d|t b IH] using content_induction; [done|]. intros _ Hok Hcl o i h parent st fuel Hloc Hp Hs.
  destruct (located_row t b o i Hloc) as (Ht & Hi & Hb & Hr). cbn [nsec Nat.add] in *. rewrite (visit_step _ _ _ _ _ _ _ _ _ Hi eq_refl Ht).
  assert (clean b) as Hcb by (cbn in Hcl; apply Forall_cons in Hcl as [_ Hcl]; by apply Forall_app in Hcl as [? _]).
  cbn [sect_ok xml_of] in *. destruct (named t "controller") eqn:Ec; [|destruct (named t "scheduler") eqn:Es].
  - rewrite (named_letter _ _ Ec). assert (forallb is_field b = true) as Hf by (by apply controller_fields).
    rewrite (nsecs_fields b Hf). change (default NUL (head (tolower <$> c_text (lit "controller")))) with "c"%char. cbv iota.
    rewrite controller_spec by done. done.
  - rewrite (named_letter _ _ Es), (nsecs_fields b (proj1 (scheduler_fields b Hok))). change (default NUL (head (tolower <$> c_text (lit "scheduler")))) with "s"%char. cbv iota.
    rewrite scheduler_spec by done. done.
  - apply andb_true_iff in Hok as [[[Hj Hty%bool_decide_eq_true]%andb_true_iff Hna]%andb_true_iff Hbok].
    rewrite (named_letter _ _ Hj), Hj. change (default NUL (head (tolower <$> c_text (lit "junction")))) with "j"%char. cbv iota.
    unfold new_child. rewrite on_app_l by done. pose proof (on_length h parent (add_child (length h))) as Hl.
    revert Hl. generalize (on h parent (add_child (length h))) as pre. intros pre <-.
    unfold row_of. cbn [tail]. rewrite junction_fields by done. rewrite junction_children, bind_ret by lia.
    assert (foldl (λ _ d, Some d) None (datas "type" b) = Some (the_data "type" b)) as ->.
    { unfold the_data. by destruct (datas "type" b) as [|x [|]]. }
    pose proof (append_argv [] (datas "name" b)) as Ea. cbn [argv_of app] in Ea. rewrite Ea. clear Ea.
    change (pre ++ [mk_object (Some (the_data "type" b)) (argv_of (datas "name" b)) []]) with
      (pre ++ objs (mk_xml (the_data "type" b) (argv_of (datas "name" b)) []) (length pre)).
    rewrite <-fmap_reverse, <-(kids_sum b (S o) (S i)), <-sum_reverse, visit_kids.
    + cbn [app]. by rewrite !fmap_reverse, kids_contents.
    + apply Forall_reverse. eapply Forall_impl; [by apply kids_located|]. intros [[c o'] i'] [[Hin Hc] Hloc']. cbn [fst snd] in *.
      rewrite Forall_forall in IH. rewrite forallb_forall in Hbok. unfold clean in Hcb. rewrite Forall_flat_map, Forall_forall in Hcb.
      split_and!; [done| |by destruct c as [|t' b']; [|cbn; lia]].
      apply IH; [done|done|apply Hbok; by apply list_elem_of_In|by apply Hcb].
    + rewrite sum_reverse, kids_sum. lia.
Qed.

End stack.

End XmlSpec.
