(* ===== verification/XmlRead.v ===== *)
(** * Reading a configuration (read_config of orcm/mca/cfgi/file30/cfgi_file30.c)

    The checks of the code on the items and rows of a document, and the whole of
    read_config: the element of the configuration, whatever the layout of the file. *)

From Stdlib Require Import ZArith Lia Ascii.
From stdpp Require Import prelude numbers strings gmap list.
From S2P Require Import Prelude CString Argv CfgiFile30 XmlLex XmlDoc XmlItems XmlStruct XmlRows XmlParse XmlSame XmlSpec.

Local Open Scope Z_scope.

Module XmlRead.
Import Argv CfgiFile30 XmlLex XmlDoc XmlItems XmlStruct XmlRows XmlParse XmlSame XmlObjects XmlSpec.

(** ** Configurations that are accepted *)

(** [Q] holds of every section. *)
Fixpoint every (Q : cstring → list content → bool) (c : content) : bool :=
  match c with Field _ _ => true | Sect t b => Q t b && forallb (every Q) b end.

(** The data of all fields [tag]. *)
Fixpoint all_data (tag : string) (c : content) : list cstring :=
  match c with
  | Field t d => if named t tag then [d] else []
  | Sect _ b => flat_map (all_data tag) b
  end.

(** No tag of which there may be only one is repeated. *)
Fixpoint distinct (l : list cstring) : bool :=
  match l with
  | [] => true
  | t :: r => (if isa_singleton t then negb (existsb (nocase t) r) else true) && distinct r
  end.
Definition field_tags (b : list content) : list cstring := chosen (λ t _, Some t) b.
Definition section_tags (b : list content) : list cstring := flat_map (λ c, match c with Field _ _ => [] | Sect t _ => [t] end) b.
Definition no_duplicates (t : cstring) (b : list content) : bool := distinct (t :: field_tags b) && distinct (section_tags b).

Definition configuration : cstring := lit "configuration".

(** The role comes first, but for the version and the date. *)
Fixpoint is_record (b : list content) : bool :=
  match b with
  | Field t d :: r => if named t "role" then named d "RECORD" else (named t "version" || named t "creation") && is_record r
  | _ => false
  end.

Definition roles_ok (ds : list cstring) : bool :=
  forallb (λ d, named d "RECORD" || named d "MOD") ds && bool_decide (count (λ d, named d "RECORD") ds = 1%nat).
Definition types_ok (ds : list cstring) : bool :=
  bool_decide (count (λ d, named d "inter") ds = 0%nat) && negb (bool_decide (count (λ d, named d "node") ds = 0%nat)).

Definition accepted (b : list content) : bool :=
  let c := Sect configuration b in
  forallb tags_ok b && every (λ _ b, negb (bool_decide (b = []))) c && every no_duplicates c && forallb sect_ok b && is_record b &&
  negb (bool_decide (section_tags b = [])) &&
  roles_ok (all_data "role" c) && types_ok (all_data "type" c) && forallb port_ok (all_data "port" c).

(** The element of a configuration. *)
Definition config_xml (b : list content) : xml_t :=
  mk_xml configuration None (reverse (flat_map (λ c, match c with Field _ _ => [] | Sect _ _ => [xml_of c] end) b)).

(** ** Tags *)

Lemma sectional_named t : isa_sectional_item t = true →
  named t "controller" = true ∨ named t "configuration" = true ∨ named t "junction" = true ∨ named t "scheduler" = true.
Proof.
  unfold isa_sectional_item. generalize (letter t) as l, (named t "controller") as a, (named t "configuration") as b, (named t "junction") as c, (named t "scheduler") as d.
  intros l [] [] [] []; try tauto. by destruct l as [[] [] [] [] [] [] [] []].
Qed.

Definition known_tags : list string :=
  ["aggregator"; "configuration"; "controller"; "count"; "cores"; "creation"; "envar"; "host"; "junction"; "log"; "mca-params";
   "name"; "port"; "queues"; "role"; "scheduler"; "shost"; "type"; "version"]%string.

Lemma known_named t : isa_known_tag t = true → ∃ n, n ∈ known_tags ∧ named t n = true.
Proof.
  intros H. assert (existsb (named t) known_tags = true) as (n & Hn & Ht)%existsb_exists.
  { apply not_false_iff_true. intros Hn. unfold isa_known_tag in H. cbn [existsb known_tags] in Hn. rewrite !orb_false_iff in Hn.
    destruct_and! Hn. repeat match goal with Hx : named t _ = false |- _ => rewrite Hx in H; clear Hx end.
    by destruct (letter t) as [[] [] [] [] [] [] [] []]. }
  exists n. split; [by apply list_elem_of_In|done].
Qed.

Lemma named_text t n : named t n = true → tolower <$> c_text t = tolower <$> c_text (lit n).
Proof. by intros H%bool_decide_eq_true. Qed.

(** A tag that is one of them is not another. *)
Lemma sectional_other t (n : string) : isa_sectional_item t = true → isa_sectional_item (lit n) = false → named t n = false.
Proof.
  intros Ht Hn. apply not_true_iff_false. intros H. assert (isa_sectional_item t = isa_sectional_item (lit n)) as E; [|congruence].
  clear Ht Hn. assert (∀ m, named t m = named (lit n) m) as E by (intros m; unfold named, nocase; by rewrite (named_text _ _ H)).
  unfold isa_sectional_item. rewrite !E, (named_letter _ _ H). f_equal. unfold letter. rewrite first_text. by destruct (c_text (lit n)).
Qed.

(** A section's tag is not what follows the first letter of another tag. *)
Lemma sectional_tail t u : isa_sectional_item t = true → isa_known_tag u = true → nocase t (next u) = false.
Proof.
  intros Ht (n & Hn & Hu%named_text)%known_named. apply bool_decide_eq_false. intros E.
  apply list_elem_of_In in Hn.
  assert (c_text u ≠ []) as Hne.
  { intros E0. rewrite E0 in Hu.
    assert (forallb (λ n, negb (bool_decide ([] = tolower <$> c_text (lit n)))) known_tags = true) as Hall by (vm_compute; reflexivity).
    rewrite forallb_forall in Hall. specialize (Hall n Hn). by apply negb_true_iff, bool_decide_eq_false in Hall. }
  rewrite next_text in E by done. assert (tolower <$> tail (c_text u) = tail (tolower <$> c_text u)) as Et by (by destruct (c_text u)).
  rewrite Et, Hu in E. clear Et Hu Hne.
  assert (forallb (λ m, forallb (λ n, negb (bool_decide (tolower <$> c_text (lit m) = tail (tolower <$> c_text (lit n))))) known_tags)
    ["controller"; "configuration"; "junction"; "scheduler"]%string = true) as Hall by (vm_compute; reflexivity).
  rewrite forallb_forall in Hall.
  assert (∃ m, m ∈ ["controller"; "configuration"; "junction"; "scheduler"]%string ∧ named t m = true) as (m & Hm & Hm').
  { apply sectional_named in Ht as [?|[?|[?|?]]]; eexists; (split; [|done]); rewrite !elem_of_cons; tauto. }
  apply list_elem_of_In in Hm. specialize (Hall m Hm). rewrite forallb_forall in Hall. specialize (Hall n Hn).
  apply negb_true_iff, bool_decide_eq_false in Hall. apply Hall. by rewrite <-E, <-(named_text t m).
Qed.

(** ** The items *)

Lemma remove_keep t l : is_data t || is_closing t = true → remove_empty_items (t :: l) = t :: remove_empty_items l.
Proof. intros H. destruct l as [|t2 r]; [done|]. rewrite remove_empty_cons. by rewrite H. Qed.

Lemma sectional_known t : isa_sectional_item t = true → isa_known_tag t = true.
Proof.
  intros H. pose proof H as Hn. apply sectional_named in Hn. unfold isa_known_tag. destruct Hn as [Hn|[Hn|[Hn|Hn]]]; rewrite (named_letter _ _ Hn), Hn; cbn; by rewrite ?orb_true_r.
Qed.

Lemma first_item c rest : tags_ok c = true → ∃ t l, items c ++ rest = t :: l ∧ isa_known_tag t = true ∧ is_data t = false.
Proof.
  destruct c as [t d|t b]; cbn; intros H; apply andb_true_iff in H as [H _]; eexists _, _; (split; [done|]).
  - split; [done|]. by destruct (known_first t H).
  - split; [by apply sectional_known|]. by destruct (sectional_first t H).
Qed.

Definition filled_in : content → bool := every (λ _ b, negb (bool_decide (b = []))).

Lemma remove_empty_doc c rest : tags_ok c = true → filled_in c = true →
  remove_empty_items (items c ++ rest) = items c ++ remove_empty_items rest.
Proof.
  revert rest. induction c as [t d|t b IH] using content_induction; intros rest Ht Hf.
  - cbn [items app]. rewrite remove_empty_cons. rewrite orb_true_r. do 2 rewrite remove_keep by done. done.
  - destruct (tags_ok_sect t b Ht) as [Hs Hb]. unfold filled_in in Hf. cbn [every] in Hf. apply andb_true_iff in Hf as [Hne Hfb].
    rewrite forallb_forall in Hfb. destruct (sectional_first t Hs) as [Hd Hc]. cbn [items app]. rewrite <-app_assoc.
    assert (∀ l rest, (∀ c, c ∈ l → c ∈ b) → remove_empty_items (items_of_list l ++ rest) = items_of_list l ++ remove_empty_items rest) as Hl.
    { clear -IH Hb Hfb. rewrite !Forall_forall in *. induction l as [|c l IHl]; intros rest Hin; [done|]. cbn [flat_map]. rewrite <-!app_assoc.
      rewrite IH, IHl; [done| | | |]; [intros c' Hc'; apply Hin; by right|apply Hin; by left|apply Hb, Hin; by left|].
      apply Hfb, list_elem_of_In, Hin. by left. }
    assert (∃ u l, items_of_list b ++ [SLASH :: t] ++ rest = u :: l ∧ isa_known_tag u = true ∧ is_data u = false) as (u & l & E & Hu & Hud).
    { destruct b as [|c b]; [done|]. cbn [flat_map]. rewrite <-app_assoc. apply first_item. by apply Forall_cons in Hb as [? _]. }
    transitivity (t :: remove_empty_items (items_of_list b ++ [SLASH :: t] ++ rest)).
    + rewrite E, remove_empty_cons, Hd, Hc, Hud, (sectional_tail t u) by done. done.
    + rewrite Hl by done. cbn [app]. rewrite remove_keep by done. by rewrite <-app_assoc.
Qed.

Lemma known_data d : known_item (TAB :: d) = true.
Proof. done. Qed.

Lemma known_closing t : known_item (SLASH :: t) = isa_known_tag t.
Proof. done. Qed.

Lemma known_tag t : isa_known_tag t = true → known_item t = true.
Proof. intros H. unfold known_item. destruct (known_first t H) as [-> ->]. by rewrite H. Qed.

Lemma known_doc c : tags_ok c = true → forallb known_item (items c) = true.
Proof.
  induction c as [t d|t b IH] using content_induction; intros Ht.
  - apply andb_true_iff in Ht as [Hk _]. cbn [items forallb]. by rewrite known_data, known_closing, known_tag, Hk.
  - destruct (tags_ok_sect t b Ht) as [Hs Hb]. apply sectional_known in Hs. cbn [items forallb].
    rewrite forallb_app. cbn [forallb]. rewrite known_closing, known_tag, Hs, andb_true_r by done. cbn [andb].
    apply forallb_forall. intros x Hx. apply in_flat_map in Hx as (c & Hc & Hx). rewrite !Forall_forall in *. apply list_elem_of_In in Hc.
    specialize (IH c Hc (Hb c Hc)). rewrite forallb_forall in IH. by apply IH.
Qed.

(** The number of tags. *)
Fixpoint ntags (c : content) : nat := match c with Field _ _ => 1 | Sect _ b => S (sum_list_with ntags b) end.

Lemma count_tags_doc c rest o cl : tags_ok c = true →
  count_tags (items c ++ rest) o cl = count_tags rest (o + Z.of_nat (ntags c)) (cl + Z.of_nat (ntags c)).
Proof.
  revert rest o cl. induction c as [t d|t b IH] using content_induction; intros rest o cl Ht.
  - cbn in Ht. apply andb_true_iff in Ht as [Hk Hn%negb_true_iff]. destruct (known_first t Hk) as [H1 H2].
    cbn [items app count_tags]. rewrite H1, H2, Hn. cbn [orb]. done.
  - destruct (tags_ok_sect t b Ht) as [Hs Hb]. destruct (sectional_first t Hs) as [H1 H2]. cbn [items app count_tags]. rewrite H1, H2, Hs. cbn [orb].
    rewrite <-app_assoc.
    assert (∀ l rest o cl, (∀ c, c ∈ l → c ∈ b) → count_tags (items_of_list l ++ rest) o cl =
      count_tags rest (o + Z.of_nat (sum_list_with ntags l)) (cl + Z.of_nat (sum_list_with ntags l))) as Hl.
    { clear -IH Hb. rewrite !Forall_forall in *. induction l as [|c l IHl]; intros rest o cl Hin; cbn [flat_map sum_list_with app].
      { by rewrite !Z.add_0_r. }
      rewrite <-app_assoc, IH, IHl; [f_equal; lia|intros c' Hc'; apply Hin; by right|apply Hin; by left|apply Hb, Hin; by left]. }
    rewrite Hl by done. cbn [app count_tags ntags]. f_equal; lia.
Qed.

(** Neither data nor a closing tag is a tag [tag]. *)
Definition tag_name (tag : string) : Prop :=
  isa_sectional_item (lit tag) = false ∧ (∀ s, named (TAB :: s) tag = false) ∧ (∀ s, named (SLASH :: s) tag = false).

Lemma tag_name_letter (tag : string) : isa_sectional_item (lit tag) = false →
  default NUL (head (tolower <$> c_text (lit tag))) ≠ TAB → default NUL (head (tolower <$> c_text (lit tag))) ≠ SLASH → tag_name tag.
Proof.
  intros H1 H2 H3. split; [done|]. split; intros s; apply not_true_iff_false; intros H%named_letter; [by apply H2|by apply H3].
Qed.

Lemma data_of_doc tag c rest : tag_name tag → tags_ok c = true →
  data_of tag (items c ++ rest) = (λ ds, all_data tag c ++ ds) <$> data_of tag rest.
Proof.
  intros (Hsec & Hd & Hc). revert rest. induction c as [t d|t b IH] using content_induction; intros rest Ht.
  - cbn [items app data_of all_data]. rewrite Hd, Hc. destruct (named t tag); destruct (data_of tag rest); done.
  - destruct (tags_ok_sect t b Ht) as [Hs Hb]. cbn [items app data_of all_data]. rewrite (sectional_other t tag) by done. rewrite <-app_assoc.
    assert (∀ l rest, (∀ c, c ∈ l → c ∈ b) → data_of tag (items_of_list l ++ rest) = (λ ds, flat_map (all_data tag) l ++ ds) <$> data_of tag rest) as Hl.
    { clear -IH Hb. rewrite !Forall_forall in *. induction l as [|c l IHl]; intros rest Hin; cbn [flat_map app].
      { by destruct (data_of tag rest). }
      rewrite <-app_assoc, IH, IHl; [|intros c' Hc'; apply Hin; by right|apply Hin; by left|apply Hb, Hin; by left].
      destruct (data_of tag rest); [|done]. cbn. by rewrite <-app_assoc. }
    rewrite Hl by done. cbn [app data_of]. by rewrite Hc.
Qed.

Lemma data_of_all tag c : tag_name tag → tags_ok c = true → data_of tag (items c) = Some (all_data tag c).
Proof. intros H1 H2. pose proof (data_of_doc tag c [] H1 H2) as E. rewrite app_nil_r in E. rewrite E. cbn. by rewrite app_nil_r. Qed.

(** The checks on the items pass. *)
Lemma validity_doc c : tags_ok c = true → roles_ok (all_data "role" c) = true → types_ok (all_data "type" c) = true →
  forallb port_ok (all_data "port" c) = true → check_validity_of_the_inputs (items c) = Some ORCM_SUCCESS.
Proof.
  intros Ht Hr Hty Hp. unfold check_validity_of_the_inputs. rewrite bool_decide_false by (by destruct c). rewrite known_doc by done. cbn [negb].
  pose proof (count_tags_doc c [] 0 0 Ht) as Ec. rewrite app_nil_r in Ec. rewrite Ec. cbn [count_tags]. rewrite Z.eqb_refl. cbn [negb].
  unfold check_roles, check_types, check_aggregator, check_all_port_fields.
  rewrite !data_of_all by (done || by apply tag_name_letter).
  unfold roles_ok in Hr. apply andb_true_iff in Hr as [-> ->]. unfold types_ok in Hty.
  apply andb_true_iff in Hty as [Hi%bool_decide_eq_true Hn%negb_true_iff]. rewrite Hn, Hi, Hp. unfold andthen. cbn. by destruct (all_data "aggregator" c).
Qed.

(** ** The configuration that is found *)

Lemma find_begin_record b i beg rest : forallb tags_ok b = true → is_record b = true →
  find_begin true (items_of_list b ++ rest) i (Some beg) = ret (Some beg).
Proof.
  revert i. induction b as [|[t d|] b IH]; intros i Ht Hr; [done| |done]. cbn [forallb tags_ok] in Ht. apply andb_true_iff in Ht as [Ht Hb].
  apply andb_true_iff in Ht as [Hk _]. destruct (known_first t Hk) as [H1 H2]. cbn [flat_map items app find_begin]. rewrite H1, H2. cbn [orb].
  cbn [is_record] in Hr. destruct (named t "role"); [cbn [negb next tail]; by rewrite Hr|]. apply andb_true_iff in Hr as [-> Hr]. by apply IH.
Qed.

(** A section inside a configuration is not one itself. *)
Fixpoint inner (c : content) : bool :=
  match c with Field t _ => true | Sect t b => negb (named t "configuration") && forallb inner b end.

Lemma sect_ok_inner c : sect_ok c = true → tags_ok c = true → inner c = true.
Proof.
  induction c as [t d|t b IH] using content_induction; [done|]. intros Hok Ht. destruct (tags_ok_sect t b Ht) as [Hs Hb].
  cbn [sect_ok inner] in *. rewrite !Forall_forall in *.
  assert (∀ b, forallb is_field b = true → forallb inner b = true) as Hf.
  { clear. intros b. rewrite !forallb_forall. intros H c Hc. specialize (H c Hc). by destruct c. }
  destruct (named t "controller") eqn:E1; [|destruct (named t "scheduler") eqn:E2].
  - rewrite (named_unique t "controller") by done. apply Hf. by apply controller_fields.
  - rewrite (named_unique t "scheduler") by done. by apply Hf, scheduler_fields.
  - apply andb_true_iff in Hok as [[[Hj _]%andb_true_iff _]%andb_true_iff Hbok]. rewrite (named_unique t "junction") by done. cbn [negb andb].
    rewrite forallb_forall in Hbok. apply forallb_forall. intros c Hc. pose proof Hc as Hc'%list_elem_of_In. apply IH; auto.
Qed.

Lemma find_end_doc c rest i : tags_ok c = true → inner c = true → find_end (items c ++ rest) i = find_end rest (i + length (items c))%nat.
Proof.
  revert rest i. induction c as [t d|t b IH] using content_induction; intros rest i Ht Hi.
  - cbn [tags_ok] in Ht. apply andb_true_iff in Ht as [Hk Hn%negb_true_iff]. destruct (known_first t Hk) as [H1 H2].
    assert (named t "configuration" = false) as Hc.
    { apply not_true_iff_false. intros Hx. unfold isa_sectional_item in Hn. rewrite (named_letter _ _ Hx) in Hn. cbn in Hn. by rewrite Hx, orb_true_r in Hn. }
    cbn [items app find_end]. rewrite H2. cbn [is_closing next tail andb length]. rewrite Hc, andb_false_r.
    by replace (i + 3)%nat with (S (S (S i))) by lia.
  - destruct (tags_ok_sect t b Ht) as [Hs Hb]. cbn [inner] in Hi. apply andb_true_iff in Hi as [Hc%negb_true_iff Hib]. rewrite forallb_forall in Hib.
    destruct (sectional_first t Hs) as [H1 H2]. cbn [items app find_end length]. rewrite H2, length_app. cbn [andb]. rewrite <-app_assoc.
    assert (∀ l rest i, (∀ c, c ∈ l → c ∈ b) → find_end (items_of_list l ++ rest) i = find_end rest (i + length (items_of_list l))%nat) as Hl.
    { clear -IH Hb Hib. rewrite !Forall_forall in *. induction l as [|c l IHl]; intros rest i Hin; cbn [flat_map app length].
      { by rewrite Nat.add_0_r. }
      rewrite <-app_assoc, IH, IHl; [rewrite length_app; f_equal; lia|intros c' Hc'; apply Hin; by right|apply Hin; by left|apply Hb, Hin; by left|].
      apply Hib, list_elem_of_In, Hin. by left. }
    rewrite Hl by done. cbn [app find_end next tail length]. rewrite Hc, andb_false_r. f_equal. lia.
Qed.

Lemma find_beginend_doc b : forallb tags_ok b = true → forallb sect_ok b = true → is_record b = true →
  find_beginend_configuration 0 (items (Sect configuration b)) true = ret (Some (0%nat, length (items (Sect configuration b)))).
Proof.
  intros Ht Hok Hr. unfold find_beginend_configuration. rewrite bool_decide_false by (cbn; lia). rewrite drop_0. cbn [items find_begin].
  change (ascii_eqb (letter configuration) "c" && named configuration "configuration") with true. cbv iota.
  rewrite find_begin_record, bind_ret, drop_0 by done. cbn [find_end]. change (is_closing configuration) with false. cbn [andb].
  assert (∀ l rest i, (∀ c, c ∈ l → tags_ok c = true ∧ inner c = true) →
    find_end (items_of_list l ++ rest) i = find_end rest (i + length (items_of_list l))%nat) as Hl.
  { clear. induction l as [|c l IHl]; intros rest i Hin; cbn [flat_map app length]; [by rewrite Nat.add_0_r|]. destruct (Hin c) as [H1 H2]; [by left|].
    rewrite <-app_assoc, find_end_doc, IHl by (done || (intros c' Hc'; apply Hin; by right)). rewrite length_app. f_equal. lia. }
  rewrite Hl. 2:{ intros c Hc%list_elem_of_In. rewrite forallb_forall in *. split; [by apply Ht|]. apply sect_ok_inner; auto. }
  cbn [find_end]. change (is_closing (SLASH :: configuration) && _ && _) with true. cbv iota. do 4 f_equal.
  cbn [length]. rewrite length_app. cbn. lia.
Qed.

(** ** The rows *)

Section rows.
Context (texts : list ptr) (hierarchy : list (list Z)).
Local Abbreviation located := (located texts hierarchy).

Lemma all_rows_app f a b : all_rows f (a ++ b) = let* _ := all_rows f a in all_rows f b.
Proof. induction a as [|row a IH]; [done|]. cbn [app all_rows]. rewrite bind_assoc, IH. done. Qed.

(** A check of every row passes if it does for the row of every section. *)
Lemma all_rows_doc Q f c o i : every Q c = true → located c o i → Forall one_line (items c) →
  (∀ t b o i, Q t b = true → located (Sect t b) o i → clean b → f (row_of o i b) = ret ()) → all_rows f (rows c o i) = ret ().
Proof.
  revert o i. induction c as [t d|t b IH] using content_induction; intros o i HQ Hloc Hcl Hf; [done|]. cbn [every] in HQ.
  apply andb_true_iff in HQ as [HQt HQb]. rewrite forallb_forall in HQb.
  assert (clean b) as Hcb by (cbn in Hcl; apply Forall_cons in Hcl as [_ Hcl]; by apply Forall_app in Hcl as [? _]).
  cbn [rows all_rows]. rewrite (Hf t b), bind_ret by done. destruct (located_row texts hierarchy t b o i Hloc) as (_ & _ & Hb & Hr).
  assert (∀ l o i, (∀ c, c ∈ l → c ∈ b) → at_offset texts o (items_of_list l) → at_offset hierarchy i (over rows l o i) →
    all_rows f (over rows l o i) = ret ()) as Hl; [|by apply Hl].
  unfold clean in Hcb. rewrite Forall_flat_map, Forall_forall in Hcb. rewrite Forall_forall in IH. clear Hcl HQt Hloc Hb Hr.
  induction l as [|c l IHl]; intros o' i' Hin Ho Hi; [done|]. cbn [flat_map] in Ho. rewrite over_cons in Hi. rewrite over_cons.
  apply at_app in Ho as [Ho1 Ho2]. apply at_app in Hi as [Hi1 Hi2]. rewrite length_rows in Hi2.
  assert (c ∈ b) as Hc by (apply Hin; by left). rewrite all_rows_app, (IH c), bind_ret; [|done|by apply HQb, list_elem_of_In|by split|by apply Hcb|done].
  apply IHl; [|done|done]. intros c' Hc'. apply Hin. by right.
Qed.

(** The entries for fields, followed by those for sections. *)
Definition negatives (rest : list Z) : Prop := Forall (λ v, v < 0) rest.

Lemma children_negative b o m : (0 < m)%nat → negatives (over child_rows b o m).
Proof.
  revert o m. induction b as [|[t d|t b'] b IH]; intros o m Hm; [constructor|by apply IH; cbn; lia|]. rewrite over_cons. cbn [child_rows app].
  constructor; [lia|]. apply IH. lia.
Qed.

Lemma no_equal_field_doc t b o m rest : at_offset texts o (items_of_list b) → clean b → negatives rest →
  existsb (nocase t) (field_tags b) = false → no_equal_field texts t (over field_offs b o m ++ rest) = ret ().
Proof.
  intros Hat Hcl Hr. revert o m Hat Hcl. induction b as [|[t' d|t' b'] b IH]; intros o m Hat Hcl He.
  - destruct Hr as [|v rest Hv]; [done|]. cbn. by destruct (Z.ltb_spec v 0); [|lia].
  - cbn [flat_map] in Hat. apply at_app in Hat as [Hc Hb]. apply clean_cons in Hcl as [Hcc Hcb]. unfold field_tags, chosen in *. cbn [flat_map app existsb] in He.
    apply orb_false_iff in He as [He1 He2]. rewrite over_cons. cbn [field_offs app no_equal_field].
    destruct (at_field texts o t' d Hc) as [Ht _]; [by apply clean_field in Hcc as [_ ?]|]. rewrite offs_nonneg, Ht, bind_ret, He1. by apply IH.
  - cbn [flat_map] in Hat. apply at_app in Hat as [_ Hb]. apply clean_cons in Hcl as [_ Hcb]. rewrite over_cons. by apply IH.
Qed.

Lemma check_fields_doc b o m rest : at_offset texts o (items_of_list b) → clean b → negatives rest → distinct (field_tags b) = true →
  check_row texts hierarchy (over field_offs b o m ++ rest) = check_row texts hierarchy rest.
Proof.
  intros Hat Hcl Hr. revert o m Hat Hcl. induction b as [|[t d|t b'] b IH]; intros o m Hat Hcl He; [done| |].
  - cbn [flat_map] in Hat. apply at_app in Hat as [Hc Hb]. apply clean_cons in Hcl as [Hcc Hcb]. unfold field_tags, chosen in He. cbn [flat_map app distinct] in He.
    apply andb_true_iff in He as [He1 He2]. rewrite over_cons. cbn [field_offs app check_row].
    destruct (at_field texts o t d Hc) as [Ht _]; [by apply clean_field in Hcc as [_ ?]|]. rewrite offs_nonneg, Ht, bind_ret.
    destruct (isa_singleton t); [|rewrite bind_ret; by apply IH]. rewrite no_equal_field_doc, bind_ret; [by apply IH|done|done|done|].
    by apply negb_true_iff.
  - cbn [flat_map] in Hat. apply at_app in Hat as [_ Hb]. apply clean_cons in Hcl as [_ Hcb]. rewrite over_cons. by apply IH.
Qed.

Lemma section_tag_doc t b o m : located (Sect t b) o m → section_tag texts hierarchy (- Z.of_nat m) = ret t.
Proof.
  intros H. destruct (located_row texts hierarchy t b o m H) as (Ht & Hr & _). unfold section_tag.
  rewrite Z.opp_involutive, zget_nat, Hr, opt_bind. cbn [row_of head]. by rewrite opt_bind.
Qed.

Lemma no_equal_section_doc t b o m : at_offset texts o (items_of_list b) → at_offset hierarchy m (over rows b o m) → (0 < m)%nat →
  existsb (nocase t) (section_tags b) = false → no_equal_section texts hierarchy t (over child_rows b o m) = ret ().
Proof.
  revert o m. induction b as [|c b IH]; intros o m Ho Hi Hm He; [done|]. cbn [flat_map] in Ho. rewrite over_cons in Hi. rewrite over_cons.
  apply at_app in Ho as [Ho1 Ho2]. apply at_app in Hi as [Hi1 Hi2]. rewrite length_rows in Hi2.
  destruct c as [t' d|t' b']; [apply IH; (done || cbn; lia)|]. cbn [child_rows app no_equal_section]. unfold section_tags in He. cbn [flat_map app existsb] in He.
  apply orb_false_iff in He as [He1 He2]. assert (0 <=? - Z.of_nat m = false) as -> by (apply Z.leb_gt; lia).
  rewrite (section_tag_doc t' b' o m), bind_ret, He1 by done. apply IH; (done || lia).
Qed.

Lemma check_children_doc b o m : at_offset texts o (items_of_list b) → at_offset hierarchy m (over rows b o m) → (0 < m)%nat →
  distinct (section_tags b) = true → check_row texts hierarchy (over child_rows b o m) = ret ().
Proof.
  revert o m. induction b as [|c b IH]; intros o m Ho Hi Hm He; [done|]. cbn [flat_map] in Ho. rewrite over_cons in Hi. rewrite over_cons.
  apply at_app in Ho as [Ho1 Ho2]. apply at_app in Hi as [Hi1 Hi2]. rewrite length_rows in Hi2.
  destruct c as [t' d|t' b']; [apply IH; (done || cbn; lia)|]. cbn [child_rows app check_row]. unfold section_tags in He. cbn [flat_map app distinct] in He.
  apply andb_true_iff in He as [He1 He2]. assert ((- Z.of_nat m <? 0) = true) as -> by (apply Z.ltb_lt; lia).
  rewrite (section_tag_doc t' b' o m), bind_ret by done.
  destruct (isa_singleton t'); [rewrite no_equal_section_doc by (done || (by apply negb_true_iff) || lia)|]; rewrite bind_ret; apply IH; (done || lia).
Qed.

(** The check for duplicates passes. *)
Lemma duplicates_row t b o i : no_duplicates t b = true → located (Sect t b) o i → clean b →
  (let* z := opt (head (row_of o i b)) in let* _ := item_at texts z in check_row texts hierarchy (row_of o i b)) = ret ().
Proof.
  intros [Hf Hs]%andb_true_iff Hloc Hcl. destruct (located_row texts hierarchy t b o i Hloc) as (Ht & _ & Hb & Hr).
  unfold row_of. cbn [head check_row]. cbn [distinct] in Hf. apply andb_true_iff in Hf as [Hf1 Hf2].
  rewrite opt_bind, Ht, bind_ret, offs_nonneg, bind_ret. pose proof (children_negative b (S o) (S i) ltac:(lia)) as Hneg.
  destruct (isa_singleton t); [rewrite no_equal_field_doc by (done || by apply negb_true_iff)|];
    rewrite bind_ret, check_fields_doc by done; apply check_children_doc; (done || lia).
Qed.

(** Junctions have names. *)
Lemma name_field_doc b o m rest : at_offset texts o (items_of_list b) → clean b → datas "name" b ≠ [] →
  ∃ n, name_field texts (over field_offs b o m ++ rest) = ret (Some n).
Proof.
  revert o m. induction b as [|[t d|t b'] b IH]; intros o m Hat Hcl He; [done| |].
  - cbn [flat_map] in Hat. apply at_app in Hat as [Hc Hb]. apply clean_cons in Hcl as [Hcc Hcb]. rewrite over_cons. cbn [field_offs app name_field].
    pose proof (at_cons texts o _ _ Hc) as [Ht Hat']. pose proof (at_cons texts _ _ _ Hat') as [Hd _].
    rewrite offs_nonneg, Ht, bind_ret. unfold datas, chosen in *. cbn [flat_map] in He. destruct (named t "name"); [|by apply IH].
    replace (Z.of_nat o + 1) with (Z.of_nat (S o)) by lia. rewrite Hd. by eexists.
  - cbn [flat_map] in Hat. apply at_app in Hat as [_ Hb]. apply clean_cons in Hcl as [_ Hcb]. rewrite over_cons. by apply IH.
Qed.

Definition named_junction (t : cstring) (b : list content) : bool := if named t "junction" then negb (bool_decide (datas "name" b = [])) else true.

Lemma junction_row_name t b o i : named_junction t b = true → located (Sect t b) o i → clean b → junction_has_name texts (row_of o i b) = ret ().
Proof.
  intros Hn Hloc Hcl. destruct (located_row texts hierarchy t b o i Hloc) as (Ht & _ & Hb & _). unfold junction_has_name, named_junction, row_of in *.
  cbn [head name_field]. rewrite opt_bind, offs_nonneg, Ht, bind_ret. destruct (named t "junction") eqn:Ej; [|done].
  rewrite bind_ret, (named_unique t "junction" "name") by done. apply negb_true_iff, bool_decide_eq_false in Hn.
  destruct (name_field_doc b (S o) (S i) (over child_rows b (S o) (S i)) Hb Hcl Hn) as [n ->]. done.
Qed.

End rows.

(** The check of the children's names looks at rows that begin with a negative number. *)
Lemma parents_pass items h rs erri : Forall (λ row, ∃ z r, row = z :: r ∧ 0 ≤ z) rs → check_parents items h rs erri = ret erri.
Proof.
  induction 1 as [|row rs (z & r & -> & Hz) _ IH]; [done|]. cbn. by destruct (Z.leb_spec 0 z); [|lia].
Qed.

Lemma rows_nonneg c o i : Forall (λ row, ∃ z r, row = z :: r ∧ 0 ≤ z) (rows c o i).
Proof.
  revert o i. induction c as [t d|t b IH] using content_induction; intros o i; [constructor|]. cbn [rows]. constructor; [unfold row_of; eexists _, _; split; [done|lia]|].
  generalize (S o) (S i). induction IH as [|c b Hc _ IHb]; intros o' i'; [constructor|]. rewrite over_cons. apply Forall_app_2; [done|apply IHb].
Qed.

(** ** The whole *)

Lemma push_children_doc size x b o m st : (0 < m)%nat → (length st + nsecs b ≤ size)%nat →
  push_children size x (over child_rows b o m) st = ret (reverse (entry x <$> kids b o m) ++ st).
Proof.
  revert o m st. induction b as [|c b IH]; intros o m st Hm Hs; [done|]. rewrite over_cons. unfold kids. rewrite over_cons. fold kids.
  destruct c as [t d|t b']; cbn [child_rows app]; [apply IH; [lia|cbn in Hs; lia]|]. cbn [sum_list_with nsec] in Hs.
  cbn [push_children]. assert ((- Z.of_nat m <? 0) = true) as -> by (apply Z.ltb_lt; lia). unfold push.
  rewrite bool_decide_true, bind_ret by lia. rewrite IH by (cbn [length]; lia).
  rewrite Z.opp_involutive, Nat2Z.id. cbn [app fmap list_fmap]. rewrite reverse_cons, <-app_assoc. done.
Qed.

Lemma push_fields size x b o m rest st : push_children size x (over field_offs b o m ++ rest) st = push_children size x rest st.
Proof.
  revert o m. induction b as [|[t d|t b'] b IH]; intros o m; [done| |apply IH]. rewrite over_cons. cbn [field_offs app push_children].
  rewrite offs_nonneg. apply IH.
Qed.

Lemma kids_tags b o m : kids b o m = [] → section_tags b = [].
Proof. revert o m. induction b as [|[t d|t b'] b IH]; intros o m; [done|apply IH|done]. Qed.

Section document.
Context (b : list content) (Hacc : accepted b = true).
Local Abbreviation doc := (Sect configuration b).

Lemma accepted_spec :
  (tags_ok doc = true ∧ filled_in doc = true ∧ every no_duplicates doc = true ∧ forallb sect_ok b = true ∧ is_record b = true) ∧
  section_tags b ≠ [] ∧
  roles_ok (all_data "role" doc) = true ∧ types_ok (all_data "type" doc) = true ∧ forallb port_ok (all_data "port" doc) = true.
Proof.
  pose proof Hacc as H. unfold accepted in H. rewrite !andb_true_iff, negb_true_iff, bool_decide_eq_false in H.
  destruct H as ((((((((H1 & H2) & H3) & H4) & H5) & H6) & H7) & H8) & H9). by split_and!.
Qed.

Lemma accepted_junctions : every named_junction doc = true.
Proof.
  destruct accepted_spec as ((_ & _ & _ & Hok & _) & _). cbn [every]. apply andb_true_iff. split; [done|].
  assert (∀ c, sect_ok c = true → every named_junction c = true) as H; [|apply forallb_forall; intros c Hc; rewrite forallb_forall in Hok; auto].
  clear. induction c as [t d|t b IH] using content_induction; [done|]. intros Hok. cbn [sect_ok every] in *. unfold named_junction at 1.
  assert (forallb is_field b = true → forallb (every named_junction) b = true) as Hf.
  { rewrite !forallb_forall. intros H c Hc. specialize (H c Hc). by destruct c. }
  destruct (named t "controller") eqn:E1; [rewrite (named_unique t "controller") by done; by apply Hf, controller_fields|].
  destruct (named t "scheduler") eqn:E2; [rewrite (named_unique t "scheduler") by done; by apply Hf, scheduler_fields|].
  apply andb_true_iff in Hok as [[[Hj _]%andb_true_iff Hn%bool_decide_eq_true]%andb_true_iff Hbok]. rewrite Hj, bool_decide_false by done. cbn [negb andb].
  rewrite forallb_forall in Hbok. apply forallb_forall. intros c Hc. rewrite Forall_forall in IH. apply IH; [by apply list_elem_of_In|auto].
Qed.

Lemma parse_document items : Forall2 same items (XmlDoc.items doc) → Forall one_line (XmlDoc.items doc) →
  parse_config items = ret (objs (config_xml b) 0).
Proof.
  intros Hsame Hcl. destruct accepted_spec as ((Ht & _ & Hdup & Hok & Hrec) & Hne & _).
  destruct (tags_ok_sect _ _ Ht) as [_ Hbt].
  assert (forallb tags_ok b = true) as Hbt' by (by cbn [tags_ok] in Ht; apply andb_true_iff in Ht as [_ ?]).
  set (texts := XmlDoc.items doc) in *. set (hier := rows doc 0 0).
  assert (located texts hier doc 0 0) as Hloc.
  { split; [exists [], []|exists [], []]; split; (by rewrite app_nil_r) || done. }
  assert (clean b) as Hcb by (unfold texts in Hcl; cbn in Hcl; apply Forall_cons in Hcl as [_ Hcl]; by apply Forall_app in Hcl as [? _]).
  unfold parse_config. rewrite (find_beginend_same _ texts Hsame). unfold texts at 1. rewrite find_beginend_doc, bind_ret by done.
  fold texts. rewrite (structure_same _ texts Hsame).
  pose proof (structure_section [] [] configuration b Ht) as Hst. cbn [app length Nat.add] in Hst. rewrite app_nil_r in Hst. fold texts in Hst. rewrite Hst. fold hier.
  rewrite bind_ret, bool_decide_false by done. rewrite (duplicates_same _ texts Hsame). unfold remove_duplicate_singletons.
  unfold hier at 2. rewrite (all_rows_doc texts hier no_duplicates _ doc 0 0) by (done || (intros; by eapply duplicates_row)). rewrite bind_ret.
  rewrite (junctions_same _ texts Hsame). unfold check_junctions_have_names. unfold hier at 1.
  rewrite (all_rows_doc texts hier named_junction _ doc 0 0) by (done || apply accepted_junctions || (intros; by eapply junction_row_name)). rewrite bind_ret.
  unfold check_parent_has_uniquely_named_children. unfold hier at 2. rewrite parents_pass, !bind_ret by apply rows_nonneg.
  destruct (located_row texts hier _ _ _ _ Hloc) as (Hc & Hrow & Hb & Hr). cbn [Z.eqb ORCM_SUCCESS OPAL_SUCCESS]. rewrite bind_ret.
  rewrite Hrow, opt_bind. unfold row_of at 1. cbn [head]. rewrite opt_bind.
  assert (∃ p, item_at items 0 = ret p ∧ same p configuration) as (p & Hp & Hpc).
  { unfold texts in Hsame. cbn in Hsame. inversion Hsame as [|p q l k Hp]; subst. by exists p. }
  change (Z.of_nat 0) with 0. rewrite Hp, bind_ret, (named_proper _ _ (proj1 Hpc) _ _ eq_refl). change (negb (named configuration "configuration")) with false.
  rewrite tolower_same, (proj1 Hpc : c_text p = c_text configuration). change (c_text configuration) with configuration.
  assert (length hier = S (nsecs b)) as Hlen by apply length_rows. cbv iota.
  change [mk_object (Some configuration) None []] with ([] ++ objs (mk_xml configuration None []) (length (@nil object))).
  change (push_children ?s 0 (row_of 0 0 b) []) with (push_children s 0 (over field_offs b 1 1 ++ over child_rows b 1 1) []).
  rewrite push_fields, push_children_doc, bind_ret, app_nil_r by (cbn [length]; lia).
  rewrite bool_decide_false.
  2:{ rewrite <-fmap_reverse. intros E%fmap_nil_inv. apply (f_equal reverse) in E. rewrite reverse_involutive in E. by apply Hne, (kids_tags b 1 1). }
  rewrite (visit_all_same _ texts Hsame), Hlen, <-Nat.add_1_r, <-fmap_reverse, <-(kids_sum b 1 1), <-sum_reverse.
  rewrite <-(app_nil_r (entry 0 <$> _)). change 0%nat with (length (@nil object)) at 1.
  rewrite visit_kids.
  - cbn [app length]. rewrite !fmap_reverse, kids_contents. done.
  - apply Forall_reverse. eapply Forall_impl; [by apply (kids_located texts hier b 1 1)|]. intros [[c o'] i'] [[Hin Hcf] Hloc']. cbn [fst snd] in *.
    rewrite forallb_forall in Hok. unfold clean in Hcb. rewrite Forall_flat_map, Forall_forall in Hcb.
    split_and!; [done| |by destruct c as [|t' b']; [|cbn; lia]]. apply visit_content; [done|by apply Hok, list_elem_of_In|by apply Hcb].
  - rewrite sum_reverse, kids_sum. cbn [length]. lia.
Qed.

Lemma tags_nonempty c : tags_ok c = true → Forall (λ t, t ≠ []) (items c).
Proof.
  induction c as [t d|t b' IH] using content_induction; intros Ht.
  - apply andb_true_iff in Ht as [Hk _]. cbn [items]. by repeat (constructor; [by destruct t|]).
  - destruct (tags_ok_sect t b' Ht) as [Hs Hb]. cbn [items]. constructor; [by destruct t|]. apply Forall_app_2; [|by repeat constructor].
    rewrite Forall_flat_map. rewrite !Forall_forall in *. auto.
Qed.

Lemma same_of_reads its texts : Forall2 reads its texts → Forall one_line texts → Forall (λ t, t ≠ []) texts → Forall2 same its texts.
Proof.
  induction 1 as [|p s its texts Hp _ IH]; intros H1 H2; [constructor|]. apply Forall_cons in H1 as [H1 H1'], H2 as [H2 H2']. constructor; [|by apply IH].
  pose proof (reads_text p s Hp) as E. split; [done|]. by rewrite E, one_line_text.
Qed.

(** C6. A configuration is read as it is written: for every text of an accepted document,
    with any blanks, directives and quoting, read_config returns its one element, whose
    subordinate elements are those of the sections in the reverse order of the file.  An
    accepted document passes the checks of the code and has no parameters (mca-params) in its
    controllers and schedulers, whose text does not fit into the block that is allocated for
    it. *)
Theorem read_config_document s : is_file [doc] s → read_config (Some s) = ret [config_xml b].
Proof.
  intros Hf. destruct accepted_spec as ((Ht & Hfi & _) & _ & Hr & Hty & Hpo). destruct (lex_file _ s Hf) as (its & Hlex & Hreads).
  destruct Hf as (Hsp & _). apply spells_one_line in Hsp. cbn [flat_map] in Hsp, Hreads. rewrite app_nil_r in Hsp, Hreads.
  assert (Forall2 same its (items doc)) as Hsame by (by apply same_of_reads; [done|done|apply tags_nonempty]).
  apply remove_empty_same in Hsame. pose proof (remove_empty_doc doc [] Ht Hfi) as Hre. rewrite app_nil_r in Hre. rewrite Hre in Hsame.
  change (remove_empty_items []) with (@nil ptr) in Hsame. rewrite app_nil_r in Hsame.
  unfold read_config. rewrite Hlex, bind_ret, (validity_same _ _ Hsame), validity_doc, opt_bind by done. change (negb (ORCM_SUCCESS =? ORCM_SUCCESS)) with false. cbv iota.
  rewrite (parse_document _ Hsame Hsp), bind_ret. pose proof (element_objs (config_xml b) [] [] (length (objs (config_xml b) 0))) as He.
  rewrite app_nil_r in He. cbn [app length] in He. rewrite He by (by rewrite length_objs). done.
Qed.

End document.

End XmlRead.
