(* ===== verification/Alloc.v ===== *)
(** * Allocations (orcm_alloc_t: scd_types.h, scd_dt_fns.c, alloc_con)

    The description of a session request, as the tools send it to the scheduler and
    the scheduler to the daemons; its wire format is a sequence of fields, each at
    a type of its own, and the list of its constraints. *)

From Stdlib Require Import ZArith Lia Ascii.
From stdpp Require Import prelude numbers strings gmap list.
From S2P Require Import Prelude CString Dss Fields Attr.

Local Open Scope Z_scope.

Module Alloc.
Import Dss Fields Attr.

Record orcm_alloc_t := mk_alloc {
  alloc_id : Z;
  alloc_priority : Z;
  account : option cstring;
  alloc_name : option cstring;
  gid : Z;
  max_nodes : Z;
  max_pes : Z;
  min_nodes : Z;
  min_pes : Z;
  begin : Z;
  walltime : Z;
  exclusive : bool;
  caller_uid : Z;
  caller_gid : Z;
  interactive : bool;
  originator : opal_process_name_t;
  hnp : opal_process_name_t;
  hnpname : option cstring;
  hnpuri : option cstring;
  parent_name : option cstring;
  parent_uri : option cstring;
  nodefile : option cstring;
  alloc_nodes : option cstring;
  alloc_queues : option cstring;
  batchfile : option cstring;
  notes : option cstring;
  constraints : list orte_attribute_t;
}.

Definition set_alloc_id (v : Z) (a : orcm_alloc_t) : orcm_alloc_t :=
  mk_alloc v (alloc_priority a) (account a) (alloc_name a) (gid a) (max_nodes a) (max_pes a)
    (min_nodes a) (min_pes a) (begin a) (walltime a) (exclusive a) (caller_uid a)
    (caller_gid a) (interactive a) (originator a) (hnp a) (hnpname a) (hnpuri a)
    (parent_name a) (parent_uri a) (nodefile a) (alloc_nodes a) (alloc_queues a) (batchfile
    a) (notes a) (constraints a).

Definition set_hnp (v : opal_process_name_t) (a : orcm_alloc_t) : orcm_alloc_t :=
  mk_alloc (alloc_id a) (alloc_priority a) (account a) (alloc_name a) (gid a) (max_nodes a)
    (max_pes a) (min_nodes a) (min_pes a) (begin a) (walltime a) (exclusive a) (caller_uid
    a) (caller_gid a) (interactive a) (originator a) v (hnpname a) (hnpuri a) (parent_name
    a) (parent_uri a) (nodefile a) (alloc_nodes a) (alloc_queues a) (batchfile a) (notes a)
    (constraints a).

Definition set_hnpname (v : option cstring) (a : orcm_alloc_t) : orcm_alloc_t :=
  mk_alloc (alloc_id a) (alloc_priority a) (account a) (alloc_name a) (gid a) (max_nodes a)
    (max_pes a) (min_nodes a) (min_pes a) (begin a) (walltime a) (exclusive a) (caller_uid
    a) (caller_gid a) (interactive a) (originator a) (hnp a) v (hnpuri a) (parent_name a)
    (parent_uri a) (nodefile a) (alloc_nodes a) (alloc_queues a) (batchfile a) (notes a)
    (constraints a).

Definition set_alloc_nodes (v : option cstring) (a : orcm_alloc_t) : orcm_alloc_t :=
  mk_alloc (alloc_id a) (alloc_priority a) (account a) (alloc_name a) (gid a) (max_nodes a)
    (max_pes a) (min_nodes a) (min_pes a) (begin a) (walltime a) (exclusive a) (caller_uid
    a) (caller_gid a) (interactive a) (originator a) (hnp a) (hnpname a) (hnpuri a)
    (parent_name a) (parent_uri a) (nodefile a) v (alloc_queues a) (batchfile a) (notes a)
    (constraints a).

Definition set_alloc_queues (v : option cstring) (a : orcm_alloc_t) : orcm_alloc_t :=
  mk_alloc (alloc_id a) (alloc_priority a) (account a) (alloc_name a) (gid a) (max_nodes a)
    (max_pes a) (min_nodes a) (min_pes a) (begin a) (walltime a) (exclusive a) (caller_uid
    a) (caller_gid a) (interactive a) (originator a) (hnp a) (hnpname a) (hnpuri a)
    (parent_name a) (parent_uri a) (nodefile a) (alloc_nodes a) v (batchfile a) (notes a)
    (constraints a).

Definition set_notes (v : option cstring) (a : orcm_alloc_t) : orcm_alloc_t :=
  mk_alloc (alloc_id a) (alloc_priority a) (account a) (alloc_name a) (gid a) (max_nodes a)
    (max_pes a) (min_nodes a) (min_pes a) (begin a) (walltime a) (exclusive a) (caller_uid
    a) (caller_gid a) (interactive a) (originator a) (hnp a) (hnpname a) (hnpuri a)
    (parent_name a) (parent_uri a) (nodefile a) (alloc_nodes a) (alloc_queues a) (batchfile
    a) v (constraints a).

Definition set_constraints (v : list orte_attribute_t) (a : orcm_alloc_t) : orcm_alloc_t :=
  mk_alloc (alloc_id a) (alloc_priority a) (account a) (alloc_name a) (gid a) (max_nodes a)
    (max_pes a) (min_nodes a) (min_pes a) (begin a) (walltime a) (exclusive a) (caller_uid
    a) (caller_gid a) (interactive a) (originator a) (hnp a) (hnpname a) (hnpuri a)
    (parent_name a) (parent_uri a) (nodefile a) (alloc_nodes a) (alloc_queues a) (batchfile
    a) (notes a) v.

(** The object as its constructor leaves it. *)
Definition alloc_con : orcm_alloc_t :=
  mk_alloc 0 0 None None 0 0 0 0 0 0 0 true 0 0 false (mk_name 0 0) (mk_name 0 0) None None
    None None None None None None None [].

(** ** Wire format *)

Section wire.
Context `{FloatText}.

Definition pack_sizes (a : orcm_alloc_t) : M unit :=
  _ ← opal_dss_pack_buffer t_int64 [alloc_id a];
  _ ← opal_dss_pack_buffer t_int32 [alloc_priority a];
  _ ← opal_dss_pack_buffer t_string [account a];
  _ ← opal_dss_pack_buffer t_string [alloc_name a];
  _ ← opal_dss_pack_buffer t_int32 [gid a];
  _ ← opal_dss_pack_buffer t_int32 [max_nodes a];
  _ ← opal_dss_pack_buffer t_int32 [max_pes a];
  _ ← opal_dss_pack_buffer t_int32 [min_nodes a];
  opal_dss_pack_buffer t_int32 [min_pes a].

Definition pack_caller (a : orcm_alloc_t) : M unit :=
  _ ← opal_dss_pack_buffer t_time [begin a];
  _ ← opal_dss_pack_buffer t_time [walltime a];
  _ ← opal_dss_pack_buffer t_bool [exclusive a];
  _ ← opal_dss_pack_buffer t_uint32 [caller_uid a];
  _ ← opal_dss_pack_buffer t_uint32 [caller_gid a];
  opal_dss_pack_buffer t_bool [interactive a].

Definition pack_procs (a : orcm_alloc_t) : M unit :=
  _ ← opal_dss_pack_buffer t_name [originator a];
  _ ← opal_dss_pack_buffer t_name [hnp a];
  _ ← opal_dss_pack_buffer t_string [hnpname a];
  _ ← opal_dss_pack_buffer t_string [hnpuri a];
  _ ← opal_dss_pack_buffer t_string [parent_name a];
  opal_dss_pack_buffer t_string [parent_uri a].

Definition pack_texts (a : orcm_alloc_t) : M unit :=
  _ ← opal_dss_pack_buffer t_string [nodefile a];
  _ ← opal_dss_pack_buffer t_string [alloc_nodes a];
  _ ← opal_dss_pack_buffer t_string [alloc_queues a];
  _ ← opal_dss_pack_buffer t_string [batchfile a];
  opal_dss_pack_buffer t_string [notes a].

Definition pack_constraints (a : orcm_alloc_t) : M unit :=
  let j := to_int (Z.of_nat (length (constraints a))) in
  _ ← opal_dss_pack_buffer t_int32 [j];
  if 0 <? j then pack_each (λ attr, opal_dss_pack_buffer t_attr [attr]) (constraints a) else mret tt.

Definition pack_one_alloc (a : orcm_alloc_t) : M unit :=
  _ ← pack_sizes a;
  _ ← pack_caller a;
  _ ← pack_procs a;
  _ ← pack_texts a;
  pack_constraints a.

Definition orcm_pack_alloc : list orcm_alloc_t → M unit := pack_each pack_one_alloc.

Definition unpack_sizes (a : orcm_alloc_t) : M orcm_alloc_t :=
  v_alloc_id ← unpack_field t_int64;
  v_alloc_priority ← unpack_field t_int32;
  v_account ← unpack_field t_string;
  v_alloc_name ← unpack_field t_string;
  v_gid ← unpack_field t_int32;
  v_max_nodes ← unpack_field t_int32;
  v_max_pes ← unpack_field t_int32;
  v_min_nodes ← unpack_field t_int32;
  v_min_pes ← unpack_field t_int32;
  mret (mk_alloc v_alloc_id v_alloc_priority v_account v_alloc_name v_gid v_max_nodes v_max_pes
    v_min_nodes v_min_pes (begin a) (walltime a) (exclusive a) (caller_uid a) (caller_gid
    a) (interactive a) (originator a) (hnp a) (hnpname a) (hnpuri a) (parent_name a)
    (parent_uri a) (nodefile a) (alloc_nodes a) (alloc_queues a) (batchfile a) (notes a)
    (constraints a)).

Definition unpack_caller (a : orcm_alloc_t) : M orcm_alloc_t :=
  v_begin ← unpack_field t_time;
  v_walltime ← unpack_field t_time;
  v_exclusive ← unpack_field t_bool;
  v_caller_uid ← unpack_field t_uint32;
  v_caller_gid ← unpack_field t_uint32;
  v_interactive ← unpack_field t_bool;
  mret (mk_alloc (alloc_id a) (alloc_priority a) (account a) (alloc_name a) (gid a) (max_nodes a)
    (max_pes a) (min_nodes a) (min_pes a) v_begin v_walltime v_exclusive v_caller_uid
    v_caller_gid v_interactive (originator a) (hnp a) (hnpname a) (hnpuri a) (parent_name
    a) (parent_uri a) (nodefile a) (alloc_nodes a) (alloc_queues a) (batchfile a) (notes
    a) (constraints a)).

Definition unpack_procs (a : orcm_alloc_t) : M orcm_alloc_t :=
  v_originator ← unpack_field t_name;
  v_hnp ← unpack_field t_name;
  v_hnpname ← unpack_field t_string;
  v_hnpuri ← unpack_field t_string;
  v_parent_name ← unpack_field t_string;
  v_parent_uri ← unpack_field t_string;
  mret (mk_alloc (alloc_id a) (alloc_priority a) (account a) (alloc_name a) (gid a) (max_nodes a)
    (max_pes a) (min_nodes a) (min_pes a) (begin a) (walltime a) (exclusive a) (caller_uid
    a) (caller_gid a) (interactive a) v_originator v_hnp v_hnpname v_hnpuri v_parent_name
    v_parent_uri (nodefile a) (alloc_nodes a) (alloc_queues a) (batchfile a) (notes a)
    (constraints a)).

Definition unpack_texts (a : orcm_alloc_t) : M orcm_alloc_t :=
  v_nodefile ← unpack_field t_string;
  v_alloc_nodes ← unpack_field t_string;
  v_alloc_queues ← unpack_field t_string;
  v_batchfile ← unpack_field t_string;
  v_notes ← unpack_field t_string;
  mret (mk_alloc (alloc_id a) (alloc_priority a) (account a) (alloc_name a) (gid a) (max_nodes a)
    (max_pes a) (min_nodes a) (min_pes a) (begin a) (walltime a) (exclusive a) (caller_uid
    a) (caller_gid a) (interactive a) (originator a) (hnp a) (hnpname a) (hnpuri a)
    (parent_name a) (parent_uri a) v_nodefile v_alloc_nodes v_alloc_queues v_batchfile
    v_notes (constraints a)).

Definition unpack_constraints (a : orcm_alloc_t) : M orcm_alloc_t :=
  j ← unpack_field t_int32;
  kvs ← unpack_each (unpack_field t_attr) j;
  mret (set_constraints (constraints a ++ kvs) a).

Definition unpack_one_alloc : M orcm_alloc_t :=
  a ← unpack_sizes alloc_con;
  a ← unpack_caller a;
  a ← unpack_procs a;
  a ← unpack_texts a;
  unpack_constraints a.

Definition orcm_unpack_alloc : Z → M (list orcm_alloc_t) := unpack_each unpack_one_alloc.

Definition ORCM_ALLOC : Z := OPAL_DSS_ID_DYNAMIC + 50 + 1.
Definition t_alloc : opal_dss_type_info_t orcm_alloc_t :=
  mk_info ORCM_ALLOC orcm_pack_alloc orcm_unpack_alloc.

(** ** Comparison *)

Definition orcm_compare_alloc (value1 value2 : orcm_alloc_t) : Z :=
  if alloc_priority value2 <? alloc_priority value1 then OPAL_VALUE1_GREATER
  else if alloc_priority value1 <? alloc_priority value2 then OPAL_VALUE2_GREATER
  else OPAL_EQUAL.

(** ** What travels *)

Record valid_alloc (a : orcm_alloc_t) : Prop := {
  va_alloc_id : in_s 64 (alloc_id a);
  va_alloc_priority : in_s 32 (alloc_priority a);
  va_account : valid_string (account a);
  va_alloc_name : valid_string (alloc_name a);
  va_gid : in_s 32 (gid a);
  va_max_nodes : in_s 32 (max_nodes a);
  va_max_pes : in_s 32 (max_pes a);
  va_min_nodes : in_s 32 (min_nodes a);
  va_min_pes : in_s 32 (min_pes a);
  va_begin : in_s 64 (begin a);
  va_walltime : in_s 64 (walltime a);
  va_caller_uid : in_u 32 (caller_uid a);
  va_caller_gid : in_u 32 (caller_gid a);
  va_originator : valid_name (originator a);
  va_hnp : valid_name (hnp a);
  va_hnpname : valid_string (hnpname a);
  va_hnpuri : valid_string (hnpuri a);
  va_parent_name : valid_string (parent_name a);
  va_parent_uri : valid_string (parent_uri a);
  va_nodefile : valid_string (nodefile a);
  va_alloc_nodes : valid_string (alloc_nodes a);
  va_alloc_queues : valid_string (alloc_queues a);
  va_batchfile : valid_string (batchfile a);
  va_notes : valid_string (notes a);
  va_constraints : Forall valid_attr (constraints a);
  va_count : Z.of_nat (length (constraints a)) ≤ INT_MAX;
}.

(** The allocation as its receiver sees it: every constraint has the default scope. *)
Definition received_alloc (a : orcm_alloc_t) : orcm_alloc_t :=
  set_constraints (received <$> constraints a) a.

Lemma one_attr d x : valid_attr x →
  meets d (opal_dss_pack_buffer t_attr [x]) (unpack_field t_attr) (received x).
Proof.
  intros Hx. apply meets_one, (carries_each _ _ _ received). apply Forall_singleton.
  by apply codec_one_attr.
Qed.

Lemma meets_constraints d a a0 : Forall valid_attr (constraints a) →
  Z.of_nat (length (constraints a)) ≤ INT_MAX →
  meets d (pack_constraints a) (unpack_constraints a0)
    (set_constraints (constraints a0 ++ (received <$> constraints a)) a0).
Proof.
  intros Hv Hl. unfold pack_constraints, unpack_constraints. rewrite to_int_small by lia.
  eapply meets_field; [apply codec_int32|unfold in_s, INT_MAX in *; simpl; lia|].
  apply (meets_map d _ _ (λ kvs, set_constraints (constraints a0 ++ kvs) a0)). destruct (Z.ltb_spec 0 (Z.of_nat (length (constraints a)))).
  - apply meets_each. eapply Forall_impl; [exact Hv|]. intros x. apply one_attr.
  - destruct (constraints a); [|simpl in *; lia]. by apply (meets_ret d []).
Qed.

Lemma meets_alloc d a : valid_alloc a → meets d (pack_one_alloc a) unpack_one_alloc (received_alloc a).
Proof.
  intros Ha. destruct a. destruct Ha. unfold pack_one_alloc, unpack_one_alloc. cbn in *.
  eapply meets_bind; [unfold pack_sizes, unpack_sizes; fields|cbn].
  eapply meets_bind; [unfold pack_caller, unpack_caller; fields|cbn].
  eapply meets_bind; [unfold pack_procs, unpack_procs; fields|cbn].
  eapply meets_bind; [unfold pack_texts, unpack_texts; fields|cbn].
  by eapply meets_constraints.
Qed.

Lemma alloc_carries d a : valid_alloc a → carries t_alloc d [a] [received_alloc a].
Proof. intros Ha. apply (carries_each _ _ _ received_alloc), Forall_singleton. by apply meets_alloc. Qed.

End wire.

(** ** Theorems *)

(** C11. An allocation sent by one process arrives whole at another: packing it with
    [opal_dss.pack] and unpacking the bytes with [opal_dss.unpack] gives back every field and
    every constraint, in either kind of buffer; only the scope of the constraints is not
    kept, all arrive with the default one. *)
Theorem orcm_alloc_round_trip `{FloatText} a b :
  valid_alloc a → unpack_off b = length (base b) →
  ∃ b1 b2, opal_dss_pack t_alloc [a] b = Some (b1, inr tt) ∧
    opal_dss_unpack t_alloc 1 b1 = Some (b2, (OPAL_SUCCESS, 1, [received_alloc a])) ∧
    remaining b2 = [].
Proof.
  intros Ha Ho. apply message_round_trip; [by apply alloc_carries|done].
Qed.

(** A session request of three nodes with a power constraint. *)
Definition sample_alloc : orcm_alloc_t :=
  set_alloc_nodes (Some (lit "n[2:1-3]"))
    (set_constraints [mk_attr 201 false OPAL_INT32 (D_num (-1))] (set_alloc_id 7 alloc_con)).

Lemma orcm_alloc_round_trip_witness :
  let ft := {| printf_f := print_int; strtof := λ s, (strtol s).1 |} in
  ∃ b1 b2, opal_dss_pack t_alloc [sample_alloc] (mk_buf false [] 0 0) = Some (b1, inr tt) ∧
    opal_dss_unpack t_alloc 1 b1 = Some (b2, (OPAL_SUCCESS, 1, [received_alloc sample_alloc])) ∧
    remaining b2 = [].
Proof.
  intros ft. apply (orcm_alloc_round_trip sample_alloc (mk_buf false [] 0 0)); [|done].
  split; try exact I; try (unfold valid_name, in_s, in_u; simpl; lia).
  - split; [done|]. forall_list.
  - apply Forall_cons_2; [|forall_list]. unfold valid_attr, valid_data, in_u. simpl.
    split_and!; (lia || done).
  - done.
Defined.

End Alloc.
