(* ===== verification/Scd.v ===== *)
(** * The scheduler's state and its state machines (orcm/mca/scd/base)

    The base of the scheduler: sessions, queues, nodes and trackers
    (scd_types.h, base.h, cfgi_types.h), the two tables of registered states and the
    activation of a state (scd_base_fns.c, scd_base_rm_fns.c), and the queues built from
    the configuration.

    Sessions and nodes are objects shared by reference: a queue is a list of session
    references, the pointer array holds node references, and the objects live in two
    heaps.  A session is a list item, so it can be on one list at a time: inserting it
    while it is on a queue corrupts both lists and is undefined ([None]), like the use of a
    NULL pointer.  Activating a state appends an event to the event base of its machine;
    each base runs its events one at a time, lowest priority number first and in order
    of activation, and the two bases interleave.  Reference counts and log output are
    not modelled. *)

From Stdlib Require Import ZArith Lia Ascii.
From stdpp Require Import prelude numbers strings gmap list.
From S2P Require Import Prelude PointerArray CString Argv Dss Attr Alloc.

Local Open Scope Z_scope.

Module Scd.
Import Dss Attr Alloc.

(** ** Constants *)

Definition ORCM_SUCCESS : Z := 0.
Definition ORCM_ERR_BAD_PARAM : Z := OPAL_ERR_BAD_PARAM.
Definition ORCM_ERR_NOT_FOUND : Z := OPAL_ERR_NOT_FOUND.

Definition ORCM_NODE_STATE_UNDEF : Z := 0.
Definition ORCM_NODE_STATE_UNKNOWN : Z := 1.
Definition ORCM_NODE_STATE_UP : Z := 2.
Definition ORCM_NODE_STATE_DOWN : Z := 3.
Definition ORCM_NODE_STATE_SESTERM : Z := 4.
Definition ORCM_NODE_STATE_DRAIN : Z := 5.
Definition ORCM_NODE_STATE_RESUME : Z := 6.

Definition ORCM_SCD_NODE_STATE_UNDEF : Z := 0.
Definition ORCM_SCD_NODE_STATE_UNKNOWN : Z := 1.
Definition ORCM_SCD_NODE_STATE_UNALLOC : Z := 2.
Definition ORCM_SCD_NODE_STATE_ALLOC : Z := 3.
Definition ORCM_SCD_NODE_STATE_EXCLUSIVE : Z := 4.

Definition ORCM_SESSION_STATE_UNDEF : Z := 0.
Definition ORCM_SESSION_STATE_REQ : Z := 1.
Definition ORCM_SESSION_STATE_ACTIVE : Z := 2.
Definition ORCM_SESSION_STATE_KILL : Z := 3.
Definition ORCM_SESSION_STATE_INIT : Z := 1.
Definition ORCM_SESSION_STATE_SCHEDULE : Z := 2.
Definition ORCM_SESSION_STATE_ALLOCD : Z := 3.
Definition ORCM_SESSION_STATE_TERMINATED : Z := 4.
Definition ORCM_SESSION_STATE_CANCEL : Z := 5.
Definition ORCM_SESSION_STATE_ANY : Z := 10.
Definition ORCM_SESSION_STATE_ERROR : Z := 20.

Definition ORTE_SYS_PRI : Z := 4.
Definition ORCM_SCHED_PRI : Z := 1.

(** ** Data *)

(** The fields of a session the scheduler reads ([steps], [uid] and [requestor] are
    never used). *)
Record orcm_session_t := mk_session {
  session_id : Z;
  session_alloc : option orcm_alloc_t;
}.

Definition sess_con : orcm_session_t := mk_session 0 None.

(** The contents of an hwloc topology, up to the comparison the code makes. *)
Definition topology : Type := Z.

Record orcm_node_t := mk_node {
  node_name : cstring;
  daemon : opal_process_name_t;
  node_state : Z;
  scd_state : Z;
  node_topology : option nat;
}.

Record orcm_queue_t := mk_queue {
  queue_name : cstring;
  queue_priority : Z;
  queue_sessions : list nat;
}.

Record orcm_alloc_tracker_t := mk_tracker { trk_alloc_id : Z; count_checked_in : Z }.

(** The functions registered for the states. *)
Inductive cbfunc :=
  | cb_fifo_undef | cb_fifo_find_queue | cb_fifo_schedule
  | cb_fifo_allocated | cb_fifo_terminated | cb_fifo_cancel
  | cb_rm_undef | cb_rm_request | cb_rm_active | cb_rm_kill
  | cb_construct_queues.

(** The registration of a state, in either table. *)
Record orcm_scd_state_t := mk_state {
  st_state : Z;
  st_cbfunc : option cbfunc;
  st_priority : Z;
}.

(** What an event carries: a session, or the configuration of the queues. *)
Inductive caddy_t := session_caddy (r : nat) | scheduler_caddy (queues : option (list cstring)).

Record event_t := mk_event { ev_cb : cbfunc; ev_caddy : caddy_t; ev_priority : Z }.

(** A message handed to the transport. *)
Record rml_msg_t := mk_msg { msg_dest : opal_process_name_t; msg_tag : Z; msg_buf : opal_buffer_t }.

Record orcm_scd_base_t := mk_scd {
  states : list orcm_scd_state_t;
  rmstates : list orcm_scd_state_t;
  queues : list orcm_queue_t;
  nodes : PA.opal_pointer_array_t nat;
  node_heap : gmap nat orcm_node_t;
  topologies : PA.opal_pointer_array_t nat;
  topo_heap : gmap nat topology;
  tracking : list orcm_alloc_tracker_t;
  session_heap : gmap nat orcm_session_t;
  last_session_id : Z;
  scd_events : list event_t;
  rm_events : list event_t;
  sent : list rml_msg_t;
}.

Definition set_states (v : list orcm_scd_state_t) (st : orcm_scd_base_t) : orcm_scd_base_t :=
  mk_scd v (rmstates st) (queues st) (nodes st) (node_heap st) (topologies st) (topo_heap
    st) (tracking st) (session_heap st) (last_session_id st) (scd_events st) (rm_events st)
    (sent st).

Definition set_rmstates (v : list orcm_scd_state_t) (st : orcm_scd_base_t) : orcm_scd_base_t :=
  mk_scd (states st) v (queues st) (nodes st) (node_heap st) (topologies st) (topo_heap st)
    (tracking st) (session_heap st) (last_session_id st) (scd_events st) (rm_events st)
    (sent st).

Definition set_queues (v : list orcm_queue_t) (st : orcm_scd_base_t) : orcm_scd_base_t :=
  mk_scd (states st) (rmstates st) v (nodes st) (node_heap st) (topologies st) (topo_heap
    st) (tracking st) (session_heap st) (last_session_id st) (scd_events st) (rm_events st)
    (sent st).

Definition set_nodes (v : PA.opal_pointer_array_t nat) (st : orcm_scd_base_t) : orcm_scd_base_t :=
  mk_scd (states st) (rmstates st) (queues st) v (node_heap st) (topologies st) (topo_heap
    st) (tracking st) (session_heap st) (last_session_id st) (scd_events st) (rm_events st)
    (sent st).

Definition set_node_heap (v : gmap nat orcm_node_t) (st : orcm_scd_base_t) : orcm_scd_base_t :=
  mk_scd (states st) (rmstates st) (queues st) (nodes st) v (topologies st) (topo_heap st)
    (tracking st) (session_heap st) (last_session_id st) (scd_events st) (rm_events st)
    (sent st).

Definition set_topologies (v : PA.opal_pointer_array_t nat) (st : orcm_scd_base_t) : orcm_scd_base_t :=
  mk_scd (states st) (rmstates st) (queues st) (nodes st) (node_heap st) v (topo_heap st)
    (tracking st) (session_heap st) (last_session_id st) (scd_events st) (rm_events st)
    (sent st).

Definition set_topo_heap (v : gmap nat topology) (st : orcm_scd_base_t) : orcm_scd_base_t :=
  mk_scd (states st) (rmstates st) (queues st) (nodes st) (node_heap st) (topologies st) v
    (tracking st) (session_heap st) (last_session_id st) (scd_events st) (rm_events st)
    (sent st).

Definition set_tracking (v : list orcm_alloc_tracker_t) (st : orcm_scd_base_t) : orcm_scd_base_t :=
  mk_scd (states st) (rmstates st) (queues st) (nodes st) (node_heap st) (topologies st)
    (topo_heap st) v (session_heap st) (last_session_id st) (scd_events st) (rm_events st)
    (sent st).

Definition set_session_heap (v : gmap nat orcm_session_t) (st : orcm_scd_base_t) : orcm_scd_base_t :=
  mk_scd (states st) (rmstates st) (queues st) (nodes st) (node_heap st) (topologies st)
    (topo_heap st) (tracking st) v (last_session_id st) (scd_events st) (rm_events st) (sent
    st).

Definition set_last_session_id (v : Z) (st : orcm_scd_base_t) : orcm_scd_base_t :=
  mk_scd (states st) (rmstates st) (queues st) (nodes st) (node_heap st) (topologies st)
    (topo_heap st) (tracking st) (session_heap st) v (scd_events st) (rm_events st) (sent
    st).

Definition set_scd_events (v : list event_t) (st : orcm_scd_base_t) : orcm_scd_base_t :=
  mk_scd (states st) (rmstates st) (queues st) (nodes st) (node_heap st) (topologies st)
    (topo_heap st) (tracking st) (session_heap st) (last_session_id st) v (rm_events st)
    (sent st).

Definition set_rm_events (v : list event_t) (st : orcm_scd_base_t) : orcm_scd_base_t :=
  mk_scd (states st) (rmstates st) (queues st) (nodes st) (node_heap st) (topologies st)
    (topo_heap st) (tracking st) (session_heap st) (last_session_id st) (scd_events st) v
    (sent st).

Definition set_sent (v : list rml_msg_t) (st : orcm_scd_base_t) : orcm_scd_base_t :=
  mk_scd (states st) (rmstates st) (queues st) (nodes st) (node_heap st) (topologies st)
    (topo_heap st) (tracking st) (session_heap st) (last_session_id st) (scd_events st)
    (rm_events st) v.

#[export] Instance eta_cbfunc : EqDecision cbfunc.
Proof. solve_decision. Defined.

(** ** Objects *)

Definition new_session (s : orcm_session_t) (st : orcm_scd_base_t) : nat * orcm_scd_base_t :=
  let r := fresh (dom (session_heap st)) in (r, set_session_heap (<[r := s]> (session_heap st)) st).

Definition get_alloc (st : orcm_scd_base_t) (r : nat) : option orcm_alloc_t :=
  s ← session_heap st !! r; session_alloc s.

(** [session->alloc->field = ...] *)
Definition upd_alloc (r : nat) (f : orcm_alloc_t → orcm_alloc_t) (st : orcm_scd_base_t) : option orcm_scd_base_t :=
  s ← session_heap st !! r;
  a ← session_alloc s;
  Some (set_session_heap (<[r := mk_session (session_id s) (Some (f a))]> (session_heap st)) st).

Definition upd_node (r : nat) (f : orcm_node_t → orcm_node_t) (st : orcm_scd_base_t) : orcm_scd_base_t :=
  set_node_heap (alter f r (node_heap st)) st.

(** [for (i = 0; i < array.size; i++) if (NULL == (p = get_item(&array, i))) continue; ...]:
    the pointers such a loop visits. *)
Fixpoint items_from {A} (t : PA.opal_pointer_array_t A) (i : nat) (n : nat) : option (list A) :=
  match n with
  | O => Some []
  | S n' =>
    p ← PA.opal_pointer_array_get_item t (Z.of_nat i);
    l ← items_from t (S i) n';
    Some (match p with Some a => a :: l | None => l end)
  end.

Definition items {A} (t : PA.opal_pointer_array_t A) : option (list A) :=
  items_from t 0 (Z.to_nat (PA.size t)).

(** *** Lists of sessions *)

(** A session object on a list of the scheduler. *)
Definition on_a_list (st : orcm_scd_base_t) (r : nat) : bool :=
  existsb (λ q, bool_decide (r ∈ queue_sessions q)) (queues st).

Definition set_sessions (l : list nat) (q : orcm_queue_t) : orcm_queue_t :=
  mk_queue (queue_name q) (queue_priority q) l.

Definition upd_queue (i : nat) (f : list nat → list nat) (st : orcm_scd_base_t) : orcm_scd_base_t :=
  set_queues (alter (λ q, set_sessions (f (queue_sessions q)) q) i (queues st)) st.

(** The first queue with the name, as the loops with [strcmp] and [break] find it. *)
Fixpoint find_named (name : cstring) (qs : list orcm_queue_t) : option nat :=
  match qs with
  | [] => None
  | q :: rest => if bool_decide (queue_name q = name) then Some 0%nat else S <$> find_named name rest
  end.

Definition append_session (i r : nat) (st : orcm_scd_base_t) : option orcm_scd_base_t :=
  if on_a_list st r then None else Some (upd_queue i (λ l, l ++ [r]) st).

Definition prepend_session (i r : nat) (st : orcm_scd_base_t) : option orcm_scd_base_t :=
  if on_a_list st r then None else Some (upd_queue i (λ l, r :: l) st).

(** ** Activating a state *)

(** The scan of a table: the first entry for the state, and the last markers seen
    before it. *)
Fixpoint scan_states (tbl : list orcm_scd_state_t) (state : Z) (any error : option orcm_scd_state_t)
    : option orcm_scd_state_t * option orcm_scd_state_t * option orcm_scd_state_t :=
  match tbl with
  | [] => (None, any, error)
  | s :: rest =>
    if st_state s =? ORCM_SESSION_STATE_ANY then scan_states rest state (Some s) error
    else if st_state s =? ORCM_SESSION_STATE_ERROR then scan_states rest state any (Some s)
    else if st_state s =? state then (Some s, any, error)
    else scan_states rest state any error
  end.

(** The event a state activates for a session, if any. *)
Definition activation (tbl : list orcm_scd_state_t) (r : nat) (state : Z) : option event_t :=
  let fire (s : orcm_scd_state_t) :=
    cb ← st_cbfunc s; Some (mk_event cb (session_caddy r) (st_priority s)) in
  match scan_states tbl state None None with
  | (Some s, _, _) => fire s
  | (None, any, error) =>
    match (if ORCM_SESSION_STATE_ERROR <? state then error else None) with
    | Some s => fire s
    | None => s ← any; fire s
    end
  end.

Definition orcm_scd_base_activate_session_state (r : nat) (state : Z) (st : orcm_scd_base_t) : orcm_scd_base_t :=
  match activation (states st) r state with
  | Some e => set_scd_events (scd_events st ++ [e]) st
  | None => st
  end.

Definition orcm_scd_base_rm_activate_session_state (r : nat) (state : Z) (st : orcm_scd_base_t) : orcm_scd_base_t :=
  match activation (rmstates st) r state with
  | Some e => set_rm_events (rm_events st ++ [e]) st
  | None => st
  end.

Definition add_state (tbl : list orcm_scd_state_t) (state : Z) (cb : option cbfunc) (priority : Z)
    : list orcm_scd_state_t * Z :=
  if existsb (λ s, st_state s =? state) tbl then (tbl, ORCM_ERR_BAD_PARAM)
  else (tbl ++ [mk_state state cb priority], ORCM_SUCCESS).

Definition orcm_scd_base_add_session_state (state : Z) (cb : option cbfunc) (priority : Z)
    (st : orcm_scd_base_t) : orcm_scd_base_t * Z :=
  let (tbl, rc) := add_state (states st) state cb priority in (set_states tbl st, rc).

Definition orcm_scd_base_rm_add_session_state (state : Z) (cb : option cbfunc) (priority : Z)
    (st : orcm_scd_base_t) : orcm_scd_base_t * Z :=
  let (tbl, rc) := add_state (rmstates st) state cb priority in (set_rmstates tbl st, rc).

(** ** Queues from the configuration *)

(** [opal_list_insert_pos] before the first queue of lower priority; no queue is
    inserted when there is none. *)
Fixpoint insert_by_priority (q : orcm_queue_t) (qs : list orcm_queue_t) : list orcm_queue_t :=
  match qs with
  | [] => []
  | q2 :: rest => if queue_priority q2 <? queue_priority q then q :: q2 :: rest
                  else q2 :: insert_by_priority q rest
  end.

(** One entry [name:priority:...] of the configuration; [None] when it does not have
    three parts, which ends the function. *)
Definition queue_of_config (entry : cstring) : option orcm_queue_t :=
  match Argv.opal_argv_split entry COLON with
  | Some [name; pri; _] => Some (mk_queue name (to_int (strtol pri).1) [])
  | _ => None
  end.

Fixpoint configured_queues (entries : list cstring) (qs : list orcm_queue_t) : list orcm_queue_t :=
  match entries with
  | [] => qs
  | e :: rest => match queue_of_config e with
                 | None => qs
                 | Some q => configured_queues rest (insert_by_priority q qs)
                 end
  end.

Definition base_queues : list orcm_queue_t :=
  [mk_queue (lit "running") 0 []; mk_queue (lit "hold") 0 []; mk_queue (lit "default") 0 []].

Definition orcm_scd_base_construct_queues (config : option (list cstring)) (st : orcm_scd_base_t) : orcm_scd_base_t :=
  set_queues (configured_queues (default [] config) (queues st ++ base_queues)) st.

Definition ORCM_CONSTRUCT_QUEUES (config : option (list cstring)) (st : orcm_scd_base_t) : orcm_scd_base_t :=
  set_scd_events (scd_events st ++ [mk_event cb_construct_queues (scheduler_caddy config) ORCM_SCHED_PRI]) st.

(** ** Session identifiers *)

(** A 32-bit counter. *)
Definition orcm_scd_base_get_next_session_id (st : orcm_scd_base_t) : Z * orcm_scd_base_t :=
  let id := uwrap 32 (last_session_id st + 1) in (id, set_last_session_id id st).

(** ** The interfaces the handlers use *)

(** Compressed node lists (orte/util/regex.c): an error code or a value. *)
Class NodeRegex := {
  regex_create : cstring → option (Z + cstring);
  regex_extract : option cstring → option (Z * list cstring);
}.

(** What the scheduler relies on: a list of acceptable names is compressed, and the
    result stands for the same names. *)
Class NodeRegexLaws `{NodeRegex} (good : cstring → Prop) := {
  regex_round_trip names : names ≠ [] → Forall good names →
    ∃ r names', regex_create (Argv.join_ref COMMA names) = Some (inr r) ∧
      regex_extract (Some r) = Some (OPAL_SUCCESS, names') ∧ names' ≡ₚ names;
  regex_error_name : regex_extract (Some (lit "ERROR")) = Some (OPAL_SUCCESS, [lit "ERROR"]);
}.

(** The transport: the code it answers to one more message, after those it took. *)
Class Rml := rml_send_rc : list rml_msg_t → rml_msg_t → Z.

End Scd.
