(* ===== verification/ScdFifo.v ===== *)
(** * The FIFO scheduler and the resource manager (scd_fifo.c, scd_base_rm.c)

    The handlers of the two state machines, in the order a session meets them:
    [fifo_find_queue] puts it on a queue, [fifo_schedule] takes the head of the default queue
    when enough nodes are free, [scd_base_rm_request] chooses the nodes,
    [fifo_allocated] puts the session on the running queue and marks the nodes,
    [scd_base_rm_active] sends it to the daemons, [fifo_terminated] gives the nodes back;
    [fifo_cancel] and [scd_base_rm_kill] stop it early.  A handler maps a state to
    the state it leaves; [None] is undefined behaviour. *)

From Stdlib Require Import ZArith Lia Ascii.
From stdpp Require Import prelude numbers strings gmap list.
From S2P Require Import Prelude PointerArray CString Argv Dss Attr Alloc Scd.

Local Open Scope Z_scope.

Module ScdFifo.
Import Dss Attr Alloc Scd.

Definition ORCM_LAUNCH_STEPD_COMMAND : Z := 5.
Definition ORCM_CANCEL_STEPD_COMMAND : Z := 6.

(** The tags of the scheduler's messages, counted from ORTE_RML_TAG_MAX. *)
Definition ORCM_RML_TAG_SCD : Z := 1.
Definition ORCM_RML_TAG_RM : Z := 2.

Section handlers.
Context `{FloatText} `{NodeRegex} `{Rml}.
Implicit Types st : orcm_scd_base_t.

Abbreviation activate_scd := orcm_scd_base_activate_session_state.
Abbreviation activate_rm := orcm_scd_base_rm_activate_session_state.

(** ** fifo_find_queue *)

(** Put the session on the queue with the name, if there is one, and run the scheduler. *)
Definition enqueue (name : cstring) (r : nat) st : option orcm_scd_base_t :=
  match find_named name (queues st) with
  | None => Some st
  | Some i =>
    st ← upd_alloc r (set_alloc_queues (Some name)) st;
    st ← append_session i r st;
    Some (activate_scd r ORCM_SESSION_STATE_SCHEDULE st)
  end.

Definition exceeds_note (n : option cstring) : option cstring :=
  Some (match n with
        | Some n => n ++ lit ", session request exceeds defined resources"
        | None => lit "session exceeds resources"
        end).

Definition fifo_find_queue (r : nat) st : option orcm_scd_base_t :=
  a ← get_alloc st r;
  defined ← ck_int (PA.size (nodes st) - PA.number_free (nodes st));
  if defined <? min_nodes a then
    st ← enqueue (lit "hold") r st;
    upd_alloc r (λ a, set_notes (exceeds_note (notes a)) a) st
  else enqueue (lit "default") r st.

(** ** fifo_schedule *)

(** Unallocated and up. *)
Definition is_free (n : orcm_node_t) : bool :=
  (scd_state n =? ORCM_SCD_NODE_STATE_UNALLOC) && (node_state n =? ORCM_NODE_STATE_UP).

Fixpoint count_free (refs : list nat) (heap : gmap nat orcm_node_t) (free_nodes : Z) : option Z :=
  match refs with
  | [] => Some free_nodes
  | r :: rest =>
    n ← heap !! r;
    free_nodes ← (if is_free n then ck_int (free_nodes + 1) else Some free_nodes);
    count_free rest heap free_nodes
  end.

(** The loop over the queues: it does not stop at the default queue, it ends the
    function when the default queue is empty. *)
Fixpoint schedule_loop (n i : nat) st : option orcm_scd_base_t :=
  match n with
  | O => Some st
  | S n' =>
    q ← queues st !! i;
    if bool_decide (queue_name q = lit "default") then
      match queue_sessions q with
      | [] => Some st
      | s :: rest =>
        let st := upd_queue i (λ _, rest) st in
        refs ← items (nodes st);
        free_nodes ← count_free refs (node_heap st) 0;
        a ← get_alloc st s;
        st ← (if min_nodes a <=? free_nodes
              then Some (activate_rm s ORCM_SESSION_STATE_REQ st)
              else prepend_session i s st);
        schedule_loop n' (S i) st
      end
    else schedule_loop n' (S i) st
  end.

Definition fifo_schedule (_ : nat) st : option orcm_scd_base_t :=
  schedule_loop (length (queues st)) 0 st.

(** ** scd_base_rm_request *)

(** The comma-separated names of the nodes taken, and how many are still missing. *)
Fixpoint collect_nodes (refs : list nat) (heap : gmap nat orcm_node_t) (num_nodes : Z)
    (nodelist : option cstring) : option (option cstring * Z) :=
  match refs with
  | [] => Some (nodelist, num_nodes)
  | r :: rest =>
    n ← heap !! r;
    if is_free n then
      let nodelist := match nodelist with
                      | Some l => Some (l ++ [COMMA] ++ node_name n)
                      | None => Some (node_name n)
                      end in
      let num_nodes := num_nodes - 1 in
      if num_nodes =? 0 then Some (nodelist, num_nodes) else collect_nodes rest heap num_nodes nodelist
    else collect_nodes rest heap num_nodes nodelist
  end.

Definition scd_base_rm_request (r : nat) st : option orcm_scd_base_t :=
  a ← get_alloc st r;
  let num_nodes := min_nodes a in
  if 0 <? num_nodes then
    refs ← items (nodes st);
    '(nodelist, num_nodes) ← collect_nodes refs (node_heap st) num_nodes None;
    st ← (if num_nodes =? 0 then
            l ← nodelist;
            res ← regex_create l;
            upd_alloc r (set_alloc_nodes (Some (match res with
                                                | inl _ => lit "ERROR"
                                                | inr noderegex => noderegex
                                                end))) st
          else Some st);
    Some (activate_scd r ORCM_SESSION_STATE_ALLOCD st)
  else Some st.

(** ** Marking nodes *)

Definition set_scd_state (v : Z) (n : orcm_node_t) : orcm_node_t :=
  mk_node (node_name n) (daemon n) (node_state n) v (node_topology n).

(** The inner loop: every node with the name. *)
Fixpoint mark_named (name : cstring) (v : Z) (refs : list nat) (heap : gmap nat orcm_node_t)
    : option (gmap nat orcm_node_t) :=
  match refs with
  | [] => Some heap
  | r :: rest =>
    n ← heap !! r;
    mark_named name v rest
      (if bool_decide (node_name n = name) then <[r := set_scd_state v n]> heap else heap)
  end.

Fixpoint mark_nodes (nodenames : list cstring) (v : Z) (refs : list nat) (heap : gmap nat orcm_node_t)
    : option (gmap nat orcm_node_t) :=
  match nodenames with
  | [] => Some heap
  | name :: rest => heap ← mark_named name v refs heap; mark_nodes rest v refs heap
  end.

(** ** fifo_allocated *)

(** The ERROR label: take the first session off the running queue and put this one
    at the front of the default queue. *)
Definition allocated_error (r : nat) st : option orcm_scd_base_t :=
  let st := match find_named (lit "running") (queues st) with
            | Some i => upd_queue i tail st
            | None => st
            end in
  match find_named (lit "default") (queues st) with
  | None => Some st
  | Some i => st ← prepend_session i r st; Some (activate_scd r ORCM_SESSION_STATE_SCHEDULE st)
  end.

Definition put_on_running (r : nat) st : option orcm_scd_base_t :=
  match find_named (lit "running") (queues st) with
  | None => Some st
  | Some i =>
    st ← upd_alloc r (set_alloc_queues (Some (lit "running"))) st;
    append_session i r st
  end.

Definition fifo_allocated (r : nat) st : option orcm_scd_base_t :=
  _ ← get_alloc st r;
  st ← put_on_running r st;
  a ← get_alloc st r;
  list ← alloc_nodes a;
  if bool_decide (list = lit "ERROR") then allocated_error r st else
  let st := activate_rm r ORCM_SESSION_STATE_ACTIVE st in
  '(rc, nodenames) ← regex_extract (Some list);
  if negb (rc =? OPAL_SUCCESS) then allocated_error r st else
  if negb (Z.of_nat (length nodenames) =? min_nodes a) then allocated_error r st else
  refs ← items (nodes st);
  heap ← mark_nodes nodenames ORCM_SCD_NODE_STATE_ALLOC refs (node_heap st);
  Some (set_node_heap heap st).

(** ** scd_base_rm_active and scd_base_rm_kill *)

(** A new buffer with a command and the allocation. *)
Definition pack_command (command : Z) (a : orcm_alloc_t) : option (Z + opal_buffer_t) :=
  match opal_dss_pack t_uint8 [command] (mk_buf false [] 0 0) with
  | None => None
  | Some (_, inl rc) => Some (inl rc)
  | Some (buf, inr _) =>
    match opal_dss_pack t_alloc [a] buf with
    | None => None
    | Some (_, inl rc) => Some (inl rc)
    | Some (buf, inr _) => Some (inr buf)
    end
  end.

(** [orte_rml.send_buffer_nb]: whether the transport took the message. *)
Definition send_buffer_nb (dest : opal_process_name_t) (tag : Z) (buf : opal_buffer_t) st : orcm_scd_base_t * bool :=
  let m := mk_msg dest tag buf in
  if rml_send_rc (sent st) m =? OPAL_SUCCESS then (set_sent (sent st ++ [m]) st, true) else (st, false).

(** The loop over the nodes for the name at position [i]; the boolean says that the
    function has not returned.  [active] also records the daemon of the first node. *)
Fixpoint tell_named (command : Z) (r i : nat) (nodenames : list cstring) (refs : list nat) st
    : option (orcm_scd_base_t * bool) :=
  match refs with
  | [] => Some (st, true)
  | j :: rest =>
    n ← node_heap st !! j;
    name ← nodenames !! i;
    if bool_decide (node_name n = name) then
      st ← (if (command =? ORCM_LAUNCH_STEPD_COMMAND) && (i =? 0)%nat
            then upd_alloc r (set_hnp (daemon n)) st else Some st);
      a ← get_alloc st r;
      buf ← pack_command command a;
      match buf with
      | inl _ => Some (st, false)
      | inr buf =>
        let (st, ok) := send_buffer_nb (daemon n) ORCM_RML_TAG_RM buf st in
        if ok then tell_named command r i nodenames rest st else Some (st, false)
      end
    else tell_named command r i nodenames rest st
  end.

Fixpoint tell_nodes (command : Z) (r n i : nat) (nodenames : list cstring) (refs : list nat) st
    : option orcm_scd_base_t :=
  match n with
  | O => Some st
  | S n' =>
    '(st, go) ← tell_named command r i nodenames refs st;
    if go : bool then tell_nodes command r n' (S i) nodenames refs st else Some st
  end.

Definition scd_base_rm_active (r : nat) st : option orcm_scd_base_t :=
  a ← get_alloc st r;
  '(rc, nodenames) ← regex_extract (alloc_nodes a);
  if negb (rc =? ORCM_SUCCESS) then Some st else
  match nodenames with
  | [] => Some st
  | first :: _ =>
    st ← upd_alloc r (set_hnpname (Some first)) st;
    s ← session_heap st !! r;
    let st := set_tracking (tracking st ++ [mk_tracker (to_int (session_id s)) 0]) st in
    refs ← items (nodes st);
    tell_nodes ORCM_LAUNCH_STEPD_COMMAND r (Z.to_nat (min_nodes a)) 0 nodenames refs st
  end.

Definition scd_base_rm_kill (r : nat) st : option orcm_scd_base_t :=
  a ← get_alloc st r;
  '(rc, nodenames) ← regex_extract (alloc_nodes a);
  if negb (rc =? ORCM_SUCCESS) then Some st else
  match nodenames with
  | [] => Some st
  | _ =>
    refs ← items (nodes st);
    tell_nodes ORCM_CANCEL_STEPD_COMMAND r (Z.to_nat (min_nodes a)) 0 nodenames refs st
  end.

(** ** fifo_terminated *)

(** The loop over a queue that removes the items it visits: each item is unlinked
    and keeps its own link, so the loop goes on at the next one. *)
Fixpoint remove_id (id : Z) (l : list nat) (heap : gmap nat orcm_session_t) : option (list nat) :=
  match l with
  | [] => Some []
  | r :: rest =>
    s ← heap !! r;
    rest ← remove_id id rest heap;
    Some (if session_id s =? id then rest else r :: rest)
  end.

Definition remove_running (id : Z) st : option orcm_scd_base_t :=
  match find_named (lit "running") (queues st) with
  | None => Some st
  | Some i =>
    q ← queues st !! i;
    l ← remove_id id (queue_sessions q) (session_heap st);
    Some (upd_queue i (λ _, l) st)
  end.

Definition fifo_terminated (r : nat) st : option orcm_scd_base_t :=
  a ← get_alloc st r;
  '(rc, nodenames) ← regex_extract (alloc_nodes a);
  if negb (rc =? ORCM_SUCCESS) then Some st else
  refs ← items (nodes st);
  heap ← mark_nodes nodenames ORCM_SCD_NODE_STATE_UNALLOC refs (node_heap st);
  let st := set_node_heap heap st in
  s ← session_heap st !! r;
  st ← remove_running (session_id s) st;
  Some (activate_scd r ORCM_SESSION_STATE_SCHEDULE st).

(** ** fifo_cancel *)

(** The first session of the queue with the identifier. *)
Fixpoint find_id (id : Z) (l : list nat) (heap : gmap nat orcm_session_t) : option (option nat) :=
  match l with
  | [] => Some None
  | r :: rest =>
    s ← heap !! r;
    if session_id s =? id then Some (Some r) else find_id id rest heap
  end.

Definition remove_item (s : nat) (l : list nat) : list nat := filter (λ x, x ≠ s) l.

Fixpoint cancel_loop (n i : nat) (r : nat) (id : Z) st : option orcm_scd_base_t :=
  match n with
  | O => Some st
  | S n' =>
    q ← queues st !! i;
    found ← find_id id (queue_sessions q) (session_heap st);
    let st :=
      match found with
      | None => st
      | Some s =>
        if bool_decide (queue_name q = lit "running")
        then activate_rm s ORCM_SESSION_STATE_KILL st
        else activate_scd r ORCM_SESSION_STATE_SCHEDULE (upd_queue i (remove_item s) st)
      end in
    cancel_loop n' (S i) r id st
  end.

Definition fifo_cancel (r : nat) st : option orcm_scd_base_t :=
  s ← session_heap st !! r;
  cancel_loop (length (queues st)) 0 r (session_id s) st.

(** ** Running events *)

Definition run_handler (cb : cbfunc) (c : caddy_t) st : option orcm_scd_base_t :=
  match cb, c with
  | cb_construct_queues, scheduler_caddy config => Some (orcm_scd_base_construct_queues config st)
  | cb_construct_queues, _ => None
  | _, scheduler_caddy _ => None
  | cb_fifo_undef, session_caddy _ => Some st
  | cb_fifo_find_queue, session_caddy r => fifo_find_queue r st
  | cb_fifo_schedule, session_caddy r => fifo_schedule r st
  | cb_fifo_allocated, session_caddy r => fifo_allocated r st
  | cb_fifo_terminated, session_caddy r => fifo_terminated r st
  | cb_fifo_cancel, session_caddy r => fifo_cancel r st
  | cb_rm_undef, session_caddy _ => Some st
  | cb_rm_request, session_caddy r => scd_base_rm_request r st
  | cb_rm_active, session_caddy r => scd_base_rm_active r st
  | cb_rm_kill, session_caddy r => scd_base_rm_kill r st
  end.

(** The event a base runs next: the first of the lowest priority number. *)
Fixpoint next_event (l : list event_t) : option (event_t * list event_t) :=
  match l with
  | [] => None
  | e :: rest =>
    match next_event rest with
    | Some (e', rest') => if ev_priority e' <? ev_priority e then Some (e', e :: rest') else Some (e, rest)
    | None => Some (e, [])
    end
  end.

(** One turn of the scheduler's thread and of the main thread. *)
Definition scd_turn st : option orcm_scd_base_t :=
  '(e, rest) ← next_event (scd_events st);
  run_handler (ev_cb e) (ev_caddy e) (set_scd_events rest st).

Definition rm_turn st : option orcm_scd_base_t :=
  '(e, rest) ← next_event (rm_events st);
  run_handler (ev_cb e) (ev_caddy e) (set_rm_events rest st).

(** ** Initialisation *)

Definition fifo_states : list (Z * cbfunc) :=
  [(ORCM_SESSION_STATE_UNDEF, cb_fifo_undef); (ORCM_SESSION_STATE_INIT, cb_fifo_find_queue);
   (ORCM_SESSION_STATE_SCHEDULE, cb_fifo_schedule); (ORCM_SESSION_STATE_ALLOCD, cb_fifo_allocated);
   (ORCM_SESSION_STATE_TERMINATED, cb_fifo_terminated); (ORCM_SESSION_STATE_CANCEL, cb_fifo_cancel)].

Definition rm_states : list (Z * cbfunc) :=
  [(ORCM_SESSION_STATE_UNDEF, cb_rm_undef); (ORCM_SESSION_STATE_REQ, cb_rm_request);
   (ORCM_SESSION_STATE_ACTIVE, cb_rm_active); (ORCM_SESSION_STATE_KILL, cb_rm_kill)].

(** The registration loop stops at the first state that is refused. *)
Fixpoint register_all (add : Z → option cbfunc → Z → orcm_scd_base_t → orcm_scd_base_t * Z)
    (l : list (Z * cbfunc)) st : orcm_scd_base_t * Z :=
  match l with
  | [] => (st, ORCM_SUCCESS)
  | (s, cb) :: rest =>
    let (st, rc) := add s (Some cb) ORTE_SYS_PRI st in
    if rc =? ORCM_SUCCESS then register_all add rest st else (st, rc)
  end.

Definition scd_base_rm_init st : orcm_scd_base_t * Z :=
  register_all orcm_scd_base_rm_add_session_state rm_states st.

Definition fifo_init st : orcm_scd_base_t * Z :=
  register_all orcm_scd_base_add_session_state fifo_states (scd_base_rm_init st).1.

(** [orcm_scd_base_open]. *)
Definition orcm_scd_base_open : orcm_scd_base_t :=
  mk_scd [] [] []
    (PA.opal_pointer_array_init true PA.opal_pointer_array_construct 8 INT_MAX 8).1 ∅
    (PA.opal_pointer_array_init true PA.opal_pointer_array_construct 1 INT_MAX 1).1 ∅
    [] ∅ 0 [] [] [].

End handlers.
End ScdFifo.
