(* ===== verification/ScdLemmas.v ===== *)
(** * Lemmas on the scheduler's loops

    What each loop of the handlers computes, on a cluster whose nodes are known:
    the nodes visited, the free ones, the names collected, the nodes marked, the
    sessions removed. *)

From Stdlib Require Import ZArith Lia Ascii.
From stdpp Require Import prelude numbers strings gmap list.
From S2P Require Import Prelude PointerArray CString Argv Dss Attr Alloc Scd ScdFifo.

Local Open Scope Z_scope.

Module ScdLemmas.
Import Dss Attr Alloc Scd ScdFifo.

(** ** The nodes a loop visits *)

Lemma items_wf {A} (t : PA.opal_pointer_array_t A) : PA.wf t → items t = Some (omap id (PA.elems t)).
Proof.
  intros Hwf. unfold items. pose proof (PA.wf_size _ Hwf) as Hs.
  replace (Z.to_nat (PA.size t)) with (length (PA.elems t)) by lia.
  enough (∀ n i, (i + n = length (PA.elems t))%nat →
    items_from t i n = Some (omap id (drop i (PA.elems t)))) as HH by by rewrite (HH _ 0%nat).
  induction n as [|n IH]; intros i Hi; cbn [items_from].
  { by rewrite drop_ge by lia. }
  rewrite PA.get_item_slot by (done || lia). unfold PA.slot. rewrite Nat2Z.id.
  destruct (lookup_lt_is_Some_2 (PA.elems t) i) as [p Hp]; [lia|]. rewrite Hp.
  rewrite (drop_S _ _ _ Hp). cbn [default mbind option_bind]. rewrite IH by lia. by destruct p.
Qed.

(** The nodes of the cluster, in the order of the array: distinct objects with
    distinct names. *)
Record cluster (st : orcm_scd_base_t) (refs : list nat) (ns : list orcm_node_t) : Prop := {
  cl_items : items (nodes st) = Some refs;
  cl_heap : Forall2 (λ r n, node_heap st !! r = Some n) refs ns;
  cl_refs : NoDup refs;
  cl_names : NoDup (node_name <$> ns);
}.

Definition free_names (ns : list orcm_node_t) : list cstring :=
  node_name <$> filter (λ n, is_free n = true) ns.

Lemma count_free_spec refs ns heap k : Forall2 (λ r n, heap !! r = Some n) refs ns →
  0 ≤ k → k + Z.of_nat (length refs) ≤ INT_MAX →
  count_free refs heap k = Some (k + Z.of_nat (length (free_names ns))).
Proof.
  unfold free_names. intros Hh. revert k. induction Hh as [|r n refs ns Hr _ IH]; intros k Hk Hm.
  { simpl. f_equal. lia. }
  cbn [count_free length] in *. rewrite Hr. cbn [mbind option_bind].
  destruct (is_free n) eqn:Hf.
  - rewrite ck_int_Some by (unfold INT_MIN; lia). cbn [mbind option_bind].
    rewrite IH by lia. rewrite filter_cons_True by done. cbn [fmap list_fmap length]. f_equal. lia.
  - cbn [mbind option_bind]. rewrite IH by lia. by rewrite filter_cons_False by congruence.
Qed.

(** ** The names collected *)

Definition add_names (acc : option cstring) (l : list cstring) : option cstring :=
  match acc, l with
  | None, [] => None
  | None, l => Some (Argv.join_ref COMMA l)
  | Some s, l => Some (s ++ concat ((λ x, COMMA :: x) <$> l))
  end.

Lemma add_names_cons acc x l : add_names (add_names acc [x]) l = add_names acc (x :: l).
Proof.
  destruct acc as [s|]; simpl.
  - by rewrite app_nil_r, <-app_assoc.
  - by rewrite app_nil_r.
Qed.

Lemma collect_nodes_spec refs ns heap num acc : Forall2 (λ r n, heap !! r = Some n) refs ns →
  0 < num →
  collect_nodes refs heap num acc =
  Some (add_names acc (take (Z.to_nat num) (free_names ns)),
        num - Z.of_nat (length (take (Z.to_nat num) (free_names ns)))).
Proof.
  unfold free_names. intros Hh. revert num acc.
  induction Hh as [|r n refs ns Hr _ IH]; intros num acc Hn; cbn [collect_nodes].
  { simpl. rewrite take_nil. destruct acc; simpl; rewrite ?app_nil_r; do 2 f_equal; lia. }
  rewrite Hr. cbn [mbind option_bind]. destruct (is_free n) eqn:Hf.
  - rewrite filter_cons_True by done. cbn [fmap list_fmap].
    destruct (Z.to_nat num) as [|k] eqn:Hk; [lia|]. cbn [take].
    destruct (Z.eqb_spec (num - 1) 0).
    + assert (k = 0%nat) as -> by lia. simpl. destruct acc; simpl; rewrite ?app_nil_r; do 2 f_equal; lia.
    + rewrite IH by lia. replace (Z.to_nat (num - 1)) with k by lia.
      rewrite <-add_names_cons. cbn [length]. do 2 f_equal; [|lia].
      destruct acc; simpl; by rewrite ?app_nil_r.
  - rewrite filter_cons_False by congruence. by apply IH.
Qed.

(** ** The nodes marked *)

Definition marked (refs : list nat) (names : list cstring) (v : Z) (r : nat) (n : orcm_node_t) : orcm_node_t :=
  if decide (r ∈ refs ∧ node_name n ∈ names) then set_scd_state v n else n.

Lemma node_name_marked refs names v r n : node_name (marked refs names v r n) = node_name n.
Proof. unfold marked. by case_decide. Qed.

Lemma mark_named_spec name v refs heap : NoDup refs → Forall (λ r, is_Some (heap !! r)) refs →
  ∃ heap', mark_named name v refs heap = Some heap' ∧
    ∀ r, heap' !! r = marked refs [name] v r <$> heap !! r.
Proof.
  intros Hnd. revert heap. induction refs as [|r refs IH]; intros heap Hh; cbn [mark_named].
  { exists heap. split; [done|]. intros r. destruct (heap !! r) as [n|]; [|done]. simpl.
    unfold marked. rewrite decide_False; [done|]. intros [?%not_elem_of_nil _]. done. }
  apply Forall_cons in Hh as [[n Hn] Hh]. rewrite Hn. cbn [mbind option_bind].
  apply NoDup_cons in Hnd as [Hr Hnd].
  set (heap1 := if bool_decide (node_name n = name) then <[r:=set_scd_state v n]> heap else heap).
  destruct (IH Hnd heap1) as (heap' & E & Hheap).
  { eapply Forall_impl; [exact Hh|]. intros x Hx. unfold heap1. case_bool_decide; [|done].
    rewrite lookup_insert_is_Some'. by right. }
  exists heap'. split; [done|]. intros x. rewrite Hheap. unfold heap1, marked.
  destruct (decide (x = r)) as [->|Hxr].
  - rewrite Hn. case_bool_decide as Hb; rewrite ?lookup_insert_eq, ?Hn; cbn [fmap option_fmap option_map];
      f_equal; rewrite (decide_False (P := r ∈ refs ∧ _)) by tauto.
    + rewrite decide_True; [done|]. split; [by left|]. rewrite Hb. by left.
    + rewrite decide_False; [done|]. intros [_ E']. by apply list_elem_of_singleton in E'.
  - assert ((if bool_decide (node_name n = name) then <[r:=set_scd_state v n]> heap else heap) !! x
            = heap !! x) as -> by (case_bool_decide; [by rewrite lookup_insert_ne|done]).
    destruct (heap !! x) as [m|]; [|done]. cbn. f_equal.
    destruct (decide (x ∈ refs ∧ node_name m ∈ [name])) as [[? ?]|Hd].
    + rewrite decide_True; [done|]. split; [by right|done].
    + rewrite decide_False; [done|]. intros [[->|?]%elem_of_cons ?]; [done|]. by apply Hd.
Qed.

Lemma mark_nodes_spec names v refs heap : NoDup refs → Forall (λ r, is_Some (heap !! r)) refs →
  ∃ heap', mark_nodes names v refs heap = Some heap' ∧
    ∀ r, heap' !! r = marked refs names v r <$> heap !! r.
Proof.
  intros Hnd. revert heap. induction names as [|x names IH]; intros heap Hh; cbn [mark_nodes].
  { exists heap. split; [done|]. intros r. destruct (heap !! r) as [n|]; [|done]. cbn.
    unfold marked. rewrite decide_False; [done|]. intros [_ ?%not_elem_of_nil]. done. }
  destruct (mark_named_spec x v refs heap Hnd Hh) as (heap1 & -> & H1). cbn [mbind option_bind].
  destruct (IH heap1) as (heap' & -> & H').
  { eapply Forall_impl; [exact Hh|]. intros r Hr. rewrite H1. by apply fmap_is_Some. }
  exists heap'. split; [done|]. intros r. rewrite H', H1. destruct (heap !! r) as [n|]; [|done]. cbn. f_equal.
  unfold marked. destruct (decide (r ∈ refs ∧ node_name n ∈ [x])) as [[? Hx]|Hd].
  - apply list_elem_of_singleton in Hx. rewrite (decide_True (P := r ∈ refs ∧ node_name n ∈ x :: names))
      by (split; [done|rewrite Hx; by left]). by case_decide.
  - destruct (decide (r ∈ refs ∧ node_name n ∈ names)) as [[? ?]|Hd'].
    + rewrite decide_True; [done|]. split; [done|by right].
    + rewrite decide_False; [done|]. intros [? [?|?]%elem_of_cons]; [|tauto].
      apply Hd. split; [done|]. by apply list_elem_of_singleton.
Qed.

(** Marking depends on the set of the names only. *)
Lemma marked_perm refs names names' v r n : names ≡ₚ names' →
  marked refs names v r n = marked refs names' v r n.
Proof. intros Hp. unfold marked. apply decide_ext. by rewrite Hp. Qed.

(** ** Queues *)

Lemma find_named_Some name qs i : find_named name qs = Some i →
  ∃ q, qs !! i = Some q ∧ queue_name q = name ∧
       ∀ j p, (j < i)%nat → qs !! j = Some p → queue_name p ≠ name.
Proof.
  revert i. induction qs as [|q qs IH]; intros i; cbn [find_named]; [done|].
  case_bool_decide as Hq.
  - intros [= <-]. exists q. split_and!; [done|done|]. intros; lia.
  - destruct (find_named name qs) as [k|] eqn:E; [|done]. intros [= <-].
    destruct (IH k eq_refl) as (p & ? & ? & Hj). exists p. split_and!; [done|done|].
    intros [|j] p' Hj' Hp; [by simplify_eq/=|]. apply (Hj j); [lia|done].
Qed.

(** The members of all queues, in the order of the queues. *)
Definition members (st : orcm_scd_base_t) : list nat := concat (queue_sessions <$> queues st).

Lemma on_a_list_members st r : on_a_list st r = bool_decide (r ∈ members st).
Proof.
  unfold on_a_list, members. induction (queues st) as [|q qs IH]; [done|]. cbn [existsb fmap list_fmap concat].
  rewrite IH. apply eq_bool_prop_intro.
  rewrite orb_True, !bool_decide_spec. by rewrite elem_of_app.
Qed.

Lemma members_alter (qs : list orcm_queue_t) i q f : qs !! i = Some q →
  concat (queue_sessions <$> alter (λ q, set_sessions (f (queue_sessions q)) q) i qs) =
  concat (queue_sessions <$> take i qs) ++ f (queue_sessions q) ++ concat (queue_sessions <$> drop (S i) qs).
Proof.
  revert i. induction qs as [|p qs IH]; intros [|i] Hq; simplify_eq/=; [done|].
  rewrite <-app_assoc. f_equal. by apply IH.
Qed.

Lemma members_split (qs : list orcm_queue_t) i q : qs !! i = Some q →
  concat (queue_sessions <$> qs) =
  concat (queue_sessions <$> take i qs) ++ queue_sessions q ++ concat (queue_sessions <$> drop (S i) qs).
Proof.
  revert i. induction qs as [|p qs IH]; intros [|i] Hq; simplify_eq/=; [done|].
  rewrite <-app_assoc. f_equal. by apply IH.
Qed.

Lemma elem_of_members (qs : list orcm_queue_t) x :
  x ∈ concat (queue_sessions <$> qs) ↔ ∃ i q, qs !! i = Some q ∧ x ∈ queue_sessions q.
Proof.
  induction qs as [|p qs IH]; cbn.
  - split; [by intros ?%not_elem_of_nil|by intros (i & q & ? & _)].
  - rewrite elem_of_app, IH. split.
    + intros [?|(i & q & ? & ?)]; [by exists 0%nat, p|by exists (S i), q].
    + intros ([|i] & q & Hq & ?); cbn in Hq; [left; by injection Hq as ->|right; by exists i, q].
Qed.

End ScdLemmas.
