(* ===== verification/ScdSpec.v ===== *)
(** * What the scheduler's handlers do

    The functional behaviour of each handler on a cluster whose nodes are known and
    a scheduler whose states are registered, and the way of a session from the
    default queue to its nodes and back. *)

From Stdlib Require Import ZArith Lia Ascii.
From stdpp Require Import prelude numbers strings gmap list.
From S2P Require Import Prelude PointerArray CString Argv Dss Attr Alloc Scd ScdFifo ScdLemmas.

Local Open Scope Z_scope.

Module ScdSpec.
Import Dss Attr Alloc Scd ScdFifo ScdLemmas.

(** ** Registered states *)

Definition table (l : list (Z * cbfunc)) : list orcm_scd_state_t :=
  (λ p, mk_state p.1 (Some p.2) ORTE_SYS_PRI) <$> l.

Record registered (st : orcm_scd_base_t) : Prop := {
  reg_scd : states st = table fifo_states;
  reg_rm : rmstates st = table rm_states;
}.

Definition ev (cb : cbfunc) (r : nat) : event_t := mk_event cb (session_caddy r) ORTE_SYS_PRI.

Definition post_scd (cb : cbfunc) (r : nat) (st : orcm_scd_base_t) : orcm_scd_base_t :=
  set_scd_events (scd_events st ++ [ev cb r]) st.
Definition post_rm (cb : cbfunc) (r : nat) (st : orcm_scd_base_t) : orcm_scd_base_t :=
  set_rm_events (rm_events st ++ [ev cb r]) st.

Lemma scan_table l state : Forall (λ p, p.1 < ORCM_SESSION_STATE_ANY) l →
  scan_states (table l) state None None =
  ((λ p, mk_state p.1 (Some p.2) ORTE_SYS_PRI) <$> head (filter (λ p, p.1 = state) l), None, None).
Proof.
  unfold ORCM_SESSION_STATE_ANY. induction 1 as [|[s cb] l Hs _ IH]; [done|]. cbn in Hs.
  cbn [table fmap list_fmap scan_states st_state fst snd].
  destruct (Z.eqb_spec s ORCM_SESSION_STATE_ANY) as [E|_]; [unfold ORCM_SESSION_STATE_ANY in E; lia|].
  destruct (Z.eqb_spec s ORCM_SESSION_STATE_ERROR) as [E|_]; [unfold ORCM_SESSION_STATE_ERROR in E; lia|].
  destruct (Z.eqb_spec s state).
  - by rewrite filter_cons_True.
  - rewrite filter_cons_False by done. exact IH.
Qed.

Lemma activation_table l r state : Forall (λ p, p.1 < ORCM_SESSION_STATE_ANY) l →
  activation (table l) r state = (λ p, ev p.2 r) <$> head (filter (λ p, p.1 = state) l).
Proof.
  intros Hl. unfold activation. rewrite scan_table by done. destruct (head _); [done|].
  by destruct (_ <? _).
Qed.

Ltac in_table Hin := repeat (apply elem_of_cons in Hin as [[= -> ->]|Hin]; [reflexivity|]);
                     by apply not_elem_of_nil in Hin.

Lemma activate_scd_registered st r state cb : registered st → (state, cb) ∈ fifo_states →
  orcm_scd_base_activate_session_state r state st = post_scd cb r st.
Proof.
  intros [Hs _] Hin. unfold orcm_scd_base_activate_session_state. rewrite Hs. in_table Hin.
Qed.

Lemma activate_rm_registered st r state cb : registered st → (state, cb) ∈ rm_states →
  orcm_scd_base_rm_activate_session_state r state st = post_rm cb r st.
Proof.
  intros [_ Hs] Hin. unfold orcm_scd_base_rm_activate_session_state. rewrite Hs. in_table Hin.
Qed.

(** The activations the handlers make. *)
Lemma act_schedule st r : registered st →
  orcm_scd_base_activate_session_state r ORCM_SESSION_STATE_SCHEDULE st = post_scd cb_fifo_schedule r st.
Proof. intros Hr. apply activate_scd_registered; [done|]. cbn. set_solver. Qed.
Lemma act_allocd st r : registered st →
  orcm_scd_base_activate_session_state r ORCM_SESSION_STATE_ALLOCD st = post_scd cb_fifo_allocated r st.
Proof. intros Hr. apply activate_scd_registered; [done|]. cbn. set_solver. Qed.
Lemma act_init st r : registered st →
  orcm_scd_base_activate_session_state r ORCM_SESSION_STATE_INIT st = post_scd cb_fifo_find_queue r st.
Proof. intros Hr. apply activate_scd_registered; [done|]. cbn. set_solver. Qed.
Lemma act_terminated st r : registered st →
  orcm_scd_base_activate_session_state r ORCM_SESSION_STATE_TERMINATED st = post_scd cb_fifo_terminated r st.
Proof. intros Hr. apply activate_scd_registered; [done|]. cbn. set_solver. Qed.
Lemma act_cancel st r : registered st →
  orcm_scd_base_activate_session_state r ORCM_SESSION_STATE_CANCEL st = post_scd cb_fifo_cancel r st.
Proof. intros Hr. apply activate_scd_registered; [done|]. cbn. set_solver. Qed.
Lemma act_req st r : registered st →
  orcm_scd_base_rm_activate_session_state r ORCM_SESSION_STATE_REQ st = post_rm cb_rm_request r st.
Proof. intros Hr. apply activate_rm_registered; [done|]. cbn. set_solver. Qed.
Lemma act_active st r : registered st →
  orcm_scd_base_rm_activate_session_state r ORCM_SESSION_STATE_ACTIVE st = post_rm cb_rm_active r st.
Proof. intros Hr. apply activate_rm_registered; [done|]. cbn. set_solver. Qed.
Lemma act_kill st r : registered st →
  orcm_scd_base_rm_activate_session_state r ORCM_SESSION_STATE_KILL st = post_rm cb_rm_kill r st.
Proof. intros Hr. apply activate_rm_registered; [done|]. cbn. set_solver. Qed.

(** Initialisation registers every state of the two machines: from then on a state
    activated for a session runs its own handler, and a number that is no state runs
    nothing. *)
Theorem fifo_init_dispatch :
  let '(st, rc) := fifo_init orcm_scd_base_open in
  rc = ORCM_SUCCESS ∧
  ∀ r state,
    activation (states st) r state =
      (λ p, ev p.2 r) <$> head (filter (λ p, p.1 = state) fifo_states) ∧
    activation (rmstates st) r state =
      (λ p, ev p.2 r) <$> head (filter (λ p, p.1 = state) rm_states).
Proof.
  change (fifo_init orcm_scd_base_open) with
    (set_states (table fifo_states) (set_rmstates (table rm_states) orcm_scd_base_open), ORCM_SUCCESS).
  split; [done|]. intros r state. split; (apply activation_table; forall_list).
Qed.

(** ** fifo_schedule *)

Definition default_at (st : orcm_scd_base_t) (i : nat) (q : orcm_queue_t) : Prop :=
  queues st !! i = Some q ∧ queue_name q = lit "default" ∧
  ∀ j p, queues st !! j = Some p → queue_name p = lit "default" → j = i.

Lemma schedule_loop_none n i st : (i + n = length (queues st))%nat →
  (∀ j p, (i ≤ j)%nat → queues st !! j = Some p → queue_name p ≠ lit "default") →
  schedule_loop n i st = Some st.
Proof.
  revert i. induction n as [|n IH]; intros i Hl Hd; [done|]. cbn [schedule_loop].
  destruct (lookup_lt_is_Some_2 (queues st) i) as [q Hq]; [lia|]. rewrite Hq. cbn [mbind option_bind].
  rewrite bool_decide_eq_false_2 by (by apply (Hd i)). apply IH; [lia|].
  intros j p Hj. apply Hd. lia.
Qed.

Lemma schedule_loop_skip st i q k j : default_at st i q → (j + k = i)%nat →
  schedule_loop (length (queues st) - j) j st = schedule_loop (length (queues st) - i) i st.
Proof.
  intros (Hq & _ & Hu). revert j. induction k as [|k IH]; intros j Hj; [by assert (j = i) as -> by lia|].
  rewrite <-(IH (S j)) by lia. pose proof (lookup_lt_Some _ _ _ Hq).
  destruct (length (queues st) - j)%nat as [|m] eqn:Em; [lia|]. cbn [schedule_loop].
  destruct (lookup_lt_is_Some_2 (queues st) j) as [p Hp]; [lia|]. rewrite Hp. cbn [mbind option_bind].
  rewrite bool_decide_eq_false_2 by (intros E; specialize (Hu j p Hp E); lia). f_equal. lia.
Qed.

Lemma upd_queue_names st i f j p : queues (upd_queue i f st) !! j = Some p →
  ∃ p', queues st !! j = Some p' ∧ queue_name p' = queue_name p.
Proof.
  unfold upd_queue. cbn. destruct (decide (i = j)) as [->|Hne].
  - rewrite list_lookup_alter_eq. destruct (queues st !! j) as [p'|]; [|done]. intros [= <-]. eauto.
  - rewrite list_lookup_alter_ne by done. eauto.
Qed.

Lemma upd_queue_upd st i f g : upd_queue i g (upd_queue i f st) = upd_queue i (λ l, g (f l)) st.
Proof. unfold upd_queue. cbn. destruct st. unfold set_queues. cbn. f_equal. by rewrite list_alter_alter_eq. Qed.

Lemma upd_queue_id st i f q : queues st !! i = Some q → f (queue_sessions q) = queue_sessions q →
  upd_queue i f st = st.
Proof.
  intros Hq Hf. unfold upd_queue. destruct st. unfold set_queues. cbn in *. f_equal.
  apply list_eq. intros j. destruct (decide (i = j)) as [->|]; [|by rewrite list_lookup_alter_ne].
  rewrite list_lookup_alter_eq, Hq. cbn. rewrite Hf. by destruct q.
Qed.

Lemma find_named_ext name qs qs' : queue_name <$> qs = queue_name <$> qs' →
  find_named name qs = find_named name qs'.
Proof.
  revert qs'. induction qs as [|q qs IH]; intros [|q' qs'] E; try done.
  cbn in E. injection E as E1 E2. cbn [find_named]. by rewrite E1, (IH qs' E2).
Qed.

Lemma upd_queue_find st i f name : find_named name (queues (upd_queue i f st)) = find_named name (queues st).
Proof.
  apply find_named_ext. unfold upd_queue. cbn. apply list_eq. intros j. rewrite !list_lookup_fmap.
  destruct (decide (i = j)) as [->|]; [|by rewrite list_lookup_alter_ne].
  rewrite list_lookup_alter_eq. by destruct (queues st !! j).
Qed.

Lemma registered_upd_queue st i f : registered st → registered (upd_queue i f st).
Proof. by intros [? ?]. Qed.

Lemma not_on_list_tail st i q s rest : NoDup (members st) → queues st !! i = Some q →
  queue_sessions q = s :: rest → on_a_list (upd_queue i (λ _, rest) st) s = false.
Proof.
  intros Hnd Hq Hs. rewrite on_a_list_members. apply bool_decide_eq_false_2.
  unfold members in *. cbn. rewrite (members_alter _ _ _ (λ _, rest) Hq).
  rewrite (members_split _ _ _ Hq), Hs in Hnd. apply NoDup_app in Hnd as (_ & Hd & Hnd).
  cbn in Hnd. apply NoDup_cons in Hnd as [Hn _]. rewrite elem_of_app. intros [Hx|Hx]; [|done].
  apply (Hd s Hx). by left.
Qed.

Lemma fifo_schedule_run st refs ns i q c :
  registered st → cluster st refs ns → Z.of_nat (length refs) ≤ INT_MAX →
  default_at st i q → NoDup (members st) →
  match queue_sessions q with
  | [] => fifo_schedule c st = Some st
  | s :: rest => ∀ a, get_alloc st s = Some a →
      fifo_schedule c st =
      Some (if decide (min_nodes a ≤ Z.of_nat (length (free_names ns)))
            then post_rm cb_rm_request s (upd_queue i (λ _, rest) st) else st)
  end.
Proof.
  intros Hreg [Hi Hh _ _] Hlen Hd Hnd. unfold fifo_schedule.
  pose proof Hd as (Hq & Hname & Hu). pose proof (lookup_lt_Some _ _ _ Hq) as Hlt.
  replace (length (queues st)) with (length (queues st) - 0)%nat by lia.
  rewrite (schedule_loop_skip st i q i 0 Hd) by lia.
  destruct (length (queues st) - i)%nat as [|m] eqn:Em; [lia|]. cbn [schedule_loop].
  rewrite Hq. cbn [mbind option_bind]. rewrite bool_decide_eq_true_2 by done.
  destruct (queue_sessions q) as [|s rest] eqn:Hs; [done|]. intros a Ha.
  change (nodes (upd_queue i (λ _, rest) st)) with (nodes st).
  change (node_heap (upd_queue i (λ _, rest) st)) with (node_heap st). rewrite Hi. cbn [mbind option_bind].
  rewrite (count_free_spec refs ns) by (done || lia). cbn [mbind option_bind].
  change (get_alloc (upd_queue i (λ _, rest) st) s) with (get_alloc st s). rewrite Ha. cbn [mbind option_bind].
  assert (∀ st', queues st' = queues st ∨ queues st' = queues (upd_queue i (λ _, rest) st) →
            schedule_loop m (S i) st' = Some st') as Hend.
  { intros st' Hst'. apply schedule_loop_none.
    - destruct Hst' as [->| ->]; [lia|]. cbn. rewrite length_alter. lia.
    - intros j p Hj Hp Hn. destruct Hst' as [E|E]; rewrite E in Hp.
      + specialize (Hu j p Hp Hn). lia.
      + apply upd_queue_names in Hp as (p' & Hp' & E'). specialize (Hu j p' Hp'). rewrite E' in Hu.
        specialize (Hu Hn). lia. }
  destruct (Z.leb_spec (min_nodes a) (0 + Z.of_nat (length (free_names ns)))); case_decide; try lia.
  - cbn [mbind option_bind]. rewrite act_req by (by apply registered_upd_queue). apply Hend. by right.
  - unfold prepend_session. rewrite (not_on_list_tail st i q s rest) by done. cbn [mbind option_bind].
    rewrite upd_queue_upd, (upd_queue_id st i _ q) by (done || by rewrite Hs). apply Hend. by left.
Qed.

(** C29. The scheduler serves the default queue in order: when the request at its head
    fits into the nodes that are unallocated and up, that session and no other leaves
    the queue, with a request to the resource manager; when it does not fit, or the
    queue is empty, nothing changes and nobody overtakes it. *)
Theorem fifo_schedule_spec st refs ns i q c :
  registered st → cluster st refs ns → Z.of_nat (length refs) ≤ INT_MAX →
  default_at st i q → NoDup (members st) →
  match queue_sessions q with
  | [] => fifo_schedule c st = Some st
  | s :: rest => ∀ a, get_alloc st s = Some a →
      fifo_schedule c st =
      Some (if decide (min_nodes a ≤ Z.of_nat (length (free_names ns)))
            then post_rm cb_rm_request s (upd_queue i (λ _, rest) st) else st)
  end.
Proof. apply fifo_schedule_run. Qed.

(** ** fifo_find_queue *)

Definition alloc_upd (r : nat) (f : orcm_alloc_t → orcm_alloc_t) (st : orcm_scd_base_t) : orcm_scd_base_t :=
  set_session_heap (alter (λ s, mk_session (session_id s) (f <$> session_alloc s)) r (session_heap st)) st.

Lemma upd_alloc_eq st r f a : get_alloc st r = Some a → upd_alloc r f st = Some (alloc_upd r f st).
Proof.
  unfold get_alloc, upd_alloc, alloc_upd. destruct (session_heap st !! r) as [s|] eqn:Hs; [|done]. cbn.
  intros Ha. rewrite Ha. cbn. do 2 f_equal. apply map_eq. intros x.
  destruct (decide (x = r)) as [->|].
  - by rewrite lookup_insert_eq, lookup_alter_eq, Hs; cbn; rewrite Ha.
  - by rewrite lookup_insert_ne, lookup_alter_ne.
Qed.

Lemma get_alloc_upd st r f a : get_alloc st r = Some a → get_alloc (alloc_upd r f st) r = Some (f a).
Proof.
  unfold get_alloc, alloc_upd. cbn. rewrite lookup_alter_eq.
  destruct (session_heap st !! r) as [s|]; [|done]. cbn. by intros ->.
Qed.

Lemma registered_alloc_upd st r f : registered st → registered (alloc_upd r f st).
Proof. by intros [? ?]. Qed.

Lemma enqueue_spec st name i r a : registered st → find_named name (queues st) = Some i →
  get_alloc st r = Some a → r ∉ members st →
  enqueue name r st =
  Some (post_scd cb_fifo_schedule r
          (upd_queue i (λ l, l ++ [r]) (alloc_upd r (set_alloc_queues (Some name)) st))).
Proof.
  intros Hreg Hf Ha Hm. unfold enqueue. rewrite Hf, (upd_alloc_eq _ _ _ a) by done.
  cbn [mbind option_bind]. unfold append_session. rewrite on_a_list_members.
  rewrite bool_decide_eq_false_2 by done. cbn [mbind option_bind].
  by rewrite act_schedule by by apply registered_upd_queue, registered_alloc_upd.
Qed.

(** A new session goes to the end of the default queue when the cluster has as many
    nodes as it asks for, free or not; otherwise it goes to the end of the hold queue
    with a note saying why.  Either way the scheduler runs next. *)
Theorem fifo_find_queue_spec st r a i j :
  registered st → get_alloc st r = Some a → r ∉ members st → PA.wf (nodes st) →
  find_named (lit "default") (queues st) = Some i → find_named (lit "hold") (queues st) = Some j →
  let defined := PA.size (nodes st) - PA.number_free (nodes st) in
  defined = Z.of_nat (length (omap id (PA.elems (nodes st)))) ∧
  fifo_find_queue r st =
  Some (if decide (min_nodes a ≤ defined)
        then post_scd cb_fifo_schedule r
               (upd_queue i (λ l, l ++ [r]) (alloc_upd r (set_alloc_queues (Some (lit "default"))) st))
        else alloc_upd r (λ a, set_notes (exceeds_note (notes a)) a)
               (post_scd cb_fifo_schedule r
                  (upd_queue j (λ l, l ++ [r]) (alloc_upd r (set_alloc_queues (Some (lit "hold"))) st)))).
Proof.
  intros Hreg Ha Hm Hwf Hi Hj defined. pose proof (PA.wf_max _ Hwf) as Hsz.
  assert (defined = Z.of_nat (length (omap id (PA.elems (nodes st))))) as Hdef.
  { unfold defined. rewrite (PA.wf_free _ Hwf), (PA.wf_size _ Hwf). unfold PA.nulls.
    clear. induction (PA.elems (nodes st)) as [|[p|] l IH]; [done| |].
    - rewrite filter_cons_False by done. cbn [length omap list_omap id]. cbn in *. lia.
    - rewrite filter_cons_True by done. cbn [length omap list_omap id]. cbn in *. lia. }
  split; [done|]. unfold fifo_find_queue. rewrite Ha. cbn [mbind option_bind].
  fold defined. pose proof (PA.wf_size _ Hwf).
  rewrite ck_int_Some.
  - cbn [mbind option_bind]. destruct (Z.ltb_spec defined (min_nodes a)); case_decide; try lia.
    + rewrite (enqueue_spec _ _ j r a) by done. cbn [mbind option_bind].
      apply (upd_alloc_eq _ _ _ (set_alloc_queues (Some (lit "hold")) a)).
      by apply (get_alloc_upd st).
    + by apply (enqueue_spec _ _ i r a).
  - unfold INT_MIN. rewrite Hdef in *. split; [lia|]. unfold defined in Hdef.
    pose proof (PA.nulls_bounds (PA.elems (nodes st))). rewrite <-(PA.wf_free _ Hwf) in *. lia.
Qed.

(** ** scd_base_rm_request *)

Section regex.
Context `{FloatText} `{NodeRegex} `{Rml} (good : cstring → Prop) `{!NodeRegexLaws good}.

Definition taken (a : orcm_alloc_t) (ns : list orcm_node_t) : list cstring :=
  take (Z.to_nat (min_nodes a)) (free_names ns).

Lemma rm_request_run st refs ns r a :
  registered st → cluster st refs ns → get_alloc st r = Some a → 0 < min_nodes a →
  Forall good (free_names ns) →
  if decide (min_nodes a ≤ Z.of_nat (length (free_names ns)))
  then ∃ rx names, scd_base_rm_request r st =
           Some (post_scd cb_fifo_allocated r (alloc_upd r (set_alloc_nodes (Some rx)) st)) ∧
         regex_extract (Some rx) = Some (OPAL_SUCCESS, names) ∧ names ≡ₚ taken a ns
  else scd_base_rm_request r st = Some (post_scd cb_fifo_allocated r st).
Proof.
  intros Hreg [Hi Hh _ _] Ha Hm Hg. unfold scd_base_rm_request. rewrite Ha. cbn [mbind option_bind].
  destruct (Z.ltb_spec 0 (min_nodes a)); [|lia]. rewrite Hi. cbn [mbind option_bind].
  rewrite (collect_nodes_spec refs ns) by done. cbn [mbind option_bind]. fold (taken a ns).
  assert (length (taken a ns) = Z.to_nat (min_nodes a) `min` length (free_names ns))%nat as Hl
    by apply length_take.
  case_decide.
  - destruct (Z.eqb_spec (min_nodes a - Z.of_nat (length (taken a ns))) 0); [|lia].
    assert (taken a ns ≠ []) as Hne by (intros E; rewrite E in Hl; simpl in Hl; lia).
    destruct (regex_round_trip (taken a ns) Hne) as (rx & names & Hc & He & Hp).
    { by apply Forall_take. }
    exists rx, names. split_and!; [|done|done].
    assert (add_names None (taken a ns) = Some (Argv.join_ref COMMA (taken a ns))) as ->
      by (by destruct (taken a ns)).
    cbn [mbind option_bind]. rewrite Hc. cbn [mbind option_bind].
    rewrite (upd_alloc_eq _ _ _ a) by done. cbn [mbind option_bind].
    by rewrite act_allocd by by apply registered_alloc_upd.
  - destruct (Z.eqb_spec (min_nodes a - Z.of_nat (length (taken a ns))) 0); [lia|].
    cbn [mbind option_bind]. by rewrite act_allocd.
Qed.

(** The resource manager gives a session the first nodes of the array that are
    unallocated and up, exactly as many as it asked for, written as an expression that
    expands to their names; when there are not enough of them it leaves the
    allocation as it was, and reports it as allocated all the same. *)
Theorem scd_base_rm_request_spec st refs ns r a :
  registered st → cluster st refs ns → get_alloc st r = Some a → 0 < min_nodes a →
  Forall good (free_names ns) →
  if decide (min_nodes a ≤ Z.of_nat (length (free_names ns)))
  then ∃ rx names, scd_base_rm_request r st =
           Some (post_scd cb_fifo_allocated r (alloc_upd r (set_alloc_nodes (Some rx)) st)) ∧
         regex_extract (Some rx) = Some (OPAL_SUCCESS, names) ∧ names ≡ₚ taken a ns
  else scd_base_rm_request r st = Some (post_scd cb_fifo_allocated r st).
Proof. apply rm_request_run. Qed.

(** ** fifo_allocated *)

Lemma cluster_heap st refs ns : cluster st refs ns → Forall (λ r, is_Some (node_heap st !! r)) refs.
Proof. intros [_ Hh _ _]. induction Hh; constructor; eauto. Qed.

Definition moved_to (name : string) (i r : nat) (st : orcm_scd_base_t) : orcm_scd_base_t :=
  upd_queue i (λ l, l ++ [r]) (alloc_upd r (set_alloc_queues (Some (lit name))) st).

Lemma allocated_run st refs ns r a i rx names :
  registered st → cluster st refs ns → get_alloc st r = Some a → r ∉ members st →
  find_named (lit "running") (queues st) = Some i →
  alloc_nodes a = Some rx → rx ≠ lit "ERROR" →
  regex_extract (Some rx) = Some (OPAL_SUCCESS, names) → Z.of_nat (length names) = min_nodes a →
  ∃ heap, fifo_allocated r st =
      Some (set_node_heap heap (post_rm cb_rm_active r (moved_to "running" i r st))) ∧
    ∀ x, heap !! x = marked refs names ORCM_SCD_NODE_STATE_ALLOC x <$> node_heap st !! x.
Proof.
  intros Hreg Hcl Ha Hm Hi Hn Hne He Hlen. unfold fifo_allocated. rewrite Ha. cbn [mbind option_bind].
  unfold put_on_running. rewrite Hi, (upd_alloc_eq _ _ _ a) by done. cbn [mbind option_bind].
  unfold append_session. rewrite on_a_list_members, bool_decide_eq_false_2 by done. cbn [mbind option_bind].
  change (upd_queue i (λ l, l ++ [r]) (alloc_upd r (set_alloc_queues (Some (lit "running"))) st))
    with (moved_to "running" i r st).
  change (get_alloc (moved_to "running" i r st) r)
    with (get_alloc (alloc_upd r (set_alloc_queues (Some (lit "running"))) st) r).
  rewrite (get_alloc_upd st r _ a Ha). cbn [mbind option_bind alloc_nodes set_alloc_queues min_nodes].
  rewrite Hn. cbn [mbind option_bind]. rewrite bool_decide_eq_false_2 by done.
  rewrite He. cbn [mbind option_bind]. cbn [Z.eqb OPAL_SUCCESS negb].
  destruct (Z.eqb_spec (Z.of_nat (length names)) (min_nodes a)); [|done]. cbn [negb].
  rewrite act_active by (by apply registered_upd_queue, registered_alloc_upd).
  change (nodes (post_rm _ _ (moved_to "running" i r st))) with (nodes st).
  change (node_heap (post_rm _ _ (moved_to "running" i r st))) with (node_heap st).
  rewrite (cl_items _ _ _ Hcl). cbn [mbind option_bind].
  destruct (mark_nodes_spec names ORCM_SCD_NODE_STATE_ALLOC refs (node_heap st)
              (cl_refs _ _ _ Hcl) (cluster_heap _ _ _ Hcl)) as (heap & -> & Hheap).
  exists heap. by split.
Qed.

(** A session whose node list expands to as many names as it asked for moves to the
    end of the running queue, exactly the nodes named become allocated, and the
    resource manager is told to launch it. *)
Theorem fifo_allocated_spec st refs ns r a i rx names :
  registered st → cluster st refs ns → get_alloc st r = Some a → r ∉ members st →
  find_named (lit "running") (queues st) = Some i →
  alloc_nodes a = Some rx → rx ≠ lit "ERROR" →
  regex_extract (Some rx) = Some (OPAL_SUCCESS, names) → Z.of_nat (length names) = min_nodes a →
  ∃ heap, fifo_allocated r st =
      Some (set_node_heap heap (post_rm cb_rm_active r (moved_to "running" i r st))) ∧
    ∀ x, heap !! x = marked refs names ORCM_SCD_NODE_STATE_ALLOC x <$> node_heap st !! x.
Proof. apply allocated_run. Qed.

(** ** fifo_terminated *)

Lemma remove_id_spec id l heap : Forall (λ x, is_Some (heap !! x)) l →
  remove_id id l heap = Some (filter (λ x, session_id <$> heap !! x ≠ Some id) l).
Proof.
  induction 1 as [|x l [s Hs] _ IH]; [done|]. cbn [remove_id]. rewrite Hs. cbn [mbind option_bind].
  rewrite IH. cbn [mbind option_bind]. destruct (Z.eqb_spec (session_id s) id).
  - rewrite filter_cons_False; [done|]. rewrite Hs. cbn. intros E. by subst.
  - rewrite filter_cons_True; [done|]. rewrite Hs. cbn. by intros [= E].
Qed.

Lemma terminated_run st refs ns r s a i q names :
  registered st → cluster st refs ns → session_heap st !! r = Some s → session_alloc s = Some a →
  regex_extract (alloc_nodes a) = Some (OPAL_SUCCESS, names) →
  find_named (lit "running") (queues st) = Some i → queues st !! i = Some q →
  Forall (λ x, is_Some (session_heap st !! x)) (queue_sessions q) →
  ∃ heap, fifo_terminated r st =
      Some (post_scd cb_fifo_schedule r
              (upd_queue i (filter (λ x, session_id <$> session_heap st !! x ≠ Some (session_id s)))
                 (set_node_heap heap st))) ∧
    ∀ x, heap !! x = marked refs names ORCM_SCD_NODE_STATE_UNALLOC x <$> node_heap st !! x.
Proof.
  intros Hreg Hcl Hs Ha He Hi Hq Hl. unfold fifo_terminated, get_alloc. rewrite Hs. cbn [mbind option_bind].
  rewrite Ha. cbn [mbind option_bind]. rewrite He. cbn [mbind option_bind Z.eqb OPAL_SUCCESS ORCM_SUCCESS negb].
  rewrite (cl_items _ _ _ Hcl). cbn [mbind option_bind].
  destruct (mark_nodes_spec names ORCM_SCD_NODE_STATE_UNALLOC refs (node_heap st)
              (cl_refs _ _ _ Hcl) (cluster_heap _ _ _ Hcl)) as (heap & -> & Hheap).
  cbn [mbind option_bind]. change (session_heap (set_node_heap heap st)) with (session_heap st).
  rewrite Hs. cbn [mbind option_bind]. unfold remove_running.
  change (queues (set_node_heap heap st)) with (queues st). rewrite Hi, Hq. cbn [mbind option_bind].
  change (session_heap (set_node_heap heap st)) with (session_heap st).
  rewrite (remove_id_spec _ _ _ Hl). cbn [mbind option_bind].
  exists heap. split; [|done]. rewrite act_schedule by (apply registered_upd_queue; by destruct Hreg).
  do 2 f_equal. unfold upd_queue. cbn. f_equal. apply list_eq. intros j.
  destruct (decide (i = j)) as [->|]; [|by rewrite !list_lookup_alter_ne].
  rewrite !list_lookup_alter_eq, Hq. done.
Qed.

(** A terminated session gives back exactly the nodes its list names, every session
    with its identifier leaves the running queue, the others keep their order, and
    the scheduler runs next. *)
Theorem fifo_terminated_spec st refs ns r s a i q names :
  registered st → cluster st refs ns → session_heap st !! r = Some s → session_alloc s = Some a →
  regex_extract (alloc_nodes a) = Some (OPAL_SUCCESS, names) →
  find_named (lit "running") (queues st) = Some i → queues st !! i = Some q →
  Forall (λ x, is_Some (session_heap st !! x)) (queue_sessions q) →
  ∃ heap, fifo_terminated r st =
      Some (post_scd cb_fifo_schedule r
              (upd_queue i (filter (λ x, session_id <$> session_heap st !! x ≠ Some (session_id s)))
                 (set_node_heap heap st))) ∧
    ∀ x, heap !! x = marked refs names ORCM_SCD_NODE_STATE_UNALLOC x <$> node_heap st !! x.
Proof. apply terminated_run. Qed.
End regex.
End ScdSpec.
