(* ===== verification/ScdRun.v ===== *)
(** * A session from the queue to its nodes and back

    The handlers composed by the event loops: the launch messages the daemons
    receive, the run of three turns that takes the head of the default queue to the running
    queue, and the termination that undoes it. *)

From Stdlib Require Import ZArith Lia Ascii.
From stdpp Require Import prelude numbers strings gmap list.
From S2P Require Import Prelude PointerArray CString Argv Dss Attr Alloc Scd ScdFifo ScdLemmas ScdSpec.

Local Open Scope Z_scope.

Module ScdRun.
Import Dss Attr Alloc Scd ScdFifo ScdLemmas ScdSpec.

Section run.
Context `{FloatText} `{NodeRegex} `{Rml} (good : cstring → Prop) `{!NodeRegexLaws good}.

(** ** Launch and cancel messages *)

(** A daemon that unpacks the buffer reads the command and the allocation. *)
Definition reads (buf : opal_buffer_t) (command : Z) (a : orcm_alloc_t) : Prop :=
  ∃ b1 b2, opal_dss_unpack t_uint8 1 buf = Some (b1, (OPAL_SUCCESS, 1, [command])) ∧
           opal_dss_unpack t_alloc 1 b1 = Some (b2, (OPAL_SUCCESS, 1, [received_alloc a])).

Lemma pack_command_spec command a : in_u 8 command → valid_alloc a →
  ∃ buf, pack_command command a = Some (inr buf) ∧ reads buf command a.
Proof.
  intros Hc Ha. unfold pack_command. set (b0 := mk_buf false [] 0 0).
  destruct (packs_dss t_uint8 false [command] [command]) as (x & Hx & Hx'); [|done|].
  { apply codec_uint8; [|done]. apply Forall_cons_2; [done|apply Forall_nil_2]. }
  destruct (packs_dss t_alloc false [a] _ (alloc_carries false a Ha)) as (y & Hy & Hy'); [done|].
  destruct (Hx b0 eq_refl) as (b1 & -> & X1). destruct (Hy b1) as (b2 & -> & X2); [apply X1|].
  pose proof (extended_trans _ _ _ _ _ X1 X2) as X. pose proof (extended_readable b0 _ b2 eq_refl X) as Hr.
  exists b2. split; [done|]. eexists _, _. split.
  - apply (Hx' 1 b2 (y ++ [])); [done|apply X|by apply readable_app].
  - apply (Hy' 1 _ []); [done|apply X|by apply readable_skip].
Qed.

Lemma tell_named_none command r i names refs ns st name :
  Forall2 (λ r n, node_heap st !! r = Some n) refs ns → names !! i = Some name →
  name ∉ node_name <$> ns → tell_named command r i names refs st = Some (st, true).
Proof.
  intros Hh Hn. induction Hh as [|j n refs ns Hj _ IH]; intros Hni; [done|]. cbn [tell_named].
  rewrite Hj. cbn [mbind option_bind]. rewrite Hn. cbn [mbind option_bind].
  cbn in Hni. apply not_elem_of_cons in Hni as [Hne Hni].
  rewrite bool_decide_eq_false_2 by congruence. by apply IH.
Qed.

(** The state when the message for the node at position [i] is packed. *)
Definition before_send (command : Z) (r i : nat) (n : orcm_node_t) (st : orcm_scd_base_t) : orcm_scd_base_t :=
  if (command =? ORCM_LAUNCH_STEPD_COMMAND) && (i =? 0)%nat then alloc_upd r (set_hnp (daemon n)) st else st.

Lemma tell_named_one command r i names refs ns st n a a' buf :
  Forall2 (λ r n, node_heap st !! r = Some n) refs ns → NoDup (node_name <$> ns) →
  n ∈ ns → names !! i = Some (node_name n) → get_alloc st r = Some a →
  get_alloc (before_send command r i n st) r = Some a' → pack_command command a' = Some (inr buf) →
  let st1 := before_send command r i n st in
  let m := mk_msg (daemon n) ORCM_RML_TAG_RM buf in
  rml_send_rc (sent st1) m = OPAL_SUCCESS →
  tell_named command r i names refs st = Some (set_sent (sent st1 ++ [m]) st1, true).
Proof.
  intros Hh Hnd Hin Hn Ha Ha' Hp st1 m Hrc.
  induction Hh as [|j n' refs ns Hj Hh IH]; [by apply not_elem_of_nil in Hin|]. cbn [tell_named].
  rewrite Hj. cbn [mbind option_bind]. rewrite Hn. cbn [mbind option_bind].
  cbn in Hnd. apply NoDup_cons in Hnd as [Hni Hnd]. apply elem_of_cons in Hin as [<-|Hin].
  - rewrite bool_decide_eq_true_2 by done.
    assert ((if (command =? ORCM_LAUNCH_STEPD_COMMAND) && (i =? 0)%nat
             then upd_alloc r (set_hnp (daemon n)) st else Some st) = Some st1) as ->.
    { unfold st1, before_send. destruct (_ && _); [|done]. by apply (upd_alloc_eq _ _ _ a). }
    cbn [mbind option_bind]. fold st1 in Ha'. rewrite Ha'. cbn [mbind option_bind]. rewrite Hp.
    cbn [mbind option_bind]. unfold send_buffer_nb. fold m. rewrite Hrc. cbn [Z.eqb OPAL_SUCCESS].
    apply (tell_named_none _ _ _ _ _ ns _ (node_name n)); [|done|done].
    unfold st1, before_send. by destruct (_ && _).
  - rewrite bool_decide_eq_false_2; [by apply IH|]. intros E. apply Hni. rewrite E.
    by apply list_elem_of_fmap_2.
Qed.

(** Positions after the first: the same message to each node. *)
Lemma tell_nodes_rest command r names refs ns chosen st i a buf :
  (∀ s m, rml_send_rc s m = OPAL_SUCCESS) →
  Forall2 (λ r n, node_heap st !! r = Some n) refs ns → NoDup (node_name <$> ns) →
  Forall (λ n, n ∈ ns) chosen → drop i names = node_name <$> chosen →
  ((command =? ORCM_LAUNCH_STEPD_COMMAND) && (i =? 0)%nat = false) →
  get_alloc st r = Some a → pack_command command a = Some (inr buf) →
  tell_nodes command r (length chosen) i names refs st =
  Some (set_sent (sent st ++ ((λ n, mk_msg (daemon n) ORCM_RML_TAG_RM buf) <$> chosen)) st).
Proof.
  intros Hrc Hh Hnd Hin. revert st i Hh. induction Hin as [|n chosen Hn _ IH]; intros st i Hh Hd Hi Ha Hp.
  { cbn. rewrite app_nil_r. by destruct st. }
  cbn [length tell_nodes]. cbn [fmap list_fmap] in Hd.
  assert (names !! i = Some (node_name n) ∧ drop (S i) names = node_name <$> chosen) as [Hni Hd'].
  { split; [rewrite <-(Nat.add_0_r i), <-lookup_drop, Hd; done|].
    rewrite <-(Nat.add_1_r i), <-drop_drop, Hd. done. }
  assert (before_send command r i n st = st) as Eb by (unfold before_send; by rewrite Hi).
  rewrite (tell_named_one command r i names refs ns st n a a buf) by (done || by rewrite Eb).
  cbn [mbind option_bind]. rewrite Eb, (IH _ (S i)); [|done|done|by rewrite andb_false_r|done|done].
  cbn [sent set_sent fmap list_fmap]. by rewrite <-app_assoc.
Qed.

Definition messages (buf : opal_buffer_t) (chosen : list orcm_node_t) : list rml_msg_t :=
  (λ n, mk_msg (daemon n) ORCM_RML_TAG_RM buf) <$> chosen.

(** Activating an allocation records its first node as the head of the job, starts
    counting the nodes that will report back, and sends the daemon of each of its
    nodes, in the order of the list, one launch message; what the daemon unpacks is the
    launch command and the whole allocation, the head of the job included. *)
Theorem scd_base_rm_active_spec st refs ns r s a first chosen :
  (∀ l m, rml_send_rc l m = OPAL_SUCCESS) →
  cluster st refs ns → session_heap st !! r = Some s → session_alloc s = Some a →
  regex_extract (alloc_nodes a) = Some (OPAL_SUCCESS, node_name <$> (first :: chosen)) →
  min_nodes a = Z.of_nat (length (first :: chosen)) → Forall (λ n, n ∈ ns) (first :: chosen) →
  let a' := set_hnp (daemon first) (set_hnpname (Some (node_name first)) a) in
  valid_alloc a' →
  ∃ buf, reads buf ORCM_LAUNCH_STEPD_COMMAND a' ∧
    scd_base_rm_active r st =
    Some (set_sent (sent st ++ messages buf (first :: chosen))
            (alloc_upd r (set_hnp (daemon first))
               (set_tracking (tracking st ++ [mk_tracker (to_int (session_id s)) 0])
                  (alloc_upd r (set_hnpname (Some (node_name first))) st)))).
Proof.
  intros Hrc [Hi Hh _ Hnd] Hs Hsa He Hm Hin a' Hv.
  destruct (pack_command_spec ORCM_LAUNCH_STEPD_COMMAND a') as (buf & Hp & Hr); [by unfold in_u|done|].
  exists buf. split; [done|]. unfold scd_base_rm_active.
  assert (get_alloc st r = Some a) as Ha by (unfold get_alloc; rewrite Hs; exact Hsa).
  rewrite Ha. cbn [mbind option_bind]. rewrite He. cbn [mbind option_bind Z.eqb OPAL_SUCCESS ORCM_SUCCESS negb].
  cbn [fmap list_fmap]. rewrite (upd_alloc_eq _ _ _ a) by done. cbn [mbind option_bind].
  set (st1 := alloc_upd r (set_hnpname (Some (node_name first))) st).
  assert (session_heap st1 !! r = Some (mk_session (session_id s) (Some (set_hnpname (Some (node_name first)) a)))) as Hs1.
  { unfold st1, alloc_upd. cbn. rewrite lookup_alter_eq, Hs. cbn. by rewrite Hsa. }
  rewrite Hs1. cbn [mbind option_bind session_id].
  set (st2 := set_tracking _ st1). change (nodes st2) with (nodes st). rewrite Hi. cbn [mbind option_bind].
  rewrite Hm, Nat2Z.id. cbn [length tell_nodes].
  apply Forall_cons in Hin as [Hf Hin].
  assert (get_alloc st2 r = Some (set_hnpname (Some (node_name first)) a)) as Ha2
    by (unfold get_alloc; change (session_heap st2) with (session_heap st1); by rewrite Hs1).
  assert (get_alloc (before_send ORCM_LAUNCH_STEPD_COMMAND r 0 first st2) r = Some a') as Ha'
    by (by apply (get_alloc_upd st2)).
  rewrite (tell_named_one _ r 0 _ refs ns st2 first _ a' buf) by (done || exact Hh).
  cbn [mbind option_bind].
  rewrite (tell_nodes_rest _ r _ refs ns chosen _ 1 a' buf) by (done || exact Hh).
  change (sent (set_sent _ _)) with (sent st ++ [mk_msg (daemon first) ORCM_RML_TAG_RM buf]).
  by rewrite <-app_assoc.
Qed.

(** Killing a running session sends the daemon of each of its nodes one cancel
    message that carries its allocation, and changes nothing else. *)
Theorem scd_base_rm_kill_spec st refs ns r a chosen :
  (∀ l m, rml_send_rc l m = OPAL_SUCCESS) →
  cluster st refs ns → get_alloc st r = Some a → valid_alloc a → chosen ≠ [] →
  regex_extract (alloc_nodes a) = Some (OPAL_SUCCESS, node_name <$> chosen) →
  min_nodes a = Z.of_nat (length chosen) → Forall (λ n, n ∈ ns) chosen →
  ∃ buf, reads buf ORCM_CANCEL_STEPD_COMMAND a ∧
    scd_base_rm_kill r st = Some (set_sent (sent st ++ messages buf chosen) st).
Proof.
  intros Hrc [Hi Hh _ Hnd] Ha Hv Hne He Hm Hin.
  destruct (pack_command_spec ORCM_CANCEL_STEPD_COMMAND a) as (buf & Hp & Hr); [by unfold in_u|done|].
  exists buf. split; [done|]. unfold scd_base_rm_kill. rewrite Ha. cbn [mbind option_bind].
  rewrite He. cbn [mbind option_bind Z.eqb OPAL_SUCCESS ORCM_SUCCESS negb].
  rewrite Hi. destruct chosen as [|n chosen]; [done|]. cbn [fmap list_fmap mbind option_bind].
  rewrite Hm, Nat2Z.id. by apply (tell_nodes_rest _ r _ refs ns (n :: chosen) _ 0 a buf).
Qed.

(** ** From the head of the default queue to the running queue *)

Lemma cluster_same st st' refs ns : nodes st' = nodes st → node_heap st' = node_heap st →
  cluster st refs ns → cluster st' refs ns.
Proof. intros En Eh [? ? ? ?]. split; by rewrite ?En, ?Eh. Qed.

(** The state a session leaves behind on its way from the head of the default queue
    [i] to the end of the running queue [k], with the node list [rx]. *)
Definition allocated_state (heap : gmap nat orcm_node_t) (rx : cstring) (i k s : nat) (rest : list nat)
    (st : orcm_scd_base_t) : orcm_scd_base_t :=
  set_node_heap heap (post_rm cb_rm_active s (moved_to "running" k s
    (alloc_upd s (set_alloc_nodes (Some rx))
       (set_rm_events [] (upd_queue i (λ _, rest) (set_scd_events [] st)))))).

Lemma schedule_path st refs ns i q k c s rest a :
  registered st → cluster st refs ns → Z.of_nat (length refs) ≤ INT_MAX →
  default_at st i q → NoDup (members st) → queue_sessions q = s :: rest →
  find_named (lit "running") (queues st) = Some k →
  get_alloc st s = Some a → 0 < min_nodes a ≤ Z.of_nat (length (free_names ns)) →
  Forall good (free_names ns) → lit "ERROR" ∉ free_names ns →
  scd_events st = [ev cb_fifo_schedule c] → rm_events st = [] →
  ∃ st1 st2 heap rx names, let st3 := allocated_state heap rx i k s rest st in
    scd_turn st = Some st1 ∧ rm_turn st1 = Some st2 ∧ scd_turn st2 = Some st3 ∧
    get_alloc st3 s = Some (set_alloc_queues (Some (lit "running")) (set_alloc_nodes (Some rx) a)) ∧
    regex_extract (Some rx) = Some (OPAL_SUCCESS, names) ∧ names ≡ₚ taken a ns ∧
    Z.of_nat (length names) = min_nodes a ∧
    (∀ x, heap !! x = marked refs (taken a ns) ORCM_SCD_NODE_STATE_ALLOC x <$> node_heap st !! x).
Proof.
  intros Hreg Hcl Hlen Hd Hnd Hqs Hk Ha Hm Hg Herr Hse Hre.
  (* the scheduler *)
  set (sa := set_scd_events [] st).
  assert (scd_turn st = Some (post_rm cb_rm_request s (upd_queue i (λ _, rest) sa))) as E1.
  { unfold scd_turn. rewrite Hse. cbn [next_event mbind option_bind ev_cb ev_caddy ev run_handler]. fold sa.
    pose proof (fifo_schedule_run sa refs ns i q c) as Hsp.
    rewrite Hqs in Hsp. rewrite (Hsp ltac:(by destruct Hreg) ltac:(by apply (cluster_same st)) Hlen Hd Hnd a Ha).
    by rewrite decide_True by lia. }
  set (st1 := post_rm cb_rm_request s (upd_queue i (λ _, rest) sa)) in *.
  (* the resource manager *)
  set (sb := set_rm_events [] (upd_queue i (λ _, rest) sa)).
  assert (registered sb ∧ cluster sb refs ns ∧ get_alloc sb s = Some a) as (Hregb & Hclb & Hab).
  { split_and!; [by destruct Hreg|by apply (cluster_same st)|done]. }
  pose proof (rm_request_run good sb refs ns s a Hregb Hclb Hab ltac:(lia) Hg) as Hreq.
  rewrite decide_True in Hreq by lia. destruct Hreq as (rx & names & E2' & He & Hp).
  set (st2 := post_scd cb_fifo_allocated s (alloc_upd s (set_alloc_nodes (Some rx)) sb)) in *.
  assert (rm_turn st1 = Some st2) as E2.
  { unfold rm_turn. change (rm_events st1) with (rm_events st ++ [ev cb_rm_request s]). rewrite Hre.
    cbn [app next_event mbind option_bind ev_cb ev_caddy ev run_handler]. exact E2'. }
  (* the scheduler again *)
  set (sc := alloc_upd s (set_alloc_nodes (Some rx)) sb).
  assert (Z.of_nat (length names) = min_nodes a) as Hln.
  { rewrite Hp. unfold taken. rewrite length_take. lia. }
  assert (rx ≠ lit "ERROR") as Hrx.
  { intros ->. rewrite regex_error_name in He. injection He as <-. symmetry in Hp.
    apply Permutation_singleton_r in Hp. apply Herr. rewrite <-(take_drop (Z.to_nat (min_nodes a)) (free_names ns)).
    apply elem_of_app. left. change (take _ _) with (taken a ns). rewrite Hp. by left. }
  destruct (allocated_run sc refs ns s (set_alloc_nodes (Some rx) a) k rx names)
    as (heap & E3' & Hheap); try done.
  { by destruct Hregb. }
  { by apply (cluster_same sb). }
  { by apply (get_alloc_upd sb). }
  { pose proof (not_on_list_tail st i q s rest Hnd (proj1 Hd) Hqs) as Hon.
    rewrite on_a_list_members in Hon. by apply bool_decide_eq_false in Hon. }
  { change (queues sc) with (queues (upd_queue i (λ _, rest) st)). by rewrite upd_queue_find. }
  exists st1, st2, heap, rx, names. cbn zeta. change (allocated_state heap rx i k s rest st) with
    (set_node_heap heap (post_rm cb_rm_active s (moved_to "running" k s sc))).
  split_and!; try done.
  - change (get_alloc (alloc_upd s (set_alloc_queues (Some (lit "running"))) sc) s =
      Some (set_alloc_queues (Some (lit "running")) (set_alloc_nodes (Some rx) a))).
    apply get_alloc_upd. by apply (get_alloc_upd sb).
  - intros x. change (node_heap (set_node_heap heap _)) with heap. rewrite Hheap.
    change (node_heap sc) with (node_heap st). destruct (node_heap st !! x); [|done]. cbn. f_equal.
    by apply marked_perm.
Qed.

(** Everything of the scheduler but the queues, the nodes, the events and the allocation of
    the session [s] is the same. *)
Record same_but (s : nat) (st st' : orcm_scd_base_t) : Prop := {
  sb_states : states st' = states st;
  sb_rmstates : rmstates st' = rmstates st;
  sb_nodes : nodes st' = nodes st;
  sb_topologies : topologies st' = topologies st;
  sb_topo_heap : topo_heap st' = topo_heap st;
  sb_tracking : tracking st' = tracking st;
  sb_last_id : last_session_id st' = last_session_id st;
  sb_sent : sent st' = sent st;
  sb_others : ∀ x, x ≠ s → session_heap st' !! x = session_heap st !! x;
  sb_id : session_id <$> session_heap st' !! s = session_id <$> session_heap st !! s;
}.

Lemma allocated_state_same heap rx i k s rest st : same_but s st (allocated_state heap rx i k s rest st).
Proof.
  split; try done.
  - intros x Hx. cbn. by rewrite !lookup_alter_ne.
  - cbn. rewrite !lookup_alter_eq. by destruct (session_heap st !! s).
Qed.

(** C1. The way of a session to its nodes, when nothing else is in flight, enough nodes
    are free, and the compression of names keeps their names: the scheduler
    takes it from the head of the default queue, the resource manager chooses the first
    free nodes, and the scheduler moves it to the end of the running queue.  At the end
    exactly the chosen nodes have changed, from unallocated to allocated; they are as
    many as the session asked for, its node list expands to their names, and the
    launch is the only event pending; its allocation has the node list and the name of its
    queue and is otherwise as it was, and the other sessions, the trackers, the messages
    sent and all other tables of the scheduler are untouched. *)
Theorem schedule_to_running st refs ns i q k c s rest a :
  registered st → cluster st refs ns → Z.of_nat (length refs) ≤ INT_MAX →
  default_at st i q → NoDup (members st) → queue_sessions q = s :: rest →
  find_named (lit "running") (queues st) = Some k →
  get_alloc st s = Some a → 0 < min_nodes a ≤ Z.of_nat (length (free_names ns)) →
  Forall good (free_names ns) → lit "ERROR" ∉ free_names ns →
  scd_events st = [ev cb_fifo_schedule c] → rm_events st = [] →
  ∃ st1 st2 st3 rx names,
    scd_turn st = Some st1 ∧ rm_turn st1 = Some st2 ∧ scd_turn st2 = Some st3 ∧
    queues st3 = queues (upd_queue k (λ l, l ++ [s]) (upd_queue i (λ _, rest) st)) ∧
    get_alloc st3 s = Some (set_alloc_queues (Some (lit "running")) (set_alloc_nodes (Some rx) a)) ∧
    regex_extract (Some rx) = Some (OPAL_SUCCESS, names) ∧ names ≡ₚ taken a ns ∧
    Z.of_nat (length names) = min_nodes a ∧
    (∀ x, node_heap st3 !! x = marked refs (taken a ns) ORCM_SCD_NODE_STATE_ALLOC x <$> node_heap st !! x) ∧
    scd_events st3 = [] ∧ rm_events st3 = [ev cb_rm_active s] ∧ same_but s st st3.
Proof.
  intros Hreg Hcl Hlen Hd Hnd Hqs Hk Ha Hm Hg Herr Hse Hre.
  destruct (schedule_path st refs ns i q k c s rest a) as (st1 & st2 & heap & rx & names & E1 & E2 & E3 & HH & He & Hp & Hl & Hheap);
    [done..|].
  exists st1, st2, (allocated_state heap rx i k s rest st), rx, names. split_and!; try done. apply allocated_state_same.
Qed.

(** A session that asks for no nodes is lost: the scheduler takes it off its queue, the
    resource manager does nothing with it, and afterwards it is on no queue and in no
    pending event. *)
Theorem empty_request_lost st refs ns i q c s rest a :
  registered st → cluster st refs ns → Z.of_nat (length refs) ≤ INT_MAX →
  default_at st i q → NoDup (members st) → queue_sessions q = s :: rest →
  get_alloc st s = Some a → min_nodes a ≤ 0 →
  scd_events st = [ev cb_fifo_schedule c] → rm_events st = [] →
  ∃ st1 st2, scd_turn st = Some st1 ∧ rm_turn st1 = Some st2 ∧
    (s ∉ members st2) ∧ scd_events st2 = [] ∧ rm_events st2 = [].
Proof.
  intros Hreg Hcl Hlen Hd Hnd Hqs Ha Hm Hse Hre. set (sa := set_scd_events [] st).
  assert (scd_turn st = Some (post_rm cb_rm_request s (upd_queue i (λ _, rest) sa))) as E1.
  { unfold scd_turn. rewrite Hse. cbn [next_event mbind option_bind ev_cb ev_caddy ev run_handler]. fold sa.
    pose proof (fifo_schedule_run sa refs ns i q c) as Hsp.
    rewrite Hqs in Hsp. rewrite (Hsp ltac:(by destruct Hreg) ltac:(by apply (cluster_same st)) Hlen Hd Hnd a Ha).
    by rewrite decide_True by lia. }
  eexists _, (set_rm_events [] (upd_queue i (λ _, rest) sa)). split_and!; [exact E1| | |done|done].
  - unfold rm_turn. change (rm_events (post_rm _ _ _)) with (rm_events st ++ [ev cb_rm_request s]). rewrite Hre.
    cbn [app next_event mbind option_bind ev_cb ev_caddy ev run_handler]. unfold scd_base_rm_request.
    change (get_alloc (set_rm_events _ _) s) with (get_alloc st s). rewrite Ha. cbn [mbind option_bind].
    by destruct (Z.ltb_spec 0 (min_nodes a)); [lia|].
  - pose proof (not_on_list_tail st i q s rest Hnd (proj1 Hd) Hqs) as Hon.
    rewrite on_a_list_members in Hon. by apply bool_decide_eq_false in Hon.
Qed.

(** ** And back *)

(** A name that was taken belongs to a node that was unallocated. *)
Lemma taken_unalloc st refs ns a x n : cluster st refs ns → node_heap st !! x = Some n → x ∈ refs →
  node_name n ∈ taken a ns → scd_state n = ORCM_SCD_NODE_STATE_UNALLOC.
Proof.
  intros [_ Hh _ Hnd] Hx Hr Hn.
  assert (node_name n ∈ free_names ns) as Hf.
  { rewrite <-(take_drop (Z.to_nat (min_nodes a)) (free_names ns)). apply elem_of_app. by left. }
  apply list_elem_of_fmap in Hf as (n' & En & Hn'). apply list_elem_of_filter in Hn' as [Hfree Hin'].
  assert (n ∈ ns) as Hin.
  { apply list_elem_of_lookup in Hr as [j Hj]. destruct (Forall2_lookup_l _ _ _ _ _ Hh Hj) as (m & Hm & Hm').
    rewrite Hx in Hm'. injection Hm' as ->. by eapply list_elem_of_lookup_2. }
  apply list_elem_of_lookup in Hin as [j Hj], Hin' as [j' Hj'].
  assert (j = j') as <-.
  { eapply NoDup_lookup; [exact Hnd|by rewrite list_lookup_fmap, Hj|]. rewrite list_lookup_fmap, Hj'. cbn. by rewrite En. }
  rewrite Hj in Hj'. injection Hj' as <-. unfold is_free in Hfree.
  apply andb_prop in Hfree as [E _]. by apply Z.eqb_eq.
Qed.

Lemma marked_back st refs ns a x n names : cluster st refs ns → node_heap st !! x = Some n →
  names ≡ₚ taken a ns →
  marked refs names ORCM_SCD_NODE_STATE_UNALLOC x (marked refs (taken a ns) ORCM_SCD_NODE_STATE_ALLOC x n) = n.
Proof.
  intros Hcl Hx Hp. rewrite (marked_perm _ _ _ _ _ _ Hp). unfold marked.
  destruct (decide (x ∈ refs ∧ node_name n ∈ taken a ns)) as [[Hr Hn]|Hd]; [|by rewrite decide_False].
  rewrite decide_True by done. pose proof (taken_unalloc st refs ns a x n Hcl Hx Hr Hn) as E.
  destruct n as [nm d ns' sc t]. cbn in E. unfold set_scd_state. cbn. by rewrite E.
Qed.

Lemma cluster_marked st refs ns names v heap : cluster st refs ns →
  (∀ x, heap !! x = marked refs names v x <$> node_heap st !! x) →
  ∃ ns', cluster (set_node_heap heap st) refs ns'.
Proof.
  intros [Hi Hh Hr Hnd] Hheap. exists (zip_with (marked refs names v) refs ns). split.
  - done.
  - cbn. revert Hheap. generalize (marked refs names v). clear -Hh. intros g Hheap.
    induction Hh as [|x n l ns' Hx _ IH]; constructor; [|exact IH]. by rewrite Hheap, Hx.
  - done.
  - assert (node_name <$> zip_with (marked refs names v) refs ns = node_name <$> ns) as ->; [|done].
    pose proof (node_name_marked refs names v) as Hg. revert Hg. generalize (marked refs names v). clear -Hh.
    intros g Hg. induction Hh as [|x n l ns' _ _ IH]; [done|]. cbn. by rewrite Hg, IH.
Qed.

Lemma gives_back_queues st st3 i k p s rest (ids : gmap nat orcm_session_t) id heap4 :
  queues st3 = queues (upd_queue k (λ l, l ++ [s]) (upd_queue i (λ _, rest) st)) →
  queues st !! k = Some p → i ≠ k →
  session_id <$> ids !! s = Some id →
  Forall (λ x, session_id <$> ids !! x ≠ Some id) (queue_sessions p) →
  queues (post_scd cb_fifo_schedule s
    (upd_queue k (filter (λ x, session_id <$> ids !! x ≠ Some id)) (set_node_heap heap4 st3))) =
  queues (upd_queue i (λ _, rest) st).
Proof.
  intros E Hp Hik Hs Hrun. change (queues (post_scd _ _ (upd_queue k ?f _))) with (queues (upd_queue k f st3)).
  unfold upd_queue in *. cbn [queues set_queues] in *. rewrite E, list_alter_alter_eq.
  apply list_eq. intros j. destruct (decide (k = j)) as [<-|]; [|by rewrite list_lookup_alter_ne].
  rewrite list_lookup_alter_eq, list_lookup_alter_ne, Hp by done. cbn. f_equal.
  rewrite filter_app, filter_cons_False by (intros Hn; by apply Hn). rewrite filter_nil, app_nil_r.
  rewrite filter_Forall by done. by destruct p.
Qed.

(** C9. When the session that was scheduled terminates, its nodes and its place on the
    running queue are given back: every node is as it was before the session was
    scheduled, and the sessions of the running queue are those that ran before. *)
Theorem scheduled_gives_back st refs ns i q k p c s rest a sess :
  registered st → cluster st refs ns → Z.of_nat (length refs) ≤ INT_MAX →
  default_at st i q → NoDup (members st) → queue_sessions q = s :: rest →
  find_named (lit "running") (queues st) = Some k → queues st !! k = Some p →
  session_heap st !! s = Some sess → session_alloc sess = Some a →
  Forall (λ x, ∃ s', session_heap st !! x = Some s' ∧ session_id s' ≠ session_id sess) (queue_sessions p) →
  0 < min_nodes a ≤ Z.of_nat (length (free_names ns)) →
  Forall good (free_names ns) → lit "ERROR" ∉ free_names ns →
  scd_events st = [ev cb_fifo_schedule c] → rm_events st = [] →
  ∃ st1 st2 st3 st4,
    scd_turn st = Some st1 ∧ rm_turn st1 = Some st2 ∧ scd_turn st2 = Some st3 ∧
    fifo_terminated s st3 = Some st4 ∧ node_heap st4 = node_heap st ∧
    queues st4 = queues (upd_queue i (λ _, rest) st) ∧
    scd_events st4 = [ev cb_fifo_schedule s].
Proof.
  intros Hreg Hcl Hlen Hd Hnd Hqs Hk Hp Hs Hsa Hrun Hm Hg Herr Hse Hre.
  assert (get_alloc st s = Some a) as Ha by (unfold get_alloc; by rewrite Hs).
  destruct (schedule_path st refs ns i q k c s rest a)
    as (st1 & st2 & heap & rx & names & E1 & E2 & E3 & Ha3 & He & Hperm & Hl & Hheap); [done..|].
  set (st3 := allocated_state heap rx i k s rest st) in *.
  assert (i ≠ k) as Hik.
  { intros ->. destruct (find_named_Some _ _ _ Hk) as (q' & Hq' & Hn' & _), Hd as (Hq & Hn & _).
    rewrite Hq in Hq'. injection Hq' as <-. by rewrite Hn in Hn'. }
  destruct (cluster_marked st refs ns (taken a ns) ORCM_SCD_NODE_STATE_ALLOC heap Hcl Hheap) as [ns' Hcl'].
  set (a3 := set_alloc_queues (Some (lit "running")) (set_alloc_nodes (Some rx) a)) in *.
  assert (session_heap st3 !! s = Some (mk_session (session_id sess) (Some a3))) as Hs3.
  { cbn. by rewrite !lookup_alter_eq, Hs; cbn; rewrite Hsa. }
  assert (∀ x, session_id <$> session_heap st3 !! x = session_id <$> session_heap st !! x) as Hids.
  { intros x. cbn. destruct (decide (x = s)) as [->|]; [|by rewrite !lookup_alter_ne].
    rewrite !lookup_alter_eq. by destruct (session_heap st !! s). }
  destruct (terminated_run st3 refs ns' s (mk_session (session_id sess) (Some a3)) a3 k (set_sessions (queue_sessions p ++ [s]) p) names)
    as (heap4 & E4 & Hheap4); try done.
  { by destruct Hreg. }
  { by apply (cluster_same (set_node_heap heap st)). }
  { change (queues st3) with (queues (upd_queue k (λ l, l ++ [s]) (upd_queue i (λ _, rest) st))). by rewrite !upd_queue_find. }
  { cbn. by rewrite list_lookup_alter_eq, list_lookup_alter_ne, Hp. }
  { cbn [queue_sessions set_sessions]. apply Forall_app. split; [|apply Forall_cons_2; [by rewrite Hs3|constructor]].
    eapply Forall_impl; [exact Hrun|]. intros x (s' & Hx & _). apply (fmap_is_Some session_id).
    rewrite Hids, Hx. by eexists. }
  eexists st1, st2, st3, _. split_and!; [done..|exact E4| | |].
  - apply map_eq. intros x. change (node_heap (post_scd _ _ _)) with heap4. rewrite Hheap4.
    change (node_heap st3) with heap. rewrite Hheap. destruct (node_heap st !! x) as [n|] eqn:Hx; [|done].
    cbn. f_equal. by apply (marked_back st refs ns).
  - cbn [session_id]. eapply gives_back_queues; try done.
    + by rewrite Hids, Hs.
    + eapply Forall_impl; [exact Hrun|]. intros x (s' & Hx & Hne). rewrite Hids, Hx. cbn. congruence.
  - done.
Qed.

End run.
End ScdRun.
