(* ===== verification/ScdQueues.v ===== *)
(** * Queues: their order, cancelled sessions and failed allocations

    The queues a configuration gives, what [fifo_cancel] does to the session it looks
    for, and the way back of a session whose nodes could not be had. *)

From Stdlib Require Import ZArith Lia Ascii.
From stdpp Require Import prelude numbers strings gmap list sorting.
From S2P Require Import Prelude PointerArray CString Argv Dss Attr Alloc Scd ScdFifo ScdLemmas ScdSpec.

Local Open Scope Z_scope.

Module ScdQueues.
Import Dss Attr Alloc Scd ScdFifo ScdLemmas ScdSpec.

(** ** The queues of a configuration *)

(** In the order of the scheduler: highest priority first. *)
Definition above (p q : orcm_queue_t) : Prop := queue_priority q ≤ queue_priority p.

Lemma insert_by_priority_low q qs : Forall (λ p, queue_priority q ≤ queue_priority p) qs →
  insert_by_priority q qs = qs.
Proof.
  induction 1 as [|p qs Hp _ IH]; [done|]. cbn [insert_by_priority].
  destruct (Z.ltb_spec (queue_priority p) (queue_priority q)); [lia|]. by rewrite IH.
Qed.

Lemma insert_by_priority_perm q qs : Exists (λ p, queue_priority p < queue_priority q) qs →
  insert_by_priority q qs ≡ₚ q :: qs.
Proof.
  induction qs as [|p qs IH]; intros He; [by apply Exists_nil in He|]. cbn [insert_by_priority].
  destruct (Z.ltb_spec (queue_priority p) (queue_priority q)); [done|].
  apply Exists_cons in He as [?|He]; [lia|]. rewrite (IH He). constructor.
Qed.

Lemma insert_by_priority_sorted q qs : StronglySorted above qs → StronglySorted above (insert_by_priority q qs).
Proof.
  induction 1 as [|p qs Hs IH Hp]; [constructor|]. cbn [insert_by_priority].
  destruct (Z.ltb_spec (queue_priority p) (queue_priority q)).
  - constructor; [by constructor|]. constructor; [unfold above; lia|].
    eapply Forall_impl; [exact Hp|]. intros x Hx. unfold above in *. lia.
  - constructor; [done|]. apply Forall_forall. intros x Hx. rewrite Forall_forall in Hp.
    clear -Hx Hp H. revert Hx. induction qs as [|y qs IHq]; cbn [insert_by_priority].
    { by intros ?%not_elem_of_nil. }
    assert (above p y) as Hy by (apply Hp; by left).
    destruct (queue_priority y <? queue_priority q); intros [->|Hx]%elem_of_cons; try done.
    + apply elem_of_cons in Hx as [->|Hx]; [done|]. apply Hp. by right.
    + apply IHq; [|done]. intros z Hz. apply Hp. by right.
Qed.

(** What the loop over the configuration keeps. *)
Record queue_order (qs : list orcm_queue_t) : Prop := {
  qo_sorted : StronglySorted above qs;
  qo_low : Forall (λ p, 0 ≤ queue_priority p) qs;
  qo_zero : Exists (λ p, queue_priority p = 0) qs;
}.

Lemma configured_queues_spec entries new qs : queue_order qs →
  queue_of_config <$> entries = Some <$> new →
  queue_order (configured_queues entries qs) ∧
  configured_queues entries qs ≡ₚ filter (λ q, 0 < queue_priority q) new ++ qs.
Proof.
  revert new qs. induction entries as [|e entries IH]; intros [|q new] qs Hq E; try done.
  cbn in E. injection E as E1 E2. cbn [configured_queues]. rewrite E1.
  destruct Hq as [Hs Hl Hz]. destruct (decide (0 < queue_priority q)) as [Hp|Hp].
  - assert (insert_by_priority q qs ≡ₚ q :: qs) as Hperm.
    { apply insert_by_priority_perm. eapply Exists_impl; [exact Hz|]. cbn. intros; lia. }
    destruct (IH new (insert_by_priority q qs)) as [Ho Hp']; [split|done|].
    + by apply insert_by_priority_sorted.
    + rewrite Hperm. constructor; [lia|done].
    + rewrite Hperm. by right.
    + split; [done|]. rewrite filter_cons_True, Hp', Hperm by done. cbn. symmetry. apply Permutation_middle.
  - rewrite insert_by_priority_low.
    + rewrite filter_cons_False by done. by apply IH.
    + eapply Forall_impl; [exact Hl|]. cbn. intros; lia.
Qed.

(** The queues of a configuration whose entries are well formed: those of positive
    priority, highest first, then the queues running, hold and default; an entry of
    priority zero or less gives no queue. *)
Theorem construct_queues_spec st entries new :
  queues st = [] → queue_of_config <$> entries = Some <$> new →
  let st' := orcm_scd_base_construct_queues (Some entries) st in
  StronglySorted above (queues st') ∧
  queues st' ≡ₚ filter (λ q, 0 < queue_priority q) new ++ base_queues.
Proof.
  intros E Hn. cbn. rewrite E. destruct (configured_queues_spec entries new base_queues) as [[Hs _ _] Hp]; [|done|done].
  split.
  - repeat (constructor; [|forall_list]). constructor.
  - forall_list.
  - by left.
Qed.

Lemma construct_queues_witness :
  queues (orcm_scd_base_construct_queues (Some (lit <$> ["small:1:0"; "idle:0:0"; "big:3:0"])) orcm_scd_base_open)
  ≡ₚ [mk_queue (lit "small") 1 []; mk_queue (lit "big") 3 []] ++ base_queues.
Proof.
  apply (construct_queues_spec orcm_scd_base_open (lit <$> ["small:1:0"; "idle:0:0"; "big:3:0"])
           [mk_queue (lit "small") 1 []; mk_queue (lit "idle") 0 []; mk_queue (lit "big") 3 []]); reflexivity.
Defined.

(** ** Cancelling *)

(** The identifier belongs to [s] alone among the sessions of the queues. *)
Definition only_id (st : orcm_scd_base_t) (id : Z) (s : option nat) : Prop :=
  Forall (λ x, ∃ s', session_heap st !! x = Some s' ∧ (session_id s' = id ↔ Some x = s)) (members st).

(** The session, if it is on the list. *)
Definition among (s : option nat) (l : list nat) : option nat := s ≫= λ x, if decide (x ∈ l) then Some x else None.

Lemma among_None s l : (∀ x, s = Some x → x ∉ l) → among s l = None.
Proof. intros Hs. destruct s as [x|]; [|done]. cbn. by rewrite decide_False by by apply Hs. Qed.

Lemma find_id_spec id l heap s :
  Forall (λ x, ∃ s', heap !! x = Some s' ∧ (session_id s' = id ↔ Some x = s)) l →
  find_id id l heap = Some (among s l).
Proof.
  induction 1 as [|x l (s' & Hx & Hid) _ IH]; cbn [find_id].
  - rewrite among_None; [done|]. by intros x _ ?%not_elem_of_nil.
  - rewrite Hx. cbn [mbind option_bind]. destruct (Z.eqb_spec (session_id s') id) as [E|E].
    + apply Hid in E as <-. cbn. by rewrite decide_True by by left.
    + rewrite IH. f_equal. destruct s as [y|]; [|done]. cbn.
      assert (x ≠ y) by (intros ->; by destruct E; apply Hid).
      destruct (decide (y ∈ l)); [by rewrite decide_True by by right|].
      rewrite decide_False; [done|]. by intros [->|?]%elem_of_cons.
Qed.

Lemma find_id_queue st id s i q : only_id st id s → queues st !! i = Some q →
  find_id id (queue_sessions q) (session_heap st) = Some (among s (queue_sessions q)).
Proof.
  intros Ho Hq. apply find_id_spec. unfold only_id, members in Ho. rewrite (members_split _ _ _ Hq) in Ho.
  by apply Forall_app in Ho as [_ [Ho _]%Forall_app].
Qed.

Section cancel.
Context `{FloatText} `{NodeRegex} `{Rml}.

(** The part of the loop that does not meet the session. *)
Lemma cancel_loop_none n i r id st s : only_id st id s → (i + n = length (queues st))%nat →
  (∀ j q x, (i ≤ j)%nat → queues st !! j = Some q → s = Some x → x ∉ queue_sessions q) →
  cancel_loop n i r id st = Some st.
Proof.
  intros Ho. revert i. induction n as [|n IH]; intros i Hl Hn; [done|]. cbn [cancel_loop].
  destruct (lookup_lt_is_Some_2 (queues st) i) as [q Hq]; [lia|]. rewrite Hq. cbn [mbind option_bind].
  rewrite (find_id_queue st id s i q), among_None by (done || (intros x Hx; by apply (Hn i q x))).
  cbn [mbind option_bind]. apply IH; [lia|]. intros j p x Hj. apply Hn. lia.
Qed.

Lemma members_elsewhere st i j q p x : NoDup (members st) → queues st !! i = Some q → x ∈ queue_sessions q →
  queues st !! j = Some p → x ∈ queue_sessions p → i = j.
Proof.
  unfold members. intros Hnd Hi Hx Hj Hx'. destruct (decide (i = j)) as [|Hne]; [done|].
  assert (∀ (qs : list orcm_queue_t) i j q p, NoDup (concat (queue_sessions <$> qs)) → (i < j)%nat →
            qs !! i = Some q → x ∈ queue_sessions q → qs !! j = Some p → x ∈ queue_sessions p → False) as HH.
  { clear. intros qs i j q p Hnd Hij Hi Hx Hj Hx'. rewrite (members_split _ _ _ Hi) in Hnd.
    apply NoDup_app in Hnd as (_ & _ & Hnd). apply NoDup_app in Hnd as (_ & Hd & _). apply (Hd x Hx).
    apply elem_of_members. exists (j - S i)%nat, p. rewrite lookup_drop.
    by replace (S i + (j - S i))%nat with j by lia. }
  exfalso. destruct (decide (i < j)%nat); [by eapply (HH (queues st) i j)|]. eapply (HH (queues st) j i); try done. lia.
Qed.

Lemma cancel_loop_skip st s k j i q r id : only_id st id (Some s) → NoDup (members st) →
  queues st !! i = Some q → s ∈ queue_sessions q → (j + k = i)%nat →
  cancel_loop (length (queues st) - j) j r id st = cancel_loop (length (queues st) - i) i r id st.
Proof.
  intros Ho Hnd Hi Hs. revert j. induction k as [|k IH]; intros j Hj; [by assert (j = i) as -> by lia|].
  rewrite <-(IH (S j)) by lia. pose proof (lookup_lt_Some _ _ _ Hi).
  destruct (length (queues st) - j)%nat as [|m] eqn:Em; [lia|]. cbn [cancel_loop].
  destruct (lookup_lt_is_Some_2 (queues st) j) as [p Hp]; [lia|]. rewrite Hp. cbn [mbind option_bind].
  rewrite (find_id_queue st id (Some s) j p), among_None by
    (done || (intros x [= <-] Hx; pose proof (members_elsewhere st i j q p s Hnd Hi Hs Hp Hx); lia)).
  cbn [mbind option_bind]. f_equal. lia.
Qed.

(** Cancelling the session with an identifier: if it runs, the resource manager is
    told to kill it and it stays on the running queue until its nodes report; if it
    waits, it leaves its queue, the others keep their order, and the scheduler
    runs; if no queue has it, nothing happens. *)
Theorem fifo_cancel_spec st r c s :
  registered st → NoDup (members st) → session_heap st !! r = Some c → only_id st (session_id c) s →
  match s with
  | None => fifo_cancel r st = Some st
  | Some s => ∀ i q, queues st !! i = Some q → s ∈ queue_sessions q →
      fifo_cancel r st =
      Some (if decide (queue_name q = lit "running") then post_rm cb_rm_kill s st
            else post_scd cb_fifo_schedule r (upd_queue i (filter (λ x, x ≠ s)) st))
  end.
Proof.
  intros Hreg Hnd Hr Ho. unfold fifo_cancel. rewrite Hr. cbn [mbind option_bind].
  destruct s as [s|]; [|by apply (cancel_loop_none _ _ _ _ _ None)]. intros i q Hi Hs.
  replace (length (queues st)) with (length (queues st) - 0)%nat by lia.
  rewrite (cancel_loop_skip st s i 0 i q) by (done || lia). pose proof (lookup_lt_Some _ _ _ Hi).
  destruct (length (queues st) - i)%nat as [|m] eqn:Em; [lia|]. cbn [cancel_loop]. rewrite Hi. cbn [mbind option_bind].
  rewrite (find_id_queue st _ (Some s) i q) by done. cbn [among mbind option_bind]. rewrite decide_True by done.
  cbn [mbind option_bind]. case_bool_decide; case_decide; try done.
  - rewrite act_kill by done. apply (cancel_loop_none _ _ _ _ _ (Some s)); [done|cbn; lia|].
    intros j p x Hj Hp [= <-] Hx. pose proof (members_elsewhere st i j q p s Hnd Hi Hs Hp Hx). lia.
  - rewrite act_schedule by by apply registered_upd_queue.
    apply (cancel_loop_none _ _ _ _ _ (Some s)).
    + unfold only_id, members in *. cbn. rewrite (members_split _ _ _ Hi) in Ho.
      apply Forall_app in Ho as [H1' [H2' H3']%Forall_app].
      rewrite (members_alter _ _ _ _ Hi). apply Forall_app; split; [done|].
      apply Forall_app; split; [|done]. apply Forall_forall. intros x [_ Hx]%list_elem_of_filter.
      rewrite Forall_forall in H2'. by apply H2'.
    + cbn. rewrite length_alter. lia.
    + intros j p x Hj Hp [= <-] Hx. cbn in Hp. rewrite list_lookup_alter_ne in Hp by lia.
      pose proof (members_elsewhere st i j q p s Hnd Hi Hs Hp Hx). lia.
Qed.

(** ** When the nodes could not be had *)

(** A session whose node list could not be written ([ERROR]): with nothing else on the
    running queue it goes back to the head of the default queue and the scheduler runs
    again; but with a session running, it is that session that is taken off the running
    queue, and the failed one is put on the default queue while it is still on
    the running queue, which corrupts both lists. *)
Theorem fifo_allocated_failed st r a i j q :
  registered st → get_alloc st r = Some a → r ∉ members st → alloc_nodes a = Some (lit "ERROR") →
  find_named (lit "running") (queues st) = Some i → queues st !! i = Some q →
  find_named (lit "default") (queues st) = Some j →
  fifo_allocated r st =
  match queue_sessions q with
  | [] => Some (post_scd cb_fifo_schedule r (upd_queue j (cons r) (alloc_upd r (set_alloc_queues (Some (lit "running"))) st)))
  | _ => None
  end.
Proof.
  intros Hreg Ha Hm Hn Hi Hq Hj. unfold fifo_allocated. rewrite Ha. cbn [mbind option_bind].
  unfold put_on_running. rewrite Hi, (upd_alloc_eq _ _ _ a) by done. cbn [mbind option_bind].
  set (st1 := alloc_upd r (set_alloc_queues (Some (lit "running"))) st).
  unfold append_session. rewrite on_a_list_members. change (members st1) with (members st).
  rewrite bool_decide_eq_false_2 by done. cbn [mbind option_bind].
  change (get_alloc (upd_queue i (λ l, l ++ [r]) st1) r) with (get_alloc st1 r).
  assert (get_alloc st1 r = Some (set_alloc_queues (Some (lit "running")) a)) as -> by by apply (get_alloc_upd st).
  cbn [mbind option_bind alloc_nodes set_alloc_queues].
  rewrite Hn. cbn [mbind option_bind]. rewrite bool_decide_eq_true_2 by done. unfold allocated_error.
  rewrite upd_queue_find. change (queues st1) with (queues st). rewrite Hi, !upd_queue_find.
  change (queues st1) with (queues st). rewrite Hj, upd_queue_upd. unfold prepend_session.
  rewrite on_a_list_members. unfold members. cbn [queues upd_queue set_queues].
  rewrite (members_alter _ _ q (λ l, tail (l ++ [r]))) by done.
  destruct (queue_sessions q) as [|x l] eqn:El; cbn [tail app].
  - rewrite bool_decide_eq_false_2.
    + cbn [mbind option_bind]. rewrite (upd_queue_id _ i _ q) by (done || by rewrite El).
      by rewrite act_schedule by by apply registered_upd_queue, registered_alloc_upd.
    + unfold members in Hm. rewrite (members_split _ _ _ Hq), El in Hm. done.
  - rewrite bool_decide_eq_true_2; [done|]. rewrite !elem_of_app. right. left. right. by left.
Qed.

End cancel.
End ScdQueues.
