(* ===== verification/RmRecv.v ===== *)
(** * Messages to the resource manager (scd_base_rm_recv.c, utils.c)

    The handler of the messages tagged ORCM_RML_TAG_RM: state changes of nodes, reports of
    daemons that a step is over, and power settings passed on to the head of a job; the
    two functions that update the nodes, and the search for the nodes below a
    controller.  A topology is an object of its own, known by reference; unpacking and
    comparing one goes through the hwloc library. *)

From Stdlib Require Import ZArith Lia Ascii.
From stdpp Require Import prelude numbers strings gmap list.
From S2P Require Import Prelude PointerArray CString Argv Dss Names Attr Alloc Scd ScdFifo.

Local Open Scope Z_scope.

Module RmRecv.
Import Dss Names Attr Alloc Scd ScdFifo.

Definition ORCM_NODESTATE_UPDATE_COMMAND : Z := 3.
Definition ORCM_STEPD_COMPLETE_COMMAND : Z := 7.
Definition ORCM_SET_POWER_COMMAND : Z := 9.
Definition ORCM_GET_POWER_COMMAND : Z := 10.
Definition ORCM_RML_TAG_PWRMGMT_BASE : Z := 9.

(** ** The controllers of the cluster *)

Record orcm_rack_t := mk_rack { rack_controller : orcm_node_t; rack_nodes : list orcm_node_t }.
Record orcm_row_t := mk_row { row_controller : orcm_node_t; racks : list orcm_rack_t }.
Record orcm_cluster_t := mk_cluster { cluster_controller : orcm_node_t; rows : list orcm_row_t }.

(** The names the loops append for a rack and for a row, their controllers first. *)
Definition rack_targets (k : orcm_rack_t) : list opal_process_name_t :=
  daemon (rack_controller k) :: (daemon <$> rack_nodes k).
Definition row_targets (w : orcm_row_t) : list opal_process_name_t :=
  daemon (row_controller w) :: concat (rack_targets <$> racks w).

(** The search of a row's racks, of a cluster's rows and of the clusters; [None] goes on
    with the search. *)
Fixpoint find_rack (l : list orcm_rack_t) (root : opal_process_name_t) : option (list opal_process_name_t) :=
  match l with
  | [] => None
  | k :: rest =>
    if same_proc (daemon (rack_controller k)) root then Some (daemon <$> rack_nodes k) else find_rack rest root
  end.

Fixpoint find_row (l : list orcm_row_t) (root : opal_process_name_t) : option (list opal_process_name_t) :=
  match l with
  | [] => None
  | w :: rest =>
    if same_proc (daemon (row_controller w)) root then Some (concat (rack_targets <$> racks w))
    else match find_rack (racks w) root with
         | Some t => Some t
         | None => find_row rest root
         end
  end.

Fixpoint orcm_util_get_dependents (clusters : list orcm_cluster_t) (targets : list opal_process_name_t)
    (root : opal_process_name_t) : list opal_process_name_t * Z :=
  match clusters with
  | [] => (targets, ORCM_ERR_NOT_FOUND)
  | c :: rest =>
    if same_proc (daemon (cluster_controller c)) root
    then (targets ++ concat (row_targets <$> rows c), ORCM_SUCCESS)
    else match find_row (rows c) root with
         | Some t => (targets ++ t, ORCM_SUCCESS)
         | None => orcm_util_get_dependents rest targets root
         end
  end.

(** ** Updating nodes *)

Definition set_node_state (v : Z) (n : orcm_node_t) : orcm_node_t :=
  mk_node (node_name n) (daemon n) v (scd_state n) (node_topology n).
Definition set_topology (v : option nat) (n : orcm_node_t) : orcm_node_t :=
  mk_node (node_name n) (daemon n) (node_state n) (scd_state n) v.

(** The assignments to one node: [newstate] is stored, [state] was asked for. *)
Definition update_node (state newstate : Z) (topo : option nat) (n : orcm_node_t) : orcm_node_t :=
  let n := set_node_state newstate n in
  let n := if state =? ORCM_NODE_STATE_UP then set_topology topo n else n in
  if (state =? ORCM_NODE_STATE_UP) &&
     ((scd_state n =? ORCM_SCD_NODE_STATE_UNDEF) || (scd_state n =? ORCM_SCD_NODE_STATE_UNKNOWN))
  then set_scd_state ORCM_SCD_NODE_STATE_UNALLOC n else n.

(** The inner loops: the first node that matches is updated, and ends the loop. *)
Fixpoint update_first (P : orcm_node_t → bool) (f : orcm_node_t → orcm_node_t) (refs : list nat)
    (heap : gmap nat orcm_node_t) : option (gmap nat orcm_node_t * bool) :=
  match refs with
  | [] => Some (heap, false)
  | r :: rest =>
    n ← heap !! r;
    if P n then Some (<[r := f n]> heap, true) else update_first P f rest heap
  end.

(** The outer loops, over the tests the names make. *)
Fixpoint update_each (Ps : list (orcm_node_t → bool)) (f : orcm_node_t → orcm_node_t) (refs : list nat)
    (heap : gmap nat orcm_node_t) (found : bool) : option (gmap nat orcm_node_t * bool) :=
  match Ps with
  | [] => Some (heap, found)
  | P :: rest =>
    '(heap, hit) ← update_first P f refs heap;
    update_each rest f refs heap (found || hit)
  end.

Definition update_nodestate_byproc (state : Z) (nodelist : list opal_process_name_t) (topo : option nat)
    (st : orcm_scd_base_t) : option (orcm_scd_base_t * Z) :=
  refs ← items (nodes st);
  '(heap, found) ← update_each ((λ name n, same_proc (daemon n) name) <$> nodelist)
                     (update_node state state topo) refs (node_heap st) false;
  Some (set_node_heap heap st, if found : bool then ORCM_SUCCESS else ORCM_ERR_NOT_FOUND).

(** [opal_dss.unpack] and [opal_dss.compare] at OPAL_HWLOC_TOPO. *)
Class Hwloc := {
  topo_unpack : opal_buffer_t → option (opal_buffer_t * (Z + topology));
  topo_equal : topology → topology → bool;
}.

Section recv.
Context `{FloatText} `{NodeRegex} `{Rml} `{Hwloc}.

Definition update_nodestate_byname (state : Z) (regexp : option cstring) (topo : option nat)
    (st : orcm_scd_base_t) : option (orcm_scd_base_t * Z) :=
  let newstate := if state =? ORCM_NODE_STATE_RESUME then ORCM_NODE_STATE_UP else state in
  '(rc, nodenames) ← regex_extract regexp;
  if negb (rc =? ORCM_SUCCESS) then Some (st, rc) else
  refs ← items (nodes st);
  '(heap, found) ← update_each ((λ name n, bool_decide (node_name n = name)) <$> nodenames)
                     (update_node state newstate topo) refs (node_heap st) false;
  Some (set_node_heap heap st, if found : bool then ORCM_SUCCESS else ORCM_ERR_NOT_FOUND).

(** ** The handler *)

(** One value from the buffer, or the end of the handler. *)
Definition unpacked {A B} (m : M A) (b : opal_buffer_t) (st : B) (k : opal_buffer_t → A → option B) : option B :=
  match m b with
  | None => None
  | Some (_, inl _) => Some st
  | Some (b, inr a) => k b a
  end.

(** The topology received: kept when it is new; destroyed when the scheduler has an equal
    one, the node keeping the reference to it either way. *)
Fixpoint matches_topology (c : topology) (refs : list nat) (heap : gmap nat topology) : option bool :=
  match refs with
  | [] => Some false
  | t :: rest =>
    d ← heap !! t;
    if topo_equal c d then Some true else matches_topology c rest heap
  end.

Definition receive_topology (c : topology) (st : orcm_scd_base_t) : option (nat * orcm_scd_base_t) :=
  let topo := fresh (dom (topo_heap st)) in
  refs ← items (topologies st);
  found ← matches_topology c refs (topo_heap st);
  if found : bool then Some (topo, st) else
  '(arr, _) ← PA.opal_pointer_array_add true (topologies st) (Some topo);
  Some (topo, set_topologies arr (set_topo_heap (<[topo := c]> (topo_heap st)) st)).

Definition node_up (buffer : opal_buffer_t) (st : orcm_scd_base_t) : option orcm_scd_base_t :=
  unpacked (unpack1 t_name) buffer st (λ buffer node,
  unpacked (unpack1 t_bool) buffer st (λ buffer have_hwloc_topo,
  if have_hwloc_topo : bool then
    unpacked topo_unpack buffer st (λ _ c,
    '(topo, st) ← receive_topology c st;
    fst <$> update_nodestate_byproc ORCM_NODE_STATE_UP [node] (Some topo) st)
  else fst <$> update_nodestate_byproc ORCM_NODE_STATE_UP [node] None st)).

Definition node_down (clusters : list orcm_cluster_t) (buffer : opal_buffer_t) (st : orcm_scd_base_t)
    : option orcm_scd_base_t :=
  unpacked (unpack1 t_name) buffer st (λ _ node,
  let nodelist := (orcm_util_get_dependents clusters [] node).1 in
  let nodelist := match nodelist with [] => [node] | _ => nodelist end in
  fst <$> update_nodestate_byproc ORCM_NODE_STATE_DOWN nodelist None st).

(** DRAIN and RESUME, which answer the sender with the code of the update. *)
Definition node_by_name (state : Z) (sender : opal_process_name_t) (buffer : opal_buffer_t) (st : orcm_scd_base_t)
    : option orcm_scd_base_t :=
  unpacked (unpack1 t_string) buffer st (λ _ regexp,
  '(st, result) ← update_nodestate_byname state regexp None st;
  match opal_dss_pack t_int [result] (mk_buf false [] 0 0) with
  | None => None
  | Some (_, inl _) => Some st
  | Some (ans, inr _) => Some (send_buffer_nb sender ORCM_RML_TAG_RM ans st).1
  end).

(** The search of the trackers: the one of the allocation counts one more daemon, and is
    removed when all of its nodes have reported, with the session terminated. *)
Fixpoint check_in (alloc : orcm_alloc_t) (l : list orcm_alloc_tracker_t)
    : option (list orcm_alloc_tracker_t * bool) :=
  match l with
  | [] => Some ([], false)
  | trk :: rest =>
    if trk_alloc_id trk =? alloc_id alloc then
      n ← ck_int (count_checked_in trk + 1);
      if n =? min_nodes alloc then Some (rest, true) else Some (mk_tracker (trk_alloc_id trk) n :: rest, false)
    else
      '(rest, over) ← check_in alloc rest;
      Some (trk :: rest, over)
  end.

Definition stepd_complete (buffer : opal_buffer_t) (st : orcm_scd_base_t) : option orcm_scd_base_t :=
  unpacked (unpack1 t_alloc) buffer st (λ _ alloc,
  '(trackers, over) ← check_in alloc (tracking st);
  if over : bool then
    let (r, st) := new_session (mk_session (uwrap 32 (alloc_id alloc)) (Some alloc)) st in
    Some (set_tracking trackers (orcm_scd_base_activate_session_state r ORCM_SESSION_STATE_TERMINATED st))
  else Some (set_tracking trackers st)).

Definition set_power (command : Z) (buffer : opal_buffer_t) (st : orcm_scd_base_t) : option orcm_scd_base_t :=
  unpacked (unpack1 t_alloc) buffer st (λ _ alloc,
  buf ← pack_command command alloc;
  match buf with
  | inl _ => Some st
  | inr ans => Some (send_buffer_nb (hnp alloc) ORCM_RML_TAG_PWRMGMT_BASE ans st).1
  end).

Definition orcm_scd_base_rm_recv (clusters : list orcm_cluster_t) (sender : opal_process_name_t)
    (buffer : opal_buffer_t) (st : orcm_scd_base_t) : option orcm_scd_base_t :=
  unpacked (unpack1 t_uint8) buffer st (λ buffer command,
  if command =? ORCM_NODESTATE_UPDATE_COMMAND then
    unpacked (unpack1 t_int8) buffer st (λ buffer state,
    if state =? ORCM_NODE_STATE_UP then node_up buffer st
    else if state =? ORCM_NODE_STATE_DOWN then node_down clusters buffer st
    else if state =? ORCM_NODE_STATE_DRAIN then node_by_name state sender buffer st
    else if state =? ORCM_NODE_STATE_RESUME then node_by_name state sender buffer st
    else Some st)
  else if command =? ORCM_STEPD_COMPLETE_COMMAND then stepd_complete buffer st
  else if command =? ORCM_SET_POWER_COMMAND then set_power command buffer st
  else Some st).

End recv.
End RmRecv.
