(* ===== verification/RmSpec.v ===== *)
(** * What the messages to the resource manager do

    Nodes updated by the name of their daemon or by their own name, the nodes below a
    controller, the count of the daemons that report the end of a step, and the
    topology of a node that comes up. *)

From Stdlib Require Import ZArith Lia Ascii.
From stdpp Require Import prelude numbers strings gmap list.
From S2P Require Import Prelude PointerArray CString Argv Dss Names Attr Alloc Scd ScdFifo ScdLemmas ScdSpec ScdRun RmRecv.

Local Open Scope Z_scope.

Module RmSpec.
Import Dss Names Attr Alloc Scd ScdFifo ScdLemmas ScdSpec ScdRun RmRecv.

(** ** The nodes below a controller *)

Inductive rack_below (k : orcm_rack_t) : opal_process_name_t → Prop :=
  | rb_node n : n ∈ rack_nodes k → rack_below k (daemon n).

Inductive row_below (w : orcm_row_t) : opal_process_name_t → Prop :=
  | wb_rack k : k ∈ racks w → row_below w (daemon (rack_controller k))
  | wb_below k x : k ∈ racks w → rack_below k x → row_below w x.

Inductive cluster_below (c : orcm_cluster_t) : opal_process_name_t → Prop :=
  | cb_row w : w ∈ rows c → cluster_below c (daemon (row_controller w))
  | cb_below w x : w ∈ rows c → row_below w x → cluster_below c x.

(** [x] is below the controller named [root]. *)
Inductive below (cs : list orcm_cluster_t) (root x : opal_process_name_t) : Prop :=
  | below_cluster c : c ∈ cs → daemon (cluster_controller c) = root → cluster_below c x → below cs root x
  | below_row c w : c ∈ cs → w ∈ rows c → daemon (row_controller w) = root → row_below w x → below cs root x
  | below_rack c w k : c ∈ cs → w ∈ rows c → k ∈ racks w → daemon (rack_controller k) = root → rack_below k x →
      below cs root x.

(** The names of the controllers, in the order of the search. *)
Definition row_controllers (w : orcm_row_t) : list opal_process_name_t :=
  daemon (row_controller w) :: ((λ k, daemon (rack_controller k)) <$> racks w).
Definition controllers (c : orcm_cluster_t) : list opal_process_name_t :=
  daemon (cluster_controller c) :: concat (row_controllers <$> rows c).

Lemma rack_targets_spec k x : x ∈ rack_targets k ↔ x = daemon (rack_controller k) ∨ rack_below k x.
Proof.
  unfold rack_targets. rewrite elem_of_cons, list_elem_of_fmap. split.
  - intros [->|(n & -> & Hn)]; [by left|right; by constructor].
  - intros [->|Hb]; [by left|right]. destruct Hb as [n Hn]. by exists n.
Qed.

Lemma racks_targets_spec w x : x ∈ concat (rack_targets <$> racks w) ↔ row_below w x.
Proof.
  rewrite elem_of_concat_fmap. setoid_rewrite rack_targets_spec. split.
  - intros (k & Hk & [->|Hb]); [by constructor|by eapply wb_below].
  - intros [k Hk|k x' Hk Hb]; exists k; auto.
Qed.

Lemma rows_targets_spec c x : x ∈ concat (row_targets <$> rows c) ↔ cluster_below c x.
Proof.
  rewrite elem_of_concat_fmap. unfold row_targets. setoid_rewrite elem_of_cons. setoid_rewrite racks_targets_spec. split.
  - intros (w & Hw & [->|Hb]); [by constructor|by eapply cb_below].
  - intros [w Hw|w x' Hw Hb]; exists w; auto.
Qed.

(** A name that is met by the search of a row or of a cluster. *)
Lemma rack_controller_of w k : k ∈ racks w → daemon (rack_controller k) ∈ row_controllers w.
Proof. intros Hk. right. by apply (list_elem_of_fmap_2 (λ k, daemon (rack_controller k))). Qed.

Lemma row_controllers_of c w x : w ∈ rows c → x ∈ row_controllers w → x ∈ controllers c.
Proof. intros Hw Hx. right. apply elem_of_concat_fmap. by exists w. Qed.

Lemma row_cases w root : NoDup (row_controllers w) → root ∈ row_controllers w →
  (daemon (row_controller w) = root ∧ ∀ k, k ∈ racks w → daemon (rack_controller k) ≠ root) ∨
  (daemon (row_controller w) ≠ root ∧
   ∃ k, k ∈ racks w ∧ daemon (rack_controller k) = root ∧
     ∀ k', k' ∈ racks w → daemon (rack_controller k') = root → k' = k).
Proof.
  intros [Hn Hnd]%NoDup_cons [->|Hin]%elem_of_cons; [left|right].
  - split; [done|]. intros k Hk E. apply Hn. rewrite <-E. by apply (list_elem_of_fmap_2 (λ k, daemon (rack_controller k))).
  - split; [by intros E; rewrite E in Hn|]. apply list_elem_of_fmap in Hin as (k & -> & Hk). exists k. split_and!; [done|done|].
    intros k' Hk' E. by eapply (NoDup_fmap_source (λ k, daemon (rack_controller k))).
Qed.

Lemma find_rack_spec l root :
  match find_rack l root with
  | Some t => ∃ k, k ∈ l ∧ daemon (rack_controller k) = root ∧ t = daemon <$> rack_nodes k
  | None => ∀ k, k ∈ l → daemon (rack_controller k) ≠ root
  end.
Proof.
  induction l as [|k l IH]; cbn [find_rack]; [by intros k ?%not_elem_of_nil|].
  destruct (same_proc _ root) eqn:E.
  - exists k. split_and!; [by left|by apply same_proc_eq|done].
  - destruct (find_rack l root) as [t|].
    + destruct IH as (k' & ? & ? & ?). exists k'. split_and!; [by right|done|done].
    + intros k' [->|Hk]%elem_of_cons; [|by apply IH]. intros E'. apply same_proc_eq in E'. congruence.
Qed.

(** What the search of a row yields: the names below the row, or below one of its racks. *)
Definition row_finds (w : orcm_row_t) (root : opal_process_name_t) (t : list opal_process_name_t) : Prop :=
  (daemon (row_controller w) = root ∧ ∀ x, x ∈ t ↔ row_below w x) ∨
  (∃ k, k ∈ racks w ∧ daemon (rack_controller k) = root ∧ ∀ x, x ∈ t ↔ rack_below k x).

Lemma find_row_spec l root :
  match find_row l root with
  | Some t => ∃ w, w ∈ l ∧ row_finds w root t
  | None => root ∉ concat (row_controllers <$> l)
  end.
Proof.
  induction l as [|w l IH]; cbn [find_row]; [by intros ?%not_elem_of_nil|].
  destruct (same_proc _ root) eqn:E.
  { exists w. split; [by left|]. left. split; [by apply same_proc_eq|]. intros x. apply racks_targets_spec. }
  pose proof (find_rack_spec (racks w) root) as Hr. destruct (find_rack (racks w) root) as [t|].
  { destruct Hr as (k & Hk & Hroot & ->). exists w. split; [by left|]. right. exists k. split_and!; [done|done|].
    intros x. rewrite list_elem_of_fmap. split; [intros (n & -> & ?); by constructor|intros [n ?]; by exists n]. }
  destruct (find_row l root) as [t|].
  { destruct IH as (w' & ? & ?). exists w'. split; [by right|done]. }
  change (concat (row_controllers <$> w :: l)) with (row_controllers w ++ concat (row_controllers <$> l)).
  intros [[Hx|Hx]%elem_of_cons|?]%elem_of_app; [| |done].
  - symmetry in Hx. apply same_proc_eq in Hx. congruence.
  - apply list_elem_of_fmap in Hx as (k & -> & Hk). by apply (Hr k).
Qed.

(** The names below [root] in a row and in a cluster. *)
Definition below_in_row (w : orcm_row_t) (root x : opal_process_name_t) : Prop :=
  (daemon (row_controller w) = root ∧ row_below w x) ∨
  (∃ k, k ∈ racks w ∧ daemon (rack_controller k) = root ∧ rack_below k x).
Definition below_in_cluster (c : orcm_cluster_t) (root x : opal_process_name_t) : Prop :=
  (daemon (cluster_controller c) = root ∧ cluster_below c x) ∨
  (∃ w, w ∈ rows c ∧ below_in_row w root x).

Lemma below_cases cs root x : below cs root x ↔ ∃ c, c ∈ cs ∧ below_in_cluster c root x.
Proof.
  split.
  - intros [c Hc E Hb|c w Hc Hw E Hb|c w k Hc Hw Hk E Hb]; exists c; (split; [done|]).
    + by left.
    + right. exists w. split; [done|by left].
    + right. exists w. split; [done|]. right. by exists k.
  - intros (c & Hc & [[E Hb]|(w & Hw & [[E Hb]|(k & Hk & E & Hb)])]);
      [by eapply below_cluster|by eapply below_row|by eapply below_rack].
Qed.

Lemma below_in_row_root w root x : below_in_row w root x → root ∈ row_controllers w.
Proof. intros [[<- _]|(k & Hk & <- & _)]; [by left|by apply rack_controller_of]. Qed.

Lemma below_in_cluster_root c root x : below_in_cluster c root x → root ∈ controllers c.
Proof.
  intros [[<- _]|(w & Hw & Hb)]; [by left|]. eapply row_controllers_of; [done|by eapply below_in_row_root].
Qed.

Lemma row_finds_root w root t : row_finds w root t → root ∈ row_controllers w.
Proof. intros [[<- _]|(k & Hk & <- & _)]; [by left|by apply rack_controller_of]. Qed.

Lemma row_finds_below w root t : NoDup (row_controllers w) → row_finds w root t →
  ∀ x, x ∈ t ↔ below_in_row w root x.
Proof.
  intros Hnd Hf x. destruct (row_cases w root Hnd (row_finds_root _ _ _ Hf)) as [[E Hk]|[E (k & Hk & Ek & Hu)]].
  - destruct Hf as [[_ Hx]|(k & Hk' & E' & _)]; [|by destruct (Hk k)]. rewrite Hx.
    split; [by left|]. intros [[_ ?]|(k & Hk' & E' & _)]; [done|by destruct (Hk k)].
  - destruct Hf as [[E' _]|(k' & Hk' & E' & Hx)]; [done|]. rewrite (Hu k' Hk' E') in Hx. rewrite Hx.
    split; [right; by exists k|]. intros [[E'' _]|(k2 & Hk2 & E2 & Hb)]; [done|]. by rewrite (Hu k2 Hk2 E2) in Hb.
Qed.

(** What the search of a cluster yields. *)
Definition cluster_finds (c : orcm_cluster_t) (root : opal_process_name_t) (t : list opal_process_name_t) : Prop :=
  (daemon (cluster_controller c) = root ∧ ∀ x, x ∈ t ↔ cluster_below c x) ∨
  (∃ w, w ∈ rows c ∧ row_finds w root t).

Lemma cluster_finds_root c root t : cluster_finds c root t → root ∈ controllers c.
Proof.
  intros [[<- _]|(w & Hw & Hf)]; [by left|]. eapply row_controllers_of; [done|by eapply row_finds_root].
Qed.

Lemma cluster_finds_below c root t : NoDup (controllers c) → cluster_finds c root t →
  ∀ x, x ∈ t ↔ below_in_cluster c root x.
Proof.
  intros [Hn Hnd]%NoDup_cons Hf x.
  assert (∀ w, w ∈ rows c → root ∈ row_controllers w → daemon (cluster_controller c) ≠ root) as Hno.
  { intros w Hw Hr E. apply Hn. rewrite E. apply elem_of_concat_fmap. by exists w. }
  destruct Hf as [[E Hx]|(w & Hw & Hf)].
  - rewrite Hx. split; [by left|]. intros [[_ ?]|(w & Hw & Hb)]; [done|].
    by destruct (Hno w Hw (below_in_row_root _ _ _ Hb)).
  - pose proof (row_finds_root _ _ _ Hf) as Hr.
    rewrite (row_finds_below w root t (NoDup_concat_part _ _ _ Hnd Hw) Hf). split; [right; by exists w|].
    intros [[E _]|(w' & Hw' & Hb)]; [by destruct (Hno w Hw Hr)|].
    by rewrite (NoDup_concat_source row_controllers (rows c) w w' root) by (done || by eapply below_in_row_root).
Qed.

Lemma get_dependents_search cs targets root :
  (∃ c t, c ∈ cs ∧ cluster_finds c root t ∧ orcm_util_get_dependents cs targets root = (targets ++ t, ORCM_SUCCESS)) ∨
  ((root ∉ concat (controllers <$> cs)) ∧ orcm_util_get_dependents cs targets root = (targets, ORCM_ERR_NOT_FOUND)).
Proof.
  induction cs as [|c cs IH]; cbn [orcm_util_get_dependents].
  { right. split; [by intros ?%not_elem_of_nil|done]. }
  destruct (same_proc _ root) eqn:E.
  { left. exists c, (concat (row_targets <$> rows c)). split_and!; [by left| |done]. left.
    split; [by apply same_proc_eq|]. intros x. apply rows_targets_spec. }
  pose proof (find_row_spec (rows c) root) as Hr. destruct (find_row (rows c) root) as [t|].
  { destruct Hr as (w & Hw & Hf). left. exists c, t. split_and!; [by left|right; by exists w|done]. }
  destruct IH as [(c' & t & Hc & Hf & ->)|[Hn ->]]; [left; exists c', t; split_and!; [by right|done|done]|right].
  split; [|done]. change (concat (controllers <$> c :: cs)) with (controllers c ++ concat (controllers <$> cs)).
  intros [[Hx|Hx]%elem_of_cons|?]%elem_of_app; [|done|done].
  symmetry in Hx. apply same_proc_eq in Hx. congruence.
Qed.

(** When controllers have distinct names, the names appended to the list are exactly those
    of the controllers and nodes below the one given; it
    reports success exactly when the name is that of a controller, and appends
    nothing for any other name. *)
Theorem orcm_util_get_dependents_spec cs targets root :
  NoDup (concat (controllers <$> cs)) →
  ∃ found rc, orcm_util_get_dependents cs targets root = (targets ++ found, rc) ∧
    (∀ x, x ∈ found ↔ below cs root x) ∧
    rc = if decide (root ∈ concat (controllers <$> cs)) then ORCM_SUCCESS else ORCM_ERR_NOT_FOUND.
Proof.
  intros Hnd. destruct (get_dependents_search cs targets root) as [(c & t & Hc & Hf & E)|[Hn E]].
  - pose proof (cluster_finds_root _ _ _ Hf) as Hr. exists t, ORCM_SUCCESS. split_and!; [done| |].
    + intros x. rewrite below_cases, (cluster_finds_below c root t (NoDup_concat_part _ _ _ Hnd Hc) Hf).
      split; [by exists c|]. intros (c' & Hc' & Hb).
      by rewrite (NoDup_concat_source controllers cs c c' root) by (done || by eapply below_in_cluster_root).
    + rewrite decide_True; [done|]. apply elem_of_concat_fmap. by exists c.
  - exists [], ORCM_ERR_NOT_FOUND. rewrite app_nil_r. split_and!; [done| |by rewrite decide_False].
    intros x. split; [by intros ?%not_elem_of_nil|]. intros (c & Hc & Hb)%below_cases. destruct Hn.
    apply elem_of_concat_fmap. exists c. split; [done|by eapply below_in_cluster_root].
Qed.

Definition rack_of (c : Z) (l : list Z) : orcm_rack_t :=
  mk_rack (mk_node [] (mk_name 0 c) 0 0 None) ((λ v, mk_node [] (mk_name 0 v) 0 0 None) <$> l).
Definition sample_clusters : list orcm_cluster_t :=
  [mk_cluster (mk_node [] (mk_name 0 1) 0 0 None)
     [mk_row (mk_node [] (mk_name 0 2) 0 0 None) [rack_of 3 [4; 5]; rack_of 6 [7]]]].

Lemma orcm_util_get_dependents_witness :
  ∃ found rc, orcm_util_get_dependents sample_clusters [] (mk_name 0 2) = (found, rc) ∧
    (∀ x, x ∈ found ↔ below sample_clusters (mk_name 0 2) x) ∧ rc = ORCM_SUCCESS.
Proof.
  apply (orcm_util_get_dependents_spec sample_clusters [] (mk_name 0 2)). by apply (bool_decide_eq_true_1 _).
Defined.

(** ** Updated nodes *)

Lemma update_node_idem state newstate topo n :
  update_node state newstate topo (update_node state newstate topo n) = update_node state newstate topo n.
Proof.
  unfold update_node. destruct (state =? ORCM_NODE_STATE_UP); cbn; [|done].
  destruct ((scd_state n =? _) || _) eqn:E; cbn; [done|]. by rewrite E.
Qed.

(** The nodes of the array that one of the tests holds of. *)
Definition hit (Ps : list (orcm_node_t → bool)) (n : orcm_node_t) : bool := existsb (λ P, P n) Ps.

Definition updated (refs : list nat) (Ps : list (orcm_node_t → bool)) (f : orcm_node_t → orcm_node_t)
    (r : nat) (n : orcm_node_t) : orcm_node_t :=
  if bool_decide (r ∈ refs) && hit Ps n then f n else n.

Section updates.
Context (f : orcm_node_t → orcm_node_t).
Hypothesis f_idem : ∀ n, f (f n) = f n.

(** A test that [f] does not change and that tells the nodes apart. *)
Definition keyed (ns : list orcm_node_t) (P : orcm_node_t → bool) : Prop :=
  (∀ n, P (f n) = P n) ∧
  (∀ i j n m, ns !! i = Some n → ns !! j = Some m → P n = true → P m = true → i = j).

Lemma keyed_tail n ns P : keyed (n :: ns) P → keyed ns P.
Proof.
  intros [Hf Hu]. split; [done|]. intros i j a b Hi Hj Ha Hb. specialize (Hu (S i) (S j) a b Hi Hj Ha Hb). lia.
Qed.

Lemma update_first_spec P refs ns heap : NoDup refs → Forall2 (λ r n, heap !! r = Some n) refs ns → keyed ns P →
  ∃ heap', update_first P f refs heap = Some (heap', existsb P ns) ∧
    ∀ x, heap' !! x = updated refs [P] f x <$> heap !! x.
Proof.
  intros Hnd Hh. induction Hh as [|r n refs ns Hr Hh IH]; intros Hk; cbn [update_first].
  { exists heap. split; [done|]. intros x. by destruct (heap !! x). }
  apply NoDup_cons in Hnd as [Hni Hnd]. rewrite Hr. cbn [mbind option_bind existsb].
  destruct (P n) eqn:HP; cbn [orb].
  - eexists. split; [reflexivity|]. intros x. unfold updated, hit. cbn [existsb].
    destruct (decide (x = r)) as [->|Hne].
    { rewrite lookup_insert_eq, Hr. cbn. rewrite HP, bool_decide_eq_true_2 by by left. done. }
    rewrite lookup_insert_ne by done. destruct (heap !! x) as [m|] eqn:Hx; [|done]. cbn.
    case_bool_decide as Hin; [|done]. apply elem_of_cons in Hin as [?|Hin]; [done|].
    apply list_elem_of_lookup in Hin as [j Hj]. destruct (Forall2_lookup_l _ _ _ _ _ Hh Hj) as (m' & Hm & Hm').
    rewrite Hx in Hm'. injection Hm' as <-. destruct (P m) eqn:HPm; [|done].
    destruct Hk as [_ Hu]. specialize (Hu 0%nat (S j) n m eq_refl Hm HP HPm). lia.
  - destruct (IH Hnd (keyed_tail _ _ _ Hk)) as (heap' & -> & Hheap). exists heap'. split; [done|].
    intros x. rewrite Hheap. destruct (heap !! x) as [m|] eqn:Hx; [|done]. cbn. f_equal. unfold updated, hit. cbn [existsb].
    destruct (decide (x = r)) as [->|Hne].
    + rewrite Hr in Hx. injection Hx as <-. rewrite HP. by rewrite !andb_false_r.
    + rewrite (bool_decide_ext (x ∈ r :: refs) (x ∈ refs)); [done|]. rewrite elem_of_cons. tauto.
Qed.

Lemma updated_twice refs P Ps x n : (∀ Q, Q ∈ P :: Ps → ∀ n, Q (f n) = Q n) →
  updated refs Ps f x (updated refs [P] f x n) = updated refs (P :: Ps) f x n.
Proof.
  intros Hf. unfold updated, hit. case_bool_decide; cbn [andb existsb]; [|done]. rewrite orb_false_r.
  assert (existsb (λ Q, Q (f n)) Ps = existsb (λ Q, Q n) Ps) as E.
  { assert (∀ Q, Q ∈ Ps → Q (f n) = Q n) as HQ by (intros Q HQ; apply Hf; by right). clear -HQ.
    induction Ps as [|Q Ps IH]; [done|]. cbn. rewrite (HQ Q) by by left. f_equal. apply IH. intros Q' ?. apply HQ. by right. }
  destruct (P n) eqn:HP; cbn [orb]; [|done]. rewrite E.
  destruct (existsb (λ Q, Q n) Ps); [apply f_idem|done].
Qed.

(** The same tests hold of the nodes after an update. *)
Lemma keyed_updated ns ms P : Forall2 (λ n m, m = n ∨ m = f n) ns ms → keyed ns P → keyed ms P.
Proof.
  intros H2 [Hf Hu]. split; [done|]. intros i j a b Hi Hj Ha Hb.
  destruct (Forall2_lookup_r _ _ _ _ _ H2 Hi) as (n & Hn & En), (Forall2_lookup_r _ _ _ _ _ H2 Hj) as (m & Hm & Em).
  apply (Hu i j n m Hn Hm).
  - destruct En as [->| ->]; [done|by rewrite Hf in Ha].
  - destruct Em as [->| ->]; [done|by rewrite Hf in Hb].
Qed.

Lemma hit_updated Ps ns ms : (∀ Q, Q ∈ Ps → ∀ n, Q (f n) = Q n) → Forall2 (λ n m, m = n ∨ m = f n) ns ms →
  existsb (hit Ps) ms = existsb (hit Ps) ns.
Proof.
  intros Hf. induction 1 as [|n m ns ms Hnm _ IH]; [done|]. cbn [existsb]. rewrite IH. f_equal.
  destruct Hnm as [->| ->]; [done|]. unfold hit. clear -Hf. induction Ps as [|Q Ps IH]; [done|]. cbn.
  rewrite Hf by by left. f_equal. apply IH. intros Q' ?. apply Hf. by right.
Qed.

Lemma hit_cons P Ps ns : existsb (hit (P :: Ps)) ns = existsb P ns || existsb (hit Ps) ns.
Proof.
  induction ns as [|n ns IH]; [done|]. cbn [existsb]. rewrite IH. unfold hit. cbn [existsb].
  destruct (P n), (existsb P ns), (existsb (λ P0, P0 n) Ps); reflexivity.
Qed.

Lemma update_each_spec Ps refs ns heap found : NoDup refs → Forall2 (λ r n, heap !! r = Some n) refs ns →
  Forall (λ P, keyed ns P) Ps →
  ∃ heap', update_each Ps f refs heap found = Some (heap', found || existsb (hit Ps) ns) ∧
    ∀ x, heap' !! x = updated refs Ps f x <$> heap !! x.
Proof.
  intros Hnd. revert ns heap found. induction Ps as [|P Ps IH]; intros ns heap found Hh Hk; cbn [update_each].
  { exists heap. split.
    - do 2 f_equal. clear. induction ns as [|n ns IH]; [by rewrite orb_false_r|done].
    - intros x. destruct (heap !! x) as [n|]; [|done]. cbn. unfold updated. by rewrite andb_false_r. }
  apply Forall_cons in Hk as [HP Hk].
  destruct (update_first_spec P refs ns heap Hnd Hh HP) as (heap1 & -> & H1). cbn [mbind option_bind].
  set (ms := zip_with (updated refs [P] f) refs ns).
  assert (Forall2 (λ r n, heap1 !! r = Some n) refs ms) as Hh1.
  { unfold ms. clear -Hh H1. revert H1. generalize (updated refs [P] f). intros g H1.
    induction Hh as [|r n refs ns Hr _ IH]; constructor; [|exact IH]. by rewrite H1, Hr. }
  assert (Forall2 (λ n m, m = n ∨ m = f n) ns ms) as H2.
  { assert (∀ x n, updated refs [P] f x n = n ∨ updated refs [P] f x n = f n) as Hg
      by (intros x n; unfold updated; destruct (_ && _); auto).
    unfold ms. revert Hg. generalize (updated refs [P] f). clear -Hh. intros g Hg.
    induction Hh; constructor; auto. }
  assert (∀ Q, Q ∈ P :: Ps → ∀ n, Q (f n) = Q n) as Hf.
  { intros Q [->|HQ]%elem_of_cons; [by apply HP|]. rewrite Forall_forall in Hk. by apply Hk. }
  destruct (IH ms heap1 (found || existsb P ns) Hh1) as (heap2 & -> & H2').
  { eapply Forall_impl; [exact Hk|]. intros Q. by apply keyed_updated. }
  exists heap2. split.
  - rewrite (hit_updated Ps ns ms), hit_cons, orb_assoc by (done || (intros Q HQ; apply Hf; by right)). done.
  - intros x. rewrite H2', H1. destruct (heap !! x) as [n|]; [|done]. cbn. f_equal. by apply updated_twice.
Qed.
End updates.

Lemma hit_fmap {A} (test : A → orcm_node_t → bool) (key : orcm_node_t → A) l n :
  (∀ a n, test a n = true ↔ key n = a) → hit (test <$> l) n = true ↔ key n ∈ l.
Proof.
  intros Ht. unfold hit. rewrite existsb_exists. split.
  - intros (P & HP & Hn). apply list_elem_of_In, list_elem_of_fmap in HP as (a & -> & Ha). by apply Ht in Hn as ->.
  - intros Hk. exists (test (key n)). split; [by apply list_elem_of_In, list_elem_of_fmap_2|]. by apply Ht.
Qed.

(** Both functions: nodes known by a key that the update keeps. *)
Lemma update_by_key {A} `{EqDecision A} (test : A → orcm_node_t → bool) (key : orcm_node_t → A) st refs ns l
    state newstate topo :
  cluster st refs ns → NoDup (key <$> ns) → (∀ a n, test a n = true ↔ key n = a) →
  (∀ n, key (update_node state newstate topo n) = key n) →
  ∃ heap found, update_each (test <$> l) (update_node state newstate topo) refs (node_heap st) false = Some (heap, found) ∧
    (∀ x, heap !! x = (λ n, if decide (x ∈ refs ∧ key n ∈ l) then update_node state newstate topo n else n)
                       <$> node_heap st !! x) ∧
    (found = true ↔ Exists (λ n, key n ∈ l) ns).
Proof.
  intros [_ Hh Hr _] Hnd Ht Hkey.
  destruct (update_each_spec (update_node state newstate topo) (update_node_idem _ _ _) (test <$> l) refs ns
              (node_heap st) false Hr Hh) as (heap & E & Hheap).
  { apply Forall_forall. intros P (a & -> & _)%list_elem_of_fmap. split.
    - intros n. apply eq_true_iff_eq. by rewrite !Ht, Hkey.
    - intros i j n m Hi Hj Hn%Ht Hm%Ht. eapply NoDup_lookup; [exact Hnd|by rewrite list_lookup_fmap, Hi|].
      rewrite list_lookup_fmap, Hj. cbn. by rewrite Hn, Hm. }
  exists heap, (existsb (hit (test <$> l)) ns). split_and!; [done| |].
  - intros x. rewrite Hheap. destruct (node_heap st !! x) as [n|]; [|done]. cbn. f_equal. unfold updated.
    pose proof (hit_fmap test key l n Ht) as Hhit. case_bool_decide; case_decide as Hd; cbn [andb].
    + destruct Hd as [_ Hd%Hhit]. by rewrite Hd.
    + destruct (hit _ n); [|done]. destruct Hd. split; [done|]. by apply Hhit.
    + tauto.
    + done.
  - rewrite existsb_exists, Exists_exists. split; intros (n & Hn & Hb); exists n;
      (split; [by apply list_elem_of_In|by apply (hit_fmap test key l n Ht)]).
Qed.

Lemma update_node_daemon state newstate topo n : daemon (update_node state newstate topo n) = daemon n.
Proof. unfold update_node. by repeat destruct (_ =? _). Qed.
Lemma update_node_name state newstate topo n : node_name (update_node state newstate topo n) = node_name n.
Proof. unfold update_node. by repeat destruct (_ =? _). Qed.

(** A change of state reported for daemons is recorded in exactly the nodes of the array
    that have these daemons; it is an error when there is none. *)
Theorem update_nodestate_byproc_spec st refs ns state nodelist topo :
  cluster st refs ns → NoDup (daemon <$> ns) →
  ∃ heap rc, update_nodestate_byproc state nodelist topo st = Some (set_node_heap heap st, rc) ∧
    (∀ x, heap !! x = (λ n, if decide (x ∈ refs ∧ daemon n ∈ nodelist) then update_node state state topo n else n)
                       <$> node_heap st !! x) ∧
    (rc = ORCM_SUCCESS ↔ Exists (λ n, daemon n ∈ nodelist) ns).
Proof.
  intros Hcl Hnd. unfold update_nodestate_byproc. rewrite (cl_items _ _ _ Hcl). cbn [mbind option_bind].
  destruct (update_by_key (λ name n, same_proc (daemon n) name) daemon st refs ns nodelist state state topo Hcl Hnd)
    as (heap & found & -> & Hheap & Hf).
  - intros a n. apply same_proc_eq.
  - intros n. apply update_node_daemon.
  - cbn [mbind option_bind]. eexists heap, _. split_and!; [done|done|]. rewrite <-Hf. by destruct found.
Qed.

Section names.
Context `{NodeRegex}.

(** A drain or resume request is recorded in exactly the nodes its expression names, as
    up when they resume; it is an error when there is none, and an expression that
    cannot be read changes nothing. *)
Theorem update_nodestate_byname_spec st refs ns state regexp rc names topo :
  cluster st refs ns → regex_extract regexp = Some (rc, names) →
  ∃ heap rc', update_nodestate_byname state regexp topo st = Some (set_node_heap heap st, rc') ∧
    let newstate := if decide (state = ORCM_NODE_STATE_RESUME) then ORCM_NODE_STATE_UP else state in
    if decide (rc = ORCM_SUCCESS) then
      (∀ x, heap !! x = (λ n, if decide (x ∈ refs ∧ node_name n ∈ names) then update_node state newstate topo n else n)
                         <$> node_heap st !! x) ∧
      (rc' = ORCM_SUCCESS ↔ Exists (λ n, node_name n ∈ names) ns)
    else heap = node_heap st ∧ rc' = rc.
Proof.
  intros Hcl He. unfold update_nodestate_byname. rewrite He. cbn [mbind option_bind].
  destruct (Z.eqb_spec rc ORCM_SUCCESS) as [->|Hrc]; cbn [negb].
  - rewrite (cl_items _ _ _ Hcl). cbn [mbind option_bind].
    set (newstate := if decide (state = ORCM_NODE_STATE_RESUME) then ORCM_NODE_STATE_UP else state).
    replace (if state =? ORCM_NODE_STATE_RESUME then ORCM_NODE_STATE_UP else state) with newstate
      by (unfold newstate; case_decide; destruct (Z.eqb_spec state ORCM_NODE_STATE_RESUME); done).
    destruct (update_by_key (λ name n, bool_decide (node_name n = name)) node_name st refs ns names state newstate topo Hcl
                (cl_names _ _ _ Hcl)) as (heap & found & -> & Hheap & Hf).
    + intros a n. apply bool_decide_eq_true.
    + intros n. apply update_node_name.
    + cbn [mbind option_bind]. eexists heap, _. split; [done|]. rewrite decide_True by done.
      split; [done|]. rewrite <-Hf. by destruct found.
  - exists (node_heap st), rc. split; [by destruct st|]. by rewrite decide_False.
Qed.
End names.

(** Which nodes a state change makes available: a node that comes up is free unless a
    session holds it, so a node that restarts under a session is not given to
    another one; a node that goes down or is drained is not free, and keeps the
    mark of the session that holds it; a drained node that resumes is free if no
    session holds it. *)
Theorem update_node_free n topo :
  is_free (update_node ORCM_NODE_STATE_UP ORCM_NODE_STATE_UP topo n) =
    bool_decide (scd_state n ∈ [ORCM_SCD_NODE_STATE_UNDEF; ORCM_SCD_NODE_STATE_UNKNOWN; ORCM_SCD_NODE_STATE_UNALLOC]) ∧
  Forall (λ s, let n' := update_node s s topo n in is_free n' = false ∧ scd_state n' = scd_state n)
    [ORCM_NODE_STATE_DOWN; ORCM_NODE_STATE_DRAIN] ∧
  is_free (update_node ORCM_NODE_STATE_RESUME ORCM_NODE_STATE_UP topo n) =
    bool_decide (scd_state n = ORCM_SCD_NODE_STATE_UNALLOC).
Proof.
  split_and!.
  - unfold update_node, is_free. cbn.
    destruct (Z.eqb_spec (scd_state n) ORCM_SCD_NODE_STATE_UNDEF) as [->|]; [done|].
    destruct (Z.eqb_spec (scd_state n) ORCM_SCD_NODE_STATE_UNKNOWN) as [->|]; [done|]. cbn.
    destruct (Z.eqb_spec (scd_state n) ORCM_SCD_NODE_STATE_UNALLOC) as [->|]; [done|]. cbn.
    symmetry. apply bool_decide_eq_false. rewrite !elem_of_cons, elem_of_nil. tauto.
  - repeat (apply Forall_cons_2; [split; [unfold is_free; cbn; by rewrite andb_false_r|done]|]). apply Forall_nil_2.
  - unfold is_free. cbn. rewrite andb_true_r. case_bool_decide as E; [by rewrite E|]. by apply Z.eqb_neq.
Qed.

(** ** Reports of the daemons *)

Section recv.
Context `{FloatText} `{NodeRegex} `{Rml} `{Hwloc}.

Lemma reads_unpacked buf command a : reads buf command a →
  ∃ b1 b2, unpack1 t_uint8 buf = Some (b1, inr command) ∧ unpack1 t_alloc b1 = Some (b2, inr (received_alloc a)).
Proof. intros (b1 & b2 & E1 & E2). exists b1, b2. unfold unpack1. by rewrite E1, E2. Qed.

Lemma check_in_spec a l : alloc_id a ∉ trk_alloc_id <$> l → ∀ rest,
  check_in a (l ++ rest) = '(l', over) ← check_in a rest; Some (l ++ l', over).
Proof.
  intros Hl rest. induction l as [|t l IH]; cbn [app check_in].
  { by destruct (check_in a rest) as [[]|]. }
  cbn in Hl. apply not_elem_of_cons in Hl as [Hne Hl].
  destruct (Z.eqb_spec (trk_alloc_id t) (alloc_id a)); [congruence|]. rewrite (IH Hl).
  by destruct (check_in a rest) as [[]|].
Qed.

(** One report after the other. *)
Fixpoint recv_all (clusters : list orcm_cluster_t) (msgs : list (opal_process_name_t * opal_buffer_t))
    (st : orcm_scd_base_t) : option orcm_scd_base_t :=
  match msgs with
  | [] => Some st
  | (sender, buf) :: rest => st ← orcm_scd_base_rm_recv clusters sender buf st; recv_all clusters rest st
  end.

(** The state when the last daemon has reported. *)
Definition terminated_state (a : orcm_alloc_t) (trackers : list orcm_alloc_tracker_t) (st : orcm_scd_base_t)
    : orcm_scd_base_t :=
  let r := fresh (dom (session_heap st)) in
  set_tracking trackers (post_scd cb_fifo_terminated r
    (set_session_heap (<[r := mk_session (uwrap 32 (alloc_id a)) (Some (received_alloc a))]> (session_heap st)) st)).

Lemma recv_complete clusters sender buf st a pre post c :
  registered st → reads buf ORCM_STEPD_COMPLETE_COMMAND a →
  tracking st = pre ++ mk_tracker (alloc_id a) c :: post → alloc_id a ∉ trk_alloc_id <$> pre →
  0 ≤ c → c + 1 ≤ min_nodes a ≤ INT_MAX →
  orcm_scd_base_rm_recv clusters sender buf st =
  Some (if decide (c + 1 = min_nodes a) then terminated_state a (pre ++ post) st
        else set_tracking (pre ++ mk_tracker (alloc_id a) (c + 1) :: post) st).
Proof.
  intros Hreg Hbuf Ht Hpre Hc Hm. destruct (reads_unpacked _ _ _ Hbuf) as (b1 & b2 & E1 & E2).
  unfold orcm_scd_base_rm_recv, unpacked at 1. rewrite E1.
  cbn [Z.eqb ORCM_STEPD_COMPLETE_COMMAND ORCM_NODESTATE_UPDATE_COMMAND Pos.eqb].
  unfold stepd_complete, unpacked. rewrite E2, Ht.
  rewrite (check_in_spec (received_alloc a)) by done. cbn [check_in trk_alloc_id count_checked_in].
  rewrite Z.eqb_refl, ck_int_Some by (unfold INT_MIN; lia). cbn [mbind option_bind].
  change (min_nodes (received_alloc a)) with (min_nodes a).
  destruct (Z.eqb_spec (c + 1) (min_nodes a)); case_decide; try done; cbn [mbind option_bind].
  unfold new_session. rewrite act_terminated by by destruct Hreg. done.
Qed.

(** The reports of the daemons of an allocation are counted: as long as fewer have come
    than it has nodes, nothing else happens; with the last one, and not before, the
    session is terminated, with the allocation the daemons sent back, and its
    tracker is gone. *)
Theorem stepd_complete_counts clusters st a pre post c msgs :
  registered st → Forall (λ m, reads m.2 ORCM_STEPD_COMPLETE_COMMAND a) msgs →
  tracking st = pre ++ mk_tracker (alloc_id a) c :: post → alloc_id a ∉ trk_alloc_id <$> pre →
  0 ≤ c < min_nodes a → c + Z.of_nat (length msgs) ≤ min_nodes a ≤ INT_MAX →
  recv_all clusters msgs st =
  Some (if decide (c + Z.of_nat (length msgs) = min_nodes a) then terminated_state a (pre ++ post) st
        else set_tracking (pre ++ mk_tracker (alloc_id a) (c + Z.of_nat (length msgs)) :: post) st).
Proof.
  intros Hreg Hmsgs. revert st c Hreg. induction Hmsgs as [|[sender buf] msgs Hb Hmsgs IH]; intros st c Hreg Ht Hpre Hc Hm.
  { cbn [length recv_all]. rewrite Z.add_0_r, decide_False by lia. rewrite <-Ht. by destruct st. }
  cbn [length recv_all] in *. rewrite (recv_complete clusters sender buf st a pre post c) by (done || lia).
  cbn [mbind option_bind]. destruct (decide (c + 1 = min_nodes a)) as [E|Hne].
  - destruct msgs; [|cbn [length] in Hm; lia]. cbn [recv_all length]. by rewrite decide_True by (cbn; lia).
  - rewrite (IH _ (c + 1)); [|by destruct Hreg|done|done|lia|lia].
    replace (c + 1 + Z.of_nat (length msgs)) with (c + Z.of_nat (S (length msgs))) by lia. by case_decide.
Qed.

(** ** The topology of a node that comes up *)

(** When a node comes up with a topology the scheduler already has, the copy that came
    with the message is destroyed, and the node is left with the reference to it: it
    points to no topology. *)
Theorem node_up_topology_lost st refs ns trefs buf b1 b2 b3 node x n c :
  cluster st refs ns → NoDup (daemon <$> ns) →
  unpack1 t_name buf = Some (b1, inr node) → unpack1 t_bool b1 = Some (b2, inr true) →
  topo_unpack b2 = Some (b3, inr c) →
  x ∈ refs → node_heap st !! x = Some n → daemon n = node →
  items (topologies st) = Some trefs → matches_topology c trefs (topo_heap st) = Some true →
  ∃ st' n' t, node_up buf st = Some st' ∧ node_heap st' !! x = Some n' ∧ node_state n' = ORCM_NODE_STATE_UP ∧
    node_topology n' = Some t ∧ topo_heap st' !! t = None ∧ topo_heap st' = topo_heap st.
Proof.
  intros Hcl Hnd E1 E2 E3 Hx Hn Hd Hi Hm. unfold node_up, unpacked. rewrite E1, E2, E3.
  unfold receive_topology. rewrite Hi. cbn [mbind option_bind]. rewrite Hm. cbn [mbind option_bind].
  set (t := fresh (dom (topo_heap st))). unfold update_nodestate_byproc. rewrite (cl_items _ _ _ Hcl). cbn [mbind option_bind].
  destruct (update_by_key (λ name n, same_proc (daemon n) name) daemon st refs ns [node] ORCM_NODE_STATE_UP
              ORCM_NODE_STATE_UP (Some t) Hcl Hnd) as (heap & found & -> & Hheap & Hf).
  { intros a m. apply same_proc_eq. }
  { intros m. apply update_node_daemon. }
  cbn [mbind option_bind]. eexists (set_node_heap heap st), _, t. split_and!; [done| | | | |done].
  - cbn. rewrite Hheap, Hn. cbn. rewrite decide_True; [done|]. split; [done|]. rewrite Hd. by left.
  - unfold update_node. cbn. by destruct (_ || _).
  - unfold update_node. cbn. by destruct (_ || _).
  - cbn. apply not_elem_of_dom, is_fresh.
Qed.

End recv.
End RmSpec.
