(* ===== verification/ScdRecv.v ===== *)
(** * Session requests of the tools (scd_base_recv.c, scd_base_frame.c)

    The cluster's power settings, and the two messages that start and cancel a session:
    a request gets an identifier and the power constraints of the cluster, is accepted by
    power management, answered, and handed to the scheduler; a cancellation is handed to
    the scheduler and answered.  Power management is an interface here. *)

From Stdlib Require Import ZArith Lia Ascii.
From stdpp Require Import prelude numbers strings gmap list.
From S2P Require Import Prelude PointerArray CString Argv Dss Attr Alloc Scd ScdFifo RmRecv.

Local Open Scope Z_scope.

Module ScdRecv.
Import Dss Attr Alloc Scd ScdFifo RmRecv.

Definition ORCM_SESSION_REQ_COMMAND : Z := 1.
Definition ORCM_SESSION_CANCEL_COMMAND : Z := 3.

(** ** Power settings *)

Record power_t := mk_power {
  power_budget : Z;
  power_mode : Z;
  power_window : Z;
  power_overage : Z;
  power_underage : Z;
  power_overage_time : Z;
  power_underage_time : Z;
  power_frequency : Z;
  power_strict : bool;
}.

Definition ORCM_PWRMGMT_START_KEY : Z := 2000.
Definition ORCM_PWRMGMT_POWER_MODE_KEY : Z := ORCM_PWRMGMT_START_KEY + 1.
Definition ORCM_PWRMGMT_POWER_BUDGET_KEY : Z := ORCM_PWRMGMT_START_KEY + 2.
Definition ORCM_PWRMGMT_POWER_WINDOW_KEY : Z := ORCM_PWRMGMT_START_KEY + 3.
Definition ORCM_PWRMGMT_CAP_OVERAGE_LIMIT_KEY : Z := ORCM_PWRMGMT_START_KEY + 4.
Definition ORCM_PWRMGMT_CAP_UNDERAGE_LIMIT_KEY : Z := ORCM_PWRMGMT_START_KEY + 5.
Definition ORCM_PWRMGMT_CAP_OVERAGE_TIME_LIMIT_KEY : Z := ORCM_PWRMGMT_START_KEY + 6.
Definition ORCM_PWRMGMT_CAP_UNDERAGE_TIME_LIMIT_KEY : Z := ORCM_PWRMGMT_START_KEY + 7.
Definition ORCM_PWRMGMT_MANUAL_FREQUENCY_KEY : Z := ORCM_PWRMGMT_START_KEY + 9.
Definition ORCM_PWRMGMT_FREQ_STRICT_KEY : Z := ORCM_PWRMGMT_START_KEY + 11.

(** The share of the cluster's budget a session of [min_nodes] nodes gets; -1 is no limit.
    The multiplication is of 32-bit integers. *)
Definition session_power_budget (budget defined min_nodes : Z) : option Z :=
  if -1 =? budget then Some (-1) else
  let node_power_budget := if defined =? 0 then -1 else budget ÷ defined in
  if -1 =? node_power_budget then Some (-1) else ck_int (node_power_budget * min_nodes).

(** The constraints in the order they are set. *)
Definition power_constraints (p : power_t) (budget : Z) : list (Z * attr_data * Z) :=
  [(ORCM_PWRMGMT_POWER_BUDGET_KEY, D_num budget, OPAL_INT32);
   (ORCM_PWRMGMT_POWER_MODE_KEY, D_num (power_mode p), OPAL_INT32);
   (ORCM_PWRMGMT_POWER_WINDOW_KEY, D_num (power_window p), OPAL_INT32);
   (ORCM_PWRMGMT_CAP_OVERAGE_LIMIT_KEY, D_num (power_overage p), OPAL_INT32);
   (ORCM_PWRMGMT_CAP_UNDERAGE_LIMIT_KEY, D_num (power_underage p), OPAL_INT32);
   (ORCM_PWRMGMT_CAP_OVERAGE_TIME_LIMIT_KEY, D_num (power_overage_time p), OPAL_INT32);
   (ORCM_PWRMGMT_CAP_UNDERAGE_TIME_LIMIT_KEY, D_num (power_underage_time p), OPAL_INT32);
   (ORCM_PWRMGMT_MANUAL_FREQUENCY_KEY, D_fval (power_frequency p), OPAL_FLOAT);
   (ORCM_PWRMGMT_FREQ_STRICT_KEY, D_flag (power_strict p), OPAL_BOOL)].

(** The calls of [orte_set_attribute], which stop at the first that fails. *)
Fixpoint set_constraints_of (l : list (Z * attr_data * Z)) (attrs : list orte_attribute_t)
    : option (list orte_attribute_t * Z) :=
  match l with
  | [] => Some (attrs, OPAL_SUCCESS)
  | (key, d, type) :: rest =>
    '(attrs, rc) ← orte_set_attribute attrs key false (Some d) type;
    if rc =? OPAL_SUCCESS then set_constraints_of rest attrs else Some (attrs, rc)
  end.

(** Power management: what becomes of the allocation, and whether it is accepted. *)
Class PwrMgmt := alloc_notify : orcm_alloc_t → orcm_alloc_t * Z.

Section recv.
Context `{FloatText} `{Rml} `{PwrMgmt}.

(** A 32-bit object packed as a 64-bit one: the four bytes after it travel in the upper
    half.  After the identifier of a session comes its [uid], which nothing sets. *)
Definition as_int64 (v beyond : Z) : Z := swrap 64 (uwrap 32 v + 2 ^ 32 * uwrap 32 beyond).

Definition answer_int64 (sender : opal_process_name_t) (v beyond : Z) (st : orcm_scd_base_t)
    : option (orcm_scd_base_t * bool) :=
  match opal_dss_pack t_int64 [as_int64 v beyond] (mk_buf false [] 0 0) with
  | None => None
  | Some (_, inl _) => Some (st, false)
  | Some (ans, inr _) => Some (send_buffer_nb sender ORCM_RML_TAG_SCD ans st)
  end.

(** ORCM_SESSION_REQ_COMMAND, after the command; [uid] is that of the new session. *)
Definition session_request (p : power_t) (uid : Z) (sender : opal_process_name_t) (buffer : opal_buffer_t)
    (st : orcm_scd_base_t) : option orcm_scd_base_t :=
  match unpack1 t_alloc buffer with
  | None => None
  | Some (_, inl _) => Some (send_buffer_nb sender ORCM_RML_TAG_SCD (mk_buf false [] 0 0) st).1
  | Some (_, inr alloc) =>
    let (id, st) := orcm_scd_base_get_next_session_id st in
    let alloc := set_alloc_id id alloc in
    let (r, st) := new_session (mk_session id (Some alloc)) st in
    defined ← ck_int (PA.size (nodes st) - PA.number_free (nodes st));
    budget ← session_power_budget (power_budget p) defined (min_nodes alloc);
    '(attrs, rc) ← set_constraints_of (power_constraints p budget) (constraints alloc);
    let alloc := set_constraints attrs alloc in
    if negb (rc =? OPAL_SUCCESS) then upd_alloc r (λ _, alloc) st else
    let (alloc, rc) := alloc_notify alloc in
    st ← upd_alloc r (λ _, alloc) st;
    if negb (rc =? ORCM_SUCCESS) then fst <$> answer_int64 sender (-1) uid st else
    '(st, ok) ← answer_int64 sender id uid st;
    Some (if ok : bool then orcm_scd_base_activate_session_state r ORCM_SESSION_STATE_INIT st else st)
  end.

(** Unpacking an identifier as ORCM_ALLOC_ID_T, 8 bytes, into [sessionid], an
    [orcm_session_id_t] of 4: the bytes that do not fit are written past the variable,
    which is undefined. *)
Definition sizeof_ORCM_ALLOC_ID_T : Z := 8.
Definition sizeof_orcm_session_id_t : Z := 4.
Definition store_id (room : Z) (id : Z) : option Z :=
  if sizeof_ORCM_ALLOC_ID_T <=? room then Some (uwrap (8 * room) id) else None.

(** ORCM_SESSION_CANCEL_COMMAND, once the identifier is known. *)
Definition cancel_session (sender : opal_process_name_t) (sessionid : Z) (st : orcm_scd_base_t)
    : option orcm_scd_base_t :=
  let (r, st) := new_session (mk_session sessionid None) st in
  let st := orcm_scd_base_activate_session_state r ORCM_SESSION_STATE_CANCEL st in
  match opal_dss_pack t_int [0] (mk_buf false [] 0 0) with
  | None => None
  | Some (_, inl _) => Some st
  | Some (ans, inr _) => Some (send_buffer_nb sender ORCM_RML_TAG_SCD ans st).1
  end.

(** ORCM_SESSION_CANCEL_COMMAND, after the command. *)
Definition session_cancel (sender : opal_process_name_t) (buffer : opal_buffer_t) (st : orcm_scd_base_t)
    : option orcm_scd_base_t :=
  match unpack1 t_int64 buffer with
  | None => None
  | Some (_, inl _) => Some (send_buffer_nb sender ORCM_RML_TAG_SCD (mk_buf false [] 0 0) st).1
  | Some (_, inr id) =>
    sessionid ← store_id sizeof_orcm_session_id_t id;
    cancel_session sender sessionid st
  end.

End recv.
End ScdRecv.
