(* ===== verification/RecvSpec.v ===== *)
(** * What a session request gets

    The power constraints set on a new allocation, the share of the cluster's budget, the
    identifier in the answer, and a request that is dropped without one. *)

From Stdlib Require Import ZArith Lia Ascii.
From stdpp Require Import prelude numbers strings gmap list.
From S2P Require Import Prelude PointerArray CString Argv Dss Attr Alloc Scd ScdFifo ScdLemmas ScdSpec RmRecv ScdRecv.

Local Open Scope Z_scope.

Module RecvSpec.
Import Dss Attr Alloc Scd ScdFifo ScdLemmas ScdSpec RmRecv ScdRecv.

(** ** Power *)

Fixpoint total_budget (budget defined : Z) (sizes : list Z) : option Z :=
  match sizes with
  | [] => Some 0
  | n :: rest => b ← session_power_budget budget defined n; t ← total_budget budget defined rest; Some (b + t)
  end.

(** Under a cluster budget, sessions that fit into the defined nodes together get budgets
    that fit into the cluster's together, computed without overflow. *)
Theorem session_power_budget_fits budget defined sizes :
  0 ≤ budget ≤ INT_MAX → 0 < defined → Forall (λ n, 0 ≤ n) sizes → foldr Z.add 0 sizes ≤ defined →
  ∃ t, total_budget budget defined sizes = Some t ∧ 0 ≤ t ≤ budget.
Proof.
  intros Hb Hd Hs Hsum.
  assert (∃ t, total_budget budget defined sizes = Some t ∧
            t = budget ÷ defined * foldr Z.add 0 sizes ∧ 0 ≤ foldr Z.add 0 sizes) as (t & E & Et & Hpos).
  { pose proof (Z.quot_pos budget defined) as Hq. assert (budget ÷ defined * defined ≤ budget) as Hle.
    { rewrite Z.mul_comm. apply Z.mul_quot_le; lia. }
    induction Hs as [|n sizes Hn Hs IH]; [exists 0; split_and!; [done|cbn; lia|done]|].
    cbn [foldr] in *. destruct IH as (t & E & Et & Hpos); [lia|].
    cbn [total_budget]. unfold session_power_budget.
    destruct (Z.eqb_spec (-1) budget); [lia|]. destruct (Z.eqb_spec defined 0); [lia|].
    destruct (Z.eqb_spec (-1) (budget ÷ defined)); [lia|]. rewrite ck_int_Some.
    - cbn [mbind option_bind]. rewrite E. cbn [mbind option_bind]. eexists. split_and!; [done|rewrite Et; nia|lia].
    - unfold INT_MIN. nia. }
  exists t. split; [done|]. pose proof (Z.quot_pos budget defined ltac:(lia) ltac:(lia)).
  assert (budget ÷ defined * defined ≤ budget) by (rewrite Z.mul_comm; apply Z.mul_quot_le; lia). nia.
Qed.

Lemma session_power_budget_witness : ∃ t, total_budget 1000 7 [2; 3; 2] = Some t ∧ 0 ≤ t ≤ 1000.
Proof. apply (session_power_budget_fits 1000 7 [2; 3; 2]); [done|done|forall_list|done]. Defined.

(** ** Constraints *)

Definition power_keys : list Z := (λ p, p.1.1) <$> power_constraints (mk_power 0 0 0 0 0 0 0 0 false) 0.

(** The attributes a request gets. *)
Definition power_attrs (p : power_t) (budget : Z) : list orte_attribute_t :=
  (λ '(key, d, type), mk_attr key false type d) <$> power_constraints p budget.

Lemma set_attribute_new attrs key local d type : key ∉ attr_key <$> attrs →
  supported type = true → member_of type d = true →
  orte_set_attribute attrs key local (Some d) type = Some (attrs ++ [mk_attr key local type (copy_data d)], OPAL_SUCCESS).
Proof.
  intros Hk Hs Hm. induction attrs as [|kv attrs IH]; cbn [orte_set_attribute].
  - unfold orte_attr_load. rewrite Hs, Hm. reflexivity.
  - cbn in Hk. apply not_elem_of_cons in Hk as [Hne Hk]. destruct (Z.eqb_spec key (attr_key kv)); [done|].
    rewrite (IH Hk). reflexivity.
Qed.

Lemma set_constraints_new l attrs :
  Forall (λ '(key, d, type), supported type = true ∧ member_of type d = true ∧ copy_data d = d) l →
  NoDup ((attr_key <$> attrs) ++ ((λ p : Z * attr_data * Z, p.1.1) <$> l)) →
  set_constraints_of l attrs = Some (attrs ++ ((λ '(key, d, type), mk_attr key false type d) <$> l), OPAL_SUCCESS).
Proof.
  intros Hl. revert attrs. induction Hl as [|[[key d] type] l (Hs & Hm & Hc) Hl IH]; intros attrs Hnd.
  { cbn. by rewrite app_nil_r. }
  cbn [set_constraints_of]. rewrite set_attribute_new; [|cbn in Hnd|done|done].
  - cbn [mbind option_bind Z.eqb OPAL_SUCCESS]. rewrite Hc, IH.
    + cbn. by rewrite <-app_assoc.
    + rewrite fmap_app. cbn in *. by rewrite <-app_assoc.
  - apply NoDup_app in Hnd as (_ & Hd & _). intros Hin. apply (Hd key Hin). by left.
Qed.

Lemma power_attrs_set p budget attrs : NoDup (attr_key <$> attrs) → Forall (λ a, attr_key a ∉ power_keys) attrs →
  set_constraints_of (power_constraints p budget) attrs = Some (attrs ++ power_attrs p budget, OPAL_SUCCESS).
Proof.
  intros Hnd Hk. apply set_constraints_new; [forall_list|]. apply NoDup_app. split_and!; [done| |].
  - intros key (a & -> & Ha)%list_elem_of_fmap. rewrite Forall_forall in Hk. by apply Hk.
  - by apply (bool_decide_eq_true_1 (NoDup power_keys)).
Qed.

Section recv.
Context `{FloatText} `{Rml} `{PwrMgmt}.

Lemma in_s_swrap w z : 0 < w → in_s w (swrap w z).
Proof.
  intros Hw. unfold in_s, swrap. assert (2 ^ w = 2 * 2 ^ (w - 1)) as E.
  { rewrite <-Z.pow_succ_r by lia. f_equal. lia. }
  pose proof (Z.mod_pos_bound z (2 ^ w) ltac:(lia)). case_match; lia.
Qed.

(** One value packed into a new buffer. *)
Lemma answer_one {A} (T : opal_dss_type_info_t A) valid v : Codec T valid → valid v →
  ∃ ans b', opal_dss_pack T [v] (mk_buf false [] 0 0) = Some (ans, inr tt) ∧
    opal_dss_unpack T 1 ans = Some (b', (OPAL_SUCCESS, 1, [v])).
Proof.
  intros HT Hv. set (b0 := mk_buf false [] 0 0).
  destruct (packs_dss T false [v] [v]) as (x & Hx & Hx'); [apply HT; [forall_list|done]|done|].
  destruct (Hx b0 eq_refl) as (b1 & -> & X). pose proof (extended_readable b0 _ b1 eq_refl X) as Hr.
  eexists b1, _. split; [done|]. apply (Hx' 1 b1 []); [done|apply X|done].
Qed.

Lemma session_request_run p uid sender buf b st alloc budget alloc' :
  registered st → PA.wf (nodes st) → (∀ l m, rml_send_rc l m = OPAL_SUCCESS) →
  unpack1 t_alloc buf = Some (b, inr alloc) →
  NoDup (attr_key <$> constraints alloc) → Forall (λ a, attr_key a ∉ power_keys) (constraints alloc) →
  session_power_budget (power_budget p) (PA.size (nodes st) - PA.number_free (nodes st)) (min_nodes alloc) = Some budget →
  let id := uwrap 32 (last_session_id st + 1) in
  alloc_notify (set_constraints (constraints alloc ++ power_attrs p budget) (set_alloc_id id alloc)) = (alloc', ORCM_SUCCESS) →
  let r := fresh (dom (session_heap st)) in
  ∃ ans b', opal_dss_unpack t_int64 1 ans = Some (b', (OPAL_SUCCESS, 1, [as_int64 id uid])) ∧
    session_request p uid sender buf st =
    Some (post_scd cb_fifo_find_queue r
            (set_sent (sent st ++ [mk_msg sender ORCM_RML_TAG_SCD ans])
               (set_session_heap (<[r := mk_session id (Some alloc')]> (session_heap st)) (set_last_session_id id st)))).
Proof.
  intros Hreg Hwf Hrc Hbuf Hnd Hk Hb id Hn r.
  destruct (answer_one t_int64 (in_s 64) (as_int64 id uid)) as (ans & b' & Ea & Eu); [apply _|by apply in_s_swrap|].
  exists ans, b'. split; [done|]. unfold session_request. rewrite Hbuf. unfold orcm_scd_base_get_next_session_id.
  fold id. cbn zeta. unfold new_session. cbn zeta.
  change (session_heap (set_last_session_id id st)) with (session_heap st). fold r.
  change (nodes (set_session_heap _ _)) with (nodes st).
  pose proof (PA.wf_size _ Hwf). pose proof (PA.wf_max _ Hwf). pose proof (PA.nulls_bounds (PA.elems (nodes st))) as Hnb.
  rewrite <-(PA.wf_free _ Hwf) in Hnb. rewrite ck_int_Some by (unfold INT_MIN; lia). cbn [mbind option_bind].
  change (min_nodes (set_alloc_id id alloc)) with (min_nodes alloc). rewrite Hb. cbn [mbind option_bind].
  change (constraints (set_alloc_id id alloc)) with (constraints alloc). rewrite power_attrs_set by done.
  cbn [mbind option_bind Z.eqb OPAL_SUCCESS negb]. rewrite Hn. unfold upd_alloc at 1. cbn [session_heap set_session_heap].
  rewrite lookup_insert_eq. cbn [mbind option_bind session_alloc session_id Z.eqb ORCM_SUCCESS negb].
  rewrite insert_insert_eq. unfold answer_int64. rewrite Ea. cbn [mbind option_bind]. unfold send_buffer_nb. rewrite Hrc.
  cbn [Z.eqb OPAL_SUCCESS]. by rewrite act_init by by destruct Hreg.
Qed.

(** C34. A request that power management accepts: the session gets the next identifier and
    the power constraints of the cluster after its own, the sender is answered with the
    identifier, and the session is on its way to a queue. *)
Theorem session_request_spec p uid sender buf b st alloc budget alloc' :
  registered st → PA.wf (nodes st) → (∀ l m, rml_send_rc l m = OPAL_SUCCESS) →
  unpack1 t_alloc buf = Some (b, inr alloc) →
  NoDup (attr_key <$> constraints alloc) → Forall (λ a, attr_key a ∉ power_keys) (constraints alloc) →
  session_power_budget (power_budget p) (PA.size (nodes st) - PA.number_free (nodes st)) (min_nodes alloc) = Some budget →
  let id := uwrap 32 (last_session_id st + 1) in
  alloc_notify (set_constraints (constraints alloc ++ power_attrs p budget) (set_alloc_id id alloc)) = (alloc', ORCM_SUCCESS) →
  let r := fresh (dom (session_heap st)) in
  ∃ ans b', opal_dss_unpack t_int64 1 ans = Some (b', (OPAL_SUCCESS, 1, [as_int64 id uid])) ∧
    session_request p uid sender buf st =
    Some (post_scd cb_fifo_find_queue r
            (set_sent (sent st ++ [mk_msg sender ORCM_RML_TAG_SCD ans])
               (set_session_heap (<[r := mk_session id (Some alloc')]> (session_heap st)) (set_last_session_id id st)))).
Proof. apply session_request_run. Qed.

(** The identifier the sender is told is that of the session exactly when the field after
    it in memory, which nothing sets, happens to be zero. *)
Theorem answered_id id uid : in_u 32 id → (as_int64 id uid = id ↔ uwrap 32 uid = 0).
Proof.
  unfold in_u, as_int64, swrap. intros Hid. change (2 ^ (64 - 1)) with (2 ^ 63).
  assert (uwrap 32 id = id) as -> by (apply Z.mod_small; lia).
  assert (0 ≤ uwrap 32 uid < 2 ^ 32) as Hu by (apply Z.mod_pos_bound; lia).
  rewrite (Z.mod_small (_ + _)) by lia. destruct (Z.ltb_spec (id + 2 ^ 32 * uwrap 32 uid) (2 ^ 63)); lia.
Qed.

Lemma answered_id_witness : as_int64 5 0 = 5 ↔ uwrap 32 0 = 0.
Proof. apply (answered_id 5 0). unfold in_u. lia. Defined.

(** A request that brings a power constraint of its own, at another type than the
    cluster's, is dropped: the sender gets no answer at all, and no session is started. *)
Theorem session_request_dropped p uid sender buf b st alloc budget attrs rc :
  PA.wf (nodes st) → unpack1 t_alloc buf = Some (b, inr alloc) →
  session_power_budget (power_budget p) (PA.size (nodes st) - PA.number_free (nodes st)) (min_nodes alloc) = Some budget →
  set_constraints_of (power_constraints p budget) (constraints alloc) = Some (attrs, rc) → rc ≠ OPAL_SUCCESS →
  ∃ st', session_request p uid sender buf st = Some st' ∧ sent st' = sent st ∧
    scd_events st' = scd_events st ∧ queues st' = queues st.
Proof.
  intros Hwf Hbuf Hb Ha Hrc. unfold session_request. rewrite Hbuf. unfold orcm_scd_base_get_next_session_id, new_session. cbn zeta.
  set (st1 := set_session_heap _ _). change (nodes st1) with (nodes st).
  pose proof (PA.wf_size _ Hwf). pose proof (PA.wf_max _ Hwf). pose proof (PA.nulls_bounds (PA.elems (nodes st))) as Hnb.
  rewrite <-(PA.wf_free _ Hwf) in Hnb. rewrite ck_int_Some by (unfold INT_MIN; lia). cbn [mbind option_bind].
  change (min_nodes (set_alloc_id _ alloc)) with (min_nodes alloc). rewrite Hb. cbn [mbind option_bind].
  change (constraints (set_alloc_id _ alloc)) with (constraints alloc). rewrite Ha. cbn [mbind option_bind].
  destruct (Z.eqb_spec rc OPAL_SUCCESS); [done|]. cbn [negb]. unfold upd_alloc, st1. cbn [session_heap set_session_heap].
  rewrite lookup_insert_eq. cbn [mbind option_bind session_alloc]. eexists. by split_and!.
Qed.
End recv.

End RecvSpec.
