(* ===== verification/ScdPower.v ===== *)
(** * Power settings and listings (scd_base_recv.c, scd_base_frame.c)

    The remaining messages of the tools: settings of the power policy, of the cluster or of
    one session, and the listings of sessions and nodes; then the dispatcher of all
    messages.  The cluster's settings are a [power_t] beside the state of the
    scheduler. *)

From Stdlib Require Import ZArith Lia Ascii.
From stdpp Require Import prelude numbers strings gmap list.
From S2P Require Import Prelude PointerArray CString Argv Dss Attr CfgiDt Alloc Scd ScdFifo RmRecv ScdRecv.

Local Open Scope Z_scope.

Module ScdPower.
Import Dss Attr Alloc Scd ScdFifo RmRecv ScdRecv.

Definition ORCM_SESSION_INFO_COMMAND : Z := 2.
Definition ORCM_NODE_INFO_COMMAND : Z := 4.

(** ** The settings (orcm_globals.h, pwrmgmt_types.h) *)

Inductive power_item :=
  | BUDGET | MODE | WINDOW | OVERAGE | UNDERAGE | OVERAGE_TIME | UNDERAGE_TIME | FREQUENCY | STRICT.

#[export] Instance power_item_eq : EqDecision power_item.
Proof. solve_decision. Defined.

(** ORCM_SET_POWER_..._COMMAND and ORCM_GET_POWER_..._COMMAND. *)
Definition set_command (i : power_item) : Z :=
  match i with
  | BUDGET => 11 | MODE => 12 | WINDOW => 13 | OVERAGE => 14 | UNDERAGE => 15
  | OVERAGE_TIME => 16 | UNDERAGE_TIME => 17 | FREQUENCY => 18 | STRICT => 19
  end.

Definition ORCM_GET_POWER_MODES_COMMAND : Z := 28.
Definition get_command (i : power_item) : Z :=
  match i with
  | BUDGET => 20 | MODE => 21 | WINDOW => 22 | OVERAGE => 23 | UNDERAGE => 24
  | OVERAGE_TIME => 25 | UNDERAGE_TIME => 26 | FREQUENCY => 27 | STRICT => 29
  end.

Definition all_items : list power_item :=
  [BUDGET; MODE; WINDOW; OVERAGE; UNDERAGE; OVERAGE_TIME; UNDERAGE_TIME; FREQUENCY; STRICT].

(** [switch (sub_command)] over the commands [label]. *)
Definition case_of (label : power_item → Z) (sub_command : Z) : option power_item :=
  snd <$> list_find (λ i, label i = sub_command) all_items.

(** The variable a setting is read into, and its type on the wire. *)
Definition item_type (i : power_item) : Z :=
  match i with FREQUENCY => OPAL_FLOAT | STRICT => OPAL_BOOL | _ => OPAL_INT32 end.

Definition item_key (i : power_item) : Z :=
  match i with
  | BUDGET => ORCM_PWRMGMT_POWER_BUDGET_KEY
  | MODE => ORCM_PWRMGMT_POWER_MODE_KEY
  | WINDOW => ORCM_PWRMGMT_POWER_WINDOW_KEY
  | OVERAGE => ORCM_PWRMGMT_CAP_OVERAGE_LIMIT_KEY
  | UNDERAGE => ORCM_PWRMGMT_CAP_UNDERAGE_LIMIT_KEY
  | OVERAGE_TIME => ORCM_PWRMGMT_CAP_OVERAGE_TIME_LIMIT_KEY
  | UNDERAGE_TIME => ORCM_PWRMGMT_CAP_UNDERAGE_TIME_LIMIT_KEY
  | FREQUENCY => ORCM_PWRMGMT_MANUAL_FREQUENCY_KEY
  | STRICT => ORCM_PWRMGMT_FREQ_STRICT_KEY
  end.

(** The functions [orcm_scd_base_get_cluster_power_...] and [..._set_...]. *)
Definition get_cluster_power (i : power_item) (p : power_t) : attr_data :=
  match i with
  | BUDGET => D_num (power_budget p)
  | MODE => D_num (power_mode p)
  | WINDOW => D_num (power_window p)
  | OVERAGE => D_num (power_overage p)
  | UNDERAGE => D_num (power_underage p)
  | OVERAGE_TIME => D_num (power_overage_time p)
  | UNDERAGE_TIME => D_num (power_underage_time p)
  | FREQUENCY => D_fval (power_frequency p)
  | STRICT => D_flag (power_strict p)
  end.

Definition set_cluster_power (i : power_item) (v : attr_data) (p : power_t) : power_t :=
  let '(mk_power b m w o u ot ut f s) := p in
  match i, v with
  | BUDGET, D_num x => mk_power x m w o u ot ut f s
  | MODE, D_num x => mk_power b x w o u ot ut f s
  | WINDOW, D_num x => mk_power b m x o u ot ut f s
  | OVERAGE, D_num x => mk_power b m w x u ot ut f s
  | UNDERAGE, D_num x => mk_power b m w o x ot ut f s
  | OVERAGE_TIME, D_num x => mk_power b m w o u x ut f s
  | UNDERAGE_TIME, D_num x => mk_power b m w o u ot x f s
  | FREQUENCY, D_fval x => mk_power b m w o u ot ut x s
  | STRICT, D_flag x => mk_power b m w o u ot ut f x
  | _, _ => p
  end.

Section recv.
Context `{FloatText} `{Rml} `{PwrMgmt}.

(** Reading [int_param], [float_param] or [bool_param], and packing it. *)
Definition unpack_param (i : power_item) : M attr_data :=
  match i with
  | FREQUENCY => f ← unpack1 t_float; mret (D_fval f)
  | STRICT => b ← unpack1 t_bool; mret (D_flag b)
  | _ => z ← unpack1 t_int32; mret (D_num z)
  end.

Definition pack_param (v : attr_data) : M unit :=
  match v with
  | D_num z => opal_dss_pack t_int32 [z]
  | D_fval f => opal_dss_pack t_float [f]
  | D_flag b => opal_dss_pack t_bool [b]
  | _ => undefined
  end.

(** ** Answers *)

Definition new_buffer : opal_buffer_t := mk_buf false [] 0 0.

Definition reply (sender : opal_process_name_t) (ans : opal_buffer_t) (st : orcm_scd_base_t) : orcm_scd_base_t :=
  (send_buffer_nb sender ORCM_RML_TAG_SCD ans st).1.

(** Pack an answer and send it; when packing fails it is released, and nothing is sent. *)
Definition reply_with (sender : opal_process_name_t) (m : M unit) (st : orcm_scd_base_t) : option orcm_scd_base_t :=
  match m new_buffer with
  | None => None
  | Some (_, inl _) => Some st
  | Some (ans, inr _) => Some (reply sender ans st)
  end.

Definition world : Type := power_t * orcm_scd_base_t.

(** [goto answer] when a field cannot be unpacked: an empty answer. *)
Definition received {A} (m : M A) (sender : opal_process_name_t) (buffer : opal_buffer_t) (w : world)
    (k : opal_buffer_t → A → option world) : option world :=
  match m buffer with
  | None => None
  | Some (_, inl _) => Some (w.1, reply sender new_buffer w.2)
  | Some (buffer, inr a) => k buffer a
  end.

Definition confirm (sender : opal_process_name_t) (result : Z) (w : world) : option world :=
  st ← reply_with sender (opal_dss_pack t_int [result]) w.2; Some (w.1, st).

(** ** Sessions *)

(** The two nested loops: the first session, in the order of the queues, whose
    allocation has the identifier, with the name of its queue. *)
Fixpoint find_in_queue (st : orcm_scd_base_t) (sessionid : Z) (l : list nat) : option (option nat) :=
  match l with
  | [] => Some None
  | r :: rest =>
      alloc ← get_alloc st r;
      if alloc_id alloc =? sessionid then Some (Some r) else find_in_queue st sessionid rest
  end.

Fixpoint find_session (st : orcm_scd_base_t) (sessionid : Z) (qs : list orcm_queue_t)
    : option (option (cstring * nat)) :=
  match qs with
  | [] => Some None
  | q :: rest =>
      found ← find_in_queue st sessionid (queue_sessions q);
      match found with
      | Some r => Some (Some (queue_name q, r))
      | None => find_session st sessionid rest
      end
  end.

(** The constraint of the allocation; a new mode is passed on to power management. *)
Definition set_session_power (i : power_item) (v : attr_data) (r : nat) (st : orcm_scd_base_t)
    : option (orcm_scd_base_t * Z) :=
  alloc ← get_alloc st r;
  '(attrs, rc) ← orte_set_attribute (constraints alloc) (item_key i) false (Some v) (item_type i);
  let alloc := set_constraints attrs alloc in
  let alloc := if bool_decide (i = MODE) then (alloc_notify alloc).1 else alloc in
  st ← upd_alloc r (λ _, alloc) st;
  Some (st, rc).

(** A running session: the resource manager gets the command and the allocation.  The
    result becomes the code of the step that failed. *)
Definition tell_rm (my_scheduler : opal_process_name_t) (r : nat) (result : Z) (st : orcm_scd_base_t)
    : option (orcm_scd_base_t * Z) :=
  alloc ← get_alloc st r;
  buf ← pack_command ORCM_SET_POWER_COMMAND alloc;
  match buf with
  | inl rc => Some (st, rc)
  | inr rmbuf =>
      let m := mk_msg my_scheduler ORCM_RML_TAG_RM rmbuf in
      let rc := rml_send_rc (sent st) m in
      if rc =? OPAL_SUCCESS then Some (set_sent (sent st ++ [m]) st, result) else Some (st, rc)
  end.

(** ORCM_SET_POWER_COMMAND for the session with an identifier.  When there is none the
    result was never assigned. *)
Definition set_session_item (my_scheduler sender : opal_process_name_t) (item : option power_item)
    (sessionid : Z) (buffer : opal_buffer_t) (w : world) : option world :=
  found ← find_session w.2 sessionid (queues w.2);
  match found with
  | None => None
  | Some (name, r) =>
      let finish st result :=
        '(st, result) ← (if bool_decide (name = lit "running") then tell_rm my_scheduler r result st
                         else Some (st, result));
        confirm sender result (w.1, st) in
      match item with
      | None => finish w.2 OPAL_ERR_BAD_PARAM
      | Some i => received (unpack_param i) sender buffer w (λ _ v,
          '(st, result) ← set_session_power i v r w.2; finish st result)
      end
  end.

(** ORCM_SET_POWER_COMMAND, after the sub-command and the flag. *)
Definition set_power_item (my_scheduler sender : opal_process_name_t) (item : option power_item)
    (per_session : bool) (buffer : opal_buffer_t) (w : world) : option world :=
  if negb per_session then
    match item with
    | None => confirm sender OPAL_ERR_BAD_PARAM w
    | Some i => received (unpack_param i) sender buffer w (λ _ v,
        confirm sender ORCM_SUCCESS (set_cluster_power i v w.1, w.2))
    end
  else
    received (unpack1 t_int64) sender buffer w (λ buffer id,
    sessionid ← store_id sizeof_orcm_session_id_t id;
    set_session_item my_scheduler sender item sessionid buffer w).

Definition power_set (my_scheduler sender : opal_process_name_t) (buffer : opal_buffer_t) (w : world)
    : option world :=
  received (unpack1 t_uint8) sender buffer w (λ buffer sub_command,
  received (unpack1 t_bool) sender buffer w (λ buffer per_session,
  set_power_item my_scheduler sender (case_of set_command sub_command) per_session buffer w)).

(** The answers of ORCM_GET_POWER_COMMAND. *)
Definition answer (sender : opal_process_name_t) (m : M unit) (w : world) : option world :=
  st ← reply_with sender m w.2; Some (w.1, st).

Definition pack_value (v : attr_data) : M unit := _ ← opal_dss_pack t_int [OPAL_SUCCESS]; pack_param v.

(** For a session without a window the code packs [rc], which holds the success of the last
    call, in place of the error. *)
Definition get_session_power (sender : opal_process_name_t) (item : option power_item)
    (found : option (cstring * nat)) (w : world) : option world :=
  match found, item with
  | None, _ => answer sender (mret tt) w
  | Some _, None => answer sender (opal_dss_pack t_int [OPAL_ERR_BAD_PARAM]) w
  | Some (_, r), Some i =>
      alloc ← get_alloc w.2 r;
      '(ok, v) ← orte_get_attribute (constraints alloc) (item_key i) true (item_type i);
      if ok : bool then v ← v; answer sender (pack_value v) w
      else answer sender (opal_dss_pack t_int [if bool_decide (i = WINDOW) then OPAL_SUCCESS else OPAL_ERR_BAD_PARAM]) w
  end.

(** ORCM_GET_POWER_COMMAND, after the sub-command and the flag. *)
Definition get_power_item (sender : opal_process_name_t) (item : option power_item) (per_session : bool)
    (buffer : opal_buffer_t) (w : world) : option world :=
  if negb per_session then
    match item with
    | None => answer sender (opal_dss_pack t_int [OPAL_ERR_BAD_PARAM]) w
    | Some i => answer sender (pack_value (get_cluster_power i w.1)) w
    end
  else
    received (unpack1 t_int64) sender buffer w (λ buffer id,
    sessionid ← store_id sizeof_orcm_session_id_t id;
    found ← find_session w.2 sessionid (queues w.2);
    get_session_power sender item found w).

Definition power_get (sender : opal_process_name_t) (buffer : opal_buffer_t) (w : world) : option world :=
  received (unpack1 t_uint8) sender buffer w (λ buffer sub_command,
  received (unpack1 t_bool) sender buffer w (λ buffer per_session,
  get_power_item sender (case_of get_command sub_command) per_session buffer w)).

(** ** Listings *)

(** A queue: its name, the number of its sessions, and their allocations. *)
Definition pack_queue (st : orcm_scd_base_t) (q : orcm_queue_t) : M unit :=
  match mapM (get_alloc st) (queue_sessions q) with
  | None => undefined
  | Some allocs =>
      let cnt := to_int (Z.of_nat (length (queue_sessions q))) in
      _ ← opal_dss_pack t_string [Some (queue_name q)];
      _ ← opal_dss_pack t_int [cnt];
      if 0 <? cnt then opal_dss_pack t_alloc allocs else mret tt
  end.

Definition session_info (sender : opal_process_name_t) (st : orcm_scd_base_t) : option orcm_scd_base_t :=
  reply_with sender
    (_ ← opal_dss_pack t_int [to_int (Z.of_nat (length (queues st)))];
     pack_each (pack_queue st) (queues st)) st.

(** The node object of a reference; what the scheduler does not use of it, its
    configuration, comes with [node_config]. *)
Definition node_object (node_config : nat → CfgiDt.orcm_config_t) (st : orcm_scd_base_t) (r : nat)
    : option CfgiDt.orcm_node_t :=
  n ← node_heap st !! r;
  Some (CfgiDt.mk_node (Some (node_name n)) None (daemon n) (node_config r) (node_state n) (scd_state n) 0 None).

(** The nodes below the first free slot of the table. *)
Definition node_info (node_config : nat → CfgiDt.orcm_config_t) (sender : opal_process_name_t)
    (st : orcm_scd_base_t) : option orcm_scd_base_t :=
  let cnt := PA.lowest_free (nodes st) in
  refs ← items_from (nodes st) 0 (Z.to_nat cnt);
  objs ← mapM (node_object node_config st) refs;
  reply_with sender
    (_ ← opal_dss_pack t_int [cnt];
     if 0 <? cnt then opal_dss_pack CfgiDt.t_node objs else mret tt) st.

(** ** The messages of the tools, in order of receipt *)

Definition orcm_scd_base_recv (node_config : nat → CfgiDt.orcm_config_t) (my_scheduler : opal_process_name_t)
    (uid : Z) (sender : opal_process_name_t) (buffer : opal_buffer_t) (w : world) : option world :=
  received (unpack1 t_uint8) sender buffer w (λ buffer command,
  if command =? ORCM_SESSION_REQ_COMMAND then
    st ← session_request w.1 uid sender buffer w.2; Some (w.1, st)
  else if command =? ORCM_SESSION_INFO_COMMAND then st ← session_info sender w.2; Some (w.1, st)
  else if command =? ORCM_SESSION_CANCEL_COMMAND then
    st ← session_cancel sender buffer w.2; Some (w.1, st)
  else if command =? ORCM_NODE_INFO_COMMAND then st ← node_info node_config sender w.2; Some (w.1, st)
  else if command =? ORCM_SET_POWER_COMMAND then power_set my_scheduler sender buffer w
  else if command =? ORCM_GET_POWER_COMMAND then power_get sender buffer w
  else Some (w.1, reply sender new_buffer w.2)).

End recv.
End ScdPower.
