(* ===== verification/Octl.v ===== *)
(** * The commands of octl (orcm/tools/octl: power.c, session.c, queue.c, resource.c)

    A command checks its arguments, packs a request, sends it to the scheduler and waits for
    the answer, which it unpacks and prints.  The exchange of a request for an answer is an
    argument: it maps the tag and the request to the answer, and acts on a world.  What
    a command prints is its result; an error code is [inl]. *)

From Stdlib Require Import ZArith Lia Ascii.
From stdpp Require Import prelude numbers strings gmap list.
From S2P Require Import Prelude PointerArray CString Argv Regex Dss Attr CfgiDt Alloc Scd ScdFifo RmRecv ScdRecv ScdPower.

Local Open Scope Z_scope.

Module Octl.
Import Argv Dss Attr Alloc Scd ScdFifo RmRecv ScdRecv ScdPower.

(** ** Names of the power modes (pwrmgmt_base_frame.c) *)

Definition ORCM_PWRMGMT_NUM_MODES : Z := 6.

Definition orcm_pwrmgmt_get_mode_string (mode : Z) : cstring :=
  lit (if mode =? 0 then "NONE"
       else if mode =? 1 then "MANUAL_FREQ"
       else if mode =? 2 then "AUTO_UNIFORM_FREQ"
       else if mode =? 3 then "AUTO_DUAL_UNIFORM_FREQ"
       else if mode =? 4 then "AUTO_GEO_GOAL_MAX_PERF"
       else if mode =? 5 then "AUTO_GEO_GOAL_MAX_EFFICIENCY"
       else "UNKNOWN POWER MODE").

(** [!strncmp(s, t, n)] *)
Definition strneq (s t : cstring) (n : nat) : bool := bool_decide (take n s = take n t).

Definition orcm_pwrmgmt_get_mode_val (mode : cstring) : Z :=
  if strneq mode (lit "NONE") 4 then 0
  else if strneq mode (lit "MANUAL_FREQ") 11 then 1
  else if strneq mode (lit "AUTO_UNIFORM_FREQ") 17 then 2
  else if strneq mode (lit "AUTO_DUAL_UNIFORM_FREQ") 22 then 3
  else if strneq mode (lit "AUTO_GEO_GOAL_MAX_PERF") 22 then 4
  else if strneq mode (lit "AUTO_GEO_GOAL_MAX_EFFICIENCY") 28 then 5
  else -1.

(** 255.0 and 256.0 as bit patterns. *)
Definition ORCM_PWRMGMT_MAX_FREQ : Z := 1132396544.
Definition ORCM_PWRMGMT_MIN_FREQ : Z := 1132462080.

Section octl.
Context `{FloatText}.
Context {W : Type}.
Context (exchange : Z → opal_buffer_t → W → option (W * (Z + opal_buffer_t))).

(** ** Requests and answers *)

(** [None] also stands for a command that waits forever. *)
Definition ask {A} (tag : Z) (request : M unit) (read : M A) (w : W) : option (W * (Z + A)) :=
  match request new_buffer with
  | None => None
  | Some (_, inl rc) => Some (w, inl rc)
  | Some (buf, inr _) =>
      '(w, r) ← exchange tag buf w;
      match r with
      | inl rc => Some (w, inl rc)
      | inr data =>
          match read data with
          | None => None
          | Some (_, inl rc) => Some (w, inl rc)
          | Some (_, inr a) => Some (w, inr a)
          end
      end
  end.

(** The result that is printed as Success or Failure. *)
Definition read_result : M bool := result ← unpack1 t_int; mret (0 =? result).

Definition arg (argv : list cstring) (i : nat) (k : cstring → M unit) : M unit :=
  match argv !! i with Some s => k s | None => undefined end.

(** ** Settings *)

(** The value of an argument.  The character before its end is looked at: there is none
    in an empty argument. *)
Definition parse_setting (i : power_item) (s : cstring) : option (Z + attr_data) :=
  let number := to_int (strtol s).1 in
  match i with
  | MODE =>
      c ← last s;
      let v := if isdigit c then number else orcm_pwrmgmt_get_mode_val s in
      Some (if (v <? 0) || (ORCM_PWRMGMT_NUM_MODES <=? v) then inl OPAL_ERR_BAD_PARAM else inr (D_num v))
  | FREQUENCY =>
      c ← last s;
      Some (if isdigit c then inr (D_fval (strtof s))
            else if strneq s (lit "MAX_FREQ") 8 then inr (D_fval ORCM_PWRMGMT_MAX_FREQ)
            else if strneq s (lit "MIN_FREQ") 8 then inr (D_fval ORCM_PWRMGMT_MIN_FREQ)
            else inl OPAL_ERR_BAD_PARAM)
  | STRICT =>
      c ← last s;
      Some (if isdigit c then inr (D_flag (negb ((strtol s).1 =? 0)))
            else if strneq s (lit "true") 4 then inr (D_flag true)
            else if strneq s (lit "false") 5 then inr (D_flag false)
            else inl OPAL_ERR_BAD_PARAM)
  | _ => Some (inr (D_num number))
  end.

Definition pack_setting (cmd : Z) (s : cstring) : M unit :=
  match case_of set_command cmd with
  | None => fail OPAL_ERR_BAD_PARAM
  | Some i =>
      match parse_setting i s with
      | None => undefined
      | Some (inl rc) => fail rc
      | Some (inr v) => pack_param v
      end
  end.

(** The start of a power request: the command, the sub-command as a byte, and whether it
    is for one session. *)
Definition pack_head (command cmd : Z) (per_session : bool) : M unit :=
  _ ← opal_dss_pack t_uint8 [command];
  _ ← opal_dss_pack t_uint8 [uwrap 8 cmd];
  opal_dss_pack t_bool [per_session].

Definition orcm_octl_power_set (cmd : Z) (argv : list cstring) (w : W) : option (W * (Z + bool)) :=
  if negb (opal_argv_count (Some argv) =? 4) then Some (w, inl OPAL_ERR_BAD_PARAM) else
  ask ORCM_RML_TAG_SCD
    (_ ← pack_head ORCM_SET_POWER_COMMAND cmd false; arg argv 3 (pack_setting cmd))
    read_result w.

Definition orcm_octl_session_set (cmd : Z) (argv : list cstring) (w : W) : option (W * (Z + bool)) :=
  if negb (opal_argv_count (Some argv) =? 5) then Some (w, inl OPAL_ERROR) else
  ask ORCM_RML_TAG_SCD
    (_ ← pack_head ORCM_SET_POWER_COMMAND cmd true;
     _ ← arg argv 3 (λ s, opal_dss_pack t_int64 [(strtol s).1]);
     arg argv 4 (pack_setting cmd))
    read_result w.

(** ** Queries *)

Inductive report := R_modes (modes : list cstring) | R_value (v : attr_data).

Definition read_value (cmd : Z) : M report :=
  success ← unpack1 t_int;
  if negb (success =? OPAL_SUCCESS) then fail success else
  match case_of get_command cmd with
  | None => fail OPAL_ERR_BAD_PARAM
  | Some i => v ← unpack_param i; mret (R_value v)
  end.

Definition orcm_octl_power_get (cmd : Z) (argv : list cstring) (w : W) : option (W * (Z + report)) :=
  if negb (opal_argv_count (Some argv) =? 3) then Some (w, inl OPAL_ERR_BAD_PARAM) else
  if cmd =? ORCM_GET_POWER_MODES_COMMAND
  then Some (w, inr (R_modes (orcm_pwrmgmt_get_mode_string <$> seqZ 0 ORCM_PWRMGMT_NUM_MODES)))
  else ask ORCM_RML_TAG_SCD (pack_head ORCM_GET_POWER_COMMAND cmd false) (read_value cmd) w.

Definition orcm_octl_session_get (cmd : Z) (argv : list cstring) (w : W) : option (W * (Z + report)) :=
  if negb (opal_argv_count (Some argv) =? 4) then Some (w, inl OPAL_ERROR) else
  ask ORCM_RML_TAG_SCD
    (_ ← pack_head ORCM_GET_POWER_COMMAND cmd true;
     arg argv 3 (λ s, opal_dss_pack t_int64 [(strtol s).1]))
    (read_value cmd) w.

(** ** Sessions, queues and nodes *)

Definition orcm_octl_session_cancel (argv : list cstring) (w : W) : option (W * (Z + bool)) :=
  if negb (opal_argv_count (Some argv) =? 3) then Some (w, inl OPAL_ERR_BAD_PARAM) else
  s ← argv !! 2%nat;
  let session := (strtol s).1 in
  if session <=? 0 then Some (w, inl OPAL_ERROR) else
  ask ORCM_RML_TAG_SCD
    (_ ← opal_dss_pack t_uint8 [ORCM_SESSION_CANCEL_COMMAND]; opal_dss_pack t_int64 [session])
    read_result w.

(** At most [n] values, as many as were packed. *)
Definition unpack_some {A} (T : opal_dss_type_info_t A) (n : Z) : M (list A) := λ b,
  match opal_dss_unpack T n b with
  | None => None
  | Some (b', (rc, _, l)) => if rc =? OPAL_SUCCESS then Some (b', inr l) else Some (b', inl rc)
  end.

Definition read_queue : M (option cstring * Z * list orcm_alloc_t) :=
  name ← unpack1 t_string;
  num_sessions ← unpack1 t_int;
  allocs ← (if 0 <? num_sessions then unpack_some t_alloc num_sessions else mret []);
  mret (name, num_sessions, allocs).

Definition orcm_octl_queue_status (w : W) : option (W * (Z + list (option cstring * Z * list orcm_alloc_t))) :=
  ask ORCM_RML_TAG_SCD (opal_dss_pack t_uint8 [ORCM_SESSION_INFO_COMMAND])
    (num_queues ← unpack1 t_int; unpack_each read_queue num_queues) w.

(** The nodes with the same states, by name. *)
Record orcm_resource_container_t := mk_container {
  template_scd_state : Z;
  template_state : Z;
  resources : list cstring;
}.

Definition same_template (node : CfgiDt.orcm_node_t) (c : orcm_resource_container_t) : bool :=
  (template_scd_state c =? CfgiDt.scd_state node) && (template_state c =? CfgiDt.state node).

(** Every container that matches takes the node; when none does, a new one. *)
Definition containerize (containers : list orcm_resource_container_t) (node : CfgiDt.orcm_node_t)
    : option (list orcm_resource_container_t) :=
  name ← CfgiDt.node_name node;
  let taken := (λ c, if same_template node c
                     then mk_container (template_scd_state c) (template_state c) (resources c ++ [name])
                     else c) <$> containers in
  Some (if existsb (same_template node) containers then taken
        else taken ++ [mk_container (CfgiDt.scd_state node) (CfgiDt.state node) [name]]).

Fixpoint containerize_all (containers : list orcm_resource_container_t) (nodes : list CfgiDt.orcm_node_t)
    : option (list orcm_resource_container_t) :=
  match nodes with
  | [] => Some containers
  | node :: rest => containers ← containerize containers node; containerize_all containers rest
  end.

(** A line of the listing: the compressed names and the two states. *)
Definition list_container (c : orcm_resource_container_t) : option (cstring * Z * Z) :=
  nodelist ← opal_argv_join (Some (resources c)) COMMA;
  regexp ← Regex.orte_regex_create nodelist;
  Some (regexp, template_state c, template_scd_state c).

Definition list_nodes (nodes : list CfgiDt.orcm_node_t) : option (list (cstring * Z * Z)) :=
  containers ← containerize_all [] nodes; mapM list_container containers.

Definition orcm_octl_resource_status (w : W) : option (W * (Z + (Z * list (cstring * Z * Z)))) :=
  ask ORCM_RML_TAG_SCD (opal_dss_pack t_uint8 [ORCM_NODE_INFO_COMMAND])
    (num_nodes ← unpack1 t_int;
     if 0 <? num_nodes then
       nodes ← unpack_some CfgiDt.t_node num_nodes;
       match list_nodes nodes with None => undefined | Some lines => mret (num_nodes, lines) end
     else mret (num_nodes, [])) w.

(** [state] is ORCM_NODE_STATE_DRAIN or ORCM_NODE_STATE_RESUME, [bad] what the command returns
    for other than three arguments. *)
Definition change_resource (state bad : Z) (argv : list cstring) (w : W) : option (W * (Z + bool)) :=
  if negb (opal_argv_count (Some argv) =? 3) then Some (w, inl bad) else
  ask ORCM_RML_TAG_RM
    (_ ← opal_dss_pack t_uint8 [ORCM_NODESTATE_UPDATE_COMMAND];
     _ ← opal_dss_pack t_int8 [state];
     arg argv 2 (λ s, opal_dss_pack t_string [Some s]))
    read_result w.

Definition orcm_octl_resource_drain : list cstring → W → option (W * (Z + bool)) :=
  change_resource ORCM_NODE_STATE_DRAIN OPAL_ERR_BAD_PARAM.
Definition orcm_octl_resource_resume : list cstring → W → option (W * (Z + bool)) :=
  change_resource ORCM_NODE_STATE_RESUME OPAL_ERROR.

End octl.
End Octl.
