(* ===== verification/OctlSpec.v ===== *)
(** * The tools and the scheduler together

    The exchange of the tools is that with the scheduler: the request is received by
    [orcm_scd_base_recv], and the answer is the message it sends back.  What a user who sets
    and queries power settings, lists the queues or lists the nodes gets. *)

From Stdlib Require Import ZArith Lia Ascii.
From stdpp Require Import prelude numbers strings gmap list.
From S2P Require Import Prelude PointerArray CString Argv Regex Dss Names Fields Attr CfgiDt CfgiSpec Alloc Scd ScdFifo ScdLemmas ScdSpec ScdRun RmRecv ScdRecv RecvSpec ScdPower Octl.

Local Open Scope Z_scope.

Module OctlSpec.
Import Argv Dss Names Fields Attr Alloc Scd ScdFifo RmRecv ScdRecv ScdPower Octl.

(** ** Messages as their bytes *)

(** A buffer as it arrives: its unread bytes are [y]. *)
Definition carrying (b : opal_buffer_t) (y : list Z) : Prop := fully_desc b = false ∧ readable b y [].

Lemma packed p x : packs false p x → ∃ b, p new_buffer = Some (b, inr tt) ∧ carrying b x.
Proof.
  intros Hp. destruct (Hp new_buffer eq_refl) as (b & E & X). exists b. split; [done|]. split; [apply X|].
  by apply (extended_readable new_buffer).
Qed.

Lemma take_one {A} (m : M A) x y a b : unpacks false m x a → carrying b (x ++ y) →
  ∃ b', m b = Some (b', inr a) ∧ carrying b' y.
Proof.
  intros Hm [Hd Hr]. exists (Dss.skip b (length x)). split; [|split; [done|by apply readable_skip]].
  by apply (Hm b y); [|by rewrite <-(app_nil_r y); apply readable_app].
Qed.

(** Which branch of the dispatcher a command takes. *)
Ltac commands := unfold ORCM_SESSION_REQ_COMMAND, ORCM_SESSION_INFO_COMMAND, ORCM_SESSION_CANCEL_COMMAND,
  ORCM_NODE_INFO_COMMAND, ORCM_SET_POWER_COMMAND, ORCM_GET_POWER_COMMAND; cbn [Z.eqb Pos.eqb].

(** ** Values of settings *)

Definition fits `{FloatText} (i : power_item) (v : attr_data) : Prop :=
  match i, v with
  | FREQUENCY, D_fval f => valid_float f
  | STRICT, D_flag _ => True
  | FREQUENCY, _ | STRICT, _ => False
  | _, D_num z => in_s 32 z
  | _, _ => False
  end.

Lemma case_set i : case_of set_command (set_command i) = Some i.
Proof. by destruct i. Qed.
Lemma case_get i : case_of get_command (get_command i) = Some i.
Proof. by destruct i. Qed.
Lemma byte_set i : uwrap 8 (set_command i) = set_command i.
Proof. by destruct i. Qed.
Lemma byte_get i : uwrap 8 (get_command i) = get_command i.
Proof. by destruct i. Qed.

Section exchange.
Context `{FloatText} `{Rml} `{PwrMgmt}.
Context (node_config : nat → CfgiDt.orcm_config_t) (my_scheduler : opal_process_name_t) (uid : Z).
Context (me : opal_process_name_t).

Lemma meets_param d i v : fits i v → meets d (pack_param v) (unpack_param i) v.
Proof.
  intros Hf.
  assert (∀ z, in_s 32 z → meets d (opal_dss_pack t_int32 [z]) (z ← unpack1 t_int32; mret (D_num z)) (D_num z)).
  { intros z Hz. eapply meets_map, meets_value; [apply codec_int32|done]. }
  destruct i, v; try done; cbn [pack_param unpack_param]; auto.
  - eapply meets_map, meets_value; [apply codec_float|done].
  - eapply meets_map, meets_value; [apply _|done].
Qed.

Lemma parse_fits i s v : parse_setting i s = Some (inr v) → (∀ f, v = D_fval f → valid_float f) → fits i v.
Proof.
  intros Hp Hf. pose proof (RecvSpec.in_s_swrap 32 (strtol s).1 ltac:(lia)) as Hn.
  destruct i; cbn in Hp; simplify_eq; try exact Hn.
  - destruct (last s) as [c|]; [|done]. cbn in Hp. injection Hp as Hp. case_match eqn:E; [done|].
    injection Hp as <-. unfold fits, in_s. apply orb_false_iff in E as [E1 E2]. simpl.
    apply Z.ltb_ge in E1. apply Z.leb_gt in E2. unfold ORCM_PWRMGMT_NUM_MODES in E2. lia.
  - destruct (last s) as [c|]; [|done]. cbn in Hp. injection Hp as Hp.
    repeat case_match; simplify_eq; by apply Hf.
  - destruct (last s) as [c|]; [|done]. cbn in Hp. injection Hp as Hp. by repeat case_match; simplify_eq.
Qed.

Lemma received_one {A} (m : M A) x y a b : unpacks false m x a → carrying b (x ++ y) →
  ∃ b', (∀ sender w k, received m sender b w k = k b' a) ∧ carrying b' y.
Proof.
  intros Hm Hb. destruct (take_one m x y a b Hm Hb) as (b' & E & Hb'). exists b'. split; [|done].
  intros sender w k. unfold received. by rewrite E.
Qed.

(** ** The exchange *)

Definition deliver (tag : Z) (buf : opal_buffer_t) (w : world) : option (world * (Z + opal_buffer_t)) :=
  w' ← orcm_scd_base_recv node_config my_scheduler uid me buf w;
  m ← List.find (λ m, same_proc (msg_dest m) me && (msg_tag m =? tag)) (drop (length (sent w.2)) (sent w'.2));
  Some (w', inr (msg_buf m)).

Context (Hsent : ∀ l m, rml_send_rc l m = OPAL_SUCCESS).

Lemma reply_ok sender ans st : reply sender ans st = set_sent (sent st ++ [mk_msg sender ORCM_RML_TAG_SCD ans]) st.
Proof. unfold reply, send_buffer_nb. by rewrite Hsent. Qed.

(** A request that packs [x], the scheduler answering it with a message that carries [y],
    and the tool reading [r] from [y], a value or an error. *)
Lemma ask_scd_gen {A} request (read : M A) x y r w (P : world → Prop) :
  packs false request x → (∀ b, carrying b y → ∃ b', read b = Some (b', r)) →
  (∀ b, carrying b x → ∃ w' ans, orcm_scd_base_recv node_config my_scheduler uid me b w = Some w' ∧
     carrying ans y ∧ P w' ∧
     ∃ before, Forall (λ m, msg_tag m ≠ ORCM_RML_TAG_SCD) before ∧
       sent w'.2 = sent w.2 ++ before ++ [mk_msg me ORCM_RML_TAG_SCD ans]) →
  ∃ w', ask deliver ORCM_RML_TAG_SCD request read w = Some (w', r) ∧ P w'.
Proof.
  intros Hp Hu Hr. destruct (packed request x Hp) as (b & Eb & Hb).
  destruct (Hr b Hb) as (w' & ans & Er & Ha & HP & before & Hbf & Es). exists w'. split; [|done].
  unfold ask. rewrite Eb. unfold deliver. rewrite Er. cbn [mbind option_bind].
  rewrite Es, drop_app_length.
  assert (List.find (λ m, same_proc (msg_dest m) me && (msg_tag m =? ORCM_RML_TAG_SCD))
    (before ++ [mk_msg me ORCM_RML_TAG_SCD ans]) = Some (mk_msg me ORCM_RML_TAG_SCD ans)) as ->.
  { clear -Hbf. induction Hbf as [|m l Hm _ IH]; cbn [app List.find msg_dest msg_tag].
    - by rewrite (proj2 (same_proc_eq me me) eq_refl).
    - destruct (Z.eqb_spec (msg_tag m) ORCM_RML_TAG_SCD); [done|]. by rewrite andb_false_r. }
  cbn [mbind option_bind msg_buf]. destruct (Hu ans Ha) as (b' & ->). by destruct r.
Qed.

Lemma ask_scd {A} request (read : M A) x y a w (P : world → Prop) :
  packs false request x → unpacks false read y a →
  (∀ b, carrying b x → ∃ w' ans, orcm_scd_base_recv node_config my_scheduler uid me b w = Some w' ∧
     carrying ans y ∧ P w' ∧
     ∃ before, Forall (λ m, msg_tag m ≠ ORCM_RML_TAG_SCD) before ∧
       sent w'.2 = sent w.2 ++ before ++ [mk_msg me ORCM_RML_TAG_SCD ans]) →
  ∃ w', ask deliver ORCM_RML_TAG_SCD request read w = Some (w', inr a) ∧ P w'.
Proof.
  intros Hp Hu. apply (ask_scd_gen _ _ x y); [done|]. intros b Hb.
  destruct (take_one read y [] a b Hu) as (b' & E & _); [by rewrite app_nil_r|by exists b'].
Qed.

Lemma empty_read {A} (T : opal_dss_type_info_t A) b : carrying b [] →
  unpack1 T b = Some (b, inl OPAL_ERR_UNPACK_READ_PAST_END_OF_BUFFER).
Proof.
  intros [Hd [Hl Hr]]. apply (f_equal length) in Hr. unfold remaining in Hr. rewrite length_drop in Hr. cbn in Hr.
  assert (∀ n, 0 < n → opal_dss_too_small b n = true) as Hs.
  { intros n Hn. unfold opal_dss_too_small. zbool; (done || lia). }
  unfold unpack1, opal_dss_unpack, unpack_count, mbind, M_bind, is_desc. rewrite Hd. cbn -[opal_dss_too_small].
  unfold read_as, mbind, M_bind, opal_dss_unpack_int32, unpack_words. by rewrite Hs.
Qed.

(** *** Power requests *)

Lemma head_received command cmd per : command = ORCM_SET_POWER_COMMAND ∨ command = ORCM_GET_POWER_COMMAND →
  ∃ x, packs false (pack_head command cmd per) x ∧
  ∀ y b w, carrying b (x ++ y) → ∃ b', carrying b' y ∧
    orcm_scd_base_recv node_config my_scheduler uid me b w =
    if command =? ORCM_SET_POWER_COMMAND
    then set_power_item my_scheduler me (case_of set_command (uwrap 8 cmd)) per b' w
    else get_power_item me (case_of get_command (uwrap 8 cmd)) per b' w.
Proof.
  intros Hc.
  destruct (meets_value t_uint8 (in_u 8) false command) as (x1 & P1 & U1);
    [apply _|by destruct Hc as [->| ->]|].
  destruct (meets_value t_uint8 (in_u 8) false (uwrap 8 cmd)) as (x2 & P2 & U2);
    [apply _|apply Z.mod_pos_bound; lia|].
  destruct (meets_value t_bool (λ _, True) false per) as (x3 & P3 & U3); [apply _|done|].
  exists (x1 ++ x2 ++ x3). split; [by apply packs_bind; [|apply packs_bind]|]. intros y b w Hb.
  rewrite <-!app_assoc in Hb.
  destruct (received_one (unpack1 t_uint8) x1 _ command b U1 Hb) as (b1 & E1 & C1).
  destruct (received_one (unpack1 t_uint8) x2 _ (uwrap 8 cmd) b1 U2 C1) as (b2 & E2 & C2).
  destruct (received_one (unpack1 t_bool) x3 _ per b2 U3 C2) as (b3 & E3 & C3).
  exists b3. split; [done|]. unfold orcm_scd_base_recv. rewrite E1.
  destruct Hc as [-> | ->]; commands; unfold power_set, power_get; by rewrite E2, E3.
Qed.

Lemma meets_int d z : in_s 32 z → meets d (opal_dss_pack t_int [z]) (unpack1 t_int) z.
Proof. intros Hz. apply (meets_value t_int (in_s 32)); [apply _|done]. Qed.

(** The scheduler says what [m] packs. *)
Lemma replied m y st : packs false m y →
  ∃ ans, carrying ans y ∧ reply_with me m st = Some (set_sent (sent st ++ [mk_msg me ORCM_RML_TAG_SCD ans]) st).
Proof.
  intros Hm. destruct (packed m y Hm) as (ans & E & Ha). exists ans. split; [done|].
  unfold reply_with. rewrite E. by rewrite reply_ok.
Qed.

(** Nothing happened to the scheduler but that it sent messages. *)
Definition only_sent (st st' : orcm_scd_base_t) : Prop := ∃ l, st' = set_sent l st.

Lemma power_set_run i a0 a1 a2 s v w : parse_setting i s = Some (inr v) → fits i v →
  ∃ w', orcm_octl_power_set deliver (set_command i) [a0; a1; a2; s] w = Some (w', inr true) ∧
    w'.1 = set_cluster_power i v w.1 ∧ only_sent w.2 w'.2.
Proof.
  intros Hp Hf. destruct (head_received ORCM_SET_POWER_COMMAND (set_command i) false) as (x & Px & Rx); [by left|].
  destruct (meets_param false i v Hf) as (z & Pz & Uz).
  destruct (meets_int false ORCM_SUCCESS) as (y & Py & Uy); [done|].
  apply (ask_scd _ _ (x ++ z) y true w (λ w', w'.1 = set_cluster_power i v w.1 ∧ only_sent w.2 w'.2)).
  - apply packs_bind; [done|]. cbn. unfold pack_setting. by rewrite case_set, Hp.
  - exact (unpacks_bind_ret _ _ (λ result, 0 =? result) _ _ Uy).
  - intros b Hb. destruct (Rx z b w Hb) as (b' & Hb' & ->). commands.
    rewrite byte_set, case_set. cbn [set_power_item negb].
    destruct (received_one (unpack_param i) z [] v b' Uz) as (b2 & E2 & _); [by rewrite app_nil_r|]. rewrite E2.
    destruct (replied (opal_dss_pack t_int [ORCM_SUCCESS]) y w.2 Py) as (ans & Ha & Er).
    unfold confirm. cbn [fst snd]. rewrite Er. eexists _, ans. cbn [mbind option_bind fst snd].
    split_and!; [done|done|done|by eexists|]. by exists [].
Qed.

Lemma power_get_run i a0 a1 a2 w : fits i (get_cluster_power i w.1) →
  ∃ w', orcm_octl_power_get deliver (get_command i) [a0; a1; a2] w =
      Some (w', inr (R_value (get_cluster_power i w.1))) ∧ w'.1 = w.1 ∧ only_sent w.2 w'.2.
Proof.
  intros Hf. destruct (head_received ORCM_GET_POWER_COMMAND (get_command i) false) as (x & Px & Rx); [by right|].
  destruct (meets_param false i _ Hf) as (z & Pz & Uz).
  destruct (meets_int false OPAL_SUCCESS) as (y & Py & Uy); [done|].
  assert ((get_command i =? ORCM_GET_POWER_MODES_COMMAND) = false) as Em by by destruct i.
  unfold orcm_octl_power_get. cbn [opal_argv_count length negb]. rewrite Em. cbn [Z.of_nat Z.eqb Pos.eqb Pos.of_succ_nat Pos.succ negb].
  apply (ask_scd _ _ x (y ++ z) _ w (λ w', w'.1 = w.1 ∧ only_sent w.2 w'.2)); [done| |].
  - eapply unpacks_bind; [exact Uy|]. cbn [negb Z.eqb OPAL_SUCCESS]. rewrite case_get. by apply (unpacks_bind_ret _ _ R_value).
  - intros b Hb. destruct (Rx [] b w) as (b' & _ & ->); [by rewrite app_nil_r|].
    commands.
    rewrite byte_get, case_get. cbn [get_power_item negb].
    destruct (replied (pack_value (get_cluster_power i w.1)) (y ++ z) w.2) as (ans & Ha & Er);
      [by apply packs_bind|]. unfold answer. rewrite Er. eexists _, ans. cbn [mbind option_bind fst snd].
    split_and!; [done|done|done|by eexists|]. by exists [].
Qed.

(** *** Settings of one session *)

Lemma item_member i v : fits i v → supported (item_type i) = true ∧ member_of (item_type i) v = true ∧ copy_data v = v.
Proof. by destruct i, v. Qed.

Lemma item_valid i v local : fits i v → valid_attr (mk_attr (item_key i) local (item_type i) v).
Proof.
  intros Hf. split_and!; [by destruct i|by destruct i|]. split; [by apply item_member|].
  by destruct i, v.
Qed.

Lemma set_attribute_valid l key local d type l' rc : Forall valid_attr l →
  valid_attr (mk_attr key local type d) → (∀ loc, valid_attr (mk_attr key loc type d)) →
  supported type = true → member_of type d = true → copy_data d = d →
  orte_set_attribute l key local (Some d) type = Some (l', rc) →
  Forall valid_attr l' ∧ (length l' ≤ S (length l))%nat.
Proof.
  intros Hl Hv Hv' Hs Hm Hc. revert l'. induction Hl as [|kv l Hkv Hl IH]; intros l'; cbn [orte_set_attribute].
  - rewrite attr_load_ok by done. cbn. rewrite Hc. intros [= <- <-]. split; [|done]. by apply Forall_singleton.
  - destruct (Z.eqb_spec key (attr_key kv)) as [->|Hne].
    + destruct (negb _); [intros [= <- <-]; split; [by constructor|simpl; lia]|].
      rewrite attr_load_ok by done. cbn. rewrite Hc. intros [= <- <-]. split; [by constructor|simpl; lia].
    + destruct (orte_set_attribute l key local (Some d) type) as [[l1 rc1]|]; [|done]. cbn.
      intros [= <- <-]. destruct (IH l1 eq_refl). split; [by constructor|simpl; lia].
Qed.

(** The session [id] is on the queue [name], and its constraints, if it has one for the
    setting, have it at the right type. *)
Record session_at (st : orcm_scd_base_t) (id : Z) (i : power_item) (name : cstring) (r : nat) (alloc : orcm_alloc_t)
    : Prop := {
  sa_found : find_session st id (queues st) = Some (Some (name, r));
  sa_alloc : get_alloc st r = Some alloc;
  sa_types : Forall (λ a, attr_key a = item_key i → attr_type a = item_type i) (constraints alloc);
  sa_valid : valid_alloc alloc;
  sa_room : Z.of_nat (length (constraints alloc)) + 1 < INT_MAX;
}.

(** What a constraint says. *)
Definition session_power (alloc : orcm_alloc_t) (i : power_item) : option (bool * option attr_data) :=
  orte_get_attribute (constraints alloc) (item_key i) true (item_type i).

(** Power management may add to an allocation but keeps its identifier and settings. *)
Definition keeps_settings : Prop := ∀ a,
  alloc_id (alloc_notify a).1 = alloc_id a ∧ (∀ j, session_power (alloc_notify a).1 j = session_power a j) ∧
  (valid_alloc a → Z.of_nat (length (constraints a)) < INT_MAX → valid_alloc (alloc_notify a).1).

Lemma item_key_inj i j : item_key i = item_key j → i = j.
Proof. by destruct i, j. Qed.

Lemma set_session_power_ok i v r st id name alloc : fits i v → session_at st id i name r alloc →
  (i = MODE → keeps_settings) →
  ∃ st' alloc', set_session_power i v r st = Some (st', OPAL_SUCCESS) ∧
    (∃ h, st' = set_session_heap h st) ∧ get_alloc st' r = Some alloc' ∧
    (∀ r', r' ≠ r → get_alloc st' r' = get_alloc st r') ∧ alloc_id alloc' = alloc_id alloc ∧
    valid_alloc alloc' ∧ session_power alloc' i = Some (true, Some v) ∧
    ∀ j, j ≠ i → session_power alloc' j = session_power alloc j.
Proof.
  intros Hf [_ Ha Ht Hva Hroom] Hn. destruct (item_member i v Hf) as (Hs & Hm & Hc).
  destruct (orte_set_get_attribute (constraints alloc) (item_key i) false v (item_type i) Hs Hm)
    as (attrs & rc & E & _ & Hother & [[-> Hget]|(_ & _ & a & Hin & Hk & Hty)]);
    [|rewrite Forall_forall in Ht; by destruct (Hty (Ht a Hin Hk))].
  destruct (set_attribute_valid _ _ _ _ _ _ _ (va_constraints _ Hva) (item_valid i v false Hf)
    (λ loc, item_valid i v loc Hf) Hs Hm Hc E) as [Hval Hlen].
  assert (valid_alloc (set_constraints attrs alloc)) as Hv'.
  { destruct Hva. split; try assumption. cbn. unfold INT_MAX in *. lia. }
  set (alloc1 := set_constraints attrs alloc) in *.
  set (alloc' := if bool_decide (i = MODE) then (alloc_notify alloc1).1 else alloc1).
  assert (alloc_id alloc' = alloc_id alloc ∧ (∀ j, session_power alloc' j = session_power alloc1 j) ∧ valid_alloc alloc')
    as (Hid' & Hset' & Hval').
  { unfold alloc'. case_bool_decide as Hi; [|by split_and!]. destruct (Hn Hi alloc1) as (H2 & H3 & H4).
    split_and!; [done|done|]. apply H4; [done|]. unfold alloc1. cbn. lia. }
  unfold set_session_power. rewrite Ha. cbn [mbind option_bind]. rewrite E. cbn [mbind option_bind]. fold alloc1 alloc'.
  unfold get_alloc in Ha. destruct (session_heap st !! r) as [s|] eqn:Er; [|done]. cbn in Ha.
  unfold upd_alloc. rewrite Er. cbn [mbind option_bind]. rewrite Ha. cbn [mbind option_bind].
  eexists _, alloc'. split_and!; [done|by eexists| | |done|done| |].
  - unfold get_alloc. cbn. by rewrite lookup_insert_eq.
  - intros r' Hr. unfold get_alloc. cbn. by rewrite lookup_insert_ne.
  - rewrite Hc in Hget. by rewrite Hset'.
  - intros j Hj. rewrite Hset'. apply Hother. intros Hk. by apply Hj, item_key_inj.
Qed.

(** The message to the resource manager of a running session. *)
Definition told (name : cstring) (alloc : orcm_alloc_t) (l : list rml_msg_t) : Prop :=
  if bool_decide (name = lit "running")
  then ∃ rmbuf, l = [mk_msg my_scheduler ORCM_RML_TAG_RM rmbuf] ∧ ScdRun.reads rmbuf ORCM_SET_POWER_COMMAND alloc
  else l = [].

Lemma tell_rm_ok name r st alloc : get_alloc st r = Some alloc → valid_alloc alloc →
  ∃ l, told name alloc l ∧
    (if bool_decide (name = lit "running") then tell_rm my_scheduler r OPAL_SUCCESS st else Some (st, OPAL_SUCCESS)) =
    Some (set_sent (sent st ++ l) st, OPAL_SUCCESS).
Proof.
  intros Ha Hv. unfold told. case_bool_decide as Hn.
  - destruct (ScdRun.pack_command_spec ORCM_SET_POWER_COMMAND alloc) as (buf & E & Hr); [done|done|].
    eexists. split; [by eexists|]. unfold tell_rm. rewrite Ha. cbn [mbind option_bind]. rewrite E. cbn [mbind option_bind].
    by rewrite Hsent.
  - exists []. split; [done|]. rewrite app_nil_r. by destruct st.
Qed.

Lemma told_tags name alloc l : told name alloc l → Forall (λ m, msg_tag m ≠ ORCM_RML_TAG_SCD) l.
Proof.
  unfold told. case_bool_decide; [|by intros ->]. intros (rmbuf & -> & _). by apply Forall_singleton.
Qed.

Lemma id_received id : in_u 32 id →
  ∃ x, packs false (opal_dss_pack t_int64 [id]) x ∧ unpacks false (unpack1 t_int64) x id.
Proof.
  intros Hid. destruct (meets_value t_int64 (in_s 64) false id) as (x & P & U); [apply _| |by exists x].
  unfold in_s, in_u in *. lia.
Qed.

(** The part of a session's setting that follows the identifier: the value sent becomes
    the session's, its other settings and the other sessions stay, and the resource manager
    of a running session gets the command with the new allocation before the tool its
    answer. *)
Theorem set_session_item_spec i v w id name r alloc z b : fits i v → session_at w.2 id i name r alloc →
  (i = MODE → keeps_settings) → unpacks false (unpack_param i) z v → carrying b z →
  ∃ w' alloc' l ans, set_session_item my_scheduler me (Some i) id b w = Some w' ∧
    w'.1 = w.1 ∧ queues w'.2 = queues w.2 ∧ get_alloc w'.2 r = Some alloc' ∧
    (∀ r', r' ≠ r → get_alloc w'.2 r' = get_alloc w.2 r') ∧ alloc_id alloc' = alloc_id alloc ∧
    (∀ j, session_power alloc' j = if bool_decide (j = i) then Some (true, Some v) else session_power alloc j) ∧
    told name alloc' l ∧ sent w'.2 = sent w.2 ++ l ++ [mk_msg me ORCM_RML_TAG_SCD ans].
Proof.
  intros Hf Hat Hn Uz Hb. destruct (meets_int false OPAL_SUCCESS) as (y & Py & Uy); [done|].
  destruct (set_session_power_ok i v r w.2 _ name alloc Hf Hat Hn)
    as (st1 & alloc' & Eset & [h Hh] & Ha' & Hoth & Hi' & Hv' & Hgi & Hgj).
  destruct (tell_rm_ok name r st1 alloc' Ha' Hv') as (l & Hl & Etell).
  unfold set_session_item. rewrite (sa_found _ _ _ _ _ _ Hat). cbn [mbind option_bind].
  destruct (received_one (unpack_param i) z [] v b Uz) as (b3 & E3 & _); [by rewrite app_nil_r|].
  rewrite E3, Eset. cbn [mbind option_bind]. rewrite Etell. cbn [mbind option_bind].
  destruct (replied (opal_dss_pack t_int [OPAL_SUCCESS]) y (set_sent (sent st1 ++ l) st1) Py) as (ans & Hans & Er).
  unfold confirm. cbn [fst snd]. rewrite Er. cbn [mbind option_bind].
  eexists _, alloc', l, ans. subst st1. cbn [fst snd]. split_and!; try done.
  - intros j. destruct (bool_decide_reflect (j = i)) as [->|]; [done|by apply Hgj].
  - cbn. by rewrite <-app_assoc.
Qed.


(** A message about one session has no defined effect in the scheduler: the identifier is
    packed as 8 bytes and unpacked into a variable of 4.  [octl session set] and [octl
    session get] reach it with every identifier and value the tool accepts. *)
Theorem session_power_undefined i a0 a1 a2 sid s v w : in_u 32 (strtol sid).1 →
  parse_setting i s = Some (inr v) → (∀ f, v = D_fval f → valid_float f) →
  orcm_octl_session_set deliver (set_command i) [a0; a1; a2; sid; s] w = None ∧
  orcm_octl_session_get deliver (get_command i) [a0; a1; a2; sid] w = None.
Proof.
  intros Hid Hp Hfl. pose proof (parse_fits i s v Hp Hfl) as Hf. destruct (id_received _ Hid) as (t & Pt & Ut). split.
  - destruct (head_received ORCM_SET_POWER_COMMAND (set_command i) true) as (x & Px & Rx); [by left|].
    destruct (meets_param false i v Hf) as (z & Pz & Uz).
    destruct (packed (_ ← pack_head ORCM_SET_POWER_COMMAND (set_command i) true;
      _ ← opal_dss_pack t_int64 [(strtol sid).1]; pack_setting (set_command i) s) (x ++ t ++ z)) as (b & Eb & Hb).
    { apply packs_bind; [done|]. apply packs_bind; [done|]. unfold pack_setting. by rewrite case_set, Hp. }
    unfold orcm_octl_session_set. cbn -[ask pack_head]. unfold ask. cbn [arg lookup list_lookup]. rewrite Eb.
    unfold deliver. destruct (Rx (t ++ z) b w Hb) as (b' & Hb' & ->). commands.
    rewrite byte_set, case_set. cbn [set_power_item negb].
    destruct (received_one (unpack1 t_int64) t z _ b' Ut Hb') as (b2 & E2 & _). by rewrite E2.
  - destruct (head_received ORCM_GET_POWER_COMMAND (get_command i) true) as (x & Px & Rx); [by right|].
    destruct (packed (_ ← pack_head ORCM_GET_POWER_COMMAND (get_command i) true;
      opal_dss_pack t_int64 [(strtol sid).1]) (x ++ t)) as (b & Eb & Hb); [by apply packs_bind|].
    unfold orcm_octl_session_get. cbn -[ask pack_head]. unfold ask. cbn [arg lookup list_lookup]. rewrite Eb.
    unfold deliver. destruct (Rx t b w Hb) as (b' & Hb' & ->). commands.
    rewrite byte_get, case_get. cbn [get_power_item negb].
    destruct (received_one (unpack1 t_int64) t [] _ b' Ut) as (b2 & E2 & _); [by rewrite app_nil_r|]. by rewrite E2.
Qed.

End exchange.
End OctlSpec.
