(* ===== verification/OctlLists.v ===== *)
(** * Listings: queues and nodes as the tools show them

    [octl queue status] shows the queues of the scheduler and their sessions, [octl resource
    status] the nodes, grouped by their states with the names of a group compressed. *)

From Stdlib Require Import ZArith Lia Ascii.
From stdpp Require Import prelude numbers strings gmap list.
From S2P Require Import Prelude PointerArray CString Argv Regex Dss Names Fields Attr CfgiDt CfgiSpec Alloc Scd ScdFifo ScdLemmas RmRecv ScdRecv ScdPower Octl OctlSpec.

Local Open Scope Z_scope.

Module OctlLists.
Import Argv Dss Names Fields Attr Alloc Scd ScdFifo RmRecv ScdRecv ScdPower Octl OctlSpec.

(** Several values of one type in one message. *)
Lemma meets_some {A} (T : opal_dss_type_info_t A) d vals vals' : carries T d vals vals' →
  0 < Z.of_nat (length vals) ≤ INT_MAX →
  meets d (opal_dss_pack T vals) (unpack_some T (Z.of_nat (length vals))) vals'.
Proof.
  intros HT Hl. destruct (packs_dss T d vals vals' HT Hl) as (bs & Hp & Hu).
  exists bs. split; [done|]. intros b rest Hd Hr. unfold unpack_some. by rewrite (Hu _ b rest).
Qed.

(** ** Groups of nodes *)

Definition states_of (n : CfgiDt.orcm_node_t) : Z * Z := (CfgiDt.scd_state n, CfgiDt.state n).
Definition template (c : orcm_resource_container_t) : Z * Z := (template_scd_state c, template_state c).

Lemma same_template_spec n c : same_template n c = bool_decide (template c = states_of n).
Proof.
  unfold same_template, template, states_of. destruct (Z.eqb_spec (template_scd_state c) (CfgiDt.scd_state n)),
    (Z.eqb_spec (template_state c) (CfgiDt.state n)); simpl; case_bool_decide; congruence.
Qed.

Definition names_with (k : Z * Z) (nodes : list CfgiDt.orcm_node_t) : list cstring :=
  omap CfgiDt.node_name (filter (λ n, states_of n = k) nodes).

(** The containers hold the nodes, each in the one with its states. *)
Record grouped (cs : list orcm_resource_container_t) (nodes : list CfgiDt.orcm_node_t) : Prop := {
  gr_distinct : NoDup (template <$> cs);
  gr_holds : Forall (λ c, resources c = names_with (template c) nodes) cs;
  gr_all k : k ∈ template <$> cs ↔ k ∈ states_of <$> nodes;
}.

Lemma names_with_app k nodes n name : CfgiDt.node_name n = Some name →
  names_with k (nodes ++ [n]) = names_with k nodes ++ (if bool_decide (states_of n = k) then [name] else []).
Proof.
  intros Hn. unfold names_with. rewrite filter_app, omap_app. f_equal. case_bool_decide.
  - rewrite filter_cons_True by done. cbn. by rewrite Hn.
  - by rewrite filter_cons_False.
Qed.

Lemma containerize_grouped cs nodes n : grouped cs nodes → is_Some (CfgiDt.node_name n) →
  ∃ cs', containerize cs n = Some cs' ∧ grouped cs' (nodes ++ [n]).
Proof.
  intros [Hd Hh Ha] [name Hn]. unfold containerize. rewrite Hn. cbn [mbind option_bind].
  set (f := λ c, if same_template n c then _ else c).
  assert (template <$> (f <$> cs) = template <$> cs) as Et.
  { rewrite <-list_fmap_compose. apply list_fmap_ext. intros _ c _. unfold compose, f. by case_match. }
  assert (Forall (λ c, resources c = names_with (template c) (nodes ++ [n])) (f <$> cs)) as Hf.
  { apply Forall_fmap. eapply Forall_impl; [exact Hh|]. intros c Hc. unfold compose, f.
    rewrite same_template_spec. rewrite (names_with_app _ _ _ _ Hn). repeat case_bool_decide; cbn [resources template].
    - by rewrite Hc.
    - unfold template in *. cbn in *. congruence.
    - congruence.
    - by rewrite app_nil_r. }
  eexists. split; [reflexivity|]. destruct (existsb _ cs) eqn:Ex.
  - apply existsb_exists in Ex as (c & Hc%list_elem_of_In & Hs). rewrite same_template_spec in Hs.
    apply bool_decide_eq_true in Hs. split; [by rewrite Et|done|]. intros k. rewrite Et, Ha, fmap_app.
    split; [set_solver|]. intros [?|Hk]%elem_of_app; [done|]. apply list_elem_of_singleton in Hk as ->.
    apply Ha. rewrite <-Hs. by apply list_elem_of_fmap_2.
  - assert (states_of n ∉ template <$> cs) as Hnew.
    { intros (c & Hk & Hc)%list_elem_of_fmap. apply not_true_iff_false in Ex. apply Ex, existsb_exists.
      exists c. split; [by apply list_elem_of_In|]. rewrite same_template_spec. by apply bool_decide_eq_true. }
    assert (names_with (states_of n) nodes = []) as Enone.
    { unfold names_with. rewrite Ha in Hnew. clear -Hnew. induction nodes as [|m l IH]; [done|].
      cbn in Hnew. apply not_elem_of_cons in Hnew as [? ?]. rewrite filter_cons_False by congruence. by apply IH. }
    split.
    + rewrite fmap_app, Et. apply NoDup_app. split_and!; [done| |apply NoDup_singleton]. intros k Hk Hk'. apply list_elem_of_singleton in Hk' as ->. by apply Hnew.
    + apply Forall_app. split; [done|]. apply Forall_singleton. cbn [resources].
      rewrite (names_with_app _ _ _ _ Hn). change (template _) with (states_of n).
      rewrite Enone, bool_decide_true by done. done.
    + intros k. rewrite !fmap_app, Et. rewrite !elem_of_app, Ha. done.
Qed.

Lemma containerize_all_grouped rest : ∀ cs nodes, grouped cs nodes →
  Forall (λ n, is_Some (CfgiDt.node_name n)) rest →
  ∃ cs', containerize_all cs rest = Some cs' ∧ grouped cs' (nodes ++ rest).
Proof.
  induction rest as [|n rest IH]; intros cs nodes Hg Hn; cbn [containerize_all].
  - exists cs. by rewrite app_nil_r.
  - apply Forall_cons in Hn as [Hn Hr]. destruct (containerize_grouped cs nodes n Hg Hn) as (cs1 & -> & H1).
    cbn [mbind option_bind]. destruct (IH cs1 _ H1 Hr) as (cs' & E & H'). exists cs'. split; [done|].
    by rewrite <-app_assoc in H'.
Qed.

(** A line stands for the nodes with its states: its expression expands to their names. *)
Definition line_shows (nodes : list CfgiDt.orcm_node_t) (line : cstring * Z * Z) : Prop :=
  let '(regexp, state, scd_state) := line in
  ∃ names, Regex.orte_regex_extract_node_names (Some regexp) = Some (OPAL_SUCCESS, names) ∧
    names ≡ₚ names_with (scd_state, state) nodes.

Definition line_states (line : cstring * Z * Z) : Z * Z := (line.2, line.1.2).

Lemma list_nodes_spec nodes :
  Forall (λ n, ∃ name, CfgiDt.node_name n = Some name ∧ Regex.good_name name ∧ Regex.short name) nodes →
  ∃ lines, list_nodes nodes = Some lines ∧ Forall (line_shows nodes) lines ∧
    NoDup (line_states <$> lines) ∧ ∀ k, k ∈ line_states <$> lines ↔ k ∈ states_of <$> nodes.
Proof.
  intros Hn. destruct (containerize_all_grouped nodes [] []) as (cs & E & [Hd Hh Ha]).
  { split; [constructor|constructor|done]. }
  { eapply Forall_impl; [exact Hn|]. intros n (name & -> & _). by eexists. }
  cbn [app] in *. unfold list_nodes. rewrite E. cbn [mbind option_bind].
  assert (∀ c, c ∈ cs → ∃ line, list_container c = Some line ∧ line_shows nodes line ∧ line_states line = template c) as Hc.
  { intros c Hin. pose proof (proj1 (Forall_forall _ _) Hh c Hin) as Hr. cbn in Hr.
    destruct (Regex.create_extract (resources c)) as (r & names & Er & Ex & Hp).
    - intros H0. assert (template c ∈ states_of <$> nodes) as (n & Hk & Hin')%list_elem_of_fmap
        by (apply Ha; by apply list_elem_of_fmap_2).
      rewrite Hr in H0. unfold names_with in H0. pose proof (proj1 (Forall_forall _ _) Hn n Hin') as (name & Hname & _).
      assert (name ∈ omap CfgiDt.node_name (filter (λ n, states_of n = template c) nodes)) as Hx.
      { apply list_elem_of_omap. exists n. split; [|done]. by apply list_elem_of_filter. }
      rewrite H0 in Hx. by apply elem_of_nil in Hx.
    - rewrite Hr. unfold names_with. apply Forall_forall. intros name (n & Hin' & Hname)%list_elem_of_omap.
      apply list_elem_of_filter in Hin' as [_ Hin']. pose proof (proj1 (Forall_forall _ _) Hn n Hin') as (name' & ? & ? & ?).
      congruence.
    - rewrite Hr. unfold names_with. apply Forall_forall. intros name (n & Hin' & Hname)%list_elem_of_omap.
      apply list_elem_of_filter in Hin' as [_ Hin']. pose proof (proj1 (Forall_forall _ _) Hn n Hin') as (name' & ? & ? & ?).
      congruence.
    - exists (r, template_state c, template_scd_state c). split_and!; [|exists names; split; [done|by rewrite Hp, Hr]|done].
      unfold list_container. rewrite join_eq. cbn. rewrite Er. done. }
  assert (∃ lines, mapM list_container cs = Some lines ∧ Forall (line_shows nodes) lines ∧
    line_states <$> lines = template <$> cs) as (lines & Em & Hs & Et).
  { clear -Hc. induction cs as [|c cs IH]; [by exists []|]. destruct (Hc c) as (line & E & Hs & Et); [by left|].
    destruct IH as (lines & Em & Hss & Ets); [intros; apply Hc; by right|]. exists (line :: lines). cbn [mapM]. rewrite E. cbn [mbind option_bind].
    rewrite Em. split_and!; [done|by constructor|cbn; by rewrite Et, Ets]. }
  exists lines. rewrite Et. done.
Qed.

Section exchange.
Context `{FloatText} `{Rml} `{PwrMgmt}.
Context (node_config : nat → CfgiDt.orcm_config_t) (my_scheduler : opal_process_name_t) (uid : Z).
Context (me : opal_process_name_t).
Context (Hsent : ∀ l m, rml_send_rc l m = OPAL_SUCCESS).

Abbreviation exch := (deliver node_config my_scheduler uid me).

(** A request that is only a command, answered with what [m] packs. *)
Lemma ask_listing {A} command (read : M A) m y a w : in_u 8 command →
  packs false m y → unpacks false read y a →
  (∀ b b', unpack1 t_uint8 b = Some (b', inr command) →
     orcm_scd_base_recv node_config my_scheduler uid me b w = answer me m w) →
  ∃ w', ask exch ORCM_RML_TAG_SCD (opal_dss_pack t_uint8 [command]) read w = Some (w', inr a) ∧
    w'.1 = w.1 ∧ only_sent w.2 w'.2.
Proof.
  intros Hc Hm Hr Hrecv. destruct (meets_value t_uint8 (in_u 8) false command) as (x & Px & Ux); [apply _|done|].
  apply (ask_scd node_config my_scheduler uid me _ _ x y a w (λ w', w'.1 = w.1 ∧ only_sent w.2 w'.2)); [done|done|].
  intros b Hb. destruct (take_one (unpack1 t_uint8) x [] command b Ux) as (b2 & E2 & _); [by rewrite app_nil_r|].
  rewrite (Hrecv b b2 E2). destruct (replied me Hsent m y w.2 Hm) as (ans & Ha & Er). unfold answer. rewrite Er.
  eexists _, ans. cbn [mbind option_bind fst snd]. split_and!; [done|done|done|by eexists|]. by exists [].
Qed.

(** ** Queues *)

(** A queue as it is shown. *)
Definition shown (st : orcm_scd_base_t) (q : orcm_queue_t) : option cstring * Z * list orcm_alloc_t :=
  (Some (queue_name q), Z.of_nat (length (queue_sessions q)),
   received_alloc <$> omap (get_alloc st) (queue_sessions q)).

Definition listable (st : orcm_scd_base_t) (q : orcm_queue_t) : Prop :=
  valid_string (Some (queue_name q)) ∧ Z.of_nat (length (queue_sessions q)) ≤ INT_MAX ∧
  Forall (λ r, ∃ a, get_alloc st r = Some a ∧ valid_alloc a) (queue_sessions q).

Lemma mapM_allocs st l : Forall (λ r, ∃ a, get_alloc st r = Some a ∧ valid_alloc a) l →
  mapM (get_alloc st) l = Some (omap (get_alloc st) l) ∧ length (omap (get_alloc st) l) = length l ∧
  Forall valid_alloc (omap (get_alloc st) l).
Proof.
  induction 1 as [|r l (a & Ea & Hv) _ (IH1 & IH2 & IH3)]; [done|]. cbn [mapM omap list_omap]. rewrite Ea.
  cbn [mbind option_bind]. rewrite IH1. split_and!; [done|cbn; by f_equal|by constructor].
Qed.

Lemma meets_queue d st q : listable st q → meets d (pack_queue st q) read_queue (shown st q).
Proof.
  intros (Hn & Hl & Ha). destruct (mapM_allocs st _ Ha) as (Em & El & Hv). unfold pack_queue, read_queue, shown.
  rewrite Em, to_int_small by lia.
  eapply meets_bind; [by apply (meets_value t_string valid_string); [apply _|]|].
  eapply meets_bind; [apply meets_int; unfold in_s, INT_MAX in *; simpl; lia|]. cbn beta.
  apply (meets_map d _ _ (λ allocs, (Some (queue_name q), Z.of_nat (length (queue_sessions q)), allocs))).
  destruct (Z.ltb_spec 0 (Z.of_nat (length (queue_sessions q)))).
  - rewrite <-El. apply meets_some; [|lia]. apply (carries_each _ _ _ received_alloc).
    eapply Forall_impl; [exact Hv|]. intros a. apply meets_alloc.
  - destruct (queue_sessions q); [apply (meets_ret d [])|simpl in *; lia].
Qed.

(** [octl queue status] shows every queue of the scheduler in their order, with its
    name, the number of its sessions and their requests in the order they wait, and changes
    nothing in the scheduler. *)
Theorem queue_status_spec w :
  Forall (listable w.2) (queues w.2) → Z.of_nat (length (queues w.2)) ≤ INT_MAX →
  ∃ w', orcm_octl_queue_status exch w = Some (w', inr (shown w.2 <$> queues w.2)) ∧
    w'.1 = w.1 ∧ only_sent w.2 w'.2.
Proof.
  intros Hq Hl.
  destruct (meets_int false (Z.of_nat (length (queues w.2)))) as (y & Py & Uy); [unfold in_s, INT_MAX in *; simpl; lia|].
  destruct (meets_each false (pack_queue w.2) read_queue (shown w.2) (queues w.2)) as (z & Pz & Uz).
  { eapply Forall_impl; [exact Hq|]. intros q. apply meets_queue. }
  eapply (ask_listing ORCM_SESSION_INFO_COMMAND _ _ (y ++ z)); [done| | |].
  - exact (packs_bind _ _ _ _ _ Py Pz).
  - eapply unpacks_bind; [exact Uy|exact Uz].
  - intros b b' E. unfold orcm_scd_base_recv, received. rewrite E. commands. unfold session_info, answer.
    by rewrite to_int_small by lia.
Qed.

(** ** Nodes *)

Lemma low_items {A} (t : PA.opal_pointer_array_t A) : PA.wf t →
  ∃ refs, items_from t 0 (Z.to_nat (PA.lowest_free t)) = Some refs ∧
    Z.of_nat (length refs) = PA.lowest_free t ∧ take (length refs) (PA.elems t) = Some <$> refs.
Proof.
  intros Hwf. pose proof (PA.wf_low_nonneg _ Hwf) as Hnn. destruct (PA.wf_low _ Hwf) as [Hlow _].
  pose proof (PA.wf_size _ Hwf) as Hs.
  pose proof (PA.first_null_le _ _ (PA.wf_low _ Hwf)) as Hle. set (k := Z.to_nat (PA.lowest_free t)) in *.
  assert (∀ n i, (i + n = k)%nat → ∃ refs, items_from t i n = Some refs ∧ length refs = n ∧
    take n (drop i (PA.elems t)) = Some <$> refs) as HH.
  { induction n as [|n IH]; intros i Hi; cbn [items_from]; [by exists []|].
    rewrite PA.get_item_slot by (done || lia). unfold PA.slot. rewrite Nat2Z.id.
    destruct (Hlow i) as [p Hp]; [lia|]. rewrite Hp. cbn [default mbind option_bind].
    destruct (IH (S i)) as (refs & -> & El & Et); [lia|]. exists (p :: refs). cbn [mbind option_bind]. split_and!; [done|by cbn; rewrite El|].
    rewrite (drop_S _ _ _ Hp). cbn. by rewrite Et. }
  destruct (HH k 0%nat eq_refl) as (refs & E & El & Et). exists refs. split_and!; [done|lia|]. by rewrite El.
Qed.

(** The objects of the nodes below the first free slot. *)
Definition objects (st : orcm_scd_base_t) (objs : list CfgiDt.orcm_node_t) : Prop :=
  ∃ refs, take (length objs) (PA.elems (nodes st)) = Some <$> refs ∧
    Forall2 (λ r o, node_object node_config st r = Some o) refs objs ∧
    Z.of_nat (length objs) = PA.lowest_free (nodes st).

Lemma mapM_objects st refs objs : Forall2 (λ r o, node_object node_config st r = Some o) refs objs →
  mapM (node_object node_config st) refs = Some objs.
Proof. induction 1 as [|r o refs objs Ho _ IH]; [done|]. cbn [mapM]. rewrite Ho. cbn [mbind option_bind]. by rewrite IH. Qed.

(** What travels is what the listing is made of. *)
Lemma list_nodes_received nodes : list_nodes (CfgiSpec.received_node <$> nodes) = list_nodes nodes.
Proof.
  unfold list_nodes. f_equal. generalize (@nil orcm_resource_container_t).
  induction nodes as [|n nodes IH]; intros cs; [done|]. cbn [fmap list_fmap containerize_all].
  replace (containerize cs (CfgiSpec.received_node n)) with (containerize cs n) by done.
  destruct (containerize cs n); [|done]. apply IH.
Qed.

(** C35. [octl resource status] shows every node below the first free slot of the
    scheduler's table, when each of them has a name that the compression of names keeps (a
    plain name, or one with a single number): one line for each combination of states that
    occurs, whose node expression expands to exactly the names of the nodes in these
    states. *)
Theorem resource_status_spec w objs :
  PA.wf (nodes w.2) → objects w.2 objs → objs ≠ [] → Forall CfgiSpec.valid_node objs →
  Forall (λ n, ∃ name, CfgiDt.node_name n = Some name ∧ Regex.good_name name ∧ Regex.short name) objs →
  ∃ w' lines, orcm_octl_resource_status exch w = Some (w', inr (Z.of_nat (length objs), lines)) ∧
    Forall (line_shows objs) lines ∧ NoDup (line_states <$> lines) ∧
    (∀ k, k ∈ line_states <$> lines ↔ k ∈ states_of <$> objs) ∧ w'.1 = w.1 ∧ only_sent w.2 w'.2.
Proof.
  intros Hwf (refs & Et & Ho & Elow) Hne Hv Hn. destruct (low_items _ Hwf) as (refs' & Ei & El & Et').
  assert (length objs = length refs') as Elen by lia. rewrite Elen, Et' in Et. apply list_fmap_eq_inj in Et as ->; [|by intros ?? [=]].
  destruct (list_nodes_spec objs Hn) as (lines & El' & Hs & Hd & Hk).
  assert (0 < Z.of_nat (length objs) ≤ INT_MAX) as Hlen.
  { pose proof (PA.wf_size _ Hwf). pose proof (PA.wf_max _ Hwf). pose proof (PA.first_null_le _ _ (PA.wf_low _ Hwf)).
    destruct objs; [done|]. simpl in *. lia. }
  destruct (meets_int false (Z.of_nat (length objs))) as (y & Py & Uy); [unfold in_s, INT_MAX in *; simpl; lia|].
  destruct (meets_some CfgiDt.t_node false objs (CfgiSpec.received_node <$> objs)) as (z & Pz & Uz); [|done|].
  { apply (carries_each _ _ _ CfgiSpec.received_node). eapply Forall_impl; [exact Hv|]. intros n. apply CfgiSpec.meets_node. }
  assert (∃ w', orcm_octl_resource_status exch w = Some (w', inr (Z.of_nat (length objs), lines)) ∧
    w'.1 = w.1 ∧ only_sent w.2 w'.2) as (w' & E & P & S); [|exists w', lines; by split_and!].
  eapply (ask_listing ORCM_NODE_INFO_COMMAND _ _ (y ++ z)); [done| | |].
  - exact (packs_bind _ _ _ _ _ Py Pz).
  - eapply unpacks_bind; [exact Uy|]. cbn beta. destruct (Z.ltb_spec 0 (Z.of_nat (length objs))); [|lia].
    rewrite <-(app_nil_r z). eapply unpacks_bind; [exact Uz|]. cbn beta. rewrite list_nodes_received, El'. apply unpacks_ret.
  - intros b b' E. unfold orcm_scd_base_recv, received. rewrite E. commands. unfold node_info, answer.
    rewrite Ei. cbn [mbind option_bind]. rewrite (mapM_objects _ _ _ Ho). cbn [mbind option_bind]. rewrite <-Elow.
    destruct (Z.ltb_spec 0 (Z.of_nat (length objs))); [done|lia].
Qed.

End exchange.
End OctlLists.
