(* ===== verification/Pwrmgmt.v ===== *)
(** * Power management (orcm/mca/pwrmgmt: base and manualfreq)

    The base of the framework: the order of the modules, the choice of the module for an
    allocation, the message by which a setting reaches the daemons of a session; and of
    the manual frequency module what it does in the scheduler.  A module is given by its
    functions, NULL or not; calls with an effect on the hardware are recorded. *)

From Stdlib Require Import ZArith Lia Ascii.
From stdpp Require Import prelude numbers strings gmap list.
From S2P Require Import Prelude ModuleSort PointerArray CString Argv Dss Names Attr CfgiDt CfgiBase Alloc Scd ScdFifo RmRecv ScdRecv ScdPower Octl.

Local Open Scope Z_scope.

Module Pwrmgmt.
Import ModuleSort Dss Names Attr Alloc Scd ScdFifo RmRecv ScdRecv ScdPower Octl.

(** ** Modules *)

(** [orcm_pwrmgmt_active_module_t]: the functions that the base calls with an allocation. *)
Record active_module_t := mk_module {
  priority : Z;
  init_fn : option Z;
  component_select_fn : option (Z → list orte_attribute_t → Z);
  alloc_notify_fn : option (orcm_alloc_t → orcm_alloc_t);
  dealloc_notify_fn : bool;
  set_attributes_fn : bool;
}.

(** A module whose initialization fails leaves a NULL. *)
Definition initialized (m : active_module_t) : option active_module_t :=
  match init_fn m with
  | Some rc => if rc =? ORCM_SUCCESS then Some m else None
  | None => Some m
  end.

(** The modules that the components return, sorted and initialized; [tmp] is the temporary
    array. *)
Definition orcm_pwrmgmt_base_select (tmp : list (option active_module_t)) : option (list (option active_module_t)) :=
  match sort_loop priority (S (2 * length tmp)) 0 tmp [] with
  | Some modules => Some (initialized <$> modules)
  | None => None
  end.

(** ** The module for an allocation (pwrmgmt_base_stubs.c) *)

Inductive hw_call :=
  | C_dealloc (i : nat) (alloc : orcm_alloc_t)
  | C_set_attributes (i : nat) (alloc : orcm_alloc_t)
  | C_notify (i : nat) (alloc : orcm_alloc_t).

(** [selected_module], the functions [orcm_pwrmgmt] points to (the stubs, or those of a
    module), and the calls made so far. *)
Record pwr_t := mk_pwr { selected_module : option nat; table : option nat; calls : list hw_call }.

Definition ORCM_PWRMGMT_MODE_NONE : Z := 0.
Definition ORCM_PWRMGMT_MODE_MANUAL_FREQ : Z := 1.

(** The loop over the modules: the first of the highest positive priority that accepts. *)
Fixpoint choose (l : list (option active_module_t)) (i : nat) (alloc : orcm_alloc_t) (max_priority : Z)
    (current : option nat) : option nat :=
  match l with
  | [] => current
  | None :: rest => choose rest (S i) alloc max_priority current
  | Some m :: rest =>
      let accepts := match component_select_fn m with
                     | Some f => f (uwrap 32 (alloc_id alloc)) (constraints alloc) =? OPAL_SUCCESS
                     | None => false
                     end in
      if accepts && (max_priority <? priority m) then choose rest (S i) alloc (priority m) (Some i)
      else choose rest (S i) alloc max_priority current
  end.

Definition call (c : hw_call) (s : pwr_t) : pwr_t := mk_pwr (selected_module s) (table s) (calls s ++ [c]).

(** [if (NULL != module->dealloc_notify) module->dealloc_notify(alloc);] *)
Definition dealloc (modules : list (option active_module_t)) (i : nat) (alloc : orcm_alloc_t) (s : pwr_t) : option pwr_t :=
  m ← mjoin (modules !! i);
  Some (if dealloc_notify_fn m then call (C_dealloc i alloc) s else s).

(** [selected_module->module->alloc_notify(alloc)], when it is not NULL *)
Definition notify (modules : list (option active_module_t)) (alloc : orcm_alloc_t) (s : pwr_t)
    : option (pwr_t * orcm_alloc_t * Z) :=
  match selected_module s with
  | None => Some (s, alloc, OPAL_ERROR)
  | Some i =>
      m ← mjoin (modules !! i);
      Some (match alloc_notify_fn m with
            | Some f => (call (C_notify i alloc) s, f alloc, ORCM_SUCCESS)
            | None => (s, alloc, ORCM_SUCCESS)
            end)
  end.

Definition orcm_pwrmgmt_base_alloc_notify (is_scheduler : bool) (modules : list (option active_module_t))
    (alloc : orcm_alloc_t) (s : pwr_t) : option (pwr_t * orcm_alloc_t * Z) :=
  '(ok, v) ← orte_get_attribute (constraints alloc) ORCM_PWRMGMT_POWER_MODE_KEY true OPAL_INT32;
  if negb ok then Some (s, alloc, OPAL_ERR_BAD_PARAM) else
  match v with
  | Some (D_num mode) =>
    if mode =? ORCM_PWRMGMT_MODE_NONE then
      match selected_module s with
      | Some i => s ← dealloc modules i alloc s; Some (mk_pwr None None (calls s), alloc, ORCM_SUCCESS)
      | None => Some (s, alloc, ORCM_SUCCESS)
      end
    else
      let current := choose modules 0 alloc 0 None in
      if is_scheduler then notify modules alloc (mk_pwr current (table s) (calls s)) else
      let switch s := notify modules alloc
        (mk_pwr current (match current with Some i => Some i | None => table s end) (calls s)) in
      match selected_module s with
      | Some i =>
          if bool_decide (current = Some i) then
            m ← mjoin (modules !! i);
            (* the boolean of the attribute is returned in place of a code *)
            Some (if set_attributes_fn m then call (C_set_attributes i alloc) s else s, alloc, 1)
          else s ← dealloc modules i alloc s; switch s
      | None => switch s
      end
  | _ => None
  end.

(** The call is not guarded here. *)
Definition orcm_pwrmgmt_base_dealloc_notify (modules : list (option active_module_t)) (alloc : orcm_alloc_t)
    (s : pwr_t) : option pwr_t :=
  match selected_module s with
  | Some i =>
      m ← mjoin (modules !! i);
      if dealloc_notify_fn m then Some (mk_pwr None None (calls s ++ [C_dealloc i alloc])) else None
  | None => Some (mk_pwr None None (calls s))
  end.

(** ** The module for manual frequencies, in the scheduler (pwrmgmt_manualfreq.c) *)

Definition ORCM_PWRMGMT_SELECTED_COMPONENT_KEY : Z := ORCM_PWRMGMT_START_KEY + 10.
Definition component_name : cstring := lit "manual_frequency".

Definition manual_mode (attr : list orte_attribute_t) : bool :=
  match orte_get_attribute attr ORCM_PWRMGMT_POWER_MODE_KEY true OPAL_INT32 with
  | Some (true, Some (D_num mode)) => ORCM_PWRMGMT_MODE_MANUAL_FREQ =? mode
  | _ => false
  end.

Definition manualfreq_component_select (session : Z) (attr : list orte_attribute_t) : Z :=
  if manual_mode attr then ORCM_SUCCESS else OPAL_ERROR.

(** The name of the component is added to the constraints. *)
Definition manualfreq_alloc_notify (alloc : orcm_alloc_t) : orcm_alloc_t :=
  if manual_mode (constraints alloc) then
    match orte_set_attribute (constraints alloc) ORCM_PWRMGMT_SELECTED_COMPONENT_KEY false
            (Some (D_string (Some component_name))) OPAL_STRING with
    | Some (attrs, _) => set_constraints attrs alloc
    | None => alloc
    end
  else alloc.

Definition manualfreq (p : Z) : active_module_t :=
  mk_module p (Some ORCM_SUCCESS) (Some manualfreq_component_select) (Some manualfreq_alloc_notify) true true.

(** ** A new setting at the daemons (pwrmgmt_base_frame.c) *)

Record daemon_t := mk_daemon { dm_pwr : pwr_t; dm_sent : list rml_msg_t }.

Section recv.
Context `{FloatText} `{NodeRegex} `{Rml}.
Context (orcm_clusters : list CfgiDt.orcm_cluster_t) (modules : list (option active_module_t)).
Context (me : opal_process_name_t).

(** The loop over the nodes of the allocation; the boolean says that the function has not
    returned.  [!OPAL_EQUAL == c] compares [c] with 1, which is OPAL_VALUE1_GREATER. *)
Fixpoint forward (nodelist : list cstring) (ans : opal_buffer_t) (l : list rml_msg_t) : list rml_msg_t * bool :=
  match nodelist with
  | [] => (l, true)
  | name :: rest =>
      match CfgiBase.orcm_cfgi_base_get_hostname_proc orcm_clusters name with
      | inl _ => (l, false)
      | inr tgt =>
          if 1 =? orte_util_compare_name_fields ORTE_NS_CMP_ALL (Some tgt) (Some me) then
            let m := mk_msg tgt ORCM_RML_TAG_PWRMGMT_BASE ans in
            if rml_send_rc l m =? OPAL_SUCCESS then forward rest ans (l ++ [m]) else (l, false)
          else forward rest ans l
      end
  end.

(** The head daemon of the session passes the message on. *)
Definition pass_on (command : Z) (alloc : orcm_alloc_t) (d : daemon_t) : option (daemon_t * bool) :=
  if same_proc (hnp alloc) me then
    buf ← pack_command command alloc;
    match buf with
    | inl _ => Some (d, false)
    | inr ans =>
        '(_, nodelist) ← regex_extract (alloc_nodes alloc);
        match nodelist with
        | [] => Some (d, false)
        | _ => let (l, go) := forward nodelist ans (dm_sent d) in Some (mk_daemon (dm_pwr d) l, go)
        end
    end
  else Some (d, true).

Definition orcm_pwrmgmt_base_recv (buffer : opal_buffer_t) (d : daemon_t) : option daemon_t :=
  match unpack1 t_uint8 buffer with
  | None => None
  | Some (_, inl _) => Some d
  | Some (buffer, inr command) =>
      if command =? ORCM_SET_POWER_COMMAND then
        match unpack1 t_alloc buffer with
        | None => None
        | Some (_, inl _) => Some d
        | Some (_, inr alloc) =>
            '(d, go) ← pass_on command alloc d;
            if go : bool then
              '(p, _, _) ← orcm_pwrmgmt_base_alloc_notify false modules alloc (dm_pwr d);
              Some (mk_daemon p (dm_sent d))
            else Some d
        end
      else Some d
  end.

End recv.
End Pwrmgmt.
