(* ===== verification/PwrSpec.v ===== *)
(** * What power management chooses, and whom a setting reaches

    The modules are sorted by priority; an allocation gets the accepting module of the
    highest priority; the head daemon of a session passes a setting on to some of the
    others.  The scheduler's use of power management keeps the settings of a session. *)

From Stdlib Require Import ZArith Lia Ascii.
From stdpp Require Import prelude numbers strings gmap list sorting.
From S2P Require Import Prelude ModuleSort PointerArray CString Argv Dss Names Attr CfgiDt CfgiBase Alloc Scd ScdFifo ScdRun RmRecv ScdRecv ScdPower Octl OctlSpec Pwrmgmt.

Local Open Scope Z_scope.

Module PwrSpec.
Import ModuleSort Dss Names Attr Alloc Scd ScdFifo RmRecv ScdRecv ScdPower Octl OctlSpec Pwrmgmt.

(** ** Sorting *)

(** The modules of power management are taken over by falling priority: the sort ends
    within twice as many rounds as the array has slots, loses and invents no module, and
    keeps the order of modules with the same priority. *)
Theorem select_sorts tmp :
  ∃ res, sort_loop priority (S (2 * length tmp)) 0 tmp [] = Some res ∧ sorted_of priority (present tmp) res ∧
    orcm_pwrmgmt_base_select tmp = Some (initialized <$> res).
Proof.
  destruct (sort_total priority tmp) as (res & E & Hs).
  exists res. split_and!; [done|done|]. unfold orcm_pwrmgmt_base_select. by rewrite E.
Qed.

(** ** The choice of a module *)

Definition accepts (m : active_module_t) (alloc : orcm_alloc_t) : bool :=
  match component_select_fn m with
  | Some f => f (uwrap 32 (alloc_id alloc)) (constraints alloc) =? OPAL_SUCCESS
  | None => false
  end.

(** The module [c] is the one for [alloc]: it accepts, with the highest positive priority,
    and is the first such; [None] when no module of positive priority accepts. *)
Definition is_best (modules : list (option active_module_t)) (alloc : orcm_alloc_t) (c : option nat) : Prop :=
  match c with
  | Some k => ∃ m, modules !! k = Some (Some m) ∧ accepts m alloc = true ∧ 0 < priority m ∧
      ∀ k' m', modules !! k' = Some (Some m') → accepts m' alloc = true →
        priority m' ≤ priority m ∧ (priority m' = priority m → (k ≤ k')%nat)
  | None => ∀ k m, modules !! k = Some (Some m) → accepts m alloc = true → priority m ≤ 0
  end.

(** The loop with [p] the priority reached by [cur]. *)
Lemma choose_spec alloc l : ∀ i p cur,
  (choose l i alloc p cur = cur ∧ ∀ k m, l !! k = Some (Some m) → accepts m alloc = true → priority m ≤ p) ∨
  ∃ k m, choose l i alloc p cur = Some (i + k)%nat ∧ l !! k = Some (Some m) ∧ accepts m alloc = true ∧ p < priority m ∧
    ∀ k' m', l !! k' = Some (Some m') → accepts m' alloc = true →
      priority m' ≤ priority m ∧ (priority m' = priority m → (k ≤ k')%nat).
Proof.
  induction l as [|x l IH]; intros i p cur; cbn [choose]; [left; by split; [|intros k m; rewrite lookup_nil]|].
  assert (∀ q c, (∀ m, x = Some m → accepts m alloc = true → priority m ≤ q) →
    (choose l (S i) alloc q c = c ∧ ∀ k m, (x :: l) !! k = Some (Some m) → accepts m alloc = true → priority m ≤ q) ∨
    ∃ k m, choose l (S i) alloc q c = Some (i + k)%nat ∧ (x :: l) !! k = Some (Some m) ∧ accepts m alloc = true ∧
      q < priority m ∧ ∀ k' m', (x :: l) !! k' = Some (Some m') → accepts m' alloc = true →
        priority m' ≤ priority m ∧ (priority m' = priority m → (k ≤ k')%nat)) as Hskip.
  { intros q c Hx. destruct (IH (S i) q c) as [[E Hall]|(k & m & E & El & Ha & Hp & Hall)].
    - left. split; [done|]. intros [|k] m Hk Ha; [apply Hx; [by injection Hk|done]|by apply (Hall k)].
    - right. exists (S k), m. split_and!; [rewrite E; f_equal; lia|done|done|done|].
      intros [|k'] m' Hk Ha'; [injection Hk as ->; specialize (Hx m' eq_refl Ha'); lia|].
      destruct (Hall k' m' Hk Ha'). split; [done|]. lia. }
  destruct x as [m|]; [|by apply Hskip]. fold (accepts m alloc).
  destruct (accepts m alloc) eqn:Ha; cbn [andb]; [|apply Hskip; intros m' [= <-]; congruence].
  destruct (Z.ltb_spec p (priority m)) as [Hp|Hp]; [|apply Hskip; by intros m' [= <-] _].
  right. destruct (Hskip (priority m) (Some i)) as [[E Hall]|(k & m' & E & El & Ha' & Hp' & Hall)]; [by intros m' [= <-] _| |].
  - exists 0%nat, m. split_and!; [by rewrite Nat.add_0_r|done|done|done|]. intros k' m' Hk Hm. split; [by apply (Hall k')|lia].
  - exists k, m'. split_and!; [done|done|done|lia|done].
Qed.

Lemma choose_best modules alloc : is_best modules alloc (choose modules 0 alloc 0 None).
Proof.
  destruct (choose_spec alloc modules 0 0 None) as [[-> Hall]|(k & m & -> & El & Ha & Hp & Hall)]; [exact Hall|].
  by exists m.
Qed.

(** The module selected, if any, is in the array. *)
Definition pwr_ok (modules : list (option active_module_t)) (s : pwr_t) : Prop :=
  ∀ i, selected_module s = Some i → ∃ m, modules !! i = Some (Some m).

Lemma module_at (modules : list (option active_module_t)) i m : modules !! i = Some (Some m) → mjoin (modules !! i) = Some m.
Proof. by intros ->. Qed.

Lemma notify_spec modules alloc s : pwr_ok modules s →
  ∃ s' alloc' rc, notify modules alloc s = Some (s', alloc', rc) ∧
    selected_module s' = selected_module s ∧ table s' = table s ∧
    (rc = if bool_decide (selected_module s = None) then OPAL_ERROR else ORCM_SUCCESS).
Proof.
  intros Hok. unfold notify. destruct (selected_module s) as [i|] eqn:E; [|by repeat eexists].
  destruct (Hok i E) as [m Em]. rewrite Em. cbn. destruct (alloc_notify_fn m); do 3 eexists; split_and!; try done.
Qed.

(** The module for an allocation.  With a mode other than NONE the module selected
    afterwards is the accepting module of the highest positive priority, the first of
    them in the array, in the scheduler and in a daemon; the answer is an error exactly when
    there is none, and otherwise success, or 1 from the module that was selected before.
    In a daemon the functions of the framework are then those of the module; when there is
    none they stay as they were, those of a module that has been told to stop. *)
Theorem alloc_notify_selects is_scheduler modules alloc s mode :
  pwr_ok modules s → mode ≠ ORCM_PWRMGMT_MODE_NONE →
  orte_get_attribute (constraints alloc) ORCM_PWRMGMT_POWER_MODE_KEY true OPAL_INT32 = Some (true, Some (D_num mode)) →
  ∃ s' alloc' rc, orcm_pwrmgmt_base_alloc_notify is_scheduler modules alloc s = Some (s', alloc', rc) ∧
    pwr_ok modules s' ∧ is_best modules alloc (selected_module s') ∧
    (selected_module s' = None ↔ rc = OPAL_ERROR) ∧ (rc = OPAL_ERROR ∨ rc = ORCM_SUCCESS ∨ rc = 1) ∧
    (is_scheduler = true → table s' = table s) ∧
    (is_scheduler = false → table s = selected_module s → selected_module s' ≠ None → table s' = selected_module s') ∧
    (is_scheduler = false → selected_module s' = None → table s' = table s).
Proof.
  intros Hok Hm Hg. unfold orcm_pwrmgmt_base_alloc_notify. rewrite Hg. cbn [mbind option_bind negb].
  destruct (Z.eqb_spec mode ORCM_PWRMGMT_MODE_NONE); [done|].
  pose proof (choose_best modules alloc) as Hb. set (current := choose modules 0 alloc 0 None) in *. clearbody current.
  assert (∀ t c, pwr_ok modules (mk_pwr current t c)) as Hcur.
  { intros t c i E. cbn in E. rewrite E in Hb. destruct Hb as (m & Em & _). by exists m. }
  assert (∀ t c, ∃ s' alloc' rc, notify modules alloc (mk_pwr current t c) = Some (s', alloc', rc) ∧
    selected_module s' = current ∧ table s' = t ∧ (rc = if bool_decide (current = None) then OPAL_ERROR else ORCM_SUCCESS)) as Hnot
    by (intros t c; apply notify_spec, Hcur).
  assert (∀ t c, ∃ s' alloc' rc, notify modules alloc (mk_pwr current t c) = Some (s', alloc', rc) ∧
    pwr_ok modules s' ∧ selected_module s' = current ∧ table s' = t ∧ (current = None ↔ rc = OPAL_ERROR) ∧
    (rc = OPAL_ERROR ∨ rc = ORCM_SUCCESS ∨ rc = 1)) as Hn.
  { intros t c. destruct (Hnot t c) as (s' & a' & rc & E & Es & Et & Er). exists s', a', rc.
    split_and!; [done| |done|done| |].
    - intros i Ei. apply (Hcur t c i). cbn. congruence.
    - rewrite Er. by case_bool_decide.
    - rewrite Er. case_bool_decide; auto. }
  destruct is_scheduler.
  { destruct (Hn (table s) (calls s)) as (s' & a' & rc & E & Hp & Es & Et & Hrc & Hv). exists s', a', rc.
    rewrite Es. by split_and!. }
  destruct (selected_module s) as [i|] eqn:Ei; [destruct (Hok i Ei) as [m Em]|].
  - destruct (decide (current = Some i)) as [Hc|Hc];
      [rewrite (bool_decide_eq_true_2 _ Hc)|rewrite (bool_decide_eq_false_2 _ Hc)].
    + rewrite (module_at _ _ _ Em). cbn [mbind option_bind]. do 3 eexists. split; [done|].
      assert (selected_module (if set_attributes_fn m then call (C_set_attributes i alloc) s else s) = current ∧
              table (if set_attributes_fn m then call (C_set_attributes i alloc) s else s) = table s) as [-> ->]
        by (destruct (set_attributes_fn m); cbn; by rewrite Ei, Hc).
      rewrite Hc in *. split_and!; try done; [|by auto..].
      intros k Hk. destruct (set_attributes_fn m); cbn in Hk; apply Hok; congruence.
    + unfold dealloc. rewrite (module_at _ _ _ Em). cbn [mbind option_bind].
      set (s1 := if dealloc_notify_fn m then call (C_dealloc i alloc) s else s).
      assert (table s1 = table s) as Et1 by (unfold s1; by destruct (dealloc_notify_fn m)).
      destruct (Hn (match current with Some i => Some i | None => table s1 end) (calls s1)) as (s' & a' & rc & E & Hp & Es & Et & Hrc & Hv).
      exists s', a', rc. rewrite Es, Et, Et1. split_and!; try done; (intros; destruct current; (done || congruence)).
  - destruct (Hn (match current with Some i => Some i | None => table s end) (calls s)) as (s' & a' & rc & E & Hp & Es & Et & Hrc & Hv).
    exists s', a', rc. rewrite Es, Et. split_and!; try done; (intros; destruct current; (done || congruence)).
Qed.

(** ** Whom a new setting reaches *)

(** The order of process names: job first, then rank. *)
Definition name_gt (a b : opal_process_name_t) : bool :=
  (jobid b <? jobid a) || ((jobid a =? jobid b) && (vpid b <? vpid a)).

Lemma compare_gt a b : (1 =? orte_util_compare_name_fields ORTE_NS_CMP_ALL (Some a) (Some b)) = name_gt a b.
Proof.
  unfold orte_util_compare_name_fields, compare_vpid, name_gt, has. cbn.
  destruct (Z.ltb_spec (jobid a) (jobid b)), (Z.ltb_spec (jobid b) (jobid a)), (Z.eqb_spec (jobid a) (jobid b));
    try lia; cbn; try done.
  destruct (Z.ltb_spec (vpid a) (vpid b)), (Z.ltb_spec (vpid b) (vpid a)); (lia || done).
Qed.

Section recv.
Context `{FloatText} `{NodeRegex} `{Rml}.
Context (cs : list CfgiDt.orcm_cluster_t) (modules : list (option active_module_t)) (me : opal_process_name_t).
Context (Hsent : ∀ l m, rml_send_rc l m = OPAL_SUCCESS).

Lemma forward_spec names procs ans : Forall2 (λ n p, CfgiBase.orcm_cfgi_base_get_hostname_proc cs n = inr p) names procs →
  ∀ l, forward cs me names ans l =
    (l ++ ((λ p, mk_msg p ORCM_RML_TAG_PWRMGMT_BASE ans) <$> filter (λ p, name_gt p me = true) procs), true).
Proof.
  induction 1 as [|n p names procs Hp _ IH]; intros l; cbn [forward]; [by rewrite app_nil_r|].
  rewrite Hp, compare_gt. destruct (name_gt p me) eqn:E.
  - rewrite Hsent, filter_cons_True by done. cbn [Z.eqb OPAL_SUCCESS]. rewrite IH, <-app_assoc. done.
  - by rewrite filter_cons_False by congruence.
Qed.

(** A setting of a running session at its head daemon: the daemon passes the message
    on, whole, to the daemons of exactly those nodes of the session whose names are
    greater than its own (the test for another daemon compares with 1), in the order of the
    nodes, and then acts on it itself.  A daemon of the session with a smaller name never
    hears of the setting. *)
Theorem power_reaches_greater buf b1 b2 alloc names procs rc d p alloc' rc' :
  unpack1 t_uint8 buf = Some (b1, inr ORCM_SET_POWER_COMMAND) → unpack1 t_alloc b1 = Some (b2, inr alloc) →
  valid_alloc alloc → hnp alloc = me → regex_extract (alloc_nodes alloc) = Some (rc, names) → names ≠ [] →
  Forall2 (λ n p, CfgiBase.orcm_cfgi_base_get_hostname_proc cs n = inr p) names procs →
  orcm_pwrmgmt_base_alloc_notify false modules alloc (dm_pwr d) = Some (p, alloc', rc') →
  ∃ ans, ScdRun.reads ans ORCM_SET_POWER_COMMAND alloc ∧
    orcm_pwrmgmt_base_recv cs modules me buf d =
    Some (mk_daemon p (dm_sent d ++
      ((λ p, mk_msg p ORCM_RML_TAG_PWRMGMT_BASE ans) <$> filter (λ p, name_gt p me = true) procs))).
Proof.
  intros E1 E2 Hv Hme Ex Hne Hr En.
  destruct (ScdRun.pack_command_spec ORCM_SET_POWER_COMMAND alloc) as (ans & Ep & Hans); [done|done|].
  exists ans. split; [done|]. unfold orcm_pwrmgmt_base_recv. rewrite E1, Z.eqb_refl, E2. unfold pass_on.
  rewrite (proj2 (same_proc_eq (hnp alloc) me) Hme), Ep. cbn [mbind option_bind]. rewrite Ex. cbn [mbind option_bind].
  destruct names as [|n names]; [done|]. rewrite (forward_spec _ _ ans Hr). cbn [mbind option_bind dm_pwr dm_sent].
  by rewrite En.
Qed.

End recv.

(** ** Power management as the scheduler uses it *)

(** What the base answers in the scheduler, whatever was selected before. *)
Lemma scheduler_stateless modules alloc s s' : pwr_ok modules s → pwr_ok modules s' →
  (λ '(_, a, rc), (a, rc)) <$> orcm_pwrmgmt_base_alloc_notify true modules alloc s =
  (λ '(_, a, rc), (a, rc)) <$> orcm_pwrmgmt_base_alloc_notify true modules alloc s'.
Proof.
  intros H1 H2. unfold orcm_pwrmgmt_base_alloc_notify.
  destruct (orte_get_attribute _ _ _ _) as [[ok v]|]; [|done]. cbn [mbind option_bind]. destruct (negb ok); [done|].
  destruct v as [[|mode| | | | |]|]; try done. destruct (mode =? ORCM_PWRMGMT_MODE_NONE).
  - assert (∀ t, pwr_ok modules t → (λ '(_, a, rc), (a, rc)) <$> match selected_module t with
      | Some i => s ← dealloc modules i alloc t; Some (mk_pwr None None (calls s), alloc, ORCM_SUCCESS)
      | None => Some (t, alloc, ORCM_SUCCESS) end = Some (alloc, ORCM_SUCCESS)) as HH; [|by rewrite !HH].
    intros t Ht. destruct (selected_module t) as [i|] eqn:E; [|done]. destruct (Ht i E) as [m Em].
    unfold dealloc. by rewrite (module_at _ _ _ Em).
  - unfold notify. cbn [selected_module]. destruct (choose modules 0 alloc 0 None) as [i|]; [|done].
    destruct (mjoin (modules !! i)) as [m|]; [|done]. cbn. by destruct (alloc_notify_fn m).
Qed.

(** The interface of the scheduler, met by the base with its modules. *)
#[export] Instance base_pwrmgmt (modules : list (option active_module_t)) : PwrMgmt := λ alloc,
  match orcm_pwrmgmt_base_alloc_notify true modules alloc (mk_pwr None None []) with
  | Some (_, alloc', rc) => (alloc', rc)
  | None => (alloc, OPAL_ERROR)
  end.

Lemma manual_notify_keeps `{FloatText} a : alloc_id (manualfreq_alloc_notify a) = alloc_id a ∧
  (∀ j, session_power (manualfreq_alloc_notify a) j = session_power a j) ∧
  (valid_alloc a → Z.of_nat (length (constraints a)) < INT_MAX → valid_alloc (manualfreq_alloc_notify a)).
Proof.
  unfold manualfreq_alloc_notify. destruct (manual_mode (constraints a)); [|by split_and!].
  destruct (orte_set_get_attribute (constraints a) ORCM_PWRMGMT_SELECTED_COMPONENT_KEY false
    (D_string (Some component_name)) OPAL_STRING) as (l & rc & E & _ & Ho & _); [done|done|]. rewrite E.
  split_and!; [done| |].
  - intros j. unfold session_power. apply Ho. by destruct j.
  - intros Hv Hr. assert (∀ loc, valid_attr (mk_attr ORCM_PWRMGMT_SELECTED_COMPONENT_KEY loc OPAL_STRING
      (D_string (Some component_name)))) as Hva.
    { intros loc. split_and!; [done|done|]. split; [done|]. split; [done|forall_list]. }
    destruct (set_attribute_valid _ _ _ _ _ _ _ (va_constraints _ Hv) (Hva false) Hva eq_refl eq_refl eq_refl E).
    destruct Hv. split; try assumption. cbn. lia.
Qed.

(** With the manual frequency module in the scheduler, a change of the mode keeps the
    settings of the session. *)
Lemma manual_keeps `{FloatText} p : keeps_settings (H1 := base_pwrmgmt [Some (manualfreq p)]).
Proof.
  intros a. unfold alloc_notify, base_pwrmgmt.
  assert (∀ b, (b = a ∨ b = manualfreq_alloc_notify a) → alloc_id b = alloc_id a ∧
    (∀ j, session_power b j = session_power a j) ∧
    (valid_alloc a → Z.of_nat (length (constraints a)) < INT_MAX → valid_alloc b)) as HH.
  { intros b [-> | ->]; [by split_and!|apply manual_notify_keeps]. }
  apply HH. unfold orcm_pwrmgmt_base_alloc_notify, notify. destruct (orte_get_attribute _ _ _ _) as [[ok v]|]; [|by left].
  cbn [mbind option_bind]. destruct (negb ok); [by left|]. destruct v as [[|mode| | | | |]|]; try by left.
  destruct (mode =? ORCM_PWRMGMT_MODE_NONE); [by left|]. cbn [selected_module].
  destruct (choose _ _ _ _ _) as [[|[|i]]|]; cbn; auto.
Qed.

End PwrSpec.
