(* ===== verification/ScdSteps.v ===== *)
(** * The scheduler as a transition system

    The turns of the two event loops, the messages that arrive and the configuration, as
    steps from the initial state.  In the states they reach a session object is in one place,
    on one queue or in one event that will put it on one, and the handlers that queue
    a session are defined: they find it on no list. *)

From Stdlib Require Import ZArith Lia Ascii.
From stdpp Require Import prelude numbers strings gmap list.
From S2P Require Import Prelude PointerArray CString Argv Dss Attr Alloc Scd ScdFifo ScdLemmas ScdSpec RmRecv ScdRecv ScdPower.

Local Open Scope Z_scope.

Module ScdSteps.
Import Dss Attr Alloc Scd ScdFifo ScdLemmas ScdSpec RmRecv ScdRecv ScdPower.

(** ** Steps *)

(** Start-up adds the nodes of the configuration to the pool (sst_orcmsched.c). *)
Definition add_node (n : orcm_node_t) (st : orcm_scd_base_t) : option orcm_scd_base_t :=
  let r := fresh (dom (node_heap st)) in
  '(arr, _) ← PA.opal_pointer_array_add true (nodes st) (Some r);
  Some (set_nodes arr (set_node_heap (<[r := n]> (node_heap st)) st)).

Section system.
Context `{FloatText} `{NodeRegex} `{Rml} `{Hwloc} `{PwrMgmt}.

(** A step is a handler that ends; where a handler is undefined the execution has no next
    state.  The tools' messages come with any power settings of the cluster, and a
    configuration has fewer than 2^30 nodes. *)
Inductive step : orcm_scd_base_t → orcm_scd_base_t → Prop :=
  | step_scd st st' : scd_turn st = Some st' → step st st'
  | step_rm st st' : rm_turn st = Some st' → step st st'
  | step_rm_recv clusters sender buf st st' :
      orcm_scd_base_rm_recv clusters sender buf st = Some st' → step st st'
  | step_recv node_config my_scheduler uid sender buf p p' st st' :
      orcm_scd_base_recv node_config my_scheduler uid sender buf (p, st) = Some (p', st') → step st st'
  | step_queues config st : step st (ORCM_CONSTRUCT_QUEUES config st)
  | step_add_node n st st' : PA.size (nodes st) < 2 ^ 30 → add_node n st = Some st' → step st st'.

Inductive reachable : orcm_scd_base_t → Prop :=
  | reach_init : reachable (fifo_init orcm_scd_base_open).1
  | reach_step st st' : reachable st → step st st' → reachable st'.

(** ** Where sessions are *)

(** The session an event will put on a queue, directly or through the resource manager. *)
Definition carried (e : event_t) : list nat :=
  match ev_cb e, ev_caddy e with
  | (cb_fifo_find_queue | cb_fifo_allocated | cb_rm_request), session_caddy r => [r]
  | _, _ => []
  end.

Definition owned (st : orcm_scd_base_t) : list nat :=
  members st ++ concat (carried <$> scd_events st) ++ concat (carried <$> rm_events st).

(** The session has an allocation. *)
Definition allotted (st : orcm_scd_base_t) (r : nat) : Prop := is_Some (get_alloc st r).

(** The table of the nodes is sound, and every node in it is an object. *)
Record pool (st : orcm_scd_base_t) : Prop := {
  po_wf : PA.wf (nodes st);
  po_max : PA.max_size (nodes st) ≤ INT_MAX;
  po_size : 0 < PA.size (nodes st);
  po_heap : ∀ j r, 0 ≤ j → PA.opal_pointer_array_get_item (nodes st) j = Some (Some r) → r ∈ dom (node_heap st);
}.

Lemma pool_same st st' : nodes st' = nodes st → dom (node_heap st) ⊆ dom (node_heap st') → pool st → pool st'.
Proof. intros E D [Pw Pm Ps Ph]. split; rewrite ?E; eauto. Qed.

(** [st'] follows [st], which may put the sessions [extra] somewhere. *)
Record moves (extra : list nat) (st st' : orcm_scd_base_t) : Prop := {
  mv_registered : registered st → registered st';
  mv_owned : owned st' ⊆+ extra ++ owned st;
  mv_dom : ∀ r, allotted st r → allotted st' r;
  mv_pool : pool st → pool st';
}.

Lemma moves_refl extra st : moves extra st st.
Proof. split; [done|apply submseteq_inserts_l; done|done|done]. Qed.

Lemma moves_trans extra st1 st2 st3 : moves [] st1 st2 → moves extra st2 st3 → moves extra st1 st3.
Proof.
  intros [R1 O1 D1 P1] [R2 O2 D2 P2]. split; [auto| |auto|auto].
  etrans; [exact O2|]. by apply submseteq_skips_l.
Qed.

Lemma moves_trans_r extra st1 st2 st3 : moves extra st1 st2 → moves [] st2 st3 → moves extra st1 st3.
Proof. intros [R1 O1 D1 P1] [R2 O2 D2 P2]. split; [auto|by etrans|auto|auto]. Qed.

Lemma moves_weaken extra st1 st2 : moves [] st1 st2 → moves extra st1 st2.
Proof. intros Hm. eapply moves_trans_r; [apply moves_refl|done]. Qed.

(** A step that keeps the queues, the tables and the pending events. *)
Lemma moves_quiet st st' : states st' = states st → rmstates st' = rmstates st → queues st' = queues st →
  scd_events st' = scd_events st → rm_events st' = rm_events st →
  (∀ r, allotted st r → allotted st' r) → (pool st → pool st') → moves [] st st'.
Proof.
  intros E1 E2 E3 E4 E5 D P. split; [|unfold owned, members; by rewrite E3, E4, E5|done|done].
  intros [R1 R2]. split; congruence.
Qed.

Ltac quiet := apply moves_quiet; try done; by apply pool_same.

(** A step that changes the nodes and keeps them all. *)
Lemma moves_node_heap heap st : dom heap = dom (node_heap st) → moves [] st (set_node_heap heap st).
Proof. intros E. apply moves_quiet; try done. apply pool_same; [done|]. cbn. by rewrite E. Qed.

Lemma moves_upd_alloc r f st st' : upd_alloc r f st = Some st' → moves [] st st'.
Proof.
  unfold upd_alloc. destruct (session_heap st !! r) as [s|] eqn:Hs; [|done]. cbn.
  destruct (session_alloc s); [|done]. cbn. intros [= <-]. apply moves_quiet; try done.
  - intros x. unfold allotted, get_alloc. cbn. destruct (decide (x = r)) as [->|].
    + rewrite lookup_insert_eq. by eexists.
    + by rewrite lookup_insert_ne.
  - by apply pool_same.
Qed.

(** Queues. *)
Lemma moves_upd_queue extra i f st : (∀ l, f l ⊆+ extra ++ l) → moves extra st (upd_queue i f st).
Proof.
  intros Hf. split; [by intros [? ?]| |done|by apply pool_same]. unfold owned.
  change (scd_events (upd_queue i f st)) with (scd_events st).
  change (rm_events (upd_queue i f st)) with (rm_events st). rewrite (app_assoc extra). apply submseteq_skips_r.
  unfold members, upd_queue. cbn [queues set_queues]. destruct (queues st !! i) as [q|] eqn:Hq.
  - rewrite (members_alter _ _ _ f Hq), (members_split _ _ _ Hq).
    etrans; [apply submseteq_skips_l, submseteq_skips_r, Hf|]. apply Permutation_submseteq. solve_Permutation.
  - assert (alter (λ q, set_sessions (f (queue_sessions q)) q) i (queues st) = queues st) as ->.
    { apply list_eq. intros k. destruct (decide (i = k)) as [<-|]; [|by rewrite list_lookup_alter_ne].
      by rewrite list_lookup_alter_eq, Hq. }
    by apply submseteq_inserts_l.
Qed.

Lemma moves_append i r st st' : append_session i r st = Some st' → moves [r] st st'.
Proof.
  unfold append_session. destruct (on_a_list st r); [done|]. intros [= <-]. apply moves_upd_queue.
  intros l. by rewrite Permutation_app_comm.
Qed.

Lemma moves_prepend i r st st' : prepend_session i r st = Some st' → moves [r] st st'.
Proof. unfold prepend_session. destruct (on_a_list st r); [done|]. intros [= <-]. by apply moves_upd_queue. Qed.

(** Events. *)
Lemma owned_scd_events st e : owned (set_scd_events (scd_events st ++ [e]) st) ≡ₚ carried e ++ owned st.
Proof.
  unfold owned. change (members (set_scd_events _ st)) with (members st). cbn [scd_events rm_events set_scd_events].
  rewrite fmap_app, concat_app. cbn. rewrite app_nil_r. solve_Permutation.
Qed.

Lemma owned_rm_events st e : owned (set_rm_events (rm_events st ++ [e]) st) ≡ₚ carried e ++ owned st.
Proof.
  unfold owned. change (members (set_rm_events _ st)) with (members st). cbn [scd_events rm_events set_rm_events].
  rewrite fmap_app, concat_app. cbn. rewrite app_nil_r. solve_Permutation.
Qed.

Lemma moves_post_scd cb r st : moves (carried (ev cb r)) st (post_scd cb r st).
Proof. split; [by intros [? ?]| |done|by apply pool_same]. unfold post_scd. by rewrite owned_scd_events. Qed.

Lemma moves_post_rm cb r st : moves (carried (ev cb r)) st (post_rm cb r st).
Proof. split; [by intros [? ?]| |done|by apply pool_same]. unfold post_rm. by rewrite owned_rm_events. Qed.

(** ** The handlers *)

Lemma moves_enqueue name r st st' : registered st → enqueue name r st = Some st' → moves [r] st st'.
Proof.
  intros Hreg. unfold enqueue. destruct (find_named name (queues st)) as [i|]; [|intros [= <-]; apply moves_refl].
  destruct (upd_alloc r _ st) as [st1|] eqn:E1; [|done]. cbn [mbind option_bind].
  destruct (append_session i r st1) as [st2|] eqn:E2; [|done]. cbn [mbind option_bind]. intros [= <-].
  apply moves_upd_alloc in E1. apply moves_append in E2.
  eapply moves_trans; [exact E1|]. eapply moves_trans_r; [exact E2|].
  rewrite act_schedule by (apply E2, E1, Hreg). apply (moves_post_scd cb_fifo_schedule).
Qed.

Lemma moves_find_queue r st st' : registered st → fifo_find_queue r st = Some st' → moves [r] st st'.
Proof.
  intros Hreg. unfold fifo_find_queue. destruct (get_alloc st r); [|done]. cbn [mbind option_bind].
  destruct (ck_int _); [|done]. cbn [mbind option_bind]. case_match; [|by apply moves_enqueue].
  destruct (enqueue _ r st) as [st1|] eqn:E1; [|done]. cbn [mbind option_bind]. intros E2.
  eapply moves_trans_r; [by eapply moves_enqueue|by eapply moves_upd_alloc].
Qed.

(** Taking the head of a queue and putting it somewhere. *)
Lemma owned_pop i q s rest st : queues st !! i = Some q → queue_sessions q = s :: rest →
  s :: owned (upd_queue i (λ _, rest) st) ≡ₚ owned st.
Proof.
  intros Hq Hs. unfold owned, members, upd_queue. cbn [queues set_queues scd_events rm_events].
  rewrite (members_alter _ _ _ (λ _, rest) Hq), (members_split _ _ _ Hq), Hs. solve_Permutation.
Qed.

Lemma moves_pop i q s rest st st' : queues st !! i = Some q → queue_sessions q = s :: rest →
  moves [s] (upd_queue i (λ _, rest) st) st' → moves [] st st'.
Proof.
  intros Hq Hs [R O D P]. split; [by intros [? ?]; apply R| |auto|intros Hp; apply P; by apply (pool_same st)].
  etrans; [exact O|]. cbn [app]. by rewrite (owned_pop i q s rest).
Qed.

Lemma moves_schedule_loop n i st st' : registered st → schedule_loop n i st = Some st' → moves [] st st'.
Proof.
  revert i st. induction n as [|n IH]; intros i st Hreg; cbn [schedule_loop]; [intros [= <-]; apply moves_refl|].
  destruct (queues st !! i) as [q|] eqn:Hq; [|done]. cbn [mbind option_bind].
  case_bool_decide; [|by apply IH]. destruct (queue_sessions q) as [|s rest] eqn:Hs; [intros [= <-]; apply moves_refl|].
  set (st1 := upd_queue i (λ _, rest) st). destruct (items (nodes st1)) as [refs|]; [|done]. cbn [mbind option_bind].
  destruct (count_free _ _ _); [|done]. cbn [mbind option_bind]. destruct (get_alloc st1 s); [|done]. cbn [mbind option_bind].
  assert (registered st1) as Hreg1 by by destruct Hreg.
  intros E.
  assert (∃ st2, moves [s] st1 st2 ∧ schedule_loop n (S i) st2 = Some st') as (st2 & Hm & E').
  { case_match; cbn [mbind option_bind] in E.
    - eexists. split; [|exact E]. rewrite act_req by done. apply (moves_post_rm cb_rm_request).
    - destruct (prepend_session i s st1) as [st2|] eqn:E2; [|done]. exists st2. split; [by eapply moves_prepend|done]. }
  pose proof (moves_pop i q s rest st st2 Hq Hs Hm) as Hm'.
  eapply moves_trans; [exact Hm'|]. apply IH in E'; [done|]. by apply Hm'.
Qed.

Lemma moves_rm_request r st st' : registered st → scd_base_rm_request r st = Some st' → moves [r] st st'.
Proof.
  intros Hreg. unfold scd_base_rm_request. destruct (get_alloc st r); [|done]. cbn [mbind option_bind].
  case_match; [|intros [= <-]; apply moves_refl]. destruct (items (nodes st)); [|done]. cbn [mbind option_bind].
  destruct (collect_nodes _ _ _ _) as [[nodelist k]|]; [|done]. cbn [mbind option_bind]. intros E.
  assert (∃ st1, moves [] st st1 ∧ Some (orcm_scd_base_activate_session_state r ORCM_SESSION_STATE_ALLOCD st1) = Some st')
    as (st1 & Hm & [= <-]).
  { case_match; [|by eexists; split; [apply moves_refl|exact E]]. destruct nodelist; [|done]. cbn [mbind option_bind] in E.
    destruct (regex_create _); [|done]. cbn [mbind option_bind] in E.
    destruct (upd_alloc r _ st) as [st1|] eqn:E1; [|done]. exists st1. split; [by eapply moves_upd_alloc|exact E]. }
  eapply moves_trans; [exact Hm|]. rewrite act_allocd by (by apply Hm). apply (moves_post_scd cb_fifo_allocated).
Qed.

Lemma submseteq_not_in (x : nat) (l k : list nat) : l ⊆+ x :: k → x ∉ l → l ⊆+ k.
Proof.
  intros Hs Hx. apply submseteq_cons_r in Hs as [?|(l' & Hp & _)]; [done|].
  destruct Hx. rewrite Hp. by left.
Qed.

Lemma mark_named_dom name v refs heap heap' : mark_named name v refs heap = Some heap' → dom heap' = dom heap.
Proof.
  revert heap. induction refs as [|r refs IH]; intros heap; cbn [mark_named]; [by intros [= <-]|].
  destruct (heap !! r) as [n|] eqn:Hr; [|done]. cbn [mbind option_bind]. intros E. rewrite (IH _ E).
  case_bool_decide; [|done]. apply dom_insert_lookup_L. by eexists.
Qed.

Lemma mark_nodes_dom names v refs heap heap' : mark_nodes names v refs heap = Some heap' → dom heap' = dom heap.
Proof.
  revert heap. induction names as [|x names IH]; intros heap; cbn [mark_nodes]; [by intros [= <-]|].
  destruct (mark_named x v refs heap) as [h|] eqn:E; [|done]. cbn [mbind option_bind]. intros E'.
  rewrite (IH _ E'). by eapply mark_named_dom.
Qed.

Lemma update_first_dom P f refs heap heap' hit : update_first P f refs heap = Some (heap', hit) → dom heap' = dom heap.
Proof.
  induction refs as [|r refs IH]; cbn [update_first]; [by intros [= <- _]|].
  destruct (heap !! r) as [n|] eqn:Hr; [|done]. cbn [mbind option_bind].
  destruct (P n); [|done]. intros [= <- _]. apply dom_insert_lookup_L. by eexists.
Qed.

Lemma update_each_dom Ps f refs heap b heap' found : update_each Ps f refs heap b = Some (heap', found) → dom heap' = dom heap.
Proof.
  revert heap b. induction Ps as [|P Ps IH]; intros heap b; cbn [update_each]; [by intros [= <- _]|].
  destruct (update_first P f refs heap) as [[h hit]|] eqn:E; [|done]. cbn [mbind option_bind]. intros E'.
  rewrite (IH _ _ E'). by eapply update_first_dom.
Qed.

Lemma moves_allocated_error r st0 st st' : registered st → moves [r] st0 st →
  concat (carried <$> scd_events st) = concat (carried <$> scd_events st0) →
  concat (carried <$> rm_events st) = concat (carried <$> rm_events st0) →
  r ∉ concat (carried <$> scd_events st0) ++ concat (carried <$> rm_events st0) →
  allocated_error r st = Some st' → moves [r] st0 st'.
Proof.
  intros Hreg Hm Es Er Hnot. unfold allocated_error.
  set (st1 := match find_named _ (queues st) with Some i => upd_queue i tail st | None => st end).
  assert (moves [] st st1) as Hm1.
  { unfold st1. destruct (find_named _ _); [|apply moves_refl]. apply moves_upd_queue. intros [|x l]; [done|]. by apply submseteq_cons. }
  destruct (find_named (lit "default") (queues st1)) as [j|]; [|intros [= <-]; by eapply moves_trans_r].
  destruct (prepend_session j r st1) as [st2|] eqn:E2; [|done]. cbn [mbind option_bind]. intros [= <-].
  pose proof (moves_prepend _ _ _ _ E2) as Hm2.
  unfold prepend_session in E2. destruct (on_a_list st1 r) eqn:Hon; [done|]. clear E2.
  rewrite on_a_list_members in Hon. apply bool_decide_eq_false in Hon.
  rewrite act_schedule by (apply Hm2, Hm1, Hreg).
  eapply moves_trans_r; [|apply (moves_post_scd cb_fifo_schedule)].
  assert (owned st1 ⊆+ owned st0) as Ho.
  { apply submseteq_not_in with r; [etrans; [apply Hm1|apply Hm]|]. unfold owned. rewrite elem_of_app. intros [?|Hin]; [done|].
    assert (scd_events st1 = scd_events st ∧ rm_events st1 = rm_events st) as [E1 E2]
      by (unfold st1; by destruct (find_named _ _)). by rewrite E1, E2, Es, Er in Hin. }
  split; [intros ?; apply Hm2, Hm1, Hreg| |intros x Hx; by apply Hm2, Hm1, Hm|intros Hp; by apply Hm2, Hm1, Hm].
  etrans; [apply Hm2|]. by apply submseteq_skip.
Qed.

Lemma moves_put_on_running r st st' : put_on_running r st = Some st' → moves [r] st st' ∧
  scd_events st' = scd_events st ∧ rm_events st' = rm_events st.
Proof.
  unfold put_on_running. destruct (find_named _ (queues st)) as [i|]; [|intros [= <-]; split; [apply moves_refl|done]].
  destruct (upd_alloc r _ st) as [st1|] eqn:E1; [|done]. cbn [mbind option_bind]. intros E2. split.
  - eapply moves_trans; [by eapply moves_upd_alloc|by eapply moves_append].
  - unfold append_session in E2. destruct (on_a_list st1 r); [done|]. injection E2 as <-. unfold upd_alloc in E1.
    destruct (session_heap st !! r) as [s0|]; [|done]. cbn in E1. destruct (session_alloc s0); [|done]. by injection E1 as <-.
Qed.

Lemma moves_allocated r st st' : registered st → r ∉ owned st → fifo_allocated r st = Some st' → moves [r] st st'.
Proof.
  intros Hreg Hr. unfold fifo_allocated. destruct (get_alloc st r); [|done]. cbn [mbind option_bind].
  destruct (put_on_running r st) as [st1|] eqn:E1; [|done]. cbn [mbind option_bind].
  destruct (moves_put_on_running _ _ _ E1) as (Hm1 & Es & Er). pose proof (mv_registered _ _ _ Hm1 Hreg) as Hreg1.
  assert (r ∉ concat (carried <$> scd_events st) ++ concat (carried <$> rm_events st)) as Hnot.
  { intros Hin. apply Hr. unfold owned. rewrite elem_of_app. by right. }
  destruct (get_alloc st1 r) as [a|]; [|done]. cbn [mbind option_bind]. destruct (alloc_nodes a) as [l|]; [|done].
  cbn [mbind option_bind]. case_bool_decide.
  { apply moves_allocated_error; [done|done|by rewrite Es|by rewrite Er|done]. }
  rewrite act_active by done. set (st2 := post_rm cb_rm_active r st1).
  assert (moves [r] st st2) as Hm2 by (eapply moves_trans_r; [exact Hm1|apply (moves_post_rm cb_rm_active)]).
  assert (∀ st3, allocated_error r st2 = Some st3 → moves [r] st st3) as Herr.
  { intros st3. apply moves_allocated_error; [by apply Hm2|done|cbn; by rewrite Es| |done].
    cbn. rewrite fmap_app, concat_app. cbn. by rewrite app_nil_r, Er. }
  destruct (regex_extract (Some l)) as [[rc names]|]; [|done]. cbn [mbind option_bind].
  destruct (negb _); [apply Herr|]. destruct (negb _); [apply Herr|].
  destruct (items (nodes st2)); [|done]. cbn [mbind option_bind]. destruct (mark_nodes _ _ _ _) eqn:Em; [|done].
  cbn [mbind option_bind]. intros [= <-]. eapply moves_trans_r; [exact Hm2|].
  by eapply moves_node_heap, mark_nodes_dom.
Qed.

Lemma moves_remove_id id l heap l' : remove_id id l heap = Some l' → l' ⊆+ l.
Proof.
  revert l'. induction l as [|x l IH]; intros l'; cbn [remove_id]; [by intros [= <-]|].
  destruct (heap !! x) as [s|]; [|done]. cbn [mbind option_bind]. destruct (remove_id id l heap) as [l1|]; [|done].
  cbn [mbind option_bind]. intros [= <-]. destruct (session_id s =? id); [apply submseteq_cons|apply submseteq_skip]; by apply IH.
Qed.

(** Replacing the sessions of a queue by some of them. *)
Lemma moves_shrink i q l st : queues st !! i = Some q → l ⊆+ queue_sessions q → moves [] st (upd_queue i (λ _, l) st).
Proof.
  intros Hq Hl. split; [by intros [? ?]| |done|by apply pool_same]. unfold owned, members, upd_queue. cbn [queues set_queues scd_events rm_events].
  rewrite (members_alter _ _ _ (λ _, l) Hq), (members_split _ _ _ Hq). cbn [app]. apply submseteq_skips_r, submseteq_skips_l.
  by apply submseteq_skips_r.
Qed.

Lemma moves_terminated r st st' : registered st → fifo_terminated r st = Some st' → moves [] st st'.
Proof.
  intros Hreg. unfold fifo_terminated. destruct (get_alloc st r); [|done]. cbn [mbind option_bind].
  destruct (regex_extract _) as [[rc names]|]; [|done]. cbn [mbind option_bind].
  destruct (negb _); [intros [= <-]; apply moves_refl|]. destruct (items (nodes st)); [|done]. cbn [mbind option_bind].
  destruct (mark_nodes _ _ _ _) as [heap|] eqn:Em; [|done]. cbn [mbind option_bind]. set (st1 := set_node_heap heap st).
  destruct (session_heap st1 !! r) as [s|]; [|done]. cbn [mbind option_bind].
  destruct (remove_running _ st1) as [st2|] eqn:E2; [|done]. cbn [mbind option_bind]. intros [= <-].
  assert (moves [] st st1) as Hm1 by by eapply moves_node_heap, mark_nodes_dom.
  assert (moves [] st1 st2) as Hm2.
  { unfold remove_running in E2. destruct (find_named _ _) as [i|]; [|injection E2 as <-; apply moves_refl].
    destruct (queues st1 !! i) as [q|] eqn:Hq; [|done]. cbn [mbind option_bind] in E2.
    destruct (remove_id _ _ _) as [l'|] eqn:El; [|done]. injection E2 as <-.
    apply (moves_shrink _ q); [done|by eapply moves_remove_id]. }
  eapply moves_trans; [exact Hm1|]. eapply moves_trans; [exact Hm2|].
  rewrite act_schedule by (by apply Hm2, Hm1). apply (moves_post_scd cb_fifo_schedule).
Qed.

Lemma moves_cancel_loop n i r id st st' : registered st → cancel_loop n i r id st = Some st' → moves [] st st'.
Proof.
  revert i st. induction n as [|n IH]; intros i st Hreg; cbn [cancel_loop]; [intros [= <-]; apply moves_refl|].
  destruct (queues st !! i) as [q|] eqn:Hq; [|done]. cbn [mbind option_bind].
  destruct (find_id _ _ _) as [[s|]|]; cbn [mbind option_bind]; [|by apply IH|done].
  set (st1 := if bool_decide _ then _ else _). intros E.
  assert (moves [] st st1) as Hm.
  { unfold st1. case_bool_decide.
    - rewrite act_kill by done. apply (moves_post_rm cb_rm_kill).
    - assert (moves [] st (upd_queue i (remove_item s) st)) as Hm1.
      { apply moves_upd_queue. intros l. apply sublist_submseteq, sublist_filter. }
      eapply moves_trans; [exact Hm1|]. rewrite act_schedule by by apply Hm1. apply (moves_post_scd cb_fifo_schedule). }
  eapply moves_trans; [exact Hm|]. eapply IH; [by apply Hm|exact E].
Qed.

Lemma moves_send dest tag buf st : moves [] st (send_buffer_nb dest tag buf st).1.
Proof. unfold send_buffer_nb. destruct (_ =? _); [quiet|apply moves_refl]. Qed.

Lemma moves_tell_named command r i names refs st st' b :
  tell_named command r i names refs st = Some (st', b) → moves [] st st'.
Proof.
  revert st. induction refs as [|j refs IH]; intros st; cbn [tell_named]; [intros [= <- _]; apply moves_refl|].
  destruct (node_heap st !! j) as [n|]; [|done]. cbn [mbind option_bind]. destruct (names !! i); [|done]. cbn [mbind option_bind].
  case_bool_decide; [|by apply IH].
  destruct (if _ && _ then _ else Some st) as [st1|] eqn:E1; [|done]. cbn [mbind option_bind].
  assert (moves [] st st1) as Hm1.
  { destruct (_ && _) in E1; [by eapply moves_upd_alloc|]. injection E1 as <-. apply moves_refl. }
  destruct (get_alloc st1 r); [|done]. cbn [mbind option_bind]. destruct (pack_command _ _) as [[rc|buf]|]; [| |done];
    cbn [mbind option_bind]; [by intros [= <- _]|].
  pose proof (moves_send (daemon n) ORCM_RML_TAG_RM buf st1) as Hm2. destruct (send_buffer_nb _ _ _ st1) as [st2 ok].
  cbn [fst] in Hm2. intros E. eapply moves_trans; [exact Hm1|]. eapply moves_trans; [exact Hm2|].
  destruct ok; [by apply IH|]. injection E as <- _. apply moves_refl.
Qed.

Lemma moves_tell_nodes command r n i names refs st st' :
  tell_nodes command r n i names refs st = Some st' → moves [] st st'.
Proof.
  revert i st. induction n as [|n IH]; intros i st; cbn [tell_nodes]; [intros [= <-]; apply moves_refl|].
  destruct (tell_named _ _ _ _ _ st) as [[st1 go]|] eqn:E; [|done]. cbn [mbind option_bind].
  apply moves_tell_named in E. destruct go; intros E'; [eapply moves_trans; [exact E|by eapply IH]|]. by injection E' as <-.
Qed.

Lemma moves_rm_active r st st' : scd_base_rm_active r st = Some st' → moves [] st st'.
Proof.
  unfold scd_base_rm_active. destruct (get_alloc st r); [|done]. cbn [mbind option_bind].
  destruct (regex_extract _) as [[rc names]|]; [|done]. cbn [mbind option_bind].
  destruct (negb _); [intros [= <-]; apply moves_refl|]. destruct names as [|first names]; [intros [= <-]; apply moves_refl|].
  destruct (upd_alloc r _ st) as [st1|] eqn:E1; [|done]. cbn [mbind option_bind].
  destruct (session_heap st1 !! r); [|done]. cbn [mbind option_bind]. destruct (items _); [|done]. cbn [mbind option_bind].
  intros E. eapply moves_trans; [by eapply moves_upd_alloc|]. eapply moves_trans; [|by eapply moves_tell_nodes]. quiet.
Qed.

Lemma moves_rm_kill r st st' : scd_base_rm_kill r st = Some st' → moves [] st st'.
Proof.
  unfold scd_base_rm_kill. destruct (get_alloc st r); [|done]. cbn [mbind option_bind].
  destruct (regex_extract _) as [[rc names]|]; [|done]. cbn [mbind option_bind].
  destruct (negb _); [intros [= <-]; apply moves_refl|]. destruct names as [|first names]; [intros [= <-]; apply moves_refl|].
  destruct (items _); [|done]. cbn [mbind option_bind]. apply moves_tell_nodes.
Qed.

Lemma insert_by_priority_members q qs : queue_sessions q = [] →
  concat (queue_sessions <$> insert_by_priority q qs) = concat (queue_sessions <$> qs).
Proof.
  intros Hq. induction qs as [|p qs IH]; [done|]. cbn [insert_by_priority]. destruct (_ <? _).
  - change (queue_sessions q ++ concat (queue_sessions <$> p :: qs) = concat (queue_sessions <$> p :: qs)). by rewrite Hq.
  - change (queue_sessions p ++ concat (queue_sessions <$> insert_by_priority q qs) = concat (queue_sessions <$> p :: qs)).
    by rewrite IH.
Qed.

Lemma configured_queues_members entries qs :
  concat (queue_sessions <$> configured_queues entries qs) = concat (queue_sessions <$> qs).
Proof.
  revert qs. induction entries as [|e entries IH]; intros qs; [done|]. cbn [configured_queues].
  destruct (queue_of_config e) as [q|] eqn:E; [|done]. rewrite IH. apply insert_by_priority_members.
  unfold queue_of_config in E. by repeat (case_match; try done); injection E as <-.
Qed.

Lemma moves_construct_queues config st : moves [] st (orcm_scd_base_construct_queues config st).
Proof.
  split; [by intros [? ?]| |done|by apply pool_same]. unfold owned, members, orcm_scd_base_construct_queues. cbn [queues set_queues scd_events rm_events].
  rewrite configured_queues_members, fmap_app, concat_app. cbn. by rewrite app_nil_r.
Qed.

(** ** Turns *)

Lemma moves_run_handler cb c p st st' : registered st → NoDup (carried (mk_event cb c p) ++ owned st) →
  run_handler cb c st = Some st' → moves (carried (mk_event cb c p)) st st'.
Proof.
  intros Hreg Hnd. destruct c as [r|config], cb; cbn [run_handler carried ev_cb ev_caddy]; try done;
    try (intros [= <-]; apply moves_refl).
  - by apply moves_find_queue.
  - by apply moves_schedule_loop.
  - apply moves_allocated; [done|]. cbn in Hnd. by apply NoDup_cons in Hnd as [? _].
  - by apply moves_terminated.
  - unfold fifo_cancel. destruct (session_heap st !! r); [|done]. cbn [mbind option_bind]. by apply moves_cancel_loop.
  - by apply moves_rm_request.
  - apply moves_rm_active.
  - apply moves_rm_kill.
  - intros [= <-]. apply moves_construct_queues.
Qed.

Lemma next_event_perm l e rest : next_event l = Some (e, rest) → l ≡ₚ e :: rest.
Proof.
  revert e rest. induction l as [|x l IH]; intros e rest; cbn [next_event]; [done|].
  destruct (next_event l) as [[e' rest']|] eqn:E.
  - destruct (_ <? _); intros [= <- <-]; [|done]. rewrite (IH _ _ eq_refl). constructor.
  - intros [= <- <-]. destruct l as [|y l]; [done|]. cbn in E. by repeat (case_match; try done).
Qed.

Lemma carried_perm l e rest : l ≡ₚ e :: rest → concat (carried <$> l) ≡ₚ carried e ++ concat (carried <$> rest).
Proof.
  intros Hp. change (carried e ++ concat (carried <$> rest)) with (concat (carried <$> e :: rest)).
  clear -Hp. induction Hp as [| |x y l|]; [done| | |by etrans].
  - change (carried x ++ concat (carried <$> l) ≡ₚ carried x ++ concat (carried <$> l')). by apply Permutation_app_head.
  - change (carried y ++ carried x ++ concat (carried <$> l) ≡ₚ carried x ++ carried y ++ concat (carried <$> l)).
    rewrite !app_assoc. apply Permutation_app_tail, Permutation_app_comm.
Qed.

Lemma moves_turn e st0 st st' : registered st → owned st0 ≡ₚ carried e ++ owned st → NoDup (owned st0) →
  (registered st0 → registered st) → (∀ r, allotted st0 r → allotted st r) → (pool st0 → pool st) →
  run_handler (ev_cb e) (ev_caddy e) st = Some st' → moves [] st0 st'.
Proof.
  intros Hreg Hp Hnd Hr Hs Hpo E. rewrite Hp in Hnd.
  destruct (moves_run_handler (ev_cb e) (ev_caddy e) (ev_priority e) st st' Hreg) as [R O D P];
    [by destruct e|done|]. split; [auto| |auto|auto]. etrans; [exact O|]. cbn [app]. rewrite Hp. by destruct e.
Qed.

Lemma moves_scd_turn st st' : registered st → NoDup (owned st) → scd_turn st = Some st' → moves [] st st'.
Proof.
  intros Hreg Hnd. unfold scd_turn. destruct (next_event (scd_events st)) as [[e rest]|] eqn:En; [|done].
  cbn [mbind option_bind]. apply moves_turn; [by destruct Hreg| |done|by intros [? ?]|done|by apply pool_same].
  apply next_event_perm, carried_perm in En. unfold owned.
  change (members (set_scd_events rest st)) with (members st). cbn [scd_events rm_events set_scd_events]. rewrite En. solve_Permutation.
Qed.

Lemma moves_rm_turn st st' : registered st → NoDup (owned st) → rm_turn st = Some st' → moves [] st st'.
Proof.
  intros Hreg Hnd. unfold rm_turn. destruct (next_event (rm_events st)) as [[e rest]|] eqn:En; [|done].
  cbn [mbind option_bind]. apply moves_turn; [by destruct Hreg| |done|by intros [? ?]|done|by apply pool_same].
  apply next_event_perm, carried_perm in En. unfold owned.
  change (members (set_rm_events rest st)) with (members st). cbn [scd_events rm_events set_rm_events]. rewrite En. solve_Permutation.
Qed.

(** ** Messages *)

Lemma moves_update_byproc state l topo st st' rc :
  update_nodestate_byproc state l topo st = Some (st', rc) → moves [] st st'.
Proof.
  unfold update_nodestate_byproc. destruct (items _); [|done]. cbn [mbind option_bind].
  destruct (update_each _ _ _ _ _) as [[heap found]|] eqn:E; [|done]. cbn [mbind option_bind]. intros [= <- _].
  by eapply moves_node_heap, update_each_dom.
Qed.

Lemma moves_update_byname state regexp topo st st' rc :
  update_nodestate_byname state regexp topo st = Some (st', rc) → moves [] st st'.
Proof.
  unfold update_nodestate_byname. destruct (regex_extract _) as [[rc' names]|]; [|done]. cbn [mbind option_bind].
  destruct (negb _); [intros [= <- _]; apply moves_refl|]. destruct (items _); [|done]. cbn [mbind option_bind].
  destruct (update_each _ _ _ _ _) as [[heap found]|] eqn:E; [|done]. cbn [mbind option_bind]. intros [= <- _].
  by eapply moves_node_heap, update_each_dom.
Qed.

Lemma moves_unpacked {A} (m : M A) b st st' (k : opal_buffer_t → A → option orcm_scd_base_t) :
  (∀ b a, k b a = Some st' → moves [] st st') → unpacked m b st k = Some st' → moves [] st st'.
Proof.
  intros Hk. unfold unpacked. destruct (m b) as [[b' [rc|a]]|]; [intros [= <-]; apply moves_refl|apply Hk|done].
Qed.

Lemma moves_new_session s st : moves [] st (new_session s st).2.
Proof.
  apply moves_quiet; try done; [|by apply pool_same]. intros x [a Ha]. unfold allotted, get_alloc in *. cbn.
  rewrite lookup_insert_ne; [by exists a|]. intros <-.
  assert (fresh (dom (session_heap st)) ∉ dom (session_heap st)) as Hf by apply is_fresh.
  apply not_elem_of_dom in Hf. by rewrite Hf in Ha.
Qed.

Lemma moves_node_up buf st st' : node_up buf st = Some st' → moves [] st st'.
Proof.
  apply moves_unpacked. intros b node. apply moves_unpacked. intros b' [|].
  - apply moves_unpacked. intros b'' c. unfold receive_topology. destruct (items _); [|done]. cbn [mbind option_bind].
    destruct (matches_topology _ _ _) as [[|]|]; [| |done]; cbn [mbind option_bind].
    + destruct (update_nodestate_byproc _ _ _ _) as [[st1 rc]|] eqn:E; [|done]. intros [= <-]. by eapply moves_update_byproc.
    + destruct (PA.opal_pointer_array_add _ _ _) as [[arr rc]|]; [|done]. cbn [mbind option_bind].
      destruct (update_nodestate_byproc _ _ _ _) as [[st1 rc']|] eqn:E; [|done]. intros [= <-].
      eapply moves_trans; [|by eapply moves_update_byproc]. quiet.
  - destruct (update_nodestate_byproc _ _ _ _) as [[st1 rc]|] eqn:E; [|done]. intros [= <-]. by eapply moves_update_byproc.
Qed.

Lemma moves_node_by_name state sender buf st st' : node_by_name state sender buf st = Some st' → moves [] st st'.
Proof.
  apply moves_unpacked. intros b regexp. destruct (update_nodestate_byname _ _ _ _) as [[st1 rc]|] eqn:E; [|done].
  cbn [mbind option_bind]. apply moves_update_byname in E. destruct (opal_dss_pack _ _ _) as [[ans [rc'|u]]|]; [| |done].
  - by intros [= <-].
  - intros [= <-]. eapply moves_trans; [exact E|]. apply moves_send.
Qed.

Lemma moves_stepd_complete buf st st' : registered st → stepd_complete buf st = Some st' → moves [] st st'.
Proof.
  intros Hreg. apply moves_unpacked. intros b alloc. destruct (check_in _ _) as [[trackers [|]]|]; [| |done];
    cbn [mbind option_bind].
  - set (s := mk_session _ _). pose proof (moves_new_session s st) as Hm. destruct (new_session s st) as [r st1]. cbn [snd] in Hm.
    intros [= <-]. eapply moves_trans; [exact Hm|]. rewrite act_terminated by by apply Hm.
    eapply moves_trans; [apply (moves_post_scd cb_fifo_terminated)|]. quiet.
  - intros [= <-]. quiet.
Qed.

Lemma moves_rm_recv clusters sender buf st st' : registered st →
  orcm_scd_base_rm_recv clusters sender buf st = Some st' → moves [] st st'.
Proof.
  intros Hreg. apply moves_unpacked. intros b command. case_match.
  { apply moves_unpacked. intros b' state. case_match; [apply moves_node_up|]. case_match.
    - apply moves_unpacked. intros b'' node. cbn zeta. set (nodelist := match _ with [] => _ | _ => _ end).
      destruct (update_nodestate_byproc _ nodelist _ _) as [[st1 rc]|] eqn:E; [|done].
      intros [= <-]. by eapply moves_update_byproc.
    - repeat (case_match; [apply moves_node_by_name|]). intros [= <-]. apply moves_refl. }
  case_match; [by apply moves_stepd_complete|]. case_match; [|intros [= <-]; apply moves_refl].
  apply moves_unpacked. intros b' alloc. destruct (pack_command _ _) as [[rc|ans]|]; [| |done]; cbn [mbind option_bind].
  - intros [= <-]. apply moves_refl.
  - intros [= <-]. apply moves_send.
Qed.

Lemma moves_session_cancel sender buf st st' : session_cancel sender buf st = Some st' → moves [] st st'.
Proof. unfold session_cancel. destruct (unpack1 _ _) as [[b [rc|id]]|]; [intros [= <-]; apply moves_send|done|done]. Qed.

(** A request puts a new object in one event. *)
Lemma moves_session_request p uid sender buf st st' : registered st →
  session_request p uid sender buf st = Some st' →
  moves [] st st' ∨
  (∃ r, ¬ allotted st r ∧ allotted st' r ∧ moves [r] st st').
Proof.
  intros Hreg. unfold session_request.
  destruct (unpack1 _ _) as [[b [rc|alloc]]|]; [intros [= <-]; left; apply moves_send| |done].
  unfold orcm_scd_base_get_next_session_id. cbn zeta. set (st1 := set_last_session_id _ st).
  assert (moves [] st st1) as Hm1 by quiet.
  set (s := mk_session _ _). pose proof (moves_new_session s st1) as Hm2.
  destruct (new_session s st1) as [r st2] eqn:Es. cbn [snd] in Hm2.
  assert (¬ allotted st r ∧ allotted st2 r) as [Hr Hr2].
  { injection Es as <- <-. unfold allotted, get_alloc. cbn. rewrite lookup_insert_eq. split; [|by eexists].
    rewrite (not_elem_of_dom_1 (session_heap st) (fresh _)) by apply is_fresh. cbn. by intros [? ?]. }
  assert (moves [] st st2) as Hm by by eapply moves_trans.
  destruct (ck_int _); [|done]. cbn [mbind option_bind]. destruct (session_power_budget _ _ _); [|done]. cbn [mbind option_bind].
  destruct (set_constraints_of _ _) as [[attrs rc]|]; [|done]. cbn [mbind option_bind].
  destruct (negb _); [intros E; left; eapply moves_trans; [exact Hm|by eapply moves_upd_alloc]|].
  destruct (alloc_notify _) as [alloc' rc']. destruct (upd_alloc r _ st2) as [st3|] eqn:E3; [|done]. cbn [mbind option_bind].
  apply moves_upd_alloc in E3. unfold answer_int64.
  destruct (negb _).
  { destruct (opal_dss_pack _ _ _) as [[ans [rc''|u]]|]; [| |done]; cbn; intros [= <-]; left.
    - by eapply moves_trans.
    - eapply moves_trans; [by eapply moves_trans|apply moves_send]. }
  destruct (opal_dss_pack _ _ _) as [[ans [rc''|u]]|]; [| |done]; cbn [mbind option_bind].
  { intros [= <-]. left. by eapply moves_trans. }
  pose proof (moves_send sender ORCM_RML_TAG_SCD ans st3) as Hm4. destruct (send_buffer_nb _ _ _ st3) as [st4 ok]. cbn [fst] in Hm4.
  assert (moves [] st2 st4) as Hm24 by by eapply moves_trans.
  intros [= <-]. destruct ok; [|left; by eapply moves_trans]. right. exists r.
  rewrite act_init by (by apply Hm24, Hm). split_and!; [done|by apply Hm24|].
  eapply moves_trans; [by eapply moves_trans|]. apply (moves_post_scd cb_fifo_find_queue).
Qed.

(** The other messages of the tools change only what was sent. *)
Lemma moves_reply_with sender m st st' : reply_with sender m st = Some st' → moves [] st st'.
Proof.
  unfold reply_with. destruct (m _) as [[ans [rc|u]]|]; [intros [= <-]; apply moves_refl| |done].
  intros [= <-]. apply moves_send.
Qed.

Lemma moves_answer sender m w w' : answer sender m w = Some w' → moves [] w.2 w'.2.
Proof.
  unfold answer. destruct (reply_with _ _ _) as [st|] eqn:E; [|done]. cbn. intros [= <-]. by eapply moves_reply_with.
Qed.

Lemma moves_received {A} (m : M A) sender buf w w' k :
  (∀ b a, k b a = Some w' → moves [] w.2 w'.2) → received m sender buf w k = Some w' → moves [] w.2 w'.2.
Proof.
  intros Hk. unfold received. destruct (m buf) as [[b [rc|a]]|]; [|by apply Hk|done].
  intros [= <-]. apply moves_send.
Qed.

Lemma moves_power_set my_scheduler sender buf w w' : power_set my_scheduler sender buf w = Some w' → moves [] w.2 w'.2.
Proof.
  apply moves_received. intros b sub. apply moves_received. intros b' [|]; unfold set_power_item; cbn [negb].
  - by apply moves_received.
  - destruct (case_of _ _) as [i|]; [apply moves_received; intros b'' v|]; apply (moves_answer _ _ (_, w.2)).
Qed.

Lemma moves_power_get sender buf w w' : power_get sender buf w = Some w' → moves [] w.2 w'.2.
Proof.
  apply moves_received. intros b sub. apply moves_received. intros b' [|]; unfold get_power_item; cbn [negb].
  - by apply moves_received.
  - destruct (case_of _ _) as [i|]; apply moves_answer.
Qed.

Lemma moves_recv node_config my_scheduler uid sender buf w w' : registered w.2 →
  orcm_scd_base_recv node_config my_scheduler uid sender buf w = Some w' →
  moves [] w.2 w'.2 ∨ (∃ r, ¬ allotted w.2 r ∧ allotted w'.2 r ∧ moves [r] w.2 w'.2).
Proof.
  intros Hreg. unfold orcm_scd_base_recv, received at 1.
  destruct (unpack1 _ _) as [[b [rc|command]]|]; [intros [= <-]; left; apply moves_send| |done].
  case_match.
  { destruct (session_request _ _ _ _ _) as [st|] eqn:E; [|done]. cbn. intros [= <-]. by eapply moves_session_request. }
  intros E'. left. revert E'. case_match.
  { destruct (session_info _ _) as [st|] eqn:E; [|done]. cbn. intros [= <-]. by eapply moves_reply_with. }
  case_match.
  { destruct (session_cancel _ _ _) as [st|] eqn:E; [|done]. cbn. intros [= <-]. by eapply moves_session_cancel. }
  case_match.
  { destruct (node_info _ _ _) as [st|] eqn:E; [|done]. cbn. intros [= <-]. cbn. unfold node_info in E.
    destruct (items_from _ _ _); [|done]. cbn [mbind option_bind] in E. destruct (mapM _ _); [|done].
    by eapply moves_reply_with. }
  case_match; [apply moves_power_set|]. case_match; [apply moves_power_get|]. intros [= <-]. apply moves_send.
Qed.

(** ** The invariant *)

Record one_place (st : orcm_scd_base_t) : Prop := {
  op_registered : registered st;
  op_nodup : NoDup (owned st);
  op_dom : Forall (allotted st) (owned st);
  op_pool : pool st;
}.

Lemma submseteq_NoDup (l k : list nat) : l ⊆+ k → NoDup k → NoDup l.
Proof. intros [k' Hp]%submseteq_Permutation Hk. rewrite Hp in Hk. by apply NoDup_app in Hk as [? _]. Qed.

Lemma one_place_moves st st' : one_place st → moves [] st st' → one_place st'.
Proof.
  intros [R N D P] [R' O D' P']. split; [auto|by eapply submseteq_NoDup| |auto]. apply Forall_forall. intros r Hr.
  apply D'. rewrite Forall_forall in D. apply D. by eapply elem_of_submseteq.
Qed.

Lemma one_place_new st st' r : one_place st → ¬ allotted st r → allotted st' r → moves [r] st st' → one_place st'.
Proof.
  intros [R N D P] Hr Hr' [R' O D' P']. rewrite Forall_forall in D. split; [auto| | |auto].
  - eapply submseteq_NoDup; [exact O|]. apply NoDup_cons. split; [|done]. intros Hin. by apply Hr, D.
  - apply Forall_forall. intros x Hx. pose proof (elem_of_submseteq _ _ _ Hx O) as [->|Hin]%elem_of_cons; [done|].
    by apply D', D.
Qed.

Lemma pool_add_node n st st' : PA.size (nodes st) < 2 ^ 30 → add_node n st = Some st' → pool st → pool st'.
Proof.
  intros Hsz E [Hwf Hm Hs Hh]. unfold add_node in E. set (r := fresh (dom (node_heap st))) in *.
  destruct (PA.opal_pointer_array_add_spec true (nodes st) r Hwf Hm Hsz) as (t & i & Ea & Hcase); [by right|].
  rewrite Ea in E. cbn in E. injection E as <-.
  assert (∀ x, x ∈ dom (node_heap st) → x ∈ dom (<[r:=n]> (node_heap st))) as Hin
    by (intros x Hx; rewrite dom_insert; set_solver).
  destruct Hcase as [(_ & -> & _)|(-> & Hi & Hwf' & Hm' & _ & _ & Hget)].
  - split; cbn; eauto.
  - split; cbn; [done|lia| |].
    + pose proof (Hget (PA.lowest_free (nodes st)) Hi) as Hg. rewrite decide_True in Hg by done.
      unfold PA.opal_pointer_array_get_item in Hg. case_match eqn:Hb; [done|]. apply Z.leb_gt in Hb. lia.
    + intros j x Hj Hx. rewrite Hget in Hx by done. case_decide; [|by eapply Hin, Hh].
      injection Hx as <-. rewrite dom_insert. set_solver.
Qed.

Lemma one_place_step st st' : one_place st → step st st' → one_place st'.
Proof.
  intros Hop Hs. pose proof Hop as [R N _ _].
  destruct Hs as [st st' E|st st' E|clusters sender buf st st' E|nc ms uid sender buf p p' st st' E|config st|n st st' Hn E].
  - eapply one_place_moves; [done|by apply moves_scd_turn].
  - eapply one_place_moves; [done|by apply moves_rm_turn].
  - eapply one_place_moves; [done|by eapply moves_rm_recv].
  - destruct (moves_recv _ _ _ _ _ (p, st) (p', st') R E) as [Hm|(r & Hr & Hr' & Hm)].
    + by eapply one_place_moves.
    + by eapply one_place_new.
  - eapply one_place_moves; [done|]. split; [by intros [? ?]| |done|by apply pool_same].
    unfold ORCM_CONSTRUCT_QUEUES. by rewrite owned_scd_events.
  - eapply one_place_moves; [done|]. pose proof (pool_add_node n st st' Hn E) as Hp. unfold add_node in E.
    destruct (PA.opal_pointer_array_add _ _ _) as [[arr i]|]; [|done].
    cbn in E. injection E as <-. by apply moves_quiet.
Qed.

Lemma reachable_one_place st : reachable st → one_place st.
Proof.
  induction 1 as [|st st' _ IH Hs]; [|by eapply one_place_step].
  split; [by split|apply NoDup_nil_2|apply Forall_nil_2|]. split; try done.
  - split; try (vm_compute; intuition congruence). split; [|by right]. intros j Hj. vm_compute in Hj. lia.
  - intros j r Hj Hg. unfold PA.opal_pointer_array_get_item in Hg. case_match; [done|].
    change (zget (replicate 8 (@None nat)) j = Some (Some r)) in Hg. unfold zget in Hg. case_match; [done|].
    by apply lookup_replicate in Hg as [? _].
Qed.

(** ** Handlers that queue a session are defined *)

Lemma length_omap_id {A} (l : list (option A)) : (length (omap id l) ≤ length l)%nat.
Proof. induction l as [|[x|] l IH]; cbn; lia. Qed.

Lemma pool_items st : pool st → ∃ refs ns, items (nodes st) = Some refs ∧
  Forall2 (λ r n, node_heap st !! r = Some n) refs ns ∧ Z.of_nat (length refs) ≤ INT_MAX.
Proof.
  intros [Hwf _ _ Hh]. pose proof (items_wf _ Hwf) as Hi. set (refs := omap id (PA.elems (nodes st))) in *.
  assert (is_Some (mapM (λ r, node_heap st !! r) refs)) as [ns Hns].
  { apply mapM_is_Some, Forall_forall. intros r Hr. apply elem_of_dom. unfold refs in Hr.
    apply list_elem_of_omap in Hr as (x & Hx & Er). cbn in Er. subst x. apply list_elem_of_lookup in Hx as [j Hj].
    apply (Hh (Z.of_nat j)); [lia|]. rewrite PA.get_item_slot by (done || lia). unfold PA.slot. by rewrite Nat2Z.id, Hj. }
  exists refs, ns. split_and!; [done|by apply mapM_Some|].
  pose proof (PA.wf_size _ Hwf). pose proof (PA.wf_max _ Hwf). pose proof (length_omap_id (PA.elems (nodes st))).
  unfold refs. lia.
Qed.

Lemma pool_defined_nodes st : pool st → is_Some (ck_int (PA.size (nodes st) - PA.number_free (nodes st))).
Proof.
  intros [Hwf _ _ _]. destruct Hwf as [Hs Hf _ _ Hm]. pose proof (PA.nulls_bounds (PA.elems (nodes st))).
  rewrite ck_int_Some by (unfold INT_MIN, INT_MAX in *; lia). by eexists.
Qed.

Lemma upd_alloc_defined st r f : allotted st r → is_Some (upd_alloc r f st).
Proof. intros [a Ha]. rewrite (upd_alloc_eq _ _ _ a) by done. by eexists. Qed.

Lemma append_defined i r st : r ∉ members st → append_session i r st = Some (upd_queue i (λ l, l ++ [r]) st).
Proof. intros Hr. unfold append_session. by rewrite on_a_list_members, bool_decide_eq_false_2. Qed.

Lemma upd_alloc_members r f st st' : upd_alloc r f st = Some st' → members st' = members st.
Proof.
  unfold upd_alloc. destruct (session_heap st !! r) as [s|]; [|done]. cbn. destruct (session_alloc s); [|done]. by intros [= <-].
Qed.

Lemma enqueue_defined name r st : allotted st r → r ∉ members st → is_Some (enqueue name r st).
Proof.
  intros Ha Hr. unfold enqueue. destruct (find_named _ _) as [i|]; [|by eexists].
  destruct (upd_alloc_defined st r (set_alloc_queues (Some name)) Ha) as [st1 E]. rewrite E. cbn [mbind option_bind].
  rewrite append_defined by by rewrite (upd_alloc_members _ _ _ _ E). by eexists.
Qed.

Lemma find_queue_defined r st : registered st → pool st → allotted st r → r ∉ members st → is_Some (fifo_find_queue r st).
Proof.
  intros Hreg Hp Ha Hr. unfold fifo_find_queue. pose proof Ha as [a Ea]. rewrite Ea. cbn [mbind option_bind].
  destruct (pool_defined_nodes st Hp) as [d Ed]. rewrite Ed. cbn [mbind option_bind].
  case_match; [|by apply enqueue_defined]. destruct (enqueue_defined (lit "hold") r st Ha Hr) as [st1 E]. rewrite E.
  cbn [mbind option_bind]. apply upd_alloc_defined. by apply (moves_enqueue _ _ _ _ Hreg E).
Qed.

Lemma schedule_loop_defined n i st : one_place st → (i + n ≤ length (queues st))%nat → is_Some (schedule_loop n i st).
Proof.
  revert i st. induction n as [|n IH]; intros i st Hop Hlen; cbn [schedule_loop]; [by eexists|].
  destruct (lookup_lt_is_Some_2 (queues st) i) as [q Hq]; [lia|]. rewrite Hq. cbn [mbind option_bind].
  case_bool_decide; [|apply IH; [done|lia]]. destruct (queue_sessions q) as [|s rest] eqn:Hs; [by eexists|].
  pose proof Hop as [Hreg Hnd Hal Hp]. set (st1 := upd_queue i (λ _, rest) st).
  destruct (pool_items st Hp) as (refs & ns & Hi & Hh & Hl). change (nodes st1) with (nodes st). rewrite Hi.
  cbn [mbind option_bind]. rewrite (count_free_spec refs ns) by (done || lia). cbn [mbind option_bind].
  assert (NoDup (members st)) as Hnm by (unfold owned in Hnd; by apply NoDup_app in Hnd as [? _]).
  assert (s ∈ owned st) as Hso by (rewrite <-(owned_pop i q s rest) by done; by left).
  rewrite Forall_forall in Hal. destruct (Hal s Hso) as [a Ha]. change (get_alloc st1 s) with (get_alloc st s). rewrite Ha.
  cbn [mbind option_bind].
  assert (∀ st2, moves [s] st1 st2 → length (queues st2) = length (queues st) → is_Some (schedule_loop n (S i) st2)) as Hnext.
  { intros st2 Hm El. apply IH; [|lia]. eapply one_place_moves; [done|]. by eapply moves_pop. }
  case_match; cbn [mbind option_bind].
  - rewrite act_req by by destruct Hreg. apply Hnext; [apply (moves_post_rm cb_rm_request)|]. cbn. apply length_alter.
  - pose proof (not_on_list_tail st i q s rest Hnm Hq Hs) as Hon. unfold prepend_session. fold st1 in Hon. rewrite Hon.
    cbn [mbind option_bind]. apply Hnext; [by apply moves_upd_queue|]. cbn. by rewrite !length_alter.
Qed.

(** The node list the resource manager gave the session has as many names as it asked for. *)
Definition granted (st : orcm_scd_base_t) (r : nat) : Prop := ∃ a rx names,
  get_alloc st r = Some a ∧ alloc_nodes a = Some rx ∧ rx ≠ lit "ERROR" ∧
  regex_extract (Some rx) = Some (OPAL_SUCCESS, names) ∧ Z.of_nat (length names) = min_nodes a.

Lemma mark_nodes_defined names v refs (heap : gmap nat orcm_node_t) :
  Forall (λ r, r ∈ dom heap) refs → is_Some (mark_nodes names v refs heap).
Proof.
  assert (∀ x h, Forall (λ r, r ∈ dom h) refs → is_Some (mark_named x v refs h)) as Hone.
  { intros x h Hr. revert h Hr. induction refs as [|r l IH]; intros h Hr; cbn [mark_named]; [by eexists|].
    apply Forall_cons in Hr as [[n Hn]%elem_of_dom Hr]. rewrite Hn. cbn [mbind option_bind]. apply IH.
    eapply Forall_impl; [exact Hr|]. intros y Hy. case_bool_decide; [|done]. rewrite dom_insert. set_solver. }
  revert heap. induction names as [|x names IH]; intros heap Hr; cbn [mark_nodes]; [by eexists|].
  destruct (Hone x heap Hr) as [h E]. rewrite E. cbn [mbind option_bind]. apply IH. by rewrite (mark_named_dom _ _ _ _ _ E).
Qed.

Lemma allocated_defined r st : registered st → pool st → granted st r → r ∉ members st → is_Some (fifo_allocated r st).
Proof.
  intros Hreg Hp (a & rx & names & Ha & Hn & Hrx & He & Hl) Hr. unfold fifo_allocated. rewrite Ha. cbn [mbind option_bind].
  assert (∃ st1 a1, put_on_running r st = Some st1 ∧ get_alloc st1 r = Some a1 ∧ alloc_nodes a1 = Some rx ∧
    min_nodes a1 = min_nodes a) as (st1 & a1 & E1 & Ha1 & Hn1 & Hm1).
  { unfold put_on_running. destruct (find_named _ _) as [i|]; [|by eexists _, a].
    rewrite (upd_alloc_eq _ _ _ a) by done. cbn [mbind option_bind]. rewrite append_defined by done.
    eexists _, (set_alloc_queues (Some (lit "running")) a). split; [done|]. split; [by apply get_alloc_upd|done]. }
  rewrite E1. cbn [mbind option_bind]. rewrite Ha1. cbn [mbind option_bind]. rewrite Hn1. cbn [mbind option_bind].
  rewrite bool_decide_eq_false_2 by done. rewrite He. cbn [mbind option_bind Z.eqb OPAL_SUCCESS negb].
  rewrite Hm1. destruct (Z.eqb_spec (Z.of_nat (length names)) (min_nodes a)) as [_|]; [|done]. cbn [negb].
  destruct (moves_put_on_running _ _ _ E1) as (Hmv & _ & _).
  rewrite act_active by by apply Hmv. set (st2 := post_rm cb_rm_active r st1).
  destruct (pool_items st2) as (refs & ns & Hi & Hh & _); [by apply (pool_same st1); [..|apply Hmv]|].
  rewrite Hi. cbn [mbind option_bind]. destruct (mark_nodes_defined names ORCM_SCD_NODE_STATE_ALLOC refs (node_heap st2)) as [h E].
  { clear -Hh. induction Hh; constructor; [|done]. apply elem_of_dom. by eexists. }
  rewrite E. by eexists.
Qed.

(** The events whose handlers put a session on a queue: a new session, a turn of
    the scheduler, and an allocation that was granted. *)
Definition queueing (st : orcm_scd_base_t) (e : event_t) : Prop :=
  match ev_cb e, ev_caddy e with
  | (cb_fifo_find_queue | cb_fifo_schedule), session_caddy _ => True
  | cb_fifo_allocated, session_caddy r => granted st r
  | _, _ => False
  end.

(** C2. In every state the scheduler reaches before a handler is undefined, whatever messages
    arrive and however the two threads interleave, a session object is in one place: on
    one queue, once, or in one event on its way to a queue.  The handlers that then put a session
    on a queue are defined: for a new session, for a session that goes back to the front of
    its queue, and for one whose nodes were granted, the insertion finds it on no list.  (An
    allocation that was not granted is put on the default queue while it may be on the
    running queue: the error path of [fifo_allocated], which is not among these.) *)
Theorem reachable_exclusive st : reachable st →
  NoDup (owned st) ∧
  ∀ e rest, next_event (scd_events st) = Some (e, rest) → queueing st e → is_Some (scd_turn st).
Proof.
  intros Hr. apply reachable_one_place in Hr as Hop. pose proof Hop as [Hreg Hnd Hal Hp]. split; [done|].
  intros e rest En Hq. unfold scd_turn. rewrite En. cbn [mbind option_bind].
  pose proof (carried_perm _ _ _ (next_event_perm _ _ _ En)) as Hc.
  set (st0 := set_scd_events rest st).
  assert (pool st0) as Hp0 by by apply (pool_same st).
  assert (registered st0) as Hreg0 by by destruct Hreg.
  assert (owned st ≡ₚ carried e ++ owned st0) as Ho.
  { unfold owned. change (members st0) with (members st). cbn [scd_events rm_events set_scd_events st0]. rewrite Hc.
    solve_Permutation. }
  rewrite Ho in Hnd, Hal. apply NoDup_app in Hnd as (_ & Hd & Hnd0). apply Forall_app in Hal as [Hac Hal0].
  assert (∀ r, r ∈ carried e → allotted st0 r ∧ r ∉ members st0) as Hcar.
  { intros r Hin. rewrite Forall_forall in Hac. split; [by apply (Hac r)|]. intros Hm. apply (Hd r Hin).
    unfold owned. apply elem_of_app. by left. }
  destruct e as [cb [r|config] prio], cb; cbn in Hq; try done; cbn [run_handler ev_cb ev_caddy].
  - apply find_queue_defined; [done|done|apply Hcar; by left..].
  - apply schedule_loop_defined; [|done]. by split.
  - apply allocated_defined; [done|done|exact Hq|apply Hcar; by left].
Qed.

End system.
End ScdSteps.
