(* ===== verification/ScdCases.v ===== *)
(** * The scheduler on concrete clusters

    The interfaces of the scheduler instantiated with the code they stand for (the
    node expressions of orte/util/regex.c, a transport that takes every message), the
    theorems on the handlers at concrete inputs, and runs of the two machines that
    show what happens when requests overlap. *)

From Stdlib Require Import ZArith Lia Ascii.
From stdpp Require Import prelude numbers strings gmap list.
From S2P Require Import Prelude PointerArray CString Argv Regex Dss Names Attr CfgiDt Alloc Scd ScdFifo ScdLemmas ScdSpec ScdRun ScdQueues RmRecv RmSpec ScdRecv RecvSpec ScdPower ScdSteps.

Local Open Scope Z_scope.

Module ScdCases.
Import Dss Names Attr Alloc Scd ScdFifo ScdLemmas ScdSpec ScdRun ScdQueues RmRecv RmSpec ScdRecv RecvSpec ScdPower ScdSteps.

(** ** Instances *)

#[export] Instance orte_regex : NodeRegex := {
  regex_create l := inr <$> Regex.orte_regex_create l;
  regex_extract := Regex.orte_regex_extract_node_names;
}.

Definition node_name_ok (n : cstring) : Prop := Regex.good_name n ∧ Regex.short n.

#[export] Instance orte_regex_laws : NodeRegexLaws node_name_ok.
Proof.
  split.
  - intros names Hne Hg. destruct (Regex.create_extract names Hne) as (r & names' & Hc & He & Hp).
    + eapply Forall_impl; [exact Hg|]. by intros ? [? _].
    + eapply Forall_impl; [exact Hg|]. by intros ? [_ ?].
    + exists r, names'. split_and!; [|done|done]. cbn. by rewrite Hc.
  - reflexivity.
Qed.

#[local] Instance all_sent : Rml := λ _ _, OPAL_SUCCESS.
#[local] Instance int_text : FloatText := {| printf_f := print_int; strtof := λ s, (strtol s).1 |}.

(** ** A cluster of four nodes, one of them taken *)

Definition sample_node (name : string) (vpid : Z) (v : Z) : orcm_node_t :=
  mk_node (lit name) (mk_name 0 vpid) ORCM_NODE_STATE_UP v None.

Definition sample_nodes : list orcm_node_t :=
  [sample_node "n1" 1 ORCM_SCD_NODE_STATE_UNALLOC; sample_node "n2" 2 ORCM_SCD_NODE_STATE_ALLOC;
   sample_node "n3" 3 ORCM_SCD_NODE_STATE_UNALLOC; sample_node "n4" 4 ORCM_SCD_NODE_STATE_UNALLOC].

(** A request for [n] nodes. *)
Definition request (id n : Z) : orcm_alloc_t :=
  mk_alloc id 0 None None 0 0 0 n 0 0 0 true 0 0 false (mk_name 0 0) (mk_name 0 0) None None
    None None None None None None None [].

Definition sample_session (id n : Z) (nodes : option cstring) : orcm_session_t :=
  mk_session id (Some (set_alloc_nodes nodes (request id n))).

(** Sessions 0 and 1 wait for two nodes each, session 2 runs on n2, session 3 has just
    arrived and asks for five. *)
Definition sample_sessions : list orcm_session_t :=
  [sample_session 11 2 None; sample_session 12 2 None; sample_session 10 1 (Some (lit "n2"));
   sample_session 13 5 None].

Definition sample : orcm_scd_base_t :=
  mk_scd (table fifo_states) (table rm_states)
    [mk_queue (lit "running") 0 [2%nat]; mk_queue (lit "hold") 0 []; mk_queue (lit "default") 0 [0; 1]%nat]
    (PA.mk_array 4 4 8 INT_MAX 8 (Some [Some 0; Some 1; Some 2; Some 3; None; None; None; None]%nat))
    (list_to_map (zip (seq 0 4) sample_nodes)) (PA.mk_array 0 1 1 INT_MAX 1 (Some [None])) ∅
    [mk_tracker 10 0] (list_to_map (zip (seq 0 4) sample_sessions)) 13 [] [] [].

Lemma sample_registered : registered sample.
Proof. by split. Qed.

Lemma sample_cluster : cluster sample (seq 0 4) sample_nodes.
Proof.
  split; [done| | |].
  - repeat (apply Forall2_cons_2; [reflexivity|]). apply Forall2_nil_2.
  - apply NoDup_seq.
  - by apply (bool_decide_eq_true_1 _).
Qed.

Lemma sample_nodes_wf : PA.wf (nodes sample).
Proof.
  split; try (vm_compute; intuition congruence).
  split; [|by right]. intros [|[|[|[|j]]]] Hj; try by eexists. vm_compute in Hj. lia.
Qed.

Lemma sample_default : default_at sample 2 (mk_queue (lit "default") 0 [0; 1]%nat).
Proof. split_and!; [done|done|]. by intros [|[|[|j]]] p [= <-] E. Qed.

Lemma sample_members : NoDup (members sample).
Proof. by apply (bool_decide_eq_true_1 _). Qed.

Lemma sample_free : Forall node_name_ok (free_names sample_nodes).
Proof.
  change (free_names sample_nodes) with (lit <$> ["n1"; "n3"; "n4"]). cbn [fmap list_fmap].
  repeat (apply Forall_cons_2; [split; [by apply Regex.good_nameb_good|by vm_compute]|]). apply Forall_nil_2.
Qed.

(** ** The theorems at this cluster *)

Lemma fifo_schedule_witness :
  fifo_schedule 0 sample = Some (post_rm cb_rm_request 0 (upd_queue 2 (λ _, [1%nat]) sample)).
Proof.
  exact (fifo_schedule_spec sample (seq 0 4) sample_nodes 2 (mk_queue (lit "default") 0 [0; 1]%nat) 0
           sample_registered sample_cluster ltac:(done) sample_default sample_members
           (request 11 2) eq_refl).
Defined.

Lemma fifo_find_queue_witness :
  fifo_find_queue 3 sample =
  Some (alloc_upd 3 (λ a, set_notes (exceeds_note (notes a)) a)
          (post_scd cb_fifo_schedule 3
             (upd_queue 1 (λ l, l ++ [3%nat]) (alloc_upd 3 (set_alloc_queues (Some (lit "hold"))) sample)))).
Proof.
  refine (proj2 (fifo_find_queue_spec sample 3 (request 13 5) 2 1
                   sample_registered eq_refl _ _ eq_refl eq_refl)).
  - by apply (bool_decide_eq_true_1 _).
  - exact sample_nodes_wf.
Defined.

Lemma scd_base_rm_request_witness :
  ∃ rx names, scd_base_rm_request 0 sample =
      Some (post_scd cb_fifo_allocated 0 (alloc_upd 0 (set_alloc_nodes (Some rx)) sample)) ∧
    Regex.orte_regex_extract_node_names (Some rx) = Some (OPAL_SUCCESS, names) ∧ names ≡ₚ lit <$> ["n1"; "n3"].
Proof.
  exact (scd_base_rm_request_spec node_name_ok sample (seq 0 4) sample_nodes 0
           (request 11 2) sample_registered sample_cluster eq_refl eq_refl sample_free).
Defined.

(** The session at the head of the queue with the nodes chosen for it. *)
Definition chosen : orcm_scd_base_t :=
  alloc_upd 0 (set_alloc_nodes (Some (lit "n[1:1,3]"))) (upd_queue 2 (λ _, [1%nat]) sample).

Lemma chosen_cluster : cluster chosen (seq 0 4) sample_nodes.
Proof. by apply (cluster_same sample), sample_cluster. Qed.

Lemma fifo_allocated_witness :
  ∃ heap, fifo_allocated 0 chosen =
      Some (set_node_heap heap (post_rm cb_rm_active 0 (moved_to "running" 0 0 chosen))) ∧
    ∀ x, heap !! x = marked (seq 0 4) (lit <$> ["n1"; "n3"]) ORCM_SCD_NODE_STATE_ALLOC x <$> node_heap chosen !! x.
Proof.
  apply (fifo_allocated_spec chosen (seq 0 4) sample_nodes 0
           (set_alloc_nodes (Some (lit "n[1:1,3]")) (request 11 2)) 0 (lit "n[1:1,3]") (lit <$> ["n1"; "n3"])).
  - by split.
  - exact chosen_cluster.
  - reflexivity.
  - by apply (bool_decide_eq_true_1 _).
  - reflexivity.
  - reflexivity.
  - done.
  - reflexivity.
  - reflexivity.
Defined.

Lemma fifo_terminated_witness :
  ∃ heap, fifo_terminated 2 sample =
      Some (post_scd cb_fifo_schedule 2
              (upd_queue 0 (filter (λ x, session_id <$> session_heap sample !! x ≠ Some 10))
                 (set_node_heap heap sample))) ∧
    ∀ x, heap !! x = marked (seq 0 4) [lit "n2"] ORCM_SCD_NODE_STATE_UNALLOC x <$> node_heap sample !! x.
Proof.
  apply (fifo_terminated_spec sample (seq 0 4) sample_nodes 2
           (sample_session 10 1 (Some (lit "n2"))) (set_alloc_nodes (Some (lit "n2")) (request 10 1)) 0
           (mk_queue (lit "running") 0 [2%nat]) [lit "n2"]).
  - exact sample_registered.
  - exact sample_cluster.
  - reflexivity.
  - reflexivity.
  - reflexivity.
  - reflexivity.
  - reflexivity.
  - apply Forall_cons_2; [by eexists|apply Forall_nil_2].
Defined.

(** Closes a goal that a concrete allocation is valid. *)
Ltac solve_valid := split; try exact I; try (unfold valid_name, in_s, in_u; simpl; lia);
  try (split; [done|forall_list]); try apply Forall_nil_2; done.

Lemma scd_base_rm_active_witness :
  ∃ buf, reads buf ORCM_LAUNCH_STEPD_COMMAND
           (set_hnp (mk_name 0 1) (set_hnpname (Some (lit "n1")) (set_alloc_nodes (Some (lit "n[1:1,3]")) (request 11 2)))) ∧
    sent <$> scd_base_rm_active 0 chosen =
    Some [mk_msg (mk_name 0 1) ORCM_RML_TAG_RM buf; mk_msg (mk_name 0 3) ORCM_RML_TAG_RM buf].
Proof.
  destruct (scd_base_rm_active_spec chosen (seq 0 4) sample_nodes 0 (sample_session 11 2 (Some (lit "n[1:1,3]")))
              (set_alloc_nodes (Some (lit "n[1:1,3]")) (request 11 2))
              (sample_node "n1" 1 ORCM_SCD_NODE_STATE_UNALLOC) [sample_node "n3" 3 ORCM_SCD_NODE_STATE_UNALLOC])
    as (buf & Hr & ->).
  - done.
  - exact chosen_cluster.
  - reflexivity.
  - reflexivity.
  - reflexivity.
  - reflexivity.
  - apply Forall_cons_2; [by left|]. apply Forall_cons_2; [by right; right; left|apply Forall_nil_2].
  - solve_valid.
  - exists buf. split; [exact Hr|reflexivity].
Defined.

Lemma scd_base_rm_kill_witness :
  ∃ buf, reads buf ORCM_CANCEL_STEPD_COMMAND (set_alloc_nodes (Some (lit "n2")) (request 10 1)) ∧
    scd_base_rm_kill 2 sample = Some (set_sent [mk_msg (mk_name 0 2) ORCM_RML_TAG_RM buf] sample).
Proof.
  destruct (scd_base_rm_kill_spec sample (seq 0 4) sample_nodes 2 (set_alloc_nodes (Some (lit "n2")) (request 10 1))
              [sample_node "n2" 2 ORCM_SCD_NODE_STATE_ALLOC]) as (buf & Hr & ->).
  - done.
  - exact sample_cluster.
  - reflexivity.
  - solve_valid.
  - done.
  - reflexivity.
  - reflexivity.
  - apply Forall_cons_2; [by right; left|apply Forall_nil_2].
  - exists buf. split; [exact Hr|reflexivity].
Defined.

(** The cluster with the scheduler about to run. *)
Definition ready : orcm_scd_base_t := post_scd cb_fifo_schedule 0 sample.

Lemma schedule_to_running_witness :
  ∃ st1 st2 st3, scd_turn ready = Some st1 ∧ rm_turn st1 = Some st2 ∧ scd_turn st2 = Some st3 ∧
    queue_sessions <$> queues st3 = [[2; 0]; []; [1]]%nat.
Proof.
  destruct (schedule_to_running node_name_ok ready (seq 0 4) sample_nodes 2 (mk_queue (lit "default") 0 [0; 1]%nat)
              0 0 0 [1%nat] (request 11 2)) as (st1 & st2 & st3 & rx & names & E1 & E2 & E3 & Eq & _).
  - by split.
  - by apply (cluster_same sample), sample_cluster.
  - done.
  - exact sample_default.
  - exact sample_members.
  - done.
  - done.
  - done.
  - done.
  - exact sample_free.
  - by apply (bool_decide_eq_true_1 _).
  - done.
  - done.
  - exists st1, st2, st3. split_and!; [done..|]. by rewrite Eq.
Defined.

(** The same cluster with a request for no nodes at the head of the queue. *)
Definition ready_empty : orcm_scd_base_t :=
  set_session_heap (<[0%nat := sample_session 11 0 None]> (session_heap sample)) ready.

Lemma empty_request_lost_witness :
  ∃ st1 st2, scd_turn ready_empty = Some st1 ∧ rm_turn st1 = Some st2 ∧ 0%nat ∉ members st2.
Proof.
  destruct (empty_request_lost ready_empty (seq 0 4) sample_nodes 2 (mk_queue (lit "default") 0 [0; 1]%nat)
              0 0 [1%nat] (request 11 0)) as (st1 & st2 & E1 & E2 & Hm & _).
  - by split.
  - by apply (cluster_same sample), sample_cluster.
  - done.
  - exact sample_default.
  - exact sample_members.
  - done.
  - done.
  - done.
  - done.
  - done.
  - exists st1, st2. exact (conj E1 (conj E2 Hm)).
Defined.

Lemma scheduled_gives_back_witness :
  ∃ st1 st2 st3 st4, scd_turn ready = Some st1 ∧ rm_turn st1 = Some st2 ∧ scd_turn st2 = Some st3 ∧
    fifo_terminated 0 st3 = Some st4 ∧ node_heap st4 = node_heap ready.
Proof.
  destruct (scheduled_gives_back node_name_ok ready (seq 0 4) sample_nodes 2 (mk_queue (lit "default") 0 [0; 1]%nat)
              0 (mk_queue (lit "running") 0 [2%nat]) 0 0 [1%nat] (request 11 2) (sample_session 11 2 None))
    as (st1 & st2 & st3 & st4 & E1 & E2 & E3 & E4 & Eh & _).
  - by split.
  - by apply (cluster_same sample), sample_cluster.
  - done.
  - exact sample_default.
  - exact sample_members.
  - done.
  - done.
  - done.
  - done.
  - done.
  - apply Forall_cons_2; [by eexists|apply Forall_nil_2].
  - done.
  - exact sample_free.
  - by apply (bool_decide_eq_true_1 _).
  - done.
  - done.
  - by exists st1, st2, st3, st4.
Defined.

(** A request to cancel session 12, which waits. *)
Definition cancelling : orcm_scd_base_t :=
  set_session_heap (<[4%nat := mk_session 12 None]> (session_heap sample)) sample.

Lemma fifo_cancel_witness :
  fifo_cancel 4 cancelling = Some (post_scd cb_fifo_schedule 4 (upd_queue 2 (filter (λ x, x ≠ 1%nat)) cancelling)).
Proof.
  refine (fifo_cancel_spec cancelling 4 (mk_session 12 None) (Some 1%nat) _ sample_members eq_refl _ 2%nat
            (mk_queue (lit "default") 0 [0; 1]%nat) eq_refl _).
  - by split.
  - unfold only_id. change (members cancelling) with [2; 0; 1]%nat.
    repeat (apply Forall_cons_2; [eexists; split; [reflexivity|done]|]). apply Forall_nil_2.
  - by right; left.
Defined.

(** Session 0 with no nodes, while session 2 runs. *)
Definition failing : orcm_scd_base_t :=
  alloc_upd 0 (set_alloc_nodes (Some (lit "ERROR"))) (upd_queue 2 (λ _, [1%nat]) sample).

Lemma fifo_allocated_failed_witness : fifo_allocated 0 failing = None.
Proof.
  apply (fifo_allocated_failed failing 0 (set_alloc_nodes (Some (lit "ERROR")) (request 11 2)) 0 2
           (mk_queue (lit "running") 0 [2%nat])).
  - by split.
  - reflexivity.
  - by apply (bool_decide_eq_true_1 _).
  - reflexivity.
  - reflexivity.
  - reflexivity.
  - reflexivity.
Defined.

Lemma sample_daemons : NoDup (daemon <$> sample_nodes).
Proof. by apply (bool_decide_eq_true_1 _). Qed.

Lemma update_nodestate_byproc_witness :
  ∃ heap, update_nodestate_byproc ORCM_NODE_STATE_DOWN [mk_name 0 3] None sample = Some (set_node_heap heap sample, ORCM_SUCCESS).
Proof.
  destruct (update_nodestate_byproc_spec sample (seq 0 4) sample_nodes ORCM_NODE_STATE_DOWN [mk_name 0 3] None
              sample_cluster sample_daemons) as (heap & rc & E & _ & Hrc).
  exists heap. rewrite E. do 2 f_equal. apply Hrc. right. right. left. by left.
Defined.

Lemma update_nodestate_byname_witness :
  ∃ heap, update_nodestate_byname ORCM_NODE_STATE_DRAIN (Some (lit "n[1:3-4]")) None sample =
          Some (set_node_heap heap sample, ORCM_SUCCESS).
Proof.
  destruct (update_nodestate_byname_spec sample (seq 0 4) sample_nodes ORCM_NODE_STATE_DRAIN (Some (lit "n[1:3-4]"))
              OPAL_SUCCESS (lit <$> ["n3"; "n4"]) None sample_cluster)
    as (heap & rc & E & _ & Hrc); [reflexivity|].
  exists heap. rewrite E. do 2 f_equal. apply Hrc. right. right. left. by left.
Defined.

(** A transport of topologies for the witnesses: none is ever new. *)
#[local] Instance one_topology : Hwloc := {| topo_unpack b := Some (b, inr 0); topo_equal _ _ := true |}.

(** The one report session 2 waits for. *)
Lemma stepd_complete_counts_witness :
  ∃ buf, recv_all [] [(mk_name 0 2, buf)] sample =
    Some (terminated_state (set_alloc_nodes (Some (lit "n2")) (request 10 1)) [] sample).
Proof.
  destruct (pack_command_spec ORCM_STEPD_COMPLETE_COMMAND (set_alloc_nodes (Some (lit "n2")) (request 10 1)))
    as (buf & _ & Hr); [by unfold in_u|solve_valid|].
  exists buf.
  apply (stepd_complete_counts [] sample (set_alloc_nodes (Some (lit "n2")) (request 10 1)) [] [] 0 [(mk_name 0 2, buf)]).
  - exact sample_registered.
  - apply Forall_cons_2; [exact Hr|apply Forall_nil_2].
  - reflexivity.
  - by intros ?%not_elem_of_nil.
  - done.
  - done.
Defined.

(** A scheduler that has one topology. *)
Definition with_topology : orcm_scd_base_t :=
  set_topologies (PA.mk_array 1 0 1 INT_MAX 1 (Some [Some 0%nat])) (set_topo_heap {[0%nat := 0]} sample).

Definition up_message : opal_buffer_t :=
  match (_ ← opal_dss_pack t_name [mk_name 0 3]; opal_dss_pack t_bool [true]) (mk_buf false [] 0 0) with
  | Some (b, _) => b
  | None => mk_buf false [] 0 0
  end.

Lemma node_up_topology_lost_witness :
  ∃ st' n' t, node_up up_message with_topology = Some st' ∧ node_heap st' !! 2%nat = Some n' ∧
    node_topology n' = Some t ∧ topo_heap st' !! t = None.
Proof.
  edestruct (node_up_topology_lost with_topology (seq 0 4) sample_nodes [0%nat] up_message)
    as (st' & n' & t & E & En & _ & Et & Eh & _).
  - by apply (cluster_same sample), sample_cluster.
  - exact sample_daemons.
  - vm_compute. reflexivity.
  - vm_compute. reflexivity.
  - reflexivity.
  - by right; right; left.
  - reflexivity.
  - reflexivity.
  - reflexivity.
  - reflexivity.
  - exists st', n', t. exact (conj E (conj En (conj Et Eh))).
Defined.

(** *** Requests *)

#[local] Instance accepting : PwrMgmt := λ a, (a, ORCM_SUCCESS).

Definition no_power : power_t := mk_power (-1) 0 10 0 0 0 0 0 true.

(** A message with an allocation. *)
Lemma alloc_message a : valid_alloc a → ∃ buf b, unpack1 t_alloc buf = Some (b, inr (received_alloc a)).
Proof.
  intros Ha. destruct (pack_command_spec 0 a) as (buf & _ & b1 & b2 & _ & E); [by unfold in_u|done|].
  exists b1, b2. unfold unpack1. by rewrite E.
Qed.

Lemma session_request_witness :
  ∃ buf st', session_request no_power 0 (mk_name 1 0) buf sample = Some st' ∧ scd_events st' = [ev cb_fifo_find_queue 4].
Proof.
  destruct (alloc_message (request 0 2)) as (buf & b & Eb); [solve_valid|].
  destruct (session_request_spec no_power 0 (mk_name 1 0) buf b sample (request 0 2) (-1)
              (set_constraints (power_attrs no_power (-1)) (request 14 2)))
    as (ans & b' & _ & E).
  - exact sample_registered.
  - exact sample_nodes_wf.
  - done.
  - exact Eb.
  - apply NoDup_nil_2.
  - apply Forall_nil_2.
  - reflexivity.
  - reflexivity.
  - exists buf. eexists. split; [exact E|]. reflexivity.
Defined.

Definition with_mode : orcm_alloc_t :=
  set_constraints [mk_attr ORCM_PWRMGMT_POWER_MODE_KEY true OPAL_INT (D_num 1)] (request 0 2).

Lemma session_request_dropped_witness :
  ∃ buf st', session_request no_power 0 (mk_name 1 0) buf sample = Some st' ∧ sent st' = sent sample.
Proof.
  destruct (alloc_message with_mode) as (buf & b & Eb).
  { split; try exact I; try (unfold valid_name, in_s, in_u; simpl; lia); [|done].
    apply Forall_cons_2; [|apply Forall_nil_2]. unfold valid_attr, valid_data, in_u. simpl. split_and!; (lia || done). }
  edestruct (session_request_dropped no_power 0 (mk_name 1 0) buf b sample with_mode (-1)) as (st' & E & Es & _).
  - exact sample_nodes_wf.
  - exact Eb.
  - reflexivity.
  - reflexivity.
  - done.
  - exists buf, st'. exact (conj E Es).
Defined.

Lemma reachable_exclusive_witness :
  ∃ buf st, orcm_scd_base_recv (λ _, CfgiDt.cfg_cons) (mk_name 0 9) 0 (mk_name 1 0) buf
      (no_power, (fifo_init orcm_scd_base_open).1) = Some (no_power, st) ∧
    scd_events st = [ev cb_fifo_find_queue 0] ∧ is_Some (scd_turn st).
Proof.
  destruct (pack_command_spec ORCM_SESSION_REQ_COMMAND (request 0 2)) as (buf & _ & b1 & b2 & E1 & E2); [by unfold in_u|solve_valid|].
  destruct (session_request_run no_power 0 (mk_name 1 0) b1 b2 (fifo_init orcm_scd_base_open).1 (request 0 2) (-1)
              (set_constraints (power_attrs no_power (-1)) (request 1 2)))
    as (ans & b' & _ & E); try reflexivity; try done.
  { split; try (vm_compute; intuition congruence). split; [|by right]. intros j Hj. vm_compute in Hj. lia. }
  { unfold unpack1. by rewrite E2. }
  { apply NoDup_nil_2. }
  eassert (orcm_scd_base_recv (λ _, CfgiDt.cfg_cons) (mk_name 0 9) 0 (mk_name 1 0) buf
      (no_power, (fifo_init orcm_scd_base_open).1) = Some (no_power, _)) as Er.
  { unfold orcm_scd_base_recv, received, unpack1. rewrite E1. cbn [Z.eqb OPAL_SUCCESS].
    change (_ =? ORCM_SESSION_REQ_COMMAND) with true. cbn iota. cbn [fst snd]. rewrite E. reflexivity. }
  exists buf. eexists. split; [exact Er|]. split; [reflexivity|].
  exact (proj2 (reachable_exclusive _ (reach_step _ _ reach_init (step_recv _ _ _ _ _ _ _ _ _ Er))) (ev cb_fifo_find_queue 0) [] eq_refl I).
Defined.

(** ** Requests that overlap *)

(** Turns of the scheduler's thread ([true]) and of the main thread. *)
Fixpoint turns (l : list bool) (st : orcm_scd_base_t) : option orcm_scd_base_t :=
  match l with
  | [] => Some st
  | true :: l => st ← scd_turn st; turns l st
  | false :: l => st ← rm_turn st; turns l st
  end.

(** Two sessions of two nodes each arrive on a cluster with three free nodes. *)
Definition arriving : orcm_scd_base_t :=
  set_scd_events [ev cb_fifo_find_queue 0; ev cb_fifo_find_queue 1] (upd_queue 2 (λ _, []) sample).

Definition nodes_of (st : orcm_scd_base_t) (r : nat) : option (option cstring) := alloc_nodes <$> get_alloc st r.

(** A session's nodes are only marked when the scheduler hears of them, so a second
    request can be served in between.  Two sessions that arrive together on a cluster
    that can serve one of them, each thread taking its events in order: if both node
    lists are made before the first is marked, the two sessions run on the same nodes;
    if the first is marked in between, the resource manager finds too few nodes for the
    second, leaves it without a list, and the scheduler reads a NULL pointer. *)
Theorem overlapping_requests :
  (∃ st, turns [true; true; true; true; false; false; true; true] arriving = Some st ∧
     queue_sessions <$> queues st = [[2; 0; 1]; []; []]%nat ∧
     nodes_of st 0 = Some (Some (lit "n[1:1,3]")) ∧ nodes_of st 1 = Some (Some (lit "n[1:1,3]"))) ∧
  (∃ st, turns [true; true; true; true; false; true; false] arriving = Some st ∧
     scd_events st = [ev cb_fifo_allocated 1] ∧ nodes_of st 1 = Some None ∧ scd_turn st = None).
Proof. split; (eexists; split; [vm_compute; reflexivity|]; vm_compute; done). Qed.

End ScdCases.
