(* ===== verification/OctlCases.v ===== *)
(** * The tools on a concrete cluster

    The theorems on the exchange between octl and the scheduler at the cluster of
    [ScdCases]: four nodes, a running session and two that wait. *)

From Stdlib Require Import ZArith Lia Ascii.
From stdpp Require Import prelude numbers strings gmap list.
From S2P Require Import Prelude PointerArray CString Argv Regex Dss Names Fields Attr CfgiDt CfgiSpec CfgiBase Alloc Scd ScdFifo ScdLemmas ScdSpec ScdRun RmRecv ScdRecv RecvSpec ScdPower Octl OctlSpec OctlLists Pwrmgmt PwrSpec ScdCases.

Local Open Scope Z_scope.

Module OctlCases.
Import Dss Names Attr Alloc Scd ScdFifo RmRecv ScdRecv ScdPower Octl OctlSpec OctlLists ScdCases.

#[local] Instance always : Rml := λ _ _, OPAL_SUCCESS.
#[local] Instance digits : FloatText := {| printf_f := print_int; strtof := λ s, (strtol s).1 |}.
#[local] Instance manual_power : PwrMgmt := PwrSpec.base_pwrmgmt [Some (Pwrmgmt.manualfreq 10)].

Definition plain (r : nat) : CfgiDt.orcm_config_t := CfgiDt.cfg_cons.
Definition tool : opal_process_name_t := mk_name 77 0.
Definition sched : opal_process_name_t := mk_name 0 9.
Definition here : world := (mk_power (-1) 0 0 0 0 0 0 0 false, sample).

Abbreviation link := (deliver plain sched 0 tool).

Lemma link_sends : ∀ l m, rml_send_rc l m = OPAL_SUCCESS.
Proof. done. Qed.

Definition words (l : list string) : list cstring := lit <$> l.


Lemma session_power_undefined_witness :
  orcm_octl_session_set link (set_command MODE) (words ["session"; "set"; "mode"; "10"; "MANUAL_FREQ"]) here = None ∧
  orcm_octl_session_get link (get_command MODE) (words ["session"; "set"; "mode"; "10"]) here = None.
Proof.
  apply (session_power_undefined plain sched 0 tool MODE (lit "session") (lit "set") (lit "mode") (lit "10") (lit "MANUAL_FREQ") (D_num 1)).
  - unfold in_u. vm_compute. intuition congruence.
  - reflexivity.
  - done.
Defined.

(** Session 10 is running: the part after the identifier tells the resource manager. *)
Lemma set_session_item_witness :
  ∃ b w' rmbuf ans, set_session_item sched tool (Some MODE) 10 b here = Some w' ∧
    sent w'.2 = [mk_msg sched ORCM_RML_TAG_RM rmbuf; mk_msg tool ORCM_RML_TAG_SCD ans].
Proof.
  destruct (meets_param false MODE (D_num 1)) as (z & Pz & Uz); [done|].
  destruct (packed (pack_param (D_num 1)) z Pz) as (b & _ & Hb).
  destruct (set_session_item_spec sched tool link_sends MODE (D_num 1) here 10 (lit "running") 2 (set_alloc_nodes (Some (lit "n2")) (request 10 1)) z b)
    as (w' & alloc' & l & ans & E & _ & _ & _ & _ & _ & _ & Ht & Es).
  - done.
  - split; [reflexivity|reflexivity|apply Forall_nil_2|solve_valid|done].
  - intros _. apply PwrSpec.manual_keeps.
  - exact Uz.
  - exact Hb.
  - destruct Ht as (rmbuf & -> & _). exists b, w', rmbuf, ans. exact (conj E Es).
Defined.

Lemma queue_status_witness :
  ∃ w', orcm_octl_queue_status link here =
    Some (w', inr [(Some (lit "running"), 1, [set_alloc_nodes (Some (lit "n2")) (request 10 1)]);
                   (Some (lit "hold"), 0, []); (Some (lit "default"), 2, [request 11 2; request 12 2])]).
Proof.
  destruct (queue_status_spec plain sched 0 tool link_sends here) as (w' & E & _); [|done|by exists w'].
  repeat (apply Forall_cons_2; [split; [split; [done|forall_list]|split; [done|]]|]); [| | |apply Forall_nil_2].
  all: repeat (apply Forall_cons_2; [eexists; split; [reflexivity|solve_valid]|]); apply Forall_nil_2.
Defined.

Lemma resource_status_witness :
  ∃ w' lines, orcm_octl_resource_status link here = Some (w', inr (4, lines)) ∧
    ∀ k, k ∈ line_states <$> lines ↔ k ∈ [(2, 2); (3, 2); (2, 2); (2, 2)].
Proof.
  destruct (resource_status_spec plain sched 0 tool link_sends here
    ((λ n, CfgiDt.mk_node (Some (node_name n)) None (daemon n) CfgiDt.cfg_cons (node_state n) (scd_state n) 0 None) <$> sample_nodes))
    as (w' & lines & E & _ & _ & Hk & _).
  - exact sample_nodes_wf.
  - exists (seq 0 4). split_and!; [reflexivity| |reflexivity].
    repeat (apply Forall2_cons_2; [reflexivity|]). apply Forall2_nil_2.
  - done.
  - repeat (apply Forall_cons_2; [split; try done; (split; [done|forall_list]) || (split; [forall_list|done])|]). apply Forall_nil_2.
  - repeat (apply Forall_cons_2; [eexists; split; [reflexivity|split; [by apply Regex.good_nameb_good|by vm_compute]]|]).
    apply Forall_nil_2.
  - exists w', lines. exact (conj E Hk).
Defined.

End OctlCases.

(** * Power management on a concrete cluster

    The theorems on the choice of a module and on the message to the daemons at concrete
    inputs, and the scheduler's settings with the manual frequency module in place of the
    interface. *)

Module PwrCases.
Import Dss Names Attr Alloc Scd ScdFifo RmRecv ScdRecv ScdPower Octl OctlSpec Pwrmgmt PwrSpec ScdCases.

#[local] Instance reliable : Rml := λ _ _, OPAL_SUCCESS.
#[local] Instance decimal : FloatText := {| printf_f := print_int; strtof := λ s, (strtol s).1 |}.

(** A session on n1, n2 and n3, whose head daemon is that of n2, with manual frequencies. *)
Definition manual_session : orcm_alloc_t :=
  set_constraints [mk_attr ORCM_PWRMGMT_POWER_MODE_KEY false OPAL_INT32 (D_num ORCM_PWRMGMT_MODE_MANUAL_FREQ)]
    (set_hnp (mk_name 0 2) (set_alloc_nodes (Some (lit "n[1:1-3]")) (request 5 3))).

Definition stub (p : Z) (rc : Z) : active_module_t := mk_module p None (Some (λ _ _, rc)) None false false.

(** Three modules: the first does not accept, the last has the highest priority of those
    that do. *)
Definition sample_modules : list (option active_module_t) := [Some (stub 50 OPAL_ERROR); Some (manualfreq 10); None; Some (stub 20 OPAL_SUCCESS)].

Lemma alloc_notify_selects_witness :
  ∃ s' alloc' rc, orcm_pwrmgmt_base_alloc_notify false sample_modules manual_session (mk_pwr (Some 1%nat) (Some 1%nat) []) =
    Some (s', alloc', rc) ∧ table s' = selected_module s' ∧ selected_module s' = Some 3%nat.
Proof.
  destruct (alloc_notify_selects false sample_modules manual_session (mk_pwr (Some 1%nat) (Some 1%nat) []) ORCM_PWRMGMT_MODE_MANUAL_FREQ)
    as (s' & alloc' & rc & E & _ & Hb & _ & _ & _ & Ht & _).
  - intros i [= <-]. by eexists.
  - done.
  - reflexivity.
  - exists s', alloc', rc. assert (selected_module s' = Some 3%nat) as E3 by (vm_compute in E; injection E as <- <- <-; reflexivity).
    split; [exact E|]. split; [|exact E3]. apply Ht; [done|done|]. by rewrite E3.
Defined.

Definition sample_config : list CfgiDt.orcm_cluster_t :=
  [CfgiDt.mk_cluster None CfgiDt.nd_con [CfgiDt.mk_row None None CfgiDt.nd_con [CfgiDt.mk_rack None None CfgiDt.nd_con
    ((λ '(n, v), CfgiDt.mk_node (Some (lit n)) None (mk_name 0 v) CfgiDt.cfg_cons 2 1 0 None) <$>
       [("n1"%string, 1); ("n2"%string, 2); ("n3"%string, 3)])]]].

(** The message in which the scheduler has the mode changed. *)
Definition setting : opal_buffer_t :=
  match pack_command ORCM_SET_POWER_COMMAND manual_session with
  | Some (inr b) => b
  | _ => mk_buf false [] 0 0
  end.

Lemma manual_session_valid : valid_alloc (received_alloc manual_session).
Proof.
  split; try exact I; try (unfold valid_name, in_s, in_u; simpl; lia); try (split; [done|forall_list]); try done.
  apply Forall_cons_2; [|apply Forall_nil_2]. split_and!; done.
Qed.

Definition after_command : opal_buffer_t := match unpack1 t_uint8 setting with Some (b, _) => b | None => setting end.
Definition after_alloc : opal_buffer_t := match unpack1 t_alloc after_command with Some (b, _) => b | None => setting end.

Definition daemon_idle : daemon_t := mk_daemon (mk_pwr None None []) [].

(** The daemon of n3 is told, that of n1 is not. *)
Lemma power_reaches_greater_witness :
  ∃ d' ans, orcm_pwrmgmt_base_recv sample_config sample_modules (mk_name 0 2) setting daemon_idle = Some d' ∧
    dm_sent d' = [mk_msg (mk_name 0 3) ORCM_RML_TAG_PWRMGMT_BASE ans].
Proof.
  destruct (power_reaches_greater sample_config sample_modules (mk_name 0 2) (λ _ _, eq_refl) setting after_command after_alloc
    (received_alloc manual_session) [lit "n1"; lit "n2"; lit "n3"] [mk_name 0 1; mk_name 0 2; mk_name 0 3] 0 daemon_idle
    (mk_pwr (Some 3%nat) (Some 3%nat) []) (received_alloc manual_session) ORCM_SUCCESS) as (ans & _ & E).
  - vm_compute. reflexivity.
  - vm_compute. reflexivity.
  - exact manual_session_valid.
  - reflexivity.
  - vm_compute. reflexivity.
  - done.
  - repeat (apply Forall2_cons_2; [vm_compute; reflexivity|]). apply Forall2_nil_2.
  - vm_compute. reflexivity.
  - eexists _, ans. split; [exact E|]. reflexivity.
Defined.

End PwrCases.
