(* ===== verification/Routed.v ===== *)
(** * Routing of messages (orte/mca/routed/radix, orte/mca/routed/base, orte_globals.c)

    Each daemon knows its parent and its children in a tree of a given radix over the
    ranks of the daemons, with the ranks below each child, and sends a message to the
    neighbour on the way to the daemon of its target.  Routes to other job families
    are kept in a table. *)

From Stdlib Require Import ZArith Lia Ascii.
From stdpp Require Import prelude numbers strings gmap list.
From S2P Require Import Prelude PointerArray CString Dss Names Bitmap.

Local Open Scope Z_scope.

Module Routed.
Import Dss Names PA BM.

Definition ORTE_SUCCESS : Z := OPAL_SUCCESS.
Definition ORTE_ERR_BAD_PARAM : Z := OPAL_ERR_BAD_PARAM.
Definition ORTE_ERR_FATAL : Z := -6.

Definition ORTE_PROC_DAEMON : Z := 2.
Definition ORTE_PROC_HNP : Z := 4.
Definition ORTE_PROC_TOOL : Z := 8.
Definition ORTE_PROC_APP : Z := 48.

Record orte_routed_tree_t := mk_tree { tree_vpid : Z; relatives : opal_bitmap_t }.
Record orte_routed_jobfam_t := mk_jobfam { job_family : Z; route : opal_process_name_t; hnp_uri : option (list ascii) }.

(** ** The processes known to this one (orte_globals.h) *)

Record orte_node_t := mk_onode { node_daemon : option opal_process_name_t }.
Record orte_proc_t := mk_proc { proc_name : opal_process_name_t; proc_node : option orte_node_t; proc_flags : Z }.
Record orte_job_t := mk_job { procs : opal_pointer_array_t orte_proc_t }.

(** What the module reads: [orte_process_info], the job data and the parameters. *)
Record env_t := mk_env {
  my_name : opal_process_name_t;
  my_daemon : opal_process_name_t;
  my_hnp : opal_process_name_t;
  proc_type : Z;
  num_procs : Z;
  orte_job_data : option (opal_pointer_array_t orte_job_t);
  orte_routing_is_enabled : bool;
  orte_static_ports : bool;
  orte_finalizing : bool;
  orte_abnormal_term_ordered : bool;
  radix : Z;
  max_connections : Z;
}.

(** [lifeline] points to one of these names. *)
Inductive lifeline_t := at_parent | at_hnp | at_daemon | at_local.

(** What the module keeps. *)
Record routed_t := mk_routed {
  my_parent : opal_process_name_t;
  lifeline : option lifeline_t;
  local_lifeline : opal_process_name_t;
  num_children : Z;
  my_children : list orte_routed_tree_t;
  hnp_direct : bool;
  orte_routed_jobfams : opal_pointer_array_t orte_routed_jobfam_t;
}.

Implicit Types e : env_t.
Implicit Types st : routed_t.

Definition set_my_parent (p : opal_process_name_t) st : routed_t :=
  mk_routed p (lifeline st) (local_lifeline st) (num_children st) (my_children st) (hnp_direct st) (orte_routed_jobfams st).
Definition set_children (n : Z) (l : list orte_routed_tree_t) st : routed_t :=
  mk_routed (my_parent st) (lifeline st) (local_lifeline st) n l (hnp_direct st) (orte_routed_jobfams st).
Definition set_lifeline_ptr (l : option lifeline_t) st : routed_t :=
  mk_routed (my_parent st) l (local_lifeline st) (num_children st) (my_children st) (hnp_direct st) (orte_routed_jobfams st).
Definition set_hnp_direct (b : bool) st : routed_t :=
  mk_routed (my_parent st) (lifeline st) (local_lifeline st) (num_children st) (my_children st) b (orte_routed_jobfams st).
Definition set_jobfams (a : opal_pointer_array_t orte_routed_jobfam_t) st : routed_t :=
  mk_routed (my_parent st) (lifeline st) (local_lifeline st) (num_children st) (my_children st) (hnp_direct st) a.

Definition is_type e (t : Z) : bool := negb (Z.land t (proc_type e) =? 0).
Definition ORTE_PROC_IS_DAEMON e : bool := is_type e ORTE_PROC_DAEMON.
Definition ORTE_PROC_IS_HNP e : bool := is_type e ORTE_PROC_HNP.
Definition ORTE_PROC_IS_TOOL e : bool := is_type e ORTE_PROC_TOOL.
Definition ORTE_PROC_IS_APP e : bool := is_type e ORTE_PROC_APP.

Definition orte_get_job_data_object e (job : Z) : option (option orte_job_t) :=
  match orte_job_data e with
  | None => Some None
  | Some data => opal_pointer_array_get_item data (ORTE_LOCAL_JOBID job)
  end.

(** The table of processes is indexed by an [int]. *)
Definition orte_get_proc_daemon_vpid e (proc : opal_process_name_t) : option Z :=
  jdata ← orte_get_job_data_object e (jobid proc);
  match jdata with
  | None => Some ORTE_VPID_INVALID
  | Some jdata =>
    proct ← opal_pointer_array_get_item (procs jdata) (swrap 32 (vpid proc));
    Some match proct with
         | None => ORTE_VPID_INVALID
         | Some proct => match proc_node proct with
                         | None => ORTE_VPID_INVALID
                         | Some node => match node_daemon node with
                                        | None => ORTE_VPID_INVALID
                                        | Some d => vpid d
                                        end
                         end
         end
  end.

(** ** Setting up *)

(** The list is constructed empty. *)
Definition init e st : routed_t * Z :=
  let st := set_children 0 [] (set_lifeline_ptr None st) in
  (set_my_parent (mk_name (jobid (my_name e)) (vpid (my_parent st))) st, ORTE_SUCCESS).

Definition finalize st : routed_t * Z := (set_children 0 [] (set_lifeline_ptr None st), ORTE_SUCCESS).

(** The framework opens with a table of 8 slots, primed with our own family. *)
Definition orte_routed_base_open e (my_hnp_uri : option (list ascii)) : option (opal_pointer_array_t orte_routed_jobfam_t) :=
  let '(a, _) := opal_pointer_array_init true opal_pointer_array_construct 8 INT_MAX 8 in
  '(a, _) ← opal_pointer_array_add true a (Some (mk_jobfam (ORTE_JOB_FAMILY (jobid (my_name e))) (my_hnp e) my_hnp_uri));
  Some a.

(** The defaults of the parameters [radix] and [max_connections], a [uint32_t]. *)
Definition orte_routed_radix_component_register : Z * Z := (64, uwrap 32 (-1)).

(** The priority of the module, or an error. *)
Definition orte_routed_radix_component_query (radix : Z) : Z + Z :=
  if radix <? 0 then inl ORTE_ERR_BAD_PARAM else inr 70.

(** ** Other job families *)

Definition other_family e (job : Z) : bool := negb (ORTE_JOB_FAMILY job =? ORTE_JOB_FAMILY (jobid (my_name e))).

(** The loop [for (i=0; i < size; i++)] up to the entry of a family: its index and the entry. *)
Fixpoint find_jobfam (a : opal_pointer_array_t orte_routed_jobfam_t) (jfamily : Z) (n : nat) (i : Z)
    : option (option (Z * orte_routed_jobfam_t)) :=
  match n with
  | O => Some None
  | S n =>
    jfam ← opal_pointer_array_get_item a i;
    match jfam with
    | None => find_jobfam a jfamily n (i + 1)
    | Some jfam => if job_family jfam =? jfamily then Some (Some (i, jfam)) else find_jobfam a jfamily n (i + 1)
    end
  end.

Definition lookup_jobfam st (jfamily : Z) : option (option (Z * orte_routed_jobfam_t)) :=
  find_jobfam (orte_routed_jobfams st) jfamily (Z.to_nat (PA.size (orte_routed_jobfams st))) 0.

(** The entry is removed from the table and released. *)
Definition drop_jobfam (mem : bool) st (jfamily : Z) : option routed_t :=
  found ← lookup_jobfam st jfamily;
  match found with
  | None => Some st
  | Some (i, _) => '(a, _) ← opal_pointer_array_set_item mem (orte_routed_jobfams st) i None; Some (set_jobfams a st)
  end.

(** Writing through the pointer at index [i] of the table. *)
Definition write_jobfam (a : opal_pointer_array_t orte_routed_jobfam_t) (i : Z) (jfam : orte_routed_jobfam_t)
    : option (opal_pointer_array_t orte_routed_jobfam_t) :=
  l ← addr a; l ← zset l i (Some jfam);
  Some (mk_array (lowest_free a) (number_free a) (PA.size a) (PA.max_size a) (block_size a) (Some l)).

Definition delete_route (mem : bool) e (proc : opal_process_name_t) st : option (routed_t * Z) :=
  if (jobid proc =? ORTE_JOBID_INVALID) || (vpid proc =? ORTE_VPID_INVALID) then Some (st, ORTE_ERR_BAD_PARAM) else
  if negb (ORTE_PROC_IS_HNP e) && negb (ORTE_PROC_IS_DAEMON e) && negb (ORTE_PROC_IS_TOOL e) then Some (st, ORTE_SUCCESS) else
  if other_family e (jobid proc) then
    if ORTE_PROC_IS_DAEMON e then Some (st, ORTE_SUCCESS) else
    st ← drop_jobfam mem st (ORTE_JOB_FAMILY (jobid proc)); Some (st, ORTE_SUCCESS)
  else Some (st, ORTE_SUCCESS).

Definition update_route (mem : bool) e (target rt : opal_process_name_t) st : option (routed_t * Z) :=
  if (jobid target =? ORTE_JOBID_INVALID) || (vpid target =? ORTE_VPID_INVALID) then Some (st, ORTE_ERR_BAD_PARAM) else
  if ORTE_PROC_IS_APP e then Some (st, ORTE_SUCCESS) else
  if same_proc (my_hnp e) target && negb (same_proc (my_hnp e) rt) then Some (set_hnp_direct false st, ORTE_SUCCESS) else
  if other_family e (jobid target) then
    if ORTE_PROC_IS_DAEMON e then Some (st, ORTE_SUCCESS) else
    let jfamily := ORTE_JOB_FAMILY (jobid target) in
    found ← lookup_jobfam st jfamily;
    match found with
    | Some (i, jfam) =>
      a ← write_jobfam (orte_routed_jobfams st) i (mk_jobfam (job_family jfam) rt (hnp_uri jfam));
      Some (set_jobfams a st, ORTE_SUCCESS)
    | None =>
      '(a, _) ← opal_pointer_array_add mem (orte_routed_jobfams st) (Some (mk_jobfam jfamily rt None));
      Some (set_jobfams a st, ORTE_SUCCESS)
    end
  else Some (st, ORTE_SUCCESS).

(** ** The route to a process *)

(** The loop over the children: the child to step to, if the daemon is the child or below it. *)
Fixpoint search_children (l : list orte_routed_tree_t) (d : Z) : option (option Z) :=
  match l with
  | [] => Some None
  | child :: l =>
    if tree_vpid child =? d then Some (Some d) else
    b ← opal_bitmap_is_set_bit (relatives child) (swrap 32 d);
    if (b : bool) then Some (Some (tree_vpid child)) else search_children l d
  end.

Definition get_route e (target : opal_process_name_t) st : option opal_process_name_t :=
  if negb (orte_routing_is_enabled e) then Some target else
  if (jobid target =? ORTE_JOBID_INVALID) || (vpid target =? ORTE_VPID_INVALID) then Some ORTE_NAME_INVALID else
  if opal_dss_compare_name (my_name e) target =? OPAL_EQUAL then Some target else
  if ORTE_PROC_IS_APP e then Some (my_daemon e) else
  if ORTE_PROC_IS_TOOL e then
    if other_family e (jobid target) then Some (ORTE_HNP_NAME_FROM_JOB (jobid target)) else Some target
  else
  if other_family e (jobid target) then
    if ORTE_PROC_IS_DAEMON e then Some (my_hnp e) else
    found ← lookup_jobfam st (ORTE_JOB_FAMILY (jobid target));
    Some match found with Some (_, jfam) => route jfam | None => ORTE_NAME_INVALID end
  else
  if same_proc (my_hnp e) target then
    Some (if negb (hnp_direct st) || orte_static_ports e then my_parent st else my_hnp e)
  else
  d ← orte_get_proc_daemon_vpid e target;
  if d =? ORTE_VPID_INVALID then Some ORTE_NAME_INVALID else
  if vpid (my_name e) =? d then Some target else
  if num_procs e <? max_connections e then Some (mk_name (jobid (my_name e)) d) else
  found ← search_children (my_children st) d;
  Some (mk_name (jobid (my_name e)) (match found with Some v => v | None => vpid (my_parent st) end)).

(** ** Losing a route *)

Definition lifeline_name e st (l : lifeline_t) : opal_process_name_t :=
  match l with
  | at_parent => my_parent st
  | at_hnp => my_hnp e
  | at_daemon => my_daemon e
  | at_local => local_lifeline st
  end.

(** Removal of the first child of that rank. *)
Fixpoint remove_child (l : list orte_routed_tree_t) (v : Z) : list orte_routed_tree_t :=
  match l with
  | [] => []
  | child :: l => if tree_vpid child =? v then l else child :: remove_child l v
  end.

Definition route_lost (mem : bool) e (rt : opal_process_name_t) st : option (routed_t * Z) :=
  st ← (if other_family e (jobid rt) && ORTE_PROC_IS_HNP e then drop_jobfam mem st (ORTE_JOB_FAMILY (jobid rt)) else Some st);
  if negb (orte_finalizing e) && match lifeline st with Some l => same_proc rt (lifeline_name e st l) | None => false end
  then Some (st, ORTE_ERR_FATAL) else
  if (ORTE_PROC_IS_DAEMON e || ORTE_PROC_IS_HNP e) && (jobid rt =? jobid (my_name e))
  then Some (set_children (num_children st) (remove_child (my_children st) (vpid rt)) st, ORTE_SUCCESS)
  else Some (st, ORTE_SUCCESS).

Definition route_is_defined e (target : opal_process_name_t) st : option bool :=
  if other_family e (jobid target) then
    if ORTE_PROC_IS_HNP e then
      found ← lookup_jobfam st (ORTE_JOB_FAMILY (jobid target));
      Some (match found with Some _ => true | None => false end)
    else Some true
  else
    d ← orte_get_proc_daemon_vpid e target;
    Some (negb (d =? ORTE_VPID_INVALID)).

Definition set_lifeline (proc : opal_process_name_t) st : routed_t * Z :=
  (mk_routed (my_parent st) (Some at_local) proc (num_children st) (my_children st) (hnp_direct st) (orte_routed_jobfams st),
   ORTE_SUCCESS).

(** ** The tree *)

(** [while (Sum < (rank+1)) { NInLevel *= radix; Sum += NInLevel; }], the result [Sum] and [NInLevel]. *)
Fixpoint level_loop (fuel : nat) (radix rank Sum NInLevel : Z) : option (Z * Z) :=
  match fuel with
  | O => None
  | S fuel =>
    r1 ← ck_int (rank + 1);
    if Sum <? r1 then
      NInLevel ← ck_int (NInLevel * radix);
      Sum ← ck_int (Sum + NInLevel);
      level_loop fuel radix rank Sum NInLevel
    else Some (Sum, NInLevel)
  end.

(** Each round adds at least 1 to [Sum] when the radix is positive. *)
Definition level_rounds (rank : Z) : nat := S (Z.to_nat rank).

(** Where [radix_tree] records the ranks it visits: the list of children and its length, or
    a bitmap. *)
Inductive record_t := in_children (n : Z) (children : list orte_routed_tree_t) | in_relatives (bm : opal_bitmap_t).

(** The loop over the children of a rank; [rec] is the recursive call with a bitmap. *)
Fixpoint peer_loop e (rec : Z → opal_bitmap_t → option opal_bitmap_t) (n : nat) (peer NInLevel : Z) (out : record_t) : option record_t :=
  match n with
  | O => Some out
  | S n =>
    out ← (if peer <? swrap 32 (num_procs e) then
             match out with
             | in_children k children =>
               '(bm, _) ← opal_bitmap_init true [] opal_bitmap_construct (swrap 32 (num_procs e));
               bm ← rec peer bm;
               k ← ck_int (k + 1);
               Some (in_children k (children ++ [mk_tree (uwrap 32 peer) bm]))
             | in_relatives bm =>
               '(bm, _) ← opal_bitmap_set_bit true bm peer;
               bm ← rec peer bm;
               Some (in_relatives bm)
             end
           else Some out);
    peer ← ck_int (peer + NInLevel);
    peer_loop e rec n peer NInLevel out
  end.

(** [fuel] bounds the depth of the recursion, which visits ever greater ranks below
    [num_procs]. *)
Fixpoint radix_tree (fuel : nat) e (rank : Z) (out : record_t) : option record_t :=
  match fuel with
  | O => None
  | S fuel =>
    '(_, NInLevel) ← level_loop (level_rounds rank) (radix e) rank 1 1;
    peer ← ck_int (rank + NInLevel);
    peer_loop e (λ peer bm, out ← radix_tree fuel e peer (in_relatives bm);
                            match out with in_relatives bm => Some bm | in_children _ _ => None end)
      (Z.to_nat (radix e)) peer NInLevel out
  end.

Definition update_routing_plan e st : option routed_t :=
  if negb (ORTE_PROC_IS_DAEMON e) && negb (ORTE_PROC_IS_HNP e) then Some st else
  let Ii := swrap 32 (vpid (my_name e)) in
  '(Sum, NInLevel) ← level_loop (level_rounds Ii) (radix e) Ii 1 1;
  let Sum := Sum - NInLevel in
  if radix e =? 0 then None else
  let NInPrevLevel := Z.quot NInLevel (radix e) in
  parent ← (if Ii =? 0 then Some (uwrap 32 (-1))
            else if NInPrevLevel =? 0 then None
            else Some (uwrap 32 (uwrap 32 (Z.rem (Ii - Sum) NInPrevLevel) + (Sum - NInPrevLevel))));
  let st := set_my_parent (mk_name (jobid (my_parent st)) parent) st in
  out ← radix_tree (Z.to_nat (num_procs e)) e Ii (in_children 0 []);
  match out with
  | in_children n children => Some (set_children n children st)
  | in_relatives _ => None
  end.

Definition num_routes st : Z := Z.of_nat (length (my_children st)).

(** ** Broadcasts *)

Definition ORTE_PROC_FLAG_ALIVE : Z := 1.

(** The daemons known to be alive, from index 1 on. *)
Fixpoint alive_daemons e (a : opal_pointer_array_t orte_proc_t) (n : nat) (i : Z) : option (list opal_process_name_t) :=
  match n with
  | O => Some []
  | S n =>
    proc ← opal_pointer_array_get_item a i;
    rest ← alive_daemons e a n (i + 1);
    Some match proc with
         | None => rest
         | Some proc => if Z.land (proc_flags proc) ORTE_PROC_FLAG_ALIVE =? 0 then rest
                        else mk_name (jobid (my_name e)) (vpid (proc_name proc)) :: rest
         end
  end.

(** The targets, and whether the state "daemons terminated" is activated. *)
Definition orte_routed_base_xcast_routing e st (coll : list opal_process_name_t) : option (list opal_process_name_t * bool) :=
  let to_children := (λ child, mk_name (jobid (my_name e)) (tree_vpid child)) <$> my_children st in
  if ORTE_PROC_IS_HNP e && (orte_abnormal_term_ordered e || negb (orte_routing_is_enabled e)) then
    daemons ← orte_get_job_data_object e (jobid (my_name e));
    daemons ← daemons;
    l ← alive_daemons e (procs daemons) (Z.to_nat (PA.size (procs daemons) - 1)) 1;
    Some (coll ++ l, bool_decide (coll ++ l = []))
  else Some (coll ++ to_children, false).

Definition get_routing_list e st (coll : list opal_process_name_t) : option (list opal_process_name_t * bool) :=
  if negb (ORTE_PROC_IS_DAEMON e) && negb (ORTE_PROC_IS_HNP e) then Some (coll, false) else
  orte_routed_base_xcast_routing e st coll.

End Routed.
