(* ===== verification/RoutedOrcm.v ===== *)
(** * Routing along the configuration (orte/mca/routed/orcm/routed_orcm.c)

    The daemons of a configured cluster send messages up to their controller and the
    controllers send them down to the child on the way to the target.  A daemon finds its
    parent and its children in the cluster definition, a buffer that holds the name of the
    scheduler, of the cluster controller and, in buffers within it, of the rows, the racks
    and their nodes; a part without a controller has an invalid name there. *)

From Stdlib Require Import ZArith Lia Ascii.
From stdpp Require Import prelude numbers strings gmap list.
From S2P Require Import Prelude CString Dss Names DssBuffer Bitmap Routed.

Local Open Scope Z_scope.

Module RoutedOrcm.
Import Dss Names DssBuffer BM.

Definition ORTE_PROC_DAEMON : Z := 2.
Definition ORTE_PROC_TOOL : Z := 8.
Definition ORTE_PROC_SCHEDULER : Z := 8192.
Definition ORTE_ERR_FATAL : Z := Routed.ORTE_ERR_FATAL.

Abbreviation child_t := Routed.orte_routed_tree_t.

(** What the module reads of [orte_process_info] and keeps; [lifeline] is NULL or points
    to the name of the parent. *)
Record proc_t := mk_proc {
  my_name : opal_process_name_t;
  my_parent : opal_process_name_t;
  my_scheduler : opal_process_name_t;
  proc_type : Z;
  num_procs : Z;
  orte_routing_is_enabled : bool;
  orte_finalizing : bool;
  lifeline : bool;
  my_children : list child_t;
}.

Implicit Types p : proc_t.

Definition is_type p (t : Z) : bool := negb (Z.land t (proc_type p) =? 0).
Definition ORTE_PROC_IS_DAEMON p : bool := is_type p ORTE_PROC_DAEMON.
Definition ORTE_PROC_IS_TOOL p : bool := is_type p ORTE_PROC_TOOL.
Definition ORTE_PROC_IS_SCHEDULER p : bool := is_type p ORTE_PROC_SCHEDULER.

Definition set_parent (n : opal_process_name_t) p : proc_t :=
  mk_proc (my_name p) n (my_scheduler p) (proc_type p) (num_procs p) (orte_routing_is_enabled p)
    (orte_finalizing p) (lifeline p) (my_children p).
Definition set_lifeline_ptr (b : bool) p : proc_t :=
  mk_proc (my_name p) (my_parent p) (my_scheduler p) (proc_type p) (num_procs p) (orte_routing_is_enabled p)
    (orte_finalizing p) b (my_children p).
Definition set_children (l : list child_t) p : proc_t :=
  mk_proc (my_name p) (my_parent p) (my_scheduler p) (proc_type p) (num_procs p) (orte_routing_is_enabled p)
    (orte_finalizing p) (lifeline p) l.

Definition init p : proc_t * Z :=
  let p := set_lifeline_ptr false p in
  if ORTE_PROC_IS_TOOL p then (p, OPAL_SUCCESS) else (set_children [] p, OPAL_SUCCESS).

Definition finalize p : proc_t * Z :=
  if ORTE_PROC_IS_TOOL p then (p, OPAL_SUCCESS) else (set_children [] p, OPAL_SUCCESS).

(** ** Routes *)

(** The loop over the children: the child that is the target, or that has it below. *)
Fixpoint search_children (l : list child_t) (target : opal_process_name_t) (job : Z)
    : option (option opal_process_name_t) :=
  match l with
  | [] => Some None
  | child :: rest =>
      if Routed.tree_vpid child =? vpid target then Some (Some target) else
      b ← opal_bitmap_is_set_bit (Routed.relatives child) (swrap 32 (vpid target));
      if (b : bool) then Some (Some (mk_name job (Routed.tree_vpid child))) else search_children rest target job
  end.

Definition get_route p (target : opal_process_name_t) : option opal_process_name_t :=
  if ORTE_PROC_IS_TOOL p then Some (if 0 =? jobid target then my_scheduler p else target) else
  if negb (orte_routing_is_enabled p) then Some target else
  if orte_util_compare_name_fields ORTE_NS_CMP_ALL (Some target) (Some (my_name p)) =? OPAL_EQUAL then Some target else
  if negb (jobid target =? jobid (my_name p)) && ORTE_PROC_IS_SCHEDULER p then Some target else
  let up := mk_name (jobid (my_name p)) (vpid (my_parent p)) in
  if ORTE_PROC_IS_DAEMON p then Some up else
  found ← search_children (my_children p) target (jobid (my_name p));
  Some (default up found).

Definition route_lost p (route : opal_process_name_t) : Z :=
  if ORTE_PROC_IS_TOOL p then OPAL_SUCCESS else
  if ORTE_PROC_IS_SCHEDULER p then OPAL_SUCCESS else
  if negb (jobid route =? jobid (my_name p)) then OPAL_SUCCESS else
  if orte_finalizing p then OPAL_SUCCESS else
  if lifeline p && (orte_util_compare_name_fields ORTE_NS_CMP_ALL (Some route) (Some (my_parent p)) =? OPAL_EQUAL)
  then ORTE_ERR_FATAL else OPAL_SUCCESS.

(** ** The cluster definition *)

Definition valid_proc (n : opal_process_name_t) : bool :=
  negb (ORTE_JOBID_INVALID =? jobid n) && negb (ORTE_VPID_INVALID =? vpid n).

Definition same_as (n m : opal_process_name_t) : bool := (jobid n =? jobid m) && (vpid n =? vpid m).

(** A name that was unpacked, when it is that of a controller. *)
Definition present (n : opal_process_name_t) : option opal_process_name_t := if valid_proc n then Some n else None.

(** [ORTE_PROC_MY_PARENT]: the nearest controller above that is there, or the process itself. *)
Fixpoint nearest (cands : list (option opal_process_name_t)) (me : opal_process_name_t) : opal_process_name_t :=
  match cands with
  | [] => me
  | Some n :: _ => n
  | None :: rest => nearest rest me
  end.

(** The state of the function: the process, and whether [child] is not NULL; if so, it is
    the last of the children. *)
Record plan_t := mk_plan { proc : proc_t; child : bool }.

Definition add_child (v : Z) (s : plan_t) : option plan_t :=
  '(bm, _) ← opal_bitmap_init true [] opal_bitmap_construct (swrap 32 (num_procs (proc s)));
  Some (mk_plan (set_children (my_children (proc s) ++ [Routed.mk_tree v bm]) (proc s)) true).

(** [opal_bitmap_set_bit(&child->relatives, v)] *)
Definition add_relative (v : Z) (s : plan_t) : option plan_t :=
  if child s then
    last ← last (my_children (proc s));
    '(bm, _) ← opal_bitmap_set_bit true (Routed.relatives last) (swrap 32 v);
    let l := take (length (my_children (proc s)) - 1) (my_children (proc s)) in
    Some (mk_plan (set_children (l ++ [Routed.mk_tree (Routed.tree_vpid last) bm]) (proc s)) true)
  else None.

(** Point to the parent and make it the lifeline. *)
Definition adopt (cands : list (option opal_process_name_t)) (s : plan_t) : plan_t :=
  mk_plan (set_lifeline_ptr true (set_parent (nearest cands (my_name (proc s))) (proc s))) (child s).

(** What has been read of the enclosing parts, and what this process is. *)
Record above_t := mk_above {
  sched_name : option opal_process_name_t;
  i_am_sched : bool;
  cluster_name : option opal_process_name_t;
  i_am_cluster_ctlr : bool;
}.

Definition none {A} (o : option A) : bool := match o with None => true | Some _ => false end.

(** One node of a rack. *)
Definition node_step (a : above_t) (row : option opal_process_name_t) (i_am_row : bool)
    (rack : option opal_process_name_t) (i_am_rack : bool) (name : opal_process_name_t) (s : plan_t) : option plan_t :=
  s ← (if i_am_rack || (i_am_row && none rack) || (i_am_cluster_ctlr a && none row && none rack)
          || (i_am_sched a && none (cluster_name a) && none row && none rack)
       then add_child (vpid name) s
       else if i_am_row || i_am_cluster_ctlr a || i_am_sched a then add_relative (vpid name) s else Some s);
  Some (if same_as (my_name (proc s)) name then adopt [rack; row; cluster_name a; sched_name a] s else s).

(** The loop over the names in the buffer of a rack, with the code that ended it. *)
Fixpoint nodes_loop (fuel : nat) (step : opal_process_name_t → plan_t → option plan_t) (rack : opal_buffer_t) (s : plan_t)
    : option (plan_t * Z) :=
  match fuel with
  | O => None
  | S fuel =>
      match unpack1 t_name rack with
      | None => None
      | Some (_, inl rc) => Some (s, rc)
      | Some (rack, inr name) => s ← step name s; nodes_loop fuel step rack s
      end
  end.

(** One rack: its controller, then its nodes. *)
Definition rack_step (a : above_t) (row : option opal_process_name_t) (i_am_row : bool)
    (rackbuf : opal_buffer_t) (s : plan_t) : option (plan_t * (Z + unit)) :=
  match unpack1 t_name rackbuf with
  | None => None
  | Some (_, inl rc) => Some (s, inl rc)
  | Some (rackbuf, inr name) =>
      let rack := present name in
      s ← (if none rack then Some s
           else if i_am_row || (i_am_cluster_ctlr a && none row) || (i_am_sched a && none (cluster_name a) && none row)
           then add_child (vpid name) s
           else if i_am_cluster_ctlr a || i_am_sched a then add_relative (vpid name) s else Some s);
      let i_am_rack := negb (none rack) && same_as name (my_name (proc s)) in
      let s := if i_am_rack then adopt [row; cluster_name a; sched_name a] s else s in
      '(s, rc) ← nodes_loop (S (length (base rackbuf))) (node_step a row i_am_row rack i_am_rack) rackbuf s;
      Some (s, if rc =? OPAL_ERR_UNPACK_READ_PAST_END_OF_BUFFER then inr tt else inl rc)
  end.

Fixpoint racks_loop (n : nat) (a : above_t) (row : option opal_process_name_t) (i_am_row : bool)
    (rowbuf : opal_buffer_t) (s : plan_t) : option (plan_t * (Z + unit)) :=
  match n with
  | O => Some (s, inr tt)
  | S n =>
      match unpack1 t_buffer rowbuf with
      | None => None
      | Some (_, inl rc) => Some (s, inl rc)
      | Some (rowbuf, inr rackbuf) =>
          '(s, r) ← rack_step a row i_am_row rackbuf s;
          match r with inl rc => Some (s, inl rc) | inr _ => racks_loop n a row i_am_row rowbuf s end
      end
  end.

(** One row: its number of racks, its controller, then its racks. *)
Definition row_step (a : above_t) (rowbuf : opal_buffer_t) (s : plan_t) : option (plan_t * (Z + unit)) :=
  match unpack1 t_int32 rowbuf with
  | None => None
  | Some (_, inl rc) => Some (s, inl rc)
  | Some (rowbuf, inr nracks) =>
    match unpack1 t_name rowbuf with
    | None => None
    | Some (_, inl rc) => Some (s, inl rc)
    | Some (rowbuf, inr name) =>
        let row := present name in
        s ← (if none row then Some s
             else if i_am_sched a && negb (none (cluster_name a)) then add_relative (vpid name) s
             else if i_am_cluster_ctlr a || (none (cluster_name a) && i_am_sched a) then add_child (vpid name) s
             else Some s);
        let i_am_row := negb (none row) && same_as name (my_name (proc s)) in
        let s := if i_am_row then adopt [cluster_name a; sched_name a] s else s in
        racks_loop (Z.to_nat nracks) a row i_am_row rowbuf s
    end
  end.

Fixpoint rows_loop (n : nat) (a : above_t) (ndat : opal_buffer_t) (s : plan_t) : option (plan_t * (Z + unit)) :=
  match n with
  | O => Some (s, inr tt)
  | S n =>
      match unpack1 t_buffer ndat with
      | None => None
      | Some (_, inl rc) => Some (s, inl rc)
      | Some (ndat, inr rowbuf) =>
          '(s, r) ← row_step a rowbuf s;
          match r with inl rc => Some (s, inl rc) | inr _ => rows_loop n a ndat s end
      end
  end.

(** The section of the scheduler.  [inl rc]: the function returns, also with success when
    the name is not valid. *)
Definition read_sched (sched : opal_buffer_t) : option (Z + option opal_process_name_t) :=
  match unpack1 t_name sched with
  | None => None
  | Some (_, inr n) => Some (if valid_proc n then inr (Some n) else inl OPAL_SUCCESS)
  | Some (_, inl rc) => Some (if rc =? OPAL_ERR_UNPACK_READ_PAST_END_OF_BUFFER then inr None else inl rc)
  end.

(** The cluster controller.  Whether it is this process is asked only when its name is
    not valid. *)
Definition cluster_step (i_am_sched : bool) (name : opal_process_name_t) (s : plan_t) : option (plan_t * bool) :=
  if valid_proc name then
    s ← (if i_am_sched then add_child (vpid name) s else Some s);
    Some (s, false)
  else Some (s, same_as name (my_name (proc s))).

(** Without a scheduler its name is never written, and compared all the same. *)
Definition init_routes (job : Z) (ndat : option opal_buffer_t) p : option (proc_t * Z) :=
  match ndat with
  | None => Some (p, OPAL_SUCCESS)
  | Some ndat =>
    if negb (job =? jobid (my_name p)) then Some (p, OPAL_SUCCESS) else
    match unpack1 t_buffer ndat with
    | None => None
    | Some (_, inl rc) => Some (p, rc)
    | Some (ndat, inr sched) =>
      r ← read_sched sched;
      match r with
      | inl rc => Some (p, rc)
      | inr sched =>
        if ORTE_PROC_IS_TOOL p
        then Some (match sched with Some n => set_parent n p | None => p end, OPAL_SUCCESS) else
        sched_name ← sched;
        let i_am_sched := same_as sched_name (my_name p) in
        match unpack1 t_name ndat with
        | None => None
        | Some (_, inl rc) => Some (p, rc)
        | Some (ndat, inr cluster) =>
          '(s, i_am_cluster) ← cluster_step i_am_sched cluster (mk_plan p false);
          match unpack1 t_int32 ndat with
          | None => None
          | Some (_, inl rc) => Some (proc s, rc)
          | Some (ndat, inr nrows) =>
            let a := mk_above (Some sched_name) i_am_sched (present cluster) i_am_cluster in
            '(s, r) ← rows_loop (Z.to_nat nrows) a ndat s;
            Some (proc s, match r with inl rc => rc | inr _ => OPAL_SUCCESS end)
          end
        end
      end
    end
  end.

(** ** The other functions of the module *)

Definition delete_route (p : proc_t) (_ : opal_process_name_t) : proc_t * Z := (p, OPAL_SUCCESS).
Definition update_route (p : proc_t) (_ _ : opal_process_name_t) : proc_t * Z := (p, OPAL_SUCCESS).
Definition route_is_defined (_ : opal_process_name_t) : bool := true.
Definition set_lifeline (_ : opal_process_name_t) : Z := OPAL_ERR_NOT_FOUND.
Definition num_routes : Z := 0.

End RoutedOrcm.
