(* ===== verification/OrcmTree.v ===== *)
(** * Forwarding in a tree

    A tree of processes in which each knows its parent and what is below each of its
    children: a message goes down to the child that has the target below it, and up
    otherwise.  From any process it comes to any other in at most twice the height of the
    tree.  [hop] is the next process on the way, as [Routes] says. *)

From Stdlib Require Import ZArith Lia.
From stdpp Require Import prelude numbers list.
From S2P Require Import Prelude.

Local Open Scope Z_scope.

Module OrcmTree.

Inductive tree := Tree (label : Z) (kids : list tree).

Definition label (t : tree) : Z := let '(Tree v _) := t in v.
Definition kids (t : tree) : list tree := let '(Tree _ ks) := t in ks.

Fixpoint labels (t : tree) : list Z := let '(Tree v ks) := t in v :: concat (map labels ks).

(** What is below a process. *)
Definition under (t : tree) : list Z := concat (map labels (kids t)).

Fixpoint height (t : tree) : nat := let '(Tree _ ks) := t in list_max (map (λ k, S (height k)) ks).

Lemma tree_ind' (P : tree → Prop) : (∀ v ks, Forall P ks → P (Tree v ks)) → ∀ t, P t.
Proof.
  intros H. fix IH 1. intros [v ks]. apply H. induction ks as [|k ks IHks]; constructor; [apply IH|exact IHks].
Qed.

Lemma labels_label t : labels t = label t :: under t.
Proof. by destruct t. Qed.

Lemma elem_of_under x t : x ∈ under t ↔ ∃ k, k ∈ kids t ∧ x ∈ labels k.
Proof.
  unfold under. destruct t as [v ks]. cbn [kids]. induction ks as [|k ks IH]; cbn [map concat].
  - split; [by intros ?%elem_of_nil|]. by intros (k & ?%elem_of_nil & _).
  - rewrite elem_of_app, IH. split.
    + intros [Hx|(k' & Hk' & Hx)]; [exists k|exists k']; set_solver.
    + intros (k' & [->|Hk']%elem_of_cons & Hx); [by left|right; eauto].
Qed.

Lemma height_kid k t : k ∈ kids t → (S (height k) ≤ height t)%nat.
Proof.
  destruct t as [v ks]. cbn [kids height]. intros Hk.
  pose proof (proj1 (list_max_le (map (λ k, S (height k)) ks) _) (Nat.le_refl _)) as Hm.
  rewrite List.Forall_forall in Hm. apply Hm, in_map_iff. exists k. split; [done|by apply list_elem_of_In].
Qed.

(** [sits T up s]: the tree [s] sits in [T], below the process [up] unless it is all of it. *)
Inductive sits : tree → option Z → tree → Prop :=
  | sits_root T : sits T None T
  | sits_kid T k up s : k ∈ kids T → sits k up s → sits T (Some (default (label T) up)) s.

Lemma sits_down T up s k : sits T up s → k ∈ kids s → sits T (Some (label s)) k.
Proof.
  induction 1 as [T|T k' up s Hk' _ IH]; intros Hk.
  - apply (sits_kid T k None k); [done|constructor].
  - exact (sits_kid T k' (Some (label s)) k Hk' (IH Hk)).
Qed.

Lemma sits_labels T up s x : sits T up s → x ∈ labels s → x ∈ labels T.
Proof.
  induction 1 as [T|T k up s Hk _ IH]; intros Hx; [done|]. rewrite labels_label.
  apply elem_of_cons. right. apply elem_of_under. eauto.
Qed.

(** Every process sits somewhere. *)
Lemma labels_sits T x : x ∈ labels T → ∃ up s, sits T up s ∧ label s = x.
Proof.
  induction T as [v ks IH] using tree_ind'. intros Hx. rewrite labels_label in Hx.
  apply elem_of_cons in Hx as [->|Hx]; [exists None; eexists; split; [constructor|done]|].
  apply elem_of_under in Hx as (k & Hk & Hx). rewrite Forall_forall in IH.
  destruct (IH k Hk Hx) as (up & s & Hs & Hl). eauto using sits.
Qed.

(** ** Trees in which no process occurs twice *)

Lemma NoDup_kid t k : NoDup (labels t) → k ∈ kids t → NoDup (labels k).
Proof.
  rewrite labels_label. intros [_ H]%NoDup_cons Hk. unfold under in H. revert H.
  induction (kids t) as [|k' ks IH]; [by apply elem_of_nil in Hk|]. cbn [map concat].
  intros (H1 & _ & H2)%NoDup_app. apply elem_of_cons in Hk as [->|Hk]; [done|]. by apply IH.
Qed.

Lemma kid_unique ks k1 k2 x : NoDup (concat (map labels ks)) → k1 ∈ ks → k2 ∈ ks → x ∈ labels k1 → x ∈ labels k2 → k1 = k2.
Proof.
  induction ks as [|k ks IH]; intros H H1 H2 Hx1 Hx2; [by apply elem_of_nil in H1|].
  cbn [map concat] in H. apply NoDup_app in H as (_ & Hd & H).
  assert (∀ k', k' ∈ ks → x ∈ labels k' → x ∉ labels k) as Hno.
  { intros k' Hk' Hx' Hx. apply (Hd x Hx). pose proof (elem_of_under x (Tree 0 ks)) as E. unfold under in E.
    cbn [kids] in E. apply E. eauto. }
  apply elem_of_cons in H1 as [->|H1], H2 as [->|H2]; [done| | |by eapply IH].
  - destruct (Hno k2); eauto.
  - destruct (Hno k1); eauto.
Qed.

Lemma sits_unique T up1 s1 : sits T up1 s1 → ∀ up2 s2, NoDup (labels T) → sits T up2 s2 → label s1 = label s2 →
  up1 = up2 ∧ s1 = s2.
Proof.
  assert (∀ T k up s, NoDup (labels T) → k ∈ kids T → sits k up s → label s ≠ label T) as Hroot.
  { intros T' k up s H Hk Hs E. rewrite labels_label in H. apply NoDup_cons in H as [H _]. apply H.
    rewrite <-E. apply elem_of_under. exists k. split; [done|]. apply (sits_labels _ _ _ _ Hs).
    rewrite labels_label. set_solver. }
  induction 1 as [T|T k up s Hk Hs IH]; intros up2 s2 H H2 E; inversion H2 as [|? k2 up' ? Hk2 Hs2]; subst.
  - done.
  - destruct (Hroot T k2 up' s2); eauto.
  - destruct (Hroot s2 k up s); eauto.
  - assert (k = k2) as <-.
    { rewrite labels_label in H. apply NoDup_cons in H as [_ H]. apply (kid_unique (kids T) k k2 (label s)); try done.
      - apply (sits_labels _ _ _ _ Hs). rewrite labels_label. set_solver.
      - rewrite E. apply (sits_labels _ _ _ _ Hs2). rewrite labels_label. set_solver. }
    destruct (IH up' s2) as [-> ->]; [by eapply NoDup_kid|done..].
Qed.

(** The processes with nothing below them. *)
Fixpoint leaves (t : tree) : list Z := let '(Tree v ks) := t in match ks with [] => [v] | _ => concat (map leaves ks) end.

Lemma elem_of_leaves x t : x ∈ leaves t → (kids t = [] ∧ x = label t) ∨ ∃ k, k ∈ kids t ∧ x ∈ leaves k.
Proof.
  destruct t as [v [|k ks]]; cbn [leaves kids label]; [left; set_solver|]. intros Hx. right. revert Hx. generalize (k :: ks).
  intros l. induction l as [|k' l IH]; [by intros ?%elem_of_nil|]. cbn [map concat]. intros [Hx|Hx]%elem_of_app.
  - exists k'. set_solver.
  - destruct (IH Hx) as (k0 & ? & ?). exists k0. set_solver.
Qed.

Lemma leaves_labels x t : x ∈ leaves t → x ∈ labels t.
Proof.
  induction t as [v ks IH] using tree_ind'. intros [[_ ->]|(k & Hk & Hx)]%elem_of_leaves; rewrite labels_label; [by left|].
  right. apply elem_of_under. rewrite Forall_forall in IH. exists k. split; [done|]. by apply IH.
Qed.

Lemma leaf_kids T up s : sits T up s → NoDup (labels T) → label s ∈ leaves T → kids s = [].
Proof.
  induction 1 as [T|T k up s Hk Hs IH]; intros Hd [[HT _]|(k' & Hk' & Hx)]%elem_of_leaves.
  - done.
  - rewrite labels_label in Hd. apply NoDup_cons in Hd as [Hd _]. destruct Hd. apply elem_of_under.
    exists k'. split; [done|by apply leaves_labels].
  - rewrite HT in Hk. by apply elem_of_nil in Hk.
  - assert (k = k') as <-; [|apply IH; [by eapply NoDup_kid|done]].
    rewrite labels_label in Hd. apply NoDup_cons in Hd as [_ Hd].
    apply (kid_unique (kids T) k k' (label s)); [done..| |by apply leaves_labels].
    apply (sits_labels _ _ _ _ Hs). rewrite labels_label. by left.
Qed.

(** The child of [s] on the way to [t]. *)
Definition toward (t : Z) (ks : list tree) : option tree :=
  snd <$> list_find (λ k, t ∈ labels k) ks.

Lemma toward_none t s : t ∉ labels s → toward t (kids s) = None.
Proof.
  intros Ht. unfold toward. destruct (list_find (λ k, t ∈ labels k) (kids s)) as [[i k]|] eqn:E; [exfalso|done].
  apply list_find_Some in E as (Hi & Ht' & _). apply Ht. rewrite labels_label. apply elem_of_cons. right.
  apply elem_of_under. eauto using list_elem_of_lookup_2.
Qed.

Section routes.
Context (T : tree) (hop : Z → Z → Z).

(** What the tables of the processes say: down toward the target, and up if it is not
    below. *)
Definition Routes : Prop := ∀ up s t, sits T up s → t ∈ labels T → t ≠ label s →
  hop (label s) t = match toward t (kids s) with
                    | Some k => label k
                    | None => default (label s) up
                    end.

(** [reaches t n x]: after [n] hops a message for [t] at [x] is there. *)
Fixpoint reaches (t : Z) (n : nat) (x : Z) : Prop :=
  match n with
  | O => x = t
  | S n => x ≠ t ∧ reaches t n (hop x t)
  end.

(** The hops [n] from [x] to [y] on the way to [t]. *)
Fixpoint passes (t : Z) (n : nat) (x y : Z) : Prop :=
  match n with
  | O => x = y
  | S n => x ≠ t ∧ passes t n (hop x t) y
  end.

Lemma passes_reaches t n m x y : passes t n x y → reaches t m y → reaches t (n + m) x.
Proof. revert x. induction n as [|n IH]; intros x; cbn; [by intros ->|]. intros [? ?] ?. eauto. Qed.

Lemma passes_snoc t n x y : passes t n x y → y ≠ t → passes t (S n) x (hop y t).
Proof. revert x. induction n as [|n IH]; intros x; cbn; [by intros ->|]. intros [? ?] ?. split; [done|]. by apply IH. Qed.

Hypothesis HR : Routes.

Lemma down s : ∀ up t, sits T up s → t ∈ labels s → ∃ n, (n ≤ height s)%nat ∧ reaches t n (label s).
Proof.
  induction s as [v ks IH] using tree_ind'. intros up t Hs Ht. rewrite Forall_forall in IH.
  destruct (decide (t = v)) as [->|Hne]; [exists 0%nat; split; [lia|done]|].
  pose proof (HR up _ t Hs (sits_labels _ _ _ _ Hs Ht) Hne) as Hhop. cbn [kids] in Hhop. unfold toward in Hhop.
  rewrite labels_label in Ht. apply elem_of_cons in Ht as [?|Ht]; [done|].
  apply elem_of_under in Ht as (k & Hk & Ht). cbn [kids] in Hk.
  destruct (list_find (λ k, t ∈ labels k) ks) as [[i k']|] eqn:E.
  - apply list_find_Some in E as (Hi & Ht' & _). apply list_elem_of_lookup_2 in Hi.
    destruct (IH k' Hi (Some v) t) as (n & Hn & Hr); [by apply (sits_down T up (Tree v ks))|done|].
    exists (S n). split; [pose proof (height_kid k' (Tree v ks) Hi); lia|]. cbn. split; [congruence|].
    cbn in Hhop. by rewrite Hhop.
  - apply list_find_None in E. rewrite Forall_forall in E. destruct (E k Hk Ht).
Qed.

Lemma up_to s : ∀ up x t, sits T up s → x ∈ labels s → t ∈ labels T → t ∉ labels s →
  ∃ n, (n ≤ height s)%nat ∧ passes t n x (label s).
Proof.
  induction s as [v ks IH] using tree_ind'. intros up x t Hs Hx Ht Hnt. rewrite Forall_forall in IH.
  rewrite labels_label in Hx. apply elem_of_cons in Hx as [->|Hx]; [exists 0%nat; split; [lia|done]|].
  apply elem_of_under in Hx as (k & Hk & Hx). cbn [kids] in Hk.
  assert (t ∉ labels k) as Hntk.
  { intros Htk. apply Hnt. rewrite labels_label. apply elem_of_cons. right. apply elem_of_under. eauto. }
  pose proof (sits_down T up (Tree v ks) k Hs Hk) as Hsk. cbn [label] in Hsk.
  destruct (IH k Hk (Some v) x t Hsk Hx Ht Hntk) as (n & Hn & Hp).
  assert (t ≠ label k) as Hne by (intros ->; apply Hntk; rewrite labels_label; set_solver).
  exists (S n). split; [pose proof (height_kid k (Tree v ks) Hk); lia|].
  replace (label (Tree v ks)) with (hop (label k) t); [by apply passes_snoc|].
  by rewrite (HR _ _ t Hsk Ht Hne), toward_none.
Qed.

Lemma within s : ∀ up x t, sits T up s → x ∈ labels s → t ∈ labels s →
  ∃ n, (n ≤ 2 * height s)%nat ∧ reaches t n x.
Proof.
  induction s as [v ks IH] using tree_ind'. intros up x t Hs Hx Ht. rewrite Forall_forall in IH.
  pose proof Hx as Hx'. rewrite labels_label in Hx'. apply elem_of_cons in Hx' as [->|Hx'].
  { destruct (down _ up t Hs Ht) as (n & Hn & Hr). exists n. split; [lia|done]. }
  apply elem_of_under in Hx' as (k & Hk & Hxk). cbn [kids] in Hk.
  pose proof (sits_down T up (Tree v ks) k Hs Hk) as Hsk. cbn [label] in Hsk.
  pose proof (height_kid k (Tree v ks) Hk) as Hh.
  destruct (decide (t ∈ labels k)) as [Htk|Htk].
  { destruct (IH k Hk _ x t Hsk Hxk Htk) as (n & Hn & Hr). exists n. split; [lia|done]. }
  pose proof (sits_labels _ _ _ t Hs Ht) as HtT.
  destruct (up_to k (Some v) x t Hsk Hxk HtT Htk) as (n & Hn & Hp).
  destruct (down _ up t Hs Ht) as (m & Hm & Hr).
  assert (t ≠ label k) as Hne by (intros ->; apply Htk; rewrite labels_label; set_solver).
  pose proof (passes_snoc t n x (label k) Hp ltac:(congruence)) as Hp'.
  assert (hop (label k) t = v) as Eh by (by rewrite (HR _ _ t Hsk HtT Hne), toward_none).
  rewrite Eh in Hp'. exists (S n + m)%nat. split; [lia|]. eapply passes_reaches; [exact Hp'|exact Hr].
Qed.

Lemma forwarding x t : x ∈ labels T → t ∈ labels T → ∃ n, (n ≤ 2 * height T)%nat ∧ reaches t n x.
Proof. apply (within T None). constructor. Qed.

End routes.
End OrcmTree.
