(* ===== verification/OrcmLayout.v ===== *)
(** * What [init_routes] does with a cluster definition

    The layout of a system is the vpids of its scheduler and, where they are there, of the
    controllers of the cluster, the rows and the racks, and of the nodes.  A buffer that
    holds the definition of a layout makes [init_routes] of [RoutedOrcm] do a sequence of
    three kinds of action: add a child, add a relative of the last child, and take a
    parent. *)

From Stdlib Require Import ZArith Lia Ascii.
From stdpp Require Import prelude numbers strings gmap list.
From S2P Require Import Prelude CString Dss Names DssBuffer Bitmap Routed RoutedOrcm OrcmTree.

Local Open Scope Z_scope.

Module OrcmLayout.
Import Dss Names DssBuffer RoutedOrcm OrcmTree.

Record rack_l := mk_rack_l { rack_ctl : option Z; rack_nodes : list Z }.
Record row_l := mk_row_l { row_ctl : option Z; row_racks : list rack_l }.
Record layout := mk_layout { l_sched : Z; l_cluster : option Z; l_rows : list row_l }.

Definition rack_vpids (k : rack_l) : list Z := option_list (rack_ctl k) ++ rack_nodes k.
Definition row_vpids (r : row_l) : list Z := option_list (row_ctl r) ++ concat (map rack_vpids (row_racks r)).
Definition vpids (L : layout) : list Z :=
  l_sched L :: option_list (l_cluster L) ++ concat (map row_vpids (l_rows L)).

(** Vpids for which the bitmaps have room. *)
Definition small (v : Z) : Prop := 0 ≤ v < 2 ^ 29.

Definition name_of (o : option Z) : opal_process_name_t :=
  match o with Some v => mk_name 0 v | None => ORTE_NAME_INVALID end.

(** ** Buffers that hold a definition *)

Definition reads {A} (T : opal_dss_type_info_t A) (x : list Z) (a : A) : Prop := unpacks false (unpack1 T) x a.

Definition rack_def (k : rack_l) (b : opal_buffer_t) : Prop :=
  ∃ x ys, ahead b (x ++ concat ys) ∧ reads t_name x (name_of (rack_ctl k)) ∧
    Forall2 (λ y n, reads t_name y (mk_name 0 n)) ys (rack_nodes k).

Definition row_def (r : row_l) (b : opal_buffer_t) : Prop :=
  ∃ x y zs, ahead b (x ++ y ++ concat zs) ∧ reads t_int32 x (Z.of_nat (length (row_racks r))) ∧
    reads t_name y (name_of (row_ctl r)) ∧
    Forall2 (λ z k, ∃ b, reads t_buffer z b ∧ rack_def k b) zs (row_racks r).

Definition cluster_def (L : layout) (b : opal_buffer_t) : Prop :=
  ∃ w x y zs, ahead b (w ++ x ++ y ++ concat zs) ∧
    (∃ b v rest, reads t_buffer w b ∧ ahead b (v ++ rest) ∧ reads t_name v (mk_name 0 (l_sched L))) ∧
    reads t_name x (name_of (l_cluster L)) ∧ reads t_int32 y (Z.of_nat (length (l_rows L))) ∧
    Forall2 (λ z r, ∃ b, reads t_buffer z b ∧ row_def r b) zs (l_rows L).

(** ** Actions *)

Inductive act := Child (v : Z) | Rel (v : Z) | Adopt (v : Z).

Definition run_act (a : act) (s : plan_t) : option plan_t :=
  match a with
  | Child v => add_child v s
  | Rel v => add_relative v s
  | Adopt v => Some (mk_plan (set_lifeline_ptr true (set_parent (mk_name 0 v) (proc s))) (child s))
  end.

Fixpoint run (l : list act) (s : plan_t) : option plan_t :=
  match l with
  | [] => Some s
  | a :: l => s ← run_act a s; run l s
  end.

Lemma run_app l1 l2 s : run (l1 ++ l2) s = s ← run l1 s; run l2 s.
Proof.
  revert s. induction l1 as [|a l1 IH]; intros s; [done|]. cbn [app run]. destruct (run_act a s); cbn; [apply IH|done].
Qed.

Lemma run_name l s s' : run l s = Some s' → my_name (proc s') = my_name (proc s).
Proof.
  revert s. induction l as [|a l IH]; intros s; [by intros [= <-]|]. cbn [run].
  destruct (run_act a s) as [s1|] eqn:E; [|done]. cbn. intros H. rewrite (IH _ H). clear -E.
  destruct a; cbn in E; unfold add_child, add_relative in E; repeat case_match; simplify_option_eq; try done;
    repeat case_match; simplify_eq; done.
Qed.

Section layout.
Context (me sched : Z) (is_sched : bool) (cl : option Z).

Fixpoint first_of (cands : list (option Z)) : Z :=
  match cands with
  | [] => sched
  | Some v :: _ => v
  | None :: cands => first_of cands
  end.

Definition node_acts (row : option Z) (i_am_row : bool) (rack : option Z) (i_am_rack : bool) (n : Z) : list act :=
  (if i_am_rack || (i_am_row && none rack) || (is_sched && none cl && none row && none rack) then [Child n]
   else if i_am_row || is_sched then [Rel n] else [])
  ++ (if me =? n then [Adopt (first_of [rack; row; cl])] else []).

Definition is_me (o : option Z) : bool := match o with Some v => me =? v | None => false end.

Definition rack_acts (row : option Z) (i_am_row : bool) (k : rack_l) : list act :=
  match rack_ctl k with
  | Some v => (if i_am_row || (is_sched && none cl && none row) then [Child v]
               else if is_sched then [Rel v] else [])
              ++ (if me =? v then [Adopt (first_of [row; cl])] else [])
  | None => []
  end ++ concat (map (node_acts row i_am_row (rack_ctl k) (is_me (rack_ctl k))) (rack_nodes k)).

Definition row_acts (r : row_l) : list act :=
  match row_ctl r with
  | Some v => (if is_sched then if none cl then [Child v] else [Rel v] else [])
              ++ (if me =? v then [Adopt (first_of [cl])] else [])
  | None => []
  end ++ concat (map (rack_acts (row_ctl r) (is_me (row_ctl r))) (row_racks r)).

(** ** The functions of the code do these actions *)

Definition above : above_t := mk_above (Some (mk_name 0 sched)) is_sched (mk_name 0 <$> cl) false.
Definition named (s : plan_t) : Prop := my_name (proc s) = mk_name 0 me.

Lemma same_as_eqb a b : same_as (mk_name 0 a) (mk_name 0 b) = (a =? b).
Proof. done. Qed.

Lemma small_valid v : small v → valid_proc (mk_name 0 v) = true.
Proof.
  unfold small, valid_proc. cbn [jobid vpid]. intros Hv.
  rewrite (proj2 (Z.eqb_neq ORTE_VPID_INVALID v)) by (unfold ORTE_VPID_INVALID; lia). done.
Qed.

Lemma present_name o : (∀ v, o = Some v → small v) → present (name_of o) = mk_name 0 <$> o.
Proof. unfold present. destruct o as [v|]; cbn [name_of]; intros H; [by rewrite small_valid by (by apply H)|reflexivity]. Qed.

Lemma none_fmap {A B} (f : A → B) o : none (f <$> o) = none o.
Proof. by destruct o. Qed.

Lemma nearest_first cands s : nearest (map (fmap (M:=option) (mk_name 0)) cands ++ [Some (mk_name 0 sched)]) s = mk_name 0 (first_of cands).
Proof. induction cands as [|[v|] cands IH]; [done..|]. cbn. apply IH. Qed.

Lemma run_adopt (b : bool) cands s : 
  run (if b then [Adopt (first_of cands)] else []) s =
  Some (if b then adopt (map (fmap (M:=option) (mk_name 0)) cands ++ [Some (mk_name 0 sched)]) s else s).
Proof. destruct b; [|done]. cbn. unfold adopt. by rewrite nearest_first. Qed.

Lemma run_pick (c d : bool) v s :
  (if c then add_child v s else if d then add_relative v s else Some s) =
  run (if c then [Child v] else if d then [Rel v] else []) s.
Proof. destruct c; [|destruct d]; cbn [run run_act]; [|..|done]; by rewrite bind_with_Some. Qed.

Lemma run_named l s s' : named s → run l s = Some s' → named s'.
Proof. unfold named. intros Hs E. by rewrite (run_name _ _ _ E). Qed.

Lemma named_same v s : named s → same_as (my_name (proc s)) (mk_name 0 v) = (me =? v).
Proof. intros ->. done. Qed.

Lemma named_same' v s : named s → same_as (mk_name 0 v) (my_name (proc s)) = (me =? v).
Proof. intros ->. rewrite same_as_eqb. apply Z.eqb_sym. Qed.

Lemma node_step_acts row i_am_row rack i_am_rack n s : named s →
  node_step above (mk_name 0 <$> row) i_am_row (mk_name 0 <$> rack) i_am_rack (mk_name 0 n) s =
  run (node_acts row i_am_row rack i_am_rack n) s.
Proof.
  intros Hs. unfold node_step, node_acts. cbn [above RoutedOrcm.cluster_name RoutedOrcm.i_am_cluster_ctlr
    RoutedOrcm.i_am_sched RoutedOrcm.sched_name vpid].
  rewrite !none_fmap, !andb_false_l, !orb_false_r, run_app, run_pick.
  destruct (run _ s) as [s1|] eqn:E; [|done]. cbn [mbind option_bind].
  rewrite (named_same n s1) by (by eapply run_named). symmetry. apply run_adopt.
Qed.

(** Reading what comes next. *)
Lemma reads_next {A} (T : opal_dss_type_info_t A) b x y a : reads T x a → ahead b (x ++ y) →
  ∃ b', unpack1 T b = Some (b', inr a) ∧ ahead b' y ∧ base b' = base b.
Proof. intros Hr Ha. destruct (ahead_unpack b x y _ a Ha Hr) as [E H]. by exists (skip b (length x)). Qed.

(** Nothing can be read from no bytes. *)
Lemma reads_pos {A} (T : opal_dss_type_info_t A) x a : reads T x a → (1 ≤ length x)%nat.
Proof.
  intros Hr. destruct x; [|cbn; lia].
  assert (ahead (mk_buf false [] 0 0) []) as Ha by apply holds_ahead, holds_new.
  destruct (reads_next T (mk_buf false [] 0 0) [] [] a Hr Ha) as (b' & E & _). by rewrite (ahead_end T _ Ha) in E.
Qed.

Lemma nodes_loop_acts step acts fuel ys ns b s :
  (∀ n s, named s → step (mk_name 0 n) s = run (acts n) s) → named s →
  ahead b (concat ys) → Forall2 (λ y n, reads t_name y (mk_name 0 n)) ys ns → (length ns < fuel)%nat →
  nodes_loop fuel step b s = '(s') ← run (concat (map acts ns)) s; Some (s', OPAL_ERR_UNPACK_READ_PAST_END_OF_BUFFER).
Proof.
  intros Hstep Hs Ha Hns. revert fuel b s Hs Ha.
  induction Hns as [|y n ys ns Hy _ IH]; intros [|fuel] b s Hs Ha Hf; cbn [length] in Hf; try lia; cbn [nodes_loop].
  - by rewrite (ahead_end t_name b Ha).
  - destruct (reads_next _ _ _ _ _ Hy Ha) as (b' & -> & Ha' & _). cbn [map concat]. rewrite Hstep, run_app by done.
    destruct (run (acts n) s) as [s1|] eqn:E; [|done]. cbn [mbind option_bind].
    apply IH; [by eapply run_named|done|lia].
Qed.

Lemma reads_count ys ns : Forall2 (λ y n, reads t_name y (mk_name 0 n)) ys ns → (length ns ≤ length (concat ys))%nat.
Proof.
  induction 1 as [|y n ys ns Hy _ IH]; [done|]. cbn [concat length]. rewrite length_app.
  pose proof (reads_pos _ _ _ Hy). lia.
Qed.

Lemma ahead_length b x : ahead b x → (length x ≤ length (base b))%nat.
Proof.
  intros [_ [_ Hr]]. apply (f_equal length) in Hr. unfold remaining in Hr.
  rewrite length_drop, app_nil_r in Hr. lia.
Qed.

Lemma nodes_acts row i_am_row rack i_am_rack ys ns b s : named s → ahead b (concat ys) →
  Forall2 (λ y n, reads t_name y (mk_name 0 n)) ys ns →
  nodes_loop (S (length (base b))) (node_step above (mk_name 0 <$> row) i_am_row (mk_name 0 <$> rack) i_am_rack) b s =
  '(s') ← run (concat (map (node_acts row i_am_row rack i_am_rack) ns)) s;
  Some (s', OPAL_ERR_UNPACK_READ_PAST_END_OF_BUFFER).
Proof.
  intros Hs Ha Hys. eapply nodes_loop_acts; [|done..|].
  - intros n s' Hs'. by apply node_step_acts.
  - pose proof (ahead_length _ _ Ha). pose proof (reads_count _ _ Hys). lia.
Qed.

Lemma rack_step_acts row i_am_row k b s : named s → (∀ v, rack_ctl k = Some v → small v) → rack_def k b →
  rack_step above (mk_name 0 <$> row) i_am_row b s = '(s') ← run (rack_acts row i_am_row k) s; Some (s', inr tt).
Proof.
  intros Hs Hk (x & ys & Ha & Hx & Hys). unfold rack_step, rack_acts.
  destruct (reads_next _ _ _ _ _ Hx Ha) as (b' & -> & Ha' & Eb). rewrite present_name by done.
  cbn [above RoutedOrcm.cluster_name RoutedOrcm.i_am_cluster_ctlr RoutedOrcm.i_am_sched RoutedOrcm.sched_name].
  rewrite !none_fmap, !andb_false_l, !orb_false_r, orb_false_l, run_app.
  destruct (rack_ctl k) as [v|]; cbn [none name_of vpid is_me negb andb].
  - rewrite run_pick, run_app. destruct (run _ s) as [s1|] eqn:E1; [|done]. cbn [mbind option_bind].
    assert (named s1) as Hs1 by (by eapply run_named). rewrite named_same', run_adopt by done. cbn [mbind option_bind map app].
    rewrite (nodes_acts row i_am_row (Some v) (me =? v) ys (rack_nodes k) b') by (done || by destruct (me =? v)).
    by destruct (run (concat _) _).
  - cbn [mbind option_bind run]. rewrite (nodes_acts row i_am_row None false ys (rack_nodes k) b') by done.
    by destruct (run (concat _) _).
Qed.

Lemma racks_loop_acts row i_am_row zs ks b s : named s → Forall (λ k, ∀ v, rack_ctl k = Some v → small v) ks →
  ahead b (concat zs) → Forall2 (λ z k, ∃ b, reads t_buffer z b ∧ rack_def k b) zs ks →
  racks_loop (length ks) above (mk_name 0 <$> row) i_am_row b s =
  '(s') ← run (concat (map (rack_acts row i_am_row) ks)) s; Some (s', inr tt).
Proof.
  intros Hs Hk Ha Hzs. revert b s Hs Ha. induction Hzs as [|z k zs ks (kb & Hz & Hkb) _ IH]; intros b s Hs Ha; [done|].
  apply Forall_cons in Hk as [Hk Hks]. cbn [length racks_loop map concat].
  destruct (reads_next _ _ _ _ _ Hz Ha) as (b' & -> & Ha' & _). rewrite (rack_step_acts row i_am_row k), run_app by done.
  destruct (run (rack_acts _ _ k) s) as [s1|] eqn:E; [|done]. cbn [mbind option_bind].
  apply IH; [done|by eapply run_named|done].
Qed.

Definition row_small (r : row_l) : Prop :=
  (∀ v, row_ctl r = Some v → small v) ∧ Forall (λ k, ∀ v, rack_ctl k = Some v → small v) (row_racks r).

Lemma row_step_acts r b s : named s → row_small r → row_def r b →
  row_step above b s = '(s') ← run (row_acts r) s; Some (s', inr tt).
Proof.
  intros Hs [Hr Hk] (x & y & zs & Ha & Hx & Hy & Hzs). unfold row_step, row_acts.
  destruct (reads_next _ _ _ _ _ Hx Ha) as (b1 & -> & Ha1 & _).
  destruct (reads_next _ _ _ _ _ Hy Ha1) as (b2 & -> & Ha2 & _). rewrite present_name by done.
  cbn [above RoutedOrcm.cluster_name RoutedOrcm.i_am_cluster_ctlr RoutedOrcm.i_am_sched RoutedOrcm.sched_name].
  rewrite !none_fmap, run_app, Nat2Z.id.
  destruct (row_ctl r) as [v|]; cbn [none name_of vpid is_me negb andb].
  - rewrite orb_false_l, run_app.
    replace (if is_sched && negb (none cl) then add_relative v s else if none cl && is_sched then add_child v s else Some s)
      with (run (if is_sched then if none cl then [Child v] else [Rel v] else []) s)
      by (destruct is_sched, (none cl); cbn [run run_act andb negb]; rewrite ?bind_with_Some; done).
    destruct (run _ s) as [s1|] eqn:E1; [|done]. cbn [mbind option_bind].
    assert (named s1) as Hs1 by (by eapply run_named). rewrite named_same', run_adopt by done. cbn [mbind option_bind map app].
    rewrite (racks_loop_acts (Some v) (me =? v) zs (row_racks r) b2) by (done || by destruct (me =? v)). done.
  - cbn [mbind option_bind run]. by rewrite (racks_loop_acts None false zs (row_racks r) b2) by done.
Qed.

Lemma rows_loop_acts zs rs b s : named s → Forall row_small rs → ahead b (concat zs) →
  Forall2 (λ z r, ∃ b, reads t_buffer z b ∧ row_def r b) zs rs →
  rows_loop (length rs) above b s = '(s') ← run (concat (map row_acts rs)) s; Some (s', inr tt).
Proof.
  intros Hs Hr Ha Hzs. revert b s Hs Ha. induction Hzs as [|z r zs rs (rb & Hz & Hrb) _ IH]; intros b s Hs Ha; [done|].
  apply Forall_cons in Hr as [Hr Hrs]. cbn [length rows_loop map concat].
  destruct (reads_next _ _ _ _ _ Hz Ha) as (b' & -> & Ha' & _). rewrite (row_step_acts r), run_app by done.
  destruct (run (row_acts r) s) as [s1|] eqn:E; [|done]. cbn [mbind option_bind].
  apply IH; [done|by eapply run_named|done].
Qed.

End layout.

(** All the actions of a process. *)
Definition init_acts (me : Z) (L : layout) : list act :=
  (if me =? l_sched L then Child <$> option_list (l_cluster L) else [])
  ++ concat (map (row_acts me (l_sched L) (me =? l_sched L) (l_cluster L)) (l_rows L)).

Definition layout_small (L : layout) : Prop :=
  small (l_sched L) ∧ (∀ v, l_cluster L = Some v → small v) ∧ Forall row_small (l_rows L).

Lemma init_routes_acts me L b p : my_name p = mk_name 0 me → ORTE_PROC_IS_TOOL p = false → layout_small L →
  cluster_def L b →
  init_routes 0 (Some b) p = '(s) ← run (init_acts me L) (mk_plan p false); Some (proc s, OPAL_SUCCESS).
Proof.
  intros Hp Ht (Hs & Hc & Hrs) (w & x & y & zs & Ha & (sb & v & rest & Hw & Hsb & Hv) & Hx & Hy & Hzs).
  unfold init_routes. rewrite Hp. cbn [jobid Z.eqb negb].
  destruct (reads_next _ _ _ _ _ Hw Ha) as (b1 & -> & Ha1 & _). unfold read_sched.
  destruct (reads_next _ _ _ _ _ Hv Hsb) as (sb' & -> & _ & _). rewrite small_valid by done. cbn [mbind option_bind].
  rewrite Ht. destruct (reads_next _ _ _ _ _ Hx Ha1) as (b2 & -> & Ha2 & _).
  assert (same_as (mk_name 0 (l_sched L)) (mk_name 0 me) = (me =? l_sched L)) as -> by apply Z.eqb_sym.
  unfold init_acts. rewrite run_app. set (am := me =? l_sched L).
  assert (cluster_step am (name_of (l_cluster L)) (mk_plan p false) =
    '(s) ← run (if am then Child <$> option_list (l_cluster L) else []) (mk_plan p false); Some (s, false)) as ->.
  { unfold cluster_step. destruct (l_cluster L) as [c|]; cbn [name_of option_list].
    - rewrite small_valid by (by apply Hc). destruct am; [|done]. cbn. by destruct (add_child _ _).
    - change (valid_proc ORTE_NAME_INVALID) with false. cbn [proc]. rewrite Hp. by destruct am. }
  destruct (run (if am then _ else _) _) as [s1|] eqn:E; [|done]. cbn [mbind option_bind].
  destruct (reads_next _ _ _ _ _ Hy Ha2) as (b3 & -> & Ha3 & _). rewrite Nat2Z.id, present_name by done.
  change (mk_above (Some (mk_name 0 (l_sched L))) am (mk_name 0 <$> l_cluster L) false) with (above (l_sched L) am (l_cluster L)).
  rewrite (rows_loop_acts me (l_sched L) am (l_cluster L) zs (l_rows L) b3 s1); [|unfold named; by rewrite (run_name _ _ _ E)|done..].
  by destruct (run (concat _) s1).
Qed.

End OrcmLayout.
