(* ===== verification/OrcmRoutes.v ===== *)
(** * The routes of a configured cluster

    The tree of a layout: below the scheduler are the cluster controller, the rows, the
    racks and the nodes, with the members of a part without a controller taking its place.
    A process that reads the definition gets its parent in this tree and its children with
    all that is below them; along these routes a message comes to its target. *)

From Stdlib Require Import ZArith Lia Ascii.
From stdpp Require Import prelude numbers strings gmap list.
From S2P Require Import Prelude CString Dss Names DssBuffer Bitmap Routed RoutedOrcm OrcmTree OrcmLayout.

Local Open Scope Z_scope.

Module OrcmRoutes.
Import Dss Names DssBuffer RoutedOrcm OrcmTree OrcmLayout.

Definition leaf (n : Z) : tree := Tree n [].

(** A controller with the members below it, or the members. *)
Definition grouped (ctl : option Z) (members : list tree) : list tree :=
  match ctl with Some v => [Tree v members] | None => members end.

Definition rack_trees (k : rack_l) : list tree := grouped (rack_ctl k) (map leaf (rack_nodes k)).
Definition row_trees (r : row_l) : list tree := grouped (row_ctl r) (concat (map rack_trees (row_racks r))).
Definition tree_of (L : layout) : tree :=
  Tree (l_sched L) (grouped (l_cluster L) (concat (map row_trees (l_rows L)))).

Definition flabels (F : list tree) : list Z := concat (map labels F).

Lemma flabels_app F G : flabels (F ++ G) = flabels F ++ flabels G.
Proof. unfold flabels. by rewrite map_app, concat_app. Qed.

Lemma flabels_concat {A} (f : A → list tree) (g : A → list Z) l : (∀ x, flabels (f x) = g x) →
  flabels (concat (map f l)) = concat (map g l).
Proof. intros H. induction l as [|x l IH]; [done|]. cbn [map concat]. by rewrite flabels_app, H, IH. Qed.

Lemma flabels_leaves ns : flabels (map leaf ns) = ns.
Proof. induction ns as [|n ns IH]; [done|]. cbn. f_equal. exact IH. Qed.

Lemma flabels_grouped ctl F : flabels (grouped ctl F) = option_list ctl ++ flabels F.
Proof. destruct ctl as [v|]; [|done]. unfold flabels. cbn. by rewrite app_nil_r. Qed.

Lemma flabels_rack k : flabels (rack_trees k) = rack_vpids k.
Proof. unfold rack_trees, rack_vpids. by rewrite flabels_grouped, flabels_leaves. Qed.

Lemma flabels_row r : flabels (row_trees r) = row_vpids r.
Proof. unfold row_trees, row_vpids. by rewrite flabels_grouped, (flabels_concat _ rack_vpids _ flabels_rack). Qed.

Lemma labels_tree_of L : labels (tree_of L) = vpids L.
Proof.
  unfold tree_of, vpids. rewrite labels_label. f_equal.
  change (flabels (grouped (l_cluster L) (concat (map row_trees (l_rows L)))) = option_list (l_cluster L) ++ concat (map row_vpids (l_rows L))).
  by rewrite flabels_grouped, (flabels_concat _ row_vpids _ flabels_row).
Qed.

(** ** The actions that build the children *)

Definition kid_acts (t : tree) : list act := Child (label t) :: map Rel (under t).
Definition forest_acts (F : list tree) : list act := concat (map kid_acts F).

Lemma forest_acts_app F G : forest_acts (F ++ G) = forest_acts F ++ forest_acts G.
Proof. unfold forest_acts. by rewrite map_app, concat_app. Qed.

Lemma forest_acts_concat {A} (f : A → list tree) (g : A → list act) l : Forall (λ x, g x = forest_acts (f x)) l →
  concat (map g l) = forest_acts (concat (map f l)).
Proof. induction 1 as [|x l E _ IH]; [done|]. cbn [map concat]. by rewrite forest_acts_app, E, IH. Qed.

Lemma rel_concat {A} (f : A → list Z) (g : A → list act) l : Forall (λ x, g x = map Rel (f x)) l →
  concat (map g l) = map Rel (concat (map f l)).
Proof. induction 1 as [|x l E _ IH]; [done|]. cbn [map concat]. by rewrite map_app, E, IH. Qed.

Lemma nil_concat {A B} (g : A → list B) l : Forall (λ x, g x = []) l → concat (map g l) = [].
Proof. induction 1 as [|x l E _ IH]; [done|]. cbn [map concat]. by rewrite E, IH. Qed.

(** One member does something, the others nothing. *)
Lemma one_concat {A B} (g : A → list B) l1 x l2 : Forall (λ x, g x = []) l1 → Forall (λ x, g x = []) l2 →
  concat (map g (l1 ++ x :: l2)) = g x.
Proof. intros H1 H2. rewrite map_app, concat_app. cbn. by rewrite !nil_concat, app_nil_r by done. Qed.

(** [placed F u s up]: [s] sits in the forest [F] below [u], and [up] is its parent. *)
Definition placed (F : list tree) (u : Z) (s : tree) (up : Z) : Prop :=
  ∃ k o, k ∈ F ∧ sits k o s ∧ up = default u o.

Lemma placed_grouped ctl F u s up : placed F (default u ctl) s up → placed (grouped ctl F) u s up.
Proof.
  destruct ctl as [v|]; [|done]. intros (k & o & Hk & Hs & ->). exists (Tree v F), (Some (default v o)).
  split; [by left|]. split; [|done]. by apply (sits_kid (Tree v F) k o s).
Qed.

Lemma placed_root v F u : placed (grouped (Some v) F) u (Tree v F) u.
Proof. exists (Tree v F), None. split; [by left|]. split; [constructor|done]. Qed.

Lemma placed_concat {A} (f : A → list tree) x l u s up : x ∈ l → placed (f x) u s up → placed (concat (map f l)) u s up.
Proof.
  intros Hx (k & o & Hk & Hs & E). exists k, o. split; [|done]. clear -Hx Hk. induction l as [|y l IH]; [by apply elem_of_nil in Hx|].
  cbn [map concat]. apply elem_of_app. apply elem_of_cons in Hx as [->|Hx]; [by left|right; by apply IH].
Qed.

(** ** Racks *)

Section acts.
Context (me sched : Z) (is_sched : bool) (cl : option Z).

Notation node_acts := (node_acts me sched is_sched cl).
Notation rack_acts := (rack_acts me sched is_sched cl).
Notation row_acts := (row_acts me sched is_sched cl).
Notation first_of := (first_of sched).

Lemma not_me n (l : list Z) : me ∉ l → n ∈ l → (me =? n) = false.
Proof. intros Hm Hn. apply Z.eqb_neq. intros ->. done. Qed.

Lemma is_me_false ctl (l : list Z) : me ∉ option_list ctl ++ l → is_me me ctl = false.
Proof. destruct ctl as [v|]; [|done]. cbn. intros H. apply Z.eqb_neq. set_solver. Qed.

(** The nodes of a rack that is not this process, and none of which is. *)
Lemma nodes_others row i_am_row rack ns : me ∉ ns →
  concat (map (node_acts row i_am_row rack false) ns) =
  if i_am_row && none rack || is_sched && none cl && none row && none rack then map Child ns
  else if i_am_row || is_sched then map Rel ns else [].
Proof.
  intros Hm. induction ns as [|n ns IH]; [by repeat case_match|]. cbn [map concat]. rewrite IH by set_solver.
  unfold OrcmLayout.node_acts. rewrite (not_me n (n :: ns)) by (done || set_solver). rewrite orb_false_l, app_nil_r.
  destruct (i_am_row && none rack || _); [done|]. by destruct (i_am_row || is_sched).
Qed.

Lemma forest_leaves ns : forest_acts (map leaf ns) = map Child ns.
Proof. induction ns as [|n ns IH]; [done|]. cbn. f_equal. exact IH. Qed.

Lemma rack_quiet row k : me ∉ rack_vpids k → is_sched = false → rack_acts row false k = [].
Proof.
  unfold rack_vpids, OrcmLayout.rack_acts. intros Hm Hs. rewrite (is_me_false _ _ Hm), nodes_others by set_solver.
  rewrite Hs. destruct (rack_ctl k) as [v|]; cbn; [|done]. by rewrite (not_me v [v]) by set_solver.
Qed.

Lemma rack_direct row i_am_row k : me ∉ rack_vpids k → i_am_row || is_sched && none cl && none row = true →
  rack_acts row i_am_row k = forest_acts (rack_trees k).
Proof.
  unfold rack_vpids, rack_trees, OrcmLayout.rack_acts. intros Hm Hd.
  rewrite (is_me_false _ _ Hm), nodes_others by set_solver. destruct (rack_ctl k) as [v|]; cbn [none grouped].
  - rewrite Hd, !andb_false_r, (not_me v [v]) by set_solver. cbn [orb app].
    assert (i_am_row || is_sched = true) as -> by (destruct i_am_row, is_sched; done).
    unfold forest_acts, kid_acts, under. cbn [map concat label kids]. rewrite app_nil_r.
    change (concat (map labels (map leaf (rack_nodes k)))) with (flabels (map leaf (rack_nodes k))).
    by rewrite flabels_leaves.
  - rewrite !andb_true_r, Hd, forest_leaves. done.
Qed.

Lemma rack_under row k : me ∉ rack_vpids k → is_sched = true → none cl && none row = false →
  rack_acts row false k = map Rel (flabels (rack_trees k)).
Proof.
  rewrite flabels_rack. unfold rack_vpids, OrcmLayout.rack_acts. intros Hm Hs Hu.
  rewrite (is_me_false _ _ Hm), nodes_others by set_solver. rewrite Hs. cbn [andb orb]. rewrite Hu. cbn [andb orb].
  rewrite map_app. destruct (rack_ctl k) as [v|]; [|done]. cbn. by rewrite (not_me v [v]) by set_solver.
Qed.

(** This process is in the rack. *)
Lemma rack_mine row k : me ∈ rack_vpids k → NoDup (rack_vpids k) → is_sched = false →
  ∃ s up, label s = me ∧ placed (rack_trees k) (first_of [row; cl]) s up ∧
    rack_acts row false k = Adopt up :: forest_acts (kids s).
Proof.
  unfold rack_vpids, rack_trees, OrcmLayout.rack_acts. intros Hm Hd Hs.
  apply NoDup_app in Hd as (_ & Hd & Hn). apply elem_of_app in Hm as [Hm|Hm].
  - destruct (rack_ctl k) as [v|]; [|by apply elem_of_nil in Hm]. cbn in Hm. apply list_elem_of_singleton in Hm as <-.
    exists (Tree me (map leaf (rack_nodes k))), (first_of [row; cl]). split; [done|]. split; [apply placed_root|].
    cbn [is_me kids]. rewrite Hs, Z.eqb_refl, forest_leaves. cbn [andb orb app]. f_equal.
    specialize (Hd me ltac:(cbn; set_solver)). clear -Hd. induction (rack_nodes k) as [|n ns IH]; [done|].
    cbn. rewrite (not_me n (n :: ns)) by (done || set_solver). cbn. f_equal. apply IH. set_solver.
  - assert (me ∉ option_list (rack_ctl k)) as Hc by (intros Hc; by apply (Hd me)).
    exists (leaf me), (first_of [rack_ctl k; row; cl]). split; [done|]. split.
    + apply placed_grouped. exists (leaf me), None. split; [|split; [constructor|by destruct (rack_ctl k)]].
      apply list_elem_of_In, in_map, list_elem_of_In, Hm.
    + assert (match rack_ctl k with
        | Some v => (if false || is_sched && none cl && none row then [Child v] else if is_sched then [Rel v] else [])
                    ++ (if me =? v then [Adopt (first_of [row; cl])] else [])
        | None => [] end = []) as ->.
      { rewrite Hs. destruct (rack_ctl k) as [v|]; [|done]. cbn. by rewrite (not_me v [v]) by (cbn in Hc; set_solver). }
      assert (is_me me (rack_ctl k) = false) as -> by (apply (is_me_false _ []); set_solver).
      apply list_elem_of_split in Hm as (l1 & l2 & E). rewrite E in *. apply NoDup_app in Hn as (_ & Hn1 & Hn2).
      apply NoDup_cons in Hn2 as [Hn2 _]. cbn [app]. rewrite one_concat.
      * unfold OrcmLayout.node_acts. rewrite Hs, Z.eqb_refl. done.
      * apply Forall_forall. intros n Hin. unfold OrcmLayout.node_acts. rewrite Hs.
        rewrite (not_me n l1); [done| |done]. intros ?. by apply (Hn1 me); [|left].
      * apply Forall_forall. intros n Hin. unfold OrcmLayout.node_acts. rewrite Hs. by rewrite (not_me n l2).
Qed.

(** ** Rows *)

Lemma not_in_member {A} (f : A → list Z) l : me ∉ concat (map f l) → Forall (λ x, me ∉ f x) l.
Proof. induction l as [|x l IH]; [done|]. cbn [map concat]. rewrite not_elem_of_app. intros [? ?]. constructor; auto. Qed.

Lemma in_member {A} (f : A → list Z) l : me ∈ concat (map f l) → NoDup (concat (map f l)) →
  ∃ l1 x l2, l = l1 ++ x :: l2 ∧ me ∈ f x ∧ NoDup (f x) ∧ Forall (λ x, me ∉ f x) l1 ∧ Forall (λ x, me ∉ f x) l2.
Proof.
  induction l as [|x l IH]; cbn [map concat]; [by intros ?%elem_of_nil|].
  intros Hm (H1 & Hd & H2)%NoDup_app. destruct (decide (me ∈ f x)) as [Hx|Hx].
  - exists [], x, l. split_and!; try done. by apply not_in_member, Hd.
  - apply elem_of_app in Hm as [?|Hm]; [done|]. destruct (IH Hm H2) as (l1 & y & l2 & -> & ? & ? & ? & ?).
    exists (x :: l1), y, l2. split_and!; try done. by constructor.
Qed.

Lemma row_quiet r : me ∉ row_vpids r → is_sched = false → row_acts r = [].
Proof.
  unfold row_vpids, OrcmLayout.row_acts. intros Hm Hs. rewrite (is_me_false _ _ Hm).
  apply not_elem_of_app in Hm as [Hc Hm]. rewrite nil_concat.
  - rewrite Hs. destruct (row_ctl r) as [v|]; [|done]. cbn. by rewrite (not_me v [v]) by (cbn in Hc; set_solver).
  - eapply Forall_impl; [apply not_in_member, Hm|]. intros k Hk. by apply rack_quiet.
Qed.

Lemma row_direct r : me ∉ row_vpids r → is_sched = true → cl = None → row_acts r = forest_acts (row_trees r).
Proof.
  unfold row_vpids, row_trees, OrcmLayout.row_acts. intros Hm Hs Hcl. rewrite (is_me_false _ _ Hm).
  apply not_elem_of_app in Hm as [Hc Hm%not_in_member].
  destruct (row_ctl r) as [v|]; cbn [none grouped].
  - rewrite (not_me v [v]) by (cbn in Hc; set_solver).
    replace (if is_sched then if none cl then [Child v] else [Rel v] else []) with [Child v] by (by rewrite Hs, Hcl).
    cbn [app].
    rewrite (rel_concat (flabels ∘ rack_trees)).
    + unfold forest_acts, kid_acts, under. cbn [map concat label kids]. rewrite app_nil_r. do 2 f_equal.
      symmetry. by apply flabels_concat.
    + eapply Forall_impl; [exact Hm|]. intros k Hk. apply rack_under; [done..|]. by rewrite Hcl.
  - cbn [app]. apply forest_acts_concat. eapply Forall_impl; [exact Hm|]. intros k Hk.
    apply rack_direct; [done|]. by rewrite Hs, Hcl.
Qed.

Lemma row_under r : me ∉ row_vpids r → is_sched = true → cl ≠ None → row_acts r = map Rel (flabels (row_trees r)).
Proof.
  intros Hm Hs Hcl. unfold row_trees. rewrite flabels_grouped, (flabels_concat _ (flabels ∘ rack_trees)), map_app by done.
  unfold row_vpids, OrcmLayout.row_acts in *. rewrite (is_me_false _ _ Hm).
  apply not_elem_of_app in Hm as [Hc Hm%not_in_member]. rewrite (rel_concat (flabels ∘ rack_trees)).
  - f_equal. rewrite Hs. destruct (row_ctl r) as [v|]; [|done]. rewrite (not_me v [v]) by (cbn in Hc; set_solver).
    by destruct cl.
  - eapply Forall_impl; [exact Hm|]. intros k Hk. apply rack_under; [done..|]. by destruct cl.
Qed.

Lemma row_mine r : me ∈ row_vpids r → NoDup (row_vpids r) → is_sched = false →
  ∃ s up, label s = me ∧ placed (row_trees r) (first_of [cl]) s up ∧ row_acts r = Adopt up :: forest_acts (kids s).
Proof.
  unfold row_vpids, row_trees, OrcmLayout.row_acts. intros Hm Hd Hs.
  apply NoDup_app in Hd as (_ & Hd & Hn). apply elem_of_app in Hm as [Hm|Hm].
  - destruct (row_ctl r) as [v|]; [|by apply elem_of_nil in Hm]. cbn in Hm. apply list_elem_of_singleton in Hm as <-.
    specialize (Hd me ltac:(cbn; set_solver)). apply not_in_member in Hd.
    eexists _, (first_of [cl]). split; [|split; [apply placed_root|]]; [done|].
    cbn [is_me kids]. rewrite Hs, Z.eqb_refl at 1. cbn [app]. f_equal. rewrite Z.eqb_refl.
    apply forest_acts_concat. eapply Forall_impl; [exact Hd|]. intros k Hk. by apply rack_direct.
  - assert (me ∉ option_list (row_ctl r)) as Hc by (intros Hc; by apply (Hd me)).
    assert (is_me me (row_ctl r) = false) as -> by (apply (is_me_false _ []); set_solver).
    destruct (in_member rack_vpids _ Hm Hn) as (l1 & k & l2 & -> & Hk & Hdk & H1 & H2).
    destruct (rack_mine (row_ctl r) k Hk Hdk Hs) as (s & up & Hl & Hpl & E). exists s, up. split; [done|]. split.
    + apply placed_grouped, (placed_concat _ k); [set_solver|]. by destruct (row_ctl r).
    + rewrite one_concat, E.
      * rewrite Hs. destruct (row_ctl r) as [v|]; [|done]. by rewrite (not_me v [v]) by (cbn in Hc; set_solver).
      * eapply Forall_impl; [exact H1|]. intros k' Hk'. by apply rack_quiet.
      * eapply Forall_impl; [exact H2|]. intros k' Hk'. by apply rack_quiet.
Qed.

End acts.

(** ** The whole layout *)

(** The scheduler. *)
Lemma sched_acts L : NoDup (vpids L) → init_acts (l_sched L) L = forest_acts (kids (tree_of L)).
Proof.
  unfold vpids, init_acts, tree_of. intros [Hm _]%NoDup_cons. apply not_elem_of_app in Hm as [_ Hm%not_in_member].
  rewrite Z.eqb_refl. cbn [kids]. destruct (l_cluster L) as [c|]; cbn [option_list grouped fmap list_fmap app].
  - rewrite (rel_concat (flabels ∘ row_trees)).
    + unfold forest_acts, kid_acts, under. cbn [map concat label kids]. rewrite app_nil_r. do 2 f_equal.
      symmetry. by apply flabels_concat.
    + eapply Forall_impl; [exact Hm|]. intros r Hr. by apply row_under.
  - apply forest_acts_concat. eapply Forall_impl; [exact Hm|]. intros r Hr. by apply row_direct.
Qed.

(** A process that is neither the scheduler nor the cluster controller. *)
Lemma other_acts me L : NoDup (vpids L) → me ∈ concat (map row_vpids (l_rows L)) →
  ∃ s up, label s = me ∧ sits (tree_of L) (Some up) s ∧ init_acts me L = Adopt up :: forest_acts (kids s).
Proof.
  unfold vpids, init_acts, tree_of. intros Hd Hm. pose proof Hd as [Hs Hd']%NoDup_cons.
  apply NoDup_app in Hd' as (_ & _ & Hd'). assert ((me =? l_sched L) = false) as -> by (apply Z.eqb_neq; set_solver).
  destruct (in_member me row_vpids _ Hm Hd') as (l1 & r & l2 & E & Hr & Hdr & H1 & H2).
  destruct (row_mine me (l_sched L) false (l_cluster L) r Hr Hdr eq_refl) as (s & up & Hl & Hpl & Ea).
  exists s, up. split; [done|]. split.
  - assert (placed (grouped (l_cluster L) (concat (map row_trees (l_rows L)))) (l_sched L) s up) as (k & o & Hk & Hsk & ->).
    { apply placed_grouped, (placed_concat _ r); [rewrite E; set_solver|]. by destruct (l_cluster L). }
    by apply (sits_kid (Tree _ _) k o s).
  - rewrite E, one_concat; [done|..].
    + eapply Forall_impl; [exact H1|]. intros r' Hr'. by apply row_quiet.
    + eapply Forall_impl; [exact H2|]. intros r' Hr'. by apply row_quiet.
Qed.

(** The cluster controller does nothing. *)
Lemma cluster_acts c L : NoDup (vpids L) → l_cluster L = Some c → init_acts c L = [].
Proof.
  unfold vpids, init_acts. intros Hd Ec. rewrite Ec in *. apply NoDup_cons in Hd as [Hs Hd].
  apply NoDup_app in Hd as (_ & Hd & _). specialize (Hd c ltac:(cbn; set_solver)). apply not_in_member in Hd.
  assert ((c =? l_sched L) = false) as -> by (apply Z.eqb_neq; cbn in Hs; set_solver). cbn [app].
  apply nil_concat. eapply Forall_impl; [exact Hd|]. intros r Hr. by apply row_quiet.
Qed.

(** ** The children of a process *)

(** What is kept of a child: its vpid and the set of those below it. *)
Definition knows (c : child_t) (t : tree) : Prop :=
  Routed.tree_vpid c = label t ∧ BitmapSpec.stands (Routed.relatives c) (list_to_set (under t)) ∧
  BM.max_size (Routed.relatives c) = INT_MAX.

Lemma swrap_small v : small v → swrap 32 v = v.
Proof. unfold small. intros Hv. unfold swrap. rewrite Z.mod_small by lia. zbool; lia. Qed.

Lemma run_child v s : 0 < num_procs (proc s) ≤ 2 ^ 29 →
  ∃ c, run_act (Child v) s = Some (mk_plan (set_children (my_children (proc s) ++ [c]) (proc s)) true) ∧ knows c (leaf v).
Proof.
  intros Hn. cbn [run_act]. unfold add_child.
  assert (swrap 32 (num_procs (proc s)) = num_procs (proc s)) as -> by (unfold swrap; rewrite Z.mod_small by lia; zbool; lia).
  destruct (BitmapSpec.bitmap_init_run [] BM.opal_bitmap_construct (num_procs (proc s))) as (bm & -> & Hst & _ & Hm);
    [done|done|cbn; unfold INT_MAX; lia|lia|].
  cbn [mbind option_bind]. eexists. split; [reflexivity|]. by split_and!.
Qed.

Lemma run_rels vs l c p S : Forall small vs → BitmapSpec.stands (Routed.relatives c) S → BM.max_size (Routed.relatives c) = INT_MAX →
  ∃ c', run (map Rel vs) (mk_plan (set_children (l ++ [c]) p) true) = Some (mk_plan (set_children (l ++ [c']) p) true) ∧
    Routed.tree_vpid c' = Routed.tree_vpid c ∧ BitmapSpec.stands (Routed.relatives c') (list_to_set vs ∪ S) ∧
    BM.max_size (Routed.relatives c') = INT_MAX.
Proof.
  intros Hvs. revert c S. induction Hvs as [|v vs Hv _ IH]; intros c S Hc Hm.
  { exists c. cbn. split_and!; try done. by rewrite (left_id_L ∅ (∪)). }
  cbn [map run run_act]. unfold add_relative. cbn [child proc set_children my_children]. rewrite last_snoc. cbn [mbind option_bind].
  rewrite swrap_small by done. unfold small in Hv.
  destruct (BitmapSpec.set_bit_run (Routed.relatives c) S v Hc) as (bm & -> & Hst & Hm'); [done|rewrite Hm; unfold INT_MAX; lia|].
  cbn [mbind option_bind]. rewrite length_app. cbn [length]. rewrite Nat.add_sub, take_app_length.
  destruct (IH (Routed.mk_tree (Routed.tree_vpid c) bm) ({[v]} ∪ S)) as (c' & E & Hl & Hst' & Hmc'); [done|cbn; congruence|].
  exists c'. split_and!; [exact E|done| |done]. cbn [list_to_set]. by rewrite (comm_L (∪) {[v]}), <-(assoc_L (∪)).
Qed.

Lemma run_kid t s : 0 < num_procs (proc s) ≤ 2 ^ 29 → Forall small (under t) →
  ∃ c, run (kid_acts t) s = Some (mk_plan (set_children (my_children (proc s) ++ [c]) (proc s)) true) ∧ knows c t.
Proof.
  intros Hn Hu. unfold kid_acts. cbn [run]. destruct (run_child (label t) s Hn) as (c & -> & Hl & Hst & Hm).
  cbn [mbind option_bind].
  destruct (run_rels (under t) (my_children (proc s)) c (proc s) _ Hu Hst Hm) as (c' & E & Hl' & Hst' & Hm').
  exists c'. split; [exact E|]. unfold knows. split_and!; [by rewrite Hl', Hl| |done]. cbn in Hst'. by rewrite (right_id_L ∅ (∪)) in Hst'.
Qed.

Lemma run_forest F s : 0 < num_procs (proc s) ≤ 2 ^ 29 → Forall small (flabels F) →
  ∃ cs b, run (forest_acts F) s = Some (mk_plan (set_children (my_children (proc s) ++ cs) (proc s)) b) ∧ Forall2 knows cs F.
Proof.
  revert s. induction F as [|t F IH]; intros s Hn HF.
  - exists [], (child s). cbn. rewrite app_nil_r. split; [|constructor]. by destruct s as [[] ].
  - unfold flabels in HF. cbn [map concat] in HF. apply Forall_app in HF as [Ht HF]. rewrite labels_label in Ht.
    apply Forall_cons in Ht as [_ Ht]. unfold forest_acts. cbn [map concat]. rewrite run_app.
    destruct (run_kid t s Hn Ht) as (c & -> & Hc). cbn [mbind option_bind].
    destruct (IH (mk_plan (set_children (my_children (proc s) ++ [c]) (proc s)) true)) as (cs & b & E & Hcs); [done..|].
    exists (c :: cs), b. split; [|by constructor]. unfold forest_acts in E. rewrite E. cbn [proc set_children my_children].
    by rewrite <-app_assoc.
Qed.

(** ** What a process knows after [init_routes] *)

Definition fresh (p : proc_t) (me : Z) : Prop :=
  my_name p = mk_name 0 me ∧ ORTE_PROC_IS_TOOL p = false ∧ my_children p = [] ∧ 0 < num_procs p ≤ 2 ^ 29.

(** The state after it: the parent, if there is one, with the lifeline, and the children. *)
Definition settled (p : proc_t) (up : option Z) (cs : list child_t) : proc_t :=
  let p := match up with Some u => set_lifeline_ptr true (set_parent (mk_name 0 u) p) | None => p end in
  set_children cs p.

Lemma layout_small_vpids L : Forall small (vpids L) → layout_small L.
Proof.
  unfold vpids, layout_small. intros [Hs H]%Forall_cons. apply Forall_app in H as [Hc Hr]. split_and!; [done| |].
  - intros v E. rewrite E in Hc. by apply Forall_cons in Hc as [? _].
  - induction (l_rows L) as [|r rs IH]; [done|]. cbn [map concat] in Hr. apply Forall_app in Hr as [Hr Hrs].
    constructor; [|by apply IH]. clear -Hr. unfold row_vpids in Hr. apply Forall_app in Hr as [Hc Hk]. split.
    + intros v E. rewrite E in Hc. by apply Forall_cons in Hc as [? _].
    + induction (row_racks r) as [|k ks IH]; [done|]. cbn [map concat] in Hk. apply Forall_app in Hk as [Hk Hks].
      constructor; [|by apply IH]. intros v E. unfold rack_vpids in Hk. rewrite E in Hk. by apply Forall_cons in Hk as [? _].
Qed.

(** The processes of a part of the tree are among all. *)
Lemma under_small L up s : Forall small (vpids L) → sits (tree_of L) up s → Forall small (under s).
Proof.
  intros HL Hs. rewrite <-labels_tree_of in HL. apply Forall_forall. intros x Hx. rewrite Forall_forall in HL.
  apply HL, (sits_labels _ _ _ _ Hs). rewrite labels_label. set_solver.
Qed.

Lemma init_routes_run me L b p up s : fresh p me → cluster_def L b → NoDup (vpids L) → Forall small (vpids L) →
  sits (tree_of L) up s → label s = me → l_cluster L ≠ Some me →
  ∃ cs, init_routes 0 (Some b) p = Some (settled p up cs, OPAL_SUCCESS) ∧ Forall2 knows cs (kids s).
Proof.
  intros (Hn & Ht & Hc & Hp) Hb Hd HL Hs Hl Hcl. rewrite (init_routes_acts me L) by (done || by apply layout_small_vpids).
  pose proof (under_small L up s HL Hs) as Hu. pose proof Hd as Hd'. rewrite <-labels_tree_of in Hd'.
  assert (∃ up' s', sits (tree_of L) up' s' ∧ label s' = me ∧
    init_acts me L = (match up' with Some u => [Adopt u] | None => [] end) ++ forest_acts (kids s')) as (up' & s' & Hs' & Hl' & E).
  { pose proof (sits_labels _ _ _ (label s) Hs ltac:(rewrite labels_label; set_solver)) as Hm.
    rewrite labels_tree_of, Hl in Hm. unfold vpids in Hm. apply elem_of_cons in Hm as [->|Hm].
    - exists None, (tree_of L). split_and!; [constructor|done|by apply sched_acts].
    - apply elem_of_app in Hm as [Hm|Hm].
      + destruct (l_cluster L) as [c|]; [|by apply elem_of_nil in Hm]. cbn in Hm.
        apply list_elem_of_singleton in Hm as ->. done.
      + destruct (other_acts me L Hd Hm) as (s' & u & Hl' & Hs' & E). by exists (Some u), s'. }
  destruct (sits_unique _ _ _ Hs' up s Hd' Hs) as [-> ->]; [congruence|]. rewrite E, run_app. clear E Hs' Hl'.
  destruct up as [u|]; cbn [run run_act mbind option_bind proc child].
  - destruct (run_forest (kids s) (mk_plan (set_lifeline_ptr true (set_parent (mk_name 0 u) p)) false)) as (cs & f & -> & Hcs); [done..|].
    exists cs. cbn [mbind option_bind proc]. cbn [my_children set_lifeline_ptr set_parent]. by rewrite Hc.
  - destruct (run_forest (kids s) (mk_plan p false)) as (cs & f & -> & Hcs); [done..|].
    exists cs. cbn [mbind option_bind proc]. by rewrite Hc.
Qed.

(** ** Routes *)

Lemma stands_is_set bm (S : gset Z) i : BitmapSpec.stands bm S → 0 ≤ i →
  BM.opal_bitmap_is_set_bit bm i = Some (bool_decide (i ∈ S)).
Proof.
  intros (b & Hwf & HS) Hi. rewrite (BitmapSpec.is_set_run bm b i Hwf). f_equal.
  destruct (Z.leb_spec 0 i); [|lia]. cbn [andb]. specialize (HS i). destruct (BitmapSpec.bit_set b i) eqn:E.
  - symmetry. apply bool_decide_eq_true, HS. done.
  - symmetry. apply bool_decide_eq_false. intros [_ ?]%HS. congruence.
Qed.

Lemma search_toward cs ks t : small t → Forall2 knows cs ks →
  search_children cs (mk_name 0 t) 0 = Some (mk_name 0 ∘ label <$> toward t ks).
Proof.
  intros Ht. unfold toward. induction 1 as [|c k cs ks (Hl & Hst & _) _ IH]; [done|].
  cbn [search_children vpid]. rewrite Hl, swrap_small by done.
  rewrite (stands_is_set _ _ t Hst) by apply Ht. rewrite IH. cbn [list_find]. unfold small in Ht.
  destruct (Z.eqb_spec (label k) t) as [<-|Hne].
  - rewrite decide_True by (rewrite labels_label; set_solver). done.
  - cbn [mbind option_bind]. destruct (decide (t ∈ labels k)) as [Hk|Hk].
    + rewrite bool_decide_eq_true_2; [done|]. rewrite labels_label in Hk. apply elem_of_list_to_set. set_solver.
    + rewrite bool_decide_eq_false_2.
      * destruct (list_find (λ k, t ∈ labels k) ks) as [[i k']|]; done.
      * rewrite elem_of_list_to_set. intros Hu. apply Hk. rewrite labels_label. set_solver.
Qed.

(** The processes that forward: routing is on, and one with children is not of the kind
    that only sends up. *)
Definition forwards (p : proc_t) (s : tree) : Prop :=
  orte_routing_is_enabled p = true ∧ (ORTE_PROC_IS_DAEMON p = true → kids s = []).

Lemma settled_route p me up s cs t : fresh p me → forwards p s → Forall2 knows cs (kids s) → small t → t ≠ me →
  get_route (settled p up cs) (mk_name 0 t) =
  Some (mk_name 0 (match toward t (kids s) with Some k => label k | None => vpid (my_parent (settled p up cs)) end)).
Proof.
  intros (Hn & Htool & _ & _) [He Hdm] Hcs Ht Hne. set (q := settled p up cs).
  assert (my_name q = mk_name 0 me ∧ proc_type q = proc_type p ∧ orte_routing_is_enabled q = true ∧ my_children q = cs)
    as (Hq & Hty & Hen & Hch) by (unfold q, settled; destruct up; by rewrite <-Hn).
  unfold get_route, ORTE_PROC_IS_TOOL, ORTE_PROC_IS_DAEMON, ORTE_PROC_IS_SCHEDULER, is_type in *.
  rewrite Hty, Htool, Hen, Hq. cbn [negb jobid].
  fold (same_proc (mk_name 0 t) (mk_name 0 me)).
  assert (same_proc (mk_name 0 t) (mk_name 0 me) = false) as -> by (apply not_true_iff_false; rewrite same_proc_eq; congruence).
  cbn [Z.eqb negb andb]. destruct (negb (Z.land ORTE_PROC_DAEMON (proc_type p) =? 0)) eqn:Hd.
  - rewrite Hdm by done. done.
  - rewrite Hch, (search_toward cs (kids s) t Ht Hcs). cbn [mbind option_bind].
    by destruct (toward t (kids s)).
Qed.

(** ** Delivery *)

Lemma height_tree L : l_cluster L = None → (height (tree_of L) ≤ 3)%nat.
Proof.
  intros HC. unfold tree_of. rewrite HC. cbn [grouped].
  assert (∀ n F, Forall (λ t, (S (height t) ≤ n)%nat) F → ∀ v, (height (Tree v F) ≤ n)%nat) as Htree.
  { intros n F HF v. cbn [height]. apply list_max_le. by apply Forall_map. }
  assert (∀ n ctl F, Forall (λ t, (S (height t) ≤ n)%nat) F → Forall (λ t, (S (height t) ≤ S n)%nat) (grouped ctl F)) as Hg.
  { intros n [v|] F HF; cbn [grouped]; [apply Forall_singleton; specialize (Htree n F HF v); lia|].
    eapply Forall_impl; [exact HF|]. cbn. lia. }
  assert (∀ {A} (f : A → list tree) n l, (∀ x, Forall (λ t, (S (height t) ≤ n)%nat) (f x)) →
    Forall (λ t, (S (height t) ≤ n)%nat) (concat (map f l))) as Hc.
  { intros A f n l Hf. induction l as [|x l IH]; [constructor|]. cbn [map concat]. by apply Forall_app. }
  apply Htree, Hc. intros r. apply Hg, Hc. intros k. apply Hg. apply Forall_map, Forall_forall. cbn. lia.
Qed.

Section cluster.
Context (L : layout) (procs : Z → proc_t).
Hypothesis HD : NoDup (vpids L).
Hypothesis HS : Forall small (vpids L).
Hypothesis HC : l_cluster L = None.

(** Every process of the layout has read a definition of it. *)
Definition started : Prop := ∀ up s, sits (tree_of L) up s →
  ∃ p b, fresh p (label s) ∧ forwards p s ∧ cluster_def L b ∧ init_routes 0 (Some b) p = Some (procs (label s), OPAL_SUCCESS).

Definition hop (x t : Z) : Z := match get_route (procs x) (mk_name 0 t) with Some n => vpid n | None => x end.

Lemma started_routes : started → Routes (tree_of L) hop.
Proof.
  intros Hst up s t Hs Ht Hne. destruct (Hst up s Hs) as (p & b & Hp & Hf & Hb & E).
  destruct (init_routes_run (label s) L b p up s) as (cs & E' & Hcs); [done..|by rewrite HC|].
  assert (procs (label s) = settled p up cs) as Eq by congruence.
  rewrite labels_tree_of in Ht. rewrite Forall_forall in HS. unfold hop.
  rewrite Eq, (settled_route p (label s) up s cs t) by auto. cbn [vpid].
  destruct (toward t (kids s)) as [k|] eqn:Et; [done|].
  destruct up as [u|]; [done|exfalso]. inversion Hs; subst. unfold toward in Et.
  rewrite <-labels_tree_of, labels_label in Ht. apply elem_of_cons in Ht as [?|Ht]; [done|].
  apply elem_of_under in Ht as (k & Hk & Ht). apply fmap_None, list_find_None in Et.
  rewrite Forall_forall in Et. by apply (Et k Hk).
Qed.

End cluster.

(** In a cluster without a cluster controller every message is delivered. *)
Lemma cluster_delivers L procs x t : NoDup (vpids L) → Forall small (vpids L) → l_cluster L = None →
  started L procs → x ∈ vpids L → t ∈ vpids L → ∃ n, (n ≤ 6)%nat ∧ reaches (hop procs) t n x.
Proof.
  intros Hd HS HC Hst Hx Ht. rewrite <-labels_tree_of in Hx, Ht.
  destruct (forwarding (tree_of L) (hop procs) (started_routes L procs Hd HS HC Hst) x t Hx Ht) as (n & Hn & Hr).
  exists n. split; [|done]. pose proof (height_tree L HC). lia.
Qed.

End OrcmRoutes.
