(* ===== verification/SystemSpec.v ===== *)
(** * The names of a system and its definition

    The processes of a system get consecutive vpids, and the buffer that is packed holds
    the definition of the layout of the system with these names, as [OrcmLayout] reads
    it. *)

From Stdlib Require Import ZArith Lia Ascii.
From stdpp Require Import prelude numbers strings gmap list list_numbers.
From S2P Require Import Prelude CString Argv Environ Dss Names NameText Fields DssBuffer CfgiDt CfgiFile30 CfgiSystem.
From S2P Require Import Routed RoutedOrcm OrcmTree OrcmLayout OrcmRoutes.

Local Open Scope Z_scope.

Module SystemSpec.
Import Dss Names Fields DssBuffer CfgiDt CfgiFile30 CfgiSystem OrcmLayout.

(** ** Packing one value *)

Lemma put_run {A} (T : opal_dss_type_info_t A) valid a b bs : Codec T valid → valid a → holds b bs →
  ∃ b' x, put T a b = Some b' ∧ holds b' (bs ++ x) ∧ reads T x a.
Proof.
  intros HT Ha Hb. destruct (meets_value T valid false a HT Ha) as (x & Hp & Hu).
  destruct (holds_pack b bs _ x Hb Hp) as (b' & E & Hb'). exists b', x. unfold put. by rewrite E.
Qed.

(** A buffer of any size can be packed; one that is not too large is read back. *)
Lemma packs_one_buffer p : ∃ x, packs false (pack_one_buffer p) (x ++ base p).
Proof.
  eexists (_ ++ concat (be_bytes 8 <$> [bytes_used p])). rewrite <-app_assoc. unfold pack_one_buffer.
  rewrite app_assoc. apply packs_bind.
  - apply packs_is_desc. apply (packs_bind false _ _ _ (concat (be_bytes 8 <$> [bytes_used p]))); [apply packs_store_type|].
    apply (packs_is_desc false), (packs_bind false _ _ []); [apply packs_ret|]. apply packs_words.
  - destruct (Z.ltb_spec 0 (bytes_used p)); [apply packs_bytes|].
    unfold bytes_used in *. destruct (base p); [apply packs_ret|simpl in *; lia].
Qed.

Lemma packs_call {A} (T : opal_dss_type_info_t A) l x : packs false (odti_pack_fn T l) x →
  ∃ c, packs false (opal_dss_pack T l) (c ++ x).
Proof.
  intros Hx. exists (concat (be_bytes 4 <$> [Z.of_nat (length l)])). set (c := concat _). apply packs_is_desc.
  apply (packs_bind false _ _ [] (c ++ x)); [apply packs_ret|].
  apply (packs_bind false _ _ c x); [apply packs_words|]. apply packs_is_desc.
  apply (packs_bind false _ _ [] x); [apply packs_ret|done].
Qed.

Lemma packs_det (p : M unit) x y : packs false p x → packs false p y → x = y.
Proof.
  intros Hx Hy. destruct (Hx (mk_buf false [] 0 0) eq_refl) as (b1 & E1 & _ & X & _).
  destruct (Hy (mk_buf false [] 0 0) eq_refl) as (b2 & E2 & _ & Y & _).
  assert (b1 = b2) as <- by congruence. cbn in X, Y. congruence.
Qed.

Lemma put_buffer p qs b bs : holds p qs → holds b bs →
  ∃ b' x, put t_buffer p b = Some b' ∧ holds b' (bs ++ x) ∧ (length qs ≤ length x)%nat ∧
    (Z.of_nat (length qs) ≤ INT_MAX → reads t_buffer x (received_buffer p)).
Proof.
  intros (Hd & Ho & Eq) Hb. destruct (packs_one_buffer p) as (x & Hx).
  assert (∃ y, packs false (opal_dss_pack t_buffer [p]) (y ++ base p)) as (y & Hy).
  { destruct (packs_call t_buffer [p] (x ++ base p)) as (c & Hc).
    - cbn [t_buffer odti_pack_fn]. rewrite <-(app_nil_r (x ++ base p)). by apply packs_bind; [|apply packs_ret].
    - exists (c ++ x). by rewrite <-app_assoc. }
  destruct (holds_pack b bs _ _ Hb Hy) as (b' & E & Hb'). exists b', (y ++ base p). unfold put. rewrite E.
  split_and!; [done|done|rewrite length_app, Eq; lia|]. intros Hl.
  destruct (meets_dss t_buffer false p (received_buffer p)) as (z & Hz & Hu).
  { apply (carries_buffers false [p]). apply Forall_singleton. unfold bytes_used. by rewrite Eq. }
  unfold reads. by rewrite (packs_det _ _ _ Hy Hz).
Qed.

(** ** The layout of a system *)

Definition ctl_of (c : orcm_node_t) : option Z :=
  if state c =? ORTE_NODE_STATE_UNDEF then None else Some (vpid (daemon c)).
Definition node_vpid (n : orcm_node_t) : Z := vpid (daemon n).
Definition rack_layout (k : orcm_rack_t) : rack_l := mk_rack_l (ctl_of (rack_controller k)) (map node_vpid (nodes k)).
Definition row_layout (r : orcm_row_t) : row_l := mk_row_l (ctl_of (row_controller r)) (map rack_layout (racks r)).
Definition cluster_layout (sched : orcm_scheduler_t) (c : orcm_cluster_t) : layout :=
  mk_layout (node_vpid (sched_controller sched)) (ctl_of (cluster_controller c)) (map row_layout (rows c)).

(** ** The number of processes *)

Definition ctl_count (c : orcm_node_t) : Z := if state c =? ORTE_NODE_STATE_UNDEF then 0 else 1.
Definition total {A} (count : A → Z) (l : list A) : Z := foldr (λ x n, count x + n) 0 l.
Definition rack_count (k : orcm_rack_t) : Z := ctl_count (rack_controller k) + total (λ _, 1) (nodes k).
Definition row_count (r : orcm_row_t) : Z := ctl_count (row_controller r) + total rack_count (racks r).
Definition cluster_count (c : orcm_cluster_t) : Z := ctl_count (cluster_controller c) + total row_count (rows c).

Lemma total_pos {A} (count : A → Z) l : (∀ x, 0 ≤ count x) → 0 ≤ total count l.
Proof. intros H. induction l as [|x l IH]; [done|]. change (0 ≤ count x + total count l). specialize (H x). lia. Qed.

Lemma ctl_count_pos c : 0 ≤ ctl_count c.
Proof. unfold ctl_count. by destruct (_ =? _). Qed.
Lemma rack_count_pos k : 0 ≤ rack_count k.
Proof. pose proof (ctl_count_pos (rack_controller k)). pose proof (total_pos (λ _ : orcm_node_t, 1) (nodes k) (λ _, Z.le_0_1)). unfold rack_count. lia. Qed.
Lemma row_count_pos r : 0 ≤ row_count r.
Proof. pose proof (ctl_count_pos (row_controller r)). pose proof (total_pos rack_count (racks r) rack_count_pos). unfold row_count. lia. Qed.

(** ** The names there should be: the numbers from [v] on, controllers before their members *)

Definition ctl_num (v : Z) (c : orcm_node_t) : option Z := if state c =? ORTE_NODE_STATE_UNDEF then None else Some v.

Fixpoint num_all {A B} (num : Z → A → B) (count : A → Z) (v : Z) (l : list A) : list B :=
  match l with
  | [] => []
  | x :: l => num v x :: num_all num count (v + count x) l
  end.

Definition rack_num (v : Z) (k : orcm_rack_t) : rack_l :=
  mk_rack_l (ctl_num v (rack_controller k)) (num_all (λ v _, v) (λ _, 1) (v + ctl_count (rack_controller k)) (nodes k)).
Definition row_num (v : Z) (r : orcm_row_t) : row_l :=
  mk_row_l (ctl_num v (row_controller r)) (num_all rack_num rack_count (v + ctl_count (row_controller r)) (racks r)).
Definition cluster_num (v : Z) (c : orcm_cluster_t) : option Z * list row_l :=
  (ctl_num v (cluster_controller c), num_all row_num row_count (v + ctl_count (cluster_controller c)) (rows c)).

(** The layout of a system with one scheduler and one cluster. *)
Definition the_layout (c : orcm_cluster_t) : layout := mk_layout 0 (cluster_num 1 c).1 (cluster_num 1 c).2.

Lemma ctl_num_seq v c : option_list (ctl_num v c) = seqZ v (ctl_count c).
Proof. unfold ctl_num, ctl_count. by destruct (_ =? _). Qed.

Lemma num_all_seq {A B} (num : Z → A → B) count (vp : B → list Z) l v : (∀ x, 0 ≤ count x) →
  (∀ v x, vp (num v x) = seqZ v (count x)) → concat (map vp (num_all num count v l)) = seqZ v (total count l).
Proof.
  intros Hpos Hvp. revert v. induction l as [|x l IH]; intros v; [done|]. cbn [num_all map concat].
  change (total count (x :: l)) with (count x + total count l). rewrite Hvp, IH, seqZ_app; [done|apply Hpos|by apply total_pos].
Qed.

Lemma concat_single (l : list Z) : concat (map (λ v, [v]) l) = l.
Proof. induction l as [|x l IH]; [done|]. cbn. by f_equal. Qed.

Lemma num_each_seq {A} (l : list A) v : num_all (λ v _, v) (λ _, 1) v l = seqZ v (total (λ _, 1) l).
Proof. by rewrite <-(num_all_seq (λ v (_ : A), v) (λ _, 1) (λ v, [v])), concat_single. Qed.

Lemma rack_num_seq v k : rack_vpids (rack_num v k) = seqZ v (rack_count k).
Proof.
  unfold rack_vpids, rack_num, rack_count. cbn [OrcmLayout.rack_ctl OrcmLayout.rack_nodes]. rewrite ctl_num_seq.
  rewrite seqZ_app by (apply ctl_count_pos || by apply total_pos). f_equal. apply num_each_seq.
Qed.

Lemma row_num_seq v r : row_vpids (row_num v r) = seqZ v (row_count r).
Proof.
  unfold row_vpids, row_num, row_count. cbn [OrcmLayout.row_ctl OrcmLayout.row_racks].
  rewrite ctl_num_seq, (num_all_seq rack_num rack_count rack_vpids) by (apply rack_count_pos || apply rack_num_seq).
  by rewrite seqZ_app by (apply ctl_count_pos || apply total_pos, rack_count_pos).
Qed.

(** ** Systems that can be named

    A controller that is not there has no name, and one whose address is collected runs on
    a node with a name. *)
Definition ready (c : orcm_node_t) : Prop :=
  (state c = ORTE_NODE_STATE_UNDEF → daemon c = ORTE_NAME_INVALID) ∧
  (state c ≠ ORTE_NODE_STATE_UNDEF → aggregator (config c) = true → is_Some (node_name c)).
Definition ready_rack (k : orcm_rack_t) : Prop := ready (rack_controller k).
Definition ready_row (r : orcm_row_t) : Prop := ready (row_controller r) ∧ Forall ready_rack (racks r).
Definition ready_cluster (c : orcm_cluster_t) : Prop := ready (cluster_controller c) ∧ Forall ready_row (rows c).
Definition ready_sched (s : orcm_scheduler_t) : Prop := is_Some (node_name (sched_controller s)).

Section walk.
Context {net : Network} (OPAL_MCA_PREFIX nodename : cstring).

Notation assign := (assign OPAL_MCA_PREFIX nodename).
Notation assign_controller := (assign_controller OPAL_MCA_PREFIX nodename).

Definition room (s : walk_t) (n : Z) : Prop := 0 ≤ next s ∧ next s + n < 2 ^ 32.

(** A text can always be packed. *)
Lemma put_string t b : fully_desc b = false → ∃ b', put t_string (Some t) b = Some b' ∧ fully_desc b' = false.
Proof.
  intros Hb. destruct (packs_call t_string [Some t] ((concat (be_bytes 4 <$> [to_int (Z.of_nat (length t)) + 1]) ++ ((code <$> t) ++ [0])) ++ [])) as (c & Hc).
  { apply packs_bind; [apply packs_bind; [apply packs_words|apply packs_bytes]|apply packs_ret]. }
  destruct (Hc b Hb) as (b' & E & X). exists b'. unfold put. rewrite E. split; [done|]. destruct X; congruence.
Qed.

(** What the walk keeps. *)
Definition walking (s : walk_t) : Prop := fully_desc (uribuf s) = false.

Lemma construct_uri_run node s : is_Some (node_name node) → walking s →
  ∃ s', orcm_util_construct_uri nodename node s = Some s' ∧ next s' = next s ∧ walking s'.
Proof.
  intros [name E] Hs. unfold orcm_util_construct_uri. rewrite E. cbn [mbind option_bind].
  destruct (node_addr nodename name (static s)) as [[addr|] text]; [|by eexists].
  cbn [NameText.orte_util_convert_process_name_to_string].
  match goal with |- context [put t_string (Some ?t) _] => destruct (put_string t (uribuf s) Hs) as (b' & -> & Hb') end.
  by eexists.
Qed.

Lemma setup_environ_run env e : ∃ e', setup_environ OPAL_MCA_PREFIX env e = Some e'.
Proof.
  destruct env as [env|]; [|by eexists]. unfold setup_environ, Environ.opal_environ_merge.
  destruct (Environ.merge_run env e) as (l & E & _). rewrite Environ.argv_copy_id, E. by eexists.
Qed.

Lemma check_me_run node s : walking s → ∃ s', check_me OPAL_MCA_PREFIX nodename node s = Some s' ∧ next s' = next s ∧ walking s'.
Proof.
  intros Hs. unfold check_me. destruct (node_name node) as [name|]; [|by eexists].
  destruct (strcmp _ _ =? 0); [|by eexists].
  destruct (setup_environ_run (CfgiDt.mca_params (config node)) (environ s)) as (e & ->). by eexists.
Qed.

Lemma assign_run uri role node s : (uri = true → is_Some (node_name node)) → walking s → room s 1 →
  ∃ s', assign uri role node s = Some (set_daemon (mk_name 0 (next s)) node, s') ∧ next s' = next s + 1 ∧ walking s'.
Proof.
  intros Hn Hs Hr. unfold CfgiSystem.assign.
  assert (∃ s1, (if uri then orcm_util_construct_uri nodename (set_daemon (mk_name 0 (next s)) node) s else Some s) = Some s1 ∧
    next s1 = next s ∧ walking s1) as (s1 & -> & E1 & Hs1).
  { destruct uri; [apply construct_uri_run; [by apply Hn|done]|by eexists]. }
  cbn [mbind option_bind].
  assert (∃ s2, (if negb (found_me s1) && is_type s1 role then check_me OPAL_MCA_PREFIX nodename (set_daemon (mk_name 0 (next s)) node) s1
    else Some s1) = Some s2 ∧ next s2 = next s ∧ walking s2) as (s2 & -> & E2 & Hs2).
  { destruct (negb (found_me s1) && is_type s1 role); [|by eexists].
    destruct (check_me_run (set_daemon (mk_name 0 (next s)) node) s1 Hs1) as (s2 & -> & E2 & Hs2). exists s2. by rewrite E2. }
  cbn [mbind option_bind]. eexists. split; [done|]. split; [|done]. cbn [next set_next]. rewrite E2.
  destruct Hr. apply Z.mod_small. lia.
Qed.

Lemma assign_controller_run c s : ready c → walking s → room s (ctl_count c) →
  ∃ c' s', assign_controller c s = Some (c', s') ∧ next s' = next s + ctl_count c ∧ walking s' ∧
    daemon c' = name_of (ctl_of c') ∧ valid_name (daemon c') ∧ ctl_of c' = ctl_num (next s) c.
Proof.
  intros [H1 H2] Hs Hr. unfold CfgiSystem.assign_controller, ctl_count in *. unfold ctl_of, ctl_num.
  destruct (Z.eqb_spec (state c) ORTE_NODE_STATE_UNDEF) as [E|E].
  - exists c, s. rewrite H1 by done. rewrite (proj2 (Z.eqb_eq _ _) E). split_and!; [done|lia|done|done| |done].
    by split; cbn; unfold in_u, ORTE_JOBID_INVALID, ORTE_VPID_INVALID.
  - destruct (assign_run (aggregator (config c)) ORTE_PROC_DAEMON c s) as (s' & -> & En & Hs'); [by apply H2|done..|].
    exists (set_daemon (mk_name 0 (next s)) c), s'. cbn [state set_daemon daemon name_of]. rewrite (proj2 (Z.eqb_neq _ _) E). destruct Hr.
    split_and!; [done|done|done|done| |done]. split; cbn; unfold in_u; lia.
Qed.

(** ** Loops

    [steps f count num lay piece x]: [f] gives [x] the names that [num] says, which are
    [count x] vpids, and appends bytes that are, as [piece] says, those of what has become
    of [x]; [lay] is the layout of that. *)
Definition steps {A B} (f : A → opal_buffer_t → walk_t → option (A * opal_buffer_t * walk_t)) (count : A → Z)
    (num : Z → A → B) (lay : A → B) (piece : list Z → B → Prop) (x : A) : Prop :=
  ∀ b bs s, holds b bs → walking s → room s (count x) →
  ∃ x' b' s' z, f x b s = Some (x', b', s') ∧ holds b' (bs ++ z) ∧ next s' = next s + count x ∧ walking s' ∧
    lay x' = num (next s) x ∧ piece z (lay x').

Lemma each_run {A B} f count num lay (piece : list Z → B → Prop) (l : list A) : (∀ x, 0 ≤ count x) →
  Forall (steps f count num lay piece) l → ∀ b bs s, holds b bs → walking s → room s (total count l) →
  ∃ l' b' s' zs, each f l b s = Some (l', b', s') ∧ holds b' (bs ++ concat zs) ∧ next s' = next s + total count l ∧ walking s' ∧
    map lay l' = num_all num count (next s) l ∧ Forall2 piece zs (map lay l') ∧ length l' = length l.
Proof.
  intros Hpos. induction 1 as [|x l Hx _ IH]; intros b bs s Hb Hs Hr.
  - exists [], b, s, []. cbn. rewrite app_nil_r, Z.add_0_r. by split_and!.
  - change (total count (x :: l)) with (count x + total count l) in *.
    pose proof (Hpos x). pose proof (total_pos count l Hpos). destruct Hr as [Hr0 Hr1].
    destruct (Hx b bs s Hb Hs) as (x' & b1 & s1 & z & E1 & Hb1 & Hn1 & Hs1 & Hx1 & Hz); [split; lia|].
    destruct (IH b1 (bs ++ z) s1 Hb1 Hs1) as (l' & b2 & s2 & zs & E2 & Hb2 & Hn2 & Hs2 & Hl & Hzs & Hlen); [split; lia|].
    exists (x' :: l'), b2, s2, (z :: zs). cbn [each]. rewrite E1. cbn [mbind option_bind]. rewrite E2.
    cbn [mbind option_bind map concat length num_all]. rewrite app_assoc, Hlen.
    split_and!; try done; [lia|by rewrite Hx1, Hl, Hn1|by constructor].
Qed.

(** What holds of the pieces that are small holds of all of them, when they are. *)
Lemma pieces_small {A} (P : list Z → A → Prop) zs l : Forall2 (λ z x, Z.of_nat (length z) ≤ INT_MAX → P z x) zs l →
  Z.of_nat (length (concat zs)) ≤ INT_MAX → Forall2 P zs l.
Proof.
  induction 1 as [|z x zs l Hz _ IH]; intros Hl; constructor; cbn [concat] in Hl; rewrite length_app in Hl.
  - apply Hz. lia.
  - apply IH. lia.
Qed.

Notation name_node := (name_node OPAL_MCA_PREFIX nodename).
Notation name_rack := (name_rack OPAL_MCA_PREFIX nodename).
Notation name_row := (name_row OPAL_MCA_PREFIX nodename).
Notation name_cluster := (name_cluster OPAL_MCA_PREFIX nodename).
Notation name_sched := (name_sched OPAL_MCA_PREFIX nodename).

Lemma node_steps n : steps name_node (λ _, 1) (λ v _, v) node_vpid (λ z v, reads t_name z (mk_name 0 v)) n.
Proof.
  intros b bs s Hb Hs Hr. unfold CfgiSystem.name_node.
  destruct (assign_run false ORTE_PROC_DAEMON n s) as (s' & -> & Hn & Hs'); [done..|]. cbn [mbind option_bind daemon set_daemon].
  destruct (put_run t_name valid_name (mk_name 0 (next s)) b bs) as (b' & x & -> & Hb' & Hx); [apply _|destruct Hr; split; cbn; unfold in_u; lia|done|].
  eexists _, b', s', x. cbn [mbind option_bind]. by split_and!.
Qed.

Lemma rack_steps k : ready_rack k → steps name_rack rack_count rack_num rack_layout
  (λ z k, Z.of_nat (length z) ≤ INT_MAX → ∃ b, reads t_buffer z b ∧ rack_def k b) k.
Proof.
  intros Hk b bs s Hb Hs [Hr0 Hr1]. unfold CfgiSystem.name_rack, rack_count in *.
  pose proof (ctl_count_pos (rack_controller k)). pose proof (total_pos (λ _ : orcm_node_t, 1) (nodes k) (λ _, Z.le_0_1)).
  destruct (assign_controller_run (rack_controller k) s Hk Hs) as (c & s1 & -> & Hn1 & Hs1 & Hd & Hv & Hc); [split; lia|].
  cbn [mbind option_bind].
  destruct (put_run t_name valid_name (daemon c) (mk_buf false [] 0 0) []) as (b1 & x & -> & Hb1 & Hx); [apply _|done|apply holds_new|].
  cbn [mbind option_bind].
  destruct (each_run name_node (λ _, 1) (λ v _, v) node_vpid (λ z v, reads t_name z (mk_name 0 v)) (nodes k)
    ltac:(done) ltac:(apply Forall_forall; intros; apply node_steps) b1 ([] ++ x) s1 Hb1 Hs1)
    as (l & b2 & s2 & zs & -> & Hb2 & Hn2 & Hs2 & Hl & Hzs & _); [split; lia|]. cbn [mbind option_bind].
  destruct (put_buffer b2 _ b bs Hb2 Hb) as (b3 & z & -> & Hb3 & Hlz & Hz). cbn [mbind option_bind].
  eexists _, b3, s2, z. split; [done|]. split_and!; [done|lia|done|..].
  - unfold rack_layout, rack_num. cbn [rack_controller nodes]. by rewrite Hc, Hl, Hn1.
  - intros Hlen. exists (received_buffer b2). split; [apply Hz; lia|]. cbn [app] in Hb2.
    exists x, zs. split; [by apply holds_ahead, holds_received|]. unfold rack_layout.
    cbn [OrcmLayout.rack_ctl OrcmLayout.rack_nodes rack_controller nodes]. by rewrite <-Hd.
Qed.

(** The number of members, an [int32_t]. *)
Lemma to_int_s z : in_s 32 (to_int z).
Proof. apply swrap_range. lia. Qed.

Lemma length_pieces {A} (P : list Z → A → Prop) zs l : Forall2 P zs l → (∀ z x, P z x → (1 ≤ length z)%nat) →
  (length l ≤ length (concat zs))%nat.
Proof. intros H HP. induction H as [|z x zs l Hz _ IH]; [done|]. cbn [concat length]. rewrite length_app. specialize (HP _ _ Hz). lia. Qed.

Lemma row_steps r : ready_row r → steps name_row row_count row_num row_layout
  (λ z r, Z.of_nat (length z) ≤ INT_MAX → ∃ b, reads t_buffer z b ∧ row_def r b) r.
Proof.
  intros [Hc Hk] b bs s Hb Hs [Hr0 Hr1]. unfold CfgiSystem.name_row, row_count in *.
  pose proof (ctl_count_pos (row_controller r)). pose proof (total_pos rack_count (racks r) rack_count_pos).
  destruct (put_run t_int32 (in_s 32) (to_int (Z.of_nat (length (racks r)))) (mk_buf false [] 0 0) [])
    as (b0 & w & -> & Hb0 & Hw); [apply _|apply to_int_s|apply holds_new|]. cbn [mbind option_bind].
  destruct (assign_controller_run (row_controller r) s Hc Hs) as (c & s1 & -> & Hn1 & Hs1 & Hd & Hv & Hcl); [split; lia|].
  cbn [mbind option_bind].
  destruct (put_run t_name valid_name (daemon c) b0 ([] ++ w)) as (b1 & x & -> & Hb1 & Hx); [apply _|done..|].
  cbn [mbind option_bind].
  destruct (each_run name_rack rack_count rack_num rack_layout _ (racks r) rack_count_pos
    (Forall_impl _ _ _ Hk rack_steps) b1 (([] ++ w) ++ x) s1 Hb1 Hs1)
    as (l & b2 & s2 & zs & -> & Hb2 & Hn2 & Hs2 & Hl & Hzs & Hlen); [split; lia|]. cbn [mbind option_bind].
  destruct (put_buffer b2 _ b bs Hb2 Hb) as (b3 & z & -> & Hb3 & Hlz & Hz). cbn [mbind option_bind].
  eexists _, b3, s2, z. split; [done|]. split_and!; [done|lia|done|..].
  - unfold row_layout, row_num. cbn [row_controller racks]. by rewrite Hcl, Hl, Hn1.
  - intros Hz'. cbn [app] in Hb2, Hlz. exists (received_buffer b2). split; [apply Hz; cbn [app]; lia|].
    rewrite !length_app in Hlz. apply pieces_small in Hzs; [|lia].
    assert (length l ≤ length (concat zs))%nat
      by (rewrite <-(length_map rack_layout l); apply (length_pieces _ zs _ Hzs); intros ? ? (? & Hr & _); by eapply reads_pos).
    exists w, x, zs. unfold row_layout. cbn [OrcmLayout.row_ctl OrcmLayout.row_racks row_controller racks].
    split; [rewrite app_assoc; by apply holds_ahead, holds_received|]. rewrite length_map, Hlen. split_and!.
    + rewrite to_int_small in Hw by lia. done.
    + by rewrite <-Hd.
    + done.
Qed.

Lemma sched_steps sc : ready_sched sc →
  steps name_sched (λ _, 1) (λ v _, v) (node_vpid ∘ sched_controller) (λ z v, reads t_name z (mk_name 0 v)) sc.
Proof.
  intros Hsc b bs s Hb Hs Hr. unfold CfgiSystem.name_sched.
  destruct (assign_run true ORTE_PROC_SCHEDULER (sched_controller sc) s) as (s' & -> & Hn & Hs'); [done..|].
  cbn [mbind option_bind daemon set_daemon].
  destruct (put_run t_name valid_name (mk_name 0 (next s)) b bs) as (b' & x & -> & Hb' & Hx); [apply _|destruct Hr; split; cbn; unfold in_u; lia|done|].
  eexists _, b', s', x. cbn [mbind option_bind]. by split_and!.
Qed.

Definition cluster_lay (c : orcm_cluster_t) : option Z * list row_l := (ctl_of (cluster_controller c), map row_layout (rows c)).

(** The part of the definition for a cluster. *)
Definition cluster_piece (z : list Z) (c : option Z * list row_l) : Prop :=
  ∃ x y zs, z = x ++ y ++ concat zs ∧ reads t_name x (name_of c.1) ∧ reads t_int32 y (Z.of_nat (length c.2)) ∧
    Forall2 (λ z r, ∃ b, reads t_buffer z b ∧ row_def r b) zs c.2.

Lemma cluster_steps c : ready_cluster c → steps name_cluster cluster_count cluster_num cluster_lay
  (λ z c, Z.of_nat (length z) ≤ INT_MAX → cluster_piece z c) c.
Proof.
  intros [Hc Hk] b bs s Hb Hs [Hr0 Hr1]. unfold CfgiSystem.name_cluster, cluster_count in *.
  pose proof (ctl_count_pos (cluster_controller c)). pose proof (total_pos row_count (rows c) row_count_pos).
  destruct (assign_controller_run (cluster_controller c) s Hc Hs) as (c' & s1 & -> & Hn1 & Hs1 & Hd & Hv & Hcl); [split; lia|].
  cbn [mbind option_bind].
  destruct (put_run t_name valid_name (daemon c') b bs) as (b1 & x & -> & Hb1 & Hx); [apply _|done..|]. cbn [mbind option_bind].
  destruct (put_run t_int32 (in_s 32) (to_int (Z.of_nat (length (rows c)))) b1 (bs ++ x))
    as (b2 & y & -> & Hb2 & Hy); [apply _|apply to_int_s|done|]. cbn [mbind option_bind].
  destruct (each_run name_row row_count row_num row_layout _ (rows c) row_count_pos
    (Forall_impl _ _ _ Hk row_steps) b2 ((bs ++ x) ++ y) s1 Hb2 Hs1)
    as (l & b3 & s2 & zs & -> & Hb3 & Hn2 & Hs2 & Hl & Hzs & Hlen); [split; lia|]. cbn [mbind option_bind].
  eexists _, b3, s2, (x ++ y ++ concat zs). split; [done|]. split_and!; [by rewrite !app_assoc|lia|done|..].
  - unfold cluster_lay, cluster_num. cbn [cluster_controller rows]. by rewrite Hcl, Hl, Hn1.
  - intros Hz'. rewrite !length_app in Hz'. apply pieces_small in Hzs; [|lia].
    assert (length l ≤ length (concat zs))%nat
      by (rewrite <-(length_map row_layout l); apply (length_pieces _ zs _ Hzs); intros ? ? (? & Hr & _); by eapply reads_pos).
    exists x, y, zs. unfold cluster_lay. cbn [cluster_controller rows fst snd]. rewrite length_map, Hlen.
    split_and!; [done|by rewrite <-Hd| |done]. rewrite to_int_small in Hy by lia. done.
Qed.

(** ** The system *)

Definition ready_system (sys : system_t) : Prop :=
  Forall ready_sched (orcm_schedulers sys) ∧ Forall ready_cluster (orcm_clusters sys).

(** The first vpid of the clusters: that after the schedulers, or 1 without any. *)
Definition first_vpid (sys : system_t) : Z :=
  if Z.of_nat (length (orcm_schedulers sys)) =? 0 then 1 else Z.of_nat (length (orcm_schedulers sys)).

Lemma total_length {A} (l : list A) : total (λ _, 1) l = Z.of_nat (length l).
Proof. induction l as [|x l IH]; [done|]. change (total (λ _, 1) (x :: l)) with (1 + total (λ _ : A, 1) l). cbn [length]. lia. Qed.

Lemma name_system_run sys s : ready_system sys → walking s → next s = 0 →
  first_vpid sys + total cluster_count (orcm_clusters sys) < 2 ^ 32 →
  ∃ sys' b s' w ss zs, name_system OPAL_MCA_PREFIX nodename sys s = Some (sys', b, s') ∧
    next s' = first_vpid sys + total cluster_count (orcm_clusters sys) ∧
    map (node_vpid ∘ sched_controller) (orcm_schedulers sys') = num_all (λ v _, v) (λ _, 1) 0 (orcm_schedulers sys) ∧
    map cluster_lay (orcm_clusters sys') = num_all cluster_num cluster_count (first_vpid sys) (orcm_clusters sys) ∧
    holds b (w ++ concat zs) ∧
    (Z.of_nat (length w) ≤ INT_MAX → ∃ sb, reads t_buffer w sb ∧ ahead sb (concat ss)) ∧
    Forall2 (λ z v, reads t_name z (mk_name 0 v)) ss (map (node_vpid ∘ sched_controller) (orcm_schedulers sys')) ∧
    Forall2 (λ z c, Z.of_nat (length z) ≤ INT_MAX → cluster_piece z c) zs (map cluster_lay (orcm_clusters sys')).
Proof.
  intros [Hsc Hcl] Hs H0 Hr. unfold name_system.
  assert (∀ c, 0 ≤ cluster_count c) as Hpos.
  { intros c. pose proof (ctl_count_pos (cluster_controller c)). pose proof (total_pos row_count (rows c) row_count_pos).
    unfold cluster_count. lia. }
  pose proof (total_pos cluster_count (orcm_clusters sys) Hpos) as Ht.
  assert (0 ≤ first_vpid sys ∧ Z.of_nat (length (orcm_schedulers sys)) ≤ first_vpid sys) as [Hf Hf']
    by (unfold first_vpid; destruct (Z.eqb_spec (Z.of_nat (length (orcm_schedulers sys))) 0); lia).
  destruct (each_run name_sched (λ _, 1) (λ v _, v) (node_vpid ∘ sched_controller) (λ z v, reads t_name z (mk_name 0 v))
    (orcm_schedulers sys) ltac:(done) (Forall_impl _ _ _ Hsc sched_steps) (mk_buf false [] 0 0) [] s holds_new Hs)
    as (l & b1 & s1 & ss & -> & Hb1 & Hn1 & Hs1 & Hl & Hss & Hlen); [rewrite total_length; split; lia|].
  rewrite total_length, H0 in Hn1. cbn [mbind option_bind].
  destruct (put_buffer b1 _ (mk_buf false [] 0 0) [] Hb1 holds_new) as (b2 & w & -> & Hb2 & Hlw & Hw). cbn [mbind option_bind].
  assert (∃ s2, (if Z.of_nat (length (orcm_schedulers sys)) =? 0 then set_next 1 s1 else s1) = s2 ∧ next s2 = first_vpid sys ∧ walking s2)
    as (s2 & -> & Hn2 & Hs2).
  { eexists. split; [done|]. unfold first_vpid. destruct (_ =? _); [done|]. split; [lia|done]. }
  destruct (each_run name_cluster cluster_count cluster_num cluster_lay _ (orcm_clusters sys) Hpos
    (Forall_impl _ _ _ Hcl cluster_steps) b2 ([] ++ w) s2 Hb2 Hs2)
    as (cs & b3 & s3 & zs & -> & Hb3 & Hn3 & Hs3 & Hcs & Hzs & Hlen'); [split; lia|]. cbn [mbind option_bind].
  eexists (mk_system cs l), b3, s3, w, ss, zs. cbn [orcm_schedulers orcm_clusters]. rewrite H0 in Hl.
  split_and!; [done|lia|done|congruence|done| |done|done].
  intros Hlw'. exists (received_buffer b1). split; [apply Hw; lia|]. by apply holds_ahead, holds_received.
Qed.

(** With one scheduler and one cluster what is packed is the definition of its layout. *)
Lemma name_system_def sc c s sys' b s' : ready_system (mk_system [c] [sc]) → walking s → next s = 0 →
  1 + cluster_count c < 2 ^ 32 → name_system OPAL_MCA_PREFIX nodename (mk_system [c] [sc]) s = Some (sys', b, s') →
  bytes_used b ≤ INT_MAX → cluster_def (the_layout c) (received_buffer b).
Proof.
  intros Hready Hw Hn Hr Hdef Hlen.
  destruct (name_system_run (mk_system [c] [sc]) s Hready Hw Hn)
    as (sys1 & b1 & s1 & w & ss & zs & E & _ & Hs & Hc & Hb & Hwr & Hss & Hzs).
  { change (1 + (cluster_count c + 0) < 2 ^ 32). by rewrite Z.add_0_r. }
  rewrite E in Hdef. injection Hdef as -> -> ->. clear E.
  assert (Z.of_nat (length (w ++ concat zs)) ≤ INT_MAX) as Hl by (destruct Hb as (_ & _ & <-); exact Hlen).
  rewrite length_app in Hl. specialize (Hwr ltac:(lia)). apply pieces_small in Hzs; [|lia].
  rewrite Hs in Hss. rewrite Hc in Hzs. cbn [orcm_schedulers orcm_clusters num_all] in Hss, Hzs.
  change (first_vpid (mk_system [c] [sc])) with 1 in Hzs.
  destruct (Forall2_cons_inv_r _ _ _ _ Hzs) as (z & zs' & Hz & Hnil & ->). apply Forall2_nil_inv_r in Hnil as ->.
  destruct (Forall2_cons_inv_r _ _ _ _ Hss) as (v & vs & Hv & Hnil & ->). apply Forall2_nil_inv_r in Hnil as ->.
  destruct Hz as (xc & yc & zc & -> & H1 & H2 & H3). destruct Hwr as (sb & Hwr & Hsb).
  exists w, xc, yc, zc. cbn [concat] in Hb. rewrite app_nil_r in Hb.
  split_and!; [by apply holds_ahead, holds_received| |done..]. exists sb, v, []. done.
Qed.

End walk.
End SystemSpec.
