(* ===== verification/SystemCases.v ===== *)
(** * From the configuration file to the delivery of messages

    A configuration that is read gives a system in which no process has a name yet, and
    every controller runs on a node with a name; so all processes get names.  Processes
    that have read the same configuration, with one scheduler and one cluster without a
    controller, deliver each other's messages.  Then the cases in which the code does not
    do what it means to. *)

From Stdlib Require Import ZArith Lia Ascii.
From stdpp Require Import prelude numbers strings gmap list list_numbers.
From S2P Require Import Prelude CString Argv Environ Dss Names NameText Fields DssBuffer CfgiDt CfgiFile30 CfgiSystem.
From S2P Require Import Routed RoutedOrcm OrcmTree OrcmLayout OrcmRoutes SystemSpec.

Local Open Scope Z_scope.

Module SystemCases.
Import Dss Names Fields DssBuffer CfgiDt CfgiFile30 CfgiSystem OrcmTree OrcmLayout OrcmRoutes SystemSpec.

(** ** Systems that have been read *)

Definition blank (c : orcm_node_t) : Prop :=
  daemon c = ORTE_NAME_INVALID ∧ (state c ≠ ORTE_NODE_STATE_UNDEF → is_Some (node_name c)).
Definition blank_rack (k : orcm_rack_t) : Prop := blank (rack_controller k).
Definition blank_row (r : orcm_row_t) : Prop := blank (row_controller r) ∧ Forall blank_rack (racks r).
Definition blank_cluster (c : orcm_cluster_t) : Prop := blank (cluster_controller c) ∧ Forall blank_row (rows c).

(** The value that comes out of a computation has a property. *)
Definition gives {A} (m : R A) (P : A → Prop) : Prop := ∀ a, m = Some (inr a) → P a.

Lemma gives_ret {A} (a : A) P : P a → gives (ret a) P.
Proof. by intros H ? [= <-]. Qed.

Lemma gives_fail {A} rc (P : A → Prop) : gives (fail rc) P.
Proof. by intros ? [=]. Qed.

Lemma gives_none {A} (P : A → Prop) : gives None P.
Proof. by intros ? [=]. Qed.

Lemma gives_bind {A B} (m : R A) (k : A → R B) P Q : gives m P → (∀ a, P a → gives (k a) Q) → gives (bindR m k) Q.
Proof. intros Hm Hk b. unfold bindR. destruct m as [[rc|a]|]; [done| |done]. intros E. by apply (Hk a (Hm a eq_refl)). Qed.

Lemma gives_any {A} (m : R A) : gives m (λ _, True).
Proof. done. Qed.

Lemma gives_fold {A B} (f : B → A → R A) (P : A → Prop) l a : P a → (∀ b a, P a → gives (f b a) P) → gives (foldR f l a) P.
Proof.
  intros Ha Hf. revert a Ha. induction l as [|b l IH]; intros a Ha; [by apply gives_ret|].
  cbn [foldR]. eapply gives_bind; [by apply Hf|]. exact IH.
Qed.

Lemma gives_each {A} (make : Z → R A) (P : A → Prop) n k l : (∀ k, gives (make k) P) → Forall P l → gives (make_each make n k l) (Forall P).
Proof.
  intros Hm. revert k l. induction n as [|n IH]; intros k l Hl; [by apply gives_ret|].
  cbn [make_each]. eapply gives_bind; [apply Hm|]. intros a Ha. apply IH, Forall_app. split; [done|by constructor].
Qed.

Lemma gives_members {A} name_of new parse (P : A → Prop) v l : Forall P l → (∀ o, P (new o)) →
  (∀ k a, P a → gives (parse k a) P) → gives (parse_members name_of new parse v l) (Forall P).
Proof.
  intros Hl Hn Hp. unfold parse_members.
  assert (gives match find_named name_of v l 0 with
     | None => None
     | Some (Some i) => match l !! i with Some a => let* a := parse 0 a in ret (<[i := a]> l) | None => None end
     | Some None => let* a := parse 0 (new (Some v)) in ret (l ++ [a]) end (Forall P)) as Hsearch.
  { destruct (find_named name_of v l 0) as [[i|]|]; [|..|apply gives_none].
    - destruct (l !! i) as [a|] eqn:E; [|apply gives_none].
      eapply gives_bind; [apply Hp; by eapply Forall_lookup_1|]. intros a' Ha'. apply gives_ret. by apply Forall_insert.
    - eapply gives_bind; [apply Hp, Hn|]. intros a Ha. apply gives_ret, Forall_app. split; [done|by constructor]. }
  destruct v as [|[[] [] [] [] [] [] [] []] v]; try exact Hsearch.
  apply gives_each; [|done]. intros k. apply Hp, Hn.
Qed.

Section parse.
Context (OPAL_MCA_PREFIX : cstring).

Lemma controller_blank name x c : daemon c = ORTE_NAME_INVALID → gives (parse_controller OPAL_MCA_PREFIX name x c) blank.
Proof.
  intros Hc. unfold parse_controller. eapply gives_bind; [apply gives_any|]. intros cfg _. apply gives_ret.
  split; [done|]. intros _. by eexists.
Qed.

Lemma rack_blank row idx x k : blank_rack k → gives (parse_rack OPAL_MCA_PREFIX row idx x k) blank_rack.
Proof.
  intros Hk. unfold parse_rack. destruct (is_tag x "controller").
  - destruct (first_value x) as [v|]; [|apply gives_fail]. destruct (expand_name row [] v idx) as [name|]; [|apply gives_none].
    eapply gives_bind; [apply controller_blank, Hk|]. intros c Hc. by apply gives_ret.
  - destruct (is_tag x "node"); [|by apply gives_ret]. destruct (first_value x) as [v|]; [|apply gives_fail].
    eapply gives_bind; [apply gives_any|]. intros l _. by apply gives_ret.
Qed.

Lemma nd_con_blank : blank nd_con.
Proof. split; [done|]. by intros []. Qed.

Lemma row_blank x r : blank_row r → gives (parse_row OPAL_MCA_PREFIX x r) blank_row.
Proof.
  intros [Hc Hk]. unfold parse_row. destruct (is_tag x "controller").
  - destruct (first_value x) as [v|]; [|apply gives_fail]. destruct (row_name r) as [name|]; [|apply gives_none].
    eapply gives_bind; [apply controller_blank, Hc|]. intros c Hc'. by apply gives_ret.
  - destruct (is_tag x "rack"); [|by apply gives_ret]. destruct (first_value x) as [v|]; [|apply gives_fail].
    eapply gives_bind; [apply (gives_members _ _ _ blank_rack); [done|intros; apply nd_con_blank|]|].
    + intros k a Ha. apply gives_fold; [done|]. intros b a'. apply rack_blank.
    + intros l Hl. by apply gives_ret.
Qed.

Lemma rows_blank x v l : Forall blank_row l → gives (parse_rows OPAL_MCA_PREFIX x v l) (Forall blank_row).
Proof.
  intros Hl. unfold parse_rows. destruct (Argv.opal_argv_split v COMMA) as [vals|]; [|by apply gives_ret].
  eapply gives_bind; [apply gives_any|]. intros [names|] _; [|apply gives_fail]. apply gives_fold; [done|].
  clear l Hl. intros name l Hl. unfold parse_row_named.
  destruct (find_named row_name name l 0) as [[i|]|]; [|..|apply gives_none].
  - destruct (l !! i) as [r|] eqn:E; [|apply gives_none].
    eapply gives_bind; [apply gives_fold; [by eapply Forall_lookup_1|intros b a; apply row_blank]|].
    intros r' Hr'. apply gives_ret. by apply Forall_insert.
  - eapply gives_bind; [apply (gives_fold _ blank_row); [|intros b a; apply row_blank]|].
    + split; [apply nd_con_blank|constructor].
    + intros r' Hr'. apply gives_ret, Forall_app. split; [done|by constructor].
Qed.

Lemma cluster_blank xs lost c : blank_cluster c → gives (parse_cluster_loop OPAL_MCA_PREFIX xs lost c) blank_cluster.
Proof.
  revert lost c. induction xs as [|x xs IH]; intros lost c [Hc Hr]; cbn [parse_cluster_loop].
  { destruct lost; [apply gives_none|by apply gives_ret]. }
  destruct (is_tag x "controller").
  - destruct (first_value x) as [v|]; [|apply gives_fail]. eapply gives_bind; [apply controller_blank, Hc|].
    intros c' Hc'. by apply IH.
  - destruct (is_tag x "row"); [|by apply IH]. destruct (first_value x) as [v|]; [|apply gives_fail].
    eapply gives_bind; [by apply rows_blank|]. intros l Hl. by apply IH.
Qed.

Lemma system_blank cfg sys : Forall blank_cluster (orcm_clusters sys) →
  gives (parse_system OPAL_MCA_PREFIX cfg sys) (λ sys, Forall blank_cluster (orcm_clusters sys)).
Proof.
  intros Hs. unfold parse_system. apply gives_fold; [done|]. clear. intros xx sys Hs.
  destruct (is_tag xx "configuration"); [|by apply gives_ret]. apply gives_fold; [done|]. clear. intros x sys Hs.
  unfold parse_section. destruct (is_tag x "cluster").
  - eapply gives_bind; [apply cluster_blank; split; [apply nd_con_blank|constructor]|]. intros c Hc.
    apply gives_ret, Forall_app. split; [done|by constructor].
  - destruct (is_tag x "scheduler"); [|apply gives_fail]. eapply gives_bind; [apply gives_any|]. intros sc _. by apply gives_ret.
Qed.

End parse.

Lemma blank_ready c : blank c → ready c.
Proof. intros [H1 H2]. split; [done|]. intros Hs _. by apply H2. Qed.

Lemma blank_cluster_ready c : blank_cluster c → ready_cluster c.
Proof.
  intros [Hc Hr]. split; [by apply blank_ready|]. eapply Forall_impl; [exact Hr|]. intros r [Hrc Hk].
  split; [by apply blank_ready|]. eapply Forall_impl; [exact Hk|]. intros k. apply blank_ready.
Qed.

(** ** All processes get names *)

Definition cluster_vpids (c : orcm_cluster_t) : list Z := option_list (cluster_lay c).1 ++ concat (map row_vpids (cluster_lay c).2).

Lemma cluster_num_seq v c : option_list (cluster_num v c).1 ++ concat (map row_vpids (cluster_num v c).2) = seqZ v (cluster_count c).
Proof.
  unfold cluster_num, cluster_count. cbn [fst snd]. rewrite ctl_num_seq, (num_all_seq row_num row_count row_vpids)
    by (apply row_count_pos || apply row_num_seq).
  by rewrite seqZ_app by (apply ctl_count_pos || apply total_pos, row_count_pos).
Qed.

Lemma cluster_count_pos c : 0 ≤ cluster_count c.
Proof.
  pose proof (ctl_count_pos (cluster_controller c)). pose proof (total_pos row_count (rows c) row_count_pos).
  unfold cluster_count. lia.
Qed.

Lemma start_walking {net : Network} nodename vpid type e text :
  walking (start nodename vpid type e text) ∧ next (start nodename vpid type e text) = 0.
Proof. unfold start, walking. by repeat case_match. Qed.

Section named.
Context {net : Network} (OPAL_MCA_PREFIX nodename : cstring).

(** The run of [define_system] on a configuration that can be read: the buffer holds the
    cluster definition and something more. *)
Lemma define_system_run cfg sys vpid type e text :
  parse_system OPAL_MCA_PREFIX cfg (mk_system [] []) = Some (inr sys) → Forall ready_sched (orcm_schedulers sys) →
  first_vpid sys + total cluster_count (orcm_clusters sys) < 2 ^ 32 →
  ready_system sys ∧
  ∃ sys' b s' buf x y,
    name_system OPAL_MCA_PREFIX nodename sys (start nodename vpid type e text) = Some (sys', b, s') ∧
    define_system OPAL_MCA_PREFIX nodename cfg (mk_system [] []) (mk_buf false [] 0 0) vpid type e text =
      Some (inr (sys', next s', buf, s')) ∧
    holds buf (x ++ y) ∧ bytes_used b ≤ Z.of_nat (length x) ∧
    (bytes_used b ≤ INT_MAX → reads t_buffer x (received_buffer b)).
Proof.
  intros Hp Hsc Hr. unfold define_system. rewrite Hp. cbn [bindR].
  destruct (start_walking nodename vpid type e text) as [Hw Hn].
  assert (ready_system sys) as Hready.
  { split; [done|]. pose proof (system_blank OPAL_MCA_PREFIX cfg (mk_system [] []) ltac:(constructor) _ Hp) as Hb.
    eapply Forall_impl; [exact Hb|]. apply blank_cluster_ready. }
  split; [done|].
  destruct (name_system_run OPAL_MCA_PREFIX nodename sys _ Hready Hw Hn Hr) as (sys' & b & s' & w & ss & zs & E & _ & _ & _ & Hb & _).
  rewrite E. destruct (put_buffer b _ (mk_buf false [] 0 0) [] Hb holds_new) as (b1 & x & -> & Hb1 & Hl & Hx). cbn [app] in Hb1.
  assert (∃ b2 y, put t_buffer (uribuf s') b1 = Some b2 ∧ holds b2 (x ++ y)) as (b2 & y & -> & Hb2).
  { destruct (packs_one_buffer (uribuf s')) as (z & Hz).
    destruct (packs_call t_buffer [uribuf s'] ((z ++ base (uribuf s')) ++ [])) as (c & Hc).
    { apply packs_bind; [done|apply packs_ret]. }
    destruct (holds_pack b1 x _ _ Hb1 Hc) as (b2 & E2 & Hb2). unfold put. rewrite E2. eauto. }
  destruct Hb as (_ & _ & Eb). exists sys', b, s', b2, x, y. unfold bytes_used. rewrite Eb. split_and!; [done..|lia|done].
Qed.

End named.

(** *** The system with its names

    [named_...] gives the numbers from [v] on to what is there, the controller before
    its members, and changes nothing else. *)

Definition named_node (v : Z) (n : orcm_node_t) : orcm_node_t := set_daemon (mk_name 0 v) n.
Definition named_ctl (v : Z) (c : orcm_node_t) : orcm_node_t :=
  if state c =? ORTE_NODE_STATE_UNDEF then c else named_node v c.
Definition named_rack (v : Z) (k : orcm_rack_t) : orcm_rack_t :=
  mk_rack (rack_name k) (rack_row k) (named_ctl v (rack_controller k))
    (num_all named_node (λ _, 1) (v + ctl_count (rack_controller k)) (nodes k)).
Definition named_row (v : Z) (r : orcm_row_t) : orcm_row_t :=
  mk_row (row_name r) (row_cluster r) (named_ctl v (row_controller r))
    (num_all named_rack rack_count (v + ctl_count (row_controller r)) (racks r)).
Definition named_cluster (v : Z) (c : orcm_cluster_t) : orcm_cluster_t :=
  mk_cluster (cluster_name c) (named_ctl v (cluster_controller c))
    (num_all named_row row_count (v + ctl_count (cluster_controller c)) (rows c)).
Definition named_sched (v : Z) (s : orcm_scheduler_t) : orcm_scheduler_t :=
  mk_scheduler (named_node v (sched_controller s)) (queues s).
Definition named_system (sys : system_t) : system_t :=
  mk_system (num_all named_cluster cluster_count (first_vpid sys) (orcm_clusters sys))
    (num_all named_sched (λ _, 1) 0 (orcm_schedulers sys)).

Section exact.
Context {net : Network} (OPAL_MCA_PREFIX nodename : cstring).

(** A function of the walk that gives [x] its names. *)
Definition names {A} (f : A → opal_buffer_t → walk_t → option (A * opal_buffer_t * walk_t)) (count : A → Z)
    (num : Z → A → A) : Prop := ∀ x b s x' b' s', f x b s = Some (x', b', s') → room s (count x) →
  x' = num (next s) x ∧ next s' = next s + count x.

Lemma each_names {A} f count (num : Z → A → A) : (∀ x, 0 ≤ count x) → names f count num →
  names (each f) (total count) (λ v l, num_all num count v l).
Proof.
  intros Hpos Hf l. induction l as [|x l IH]; intros b s l' b' s'; cbn [each]; [intros [= <- <- <-] _; split; [done|cbn; lia]|].
  change (total count (x :: l)) with (count x + total count l). intros E [H0 Hr]. pose proof (total_pos count l Hpos).
  destruct (f x b s) as [[[x1 b1] s1]|] eqn:E1; [|done]. cbn [mbind option_bind] in E.
  destruct (each f l b1 s1) as [[[l2 b2] s2]|] eqn:E2; [|done]. cbn [mbind option_bind] in E. injection E as <- <- <-.
  pose proof (Hpos x). destruct (Hf _ _ _ _ _ _ E1) as [-> Hn1]; [split; lia|].
  destruct (IH _ _ _ _ _ E2) as [-> Hn2]; [split; lia|]. cbn [num_all]. rewrite <-Hn1. split; [done|lia].
Qed.

Lemma construct_uri_next node s s' : orcm_util_construct_uri nodename node s = Some s' → next s' = next s.
Proof.
  unfold orcm_util_construct_uri. destruct (node_name node); [|done]. cbn [mbind option_bind].
  destruct (node_addr nodename _ _) as [[addr|] text]; [|by intros [= <-]].
  destruct (NameText.orte_util_convert_process_name_to_string _); [done|]. destruct (put _ _ _); [|done].
  by intros [= <-].
Qed.

Lemma check_me_next node s s' : check_me OPAL_MCA_PREFIX nodename node s = Some s' → next s' = next s.
Proof.
  unfold check_me. destruct (node_name node); [|by intros [= <-]]. destruct (_ =? 0); [|by intros [= <-]].
  destruct (setup_environ _ _ _); [|done]. by intros [= <-].
Qed.

Lemma assign_names uri role node s node' s' : assign OPAL_MCA_PREFIX nodename uri role node s = Some (node', s') → room s 1 →
  node' = named_node (next s) node ∧ next s' = next s + 1.
Proof.
  unfold assign. intros E [H0 Hr]. set (n := set_daemon (mk_name 0 (next s)) node) in *.
  destruct (if uri then _ else _) as [s1|] eqn:E1; [|done]. cbn [mbind option_bind] in E.
  destruct (if negb (found_me s1) && _ then _ else _) as [s2|] eqn:E2; [|done]. cbn [mbind option_bind] in E. injection E as <- <-.
  split; [done|]. cbn [next set_next].
  assert (next s1 = next s) as N1 by (destruct uri; [by eapply construct_uri_next|by injection E1 as <-]).
  assert (next s2 = next s1) as -> by (destruct (negb _ && _) in E2; [by eapply check_me_next|by injection E2 as <-]).
  rewrite N1. apply Z.mod_small. lia.
Qed.

Lemma assign_controller_names c s c' s' : assign_controller OPAL_MCA_PREFIX nodename c s = Some (c', s') → room s (ctl_count c) →
  c' = named_ctl (next s) c ∧ next s' = next s + ctl_count c.
Proof.
  unfold assign_controller, named_ctl, ctl_count. destruct (_ =? _); [intros [= <- <-] _; split; [done|lia]|]. apply assign_names.
Qed.

Ltac walk E := repeat
  match type of E with
  | context [match ?m with Some _ => _ | None => None end] =>
      let H := fresh "E" in destruct m as [?|] eqn:H; [|discriminate E]
  | context [?m ≫= _] =>
      let H := fresh "E" in destruct m as [?|] eqn:H; [cbn [mbind option_bind] in E|discriminate E]
  | context [let '(_, _) := ?p in _] => destruct p
  end.

Lemma node_names : names (name_node OPAL_MCA_PREFIX nodename) (λ _, 1) named_node.
Proof.
  intros x b s x' b' s' E Hr. unfold name_node in E. walk E. injection E as <- <- <-. by eapply assign_names.
Qed.

Lemma sched_names : names (name_sched OPAL_MCA_PREFIX nodename) (λ _, 1) named_sched.
Proof.
  intros x b s x' b' s' E Hr. unfold name_sched in E. walk E. injection E as <- <- <-.
  match goal with H : assign _ _ _ _ _ _ = Some _ |- _ => by destruct (assign_names _ _ _ _ _ _ H Hr) as [-> ->] end.
Qed.

Ltac members Hm count pos :=
  let Hn := fresh "Hn" in
  match goal with H : assign_controller _ _ _ _ = Some _ |- _ =>
    destruct (assign_controller_names _ _ _ _ H) as [-> Hn]; [split; lia|] end;
  match goal with H : each _ _ _ _ = Some _ |- _ =>
    destruct (each_names _ count _ pos Hm _ _ _ _ _ _ H) as [-> ->]; [split; lia|] end;
  rewrite Hn; split; [done|lia].

Lemma rack_names : names (name_rack OPAL_MCA_PREFIX nodename) rack_count named_rack.
Proof.
  intros x b s x' b' s' E [H0 Hr]. unfold rack_count in *.
  pose proof (ctl_count_pos (rack_controller x)). pose proof (total_pos (λ _ : orcm_node_t, 1) (nodes x) (λ _, Z.le_0_1)).
  unfold name_rack in E. walk E. injection E as <- <- <-. members node_names (λ _ : orcm_node_t, 1) (λ _ : orcm_node_t, Z.le_0_1).
Qed.

Lemma row_names : names (name_row OPAL_MCA_PREFIX nodename) row_count named_row.
Proof.
  intros x b s x' b' s' E [H0 Hr]. unfold row_count in *.
  pose proof (ctl_count_pos (row_controller x)). pose proof (total_pos rack_count (racks x) rack_count_pos).
  unfold name_row in E. walk E. injection E as <- <- <-. members rack_names rack_count rack_count_pos.
Qed.

Lemma cluster_names : names (name_cluster OPAL_MCA_PREFIX nodename) cluster_count named_cluster.
Proof.
  intros x b s x' b' s' E [H0 Hr]. unfold cluster_count in *.
  pose proof (ctl_count_pos (cluster_controller x)). pose proof (total_pos row_count (rows x) row_count_pos).
  unfold name_cluster in E. walk E. injection E as <- <- <-. members row_names row_count row_count_pos.
Qed.

Lemma name_system_exact sys s sys' b s' : name_system OPAL_MCA_PREFIX nodename sys s = Some (sys', b, s') → next s = 0 →
  first_vpid sys + total cluster_count (orcm_clusters sys) < 2 ^ 32 → sys' = named_system sys.
Proof.
  intros E H0 Hr. pose proof (total_pos cluster_count (orcm_clusters sys) cluster_count_pos).
  assert (Z.of_nat (length (orcm_schedulers sys)) ≤ first_vpid sys)
    by (unfold first_vpid; destruct (Z.eqb_spec (Z.of_nat (length (orcm_schedulers sys))) 0); lia).
  unfold name_system in E. walk E. injection E as <- <- <-.
  match goal with H : each (name_sched _ _) _ _ _ = Some _ |- _ =>
    destruct (each_names _ (λ _, 1) _ (λ _, Z.le_0_1) sched_names _ _ _ _ _ _ H) as [-> Hn]; [rewrite total_length; split; lia|] end.
  rewrite total_length, H0 in Hn.
  match goal with H : each (name_cluster _ _) _ _ ?s2 = Some _ |- _ =>
    assert (next s2 = first_vpid sys) as Hf by (unfold first_vpid; destruct (_ =? _); cbn [next set_next]; lia);
    destruct (each_names _ cluster_count _ cluster_count_pos cluster_names _ _ _ _ _ _ H) as [-> _]; [rewrite <-Hf in Hr; split; lia|] end.
  unfold named_system. by rewrite Hf, H0.
Qed.

End exact.


(** ** Routes *)

(** C5. What a process that reads the cluster definition knows of the routes, the cluster
    controller apart: its children are the processes below it in the tree of the
    definition, in the order of the file, each with the set of the processes below that child;
    its parent is the nearest controller above it that is there, or the scheduler, and is
    its lifeline.  A process with routing enabled that is not of type DAEMON, or has
    nothing below it, sends a message to the child that is the target or has it below, and
    to the parent if there is none. *)
Theorem routes_follow_tree me L b p up s : fresh p me → cluster_def L b → NoDup (vpids L) → Forall small (vpids L) →
  sits (tree_of L) up s → label s = me → l_cluster L ≠ Some me →
  ∃ p', RoutedOrcm.init_routes 0 (Some b) p = Some (p', OPAL_SUCCESS) ∧
    Forall2 knows (RoutedOrcm.my_children p') (kids s) ∧
    (∀ u, up = Some u → RoutedOrcm.my_parent p' = mk_name 0 u ∧ RoutedOrcm.lifeline p' = true) ∧
    (forwards p s → ∀ t, t ∈ vpids L → t ≠ me → RoutedOrcm.get_route p' (mk_name 0 t) =
      Some (mk_name 0 (match toward t (kids s) with Some k => label k | None => vpid (RoutedOrcm.my_parent p') end))).
Proof.
  intros Hp Hb Hd HL Hs Hl Hc. destruct (init_routes_run me L b p up s) as (cs & E & Hcs); [done..|].
  exists (settled p up cs). split; [done|]. split; [by destruct up|]. split; [by intros u ->|].
  intros Hf t Ht Hne. rewrite Forall_forall in HL. apply (settled_route p me); auto.
Qed.

(** A cluster controller does not find out that it is one: it reads the definition
    with success and has neither children nor a parent, so that all it sends within the
    cluster goes to the parent it had. *)
Theorem cluster_controller_lost c L b p : fresh p c → cluster_def L b → NoDup (vpids L) → Forall small (vpids L) →
  l_cluster L = Some c → RoutedOrcm.orte_routing_is_enabled p = true →
  RoutedOrcm.init_routes 0 (Some b) p = Some (p, OPAL_SUCCESS) ∧
  (∀ t, t ∈ vpids L → t ≠ c → RoutedOrcm.get_route p (mk_name 0 t) = Some (mk_name 0 (vpid (RoutedOrcm.my_parent p)))).
Proof.
  intros Hp Hb Hd HL Hc Hr. pose proof Hp as (Hn & Ht & Hch & _). split.
  - rewrite (init_routes_acts c L) by (done || by apply layout_small_vpids). by rewrite cluster_acts.
  - intros t Htl Hne. rewrite Forall_forall in HL.
    pose proof (settled_route p c None (leaf c) [] t Hp) as E. unfold settled in E.
    replace (RoutedOrcm.set_children [] p) with p in E by (destruct p; cbn in *; by subst).
    rewrite E; [done|done|constructor|by apply HL|done].
Qed.

(** ** Delivery in a configured cluster *)

Lemma the_layout_seq c : vpids (the_layout c) = seqZ 0 (1 + cluster_count c).
Proof.
  unfold vpids, the_layout. cbn [l_sched l_cluster l_rows]. rewrite cluster_num_seq.
  pose proof (cluster_count_pos c). rewrite (seqZ_cons 0) by lia. by replace (Z.pred (1 + cluster_count c)) with (cluster_count c) by lia.
Qed.

(** What each process reads is the definition of that layout. *)
Lemma definition_read {net : Network} prefix nodename cfg sc c vpid type e text sys' n buf s' buf1 b :
  parse_system prefix cfg (mk_system [] []) = Some (inr (mk_system [c] [sc])) → ready_sched sc → 1 + cluster_count c < 2 ^ 32 →
  define_system prefix nodename cfg (mk_system [] []) (mk_buf false [] 0 0) vpid type e text = Some (inr (sys', n, buf, s')) →
  bytes_used buf ≤ INT_MAX → unpack1 t_buffer buf = Some (buf1, inr b) →
  cluster_def (the_layout c) b ∧ n = 1 + cluster_count c.
Proof.
  intros Hp Hsc Hr Hdef Hlen Hun. destruct (start_walking nodename vpid type e text) as [Hw Hn].
  assert (first_vpid (mk_system [c] [sc]) + total cluster_count (orcm_clusters (mk_system [c] [sc])) = 1 + cluster_count c) as Et
    by (change (1 + (cluster_count c + 0) = 1 + cluster_count c); by rewrite Z.add_0_r).
  destruct (define_system_run prefix nodename cfg (mk_system [c] [sc]) vpid type e text Hp)
    as (Hready & sys1 & b1 & s1 & buf2 & x & y & E & Ed & Hbuf & Hlx & Hx); [by apply Forall_singleton|by rewrite Et|].
  rewrite Ed in Hdef. injection Hdef as -> <- -> ->.
  assert (Z.of_nat (length (x ++ y)) ≤ INT_MAX) as Hl by (destruct Hbuf as (_ & _ & <-); exact Hlen).
  rewrite length_app in Hl. specialize (Hx ltac:(lia)).
  destruct (reads_next _ _ _ _ _ Hx (holds_ahead _ _ Hbuf)) as (b' & Eb & _). rewrite Eb in Hun. injection Hun as <- <-. split.
  - eapply name_system_def; [done..|lia].
  - destruct (name_system_run prefix nodename _ _ Hready Hw Hn) as (? & ? & ? & _ & _ & _ & E' & Hn' & _); [by rewrite Et|].
    rewrite E in E'. injection E' as _ _ <-. by rewrite Hn'.
Qed.

(** [joins prefix cfg v t q]: a process has read the configuration [cfg] on some node, is then
    the process [v] of the type [t], and has set up its routes; its state is [q]. *)
Definition joins (prefix : cstring) (cfg : list xml_t) (v t : Z) (q : RoutedOrcm.proc_t) : Prop :=
  ∃ (net : Network) nodename vpid type e text sys n buf s buf1 b p,
    define_system prefix nodename cfg (mk_system [] []) (mk_buf false [] 0 0) vpid type e text = Some (inr (sys, n, buf, s)) ∧
    bytes_used buf ≤ INT_MAX ∧ unpack1 t_buffer buf = Some (buf1, inr b) ∧ my_vpid s = v ∧ proc_type s = t ∧
    RoutedOrcm.my_name p = mk_name 0 v ∧ RoutedOrcm.proc_type p = t ∧
    RoutedOrcm.ORTE_PROC_IS_TOOL p = false ∧ RoutedOrcm.my_children p = [] ∧
    RoutedOrcm.num_procs p = n ∧ RoutedOrcm.orte_routing_is_enabled p = true ∧
    RoutedOrcm.init_routes 0 (Some b) p = Some (q, OPAL_SUCCESS).

(** C3. From the configuration to the delivery of messages: in a configuration with one
    scheduler and one cluster without a controller, and at most 2^29 processes, when every
    process has read the configuration and set up its routes from the cluster definition, with
    routing enabled, and every process of
    type DAEMON is a leaf, a message from any process to any other is delivered in at most
    six hops.  A controller has another type than DAEMON, and forwards to what is below it,
    only when the configuration makes it an aggregator; so the condition says that every
    row and rack controller with processes below it is configured as one. *)
Theorem configured_cluster_delivers prefix cfg sc c types procs :
  parse_system prefix cfg (mk_system [] []) = Some (inr (mk_system [c] [sc])) → ready_sched sc →
  state (cluster_controller c) = ORTE_NODE_STATE_UNDEF → 1 + cluster_count c ≤ 2 ^ 29 →
  (∀ v, v ∈ seqZ 0 (1 + cluster_count c) → joins prefix cfg v (types v) (procs v)) →
  (∀ v, v ∈ seqZ 0 (1 + cluster_count c) → Z.land ORTE_PROC_DAEMON (types v) ≠ 0 →
     v ∈ OrcmTree.leaves (tree_of (the_layout c))) →
  ∀ x t, x ∈ seqZ 0 (1 + cluster_count c) → t ∈ seqZ 0 (1 + cluster_count c) →
  ∃ n, (n ≤ 6)%nat ∧ OrcmTree.reaches (hop procs) t n x.
Proof.
  intros Hp Hsc Hst Hn Hj Hty x t. rewrite <-the_layout_seq in *. pose proof (cluster_count_pos c) as Hpos.
  set (L := the_layout c) in *.
  assert (NoDup (vpids L)) as Hd by (unfold L; rewrite the_layout_seq; apply NoDup_seqZ).
  assert (l_cluster L = None) as Hcl by (unfold L, the_layout, cluster_num, ctl_num; cbn; by rewrite Hst).
  assert (Forall small (vpids L)) as HS.
  { unfold L. rewrite the_layout_seq. apply Forall_seqZ. intros v Hv. unfold small. lia. }
  apply cluster_delivers; [done..|]. intros up s Hs.
  assert (label s ∈ vpids L) as Hv.
  { rewrite <-labels_tree_of. apply (sits_labels _ _ _ _ Hs). rewrite labels_label. by left. }
  destruct (Hj _ Hv) as (net & nodename & vpid & type & e & text & sys & n & buf & s' & buf1 & b & p & Hdef & Hlen & Hun & _ & _ & H1 & Ht & H2 & H3 & H4 & H5 & H7).
  destruct (definition_read _ _ _ _ _ _ _ _ _ _ _ _ _ _ _ Hp Hsc ltac:(lia) Hdef Hlen Hun) as [Hcd En].
  exists p, b. split_and!; [|split; [done|]|done..].
  - unfold fresh. split_and!; try done; lia.
  - intros Hdm. apply (leaf_kids (tree_of L) up s Hs); [by rewrite labels_tree_of|]. apply (Hty _ Hv). rewrite <-Ht.
    unfold RoutedOrcm.ORTE_PROC_IS_DAEMON, RoutedOrcm.is_type in Hdm. by apply negb_true_iff, Z.eqb_neq in Hdm.
Qed.

(** ** What goes wrong *)

Lemma lost_fails prefix l c : gives (parse_cluster_loop prefix l true c) (λ _, False).
Proof.
  revert c. induction l as [|x l IH]; intros c; cbn [parse_cluster_loop]; [apply gives_none|].
  destruct (is_tag x "controller"); [|destruct (is_tag x "row"); [|apply IH]];
    (destruct (first_value x) as [v|]; [|apply gives_fail]); (eapply gives_bind; [apply gives_any|]); intros ? _; apply IH.
Qed.

(** A cluster with a controller of its own cannot be read: whatever else its section
    holds, [parse_cluster] does not return with success. *)
Theorem cluster_controller_unread prefix xx x c : x ∈ subvals xx → is_tag x "controller" = true →
  ∀ c', parse_cluster prefix xx c ≠ Some (inr c').
Proof.
  intros Hx Ht c' E. unfold parse_cluster in E. revert E. generalize false as lost. revert c.
  induction (subvals xx) as [|y l IH]; [by apply elem_of_nil in Hx|]. intros c lost.
  apply elem_of_cons in Hx as [<-|Hx]; cbn [parse_cluster_loop].
  - rewrite Ht. destruct (first_value x) as [v|]; [|done].
    intros E. destruct (gives_bind _ _ (λ _, True) (λ _, False) (gives_any _) (λ c' _, lost_fails prefix l _) _ E).
  - specialize (IH Hx). destruct (is_tag y "controller"); [|destruct (is_tag y "row"); [|apply IH]];
      (destruct (first_value y) as [v|]; [|done]); unfold bindR; repeat case_match; try done; apply IH.
Qed.

(** The address of this node is lost: [my_ip] is kept in the buffer of [inet_ntoa],
    into which the address of the next controller that has to be looked up is written.
    A node that is listed by the address of this one is then not recognized, though it was
    before. *)
Theorem own_address_lost {net : Network} prefix nodename other name a node s :
  node_name other = Some name → strcmp name nodename ≠ 0 → strcmp name (lit "localhost") ≠ 0 →
  opal_ifislocal name = false → opal_net_isaddr name = false → resolve name = Some a →
  walking s → ip_is_static s = true → node_name node = Some (static s) → opal_net_isaddr (static s) = true →
  strcmp (static s) a ≠ 0 → found_me s = false →
  (∃ s1, check_me prefix nodename node s = Some s1 ∧ found_me s1 = true) ∧
  (∃ s1, orcm_util_construct_uri nodename other s = Some s1 ∧ check_me prefix nodename node s1 = Some s1 ∧ found_me s1 = false).
Proof.
  intros Ho Hn Hlh Hl Ha Hr Hw Hst Hnode Hia Hne Hf. split.
  - unfold check_me, my_ip. rewrite Hnode, Hia, Hst.
    assert (strcmp (static s) (static s) = 0) as -> by (apply text_cmp_eq; done). cbn [Z.eqb].
    destruct (setup_environ_run prefix (mca_params (config node)) (environ s)) as (e & ->). by eexists.
  - unfold orcm_util_construct_uri. rewrite Ho. cbn [mbind option_bind]. unfold node_addr.
    rewrite (proj2 (Z.eqb_neq _ _) Hn), (proj2 (Z.eqb_neq _ _) Hlh), Hl, Ha, Hr.
    cbn [orb NameText.orte_util_convert_process_name_to_string].
    match goal with |- context [put t_string (Some ?t) _] => destruct (put_string t (uribuf s) Hw) as (b & -> & _) end.
    cbn [mbind option_bind]. eexists. split; [done|]. unfold check_me, my_ip. rewrite Hnode, Hia.
    cbn [ip_is_static set_uri static]. rewrite Hst. by rewrite (proj2 (Z.eqb_neq _ _) Hne).
Qed.

(** ** A small cluster *)

Definition elem (tag : string) (v : string) (l : list xml_t) : xml_t := mk_xml (lit tag) (Some [lit v]) l.

(** One scheduler, and a row of one rack with two nodes, both with controllers. *)
Definition small_cfg : list xml_t :=
  [mk_xml (lit "configuration") None
     [mk_xml (lit "scheduler") None [elem "node" "head" []];
      elem "cluster" "one"
        [elem "row" "A"
           [elem "controller" "rowA" [elem "aggregator" "y" []];
            elem "rack" "r"
              [elem "controller" "rackA" [elem "aggregator" "y" []]; elem "node" "n1" []; elem "node" "n2" []]]]]].

Definition PREFIX : cstring := lit "OMPI_MCA_".

#[local] Instance no_network : Network :=
  {| opal_net_isaddr := λ _, false; opal_ifislocal := λ _, false; resolve := λ _, None |}.

Definition small_parsed : R system_t := Eval vm_compute in parse_system PREFIX small_cfg (mk_system [] []).

Definition small_cluster : orcm_cluster_t :=
  Eval vm_compute in match small_parsed with Some (inr (mk_system [c] _)) => c | _ => cl_con end.
Definition small_sched : orcm_scheduler_t :=
  Eval vm_compute in match small_parsed with Some (inr (mk_system _ [s])) => s | _ => sc_con end.

(** The processes: where they run and what they are when they start. *)
Definition small_host (v : Z) : cstring :=
  if v =? 0 then lit "head" else if v =? 1 then lit "rowA" else if v =? 2 then lit "rackA" else if v =? 3 then lit "n1" else lit "n2".
Definition small_type (v : Z) : Z := if v =? 0 then 8256 else 66.

Definition small_run (v : Z) :=
  define_system PREFIX (small_host v) small_cfg (mk_system [] []) (mk_buf false [] 0 0) 0 (small_type v) [] [].

(** The process that has found itself, and what it then knows. *)
Definition small_begin (n vpid type : Z) : RoutedOrcm.proc_t :=
  RoutedOrcm.mk_proc (mk_name 0 vpid) ORTE_NAME_INVALID ORTE_NAME_INVALID type n true false false [].

Definition small_proc (v : Z) : RoutedOrcm.proc_t :=
  match small_run v with
  | Some (inr (_, n, buf, s)) =>
      match unpack1 t_buffer buf with
      | Some (_, inr b) =>
          match RoutedOrcm.init_routes 0 (Some b) (small_begin n (my_vpid s) (proc_type s)) with
          | Some (q, _) => q
          | None => small_begin 0 0 0
          end
      | _ => small_begin 0 0 0
      end
  | _ => small_begin 0 0 0
  end.

Definition small_joined (v : Z) : Z := if v =? 0 then 8256 else if v <=? 2 then 192 else 66.

Lemma small_joins v : v ∈ seqZ 0 5 → joins PREFIX small_cfg v (small_joined v) (small_proc v).
Proof.
  intros Hv. apply elem_of_seqZ in Hv.
  assert (∀ type, small_joined v = type → negb (Z.land 8 type =? 0) = false →
    match small_run v with
    | Some (inr (_, n, buf, s)) =>
        (n =? 5) && (my_vpid s =? v) && (proc_type s =? type) && (bytes_used buf <=? INT_MAX) &&
        match unpack1 t_buffer buf with
        | Some (_, inr b) =>
            match RoutedOrcm.init_routes 0 (Some b) (small_begin 5 v type) with Some (_, rc) => rc =? OPAL_SUCCESS | None => false end
        | _ => false
        end
    | _ => false
    end = true → joins PREFIX small_cfg v (small_joined v) (small_proc v)) as H.
  { intros type Hl Ht. unfold small_proc. destruct (small_run v) as [[|[[[sys n] buf] s]]|] eqn:E; try done.
    destruct (unpack1 t_buffer buf) as [[buf1 [|b]]|] eqn:Eu; try by rewrite andb_false_r.
    rewrite !andb_true_iff, !Z.eqb_eq, Z.leb_le. intros [[[[-> Hv'] Hty] Hb] Hi]. rewrite Hv', Hty, Hl.
    destruct (RoutedOrcm.init_routes 0 (Some b) (small_begin 5 v type)) as [[q rc]|] eqn:Ei; [|done].
    apply Z.eqb_eq in Hi as ->. exists no_network, (small_host v), 0, (small_type v), [], [], sys, 5, buf, s, buf1, b, (small_begin 5 v type).
    by split_and!. }
  assert (v = 0 ∨ v = 1 ∨ v = 2 ∨ v = 3 ∨ v = 4) as [->|[->|[->|[->| ->]]]] by lia.
  - apply (H 8256); [done|done|by vm_compute].
  - apply (H 192); [done|done|by vm_compute].
  - apply (H 192); [done|done|by vm_compute].
  - apply (H 66); [done|done|by vm_compute].
  - apply (H 66); [done|done|by vm_compute].
Qed.

Lemma small_leaves v : v ∈ seqZ 0 5 → Z.land ORTE_PROC_DAEMON (small_joined v) ≠ 0 →
  v ∈ OrcmTree.leaves (tree_of (the_layout small_cluster)).
Proof.
  intros Hv. apply elem_of_seqZ in Hv.
  assert (OrcmTree.leaves (tree_of (the_layout small_cluster)) = [3; 4]) as -> by (vm_compute; reflexivity).
  assert (v = 0 ∨ v = 1 ∨ v = 2 ∨ v = 3 ∨ v = 4) as [->|[->|[->|[->| ->]]]] by lia; try done; intros _; set_solver.
Qed.

(** A message from a node to the scheduler and back. *)
Lemma configured_cluster_delivers_witness :
  (∃ n, (n ≤ 6)%nat ∧ OrcmTree.reaches (hop small_proc) 0 n 4) ∧ (∃ n, (n ≤ 6)%nat ∧ OrcmTree.reaches (hop small_proc) 4 n 0).
Proof.
  assert (∀ x t, x ∈ seqZ 0 (1 + cluster_count small_cluster) → t ∈ seqZ 0 (1 + cluster_count small_cluster) →
    ∃ n, (n ≤ 6)%nat ∧ OrcmTree.reaches (hop small_proc) t n x) as H.
  { apply (configured_cluster_delivers PREFIX small_cfg small_sched small_cluster small_joined small_proc);
      [vm_compute; reflexivity|vm_compute; eexists; reflexivity|reflexivity|vm_compute; discriminate|exact small_joins|exact small_leaves]. }
  split; apply H; apply elem_of_seqZ; vm_compute; split; congruence || reflexivity.
Defined.


Lemma cluster_controller_unread_witness : ∀ c',
  parse_cluster PREFIX (elem "cluster" "one" [elem "controller" "cc" []; elem "row" "A" []]) cl_con ≠ Some (inr c').
Proof. apply (cluster_controller_unread PREFIX _ (elem "controller" "cc" [])); [by left|reflexivity]. Defined.

(** A network of two nodes. *)
Definition two_nodes : Network :=
  {| opal_net_isaddr := λ a, match a with "1"%char :: _ => true | _ => false end; opal_ifislocal := λ _, false;
     resolve := λ n, Some (if strcmp n (lit "me") =? 0 then lit "10.0.0.5" else lit "10.0.0.9") |}.

Lemma own_address_lost_witness :
  let s := @start two_nodes (lit "me") 0 2 [] [] in
  let node := set_node_name (Some (lit "10.0.0.5")) nd_con in
  my_ip (lit "me") s = lit "10.0.0.5" ∧
  ∃ s1, @orcm_util_construct_uri two_nodes (lit "me") (set_node_name (Some (lit "head")) nd_con) s = Some s1 ∧
    @check_me two_nodes PREFIX (lit "me") node s1 = Some s1 ∧ found_me s1 = false.
Proof.
  cbv zeta. split; [reflexivity|].
  apply (@own_address_lost two_nodes PREFIX (lit "me") (set_node_name (Some (lit "head")) nd_con) (lit "head") (lit "10.0.0.9")
    (set_node_name (Some (lit "10.0.0.5")) nd_con) (@start two_nodes (lit "me") 0 2 [] [])); try reflexivity; vm_compute; discriminate.
Defined.

(** ** Routes of the small cluster, and of one with a cluster controller *)

Definition defined_by (c : orcm_cluster_t) : option opal_buffer_t :=
  '(_, b, _) ← name_system PREFIX (lit "n1") (mk_system [c] [small_sched]) (start (lit "n1") 0 66 [] []); Some b.

Lemma defined_by_def c b : ready_cluster c → 1 + cluster_count c < 2 ^ 32 → defined_by c = Some b → bytes_used b ≤ INT_MAX →
  cluster_def (the_layout c) (received_buffer b).
Proof.
  unfold defined_by. intros Hc Hn. destruct (name_system _ _ _ _) as [[[sys' b'] s']|] eqn:E; [|done].
  cbn [mbind option_bind]. intros [= <-] Hb. destruct (start_walking (lit "n1") 0 66 [] []) as [Hw H0].
  eapply name_system_def; [|done..]. split; (constructor; [|constructor]); [|done]. by eexists.
Qed.

Definition small_buf : opal_buffer_t := Eval vm_compute in default (mk_buf false [] 0 0) (defined_by small_cluster).

(** The same system with a cluster controller. *)
Definition led_cluster : orcm_cluster_t :=
  mk_cluster (cluster_name small_cluster) (set_state ORTE_NODE_STATE_UNKNOWN (set_node_name (Some (lit "cc")) nd_con))
    (rows small_cluster).
Definition led_buf : opal_buffer_t := Eval vm_compute in default (mk_buf false [] 0 0) (defined_by led_cluster).

Lemma small_rows_ready : Forall ready_row (rows small_cluster).
Proof.
  constructor; [|constructor]. split; [|constructor; [|constructor]]; (split; [done|]); intros _ _; by eexists.
Qed.

Lemma in_layout c v : 0 ≤ v < 1 + cluster_count c → v ∈ vpids (the_layout c).
Proof. intros Hv. rewrite the_layout_seq. apply elem_of_seqZ. lia. Qed.

Lemma routes_follow_tree_witness : ∃ p',
  RoutedOrcm.init_routes 0 (Some (received_buffer small_buf)) (small_begin 5 2 192) = Some (p', OPAL_SUCCESS) ∧
  RoutedOrcm.my_parent p' = mk_name 0 1 ∧ RoutedOrcm.get_route p' (mk_name 0 4) = Some (mk_name 0 4) ∧
  RoutedOrcm.get_route p' (mk_name 0 0) = Some (mk_name 0 1).
Proof.
  destruct (routes_follow_tree 2 (the_layout small_cluster) (received_buffer small_buf) (small_begin 5 2 192) (Some 1)
    (Tree 2 [leaf 3; leaf 4])) as (p' & E & Hkids & Hup & Hr).
  - by split_and!.
  - apply defined_by_def; [split; [by split|apply small_rows_ready]|reflexivity|vm_compute; reflexivity|vm_compute; discriminate].
  - rewrite the_layout_seq. apply NoDup_seqZ.
  - rewrite the_layout_seq. apply Forall_seqZ. intros v Hv. change (1 + cluster_count small_cluster) with 5 in Hv. unfold small. lia.
  - assert (tree_of (the_layout small_cluster) = Tree 0 [Tree 1 [Tree 2 [leaf 3; leaf 4]]]) as -> by (vm_compute; reflexivity).
    exact (sits_kid (Tree 0 [Tree 1 [Tree 2 [leaf 3; leaf 4]]]) (Tree 1 [Tree 2 [leaf 3; leaf 4]]) (Some 1) _ ltac:(by left)
      (sits_kid (Tree 1 [Tree 2 [leaf 3; leaf 4]]) (Tree 2 [leaf 3; leaf 4]) None _ ltac:(by left) (sits_root _))).
  - reflexivity.
  - by vm_compute.
  - specialize (Hr (conj eq_refl (λ H, False_ind _ (diff_false_true H)))).
    exists p'. destruct (Hup 1 eq_refl) as [Hp _]. split_and!; [exact E|exact Hp|..].
    + rewrite (Hr 4); [reflexivity|apply in_layout; split; [discriminate|reflexivity]|discriminate].
    + rewrite (Hr 0); [rewrite Hp; reflexivity|apply in_layout; split; [discriminate|reflexivity]|discriminate].
Defined.

Lemma cluster_controller_lost_witness :
  RoutedOrcm.init_routes 0 (Some (received_buffer led_buf)) (small_begin 6 1 192) = Some (small_begin 6 1 192, OPAL_SUCCESS) ∧
  RoutedOrcm.get_route (small_begin 6 1 192) (mk_name 0 2) = Some (mk_name 0 ORTE_VPID_INVALID).
Proof.
  destruct (cluster_controller_lost 1 (the_layout led_cluster) (received_buffer led_buf) (small_begin 6 1 192)) as [H1 H2].
  - by split_and!.
  - apply defined_by_def; [split; [split; [done|intros _ _; by eexists]|apply small_rows_ready]|reflexivity|vm_compute; reflexivity|vm_compute; discriminate].
  - rewrite the_layout_seq. apply NoDup_seqZ.
  - rewrite the_layout_seq. apply Forall_seqZ. intros v Hv. change (1 + cluster_count led_cluster) with 6 in Hv. unfold small. lia.
  - reflexivity.
  - reflexivity.
  - split; [exact H1|]. apply (H2 2); [apply in_layout; split; [discriminate|reflexivity]|discriminate].
Defined.

End SystemCases.
