(* ===== verification/XmlCases.v ===== *)
(** * Configuration files: examples and limits

    A file that is read as the configuration of the small cluster of SystemCases, the
    overrun of the block for parameters, and files on which the code has no defined
    behaviour or does not check what it means to. *)

From Stdlib Require Import ZArith Lia Ascii.
From stdpp Require Import prelude numbers strings gmap list.
From S2P Require Import Prelude CString Argv CfgiFile30 XmlLex XmlDoc XmlItems XmlStruct XmlRows XmlParse XmlSame XmlSpec XmlRead.
From S2P Require Import SystemCases.

Local Open Scope Z_scope.

Module XmlCases.
Import Argv CfgiFile30 XmlLex XmlDoc XmlItems XmlStruct XmlRows XmlParse XmlSame XmlObjects XmlSpec XmlRead.

(** ** The small cluster *)

Definition field (t d : string) : content := Field (lit t) (lit d).
Definition junction (type name : string) (l : list content) : content := Sect (lit "junction") (field "type" type :: field "name" name :: l).
Definition controller (host : string) : content := Sect (lit "controller") [field "host" host; field "aggregator" "y"].

(** Sections in the reverse of the order in which they are to be numbered. *)
Definition small_document : list content :=
  [field "version" "3.1"; field "role" "RECORD";
   junction "cluster" "one"
     [junction "row" "A"
        [junction "rack" "r" [junction "node" "n2" []; junction "node" "n1" []; controller "rackA"]; controller "rowA"]];
   Sect (lit "scheduler") [field "shost" "head"]].

Lemma small_document_accepted : accepted small_document = true.
Proof. vm_compute. reflexivity. Qed.

Lemma small_document_config : [config_xml small_document] = SystemCases.small_cfg.
Proof. vm_compute. reflexivity. Qed.

(** The file, as it is rendered. *)
Definition small_text : list ascii := render (Sect configuration small_document).

Lemma read_config_document_witness : read_config (Some small_text) = ret SystemCases.small_cfg.
Proof.
  rewrite <-small_document_config.
  apply (read_config_document small_document small_document_accepted small_text).
  apply render_file; [vm_compute; reflexivity|]. vm_compute. lia.
Defined.

Lemma lex_document_witness :
  (let* its := lex_xml (Some small_text) in ret (c_text <$> its)) = ret (items (Sect configuration small_document) ++ []).
Proof. apply (lex_document [Sect configuration small_document] small_text). apply render_file; [vm_compute; reflexivity|]. vm_compute. lia. Defined.

Lemma lex_in_place_witness : ∃ l, texts_of small_text = ret l ∧ (let* items := lex_xml (Some small_text) in ret (c_text <$> items)) = ret l.
Proof.
  assert (∃ l, texts_of small_text = ret l) as [l Hl] by (vm_compute; eexists; reflexivity).
  exists l. split; [exact Hl|]. apply (lex_in_place small_text (inr l)); [vm_compute; lia|exact Hl].
Defined.

Lemma structure_document_witness :
  structure_lexed_items 0 (length (items (Sect configuration small_document))) (items (Sect configuration small_document)) =
  ret (rows (Sect configuration small_document) 0 0).
Proof. apply structure_document. vm_compute. reflexivity. Defined.

Lemma structure_typed_witness :
  Forall (λ row, ∃ s l, row = Z.of_nat s :: l ∧ XmlTyped.kind_at (items (controller "h")) s Start ∧
    Forall (XmlTyped.entry_ok (items (controller "h")) 1) l) [[0; 1; 4]].
Proof. apply (XmlTyped.structure_typed 0 8 (items (controller "h")) [[0; 1; 4]]). vm_compute. reflexivity. Defined.

(** The same configuration as it would be typed. *)
Definition typed_text : list ascii := lit
"<?xml version='1.0'?>
<configuration>
  <version>3.1</version> <role> RECORD </role>
  <junction>
    <type>cluster</type> <name>one</name>
    <junction>
      <type>row</type><name>A</name>
      <junction>
        <type>rack</type><name>r</name>
        <junction><type>node</type><name>n2</name></junction>
        <junction><type>node</type><name>n1</name></junction>
        <controller><host>rackA</host><aggregator>y</aggregator></controller>
      </junction>
      <controller><host>rowA</host><aggregator>y</aggregator></controller>
    </junction>
  </junction>
  <!-- the scheduler --> <scheduler><shost>head</shost></scheduler>
</configuration>
".

Example typed_text_read : read_config (Some typed_text) = ret SystemCases.small_cfg.
Proof. vm_compute. reflexivity. Qed.

Example typed_text_version : file30_init (Some (Some typed_text)) = Some ORCM_SUCCESS.
Proof. vm_compute. reflexivity. Qed.

(** ** The block for parameters *)

Lemma mca_text_overrun texts size b o m txt : at_offset texts o (items_of_list b) → clean b → forallb is_field b = true →
  datas "mca-params" b ≠ [] → (length txt + sum_list_with (λ d, S (length d)) (datas "mca-params" b) = size)%nat →
  mca_text texts size (over field_offs b o m) txt = None.
Proof.
  revert o m txt. induction b as [|c b IH]; intros o m txt Hat Hcl Hf Hn Hs; [done|]. cbn [flat_map] in Hat.
  apply at_app in Hat as [Hc Hb]. apply clean_cons in Hcl as [Hcc Hcb]. cbn [forallb] in Hf. apply andb_true_iff in Hf as [Hf1 Hf2].
  rewrite over_cons. destruct c as [t d|]; [|done]. cbn [field_offs app mca_text].
  destruct (at_field texts o t d Hc) as [Ht Hd]; [by apply clean_field in Hcc as [_ ?]|].
  rewrite offs_nonneg, Ht, bind_ret. unfold datas, chosen in Hs, Hn, IH. cbn [flat_map] in Hs, Hn.
  destruct (named t "mca-params"); [|by apply IH]. cbn [app sum_list_with] in Hs. rewrite Hd, bind_ret.
  destruct (bool_decide_reflect (length txt + length d + 2 ≤ size)%nat) as [Hle|Hle]; [|done].
  match type of Hs with context [sum_list_with _ ?l] => assert (l ≠ []) as Hne by (intros E; rewrite E in Hs; cbn in Hs; lia) end.
  rewrite bool_decide_false.
  - apply IH; [done|done|done|done|]. rewrite !length_app. cbn. lia.
  - destruct b as [|[|] b]; [done|by rewrite over_cons|done].
Qed.

(** The text of the parameters of a controller or a scheduler is a byte longer than the
    block allocated for it: any section with a parameter makes the code write past its
    end. *)
Theorem mca_params_overrun texts b o m x h : at_offset texts o (items_of_list b) → clean b → forallb is_field b = true →
  datas "mca-params" b ≠ [] → transfer_mca texts (over field_offs b o m) x h = None.
Proof.
  intros Hat Hcl Hf Hn. unfold transfer_mca. rewrite mca_length_spec, bind_ret by done.
  destruct (datas "mca-params" b) as [|d ds] eqn:Ed; [done|]. rewrite bool_decide_false by (cbn; lia).
  rewrite mca_text_overrun by (rewrite ?Ed; done). done.
Qed.

Lemma mca_params_overrun_witness :
  transfer_mca (items_of_list [field "mca-params" "a=1"]) (over field_offs [field "mca-params" "a=1"] 0 0) 0 [] = None.
Proof.
  apply mca_params_overrun; [by exists [], []|vm_compute; repeat constructor; discriminate|reflexivity|discriminate].
Defined.

(** ** Checks that do not check *)

(** Whatever the names of the children are, they are accepted. *)
Theorem children_never_compared items c o i : check_parent_has_uniquely_named_children items (rows c o i) = ret ().
Proof. unfold check_parent_has_uniquely_named_children. by rewrite parents_pass by apply rows_nonneg. Qed.

(** Closing tags are counted and not compared: here one comes before the section it would
    close, the checks on the items pass, and the search for the open section runs below
    the array. *)
Definition crossed_text : list ascii := lit
"<configuration><role>RECORD</role><type>node</type></junction><junction></configuration>".

Example crossed_sections : lex_xml (Some crossed_text) ≠ None ∧
  (let* its := lex_xml (Some crossed_text) in opt (check_validity_of_the_inputs (remove_empty_items its))) = ret ORCM_SUCCESS ∧
  read_config (Some crossed_text) = None.
Proof. vm_compute. split_and!; [discriminate|reflexivity|reflexivity]. Qed.

(** A value of [aggregator] that is neither yes nor no is found and accepted. *)
Definition odd_aggregator : list content :=
  [field "role" "RECORD"; junction "node" "n" []; Sect (lit "controller") [field "host" "h"; field "aggregator" "perhaps"]].

Example aggregator_unchecked :
  check_aggregator (items (Sect configuration odd_aggregator)) = Some ORCM_ERR_BAD_PARAM ∧
  check_validity_of_the_inputs (items (Sect configuration odd_aggregator)) = Some ORCM_SUCCESS.
Proof. vm_compute. split; reflexivity. Qed.

(** Data before the first tag overwrites what is still to be read. *)
Definition early_data : list ascii := lit "x<configuration><role>RECORD</role></configuration>".

Example early_data_lost : texts_of early_data = None ∧ lex_xml (Some early_data) = fail ORCM_ERR_BAD_PARAM.
Proof. vm_compute. split; reflexivity. Qed.

End XmlCases.
