(* ===== verification/RadixTree.v ===== *)
(** * Radix trees, abstractly

    Level [L] of a tree of radix [r] holds [r ^ L] ranks, numbered from [start r L] on.  The
    children of a rank [v] of level [L] are [v + r ^ L], [v + 2 * r ^ L], up to
    [v + r * r ^ L].  Every rank but 0 has one parent, and 0 is above all others. *)

From Stdlib Require Import ZArith Lia.
From stdpp Require Import prelude numbers gmap list.
From S2P Require Import Prelude.

Local Open Scope Z_scope.

Module RadixTree.

Definition width (r : Z) (L : nat) : Z := r ^ Z.of_nat L.

Fixpoint start (r : Z) (L : nat) : Z :=
  match L with
  | O => 0
  | S L => start r L + width r L
  end.

Definition at_level (r : Z) (L : nat) (v : Z) : Prop := start r L ≤ v < start r (S L).

Definition child_of (r v c : Z) : Prop := ∃ L q, at_level r L v ∧ 0 ≤ q < r ∧ c = v + (q + 1) * width r L.

Section tree.
Context (r : Z) (Hr : 1 ≤ r).

Lemma width_S L : width r (S L) = r * width r L.
Proof using. clear. unfold width. rewrite Nat2Z.inj_succ, Z.pow_succ_r by lia. done. Qed.
Lemma width_pos L : 1 ≤ width r L.
Proof using Hr. unfold width. assert (0 < r ^ Z.of_nat L) by (apply Z.pow_pos_nonneg; lia). lia. Qed.

Lemma start_mono L L' : (L ≤ L')%nat → start r L ≤ start r L'.
Proof using Hr. induction 1; [lia|]. cbn. pose proof (width_pos m). lia. Qed.
Lemma start_nonneg L : Z.of_nat L ≤ start r L.
Proof using Hr. induction L as [|L IH]; cbn [start]; [lia|]. pose proof (width_pos L). lia. Qed.

(** [start] counts the levels above, each [r] times the one before. *)
Lemma start_S L : start r (S L) = 1 + r * start r L.
Proof using.
  clear. induction L as [|L IH]; [cbn; unfold width; cbn; lia|]. change (start r (S (S L))) with (start r (S L) + width r (S L)).
  rewrite IH, width_S. cbn [start] in *. nia.
Qed.

Lemma level_unique L L' v : at_level r L v → at_level r L' v → L = L'.
Proof using Hr.
  unfold at_level. intros H H'. destruct (Nat.lt_trichotomy L L') as [Hlt|[->|Hlt]]; [|done|].
  - pose proof (start_mono (S L) L' ltac:(lia)). lia.
  - pose proof (start_mono (S L') L ltac:(lia)). lia.
Qed.

Lemma level_exists v : 0 ≤ v → ∃ L, at_level r L v ∧ Z.of_nat L ≤ v.
Proof using Hr.
  intros Hv. cut (∀ n, v < start r n → ∃ L, at_level r L v).
  - intros Hn. destruct (Hn (S (Z.to_nat v))) as [L HL].
    + pose proof (start_nonneg (S (Z.to_nat v))). lia.
    + exists L. split; [done|]. pose proof (start_nonneg L). unfold at_level in HL. lia.
  - induction n as [|n IH]; [cbn; lia|]. intros Hlt. destruct (Z.ltb_spec v (start r n)); [by apply IH|]. exists n. split; lia.
Qed.

(** The width of a level is bounded by the ranks before it. *)
Lemma width_bound L v : at_level r L v → width r L ≤ 1 + r * v.
Proof using Hr.
  intros [Hs _]. destruct L as [|L]; [cbn; unfold width; cbn; pose proof (start_nonneg 0); cbn in *; nia|].
  rewrite width_S. cbn in Hs. pose proof (start_nonneg L). pose proof (width_pos L). nia.
Qed.

Lemma child_level L v c : at_level r L v → child_of r v c → at_level r (S L) c ∧ v < c.
Proof using Hr.
  intros HL (L' & q & HL' & Hq & ->). rewrite (level_unique _ _ _ HL' HL) in *. pose proof (width_pos L). unfold at_level in *. cbn [start] in *.
  rewrite width_S in *. nia.
Qed.

Lemma child_lt v c : child_of r v c → v < c.
Proof using Hr. intros Hc. pose proof Hc as (L & q & HL & _). by apply (child_level L). Qed.

Lemma child_nonneg v c : child_of r v c → 0 ≤ v.
Proof using Hr. intros (L & q & [HL _] & _). pose proof (start_nonneg L). lia. Qed.

(** The parent of a rank, as the code computes it. *)
Lemma parent_rank L c : at_level r (S L) c →
  child_of r ((c - start r (S L)) mod width r L + start r L) c.
Proof using Hr.
  intros Hc. pose proof (width_pos L) as Hw. unfold at_level in *. change (start r (S (S L))) with (start r (S L) + width r (S L)) in Hc.
  rewrite width_S in Hc. set (j := c - start r (S L)) in *.
  pose proof (Z.div_mod j (width r L) ltac:(lia)). pose proof (Z.mod_pos_bound j (width r L) ltac:(lia)).
  exists L, (j / width r L). split_and!.
  - split; cbn [start]; lia.
  - apply Z.div_pos; lia.
  - apply Z.div_lt_upper_bound; lia.
  - cbn [start] in *. nia.
Qed.

Lemma parent_exists c : 0 < c → ∃ v, child_of r v c.
Proof using Hr.
  intros Hc. destruct (level_exists c ltac:(lia)) as (L & HL & _). destruct L as [|L].
  - unfold at_level in HL. cbn in HL. unfold width in HL. cbn in HL. lia.
  - eexists. by apply (parent_rank L).
Qed.

Lemma parent_unique v v' c : child_of r v c → child_of r v' c → v = v'.
Proof using Hr.
  intros Hv Hv'. pose proof Hv as (L & q & HL & Hq & E). pose proof Hv' as (L' & q' & HL' & Hq' & E').
  destruct (child_level L v c HL Hv) as [Hc _]. destruct (child_level L' v' c HL' Hv') as [Hc' _].
  pose proof (level_unique _ _ _ Hc Hc') as [= <-]. pose proof (width_pos L). unfold at_level in *. cbn [start] in *.
  assert (q = q') by nia. subst. lia.
Qed.

(** ** Ranks above and below *)

Lemma rtc_nonneg v x : rtc (child_of r) v x → 0 ≤ v → v ≤ x.
Proof using Hr. induction 1 as [|? c ? Hc _ IH]; [lia|]. pose proof (child_lt _ _ Hc). lia. Qed.

Lemma rtc_level L v x : rtc (child_of r) v x → at_level r L v → ∃ k, at_level r (L + k) x.
Proof using Hr.
  intros Hx. revert L. induction Hx as [v|v c x Hc _ IH]; intros L HL; [exists O; by rewrite Nat.add_0_r|].
  destruct (child_level L v c HL Hc) as [Hl _]. destruct (IH _ Hl) as [k Hk]. exists (S k). by rewrite Nat.add_succ_r.
Qed.

Lemma root_above x : 0 ≤ x → rtc (child_of r) 0 x.
Proof using Hr.
  intros Hx. induction (Z.lt_wf 0 x) as [x _ IH]. destruct (decide (x = 0)) as [->|Hne]; [done|].
  destruct (parent_exists x ltac:(lia)) as [v Hv]. pose proof (child_lt _ _ Hv). pose proof (child_nonneg _ _ Hv).
  eapply rtc_r; [apply IH|done]; lia.
Qed.

Lemma same_level L v x : at_level r L v → at_level r L x → rtc (child_of r) v x → v = x.
Proof using Hr.
  intros Hv Hx Hrtc. destruct Hrtc as [|v c x Hc Hcx]; [done|]. destruct (child_level L v c Hv Hc) as [Hl _].
  destruct (rtc_level _ _ _ Hcx Hl) as [k Hk]. pose proof (level_unique _ _ _ Hx Hk). lia.
Qed.

(** Two ranks of one level above the same rank are the same. *)
Lemma above_unique L v v' x : at_level r L v → at_level r L v' → rtc (child_of r) v x → rtc (child_of r) v' x → v = v'.
Proof using Hr.
  intros HL HL' Hv. revert x Hv. refine (rtc_ind_r _ v _ _); [intros Hv'|intros p x Hvp Hpx IH Hv'].
  - symmetry. by eapply same_level.
  - apply rtc_inv_r in Hv' as [<-|(p' & Hv'p & Hp'x)].
    + eapply same_level; [done..|]. by eapply rtc_r.
    + apply IH. by rewrite (parent_unique p p' x Hpx Hp'x).
Qed.

Lemma below_split v x : tc (child_of r) v x ↔ ∃ c, child_of r v c ∧ rtc (child_of r) c x.
Proof using.
  clear. split.
  - intros Ht. destruct Ht as [v x Hc|v c x Hc Ht]; [by exists x|]. exists c. split; [done|by apply tc_rtc].
  - intros (c & Hc & Hx). eapply tc_rtc_r; [by apply tc_once|done].
Qed.

End tree.
End RadixTree.
