(* ===== verification/RadixSpec.v ===== *)
(** * What the routing plan of a daemon is

    The loops of [radix_tree] and [update_routing_plan] compute the parent, the children and
    the ranks below each child in the tree of [RadixTree], without overflow for any
    number of daemons that leaves room for the arithmetic. *)

From Stdlib Require Import ZArith Lia Ascii.
From stdpp Require Import prelude numbers strings gmap list sorting.
From S2P Require Import Prelude PointerArray CString Dss Names Bitmap RadixTree Routed.

Local Open Scope Z_scope.

Module RadixSpec.
Import Dss Names BM BitmapSpec RadixTree Routed.

(** The daemons are few enough for [int] arithmetic on the levels of the tree. *)
Record fits (e : env_t) : Prop := {
  fit_radix : 1 ≤ radix e;
  fit_procs : 1 ≤ num_procs e;
  fit_int : num_procs e * (radix e + 1) ^ 2 ≤ INT_MAX;
}.

Section plan.
Context (e : env_t) (Hfit : fits e).
Notation r := (radix e).
Notation P := (num_procs e).

Lemma fit_bounds : 1 ≤ r ∧ 1 ≤ P ∧ P + r * P + r * P + r * (r * P) ≤ INT_MAX ∧ P ≤ 2 ^ 29 ∧ swrap 32 P = P.
Proof using Hfit.
  destruct Hfit as [H1 H2 H3]. assert (4 ≤ (r + 1) ^ 2) by nia. assert (4 * P ≤ INT_MAX) by nia. unfold INT_MAX in *.
  split_and!; [done|done|nia|lia|]. unfold swrap. rewrite Z.mod_small by lia. zbool; lia.
Qed.

Lemma fit_radix_int : r ≤ INT_MAX.
Proof using Hfit. pose proof fit_bounds as (Hr & HP & Hint & _). assert (r ≤ r * P) by nia. assert (0 ≤ r * (r * P)) by nia. lia. Qed.

(** Products below these bounds. *)
Lemma fit_mul v : 0 ≤ v < P → P ≤ r * P ≤ r * (r * P) ∧ v ≤ r * v ≤ r * P ∧ r * v ≤ r * (r * v) ≤ r * (r * P).
Proof using Hfit. intros Hv. destruct Hfit as [H1 H2 _]. assert (r * v ≤ r * P) by nia. assert (v ≤ r * v) by nia. assert (P ≤ r * P) by nia. nia. Qed.

(** ** Levels *)

Lemma level_nonneg L v : at_level r L v → 0 ≤ v.
Proof using Hfit. intros [Hs _]. pose proof (start_nonneg r (fit_radix _ Hfit) L). lia. Qed.

(** No intermediate value of the loop overflows. *)
Lemma level_room L v j : at_level r L v → v < P → (j ≤ L)%nat →
  0 ≤ v ∧ v + 1 ≤ INT_MAX ∧ 0 ≤ width r j ≤ INT_MAX ∧ 0 ≤ start r (S j) ≤ INT_MAX.
Proof using Hfit.
  intros HL Hv Hj. pose proof fit_bounds as (Hr & HP & Hint & _). pose proof (width_bound r Hr L v HL) as Hw.
  pose proof (level_nonneg L v HL) as Hv0. pose proof (fit_mul v ltac:(lia)) as (H1 & H2 & _).
  pose proof (start_mono r Hr (S j) (S L) ltac:(lia)) as Hs. pose proof (start_nonneg r Hr j). pose proof (width_pos r Hr j).
  unfold at_level in HL. cbn [start] in *. lia.
Qed.

Lemma level_loop_run L v : at_level r L v → v < P → ∀ fuel j, (j ≤ L)%nat → (L - j < fuel)%nat →
  level_loop fuel r v (start r (S j)) (width r j) = Some (start r (S L), width r L).
Proof using Hfit.
  intros HL Hv. pose proof (fit_radix _ Hfit) as Hr. induction fuel as [|fuel IH]; intros j Hj Hf; [lia|]. cbn [level_loop].
  destruct (level_room L v j HL Hv Hj) as (H0 & H1 & _ & _). rewrite (ck_int_Some (v + 1)) by (unfold INT_MIN; lia). cbn [mbind option_bind].
  destruct (Z.ltb_spec (start r (S j)) (v + 1)).
  - assert (j < L)%nat as Hlt.
    { destruct (decide (j = L)) as [->|]; [|lia]. unfold at_level in HL. lia. }
    destruct (level_room L v (S j) HL Hv Hlt) as (_ & _ & Hw & Hs).
    rewrite (Z.mul_comm (width r j)), <-width_S. rewrite ck_int_Some by (unfold INT_MIN; lia). cbn [mbind option_bind].
    change (start r (S j) + width r (S j)) with (start r (S (S j))). rewrite ck_int_Some by (unfold INT_MIN; lia). cbn [mbind option_bind].
    apply (IH (S j)); lia.
  - assert (j = L) as ->; [|done]. apply (level_unique r Hr _ _ v); [|done]. split; [|lia].
    pose proof (start_mono r Hr j L Hj). unfold at_level in HL. lia.
Qed.

Lemma levels_run v : 0 ≤ v < P → ∃ L, at_level r L v ∧ level_loop (level_rounds v) r v 1 1 = Some (start r (S L), width r L).
Proof using Hfit.
  intros Hv. pose proof fit_bounds as (Hr & _). destruct (level_exists r Hr v ltac:(lia)) as (L & HL & Hb). exists L. split; [done|].
  apply (level_loop_run L v HL ltac:(lia) _ 0); unfold level_rounds; lia.
Qed.

(** The ranks the loop over the children reaches. *)
Lemma peer_room L v q : at_level r L v → v < P → 0 ≤ q ≤ r → 0 ≤ v + (q + 1) * width r L ≤ INT_MAX.
Proof using Hfit.
  intros HL Hv Hq. pose proof fit_bounds as (Hr & HP & Hint & _). pose proof (width_bound r Hr L v HL) as Hw.
  pose proof (level_nonneg L v HL) as Hv0. pose proof (fit_mul v ltac:(lia)) as (H1 & H2 & H3).
  pose proof (width_pos r Hr L). assert ((q + 1) * width r L ≤ (r + 1) * (1 + r * v)) by (apply Z.mul_le_mono_nonneg; lia).
  assert ((r + 1) * (1 + r * v) = r + 1 + r * (r * v) + r * v) by ring. assert (r ≤ r * P) by nia.
  assert (r * (r * v) + r * r ≤ r * (r * P)) by nia. assert (r ≤ r * r) by nia. nia.
Qed.

(** ** The ranks below a rank *)

Notation above := (rtc (child_of r)).
Notation below_of v x := (tc (child_of r) v x).

(** A bitmap that holds the ranks of [S], with room for all. *)
Definition holds_ranks (bm : opal_bitmap_t) (Q : Z → Prop) : Prop :=
  ∃ S, stands bm S ∧ max_size bm = INT_MAX ∧ ∀ x, x ∈ S ↔ Q x.

(** What a call with a bitmap does. *)
Definition rec_ok (rec : Z → opal_bitmap_t → option opal_bitmap_t) (low : Z) : Prop :=
  ∀ v bm Q, low < v < P → holds_ranks bm Q →
    ∃ bm', rec v bm = Some bm' ∧ holds_ranks bm' (λ x, Q x ∨ (x < P ∧ below_of v x)).

Lemma holds_ranks_ext bm Q Q' : (∀ x, Q x ↔ Q' x) → holds_ranks bm Q → holds_ranks bm Q'.
Proof using. clear. intros E (S & HS & Hm & HQ). exists S. split_and!; [done|done|]. intros x. by rewrite HQ. Qed.

(** A child of [v], a rank of level [L]. *)
Definition peer (L : nat) (v q : Z) : Z := v + (q + 1) * width r L.

Lemma peer_child L v q : at_level r L v → 0 ≤ q < r → child_of r v (peer L v q).
Proof using. clear. intros HL Hq. by exists L, q. Qed.

Lemma peer_next L v q : peer L v q + width r L = peer L v (q + 1).
Proof using. clear. unfold peer. lia. Qed.

(** The loop that records the ranks below [v] in a bitmap, from the child [q] on. *)
Lemma relatives_loop L v rec n : at_level r L v → v < P → rec_ok rec v →
  ∀ q bm Q, 0 ≤ q → q + Z.of_nat n = r → holds_ranks bm Q →
  ∃ bm', peer_loop e rec n (peer L v q) (width r L) (in_relatives bm) = Some (in_relatives bm') ∧
    holds_ranks bm' (λ x, Q x ∨ (x < P ∧ ∃ q', q ≤ q' < r ∧ above (peer L v q') x)).
Proof using Hfit.
  intros HL Hv Hrec. pose proof fit_bounds as (Hr & HP & _ & HP2 & Hsw). pose proof (width_pos r Hr L) as Hw.
  induction n as [|n IH]; intros q bm Q Hq Hn Hbm; cbn [peer_loop].
  { exists bm. split; [done|]. eapply holds_ranks_ext; [|done]. intros x. split; [tauto|]. intros [|(_ & q' & ? & _)]; [done|lia]. }
  rewrite Hsw. pose proof (peer_room L v q HL Hv ltac:(lia)) as Hroom. pose proof (peer_room L v (q + 1) HL Hv ltac:(lia)) as Hroom'.
  fold (peer L v q) in Hroom. fold (peer L v (q + 1)) in Hroom'. pose proof (child_lt r Hr v _ (peer_child L v q HL ltac:(lia))) as Hlt.
  assert (∀ x, (∃ q', q ≤ q' < r ∧ above (peer L v q') x) ↔ above (peer L v q) x ∨ ∃ q', q + 1 ≤ q' < r ∧ above (peer L v q') x) as Hsplit.
  { intros x. split.
    - intros (q' & ? & Hx). destruct (decide (q' = q)) as [->|]; [by left|right]. exists q'. split; [lia|done].
    - intros [Hx|(q' & ? & Hx)]; [exists q|exists q']; (split; [lia|done]). }
  destruct (Z.ltb_spec (peer L v q) P).
  - destruct Hbm as (S & HS & Hmax & HQ).
    destruct (set_bit_run bm S (peer L v q) HS) as (bm1 & -> & HS1 & Hmax1); [lia|rewrite Hmax; lia|]. cbn [mbind option_bind].
    destruct (Hrec (peer L v q) bm1 (λ x, x = peer L v q ∨ Q x)) as (bm2 & -> & Hbm2); [lia| |].
    { exists ({[peer L v q]} ∪ S). split_and!; [done|by rewrite Hmax1|]. intros x. rewrite elem_of_union, elem_of_singleton, HQ. done. }
    cbn [mbind option_bind]. rewrite ck_int_Some by (rewrite peer_next; unfold INT_MIN; lia). cbn [mbind option_bind]. rewrite peer_next.
    destruct (IH (q + 1) bm2 _ ltac:(lia) ltac:(lia) Hbm2) as (bm' & -> & Hbm'). exists bm'. split; [done|].
    eapply holds_ranks_ext; [|done]. intros x. cbn beta. rewrite Hsplit, rtc_tc.
    assert (x = peer L v q ↔ peer L v q = x) as -> by (by split). assert (peer L v q = x → x < P) by (by intros <-). tauto.
  - cbn [mbind option_bind]. rewrite ck_int_Some by (rewrite peer_next; unfold INT_MIN; lia). cbn [mbind option_bind]. rewrite peer_next.
    destruct (IH (q + 1) bm Q ltac:(lia) ltac:(lia) Hbm) as (bm' & -> & Hbm'). exists bm'. split; [done|].
    eapply holds_ranks_ext; [|done]. intros x. cbn beta. rewrite Hsplit. split; [tauto|]. intros [|[Hx [Ha|]]]; [tauto| |tauto].
    pose proof (rtc_nonneg r Hr _ _ Ha). lia.
Qed.

(** The children of a rank are the ranks the loop visits. *)
Lemma below_peers L v x : at_level r L v → below_of v x ↔ ∃ q, 0 ≤ q < r ∧ above (peer L v q) x.
Proof using Hfit.
  intros HL. rewrite below_split. split.
  - intros (c & (L' & q & HL' & Hq & ->) & Hx). rewrite (level_unique r (fit_radix _ Hfit) _ _ _ HL HL') in *. by exists q.
  - intros (q & Hq & Hx). exists (peer L v q). split; [by apply peer_child|done].
Qed.

Lemma radix_tree_relatives fuel : ∀ v bm Q, 0 ≤ v < P → (Z.to_nat (P - v) ≤ fuel)%nat → holds_ranks bm Q →
  ∃ bm', radix_tree fuel e v (in_relatives bm) = Some (in_relatives bm') ∧ holds_ranks bm' (λ x, Q x ∨ (x < P ∧ below_of v x)).
Proof using Hfit.
  pose proof fit_bounds as (Hr & HP & _). induction fuel as [|fuel IH]; intros v bm Q Hv Hf Hbm; [lia|]. cbn [radix_tree].
  destruct (levels_run v Hv) as (L & HL & ->). cbn [mbind option_bind].
  pose proof (peer_room L v 0 HL ltac:(lia) ltac:(lia)) as Hroom.
  replace (v + width r L) with (peer L v 0) by (unfold peer; lia). rewrite ck_int_Some by (unfold peer, INT_MIN in *; lia). cbn [mbind option_bind].
  destruct (relatives_loop L v (λ peer bm, out ← radix_tree fuel e peer (in_relatives bm);
                            match out with in_relatives bm => Some bm | in_children _ _ => None end) (Z.to_nat r)
    HL ltac:(lia)) with (q := 0) (bm := bm) (Q := Q) as (bm' & -> & Hbm'); [|lia|lia|done|].
  { intros w bm1 Q1 Hw Hbm1. destruct (IH w bm1 Q1) as (bm2 & -> & Hbm2); [lia|lia|done|]. by exists bm2. }
  exists bm'. split; [done|]. eapply holds_ranks_ext; [|done]. intros x. cbn beta. by rewrite (below_peers L v x HL).
Qed.

(** ** The children *)

(** A child with the ranks below it. *)
Definition knows_below (t : orte_routed_tree_t) : Prop := holds_ranks (relatives t) (λ x, x < P ∧ below_of (tree_vpid t) x).

Lemma children_loop L v rec n : at_level r L v → v < P → rec_ok rec v →
  ∀ q k cs, 0 ≤ q → q + Z.of_nat n = r → 0 ≤ k ≤ q →
  ∃ new, peer_loop e rec n (peer L v q) (width r L) (in_children k cs) =
      Some (in_children (k + Z.of_nat (length new)) (cs ++ new)) ∧
    tree_vpid <$> new = filter (λ c, c < P) (peer L v <$> seqZ q (Z.of_nat n)) ∧ Forall knows_below new.
Proof using Hfit.
  intros HL Hv Hrec. pose proof fit_bounds as (Hr & HP & Hint & HP2 & Hsw).
  induction n as [|n IH]; intros q k cs Hq Hn Hk; cbn [peer_loop].
  { exists []. rewrite app_nil_r, Z.add_0_r. done. }
  rewrite Hsw. pose proof (peer_room L v q HL Hv ltac:(lia)) as Hroom. pose proof (peer_room L v (q + 1) HL Hv ltac:(lia)) as Hroom'.
  fold (peer L v q) in Hroom. fold (peer L v (q + 1)) in Hroom'. pose proof (child_lt r Hr v _ (peer_child L v q HL ltac:(lia))) as Hlt.
  rewrite seqZ_cons by lia. replace (Z.pred (Z.of_nat (S n))) with (Z.of_nat n) by lia. replace (Z.succ q) with (q + 1) by lia. rewrite fmap_cons.
  destruct (Z.ltb_spec (peer L v q) P).
  - destruct (bitmap_init_run [] opal_bitmap_construct P) as (bm0 & -> & HS0 & _ & Hm0); [done|done|cbn; unfold INT_MAX; lia|done|].
    cbn [mbind option_bind].
    destruct (Hrec (peer L v q) bm0 (λ _, False)) as (bm & -> & Hbm); [lia|by exists ∅|]. cbn [mbind option_bind].
    rewrite (ck_int_Some (k + 1)) by (pose proof fit_radix_int; unfold INT_MIN; lia). cbn [mbind option_bind].
    rewrite ck_int_Some by (rewrite peer_next; unfold INT_MIN; lia). cbn [mbind option_bind]. rewrite peer_next.
    destruct (IH (q + 1) (k + 1) (cs ++ [mk_tree (uwrap 32 (peer L v q)) bm])) as (new & -> & Hvp & Hkn); [lia..|].
    assert (uwrap 32 (peer L v q) = peer L v q) as -> by (unfold uwrap; apply Z.mod_small; lia).
    exists (mk_tree (peer L v q) bm :: new). rewrite <-app_assoc. cbn [length app]. rewrite filter_cons_True by done.
    split_and!; [do 2 f_equal; lia|cbn; by rewrite Hvp|]. constructor; [|done]. eapply holds_ranks_ext; [|done]. intros x. cbn. tauto.
  - cbn [mbind option_bind]. rewrite ck_int_Some by (rewrite peer_next; unfold INT_MIN; lia). cbn [mbind option_bind]. rewrite peer_next.
    destruct (IH (q + 1) k cs) as (new & -> & Hvp & Hkn); [lia..|]. exists new. rewrite filter_cons_False by lia. done.
Qed.

(** The plan of the daemon [v]: its parent, its children in ascending order, and the
    ranks below each of them. *)
Record planned (v : Z) (st : routed_t) : Prop := {
  pl_root : v = 0 → vpid (my_parent st) = ORTE_VPID_INVALID;
  pl_parent : v ≠ 0 → child_of r (vpid (my_parent st)) v;
  pl_children c : c ∈ tree_vpid <$> my_children st ↔ child_of r v c ∧ c < P;
  pl_sorted : StronglySorted Z.lt (tree_vpid <$> my_children st);
  pl_below : Forall knows_below (my_children st);
  pl_num : num_children st = Z.of_nat (length (my_children st));
}.

Lemma peers_sorted L v n : ∀ q, StronglySorted Z.lt (peer L v <$> seqZ q (Z.of_nat n)).
Proof using Hfit.
  pose proof (width_pos r (fit_radix _ Hfit) L). induction n as [|n IH]; intros q; [constructor|].
  rewrite seqZ_cons by lia. replace (Z.pred (Z.of_nat (S n))) with (Z.of_nat n) by lia. rewrite fmap_cons. constructor; [apply IH|].
  apply Forall_fmap, Forall_forall. intros q' Hq'%elem_of_seqZ. cbn. unfold peer. nia.
Qed.

Lemma StronglySorted_filter (Q : Z → Prop) `{!∀ x, Decision (Q x)} l : StronglySorted Z.lt l → StronglySorted Z.lt (filter Q l).
Proof using.
  clear. induction 1 as [|x l Hl IH Hx]; [constructor|]. rewrite filter_cons. case_decide; [|done].
  constructor; [done|]. apply Forall_forall. intros y [_ Hy]%list_elem_of_filter. by rewrite Forall_forall in Hx; apply Hx.
Qed.

Lemma radix_tree_children v : 0 ≤ v < P →
  ∃ cs, radix_tree (Z.to_nat P) e v (in_children 0 []) = Some (in_children (Z.of_nat (length cs)) cs) ∧
    (∀ c, c ∈ tree_vpid <$> cs ↔ child_of r v c ∧ c < P) ∧ StronglySorted Z.lt (tree_vpid <$> cs) ∧ Forall knows_below cs.
Proof using Hfit.
  intros Hv. pose proof fit_bounds as (Hr & HP & _). destruct (Z.to_nat P) as [|fuel] eqn:HPf; [lia|]. cbn [radix_tree].
  destruct (levels_run v Hv) as (L & HL & ->). cbn [mbind option_bind].
  pose proof (peer_room L v 0 HL ltac:(lia) ltac:(lia)) as Hroom.
  replace (v + width r L) with (peer L v 0) by (unfold peer; lia). rewrite ck_int_Some by (unfold peer, INT_MIN in *; lia). cbn [mbind option_bind].
  destruct (children_loop L v (λ peer bm, out ← radix_tree fuel e peer (in_relatives bm);
                            match out with in_relatives bm => Some bm | in_children _ _ => None end) (Z.to_nat r)
    HL ltac:(lia)) with (q := 0) (k := 0) (cs := @nil orte_routed_tree_t) as (cs & -> & Hvp & Hkn); [|lia..|].
  { intros w bm1 Q1 Hw Hbm1. destruct (radix_tree_relatives fuel w bm1 Q1) as (bm2 & -> & Hbm2); [lia|lia|done|]. by exists bm2. }
  exists cs. split_and!; [done| | |done].
  - intros c. rewrite Hvp, list_elem_of_filter, list_elem_of_fmap. split.
    + intros (Hc & q & -> & Hq%elem_of_seqZ). split; [apply peer_child; [done|lia]|done].
    + intros [(L' & q & HL' & Hq & ->) Hc]. rewrite (level_unique r Hr _ _ _ HL HL') in *. split; [done|]. exists q. split; [done|]. apply elem_of_seqZ. lia.
  - rewrite Hvp. apply StronglySorted_filter, peers_sorted.
Qed.

(** What [update_routing_plan] computes as the parent. *)
Lemma parent_run L v : at_level r (S L) v → v < P →
  Z.quot (width r (S L)) r = width r L ∧ width r L ≠ 0 ∧
  child_of r (uwrap 32 (uwrap 32 (Z.rem (v - (start r (S (S L)) - width r (S L))) (width r L)) +
                         (start r (S (S L)) - width r (S L) - width r L))) v.
Proof using Hfit.
  intros HL Hv. pose proof fit_bounds as (Hr & HP & Hint & HP2 & _). pose proof (width_pos r Hr L) as Hw.
  pose proof (parent_rank r Hr L v HL) as Hc. pose proof (child_lt r Hr _ _ Hc) as Hlt. pose proof (child_nonneg r Hr _ _ Hc) as H0.
  replace (start r (S (S L)) - width r (S L)) with (start r (S L)) by (cbn [start]; lia).
  replace (start r (S L) - width r L) with (start r L) by (cbn [start]; lia).
  assert (start r (S L) ≤ v) by (unfold at_level in HL; lia). pose proof (Z.mod_pos_bound (v - start r (S L)) (width r L) ltac:(lia)).
  pose proof (start_nonneg r Hr L). split_and!; [|lia|].
  - rewrite width_S, Z.mul_comm, Z.quot_mul by lia. done.
  - rewrite Z.rem_mod_nonneg by lia. unfold uwrap. rewrite (Z.mod_small (_ mod width r L)) by lia. rewrite Z.mod_small by lia. done.
Qed.

Lemma update_plan_run st v : vpid (my_name e) = v → 0 ≤ v < P → ORTE_PROC_IS_DAEMON e || ORTE_PROC_IS_HNP e = true →
  ∃ st', update_routing_plan e st = Some st' ∧ planned v st' ∧ jobid (my_parent st') = jobid (my_parent st) ∧
    lifeline st' = lifeline st ∧ local_lifeline st' = local_lifeline st ∧ hnp_direct st' = hnp_direct st ∧
    orte_routed_jobfams st' = orte_routed_jobfams st.
Proof using Hfit.
  intros Hname Hv Htype. pose proof fit_bounds as (Hr & HP & Hint & HP2 & _). unfold update_routing_plan.
  rewrite <-negb_orb, Htype, Hname. cbn [negb].
  assert (swrap 32 v = v) as -> by (unfold swrap; rewrite Z.mod_small by lia; zbool; lia).
  destruct (levels_run v Hv) as (L & HL & ->). cbn [mbind option_bind]. destruct (Z.eqb_spec r 0); [lia|].
  destruct (radix_tree_children v Hv) as (cs & Ecs & Hcs & Hsort & Hkn).
  destruct (Z.eqb_spec v 0) as [->|Hne].
  - cbn [mbind option_bind]. rewrite Ecs. cbn [mbind option_bind]. eexists. split; [done|]. split_and!; [|done..]. by split.
  - destruct L as [|L]; [unfold at_level in HL; cbn in HL; unfold width in HL; cbn in HL; lia|].
    destruct (parent_run L v HL ltac:(lia)) as (-> & Hnz & Hpar). destruct (Z.eqb_spec (width r L) 0); [done|]. cbn [mbind option_bind].
    rewrite Ecs. cbn [mbind option_bind]. eexists. split; [done|]. split_and!; [|done..]. by split.
Qed.

End plan.

(** C27. The routing plan of a daemon.  [update_routing_plan] terminates without overflow for
    every daemon of a job that fits, whatever it computed before, and
    gives it its place in the tree of the radix: its parent is the one rank whose child it is (rank 0
    has none), its children are exactly the ranks below the number of daemons whose parent it
    is, in ascending order, and the bitmap of each child holds exactly the ranks that lie
    below it in the tree.  Nothing else of the module's state changes. *)
Theorem routing_plan_spec e st v : fits e → vpid (my_name e) = v → 0 ≤ v < num_procs e →
  ORTE_PROC_IS_DAEMON e || ORTE_PROC_IS_HNP e = true →
  ∃ st', update_routing_plan e st = Some st' ∧ planned e v st' ∧ jobid (my_parent st') = jobid (my_parent st) ∧
    lifeline st' = lifeline st ∧ local_lifeline st' = local_lifeline st ∧ hnp_direct st' = hnp_direct st ∧
    orte_routed_jobfams st' = orte_routed_jobfams st.
Proof. intros Hfit. by apply update_plan_run. Qed.

(** A radix of 0 passes the component's query, which refuses only a negative
    one, but with it no daemon can compute its plan: for a rank from 1 on the loop over the levels never
    ends, whatever the number of rounds, and rank 0 divides by 0. *)
Theorem radix_zero e st : radix e = 0 → ORTE_PROC_IS_DAEMON e || ORTE_PROC_IS_HNP e = true →
  orte_routed_radix_component_query (radix e) = inr 70 ∧ update_routing_plan e st = None ∧ ∀ rank fuel, 1 ≤ rank → level_loop fuel (radix e) rank 1 1 = None.
Proof.
  intros Hr Htype. assert (∀ fuel rank Sum N, (N = 0 ∨ Sum = 1) → Sum ≤ rank → Sum ≤ 1 → level_loop fuel (radix e) rank Sum N = None) as Hloop.
  { rewrite Hr. induction fuel as [|fuel IH]; intros rank Sum N HN Hs H1; [done|]. cbn [level_loop].
    destruct (ck_int (rank + 1)) as [r1|] eqn:E1; [|done]. apply ck_int_inv in E1 as [-> _]. cbn [mbind option_bind].
    destruct (Z.ltb_spec Sum (rank + 1)); [|lia]. rewrite Z.mul_0_r. rewrite ck_int_Some by done. cbn [mbind option_bind]. rewrite Z.add_0_r.
    destruct (ck_int Sum) as [s|] eqn:E2; [|done]. apply ck_int_inv in E2 as [-> _]. cbn [mbind option_bind]. apply IH; [by left|done|done]. }
  split_and!; [by rewrite Hr| |intros rank fuel H1; apply Hloop; [by right|done|done]].
  unfold update_routing_plan. rewrite <-negb_orb, Htype. cbn [negb]. destruct (level_loop _ _ _ _ _) as [[S N]|]; [|done].
  cbn [mbind option_bind]. by rewrite Hr.
Qed.

End RadixSpec.
