(* ===== verification/RadixRoutes.v ===== *)
(** * Following routes

    A network of daemons, each with its plan: messages forwarded hop by hop with
    [get_route] reach the daemon of their target, broadcasts along the children reach
    every daemon once, and the table of other job families is a map. *)

From Stdlib Require Import ZArith Lia Ascii.
From stdpp Require Import prelude numbers strings gmap list sorting.
From S2P Require Import Prelude PointerArray CString Dss Names Bitmap RadixTree Routed RadixSpec.

Local Open Scope Z_scope.

Module RadixRoutes.
Import Dss Names BM BitmapSpec RadixTree Routed RadixSpec.

(** ** The next step towards a daemon *)

Lemma search_children_run e l d : Forall (knows_below e) l → 0 ≤ d < num_procs e → d < 2 ^ 31 →
  ∃ res, search_children l d = Some res ∧
    match res with
    | Some c => c ∈ tree_vpid <$> l ∧ rtc (child_of (radix e)) c d
    | None => ∀ c, c ∈ tree_vpid <$> l → ¬ rtc (child_of (radix e)) c d
    end.
Proof.
  intros Hl Hd Hd31. induction Hl as [|t l Ht _ IH]; cbn [search_children].
  { exists None. split; [done|]. intros c []%elem_of_nil. }
  destruct (Z.eqb_spec (tree_vpid t) d) as [<-|Hne].
  { eexists. split; [done|]. split; [by left|done]. }
  destruct Ht as (S & (b & Hwf & HS) & _ & HQ).
  assert (swrap 32 d = d) as -> by (unfold swrap; rewrite Z.mod_small by lia; zbool; lia).
  rewrite (is_set_run _ b) by done. cbn [mbind option_bind]. destruct (Z.leb_spec 0 d); [|lia]. cbn [andb].
  assert (bit_set b d = true ↔ tc (child_of (radix e)) (tree_vpid t) d) as Hbit.
  { specialize (HS d). specialize (HQ d). cbn beta in HQ. intuition lia. }
  destruct (bit_set b d).
  - eexists. split; [done|]. split; [by left|]. apply tc_rtc. by apply Hbit.
  - destruct IH as (res & -> & Hres). exists res. split; [done|]. destruct res as [c|].
    + destruct Hres as [Hc Hcd]. split; [by right|done].
    + intros c [->|Hc]%elem_of_cons; [|by apply Hres]. intros [E|Ht]%rtc_tc; [done|]. by apply Hbit in Ht.
Qed.

Lemma next_step e v st d : fits e → planned e v st → 0 ≤ d < num_procs e → v ≠ d → 0 ≤ v →
  ∃ res, search_children (my_children st) d = Some res ∧
    match res with
    | Some c => child_of (radix e) v c ∧ c < num_procs e ∧ rtc (child_of (radix e)) c d
    | None => ¬ rtc (child_of (radix e)) v d ∧ child_of (radix e) (vpid (my_parent st)) v
    end.
Proof.
  intros Hfit Hpl Hd Hne Hv. pose proof (fit_bounds e Hfit) as (Hr & _ & _ & HP & _).
  destruct (search_children_run e (my_children st) d (pl_below _ _ _ Hpl) Hd ltac:(lia)) as (res & -> & Hres).
  exists res. split; [done|]. destruct res as [c|].
  - destruct Hres as [Hc Hcd]. apply (pl_children _ _ _ Hpl) in Hc as [Hvc Hc]. done.
  - assert (¬ rtc (child_of (radix e)) v d) as Hn.
    { intros [?|(c & Hvc & Hcd)%below_split]%rtc_tc; [done|]. apply (Hres c); [|done]. apply (pl_children _ _ _ Hpl). split; [done|].
      pose proof (rtc_nonneg _ Hr _ _ Hcd). pose proof (child_nonneg _ Hr _ _ Hvc). pose proof (child_lt _ Hr _ _ Hvc). lia. }
    split; [done|]. apply (pl_parent _ _ _ Hpl). intros ->. apply Hn. apply (root_above _ Hr). lia.
Qed.

(** ** Networks *)

(** What the daemons of a job share, and what each of them keeps. *)
Record network := mk_network { base : env_t; state_of : Z → routed_t }.

Definition job (n : network) : Z := jobid (my_name (base n)).

(** The environment of the daemon of rank [v]; rank 0 is the HNP. *)
Definition at_rank (e : env_t) (v : Z) : env_t :=
  let name := mk_name (jobid (my_name e)) v in
  mk_env name name (my_hnp e) (if v =? 0 then ORTE_PROC_HNP else ORTE_PROC_DAEMON) (num_procs e)
    (orte_job_data e) (orte_routing_is_enabled e) (orte_static_ports e) (orte_finalizing e) (orte_abnormal_term_ordered e)
    (radix e) (max_connections e).

Definition env_of (n : network) (v : Z) : env_t := at_rank (base n) v.

(** The daemons a message to [target] passes, from [v] on, until one sends it to the target itself. *)
Fixpoint forward (fuel : nat) (n : network) (target : opal_process_name_t) (v : Z) : option (list Z) :=
  match fuel with
  | O => None
  | S fuel =>
    hop ← get_route (env_of n v) target (state_of n v);
    if decide (hop = target) then Some [v]
    else if jobid hop =? job n then path ← forward fuel n target (vpid hop); Some (v :: path)
    else None
  end.

Record running (n : network) : Prop := {
  run_fits : fits (base n);
  run_enabled : orte_routing_is_enabled (base n) = true;
  run_job : job n ≠ ORTE_JOBID_WILDCARD;
  run_planned v : 0 ≤ v < num_procs (base n) → planned (base n) v (state_of n v);
  run_job_parent v : 0 ≤ v < num_procs (base n) → jobid (my_parent (state_of n v)) = job n;
}.

(** [target] is a process of our own job family, other than the HNP, hosted by the daemon
    [d]; a daemon is hosted by itself. *)
Record hosted (n : network) (target : opal_process_name_t) (d : Z) : Prop := {
  ho_family : ORTE_JOB_FAMILY (jobid target) = ORTE_JOB_FAMILY (job n);
  ho_valid : jobid target ≠ ORTE_JOBID_INVALID ∧ vpid target ≠ ORTE_VPID_INVALID;
  ho_named : jobid target ≠ ORTE_JOBID_WILDCARD ∧ vpid target ≠ ORTE_VPID_WILDCARD;
  ho_not_hnp : target ≠ my_hnp (base n);
  ho_daemon : orte_get_proc_daemon_vpid (base n) target = Some d;
  ho_rank : 0 ≤ d < num_procs (base n);
  ho_self : jobid target = job n → vpid target = d;
}.

Lemma compare_name_eq a b : jobid a ≠ ORTE_JOBID_WILDCARD → vpid a ≠ ORTE_VPID_WILDCARD → jobid b ≠ ORTE_JOBID_WILDCARD →
  vpid b ≠ ORTE_VPID_WILDCARD → (opal_dss_compare_name a b =? OPAL_EQUAL) = true ↔ a = b.
Proof.
  destruct a as [j1 v1], b as [j2 v2]. cbn. intros H1 H2 H3 H4. unfold opal_dss_compare_name. cbn [jobid vpid].
  apply Z.eqb_neq in H1 as ->, H2 as ->, H3 as ->, H4 as ->. cbn [negb andb].
  destruct (Z.ltb_spec j1 j2); [split; [done|intros [= -> ->]; lia]|].
  destruct (Z.ltb_spec j2 j1); [split; [done|intros [= -> ->]; lia]|].
  destruct (Z.ltb_spec v1 v2); [split; [done|intros [= -> ->]; lia]|].
  destruct (Z.ltb_spec v2 v1); [split; [done|intros [= -> ->]; lia]|].
  split; [|done]. intros _. f_equal; lia.
Qed.

Lemma env_types n v : ORTE_PROC_IS_APP (env_of n v) = false ∧ ORTE_PROC_IS_TOOL (env_of n v) = false ∧
  ORTE_PROC_IS_DAEMON (env_of n v) || ORTE_PROC_IS_HNP (env_of n v) = true.
Proof. unfold ORTE_PROC_IS_APP, ORTE_PROC_IS_TOOL, ORTE_PROC_IS_DAEMON, ORTE_PROC_IS_HNP, is_type, env_of, at_rank. cbn. by destruct (v =? 0). Qed.

Section routes.
Context (n : network) (target : opal_process_name_t) (d : Z).
Hypothesis Hrun : running n.
Hypothesis Hhost : hosted n target d.
Notation P := (num_procs (base n)).
Notation above := (rtc (child_of (radix (base n)))).

(** The route up to the choice of the hop. *)
Lemma get_route_own v : 0 ≤ v < P →
  get_route (env_of n v) target (state_of n v) =
    if v =? d then Some target else
    if P <? max_connections (base n) then Some (mk_name (job n) d) else
    found ← search_children (my_children (state_of n v)) d;
    Some (mk_name (job n) (match found with Some v => v | None => vpid (my_parent (state_of n v)) end)).
Proof using Hrun Hhost.
  intros Hv. destruct Hhost as [Hfam [Hj Hp] [Hjw Hpw] Hnh Hd Hdr Hself]. pose proof (run_fits _ Hrun) as Hfit.
  pose proof (fit_bounds _ Hfit) as (_ & _ & _ & HP & _). destruct (env_types n v) as (Happ & Htool & _).
  unfold get_route. rewrite Happ, Htool. cbn [env_of at_rank orte_routing_is_enabled my_name my_hnp num_procs max_connections jobid vpid].
  rewrite (run_enabled _ Hrun). cbn [negb]. rewrite (proj2 (Z.eqb_neq _ _) Hj), (proj2 (Z.eqb_neq _ _) Hp). cbn [orb].
  assert (other_family (env_of n v) (jobid target) = false) as ->.
  { unfold other_family. cbn. rewrite Hfam. by rewrite Z.eqb_refl. }
  assert (same_proc (my_hnp (base n)) target = false) as ->.
  { apply not_true_is_false. intros E%same_proc_eq. by apply Hnh. }
  change (orte_get_proc_daemon_vpid (env_of n v) target) with (orte_get_proc_daemon_vpid (base n) target).
  rewrite Hd. cbn [mbind option_bind]. destruct (Z.eqb_spec d ORTE_VPID_INVALID); [unfold ORTE_VPID_INVALID in *; lia|].
  destruct (opal_dss_compare_name _ _ =? OPAL_EQUAL) eqn:Ecmp; [|done].
  apply compare_name_eq in Ecmp; cbn; [|apply (run_job _ Hrun)|unfold ORTE_VPID_WILDCARD; lia|done|done].
  subst target. cbn in Hself. rewrite (Hself eq_refl). by rewrite Z.eqb_refl.
Qed.

(** The hop in the tree. *)
Lemma hop_spec v : 0 ≤ v < P → v ≠ d → max_connections (base n) ≤ P →
  ∃ w, get_route (env_of n v) target (state_of n v) = Some (mk_name (job n) w) ∧ 0 ≤ w < P ∧
    (child_of (radix (base n)) v w ∧ above w d ∨ ¬ above v d ∧ child_of (radix (base n)) w v).
Proof using Hrun Hhost.
  intros Hv Hne Hmax. rewrite get_route_own by done. destruct (Z.eqb_spec v d); [done|].
  destruct (Z.ltb_spec P (max_connections (base n))); [lia|]. pose proof (run_fits _ Hrun) as Hfit.
  destruct (next_step (base n) v (state_of n v) d) as (res & -> & Hres); [done|by apply Hrun|apply Hhost|done|lia|].
  cbn [mbind option_bind]. eexists. split; [done|]. pose proof (fit_radix _ Hfit) as Hr. destruct res as [c|].
  - destruct Hres as (Hc & HcP & Hcd). pose proof (child_lt _ Hr _ _ Hc). split; [lia|]. by left.
  - destruct Hres as [Hn Hc]. pose proof (child_lt _ Hr _ _ Hc). pose proof (child_nonneg _ Hr _ _ Hc). split; [lia|]. by right.
Qed.

Lemma forward_reaches Ld : max_connections (base n) ≤ P → at_level (radix (base n)) Ld d → ∀ fuel v Lv, 0 ≤ v < P →
  at_level (radix (base n)) Lv v → (above v d ∧ (Ld - Lv < fuel)%nat ∨ (Lv + Ld < fuel)%nat) →
  ∃ path, forward fuel n target v = Some path ∧ (length path ≤ fuel)%nat ∧ Forall (λ w, 0 ≤ w < P) path ∧
    (last path = Some d ∨ target = mk_name (job n) d).
Proof using Hrun Hhost.
  intros Hmax Hd. pose proof (run_fits _ Hrun) as Hfit. pose proof (fit_radix _ Hfit) as Hr.
  induction fuel as [|fuel IH]; intros v Lv Hv HLv Hf; [lia|]. cbn [forward].
  destruct (decide (v = d)) as [->|Hne].
  { rewrite get_route_own, Z.eqb_refl by done. cbn [mbind option_bind]. rewrite decide_True by done. exists [d]. split_and!; [done|cbn; lia|by constructor|by left]. }
  destruct (hop_spec v Hv Hne Hmax) as (w & -> & Hw & Hcase). cbn [mbind option_bind].
  case_decide as Heq.
  { exists [v]. split_and!; [done|cbn; lia|by constructor|]. right. destruct Hhost as [_ _ _ _ _ _ Hself].
    rewrite <-Heq in Hself. cbn in Hself. by rewrite <-Heq, (Hself eq_refl). }
  cbn [jobid vpid]. rewrite Z.eqb_refl.
  assert (∃ Lw, at_level (radix (base n)) Lw w ∧ (above w d ∧ (Ld - Lw < fuel)%nat ∨ (Lw + Ld < fuel)%nat)) as (Lw & HLw & Hfw).
  { destruct Hcase as [[Hc Hwd]|[Hn Hc]].
    - destruct (child_level _ Hr Lv v w HLv Hc) as [HLw _]. exists (S Lv). split; [done|]. left. split; [done|].
      destruct (rtc_level _ Hr _ _ _ Hwd HLw) as [k Hk]. pose proof (level_unique _ Hr _ _ _ Hd Hk). lia.
    - destruct (level_exists _ Hr w ltac:(lia)) as (Lw & HLw & _). destruct (child_level _ Hr Lw w v HLw Hc) as [HLv' _].
      pose proof (level_unique _ Hr _ _ _ HLv HLv') as ->. exists Lw. split; [done|]. right. destruct Hf as [[]|]; [done|lia]. }
  destruct (IH w Lw Hw HLw Hfw) as (path & -> & Hlen & Hall & Hlast). cbn. exists (v :: path). split_and!; [done|cbn; lia|by constructor|].
  destruct Hlast as [Hlast|]; [left|by right]. rewrite last_cons, Hlast. done.
Qed.
End routes.

(** C14. Routing is live.  In a network of any size that fits, in which every daemon has
    computed its plan and connections are made along the tree, a message for a process
    hosted by the daemon [d], forwarded by [get_route] at each hop, reaches [d] from every
    daemon [v] after at most as many hops as the levels of [v] and [d] together, that is,
    a number logarithmic in the number of daemons; it stays among the daemons of the job. *)
Theorem route_reaches n target d v Lv Ld : running n → max_connections (base n) ≤ num_procs (base n) → hosted n target d →
  0 ≤ v < num_procs (base n) → at_level (radix (base n)) Lv v → at_level (radix (base n)) Ld d →
  ∃ path, forward (S (Lv + Ld)) n target v = Some path ∧ (length path ≤ S (Lv + Ld))%nat ∧
    Forall (λ w, 0 ≤ w < num_procs (base n)) path ∧ (last path = Some d ∨ target = mk_name (job n) d).
Proof. intros Hrun Hmax Hhost Hv HLv HLd. eapply (forward_reaches n target d Hrun Hhost Ld Hmax HLd); [done..|]. right. lia. Qed.

(** ** The way up to the HNP *)

Lemma route_to_hnp n v Lv : running n → my_hnp (base n) = mk_name (job n) 0 → job n ≠ ORTE_JOBID_INVALID →
  (∀ w, 0 ≤ w < num_procs (base n) → negb (hnp_direct (state_of n w)) || orte_static_ports (base n) = true) →
  0 ≤ v < num_procs (base n) → at_level (radix (base n)) Lv v →
  ∃ path, forward (S Lv) n (my_hnp (base n)) v = Some path ∧ (length path ≤ S Lv)%nat.
Proof.
  intros Hrun Hhnp Hji Htree. pose proof (run_fits _ Hrun) as Hfit. pose proof (fit_bounds _ Hfit) as (Hr & _ & _ & HP & _).
  assert (∀ w, 0 ≤ w < num_procs (base n) →
    get_route (env_of n w) (my_hnp (base n)) (state_of n w) = Some (if w =? 0 then my_hnp (base n) else my_parent (state_of n w))) as Hroute.
  { intros w Hw. destruct (env_types n w) as (Happ & Htool & _). unfold get_route. rewrite Happ, Htool, Hhnp.
    cbn [env_of at_rank orte_routing_is_enabled my_name my_hnp jobid vpid orte_static_ports].
    rewrite (run_enabled _ Hrun), (proj2 (Z.eqb_neq _ _) Hji). cbn [negb orb].
    assert (other_family (env_of n w) (job n) = false) as -> by (unfold other_family; cbn; by rewrite Z.eqb_refl).
    rewrite Hhnp, (proj2 (same_proc_eq _ _)), Htree by done.
    destruct (opal_dss_compare_name _ _ =? OPAL_EQUAL) eqn:E.
    - apply compare_name_eq in E; cbn; [|apply (run_job _ Hrun)|unfold ORTE_VPID_WILDCARD; lia|apply (run_job _ Hrun)|done]. by simplify_eq.
    - destruct (Z.eqb_spec w 0) as [->|]; [|done]. exfalso. apply eq_true_false_abs in E; [done|].
      apply compare_name_eq; [apply (run_job _ Hrun)|done|apply (run_job _ Hrun)|done|done]. }
  cut (∀ fuel v L, 0 ≤ v < num_procs (base n) → at_level (radix (base n)) L v → (L < fuel)%nat →
    ∃ path, forward fuel n (my_hnp (base n)) v = Some path ∧ (length path ≤ S L)%nat).
  { intros Hcut Hv HL. apply (Hcut (S Lv) v Lv); [done|done|lia]. }
  clear v Lv. induction fuel as [|fuel IH]; intros v L Hv HL Hf; [lia|]. cbn [forward]; rewrite Hroute by done; cbn [mbind option_bind].
  case_decide as Hd; [exists [v]; split; [done|cbn; lia]|]. destruct (Z.eqb_spec v 0) as [->|Hv0]; [done|].
  rewrite (run_job_parent _ Hrun) by done. rewrite Z.eqb_refl. pose proof (pl_parent _ _ _ (run_planned _ Hrun v Hv) Hv0) as Hc.
  pose proof (child_lt _ Hr _ _ Hc). pose proof (child_nonneg _ Hr _ _ Hc).
  destruct (level_exists _ Hr (vpid (my_parent (state_of n v))) ltac:(lia)) as (L' & HL' & _).
  destruct (child_level _ Hr _ _ _ HL' Hc) as [HLv' _]. pose proof (level_unique _ Hr _ _ _ HL HLv') as ->.
  destruct (IH (vpid (my_parent (state_of n v))) L' ltac:(lia) HL' ltac:(lia)) as (path & -> & Hlen). cbn. exists (v :: path). split; [done|cbn; lia].
Qed.

(** ** Broadcasts *)

(** The daemons a broadcast that starts at [v] visits: each passes it on to its routing list. *)
Fixpoint broadcast (fuel : nat) (n : network) (v : Z) : option (list Z) :=
  match fuel with
  | O => None
  | S fuel =>
    '(coll, _) ← get_routing_list (env_of n v) (state_of n v) [];
    ls ← mapM (λ t, broadcast fuel n (vpid t)) coll;
    Some (v :: concat ls)
  end.

Section broadcasts.
Context (n : network) (Hrun : running n) (Hnormal : orte_abnormal_term_ordered (base n) = false).
Notation P := (num_procs (base n)).
Notation above := (rtc (child_of (radix (base n)))).

Lemma routing_list_run v : get_routing_list (env_of n v) (state_of n v) [] =
  Some ((λ c, mk_name (job n) c) <$> (tree_vpid <$> my_children (state_of n v)), false).
Proof using Hrun Hnormal.
  destruct (env_types n v) as (_ & _ & Ht). unfold get_routing_list. rewrite <-negb_orb, Ht. cbn [negb].
  unfold orte_routed_base_xcast_routing. cbn [env_of at_rank orte_abnormal_term_ordered orte_routing_is_enabled my_name jobid].
  rewrite Hnormal, (run_enabled _ Hrun). cbn [negb orb]. rewrite andb_false_r. cbn [app]. by rewrite <-list_fmap_compose.
Qed.

(** The parts of a broadcast below ranks of one level. *)
Lemma parts_run L fuel cs : (∀ c, c ∈ cs → at_level (radix (base n)) L c ∧ ∃ l, broadcast fuel n c = Some l ∧ NoDup l ∧ ∀ x, x ∈ l ↔ x < P ∧ above c x) →
  NoDup cs → ∃ ls, mapM (λ t, broadcast fuel n (vpid t)) ((λ c, mk_name (job n) c) <$> cs) = Some ls ∧ NoDup (concat ls) ∧
    ∀ x, x ∈ concat ls ↔ x < P ∧ ∃ c, c ∈ cs ∧ above c x.
Proof using Hrun.
  intros Hcs Hnd. induction Hnd as [|c cs Hc _ IH]; cbn [fmap list_fmap mapM].
  { exists []. split_and!; [done|constructor|]. intros x. split; [by intros []%elem_of_nil|by intros (_ & c & []%elem_of_nil & _)]. }
  destruct (Hcs c) as (HLc & l & Hl & Hndl & Hinl); [by left|]. cbn [vpid]. rewrite Hl. cbn [mbind option_bind].
  destruct IH as (ls & -> & Hndls & Hinls); [intros c' Hc'; apply Hcs; by right|]. cbn [mbind option_bind]. exists (l :: ls).
  split_and!; [done| |].
  - cbn [concat]. apply NoDup_app. split_and!; [done| |done]. intros x [_ Hx]%Hinl (_ & c' & Hc' & Hx')%Hinls.
    destruct (Hcs c') as [HLc' _]; [by right|]. pose proof (above_unique _ (fit_radix _ (run_fits _ Hrun)) L c c' x HLc HLc' Hx Hx'). by subst.
  - intros x. cbn [concat]. rewrite elem_of_app, Hinl, Hinls. split.
    + intros [[Hx Ha]|(Hx & c' & Hc' & Ha)]; (split; [done|]); [exists c; split; [by left|done]|exists c'; split; [by right|done]].
    + intros (Hx & c' & [->|Hc']%elem_of_cons & Ha); [by left|right]. split; [done|]. by exists c'.
Qed.

Lemma broadcast_run fuel : ∀ v, 0 ≤ v < P → (Z.to_nat (P - v) ≤ fuel)%nat →
  ∃ l, broadcast fuel n v = Some l ∧ NoDup l ∧ ∀ x, x ∈ l ↔ x < P ∧ above v x.
Proof using Hrun Hnormal.
  pose proof (fit_radix _ (run_fits _ Hrun)) as Hr. induction fuel as [|fuel IH]; intros v Hv Hf; [lia|]. cbn [broadcast].
  rewrite routing_list_run. cbn [mbind option_bind]. pose proof (run_planned _ Hrun v Hv) as Hpl.
  destruct (level_exists _ Hr v ltac:(lia)) as (L & HL & _).
  destruct (parts_run (S L) fuel (tree_vpid <$> my_children (state_of n v))) as (ls & -> & Hnd & Hin).
  - intros c [Hc HcP]%(pl_children _ _ _ Hpl). destruct (child_level _ Hr L v c HL Hc) as [HLc Hlt]. split; [done|]. apply IH; lia.
  - pose proof (pl_sorted _ _ _ Hpl) as Hs. induction Hs as [|c cs _ IHs Hc]; constructor; [|done]. rewrite Forall_forall in Hc. intros Hin. specialize (Hc c Hin). lia.
  - cbn [mbind option_bind]. eexists. split; [done|]. split.
    + constructor; [|done]. rewrite Hin. intros (_ & c & [Hc _]%(pl_children _ _ _ Hpl) & Hcv). pose proof (child_lt _ Hr _ _ Hc).
      pose proof (rtc_nonneg _ Hr _ _ Hcv). lia.
    + intros x. rewrite elem_of_cons, Hin, rtc_tc, below_split. split.
      * intros [->|(Hx & c & [Hc _]%(pl_children _ _ _ Hpl) & Hcx)]; [split; [lia|by left]|]. split; [done|]. right. by exists c.
      * intros [Hx [->|(c & Hc & Hcx)]]; [by left|right]. split; [done|]. exists c. split; [|done]. apply (pl_children _ _ _ Hpl). split; [done|].
        pose proof (rtc_nonneg _ Hr _ _ Hcx). pose proof (child_lt _ Hr _ _ Hc). lia.
Qed.
End broadcasts.

(** C26. A broadcast reaches every daemon exactly once.  In a running network, the
    HNP sends the message to its routing list ([get_routing_list], which is its children)
    and every daemon that receives it does the same; the daemons visited are a permutation
    of all the ranks of the job. *)
Theorem xcast_reaches_all n : running n → orte_abnormal_term_ordered (base n) = false →
  ∃ l, broadcast (Z.to_nat (num_procs (base n))) n 0 = Some l ∧ l ≡ₚ seqZ 0 (num_procs (base n)).
Proof.
  intros Hrun Hnormal. pose proof (run_fits _ Hrun) as Hfit. pose proof (fit_radix _ Hfit) as Hr. pose proof (fit_procs _ Hfit).
  destruct (broadcast_run n Hrun Hnormal (Z.to_nat (num_procs (base n))) 0) as (l & E & Hnd & Hin); [lia|lia|].
  exists l. split; [done|]. apply NoDup_Permutation; [done|apply NoDup_seqZ|]. intros x. rewrite Hin, elem_of_seqZ. split.
  - intros [Hx Ha]. pose proof (rtc_nonneg _ Hr _ _ Ha). lia.
  - intros Hx. split; [lia|]. apply (root_above _ Hr). lia.
Qed.

(** ** The parameters as registered *)

(** With the registered defaults the tree is not used.  [max_connections] is unsigned, so
    its default of -1 is the greatest number and every job is below it: a daemon
    sends a message for any other daemon's process to that daemon directly, whatever the plan. *)
Theorem default_routes_direct n target d v : running n → hosted n target d → 0 ≤ v < num_procs (base n) →
  max_connections (base n) = orte_routed_radix_component_register.2 →
  get_route (env_of n v) target (state_of n v) = Some (if v =? d then target else mk_name (job n) d).
Proof.
  intros Hrun Hhost Hv Hmax. rewrite (get_route_own n target d Hrun Hhost v Hv). destruct (Z.eqb_spec v d); [done|].
  pose proof (fit_bounds _ (run_fits _ Hrun)) as (_ & _ & _ & HP & _).
  assert (max_connections (base n) = 4294967295) as -> by done. destruct (Z.ltb_spec (num_procs (base n)) 4294967295); [done|lia].
Qed.

(** ** Networks that have computed their plans *)

(** Every daemon has initialised the module and updated its plan. *)
Definition start_daemon (e : env_t) (v : Z) (st : routed_t) : routed_t :=
  let e := at_rank e v in let '(st, _) := init e st in default st (update_routing_plan e st).

Definition start_network (e : env_t) (st : routed_t) : network := mk_network e (λ v, start_daemon e v st).

Lemma start_network_runs e st : fits e → orte_routing_is_enabled e = true → jobid (my_name e) ≠ ORTE_JOBID_WILDCARD → running (start_network e st).
Proof.
  intros Hfit Hen Hj. assert (∀ v, 0 ≤ v < num_procs e →
    planned e v (start_daemon e v st) ∧ jobid (my_parent (start_daemon e v st)) = jobid (my_name e)) as Hstart.
  { intros v Hv. unfold start_daemon. destruct (init (at_rank e v) st) as [st1 rc] eqn:Ei. unfold init in Ei. simplify_eq.
    destruct (update_plan_run (at_rank e v)) with (v := v)
      (st := set_my_parent (mk_name (jobid (my_name e)) (vpid (my_parent (set_children 0 [] (set_lifeline_ptr None st))))) (set_children 0 [] (set_lifeline_ptr None st)))
      as (st' & E & Hpl & Hjp & _); [destruct Hfit; by split|done|done|apply (env_types (mk_network e (λ _, st)) v)|].
    cbn [at_rank my_name jobid] in *. rewrite E. cbn. split; [|done]. destruct Hpl as [H1 H2 H3 H4 H5 H6]. by split. }
  split; [done|done|done|intros v Hv; by apply Hstart|intros v Hv; by apply Hstart].
Qed.

(** *** Seven daemons in a binary tree, and a process of job 1 hosted by daemon 5 *)

Definition fill {A} (l : list (option A)) : PA.opal_pointer_array_t A :=
  PA.mk_array 0 0 (Z.of_nat (length l)) INT_MAX 8 (Some l).

Definition seven : env_t :=
  mk_env (mk_name 65536 0) (mk_name 65536 0) (mk_name 65536 0) ORTE_PROC_HNP 7
    (Some (fill [None; Some (mk_job (fill [Some (mk_proc (mk_name 65537 0) (Some (mk_onode (Some (mk_name 65536 5)))) 1)]))]))
    true false false false 2 0.

Definition fresh : routed_t := mk_routed (mk_name 0 0) None (mk_name 0 0) 0 [] true (fill []).

Lemma seven_runs : running (start_network seven fresh).
Proof. by apply start_network_runs; [split|..]. Qed.

Lemma seven_hosts : hosted (start_network seven fresh) (mk_name 65537 0) 5.
Proof. by split. Qed.

(** From daemon 4 to daemon 5, both of level 2. *)
Lemma route_reaches_witness : ∃ path, forward 5 (start_network seven fresh) (mk_name 65537 0) 4 = Some path ∧ (length path ≤ 5)%nat ∧
  last path = Some 5.
Proof.
  destruct (route_reaches (start_network seven fresh) (mk_name 65537 0) 5 4 2 2 seven_runs) as (path & E & Hlen & _ & Hlast); [done|apply seven_hosts|done|by split..|].
  exists path. split_and!; [done|done|]. by destruct Hlast.
Defined.

Example path_up_and_down : forward 5 (start_network seven fresh) (mk_name 65537 0) 4 = Some [4; 2; 0; 1; 5].
Proof. vm_compute. reflexivity. Qed.

Lemma xcast_reaches_all_witness : ∃ l, broadcast 7 (start_network seven fresh) 0 = Some l ∧ l ≡ₚ seqZ 0 7.
Proof. apply (xcast_reaches_all (start_network seven fresh)); [apply seven_runs|done]. Defined.

Example broadcast_order : broadcast 7 (start_network seven fresh) 0 = Some [0; 1; 3; 5; 2; 4; 6].
Proof. vm_compute. reflexivity. Qed.

(** The same daemons with the registered parameters. *)
Definition seven_default : env_t :=
  let e := seven in
  mk_env (my_name e) (my_daemon e) (my_hnp e) (proc_type e) (num_procs e) (orte_job_data e) true false false false
    orte_routed_radix_component_register.1 orte_routed_radix_component_register.2.

Lemma default_routes_direct_witness :
  get_route (env_of (start_network seven_default fresh) 4) (mk_name 65537 0) (state_of (start_network seven_default fresh) 4) = Some (mk_name 65536 5).
Proof.
  apply (default_routes_direct (start_network seven_default fresh) (mk_name 65537 0) 5 4); [|by split|done|done].
  by apply start_network_runs; [split|..].
Defined.

Lemma routing_plan_witness : ∃ st', update_routing_plan (at_rank seven 1) fresh = Some st' ∧ planned (at_rank seven 1) 1 st'.
Proof.
  destruct (routing_plan_spec (at_rank seven 1) fresh 1) as (st' & E & Hpl & _); [by split|done|done|done|]. by exists st'.
Defined.

Lemma radix_zero_witness : ∃ e, radix e = 0 ∧ orte_routed_radix_component_query (radix e) = inr 70 ∧ update_routing_plan e fresh = None.
Proof.
  exists (mk_env (mk_name 65536 3) (mk_name 65536 3) (mk_name 65536 0) ORTE_PROC_DAEMON 7 None true false false false 0 0).
  split; [done|]. destruct (radix_zero (mk_env (mk_name 65536 3) (mk_name 65536 3) (mk_name 65536 0) ORTE_PROC_DAEMON 7 None true false false false 0 0) fresh)
    as (H1 & H2 & _); done.
Defined.

End RadixRoutes.
