(* ===== verification/RouteTable.v ===== *)
(** * The routes to other job families are a map

    The HNP keeps them in a pointer array; updating, deleting, losing and asking for a route
    act on it as on a finite map from families to names. *)

From Stdlib Require Import ZArith Lia Ascii.
From stdpp Require Import prelude numbers strings gmap list.
From S2P Require Import Prelude PointerArray CString Dss Names Bitmap Routed.

Local Open Scope Z_scope.

Module RouteTable.
Import Dss Names Routed.
Implicit Types a : PA.opal_pointer_array_t orte_routed_jobfam_t.

(** The entry at an index. *)
Notation entry a i := (PA.opal_pointer_array_get_item a i).

(** The table holds the routes of [M], one entry for each family. *)
Record table a (M : gmap Z opal_process_name_t) : Prop := {
  tb_wf : PA.wf a;
  tb_max : PA.max_size a = INT_MAX;
  tb_block : PA.addr a = None ∨ 0 < PA.size a;
  tb_route f rt : M !! f = Some rt ↔ ∃ i j, 0 ≤ i ∧ entry a i = Some (Some j) ∧ job_family j = f ∧ route j = rt;
  tb_unique i i' j j' : 0 ≤ i → 0 ≤ i' → entry a i = Some (Some j) → entry a i' = Some (Some j') → job_family j = job_family j' → i = i';
}.

Lemma entry_defined a i : PA.wf a → 0 ≤ i → ∃ o, entry a i = Some o.
Proof. intros Hwf Hi. eexists. by apply PA.get_item_slot. Qed.

Lemma entry_inside a i j : PA.wf a → 0 ≤ i → entry a i = Some (Some j) → i < PA.size a.
Proof. intros Hwf Hi. unfold PA.opal_pointer_array_get_item. destruct (Z.leb_spec (PA.size a) i); [done|lia]. Qed.

(** ** The search *)

Lemma find_jobfam_run a f : PA.wf a → ∀ n i, 0 ≤ i →
  ∃ res, find_jobfam a f n i = Some res ∧
    match res with
    | Some (k, j) => i ≤ k ∧ entry a k = Some (Some j) ∧ job_family j = f
    | None => ∀ k j, i ≤ k < i + Z.of_nat n → entry a k = Some (Some j) → job_family j ≠ f
    end.
Proof.
  intros Hwf. induction n as [|n IH]; intros i Hi; cbn [find_jobfam].
  { exists None. split; [done|]. intros. lia. }
  destruct (entry_defined a i Hwf Hi) as [o Ho]. rewrite Ho. cbn [mbind option_bind].
  destruct (IH (i + 1) ltac:(lia)) as (res & Hres & Hspec).
  assert ((∀ j, o = Some j → job_family j ≠ f) → ∃ res, find_jobfam a f n (i + 1) = Some res ∧
    match res with
    | Some (k, j) => i ≤ k ∧ entry a k = Some (Some j) ∧ job_family j = f
    | None => ∀ k j, i ≤ k < i + Z.of_nat (S n) → entry a k = Some (Some j) → job_family j ≠ f
    end) as Hgo.
  { intros Hno. exists res. split; [done|]. destruct res as [[k j]|].
    - destruct Hspec as (? & ? & ?). split_and!; [lia|done|done].
    - intros k j Hk Hkj. destruct (decide (k = i)) as [->|]; [|by apply (Hspec k); [lia|]]. rewrite Ho in Hkj. simplify_eq. by apply Hno. }
  destruct o as [j|]; [|by apply Hgo]. destruct (Z.eqb_spec (job_family j) f); [|apply Hgo; by intros ? [= ->]].
  exists (Some (i, j)). done.
Qed.

Lemma lookup_jobfam_run st M f : table (orte_routed_jobfams st) M →
  ∃ res, lookup_jobfam st f = Some res ∧
    match res with
    | Some (k, j) => 0 ≤ k ∧ entry (orte_routed_jobfams st) k = Some (Some j) ∧ job_family j = f ∧ M !! f = Some (route j)
    | None => M !! f = None
    end.
Proof.
  intros Ht. pose proof (tb_wf _ _ Ht) as Hwf. unfold lookup_jobfam.
  destruct (find_jobfam_run (orte_routed_jobfams st) f Hwf (Z.to_nat (PA.size (orte_routed_jobfams st))) 0) as (res & -> & Hres); [lia|].
  exists res. split; [done|]. destruct res as [[k j]|].
  - destruct Hres as (H0 & He & Hf). split_and!; [done..|]. apply (tb_route _ _ Ht). by exists k, j.
  - destruct (M !! f) as [rt|] eqn:E; [|done]. apply (tb_route _ _ Ht) in E as (i & j & Hi & He & Hf & _).
    pose proof (entry_inside _ _ _ Hwf Hi He). exfalso. apply (Hres i j); [lia|done|done].
Qed.

(** ** The changes *)

(** A table in which the entry at [i] became [o]. *)
Definition replaced a a' (i : Z) (o : option orte_routed_jobfam_t) : Prop :=
  PA.wf a' ∧ PA.max_size a' = INT_MAX ∧ (PA.addr a' = None ∨ 0 < PA.size a') ∧ 0 ≤ i ∧
  ∀ k, 0 ≤ k → entry a' k = if decide (k = i) then Some o else entry a k.

Lemma table_put a a' M i j : table a M → replaced a a' i (Some j) → (∀ k j', 0 ≤ k → entry a k = Some (Some j') → job_family j' = job_family j → k = i) →
  (∀ j', entry a i = Some (Some j') → job_family j' = job_family j) → table a' (<[job_family j := route j]> M).
Proof.
  intros Ht (Hwf & Hmax & Hblk & Hi & He) Honly Hsame. split; [done..| |].
  - intros f rt. rewrite lookup_insert_Some, (tb_route _ _ Ht). split.
    + intros [[<- <-]|(Hne & k & j' & Hk & Hkj & Hf & Hr)].
      * exists i, j. rewrite He by done. by rewrite decide_True.
      * exists k, j'. rewrite He by done. case_decide; [|done]. subst k. by rewrite (Hsame _ Hkj) in Hf.
    + intros (k & j' & Hk & Hkj & Hf & Hr). rewrite He in Hkj by done. case_decide; [simplify_eq; by left|right].
      split; [|by exists k, j']. intros E. rewrite <-Hf in E. by apply (Honly k j') in Hkj.
  - intros k k' j1 j2 Hk Hk' H1 H2 Hf. rewrite He in H1, H2 by done. repeat case_decide; simplify_eq;
      first [done|by eapply Honly|symmetry; by eapply Honly|by eapply (tb_unique _ _ Ht)].
Qed.

Lemma table_drop a a' M i j : table a M → replaced a a' i None → entry a i = Some (Some j) → table a' (delete (job_family j) M).
Proof.
  intros Ht (Hwf & Hmax & Hblk & Hi & He) Hj. split; [done..| |].
  - intros f rt. rewrite lookup_delete_Some, (tb_route _ _ Ht). split.
    + intros (Hne & k & j' & Hk & Hkj & Hf & Hr). exists k, j'. rewrite He by done. case_decide; [subst k; simplify_eq|done].
    + intros (k & j' & Hk & Hkj & Hf & Hr). rewrite He in Hkj by done. case_decide; [done|]. split; [|by exists k, j'].
      intros E. rewrite <-Hf in E. by pose proof (tb_unique _ _ Ht _ _ _ _ Hi Hk Hj Hkj E).
  - intros k k' j1 j2 Hk Hk' H1 H2. rewrite He in H1, H2 by done. repeat case_decide; try done. by eapply (tb_unique _ _ Ht).
Qed.

(** [opal_pointer_array_set_item] with NULL, inside the table. *)
Lemma clear_entry mem a i j : PA.wf a → PA.max_size a = INT_MAX → PA.size a < 2 ^ 30 → 0 ≤ i → entry a i = Some (Some j) →
  ∃ a', PA.opal_pointer_array_set_item mem a i None = Some (a', OPAL_SUCCESS) ∧ replaced a a' i None.
Proof.
  intros Hwf Hmax Hsz Hi He. pose proof (entry_inside _ _ _ Hwf Hi He).
  destruct (PA.opal_pointer_array_set_item_spec mem a i None) as (a' & rc & E & [(_ & _ & ?)|(-> & Hwf' & Hm' & He')]);
    [done|unfold INT_MAX in *; lia|unfold INT_MAX; lia|intros (? & _); lia|lia|].
  exists a'. split; [done|]. split_and!; [done|by rewrite Hm'| |done|done].
  right. destruct (Z.leb_spec (PA.size a') i) as [Hle|]; [|lia]. exfalso.
  unfold PA.opal_pointer_array_set_item in E. destruct (PA.ensure_index_spec mem a i) as (t1 & ok & E1 & Hcase);
    [done|unfold INT_MAX in *; lia|unfold INT_MAX; lia|intros (? & _); lia|]. rewrite E1 in E.
  destruct Hcase as [(_ & _ & ?)|(-> & _ & Hlt & _ & _ & Ha & _)]; [lia|]. cbn in E. rewrite Ha in E. cbn in E.
  destruct (zget (PA.elems t1) i); [|done]. cbn in E. destruct (zset (PA.elems t1) i None); [|done]. cbn in E. simplify_eq. cbn in Hle. lia.
Qed.

(** Writing through the pointer of an entry. *)
Lemma write_entry a i j j' : PA.wf a → PA.max_size a = INT_MAX → 0 ≤ i → entry a i = Some (Some j) →
  ∃ a', write_jobfam a i j' = Some a' ∧ replaced a a' i (Some j').
Proof.
  intros Hwf Hmax Hi He. pose proof (entry_inside _ _ _ Hwf Hi He) as Hin. pose proof (PA.wf_size _ Hwf) as Hsz.
  assert (PA.elems a !! Z.to_nat i = Some (Some j)) as Hlk.
  { rewrite PA.get_item_slot in He by done. unfold PA.slot in He. by destruct (PA.elems a !! Z.to_nat i) as [[|]|]; simplify_eq/=. }
  unfold write_jobfam. destruct (PA.addr a) as [l|] eqn:Ea; [|unfold PA.elems in *; rewrite Ea in *; cbn in *; lia].
  assert (l = PA.elems a) as -> by (unfold PA.elems; by rewrite Ea). cbn [mbind option_bind]. rewrite zset_in by lia. cbn [mbind option_bind].
  eexists. split; [done|].
  assert (PA.wf (PA.mk_array (PA.lowest_free a) (PA.number_free a) (PA.size a) (PA.max_size a) (PA.block_size a)
    (Some (<[Z.to_nat i := Some j']> (PA.elems a))))) as Hwf'.
  { eapply PA.store_wf; [done|done|apply Hwf| |cbn; lia]. apply PA.first_null_occupy; [apply Hwf|].
    intros E. destruct (PA.wf_low _ Hwf) as [_ [E'|E']]; rewrite <-E in E'; [|by rewrite Hlk in E']. lia. }
  split_and!; [done|done|right; cbn; lia|done|]. intros k Hk. rewrite !PA.get_item_slot by done. rewrite PA.slot_store by lia.
  rewrite Z2Nat.id by lia. by case_decide.
Qed.

Lemma add_in_free_slot_index a p a' i : PA.add_in_free_slot a p = Some (a', i) → i = PA.lowest_free a.
Proof.
  unfold PA.add_in_free_slot. destruct (PA.addr a) as [l|]; [|done]. cbn [mbind option_bind]. case_match; [done|].
  destruct (zget l (PA.lowest_free a)) as [old|]; [|done]. cbn [mbind option_bind]. case_match; [done|].
  destruct (zset l (PA.lowest_free a) p); [|done]. cbn. intros. by simplify_eq.
Qed.

(** The table grows while it is below half its limit. *)
Lemma add_entry a j : PA.wf a → PA.max_size a = INT_MAX → PA.size a < 2 ^ 30 → (PA.addr a = None ∨ 0 < PA.size a) →
  ∃ a' i, PA.opal_pointer_array_add true a (Some j) = Some (a', i) ∧ entry a i = Some None ∧ replaced a a' i (Some j).
Proof.
  intros Hwf Hmax Hsz Hblk.
  destruct (PA.opal_pointer_array_add_spec true a j) as (a' & i & E & [(-> & -> & Hfree)|(-> & Hi & Hwf' & Hm' & Hnone & _ & He)]);
    [done|by rewrite Hmax|done|done| |].
  - exfalso. unfold PA.opal_pointer_array_add in E. rewrite Hfree in E. cbn [Z.eqb] in E.
    set (soft := match PA.addr a with None => _ | Some _ => _ end) in E.
    assert (∃ n, soft = Some n ∧ PA.size a < n < INT_MAX) as (n & -> & Hn).
    { subst soft. unfold PA.TABLE_INIT, PA.TABLE_GROW, INT_MAX in *. pose proof (PA.wf_size _ Hwf). unfold PA.elems in *. destruct (PA.addr a).
      - rewrite ck_int_Some by (unfold INT_MIN, INT_MAX; lia). eexists. split; [done|]. destruct Hblk; [done|lia].
      - eexists. split; [done|]. cbn in *. lia. }
    cbn [mbind option_bind] in E. unfold PA.grow_table in E. rewrite Hmax in E. destruct (Z.ltb_spec INT_MAX n); [lia|].
    unfold PA.grow_to in E. rewrite Hmax in E. destruct (Z.leb_spec INT_MAX n); [lia|]. cbn [negb] in E.
    destruct (ck_int _); [|done]. cbn in E. destruct (ck_int _); [|done]. cbn [mbind option_bind] in E.
    apply add_in_free_slot_index in E. cbn in E. pose proof (PA.wf_low_nonneg _ Hwf). unfold OPAL_ERR_OUT_OF_RESOURCE in E. lia.
  - exists a', (PA.lowest_free a). split_and!; [done|done|]. split_and!; [done|by rewrite Hm'| |done|done].
    right. assert (entry a' (PA.lowest_free a) = Some (Some j)) as Hj by (rewrite He by done; by rewrite decide_True).
    pose proof (entry_inside _ _ _ Hwf' Hi Hj). lia.
Qed.

Lemma set_jobfams_id st : set_jobfams (orte_routed_jobfams st) st = st.
Proof. by destruct st. Qed.

Lemma drop_jobfam_run mem st M f : table (orte_routed_jobfams st) M → PA.size (orte_routed_jobfams st) < 2 ^ 30 →
  ∃ a', drop_jobfam mem st f = Some (set_jobfams a' st) ∧ table a' (delete f M).
Proof.
  intros Ht Hsz. unfold drop_jobfam. destruct (lookup_jobfam_run st M f Ht) as (res & -> & Hres). cbn [mbind option_bind].
  destruct res as [[k j]|].
  - destruct Hres as (Hk & He & <- & _).
    destruct (clear_entry mem _ k j (tb_wf _ _ Ht) (tb_max _ _ Ht) Hsz Hk He) as (a' & -> & Hrep). cbn. exists a'. split; [done|by eapply table_drop].
  - exists (orte_routed_jobfams st). split; [by rewrite set_jobfams_id|by rewrite delete_id].
Qed.

(** [e] is the HNP and [t] a process of another job family. *)
Record elsewhere (e : env_t) (t : opal_process_name_t) : Prop := {
  el_hnp : proc_type e = ORTE_PROC_HNP;
  el_enabled : orte_routing_is_enabled e = true;
  el_family : other_family e (jobid t) = true;
  el_own : other_family e (jobid (my_hnp e)) = false;
  el_valid : jobid t ≠ ORTE_JOBID_INVALID ∧ vpid t ≠ ORTE_VPID_INVALID;
  el_named : jobid t ≠ ORTE_JOBID_WILDCARD ∧ jobid (my_name e) ≠ ORTE_JOBID_WILDCARD;
}.

Lemma elsewhere_tests e t : elsewhere e t →
  (jobid t =? ORTE_JOBID_INVALID) || (vpid t =? ORTE_VPID_INVALID) = false ∧
  (opal_dss_compare_name (my_name e) t =? OPAL_EQUAL) = false ∧ same_proc (my_hnp e) t = false ∧ (jobid t =? jobid (my_name e)) = false ∧
  ORTE_PROC_IS_APP e = false ∧ ORTE_PROC_IS_TOOL e = false ∧ ORTE_PROC_IS_DAEMON e = false ∧ ORTE_PROC_IS_HNP e = true.
Proof.
  intros [Ht _ Hf Ho [Hj Hv] [Hw Hw']]. assert (jobid t ≠ jobid (my_name e)) as Hne.
  { intros E. unfold other_family in Hf. by rewrite E, Z.eqb_refl in Hf. }
  unfold ORTE_PROC_IS_APP, ORTE_PROC_IS_TOOL, ORTE_PROC_IS_DAEMON, ORTE_PROC_IS_HNP, is_type. rewrite Ht.
  split_and!; [| | |by apply Z.eqb_neq|done..].
  - apply orb_false_iff. split; by apply Z.eqb_neq.
  - unfold opal_dss_compare_name. rewrite (proj2 (Z.eqb_neq _ _) Hw), (proj2 (Z.eqb_neq _ _) Hw'). cbn [negb andb].
    destruct (Z.ltb_spec (jobid (my_name e)) (jobid t)); [done|]. destruct (Z.ltb_spec (jobid t) (jobid (my_name e))); [done|lia].
  - apply not_true_is_false. intros E%same_proc_eq. subst t. by rewrite Ho in Hf.
Qed.

(** C30. At the HNP the routes to other job families are a map from families to names.  When the
    table stands for [M], [get_route] to a process of family [f] answers [M f], or the invalid name
    where there is none, [route_is_defined] says whether there is one, [update_route]
    leaves a table for [M] with the route of [f] replaced or added, and [delete_route] and
    [route_lost] leave one for [M] without [f]; the counters of the pointer
    array stay exact and nothing else changes.  The table has fewer than 2^30 slots. *)
Theorem route_table_refines mem e st M t rt (f := ORTE_JOB_FAMILY (jobid t)) : elsewhere e t → table (orte_routed_jobfams st) M →
  PA.size (orte_routed_jobfams st) < 2 ^ 30 → lifeline st = None →
  get_route e t st = Some (default ORTE_NAME_INVALID (M !! f)) ∧
  route_is_defined e t st = Some (bool_decide (is_Some (M !! f))) ∧
  (∃ a', update_route true e t rt st = Some (set_jobfams a' st, ORTE_SUCCESS) ∧ table a' (<[f := rt]> M)) ∧
  (∃ a', delete_route mem e t st = Some (set_jobfams a' st, ORTE_SUCCESS) ∧ table a' (delete f M)) ∧
  (∃ a', route_lost mem e t st = Some (set_jobfams a' st, ORTE_SUCCESS) ∧ table a' (delete f M)).
Proof.
  intros He Ht Hsz Hll. destruct (elsewhere_tests e t He) as (E1 & E2 & E3 & E4 & E5 & E6 & E7 & E8). destruct He as [_ Hen Hf _ _ _].
  destruct (lookup_jobfam_run st M f Ht) as (res & El & Hres). subst f. split_and!.
  - unfold get_route. rewrite Hen, E1, E2, E5, E6, Hf, E7, El. cbn. destruct res as [[k j]|]; [by destruct Hres as (_ & _ & _ & ->)|by rewrite Hres].
  - unfold route_is_defined. rewrite Hf, E8, El. cbn. f_equal. symmetry. destruct res as [[k j]|].
    + destruct Hres as (_ & _ & _ & ->). by apply bool_decide_eq_true.
    + rewrite Hres. apply bool_decide_eq_false. by intros [? ?].
  - unfold update_route. rewrite E1, E5, E3, Hf, E7, El. cbn [andb mbind option_bind]. destruct res as [[k j]|].
    + destruct Hres as (Hk & He & Hfam & _).
      destruct (write_entry _ k j (mk_jobfam (job_family j) rt (hnp_uri j)) (tb_wf _ _ Ht) (tb_max _ _ Ht) Hk He) as (a' & -> & Hrep).
      exists a'. split; [done|]. rewrite <-Hfam. apply (table_put _ _ _ _ _ Ht Hrep); cbn.
      * intros k' j' Hk' He' Hs. by eapply (tb_unique _ _ Ht).
      * intros j' He'. rewrite He in He'. by simplify_eq.
    + destruct (add_entry (orte_routed_jobfams st) (mk_jobfam (ORTE_JOB_FAMILY (jobid t)) rt None) (tb_wf _ _ Ht) (tb_max _ _ Ht) Hsz (tb_block _ _ Ht))
        as (a' & i & -> & Hnone & Hrep). exists a'. split; [done|].
      apply (table_put _ _ _ i (mk_jobfam (ORTE_JOB_FAMILY (jobid t)) rt None) Ht Hrep); cbn.
      * intros k j' Hk He' Hs. exfalso. assert (M !! ORTE_JOB_FAMILY (jobid t) = Some (route j')) as E; [|by rewrite Hres in E].
        apply (tb_route _ _ Ht). by exists k, j'.
      * intros j' He'. by rewrite Hnone in He'.
  - unfold delete_route. rewrite E1, E8, Hf, E7. cbn [negb andb]. destruct (drop_jobfam_run mem st M (ORTE_JOB_FAMILY (jobid t)) Ht Hsz) as (a' & -> & Ht').
    by exists a'.
  - unfold route_lost. rewrite E8, Hf, E4. cbn [andb]. destruct (drop_jobfam_run mem st M (ORTE_JOB_FAMILY (jobid t)) Ht Hsz) as (a' & -> & Ht').
    cbn [mbind option_bind]. exists a'. split; [|done]. cbn. by rewrite Hll, !andb_false_r.
Qed.

(** ** The table as the framework opens it *)

Lemma empty_table : table (PA.opal_pointer_array_init true PA.opal_pointer_array_construct 8 INT_MAX 8).1 ∅.
Proof.
  change (PA.opal_pointer_array_init true _ 8 INT_MAX 8).1 with (PA.mk_array 0 8 8 INT_MAX 8 (Some (replicate 8 (None : option orte_routed_jobfam_t)))).
  assert (∀ k, 0 ≤ k → entry (PA.mk_array 0 8 8 INT_MAX 8 (Some (replicate 8 (None : option orte_routed_jobfam_t)))) k = Some None) as He.
  { intros k Hk. unfold PA.opal_pointer_array_get_item. cbn [PA.size PA.addr]. destruct (Z.leb_spec 8 k); [done|]. cbn [mbind option_bind].
    rewrite zget_in by done. apply lookup_replicate_2. lia. }
  split; [|done|by right| |].
  - split; [done|done|done| |done]. split; [cbn; lia|by right].
  - intros f rt. rewrite lookup_empty. split; [done|]. intros (i & j & Hi & E & _). by rewrite He in E.
  - intros i i' j j' Hi _ E. by rewrite He in E.
Qed.

Lemma open_table e uri : ∃ a, orte_routed_base_open e uri = Some a ∧
  table a {[ORTE_JOB_FAMILY (jobid (my_name e)) := my_hnp e]} ∧ PA.size a = 8.
Proof.
  pose proof empty_table as Ht. unfold orte_routed_base_open. destruct (PA.opal_pointer_array_init true _ 8 INT_MAX 8) as [a rc] eqn:E0. cbn [fst] in Ht.
  assert (PA.size a = 8) as Hsz by (change a with (a, rc).1; by rewrite <-E0).
  set (j := mk_jobfam _ _ _).
  destruct (add_entry a j (tb_wf _ _ Ht) (tb_max _ _ Ht) ltac:(lia) (tb_block _ _ Ht)) as (a' & i & E & Hnone & Hrep). rewrite E. cbn.
  exists a'. split_and!; [done| |].
  - change {[ORTE_JOB_FAMILY (jobid (my_name e)) := my_hnp e]} with (<[job_family j := route j]> ∅ : gmap Z opal_process_name_t).
    apply (table_put _ _ _ _ _ Ht Hrep).
    + intros k j' Hk Hkj Hs. exfalso. assert ((∅ : gmap Z opal_process_name_t) !! job_family j' = Some (route j')) as E'; [|by rewrite lookup_empty in E'].
      apply (tb_route _ _ Ht). by exists k, j'.
    + intros j' Hj'. by rewrite Hnone in Hj'.
  - assert (PA.number_free a = 8) as Hf by (change a with (a, rc).1; by rewrite <-E0).
    unfold PA.opal_pointer_array_add in E. rewrite Hf in E. cbn [Z.eqb] in E. unfold PA.add_in_free_slot in E.
    destruct (PA.addr a) as [l|]; [|done]. cbn [mbind option_bind] in E. case_match; [done|]. destruct (zget l _); [|done]. cbn [mbind option_bind] in E.
    case_match; [done|]. destruct (zset l _ _); [|done]. cbn in E. by simplify_eq.
Qed.

Definition hnp_env : env_t :=
  mk_env (mk_name 65536 0) (mk_name 65536 0) (mk_name 65536 0) ORTE_PROC_HNP 1 None true false false false 64 (uwrap 32 (-1)).
Definition hnp_state (a : PA.opal_pointer_array_t orte_routed_jobfam_t) : routed_t :=
  mk_routed (mk_name 65536 4294967295) None (mk_name 0 0) 0 [] true a.

(** A tool of family 3 connects. *)
Lemma route_table_refines_witness : ∃ a a', orte_routed_base_open hnp_env None = Some a ∧
  get_route hnp_env (mk_name 196608 0) (hnp_state a) = Some ORTE_NAME_INVALID ∧
  update_route true hnp_env (mk_name 196608 0) (mk_name 196609 4) (hnp_state a) = Some (hnp_state a', ORTE_SUCCESS) ∧
  table a' (<[3 := mk_name 196609 4]> {[1 := mk_name 65536 0]}).
Proof.
  destruct (open_table hnp_env None) as (a & E & Ht & Hsz).
  assert (elsewhere hnp_env (mk_name 196608 0)) as He by (by split).
  destruct (route_table_refines true hnp_env (hnp_state a) _ (mk_name 196608 0) (mk_name 196609 4) He Ht) as (H1 & _ & (a' & H2 & H3) & _);
    [cbn; lia|done|]. exists a, a'. done.
Defined.

End RouteTable.
