(* ===== verification/Diag.v ===== *)
(** * Diagnostics (orcm/mca/diag, orcm/tools/octl/diag.c)

    A tool asks the daemons of some nodes to run a test; a daemon answers at once, runs the
    module of the test on its own thread and sends the results to its aggregator, which has
    the module of the same name record them in the database.

    What the machine answers (processes, memory, the driver of the network card) is given by
    records; the rest is as the source has it.  [None] is undefined behaviour or a tool that
    waits forever. *)

From Stdlib Require Import ZArith Lia Ascii.
From stdpp Require Import prelude numbers strings gmap list sorting.
From S2P Require Import Prelude ModuleSort CString Argv Dss Fields DssValue DssBuffer Sensor OctlSensor SensorSpec.

Local Open Scope Z_scope.

Module Diag.
Import ModuleSort Argv Dss DssValue DssBuffer OctlSensor.

Definition ORCM_SUCCESS : Z := OPAL_SUCCESS.
Definition ORCM_ERROR : Z := OPAL_ERROR.
Definition ORCM_ERR_BAD_PARAM : Z := OPAL_ERR_BAD_PARAM.
Definition ORCM_ERR_SYS_LIMITS_CHILDREN : Z := -119.
Definition ORCM_DIAG_START_COMMAND : Z := 1.
Definition ORCM_DIAG_AGG_COMMAND : Z := 2.

Definition DIAG_MEM_STRESS_TST : Z := 2.
Definition DIAG_MEM_NOTRUN : Z := - 2 ^ 31.
Definition DIAG_CPU_FP_TST : Z := 1.
Definition DIAG_CPU_PRIME_TST : Z := 2.
Definition DIAG_CPU_STRESS_TST : Z := 4.

Definition new_buffer : opal_buffer_t := mk_buf false [] 0 0.

(** [flag & value] as a condition. *)
Definition flagged (flag value : Z) : bool := negb (Z.land flag value =? 0).

(** ** Data *)

(** What is recorded for a test.  A time stands for the structure that [localtime] makes of
    it. *)
Record diag_test_t := mk_test {
  hostname : option cstring;
  diag_type : option cstring;
  diag_subtype : option cstring;
  start_time : Z;
  end_time : Z;
  test_result : option cstring;
}.

(** The functions of a module, [None] or false for NULL: [init] by its result, [log] by what
    it records in the database of a handle, and its result. *)
Record orcm_diag_base_module_t := mk_diag_module {
  init_fn : option Z;
  calibrate_fn : bool;
  log_fn : option (Z → opal_buffer_t → option (list diag_test_t * Z));
  run_fn : bool;
}.

(** A component with what its query returns: the result, the module and the priority. *)
Record diag_component_t := mk_diag_component {
  mca_component_name : cstring;
  mca_query_component : option (Z * option orcm_diag_base_module_t * Z);
}.

Record orcm_diag_active_module_t := mk_diag_active {
  pri : Z;
  module : orcm_diag_base_module_t;
  component : diag_component_t;
}.

(** With the static variables of the files of the base. *)
Record orcm_diag_base_t := mk_diag_base {
  ev_base : bool;
  modules : list orcm_diag_active_module_t;
  dbhandle : Z;
  dbhandle_requested : bool;
  selected : bool;
  recv_issued : bool;
}.

Record orcm_diag_info_t := mk_diag_info {
  info_component : option cstring;
  want_result : bool;
  options : list opal_value_t;
}.

Definition set_modules (l : list orcm_diag_active_module_t) (st : orcm_diag_base_t) : orcm_diag_base_t :=
  mk_diag_base (ev_base st) l (dbhandle st) (dbhandle_requested st) true (recv_issued st).

(** ** The framework (diag_base_frame.c, diag_base_select.c) *)

Definition orcm_diag_base_comm_start (st : orcm_diag_base_t) : orcm_diag_base_t * Z :=
  (mk_diag_base (ev_base st) (modules st) (dbhandle st) (dbhandle_requested st) (selected st) true, ORCM_SUCCESS).

Definition orcm_diag_base_comm_stop (st : orcm_diag_base_t) : orcm_diag_base_t * Z :=
  (mk_diag_base (ev_base st) (modules st) (dbhandle st) (dbhandle_requested st) (selected st) false, ORCM_SUCCESS).

(** [components] is the result of opening the components, [thread] whether the thread was
    started. *)
Definition orcm_diag_base_open (components : Z) (thread aggregator : bool) (st : orcm_diag_base_t) : orcm_diag_base_t * Z :=
  let st := mk_diag_base (ev_base st) [] (-1) false (selected st) (recv_issued st) in
  if negb (components =? OPAL_SUCCESS) then (st, components) else
  if negb thread then (mk_diag_base false [] (-1) false (selected st) (recv_issued st), OPAL_ERR_OUT_OF_RESOURCE) else
  let st := mk_diag_base true [] (-1) false (selected st) (recv_issued st) in
  let '(st, rc) := orcm_diag_base_comm_start st in
  (if negb (dbhandle_requested st) && aggregator
   then mk_diag_base (ev_base st) (modules st) (dbhandle st) true (selected st) (recv_issued st) else st, rc).

(** [components] is the result of closing the components. *)
Definition orcm_diag_base_close (components : Z) (st : orcm_diag_base_t) : orcm_diag_base_t * Z :=
  let '(st, _) := orcm_diag_base_comm_stop st in
  (mk_diag_base false [] (dbhandle st) (dbhandle_requested st) (selected st) (recv_issued st), components).

Definition db_open_cb (handle status : Z) (st : orcm_diag_base_t) : orcm_diag_base_t :=
  if status =? 0
  then mk_diag_base (ev_base st) (modules st) handle (dbhandle_requested st) (selected st) (recv_issued st) else st.

(** The module of a component that answers and comes up. *)
Definition candidate (c : diag_component_t) : option orcm_diag_active_module_t :=
  '(rc, m, priority) ← mca_query_component c;
  if negb (rc =? OPAL_SUCCESS) then None else
  m ← m;
  match init_fn m with
  | Some rc => if negb (rc =? ORCM_SUCCESS) then None else Some (mk_diag_active priority m c)
  | None => Some (mk_diag_active priority m c)
  end.

(** Before the first module of a lower priority, or at the end. *)
Fixpoint insert_module (m : orcm_diag_active_module_t) (l : list orcm_diag_active_module_t) : list orcm_diag_active_module_t :=
  match l with
  | [] => [m]
  | a :: rest => if pri a <? pri m then m :: a :: rest else a :: insert_module m rest
  end.

Fixpoint select_loop (components : list diag_component_t) (l : list orcm_diag_active_module_t) : list orcm_diag_active_module_t :=
  match components with
  | [] => l
  | c :: rest => select_loop rest (match candidate c with Some m => insert_module m l | None => l end)
  end.

Definition orcm_diag_base_select (components : list diag_component_t) (st : orcm_diag_base_t) : orcm_diag_base_t * Z :=
  if selected st then (st, OPAL_SUCCESS) else (set_modules (select_loop components (modules st)) st, OPAL_SUCCESS).

(** ** Calls of modules (diag_base_fns.c) *)

(** The components that are calibrated. *)
Definition orcm_diag_base_calibrate (st : orcm_diag_base_t) : list cstring :=
  (λ m, mca_component_name (component m)) <$> filter (λ m, calibrate_fn (module m) = true) (modules st).

Fixpoint find_module (name : cstring) (l : list orcm_diag_active_module_t) : option orcm_diag_active_module_t :=
  match l with
  | [] => None
  | m :: rest => if strcmp name (mca_component_name (component m)) =? 0 then Some m else find_module name rest
  end.

(** The module whose event is made active, if any.  With modules, a component that is NULL is
    read. *)
Definition orcm_diag_base_activate (info : orcm_diag_info_t) (st : orcm_diag_base_t)
    : option (option (orcm_diag_active_module_t * orcm_diag_info_t)) :=
  match modules st with
  | [] => Some None
  | l =>
    name ← info_component info;
    Some (match find_module name l with
          | Some m => if run_fn (module m) then Some (m, info) else None
          | None => None
          end)
  end.

Definition orcm_diag_base_log (dname : option cstring) (buf : opal_buffer_t) (st : orcm_diag_base_t) : option (list diag_test_t) :=
  match modules st, dname with
  | [], _ | _, None => Some []
  | l, Some name =>
    if dbhandle st <? 0 then Some [] else
    match find_module name l with
    | Some m => match log_fn (module m) with Some f => '(rows, _) ← f (dbhandle st) buf; Some rows | None => Some [] end
    | None => Some []
    end
  end.

(** ** Messages (diag_base_recv.c) *)

Section recv.
Context `{FloatText} `{DoubleText}.

(** There is room for one pointer to an option: more are written past it. *)
Definition unpack_options (numopts : Z) : M (list opal_value_t) := λ b,
  '(b, (rc, _, vals)) ← opal_dss_unpack t_value numopts b;
  if rc =? OPAL_SUCCESS then if (1 <? length vals)%nat then None else Some (b, inr vals)
  else if 1 <? numopts then None else Some (b, inl rc).

Definition read_start : M orcm_diag_info_t :=
  component ← unpack1 t_string;
  want_result ← unpack1 t_bool;
  numopts ← unpack1 t_int;
  options ← (if 0 <? numopts then unpack_options numopts else mret []);
  mret (mk_diag_info component want_result options).

(** What the receiver does: answers to the sender, a module that is started, tests that are
    recorded. *)
Record effects := mk_effects {
  answers : list opal_buffer_t;
  started : option (orcm_diag_active_module_t * orcm_diag_info_t);
  recorded : list diag_test_t;
}.

Definition nothing : effects := mk_effects [] None [].

(** [send_rc] is the result of sending the answer. *)
Definition orcm_diag_base_recv (send_rc : Z) (buffer : opal_buffer_t) (st : orcm_diag_base_t) : option effects :=
  '(buffer, r) ← unpack1 t_uint8 buffer;
  match r with
  | inl _ => Some nothing
  | inr command =>
    if command =? ORCM_DIAG_START_COMMAND then
      '(_, r) ← read_start buffer;
      match r with
      | inl _ => Some nothing
      | inr info =>
        if want_result info then s ← orcm_diag_base_activate info st; Some (mk_effects [] s []) else
        '(ans, r) ← opal_dss_pack t_int [ORCM_SUCCESS] new_buffer;
        match r with
        | inl _ => Some nothing
        | inr _ =>
          if negb (send_rc =? OPAL_SUCCESS) then Some nothing else
          s ← orcm_diag_base_activate info st; Some (mk_effects [ans] s [])
        end
      end
    else if command =? ORCM_DIAG_AGG_COMMAND then
      '(buffer, r) ← unpack1 t_string buffer;
      match r with
      | inl _ => Some nothing
      | inr dname => rows ← orcm_diag_base_log dname buffer st; Some (mk_effects [] None rows)
      end
    else Some nothing
  end.
End recv.

(** ** Results *)

(** [localtime] twice: both pointers are to its one structure. *)
Definition local_times (start end_ : Z) : Z * Z :=
  let tmbuf := start in
  let tmbuf := end_ in
  (tmbuf, tmbuf).

(** [record_diag_test], when there is a database. *)
Definition record_test (handle : Z) (node type subtype : option cstring) (start end_ : Z) (result : option cstring)
    : list diag_test_t :=
  if 0 <=? handle
  then let '(s, e) := local_times start end_ in [mk_test node type subtype s e result] else [].

Definition verdict (failed : bool) : option cstring := Some (lit (if failed then "FAIL" else "PASS")).

(** The head of every message of results. *)
Definition pack_head (name : string) (start now : Z) (nodename : option cstring) : M unit :=
  _ ← opal_dss_pack t_uint8 [ORCM_DIAG_AGG_COMMAND];
  _ ← opal_dss_pack t_string [Some (lit name)];
  _ ← opal_dss_pack t_time [start];
  _ ← opal_dss_pack t_time [now];
  opal_dss_pack t_string [nodename].

(** The message that is sent; a buffer that could not be packed is destructed as if the
    pointer to it were the object. *)
Definition message (p : M unit) : option opal_buffer_t :=
  '(data, r) ← p new_buffer;
  match r with inl _ => None | inr _ => Some data end.

Definition unpack_head : M (Z * Z * option cstring) :=
  start ← unpack1 t_time;
  end_ ← unpack1 t_time;
  nodename ← unpack1 t_string;
  mret (start, end_, nodename).

(** ** cputest *)

Definition read_cpu : M (Z * Z * option cstring * Z) :=
  h ← unpack_head;
  r ← unpack1 t_int;
  mret (h, r).

Definition cputest_log (handle : Z) (buf : opal_buffer_t) : option (list diag_test_t * Z) :=
  '(_, r) ← read_cpu buf;
  match r with
  | inl rc => Some ([], rc)
  | inr (start, end_, nodename, diag_result) =>
    let record subtype flag :=
      record_test handle nodename (Some (lit "cpu")) (Some (lit subtype)) start end_ (verdict (flagged flag diag_result)) in
    Some (record "floating point" DIAG_CPU_FP_TST ++ record "prime number" DIAG_CPU_PRIME_TST ++
          record "stress test" DIAG_CPU_STRESS_TST, ORCM_SUCCESS)
  end.

(** How [wait] returns: with no child, with one that exited, was killed by a signal, or
    otherwise. *)
Inductive wait_t := W_none | W_exited (code : Z) | W_signaled (signal : Z) | W_other.

Definition SIGUSR1 : Z := 10.
Definition SIGALRM : Z := 14.

(** [products] are the two products of the floating point unit, cast to double; [forks] and
    [waits] are what the calls return, the first for each number of processes left. *)
Record cpu_machine := mk_cpu_machine {
  products : Z * Z;
  nprocs : nat;
  clock : Z;
  forks : nat → Z;
  waits : nat → wait_t;
}.

Definition cpu_fp_test (m : cpu_machine) : Z := if fst (products m) =? snd (products m) then 0 else 1.

Definition cpu_prime_gen_test : Z := ORCM_SUCCESS.

(** The number of children, or the error. *)
Fixpoint fork_loop (forks : nat → Z) (fork_num : nat) (child_num : nat) : Z + nat :=
  match fork_num with
  | O => inr child_num
  | S n => if forks fork_num =? -1 then inl ORCM_ERR_SYS_LIMITS_CHILDREN else fork_loop forks n (S child_num)
  end.

(** Whether the way a child ended counts as a failure, and whether the group is then sent a
    signal. *)
Definition child_failed (w : wait_t) : bool * bool :=
  match w with
  | W_exited code => if code =? 0 then (false, false) else (true, true)
  | W_signaled s => if s =? SIGALRM then (false, false) else if s =? SIGUSR1 then (false, false) else (true, true)
  | W_other => (true, false)
  | W_none => (false, false)
  end.

(** The result and the number of signals to the group; a [wait] without a child ends it. *)
Fixpoint wait_loop (waits : nat → wait_t) (i child_num : nat) (retval : Z) (kills : nat) : Z * nat :=
  match child_num with
  | O => (retval, kills)
  | S n =>
    match waits i with
    | W_none => (retval, kills)
    | w => let '(failed, kill) := child_failed w in
           wait_loop waits (S i) n (if failed then retval + 1 else retval) (if kill then S kills else kills)
    end
  end.

Definition cpu_stress_test (m : cpu_machine) : Z * nat :=
  if clock m =? -1 then (ORCM_ERROR, 0%nat) else
  match fork_loop (forks m) (nprocs m) 0 with
  | inl rc => (rc, 0%nat)
  | inr child_num => wait_loop (waits m) 0 child_num 0 0
  end.

Definition cpu_diag_ret (m : cpu_machine) : Z :=
  let r := 0 in
  let r := if cpu_fp_test m =? 0 then r else Z.lor r DIAG_CPU_FP_TST in
  let r := if cpu_prime_gen_test =? 0 then r else Z.lor r DIAG_CPU_PRIME_TST in
  if fst (cpu_stress_test m) =? 0 then r else Z.lor r DIAG_CPU_STRESS_TST.

Definition cputest_run (m : cpu_machine) (start now : Z) (nodename : option cstring) : option opal_buffer_t :=
  message (_ ← pack_head "cputest" start now nodename; opal_dss_pack t_int [cpu_diag_ret m]).

(** ** memtest *)

Definition read_mem : M (Z * Z * option cstring * option cstring * option cstring * option cstring) :=
  h ← unpack_head;
  type ← unpack1 t_string;
  subtype ← unpack1 t_string;
  result ← unpack1 t_string;
  mret (h, type, subtype, result).

Definition memtest_log (handle : Z) (buf : opal_buffer_t) : option (list diag_test_t * Z) :=
  '(_, r) ← read_mem buf;
  Some (match r with
        | inl rc => ([], rc)
        | inr (start, end_, nodename, type, subtype, result) =>
          (record_test handle nodename type subtype start end_ result, ORCM_SUCCESS)
        end).

(** The random numbers of the pattern: one step on the four words of the state. *)
Record xorshift_t := mk_xorshift { xs_x : Z; xs_y : Z; xs_z : Z; xs_w : Z }.

Definition seed : xorshift_t := mk_xorshift 123456789 362436069 521288629 88675123.

Definition xorshift (s : xorshift_t) : xorshift_t :=
  let t := Z.lxor (xs_x s) (uwrap 32 (Z.shiftl (xs_x s) 11)) in
  mk_xorshift (xs_y s) (xs_z s) (xs_w s)
    (Z.lxor (Z.lxor (xs_w s) (Z.shiftr (xs_w s) 19)) (Z.lxor t (Z.shiftr t 8))).

(** [hold a v] is what word [a] of the memory gives back after [v] was stored in it. *)
Notation memory := (gmap Z Z).

Fixpoint write_loop (myaddr : Z) (n : nat) (s : xorshift_t) (mem : memory) : memory :=
  match n with
  | O => mem
  | S n => let s := xorshift s in write_loop (myaddr + 1) n s (<[myaddr := xs_w s]> mem)
  end.

(** Whether a word differs; a word that was never stored is not read. *)
Fixpoint check_loop (hold : Z → Z → Z) (myaddr : Z) (n : nat) (s : xorshift_t) (mem : memory) (bad : bool) : option bool :=
  match n with
  | O => Some bad
  | S n =>
    let s := xorshift s in
    v ← mem !! myaddr;
    check_loop hold (myaddr + 1) n s mem (bad || negb (xs_w s =? hold myaddr v))
  end.

(** The part of thread [pos]: where it starts and how many words it has. *)
Definition thread_part (size len pos : Z) : Z * Z :=
  let mysize := uwrap 64 (size - pos * len) in
  (pos * len, if len <? mysize then len else mysize).

(** A part that does not lie within the memory that is mapped is undefined. *)
Definition memcheck_thread (hold : Z → Z → Z) (size len pos : Z) (mem : memory) (bad : bool) : option (memory * bool) :=
  let '(myaddr, mysize) := thread_part size len pos in
  if size <? myaddr + mysize then None else
  let mem := write_loop myaddr (Z.to_nat mysize) seed mem in
  bad ← check_loop hold myaddr (Z.to_nat mysize) seed mem bad;
  Some (mem, bad).

(** The words of a thread, a multiple of 16. *)
Definition thread_words (n size : Z) : Z := Z.land ((size + n - 1) / n + 15) (Z.lnot 15).

(** The parts do not meet, so that the threads may run one after the other: those that are
    created, and then the one of the caller. *)
Fixpoint run_threads (hold : Z → Z → Z) (size len : Z) (l : list nat) (mem : memory) (bad : bool) : option (memory * bool) :=
  match l with
  | [] => Some (mem, bad)
  | pos :: rest => '(mem, bad) ← memcheck_thread hold size len (Z.of_nat pos) mem bad; run_threads hold size len rest mem bad
  end.

(** [allocated] is whether there is memory for the table of the threads, and [created i]
    whether thread [i] could be created.  What [pthread_create] returns is not looked at: the
    join of a thread that was not created is of a handle that was never set. *)
Definition memcheck (hold : Z → Z → Z) (n : nat) (allocated : bool) (created : nat → bool) (size : Z) (mem : memory)
    (mem_diag_ret : Z) : option (memory * Z) :=
  if negb allocated then Some (mem, mem_diag_ret) else
  '(mem, bad) ← run_threads hold size (thread_words (Z.of_nat n) size)
    (List.filter created (seq 1 (n - 1)) ++ [0%nat]) mem false;
  if negb (forallb created (seq 1 (n - 1))) then None else
  Some (mem, if bad : bool then Z.lor mem_diag_ret DIAG_MEM_STRESS_TST else mem_diag_ret).

(** The machine: its free memory, whether the limits can be read and raised, the sizes that
    can be mapped, its processors, whether there is memory for the table of the threads, which
    threads can be created, and its memory. *)
Record mem_machine := mk_mem_machine {
  freeram : Z;
  getrlimit_ok : bool;
  setrlimit_ok : bool;
  mmap_ok : Z → bool;
  mem_nprocs : nat;
  threads_ok : bool;
  thread_ok : nat → bool;
  hold : Z → Z → Z;
}.

Definition NPAGE_SIZE : Z := 4096.

(** The size that was mapped, or none. *)
Fixpoint map_loop (fuel : nat) (mmap_ok : Z → bool) (size : Z) : option (option Z) :=
  match fuel with
  | O => None
  | S fuel =>
    if mmap_ok size then Some (if size =? 0 then None else Some size) else
    let size := uwrap 64 (size - NPAGE_SIZE) in
    if size =? 0 then Some None else map_loop fuel mmap_ok size
  end.

(** The new value of the variable [mem_diag_ret] of the file. *)
Definition mem_test (fuel : nat) (m : mem_machine) (mem_diag_ret : Z) : option Z :=
  let size := uwrap 64 (freeram m - Z.shiftl 128 20) in
  let notrun := Z.lor mem_diag_ret DIAG_MEM_NOTRUN in
  if negb (getrlimit_ok m) then Some notrun else
  if negb (setrlimit_ok m) then Some notrun else
  mapped ← map_loop fuel (mmap_ok m) size;
  match mapped with
  | None => Some notrun
  | Some size => '(_, ret) ← memcheck (hold m) (mem_nprocs m) (threads_ok m) (thread_ok m) (size / 4) ∅ ORCM_SUCCESS; Some ret
  end.

Definition mem_result (mem_diag_ret : Z) : string :=
  if flagged mem_diag_ret DIAG_MEM_NOTRUN then "NOTRUN" else if negb (mem_diag_ret =? ORCM_SUCCESS) then "FAIL" else "PASS".

Definition memtest_run (fuel : nat) (m : mem_machine) (start now : Z) (nodename : option cstring) (mem_diag_ret : Z)
    : option (Z * opal_buffer_t) :=
  ret ← mem_test fuel m mem_diag_ret;
  data ← message (_ ← pack_head "memtest" start now nodename;
                  _ ← opal_dss_pack t_string [Some (lit "memory")];
                  _ ← opal_dss_pack t_string [Some (lit "stress test")];
                  opal_dss_pack t_string [Some (lit (mem_result ret))]);
  Some (ret, data).

(** ** ethtest *)

Definition read_eth : M (Z * Z * option cstring * option cstring * Z) :=
  h ← unpack_head;
  result ← unpack1 t_string;
  result_num ← unpack1 t_int;
  mret (h, result, result_num).

Definition read_detail : M (option cstring * Z) :=
  subtype ← unpack1 t_string;
  result ← unpack1 t_int;
  mret (subtype, result).

(** [n] turns of the loop over the details: what is recorded, and the error that ends it. *)
Fixpoint detail_loop (handle : Z) (nodename : option cstring) (start end_ : Z) (n : nat) (buf : opal_buffer_t)
    : option (list diag_test_t * option Z) :=
  match n with
  | O => Some ([], None)
  | S n =>
    '(buf, r) ← read_detail buf;
    match r with
    | inl rc => Some ([], Some rc)
    | inr (subtype, result) =>
      '(rows, rc) ← detail_loop handle nodename start end_ n buf;
      Some (record_test handle nodename (Some (lit "ethernet")) subtype start end_ (verdict (negb (result =? 0))) ++ rows, rc)
    end
  end.

(** A count below 0 is counted down past the smallest integer, unless the details end
    before. *)
Definition details (handle : Z) (nodename : option cstring) (start end_ result_num : Z) (buf : opal_buffer_t)
    : option (list diag_test_t * Z) :=
  '(rows, rc) ← detail_loop handle nodename start end_
                  (Z.to_nat (if 0 <=? result_num then result_num else result_num - INT_MIN)) buf;
  match rc with
  | Some rc => Some (rows, rc)
  | None => if 0 <=? result_num then Some (rows, ORCM_SUCCESS) else None
  end.

Definition ethtest_log (handle : Z) (buf : opal_buffer_t) : option (list diag_test_t * Z) :=
  '(buf, r) ← read_eth buf;
  match r with
  | inl rc => Some ([], rc)
  | inr (start, end_, nodename, result, result_num) =>
    let first := record_test handle nodename (Some (lit "ethernet")) (Some (lit "all")) start end_ result in
    '(rows, rc) ← details handle nodename start end_ result_num buf; Some (first ++ rows, rc)
  end.

(** The driver: whether there is a socket, the number of tests it announces, whether there is
    memory, the names of the tests, fields of 32 characters, and the flags and results of the
    tests. *)
Record eth_machine := mk_eth_machine {
  socket_ok : bool;
  drvinfo : option Z;
  strings_ok : bool;
  gstrings : option (list cstring);
  results_ok : bool;
  eth_test : option (Z * list Z);
}.

Definition ETH_TEST_FL_FAILED : Z := 2.
Definition ETH_GSTRING_LEN : nat := 32.

(** The name of a test: its last character is overwritten. *)
Definition test_name (s : cstring) : cstring := c_text (take (ETH_GSTRING_LEN - 1) s).

(** The overall result and the details, a name and the low half of a 64-bit result each.
    Without a result to free, or names, the pointers that are freed are not initialized; more
    names than announced do not fit. *)
Definition eth_results (m : eth_machine) : option (string * list (cstring * Z)) :=
  if negb (socket_ok m) then None else
  strset_len ← drvinfo m;
  if negb (strings_ok m) then None else
  names ← gstrings m;
  if strset_len <? Z.of_nat (length names) then None else
  if negb (results_ok m) then Some ("NOTRUN"%string, []) else
  Some (match eth_test m with
        | None => ("NOTRUN"%string, [])
        | Some (flags, data) =>
          if flagged flags ETH_TEST_FL_FAILED then ("FAIL"%string, [])
          else ("PASS"%string, imap (λ i s, (test_name s, to_int (default 0 (data !! i)))) names)
        end).

Definition pack_detail (d : cstring * Z) : M unit :=
  _ ← opal_dss_pack t_string [Some (fst d)];
  opal_dss_pack t_int [snd d].

Definition ethtest_run (m : eth_machine) (start now : Z) (nodename : option cstring) : option opal_buffer_t :=
  '(result, l) ← eth_results m;
  message (_ ← pack_head "ethtest" start now nodename;
           _ ← opal_dss_pack t_string [Some (lit result)];
           _ ← opal_dss_pack t_int [to_int (Z.of_nat (length l))];
           pack_each pack_detail l).

(** ** The modules and their components *)

Definition orcm_diag_cputest_module : orcm_diag_base_module_t := mk_diag_module (Some ORCM_SUCCESS) false (Some cputest_log) true.
Definition orcm_diag_memtest_module : orcm_diag_base_module_t := mk_diag_module (Some ORCM_SUCCESS) false (Some memtest_log) true.
Definition orcm_diag_ethtest_module : orcm_diag_base_module_t := mk_diag_module (Some ORCM_SUCCESS) false (Some ethtest_log) true.

Definition mca_diag_cputest_component : diag_component_t :=
  mk_diag_component (lit "cputest") (Some (ORCM_SUCCESS, Some orcm_diag_cputest_module, 50)).
Definition mca_diag_memtest_component : diag_component_t :=
  mk_diag_component (lit "memtest") (Some (ORCM_SUCCESS, Some orcm_diag_memtest_module, 50)).
Definition mca_diag_ethtest_component : diag_component_t :=
  mk_diag_component (lit "ethtest") (Some (ORCM_SUCCESS, Some orcm_diag_ethtest_module, 50)).

(** ** The commands of octl (diag.c) *)

Section octl.
Context {W : Type} (exchange : cstring → opal_buffer_t → W → option (W * (Z + opal_buffer_t))).

Definition pack_start (comp : string) : M unit :=
  _ ← opal_dss_pack t_uint8 [ORCM_DIAG_START_COMMAND];
  _ ← opal_dss_pack t_string [Some (lit comp)];
  _ ← opal_dss_pack t_bool [false];
  opal_dss_pack t_int [0].

(** The three commands differ in the component. *)
Definition start_test (comp : string) (argv : list cstring) (w : W) : option (W * (Z + list bool)) :=
  if negb (opal_argv_count (Some argv) =? 3) then Some (w, inl ORCM_ERR_BAD_PARAM) else
  arg ← argv !! 2%nat; nodelist ← nodes_of arg;
  match nodelist with
  | None => Some (w, inl ORCM_ERR_BAD_PARAM)
  | Some nodelist => send_request (pack_start comp) (λ buf, set_loop exchange nodelist buf new_buffer) w
  end.

Definition orcm_octl_diag_cpu : list cstring → W → option (W * (Z + list bool)) := start_test "cputest".
Definition orcm_octl_diag_eth : list cstring → W → option (W * (Z + list bool)) := start_test "ethtest".
Definition orcm_octl_diag_mem : list cstring → W → option (W * (Z + list bool)) := start_test "memtest".
End octl.

End Diag.

Module DiagSpec.
Import ModuleSort Argv Dss Fields DssValue DssBuffer OctlSensor SensorSpec Diag.

(** ** Selection *)

Lemma insert_perm m l : insert_module m l ≡ₚ m :: l.
Proof. induction l as [|a l IH]; [done|]. cbn. destruct (_ <? _); [done|]. rewrite IH. apply Permutation_swap. Qed.

Lemma insert_sorted m l : StronglySorted (λ a b, pri b ≤ pri a) l → StronglySorted (λ a b, pri b ≤ pri a) (insert_module m l).
Proof.
  induction 1 as [|a l Hs IH Ha]; [repeat constructor|]. cbn. destruct (Z.ltb_spec (pri a) (pri m)).
  - repeat (constructor; [done || by constructor|]). constructor; [lia|]. eapply Forall_impl; [exact Ha|]. cbn. lia.
  - constructor; [done|]. rewrite insert_perm. by constructor.
Qed.

Lemma insert_stable m l p : StronglySorted (λ a b, pri b ≤ pri a) l →
  filter (λ x, pri x = p) (insert_module m l) = filter (λ x, pri x = p) (l ++ [m]).
Proof.
  induction 1 as [|a l Hs IH Ha]; [done|]. cbn [insert_module]. destruct (Z.ltb_spec (pri a) (pri m)).
  - assert (pri m = p → filter (λ x, pri x = p) (a :: l) = []) as Hnone.
    { intros <-. rewrite filter_cons_False by lia. clear -Ha H. induction Ha as [|x l Hx _ IH]; [done|]. rewrite filter_cons_False by lia. done. }
    rewrite filter_app, filter_cons. destruct (decide (pri m = p)) as [Hm|Hm].
    + rewrite Hnone, filter_cons_True by done. done.
    + rewrite (filter_cons_False _ m []) by done. by rewrite app_nil_r.
  - change ((a :: l) ++ [m]) with (a :: (l ++ [m])). by rewrite !filter_cons, IH.
Qed.

Lemma insert_sorted_of m l res : sorted_of pri l res → sorted_of pri (l ++ [m]) (insert_module m res).
Proof.
  intros [Hp Hs Hf]. split; [|by apply insert_sorted|].
  - by rewrite insert_perm, Hp, Permutation_cons_append.
  - intros p. by rewrite insert_stable, !filter_app, Hf.
Qed.

Lemma select_loop_spec cs : ∀ l res, sorted_of pri l res → sorted_of pri (l ++ omap candidate cs) (select_loop cs res).
Proof.
  induction cs as [|c cs IH]; intros l res Hres; cbn [omap list_omap select_loop]; [by rewrite app_nil_r|].
  destruct (candidate c) as [m|]; [|by apply IH].
  rewrite cons_middle, app_assoc. by apply IH, insert_sorted_of.
Qed.

(** The modules of the diagnostics.  Of the components that answer the query and come
    up, the modules are all selected, by falling priority and at one priority in the order of
    the components; selecting again changes nothing. *)
Theorem diag_selection components st : selected st = false → modules st = [] →
  let st' := (orcm_diag_base_select components st).1 in
  sorted_of pri (omap candidate components) (modules st') ∧
  ∀ cs, orcm_diag_base_select cs st' = (st', OPAL_SUCCESS).
Proof.
  intros Hs Hm. unfold orcm_diag_base_select. rewrite Hs, Hm. cbn. split; [|done].
  apply (select_loop_spec components [] []). by split; [| constructor |].
Qed.

(** Once closed, the framework has no modules anymore, even if it is opened and selects
    again: the variable that says that there was a selection is never reset. *)
Theorem reopened_without_modules st components_rc open_rc thread aggregator components : selected st = true →
  modules (orcm_diag_base_select components
    (orcm_diag_base_open open_rc thread aggregator (orcm_diag_base_close components_rc st).1).1).1 = [].
Proof.
  intros Hs. unfold orcm_diag_base_open, orcm_diag_base_close. cbn.
  destruct (negb _); [unfold orcm_diag_base_select; cbn; by rewrite Hs|].
  destruct (negb _); [unfold orcm_diag_base_select; cbn; by rewrite Hs|]. unfold orcm_diag_base_select.
  destruct aggregator; cbn; by rewrite Hs.
Qed.

(** ** The test of the memory *)

(** The words of the pattern from the state [s] on. *)
Definition word (s : xorshift_t) (k : nat) : Z := xs_w (Nat.iter (S k) xorshift s).

Lemma word_S s k : word (xorshift s) k = word s (S k).
Proof. unfold word. by rewrite (Nat.iter_succ_r (S k)). Qed.

Lemma write_loop_out n : ∀ a s mem b, b < a ∨ a + Z.of_nat n ≤ b → write_loop a n s mem !! b = mem !! b.
Proof.
  induction n as [|n IH]; intros a s mem b Hb; cbn [write_loop]; [done|].
  rewrite IH by lia. by rewrite lookup_insert_ne by lia.
Qed.

Lemma write_loop_in n : ∀ a s mem k, (k < n)%nat → write_loop a n s mem !! (a + Z.of_nat k) = Some (word s k).
Proof.
  induction n as [|n IH]; intros a s mem k Hk; [lia|]. cbn [write_loop]. destruct k as [|k].
  - rewrite write_loop_out by lia. by rewrite Z.add_0_r, lookup_insert_eq.
  - replace (a + Z.of_nat (S k)) with (a + 1 + Z.of_nat k) by lia. rewrite IH by lia. by rewrite word_S.
Qed.

(** The word [k] of a part that starts at [a] is not given back. *)
Definition lost (hold : Z → Z → Z) (a : Z) (k : nat) : Prop := hold (a + Z.of_nat k) (word seed k) ≠ word seed k.

Lemma check_loop_spec hold n : ∀ a s mem bad,
  (∀ k, (k < n)%nat → mem !! (a + Z.of_nat k) = Some (word s k)) →
  ∃ b, check_loop hold a n s mem bad = Some b ∧
    (b = true ↔ bad = true ∨ ∃ k, (k < n)%nat ∧ hold (a + Z.of_nat k) (word s k) ≠ word s k).
Proof.
  induction n as [|n IH]; intros a s mem bad Hm; cbn [check_loop].
  - exists bad. split; [done|]. split; [by left|]. intros [?|(k & ? & ?)]; [done|lia].
  - pose proof (Hm 0%nat ltac:(lia)) as H0. change (Z.of_nat 0) with 0 in H0. rewrite Z.add_0_r in H0. rewrite H0. cbn [mbind option_bind].
    destruct (IH (a + 1) (xorshift s) mem (bad || negb (xs_w (xorshift s) =? hold a (word s 0)))) as (b & E & Hb).
    { intros k Hk. replace (a + 1 + Z.of_nat k) with (a + Z.of_nat (S k)) by lia. rewrite word_S. apply Hm. lia. }
    exists b. split; [exact E|]. rewrite Hb, orb_true_iff, negb_true_iff, Z.eqb_neq. change (xs_w (xorshift s)) with (word s 0). clear -n.
    assert (∀ k, a + 1 + Z.of_nat k = a + Z.of_nat (S k)) as Ek by lia. split.
    + intros [[?|Hw]|(k & Hk & Hl)]; [by left| |].
      * right. exists 0%nat. rewrite Z.add_0_r. split; [lia|]. intros E. apply Hw. by rewrite E.
      * right. exists (S k). rewrite Ek, word_S in Hl. split; [lia|done].
    + intros [?|([|k] & Hk & Hl)]; [by left; left| |].
      * left. right. rewrite Z.add_0_r in Hl. intros E. apply Hl. by rewrite <-E.
      * right. exists k. rewrite Ek, word_S. split; [lia|done].
Qed.

(** The number of words that a thread tests. *)
Definition part_words (size len pos : Z) : Z := Z.min len (size - pos * len).

Lemma thread_part_eq size len pos : 0 ≤ len → pos * len ≤ size < 2 ^ 64 → 0 ≤ pos →
  thread_part size len pos = (pos * len, part_words size len pos).
Proof.
  intros Hl Hp Hpos. unfold thread_part, part_words. f_equal. unfold uwrap. rewrite Z.mod_small by (split; nia).
  destruct (Z.ltb_spec len (size - pos * len)); lia.
Qed.

Lemma memcheck_thread_spec hold size len pos mem bad : 0 ≤ len → pos * len ≤ size < 2 ^ 64 → 0 ≤ pos →
  ∃ mem' b, memcheck_thread hold size len pos mem bad = Some (mem', b) ∧
    (b = true ↔ bad = true ∨ ∃ k, Z.of_nat k < part_words size len pos ∧ lost hold (pos * len) k).
Proof.
  intros Hl Hp Hpos. unfold memcheck_thread. rewrite thread_part_eq by done.
  set (n := part_words size len pos). assert (0 ≤ n ∧ pos * len + n ≤ size) as [Hn Hin] by (unfold n, part_words; lia).
  destruct (Z.ltb_spec size (pos * len + n)); [lia|].
  destruct (check_loop_spec hold (Z.to_nat n) (pos * len) seed (write_loop (pos * len) (Z.to_nat n) seed mem) bad) as (b & E & Hb).
  { intros k Hk. by apply write_loop_in. }
  rewrite E. cbn [mbind option_bind]. eexists _, b. split; [done|]. rewrite Hb. unfold lost.
  split; (intros [?|(k & Hk & ?)]; [by left|right; exists k; split; [lia|done]]).
Qed.

Lemma run_threads_spec hold size len l : 0 ≤ len → size < 2 ^ 64 → (∀ pos, pos ∈ l → Z.of_nat pos * len ≤ size) → ∀ mem bad,
  ∃ mem' b, run_threads hold size len l mem bad = Some (mem', b) ∧
    (b = true ↔ bad = true ∨ ∃ pos k, pos ∈ l ∧ Z.of_nat k < part_words size len (Z.of_nat pos) ∧ lost hold (Z.of_nat pos * len) k).
Proof.
  intros Hl Hs. induction l as [|pos l IH]; intros Hin mem bad; cbn [run_threads].
  - exists mem, bad. split; [done|]. split; [by left|]. intros [?|(pos & k & Hp & _)]; [done|set_solver].
  - destruct (memcheck_thread_spec hold size len (Z.of_nat pos) mem bad) as (m1 & b1 & E1 & Hb1);
      [done|split; [apply Hin; set_solver|done]|lia|].
    rewrite E1. cbn [mbind option_bind]. destruct (IH ltac:(intros; apply Hin; set_solver) m1 b1) as (m2 & b2 & E2 & Hb2).
    exists m2, b2. split; [done|]. rewrite Hb2, Hb1. split.
    + intros [[?|(k & ? & ?)]|(pos' & k & ? & ? & ?)]; [by left|right; exists pos, k; split_and!; [set_solver|done|done]|].
      right. exists pos', k. split_and!; [set_solver|done|done].
    + intros [?|(pos' & k & Hp & ? & ?)]; [by left; left|]. apply elem_of_cons in Hp as [->|Hp].
      * left. right. by exists k.
      * right. by exists pos', k.
Qed.

Lemma thread_words_bounds n size : 0 < n → 0 ≤ size →
  let len := thread_words n size in 0 ≤ len ∧ size ≤ n * len ∧ len ≤ (size + n - 1) / n + 15.
Proof.
  intros Hn Hs. unfold thread_words. set (q := (size + n - 1) / n).
  assert (Z.land (q + 15) (Z.lnot 15) = (q + 15) / 16 * 16) as ->.
  { rewrite <-Z.ldiff_land. change 15 with (Z.ones 4) at 2. rewrite Z.ldiff_ones_r, Z.shiftr_div_pow2, Z.shiftl_mul_pow2 by lia. done. }
  assert (0 ≤ q) as Hq by (apply Z.div_pos; lia).
  assert (size ≤ n * q) as Hnq.
  { unfold q. pose proof (Z.div_mod (size + n - 1) n ltac:(lia)). pose proof (Z.mod_pos_bound (size + n - 1) n ltac:(lia)). lia. }
  pose proof (Z.div_mod (q + 15) 16 ltac:(lia)). pose proof (Z.mod_pos_bound (q + 15) 16 ltac:(lia)). split_and!; nia.
Qed.

(** Enough words for each thread to have a part. *)
Lemma parts_fit n size : 0 < n → 16 * n * n ≤ size → (n - 1) * thread_words n size ≤ size.
Proof.
  intros Hn Hs. destruct (thread_words_bounds n size Hn ltac:(nia)) as (H0 & _ & H2).
  pose proof (Z.div_mod (size + n - 1) n ltac:(lia)) as Hd. pose proof (Z.mod_pos_bound (size + n - 1) n ltac:(lia)) as Hm.
  set (q := (size + n - 1) / n) in *. set (len := thread_words n size) in *.
  assert (n * q ≤ size + n - 1) by lia. assert (16 * n ≤ q) by (apply Z.div_le_lower_bound; nia). nia.
Qed.

(** Word [a] of the memory is given back as it was stored by the thread that tests it. *)
Definition kept (hold : Z → Z → Z) (len a : Z) : Prop :=
  let v := word seed (Z.to_nat (a mod len)) in hold a v = v.

#[export] Instance kept_dec hold len a : Decision (kept hold len a).
Proof. unfold kept. apply _. Defined.

Lemma all_tested hold n size : (0 < n)%nat → 0 ≤ size →
  let len := thread_words (Z.of_nat n) size in
  (∃ pos k, pos ∈ seq 1 (n - 1) ++ [0%nat] ∧ Z.of_nat k < part_words size len (Z.of_nat pos) ∧ lost hold (Z.of_nat pos * len) k) ↔
  ∃ a, 0 ≤ a < size ∧ ¬ kept hold len a.
Proof.
  intros Hn Hs len. destruct (thread_words_bounds (Z.of_nat n) size ltac:(lia) Hs) as (H0 & H1 & _). fold len in H0, H1.
  assert (∀ pos, pos ∈ seq 1 (n - 1) ++ [0%nat] ↔ (pos < n)%nat) as Hpos.
  { intros pos. rewrite elem_of_app, elem_of_seq, list_elem_of_singleton. lia. }
  split.
  - intros (pos & k & Hp & Hk & Hl). unfold part_words in Hk. exists (Z.of_nat pos * len + Z.of_nat k).
    split; [nia|]. unfold kept. rewrite Z.add_comm, Z.mod_add, Z.mod_small, Nat2Z.id by lia. rewrite Z.add_comm. exact Hl.
  - intros (a & Ha & Hk). assert (0 < len) by nia.
    pose proof (Z.div_mod a len ltac:(lia)) as Hd. pose proof (Z.mod_pos_bound a len ltac:(lia)) as Hm.
    assert (0 ≤ a / len < Z.of_nat n) as Hq by (split; [apply Z.div_pos; lia|apply Z.div_lt_upper_bound; lia]).
    exists (Z.to_nat (a / len)), (Z.to_nat (a mod len)). rewrite Hpos, !Z2Nat.id by lia. split_and!; [lia|unfold part_words; lia|].
    unfold lost. rewrite Z2Nat.id by lia. replace (a / len * len + a mod len) with a by lia. exact Hk.
Qed.

(** Every thread but that of the caller can be created. *)
Definition all_created (m : mem_machine) : bool := forallb (thread_ok m) (seq 1 (mem_nprocs m - 1)).

Lemma filter_all {A} (f : A → bool) l : forallb f l = true → List.filter f l = l.
Proof. induction l as [|x l IH]; [done|]. cbn. intros [-> Hl]%andb_prop. by rewrite IH. Qed.

(** A thread that cannot be created. *)
Lemma memcheck_undefined hold n created size mem ret : forallb created (seq 1 (n - 1)) = false →
  memcheck hold n true created size mem ret = None.
Proof. intros Hc. unfold memcheck. rewrite Hc. cbn [negb]. by destruct (run_threads _ _ _ _ _ _) as [[? ?]|]. Qed.

(** The flag is set exactly when a word is lost. *)
Lemma memcheck_spec hold n created size mem ret : forallb created (seq 1 (n - 1)) = true → (0 < n)%nat → 16 * Z.of_nat n * Z.of_nat n ≤ size < 2 ^ 64 →
  ∃ mem' (b : bool), memcheck hold n true created size mem ret = Some (mem', if b then Z.lor ret DIAG_MEM_STRESS_TST else ret) ∧
    (b = true ↔ ∃ a, 0 ≤ a < size ∧ ¬ kept hold (thread_words (Z.of_nat n) size) a).
Proof.
  intros Hc Hn Hs. pose proof (parts_fit (Z.of_nat n) size ltac:(lia) ltac:(lia)) as Hfit.
  destruct (thread_words_bounds (Z.of_nat n) size ltac:(lia) ltac:(lia)) as (H0 & _).
  destruct (run_threads_spec hold size (thread_words (Z.of_nat n) size) (seq 1 (n - 1) ++ [0%nat])) with (mem := mem) (bad := false)
    as (mem' & b & E & Hb); [done|lia| |].
  { intros pos Hp. apply elem_of_app in Hp as [Hp|Hp]; [apply elem_of_seq in Hp|apply list_elem_of_singleton in Hp]; nia. }
  exists mem', b. unfold memcheck. rewrite (filter_all _ _ Hc), Hc. cbn [negb]. rewrite E. cbn [mbind option_bind]. split; [done|]. rewrite Hb, all_tested by lia.
  split; [by intros [?|?]|by right].
Qed.

(** The largest size that can be mapped, in steps of a page. *)
Definition mapped (ok : Z → bool) (size : Z) (r : option Z) : Prop :=
  match r with
  | Some s => ∃ k, 0 ≤ k ∧ s = size - 4096 * k ∧ 0 < s ∧ ok s = true ∧ ∀ j, 0 ≤ j < k → ok (size - 4096 * j) = false
  | None => ∀ j, 0 ≤ j → 0 < size - 4096 * j → ok (size - 4096 * j) = false
  end.

Lemma map_loop_spec ok fuel : ∀ size, 0 < size < 2 ^ 64 → size mod 4096 = 0 → size / 4096 < Z.of_nat fuel →
  ∃ r, map_loop fuel ok size = Some r ∧ mapped ok size r.
Proof.
  induction fuel as [|fuel IH]; intros size Hs Hm Hf; [pose proof (Z.div_pos size 4096); lia|]. cbn [map_loop].
  destruct (ok size) eqn:Ho.
  - destruct (Z.eqb_spec size 0); [lia|]. exists (Some size). split; [done|]. exists 0. split_and!; [lia|lia|lia|done|lia].
  - pose proof (Z.div_mod size 4096 ltac:(lia)) as Hd. unfold NPAGE_SIZE.
    assert (uwrap 64 (size - 4096) = size - 4096) as -> by (unfold uwrap; apply Z.mod_small; lia).
    destruct (Z.eqb_spec (size - 4096) 0) as [E|E].
    + exists None. split; [done|]. intros j Hj Hpos. replace j with 0 by lia. by rewrite Z.mul_0_r, Z.sub_0_r.
    + destruct (IH (size - 4096)) as (r & Er & Hr); [lia| | |].
      { replace (size - 4096) with (size + (-1) * 4096) by lia. by rewrite Z.mod_add. }
      { replace (size - 4096) with (size + (-1) * 4096) by lia. rewrite Z.div_add by lia. lia. }
      exists r. split; [done|]. destruct r as [s|].
      * destruct Hr as (k & Hk & -> & Hpos & Hok & Hall). exists (k + 1). split_and!; [lia|lia|lia|done|].
        intros j Hj. destruct (decide (j = 0)) as [->|]; [by rewrite Z.mul_0_r, Z.sub_0_r|].
        replace (size - 4096 * j) with (size - 4096 - 4096 * (j - 1)) by lia. apply Hall. lia.
      * intros j Hj Hpos. destruct (decide (j = 0)) as [->|]; [by rewrite Z.mul_0_r, Z.sub_0_r|].
        replace (size - 4096 * j) with (size - 4096 - 4096 * (j - 1)) by lia. apply Hr; lia.
Qed.

Lemma notrun_text r : mem_result (Z.lor r DIAG_MEM_NOTRUN) = "NOTRUN"%string.
Proof.
  unfold mem_result, flagged. destruct (Z.eqb_spec (Z.land (Z.lor r DIAG_MEM_NOTRUN) DIAG_MEM_NOTRUN) 0) as [E|]; [|done].
  apply (f_equal (λ z, Z.testbit z 31)) in E. rewrite Z.land_spec, Z.lor_spec, Z.testbit_0_l in E.
  change (Z.testbit DIAG_MEM_NOTRUN 31) with true in E. by rewrite orb_true_r in E.
Qed.

(** C23. The test of the memory.  With free memory of whole pages, of more than what is left
    alone, the mapping ends.  When no size can be mapped, or the limits are refused, the
    result is NOTRUN.  Otherwise the test takes the largest size that can be mapped.  With
    memory for the table of the threads, every thread created, and 16 words for each pair of
    threads, the result is PASS when every word of that size gives back the pattern that was
    stored in it, and FAIL when some word does not.  Without memory for the table nothing is
    tested and the result is PASS; and when a thread cannot be created the behaviour is
    undefined. *)
Theorem memtest_verdict fuel m ret : (0 < mem_nprocs m)%nat →
  let size := freeram m - 2 ^ 27 in 0 < size < 2 ^ 64 → size mod 4096 = 0 → size / 4096 < Z.of_nat fuel →
  ∃ r, mapped (mmap_ok m) size r ∧
  match (if getrlimit_ok m && setrlimit_ok m then r else None) with
  | None => ∃ ret', mem_test fuel m ret = Some ret' ∧ mem_result ret' = "NOTRUN"%string
  | Some s =>
    let n := Z.of_nat (mem_nprocs m) in let len := thread_words n (s / 4) in
    if negb (threads_ok m) then ∃ ret', mem_test fuel m ret = Some ret' ∧ mem_result ret' = "PASS"%string
    else if negb (all_created m) then mem_test fuel m ret = None
    else 16 * n * n ≤ s / 4 →
    ∃ ret', mem_test fuel m ret = Some ret' ∧
      ((mem_result ret' = "PASS"%string ∧ ∀ a, 0 ≤ a < s / 4 → kept (hold m) len a) ∨
       (mem_result ret' = "FAIL"%string ∧ ∃ a, 0 ≤ a < s / 4 ∧ ¬ kept (hold m) len a))
  end.
Proof.
  intros Hn size Hs Hp Hf. destruct (map_loop_spec (mmap_ok m) fuel size Hs Hp Hf) as (r & E & Hr).
  exists r. split; [done|]. unfold mem_test. change (Z.shiftl 128 20) with (2 ^ 27). fold size.
  assert (uwrap 64 size = size) as -> by (unfold uwrap; by rewrite Z.mod_small by lia).
  destruct (getrlimit_ok m); [|eexists; split; [done|apply notrun_text]].
  destruct (setrlimit_ok m); [|eexists; split; [done|apply notrun_text]]. cbn [negb andb]. rewrite E. cbn [mbind option_bind].
  destruct r as [s|]; [|eexists; split; [done|apply notrun_text]].
  set (n := Z.of_nat (mem_nprocs m)). set (len := thread_words n (s / 4)).
  destruct (threads_ok m); cbn [negb]; [|by exists ORCM_SUCCESS].
  destruct (all_created m) eqn:Hc; unfold all_created in Hc; cbn [negb]; [intros Hfit|by rewrite memcheck_undefined].
  assert (s / 4 < 2 ^ 64) by (destruct Hr as (k & ? & -> & _); apply Z.div_lt_upper_bound; lia).
  destruct (memcheck_spec (hold m) (mem_nprocs m) (thread_ok m) (s / 4) ∅ ORCM_SUCCESS Hc Hn) as (mem' & b & Em & Hb); [fold n; lia|].
  rewrite Em. cbn [mbind option_bind]. eexists. split; [done|]. fold n len in Hb. destruct b.
  - right. split; [done|]. by apply Hb.
  - left. split; [done|]. intros a Ha. destruct (decide (kept (hold m) len a)) as [|Hk]; [done|].
    assert (false = true); [apply Hb; by exists a|done].
Qed.

(** A machine whose word 5 is stuck at 0. *)
Definition stuck_machine : mem_machine :=
  mk_mem_machine (2 ^ 27 + 4096) true true (λ s, s =? 4096) 1 true (λ _, true) (λ a v, if a =? 5 then 0 else v).

Lemma memtest_verdict_witness : ∃ ret', mem_test 3 stuck_machine ORCM_SUCCESS = Some ret' ∧ mem_result ret' = "FAIL"%string.
Proof.
  destruct (memtest_verdict 3 stuck_machine ORCM_SUCCESS) as (r & Hr & H);
    [cbn; lia|by split; vm_compute|done|by vm_compute|].
  destruct r as [s|]; [|by specialize (Hr 0 ltac:(lia) ltac:(by vm_compute))].
  destruct Hr as (k & _ & _ & _ & Hok & _). cbn in Hok. apply Z.eqb_eq in Hok as ->.
  destruct H as (ret' & E & [(_ & Hall)|(Hf & _)]); [by vm_compute| |exact (ex_intro _ ret' (conj E Hf))].
  exfalso. assert (hold stuck_machine 5 (word seed 5) = word seed 5) as Hk by (apply (Hall 5); by split; vm_compute).
  by vm_compute in Hk.
Defined.

(** A thread whose part would start behind the end takes a whole part there. *)
Lemma thread_overruns hold size len pos mem bad : 0 < len → 0 ≤ size → size < pos * len → pos * len + len < 2 ^ 64 →
  memcheck_thread hold size len pos mem bad = None.
Proof.
  intros Hl Hs Hp Hb. unfold memcheck_thread, thread_part.
  assert (uwrap 64 (size - pos * len) = size - pos * len + 2 ^ 64) as ->.
  { unfold uwrap. rewrite <-(Z.mod_add _ 1) by lia. apply Z.mod_small. lia. }
  destruct (Z.ltb_spec len (size - pos * len + 2 ^ 64)); [|lia]. cbn. destruct (Z.ltb_spec size (pos * len + len)); [done|lia].
Qed.

(** When the parts of the first threads use up the memory, the last ones write and read behind
    it. *)
Theorem memcheck_overruns hold n created size mem ret pos : (pos < n)%nat → 0 ≤ size →
  let len := thread_words (Z.of_nat n) size in 0 < len → size < Z.of_nat pos * len → Z.of_nat pos * len + len < 2 ^ 64 →
  memcheck hold n true created size mem ret = None.
Proof.
  intros Hpos Hs len Hl Hp Hb. destruct (forallb created (seq 1 (n - 1))) eqn:Hc; [|by apply memcheck_undefined].
  unfold memcheck. rewrite (filter_all _ _ Hc). cbn [negb]. fold len.
  assert (pos ∈ seq 1 (n - 1) ++ [0%nat]) as Hin.
  { rewrite elem_of_app, elem_of_seq. left. destruct pos; lia. }
  assert (∀ mem bad, run_threads hold size len (seq 1 (n - 1) ++ [0%nat]) mem bad = None) as Hrun; [|by rewrite Hrun].
  revert Hin. generalize (seq 1 (n - 1) ++ [0%nat]). intros l Hin. induction l as [|p l IH]; intros m b; [set_solver|]. cbn [run_threads].
  apply elem_of_cons in Hin as [<-|Hin]; [by rewrite thread_overruns by lia|].
  destruct (memcheck_thread hold size len (Z.of_nat p) m b) as [[m' b']|]; [by apply IH|done].
Qed.

(** Eight threads on 100 words. *)
Example eight_threads : memcheck (λ _ v, v) 8 true (λ _, true) 100 ∅ 0 = None.
Proof. apply (memcheck_overruns _ _ _ _ _ _ 7%nat); [lia|lia|vm_compute; reflexivity..]. Qed.

(** Without memory for the table of the threads nothing is tested, and the result is PASS,
    whatever the memory does. *)
Theorem memtest_untested fuel m ret s : getrlimit_ok m = true → setrlimit_ok m = true → threads_ok m = false →
  map_loop fuel (mmap_ok m) (uwrap 64 (freeram m - 2 ^ 27)) = Some (Some s) →
  ∃ ret', mem_test fuel m ret = Some ret' ∧ mem_result ret' = "PASS"%string.
Proof.
  intros Hg Hr Ht Hm. exists ORCM_SUCCESS. unfold mem_test. rewrite Hg, Hr. cbn [negb].
  change (Z.shiftl 128 20) with (2 ^ 27). rewrite Hm. cbn [mbind option_bind]. unfold memcheck. by rewrite Ht.
Qed.

(** ** Results from the node to the database *)

Lemma message_holds p x : packs false p x → ∃ b, message p = Some b ∧ holds b x.
Proof.
  intros Hp. destruct (holds_pack _ _ _ _ holds_new Hp) as (b & E & Hh). exists b. unfold message, new_buffer. by rewrite E.
Qed.

Lemma packs_assoc d (m k l : M unit) x : packs d (_ ← m; _ ← k; l) x → packs d (_ ← (_ ← m; k); l) x.
Proof.
  intros Hp b Hd. destruct (Hp b Hd) as (b' & E & X). exists b'. split; [|done]. rewrite <-E.
  unfold mbind, M_bind. by destruct (m b) as [[? [|]]|].
Qed.

Section results.
Context `{FloatText} `{DoubleText}.

(** A message of results, as the aggregator gets it: the module logs what is behind the name,
    the reader [u] of its head gets [r], and [y] is left. *)
Lemma recv_results {A} name start now node p x y (u : Z * Z * option cstring → M A) r :
  valid_string (Some (lit name)) → in_s 64 start → in_s 64 now → valid_string node →
  packs false p (x ++ y) → unpacks false (u (start, now, node)) x r →
  ∃ b buf buf', message (_ ← pack_head name start now node; p) = Some b ∧
    (unpack_head ≫= u) buf = Some (buf', inr r) ∧ ahead buf' y ∧
    ∀ send_rc st, orcm_diag_base_recv send_rc (received_buffer b) st =
      rows ← orcm_diag_base_log (Some (lit name)) buf st; Some (mk_effects [] None rows).
Proof.
  intros Hname Hs Hn Hv Hp Hu.
  destruct (meets_value t_uint8 _ false ORCM_DIAG_AGG_COMMAND codec_uint8) as (c & Pc & Uc); [done|].
  destruct (meets_value t_string _ false _ codec_string Hname) as (d & Pd & Ud).
  destruct (meets_value t_time _ false start codec_time Hs) as (e & Pe & Ue).
  destruct (meets_value t_time _ false now codec_time Hn) as (f & Pf & Uf).
  destruct (meets_value t_string _ false node codec_string Hv) as (g & Pg & Ug).
  destruct (message_holds (_ ← pack_head name start now node; p) (c ++ d ++ (e ++ f ++ g ++ x) ++ y)) as (b & E & Hb).
  { unfold pack_head. repeat (apply packs_assoc; apply packs_bind; [done|]). rewrite <-!app_assoc.
    repeat (apply packs_assoc; apply packs_bind; [done|]). by apply packs_bind. }
  apply holds_received, holds_ahead in Hb.
  destruct (ahead_unpack _ _ _ _ _ Hb Uc) as [E1 H1]. destruct (ahead_unpack _ _ _ _ _ H1 Ud) as [E2 H2].
  assert (unpacks false (unpack_head ≫= u) (e ++ f ++ g ++ x) r) as Uh.
  { replace (e ++ f ++ g ++ x) with ((e ++ f ++ g) ++ x) by (by rewrite <-!app_assoc).
    eapply unpacks_bind; [|exact Hu]. eapply unpacks_bind; [exact Ue|]. eapply unpacks_bind; [exact Uf|].
    by apply (unpacks_bind_ret _ _ (λ n, (start, now, n))). }
  destruct (ahead_unpack _ _ _ _ _ H2 Uh) as [E3 H3]. eexists b, _, _. split_and!; [done|exact E3|exact H3|].
  intros send_rc st. unfold orcm_diag_base_recv. rewrite E1. cbn [mbind option_bind]. rewrite E2. done.
Qed.
End results.

(** The aggregator has the module, and a database. *)
Definition records_with (name : string) (f : Z → opal_buffer_t → option (list diag_test_t * Z)) (st : orcm_diag_base_t) : Prop :=
  0 ≤ dbhandle st ∧ ∃ a, find_module (lit name) (modules st) = Some a ∧ log_fn (module a) = Some f.

Lemma log_calls name f st buf rows rc : records_with name f st → f (dbhandle st) buf = Some (rows, rc) →
  orcm_diag_base_log (Some (lit name)) buf st = Some rows.
Proof.
  intros (Hd & a & Ha & Hf) E. unfold orcm_diag_base_log. destruct (modules st) as [|m l]; [done|].
  destruct (Z.ltb_spec (dbhandle st) 0); [lia|]. by rewrite Ha, Hf, E.
Qed.

Lemma record_test_db handle node type subtype start end_ result : 0 ≤ handle →
  record_test handle node type subtype start end_ result = [mk_test node type subtype end_ end_ result].
Proof. intros Hh. unfold record_test. by destruct (Z.leb_spec 0 handle); [|lia]. Qed.

(** A string of the source can be packed. *)
Ltac literal := split; [vm_compute; reflexivity|repeat constructor; discriminate].

Section recorded.
Context `{FloatText} `{DoubleText}.
Context (start now : Z) (node : option cstring) (Hstart : in_s 64 start) (Hnow : in_s 64 now) (Hnode : valid_string node).

Definition row (type subtype : string) (result : option cstring) : diag_test_t :=
  mk_test node (Some (lit type)) (Some (lit subtype)) now now result.

Lemma cpu_recorded m :
  ∃ b, cputest_run m start now node = Some b ∧ ∀ send_rc st, records_with "cputest" cputest_log st →
    orcm_diag_base_recv send_rc (received_buffer b) st = Some (mk_effects [] None
      [row "cpu" "floating point" (verdict (negb (cpu_fp_test m =? 0))); row "cpu" "prime number" (verdict false);
       row "cpu" "stress test" (verdict (negb ((cpu_stress_test m).1 =? 0)))]).
Proof.
  destruct (meets_value t_int _ false (cpu_diag_ret m) codec_int) as (x & Px & Ux).
  { unfold cpu_diag_ret. cbn zeta. by destruct (_ =? _), (_ =? _), (_ =? _). }
  rewrite <-(app_nil_r x) in Px.
  destruct (recv_results "cputest" start now node (opal_dss_pack t_int [cpu_diag_ret m]) x []
    (λ h, r ← unpack1 t_int; mret (h, r)) (start, now, node, cpu_diag_ret m)) as (b & buf & buf' & Eb & Eu & _ & Hr);
    [literal|done|done|done|done|by apply (unpacks_bind_ret _ _ (λ r, (start, now, node, r)))|].
  exists b. split; [done|]. intros send_rc st Hst. rewrite Hr. erewrite (log_calls _ _ st buf); [|done|].
  2:{ unfold cputest_log, read_cpu. rewrite Eu. cbn [mbind option_bind]. rewrite !record_test_db by apply Hst. reflexivity. }
  cbn [mbind option_bind app]. unfold row. do 2 f_equal. unfold cpu_diag_ret. cbn zeta. by destruct (cpu_fp_test m =? 0), (fst _ =? 0).
Qed.

Lemma mem_recorded fuel m ret ret' : mem_test fuel m ret = Some ret' →
  ∃ b, memtest_run fuel m start now node ret = Some (ret', b) ∧ ∀ send_rc st, records_with "memtest" memtest_log st →
    orcm_diag_base_recv send_rc (received_buffer b) st = Some (mk_effects [] None
      [row "memory" "stress test" (Some (lit (mem_result ret')))]).
Proof.
  intros Ht.
  destruct (meets_value t_string _ false (Some (lit "memory")) codec_string) as (x & Px & Ux); [literal|].
  destruct (meets_value t_string _ false (Some (lit "stress test")) codec_string) as (y & Py & Uy); [literal|].
  destruct (meets_value t_string _ false (Some (lit (mem_result ret'))) codec_string) as (z & Pz & Uz).
  { unfold mem_result. destruct (flagged ret' _); [literal|]. destruct (ret' =? ORCM_SUCCESS); literal. }
  destruct (recv_results "memtest" start now node
    (_ ← opal_dss_pack t_string [Some (lit "memory")]; _ ← opal_dss_pack t_string [Some (lit "stress test")];
     opal_dss_pack t_string [Some (lit (mem_result ret'))]) (x ++ y ++ z) []
    (λ h, t ← unpack1 t_string; s ← unpack1 t_string; r ← unpack1 t_string; mret (h, t, s, r))
    (start, now, node, Some (lit "memory"), Some (lit "stress test"), Some (lit (mem_result ret'))))
    as (b & buf & buf' & Eb & Eu & _ & Hr);
    [literal|done|done|done|rewrite app_nil_r; repeat (apply packs_bind; [done|]); done| |].
  { eapply unpacks_bind; [exact Ux|]. eapply unpacks_bind; [exact Uy|]. by apply (unpacks_bind_ret _ _ (λ r, (start, now, node, _, _, r))). }
  exists b. split; [unfold memtest_run; rewrite Ht; cbn [mbind option_bind]; by rewrite Eb|].
  intros send_rc st Hst. rewrite Hr. erewrite (log_calls _ _ st buf); [|done|].
  2:{ unfold memtest_log, read_mem. rewrite Eu. cbn [mbind option_bind]. rewrite record_test_db by apply Hst. reflexivity. }
  done.
Qed.

Definition detail_row (d : cstring * Z) : diag_test_t :=
  mk_test node (Some (lit "ethernet")) (Some d.1) now now (verdict (negb (d.2 =? 0))).

Definition valid_detail (d : cstring * Z) : Prop := valid_string (Some d.1) ∧ in_s 32 d.2.

Lemma detail_meets d : valid_detail d → meets false (pack_detail d) read_detail (Some d.1, d.2).
Proof.
  intros [H1 H2]. destruct d as [s z]. eapply meets_bind; [by eapply meets_value; [apply _|]|].
  cbn. by eapply (meets_map _ _ _ (λ r, (Some s, r))), meets_value; [apply _|].
Qed.

Lemma detail_loop_spec handle l y : 0 ≤ handle → Forall valid_detail l → packs false (pack_each pack_detail l) y → ∀ buf, ahead buf y →
  detail_loop handle node start now (length l) buf = Some (detail_row <$> l, None).
Proof.
  intros Hh Hl. revert y. induction Hl as [|d l Hd Hl IH]; intros y Py buf Hb; [done|]. cbn [length detail_loop].
  destruct (detail_meets d Hd) as (x & Px & Ux). cbn [pack_each] in Py.
  assert (∃ z, packs false (pack_each pack_detail l) z) as [z Pz].
  { destruct (meets_each false pack_detail read_detail (λ d, (Some d.1, d.2)) l) as (z & Pz & _); [|by exists z].
    eapply Forall_impl; [exact Hl|]. intros d'. apply detail_meets. }
  rewrite (packs_inj _ _ _ _ Py (packs_bind false _ _ _ _ Px Pz)) in Hb.
  destruct (ahead_unpack _ _ _ _ _ Hb Ux) as [E Hb']. rewrite E. cbn [mbind option_bind]. rewrite (IH z Pz _ Hb'). cbn [mbind option_bind].
  by rewrite record_test_db.
Qed.

Lemma eth_recorded m result l : eth_results m = Some (result, l) → Forall valid_detail l → Z.of_nat (length l) ≤ INT_MAX →
  ∃ b, ethtest_run m start now node = Some b ∧ ∀ send_rc st, records_with "ethtest" ethtest_log st →
    orcm_diag_base_recv send_rc (received_buffer b) st = Some (mk_effects [] None
      (row "ethernet" "all" (Some (lit result)) :: (detail_row <$> l))).
Proof.
  intros Hm Hl Hlen. pose proof (to_int_small (Z.of_nat (length l)) ltac:(lia)) as Hto.
  destruct (meets_value t_string _ false (Some (lit result)) codec_string) as (x & Px & Ux).
  { unfold eth_results in Hm. repeat (case_match; simplify_option_eq; try done); try literal. }
  destruct (meets_value t_int _ false (Z.of_nat (length l)) codec_int) as (y & Py & Uy).
  { unfold in_s, INT_MAX in *. simpl (2 ^ _). lia. }
  destruct (meets_each false pack_detail read_detail (λ d, (Some d.1, d.2)) l) as (z & Pz & _).
  { eapply Forall_impl; [exact Hl|]. intros d. apply detail_meets. }
  destruct (recv_results "ethtest" start now node
    (_ ← opal_dss_pack t_string [Some (lit result)]; _ ← opal_dss_pack t_int [to_int (Z.of_nat (length l))]; pack_each pack_detail l)
    (x ++ y) z (λ h, r ← unpack1 t_string; n ← unpack1 t_int; mret (h, r, n)) (start, now, node, Some (lit result), Z.of_nat (length l)))
    as (b & buf & buf' & Eb & Eu & Ha & Hr);
    [literal|done|done|done|rewrite Hto, <-app_assoc; repeat (apply packs_bind; [done|]); done| |].
  { eapply unpacks_bind; [exact Ux|]. by apply (unpacks_bind_ret _ _ (λ n, (start, now, node, _, n))). }
  exists b. split; [unfold ethtest_run; rewrite Hm; exact Eb|].
  intros send_rc st Hst. rewrite Hr. erewrite (log_calls _ _ st buf); [|done|].
  2:{ unfold ethtest_log, read_eth. rewrite Eu. cbn [mbind option_bind]. unfold details.
      destruct (Z.leb_spec 0 (Z.of_nat (length l))); [|lia]. rewrite Nat2Z.id, (detail_loop_spec _ l z) by (done || apply Hst).
      cbn [mbind option_bind]. rewrite record_test_db by apply Hst. reflexivity. }
  done.
Qed.

(** C20. Results of tests.  What a node sends after a test is recorded by an aggregator that
    has the module and a database: three rows for the processors, with FAIL exactly for the
    tests that failed; one row for the memory with its result; a row for all of the network
    card and one for each test of the driver, with FAIL where its result is not 0.  Both times
    of a row are the time at the end. *)
Theorem diag_results_recorded send_rc st :
  (records_with "cputest" cputest_log st → ∀ m, ∃ b, cputest_run m start now node = Some b ∧
    orcm_diag_base_recv send_rc (received_buffer b) st = Some (mk_effects [] None
      [row "cpu" "floating point" (verdict (negb (cpu_fp_test m =? 0))); row "cpu" "prime number" (verdict false);
       row "cpu" "stress test" (verdict (negb ((cpu_stress_test m).1 =? 0)))])) ∧
  (records_with "memtest" memtest_log st → ∀ fuel m ret ret', mem_test fuel m ret = Some ret' →
    ∃ b, memtest_run fuel m start now node ret = Some (ret', b) ∧
    orcm_diag_base_recv send_rc (received_buffer b) st = Some (mk_effects [] None
      [row "memory" "stress test" (Some (lit (mem_result ret')))])) ∧
  (records_with "ethtest" ethtest_log st → ∀ m result l, eth_results m = Some (result, l) → Forall valid_detail l →
    Z.of_nat (length l) ≤ INT_MAX → ∃ b, ethtest_run m start now node = Some b ∧
    orcm_diag_base_recv send_rc (received_buffer b) st = Some (mk_effects [] None
      (row "ethernet" "all" (Some (lit result)) :: (detail_row <$> l)))).
Proof.
  split_and!.
  - intros Hst m. destruct (cpu_recorded m) as (b & E & Hr). eauto.
  - intros Hst fuel m ret ret' Hm. destruct (mem_recorded fuel m ret ret' Hm) as (b & E & Hr). eauto.
  - intros Hst m result l Hm Hl Hn. destruct (eth_recorded m result l Hm Hl Hn) as (b & E & Hr). eauto.
Qed.
End recorded.

(** ** The stress test of the processors *)

Definition failures (waits : nat → wait_t) (i n : nat) : nat := length (filter (λ j, (child_failed (waits j)).1 = true) (seq i n)).

Lemma wait_loop_spec waits n : ∀ i r k, (∀ j, (i ≤ j < i + n)%nat → waits j ≠ W_none) →
  (wait_loop waits i n r k).1 = r + Z.of_nat (failures waits i n).
Proof.
  unfold failures. induction n as [|n IH]; intros i r k Hw; cbn [wait_loop seq]; [cbn; lia|].
  pose proof (Hw i ltac:(lia)) as Hi. assert (∀ j, (S i ≤ j < S i + n)%nat → waits j ≠ W_none) as Hw' by (intros; apply Hw; lia).
  rewrite filter_cons. destruct (waits i) as [|c|s|]; [done|..];
    (destruct (child_failed _) as [[] kill]; cbn [fst]; rewrite (IH (S i)) by done;
     [rewrite decide_True by done; cbn [length]; lia|rewrite decide_False by done; done]).
Qed.

Lemma fork_loop_spec forks n : ∀ c, (∀ j, (0 < j ≤ n)%nat → forks j ≠ -1) → fork_loop forks n c = inr (n + c)%nat.
Proof.
  induction n as [|n IH]; intros c Hf; cbn [fork_loop]; [done|]. destruct (Z.eqb_spec (forks (S n)) (-1)) as [E|_].
  - by destruct (Hf (S n) ltac:(lia)).
  - rewrite IH; [f_equal; lia|]. intros. apply Hf. lia.
Qed.

(** When every process is created and waited for, the result is the number of those that
    neither ended well nor by the signals that are meant to end them. *)
Theorem cpu_stress_counts m : clock m ≠ -1 → (∀ j, (0 < j ≤ nprocs m)%nat → forks m j ≠ -1) →
  (∀ j, (j < nprocs m)%nat → waits m j ≠ W_none) → (cpu_stress_test m).1 = Z.of_nat (failures (waits m) 0 (nprocs m)).
Proof.
  intros Hc Hf Hw. unfold cpu_stress_test. destruct (Z.eqb_spec (clock m) (-1)); [done|]. rewrite fork_loop_spec by done.
  rewrite Nat.add_0_r, wait_loop_spec; [done|]. intros j Hj. apply Hw. lia.
Qed.

(** A network card whose names cannot be read frees a pointer that was never set. *)
Theorem ethtest_undefined m start now node : socket_ok m = false ∨ drvinfo m = None ∨ strings_ok m = false ∨ gstrings m = None →
  ethtest_run m start now node = None.
Proof.
  intros Hm. unfold ethtest_run, eth_results. destruct (socket_ok m); [|done]. destruct (drvinfo m); [|done]. cbn.
  destruct (strings_ok m); [|done]. destruct (gstrings m); [|done]. naive_solver.
Qed.

(** ** Starting tests from octl *)

Section start.
Context `{FloatText} `{DoubleText}.

Notation runs_t := (list (orcm_diag_active_module_t * orcm_diag_info_t)).

(** The daemons of the nodes, each with the tests that were started. *)
Definition exchange (node : cstring) (buf : opal_buffer_t) (w : gmap cstring (orcm_diag_base_t * runs_t))
    : option (gmap cstring (orcm_diag_base_t * runs_t) * (Z + opal_buffer_t)) :=
  match w !! node with
  | None => Some (w, inl OPAL_ERR_NOT_FOUND)
  | Some (st, runs) =>
    e ← orcm_diag_base_recv OPAL_SUCCESS (received_buffer buf) st;
    ans ← head (answers e);
    Some (<[node := (st, runs ++ option_list (started e))]> w, inr (received_buffer ans))
  end.

(** The run of a test on a node that has its module. *)
Definition run_of (comp : string) (st : orcm_diag_base_t) : runs_t :=
  match find_module (lit comp) (modules st) with
  | Some m => if run_fn (module m) then [(m, mk_diag_info (Some (lit comp)) false [])] else []
  | None => []
  end.

Lemma recv_start comp : valid_string (Some (lit comp)) →
  ∃ buf, pack_start comp new_buffer = Some (buf, inr tt) ∧ ∃ x, packs false (opal_dss_pack t_int [ORCM_SUCCESS]) x ∧
    unpacks false (unpack1 t_int) x ORCM_SUCCESS ∧
  ∀ st, ∃ ans s, orcm_diag_base_recv OPAL_SUCCESS (received_buffer buf) st = Some (mk_effects [ans] s []) ∧
    option_list s = run_of comp st ∧ holds ans x.
Proof.
  intros Hc.
  destruct (meets_value t_uint8 _ false ORCM_DIAG_START_COMMAND codec_uint8) as (a & Pa & Ua); [done|].
  destruct (meets_value t_string _ false _ codec_string Hc) as (b & Pb & Ub).
  destruct (meets_value t_bool _ false false codec_bool) as (c & Pc & Uc); [done|].
  destruct (meets_value t_int _ false 0 codec_int) as (d & Pd & Ud); [done|].
  destruct (meets_value t_int _ false ORCM_SUCCESS codec_int) as (x & Px & Ux); [done|].
  destruct (holds_pack _ _ (pack_start comp) (a ++ b ++ c ++ d) holds_new) as (buf & E & Hb).
  { repeat (apply packs_bind; [done|]). done. }
  exists buf. split; [done|]. exists x. split_and!; [done|done|]. intros st.
  apply holds_received, holds_ahead in Hb. cbn [app] in Hb. destruct (ahead_unpack _ _ _ _ _ Hb Ua) as [E1 H1].
  assert (unpacks false read_start (b ++ c ++ d) (mk_diag_info (Some (lit comp)) false [])) as Us.
  { eapply unpacks_bind; [exact Ub|]. eapply unpacks_bind; [exact Uc|]. rewrite <-(app_nil_r d). eapply unpacks_bind; [exact Ud|].
    apply (unpacks_bind _ _ _ [] [] []); apply unpacks_ret. }
  rewrite <-(app_nil_r (b ++ c ++ d)) in H1. destruct (ahead_unpack _ _ _ _ _ H1 Us) as [E2 _].
  destruct (holds_pack _ _ _ _ holds_new Px) as (ans & Ea & Hans).
  unfold orcm_diag_base_recv. rewrite E1. cbn [mbind option_bind]. rewrite E2. cbn [mbind option_bind want_result].
  unfold new_buffer. rewrite Ea. cbn [mbind option_bind]. unfold orcm_diag_base_activate, run_of. cbn [info_component].
  destruct (modules st) as [|m l]; [by eexists _, _|]. eexists ans, _. split; [done|]. split; [|done].
  destruct (find_module _ _) as [m'|]; [|done]. by destruct (run_fn _).
Qed.

(** A node that is asked runs the test once more. *)
Definition ran (comp : string) (d : orcm_diag_base_t * runs_t) : orcm_diag_base_t * runs_t := (d.1, d.2 ++ run_of comp d.1).

Lemma start_loop comp buf x nodes :
  packs false (opal_dss_pack t_int [ORCM_SUCCESS]) x → unpacks false (unpack1 t_int) x ORCM_SUCCESS →
  (∀ st, ∃ ans s, orcm_diag_base_recv OPAL_SUCCESS (received_buffer buf) st = Some (mk_effects [ans] s []) ∧
    option_list s = run_of comp st ∧ holds ans x) → ∀ w xfer, (∀ n, n ∈ nodes → is_Some (w !! n)) → ahead xfer [] →
  set_loop exchange nodes buf xfer w = Some (foldl (λ w n, alter (ran comp) n w) w nodes, inr (replicate (length nodes) true)).
Proof.
  intros Px Ux Hrecv. induction nodes as [|n nodes IH]; intros w xfer Hw Hx; [done|]. cbn [set_loop foldl].
  destruct (Hw n ltac:(set_solver)) as [[st runs] Hn]. destruct (Hrecv st) as (ans & s & E & Hs & Hans).
  apply holds_received in Hans. pose proof Hans as (Had & Hao & Hab).
  set (xfer1 := (opal_dss_copy_payload xfer (received_buffer ans)).1).
  assert (ask_node exchange n buf xfer w = Some (<[n := (st, runs ++ run_of comp st)]> w, inr xfer1)) as ->.
  { unfold ask_node, exchange. rewrite Hn, E. cbn. by rewrite Hs. }
  cbn [mbind option_bind].
  assert (ahead xfer1 x) as Hx1.
  { destruct Hx as [Hd [Hl Hr]].
    destruct (copy_payload_extended xfer (received_buffer ans)) as (Ed & Eb & Eo & _); [congruence|unfold inside; lia|].
    unfold xfer1. split; [congruence|]. unfold readable, remaining in *. rewrite Eo, Eb, Hao, Hab, length_app. split; [lia|].
    rewrite drop_app_le by lia. rewrite Hr. by rewrite !app_nil_r. }
  rewrite <-(app_nil_r x) in Hx1. destruct (ahead_unpack _ _ _ _ _ Hx1 Ux) as [Eu Hx2]. rewrite Eu. cbn [mbind option_bind].
  assert (<[n := (st, runs ++ run_of comp st)]> w = alter (ran comp) n w) as ->.
  { apply map_eq. intros i. destruct (decide (i = n)) as [->|Hi].
    - by rewrite lookup_insert_eq, lookup_alter_eq, Hn.
    - by rewrite lookup_insert_ne, lookup_alter_ne by done. }
  rewrite IH; [done| |done]. intros i Hi. destruct (decide (i = n)) as [->|Hne].
  - rewrite lookup_alter_eq, Hn. by eexists.
  - rewrite lookup_alter_ne by done. apply Hw. set_solver.
Qed.

Lemma ran_lookup comp (nodes : list cstring) : ∀ (w : gmap cstring (orcm_diag_base_t * runs_t)) n,
  foldl (λ w n, alter (ran comp) n w) w nodes !! n = Nat.iter (length (filter (.= n) nodes)) (ran comp) <$> w !! n.
Proof.
  induction nodes as [|m nodes IH]; intros w n; cbn [foldl]; [by destruct (w !! n)|]. rewrite IH, filter_cons.
  destruct (decide (m = n)) as [->|Hne].
  - rewrite lookup_alter_eq. destruct (w !! n); cbn [fmap option_fmap option_map]; [|done]. cbn [length]. by rewrite <-Nat.iter_succ_r.
  - by rewrite lookup_alter_ne.
Qed.

Lemma ran_times comp k : ∀ d, Nat.iter k (ran comp) d = (d.1, d.2 ++ concat (replicate k (run_of comp d.1))).
Proof.
  induction k as [|k IH]; intros d; [destruct d; cbn; by rewrite app_nil_r|].
  rewrite Nat.iter_succ_r, IH. unfold ran. cbn. by rewrite <-app_assoc.
Qed.

(** C22. Tests from octl.  On nodes that are all known the command succeeds on each of them;
    each node of the list has the test started once for every time that it is named, with the
    module of the component if it has one and not at all otherwise, and no other node is
    changed. *)
Theorem diag_started comp argv arg nodes w : valid_string (Some (lit comp)) →
  length argv = 3%nat → argv !! 2%nat = Some arg → nodes_of arg = Some (Some nodes) → (∀ n, n ∈ nodes → is_Some (w !! n)) →
  ∃ w', start_test exchange comp argv w = Some (w', inr (replicate (length nodes) true)) ∧
  ∀ n st runs, w !! n = Some (st, runs) →
    w' !! n = Some (st, runs ++ concat (replicate (length (filter (.= n) nodes)) (run_of comp st))).
Proof.
  intros Hc Hargc Harg Hnodes Hw. destruct (recv_start comp Hc) as (buf & E & x & Px & Ux & Hr).
  exists (foldl (λ w n, alter (ran comp) n w) w nodes). split.
  - unfold start_test. rewrite (argc_is argv _ 3 Hargc eq_refl), Harg. cbn [mbind option_bind]. rewrite Hnodes. cbn [mbind option_bind].
    unfold send_request. change Sensor.new_buffer with new_buffer. rewrite E. cbn [mbind option_bind].
    apply (start_loop comp buf x); [done|done|done|done|]. by apply holds_ahead.
  - intros n st runs Hn. rewrite ran_lookup, Hn. cbn [fmap option_fmap option_map]. by rewrite ran_times.
Qed.
End start.

(** ** Examples *)

#[local] Instance decimal : FloatText := {| printf_f := print_int; strtof := λ s, (strtol s).1 |}.
#[local] Instance decimals : DoubleText := {| printf_lf := print_int; strtod := λ s, (strtol s).1 |}.

Definition all_components : list diag_component_t := [mca_diag_cputest_component; mca_diag_ethtest_component; mca_diag_memtest_component].
Definition idle : orcm_diag_base_t := mk_diag_base true [] 0 true false true.
Definition sample_daemon : orcm_diag_base_t := (orcm_diag_base_select all_components idle).1.

Lemma diag_selection_witness :
  (λ m, mca_component_name (component m)) <$> modules sample_daemon = [lit "cputest"; lit "ethtest"; lit "memtest"] ∧
  orcm_diag_base_select [] sample_daemon = (sample_daemon, OPAL_SUCCESS).
Proof. split; [done|]. apply (diag_selection all_components idle); done. Defined.

(** A machine with two processors, one of whose processes is killed. *)
Definition sample_cpu : cpu_machine :=
  mk_cpu_machine (1, 1) 2 0 (λ n, Z.of_nat n) (λ j, if (j =? 0)%nat then W_signaled SIGALRM else W_signaled 9).

Lemma diag_results_recorded_witness :
  ∃ b, cputest_run sample_cpu 100 107 (Some (lit "node1")) = Some b ∧
    orcm_diag_base_recv 0 (received_buffer b) sample_daemon = Some (mk_effects [] None
      [row 107 (Some (lit "node1")) "cpu" "floating point" (Some (lit "PASS"));
       row 107 (Some (lit "node1")) "cpu" "prime number" (Some (lit "PASS"));
       row 107 (Some (lit "node1")) "cpu" "stress test" (Some (lit "FAIL"))]).
Proof.
  destruct (diag_results_recorded 100 107 (Some (lit "node1")) ltac:(done) ltac:(done) ltac:(literal) 0 sample_daemon) as (H & _).
  destruct (H ltac:(split; [done|by eexists]) sample_cpu) as (b & E & Hr). exists b. split; [exact E|exact Hr].
Defined.

Definition sample_argv : list cstring := lit <$> ["diag"; "mem"; "node1"]%string.

Lemma diag_started_witness :
  ∃ w', start_test exchange "memtest" sample_argv {[ lit "node1" := (sample_daemon, []) ]} = Some (w', inr [true]) ∧
    w' !! lit "node1" = Some (sample_daemon, [(mk_diag_active 50 orcm_diag_memtest_module mca_diag_memtest_component,
                                                mk_diag_info (Some (lit "memtest")) false [])]).
Proof.
  destruct (diag_started "memtest" sample_argv (lit "node1") [lit "node1"] {[ lit "node1" := (sample_daemon, []) ]}) as (w' & E & Hw);
    [literal|done|done|by vm_compute| |].
  { intros n Hn. apply list_elem_of_singleton in Hn as ->. rewrite lookup_singleton_eq. by eexists. }
  exists w'. split; [exact E|].
  apply (Hw (lit "node1") sample_daemon []). apply lookup_singleton_eq.
Defined.
End DiagSpec.
