(* ===== verification/Cli.v ===== *)
(** * The interactive command line (orcm/util/cli.c)

    A table of commands makes a tree; at the prompt a line is typed, a tab completes its last
    word by the tree, a question mark lists what may follow.

    The terminal is a list of keys.  [None] is undefined behaviour, or a prompt that never
    returns: at the end of the input the value of [getchar] is taken for a character, again
    and again. *)

From Stdlib Require Import ZArith Lia Ascii.
From stdpp Require Import prelude numbers strings list.
From S2P Require Import Prelude CString Argv XmlItems.

Local Open Scope Z_scope.

Module Cli.
Import Argv.

Definition ORCM_SUCCESS : Z := OPAL_SUCCESS.
Definition ORCM_ERR_BAD_PARAM : Z := OPAL_ERR_BAD_PARAM.
Definition ORCM_ERR_NOT_FOUND : Z := OPAL_ERR_NOT_FOUND.
Definition ORCM_MAX_CLI_LENGTH : nat := 1024.

(** ** Data *)

(** An entry of the table; [parent] ends with NULL. *)
Record orcm_cli_init_t := mk_init {
  parent : list cstring;
  init_cmd : option cstring;
  option_ : bool;
  nargs : Z;
  init_help : option cstring;
}.

(** An option is its key and the number of its arguments. *)
Inductive orcm_cli_cmd_t :=
  mk_cmd (cmd : option cstring) (options : list (cstring * Z)) (help : option cstring) (subcmds : list orcm_cli_cmd_t).

Definition cmd (c : orcm_cli_cmd_t) : option cstring := let 'mk_cmd n _ _ _ := c in n.
Definition options (c : orcm_cli_cmd_t) : list (cstring * Z) := let 'mk_cmd _ o _ _ := c in o.
Definition help (c : orcm_cli_cmd_t) : option cstring := let 'mk_cmd _ _ h _ := c in h.
Definition subcmds (c : orcm_cli_cmd_t) : list orcm_cli_cmd_t := let 'mk_cmd _ _ _ l := c in l.

(** ** The tree *)

Definition new_cmd (e : orcm_cli_init_t) : orcm_cli_cmd_t := mk_cmd (init_cmd e) [] (init_help e) [].

(** The first command of that name, but for case, is handed to [f]. *)
Fixpoint descend (f : orcm_cli_cmd_t → option (orcm_cli_cmd_t * Z)) (name : cstring) (l : list orcm_cli_cmd_t)
    : option (list orcm_cli_cmd_t * Z) :=
  match l with
  | [] => Some ([], ORCM_ERR_NOT_FOUND)
  | c :: rest =>
    n ← cmd c;
    if XmlItems.nocase n name then '(c, rc) ← f c; Some (c :: rest, rc)
    else '(rest, rc) ← descend f name rest; Some (c :: rest, rc)
  end.

(** [parents] is what is left of the list of parents. *)
Fixpoint make_opt_subtree (e : orcm_cli_init_t) (parents : list cstring) (c : orcm_cli_cmd_t) : option (orcm_cli_cmd_t * Z) :=
  match parents with
  | [] =>
    if option_ e then
      key ← init_cmd e;
      Some (mk_cmd (cmd c) (options c ++ [(key, nargs e)]) (help c) (subcmds c), ORCM_SUCCESS)
    else Some (mk_cmd (cmd c) (options c) (help c) (subcmds c ++ [new_cmd e]), ORCM_SUCCESS)
  | p :: parents =>
    '(l, rc) ← descend (make_opt_subtree e parents) p (subcmds c);
    Some (mk_cmd (cmd c) (options c) (help c) l, rc)
  end.

Definition make_opt (cmds : list orcm_cli_cmd_t) (e : orcm_cli_init_t) : option (list orcm_cli_cmd_t * Z) :=
  match parent e with
  | p :: parents => descend (make_opt_subtree e parents) p cmds
  | [] => Some (cmds ++ [new_cmd e], ORCM_SUCCESS)
  end.

(** A table without an entry that ends it is read past its end. *)
Fixpoint create_loop (cmds : list orcm_cli_cmd_t) (table : list orcm_cli_init_t) : option (list orcm_cli_cmd_t * Z) :=
  match table with
  | [] => None
  | e :: rest =>
    match parent e, init_cmd e with
    | [], None => Some (cmds, ORCM_SUCCESS)
    | _, _ =>
      '(cmds, rc) ← make_opt cmds e;
      if rc =? ORCM_SUCCESS then create_loop cmds rest else Some (cmds, rc)
    end
  end.

Definition orcm_cli_create (cli : option (list orcm_cli_cmd_t)) (table : option (list orcm_cli_init_t))
    : option (option (list orcm_cli_cmd_t) * Z) :=
  match cli, table with
  | None, _ => Some (None, ORCM_ERR_BAD_PARAM)
  | Some cmds, None => Some (Some cmds, ORCM_SUCCESS)
  | Some cmds, Some table => '(cmds, rc) ← create_loop cmds table; Some (Some cmds, rc)
  end.

(** ** Completion *)

(** [0 == strncmp(s, w, strlen(w))] *)
Definition starts (s w : cstring) : bool := bool_decide (take (length w) s = w).

(** What becomes of the array of the words: it is as it was, its words are taken out one by
    one, or it is freed. *)
Inductive fate := F_kept | F_emptied | F_freed.

(** The loop over the commands of a level: a command that is the word is descended into, the
    others that start with it are collected. *)
Fixpoint search {A} (f : orcm_cli_cmd_t → list A → option (Z * list A * fate)) (line : orcm_cli_cmd_t → cstring → A) (w : cstring)
    (l : list orcm_cli_cmd_t) (acc : list A) (found : bool) : option (Z * list A * fate) :=
  match l with
  | [] => Some (if found then ORCM_SUCCESS else ORCM_ERR_NOT_FOUND, acc, F_freed)
  | c :: rest =>
    name ← cmd c;
    if starts name w then
      if (length w =? length name)%nat then f c acc else search f line w rest (acc ++ [line c name]) true
    else search f line w rest acc found
  end.

(** At a command without sub-commands completions collected before are freed, and then used. *)
Fixpoint get_completions_subtree (input : list cstring) (c : orcm_cli_cmd_t) (completions : list cstring)
    : option (Z * list cstring * fate) :=
  match input with
  | [] =>
    match subcmds c, completions with
    | [], [] => Some (ORCM_SUCCESS, [], F_emptied)
    | [], _ :: _ => None
    | l, _ => names ← mapM cmd l; Some (ORCM_SUCCESS, completions ++ names, F_emptied)
    end
  | w :: input => search (get_completions_subtree input) (λ _ name, name) w (subcmds c) completions false
  end.

Definition get_completions (cmds : list orcm_cli_cmd_t) (input : list cstring) : option (Z * list cstring * fate) :=
  match input with
  | [] => names ← mapM cmd cmds; Some (ORCM_SUCCESS, names, F_kept)
  | w :: input => search (get_completions_subtree input) (λ _ name, name) w cmds [] false
  end.

(** The lines for a command: its name and its help, and its options. *)
Definition orcm_cli_print_cmd (c : orcm_cli_cmd_t) : cstring * cstring * list (cstring * Z) :=
  (default (lit "NULL") (cmd c), default (lit "NULL") (help c), options c).

Fixpoint print_completions_subtree (input : list cstring) (c : orcm_cli_cmd_t) (out : list (cstring * cstring * list (cstring * Z)))
    : option (Z * list (cstring * cstring * list (cstring * Z)) * fate) :=
  match input with
  | [] => Some (ORCM_SUCCESS, out ++ (orcm_cli_print_cmd <$> subcmds c), F_emptied)
  | w :: input => search (print_completions_subtree input) (λ c _, orcm_cli_print_cmd c) w (subcmds c) out false
  end.

Definition print_completions (cmds : list orcm_cli_cmd_t) (input : list cstring)
    : option (Z * list (cstring * cstring * list (cstring * Z)) * fate) :=
  match input with
  | [] => Some (ORCM_SUCCESS, orcm_cli_print_cmd <$> cmds, F_kept)
  | w :: input => search (print_completions_subtree input) (λ c _, orcm_cli_print_cmd c) w cmds [] false
  end.

(** The tree as text: a level and a name for each line. *)
Fixpoint print_subtree (level : nat) (c : orcm_cli_cmd_t) : list (nat * cstring) :=
  flat_map (λ s, (level, default (lit "NULL") (cmd s)) :: print_subtree (S level) s) (subcmds c).

Definition orcm_cli_print_tree (cmds : list orcm_cli_cmd_t) : list (nat * cstring) :=
  flat_map (λ c, (0%nat, default (lit "NULL") (cmd c)) :: print_subtree 1 c) cmds.

(** ** The prompt *)

Definition NL : ascii := "010"%char.
Definition TAB : ascii := "009"%char.
Definition BS : ascii := "008"%char.
Definition DEL : ascii := "127"%char.
Definition ESC : ascii := "027"%char.
Definition SPACE : ascii := " "%char.
Definition QUERY : ascii := "?"%char.

(** What is shown besides the echo. *)
Inductive shown := S_bonk | S_list (completions : list cstring) | S_help (lines : list (cstring * cstring * list (cstring * Z))).

(** The variable [inputlist]: NULL, an array, or a pointer to memory that was freed. *)
Inductive pointer := P_null | P_live | P_dead.

(** [text] is the buffer up to [j]; behind it there are zeros. *)
Record prompt_t := mk_prompt {
  text : cstring;
  space : bool;
  inputlist : pointer;
  rc : Z;
  screen : list shown;
}.

Definition bonk (sp : bool) (p : prompt_t) : prompt_t := mk_prompt (text p) sp (inputlist p) (rc p) (screen p ++ [S_bonk]).

(** The characters fit into the buffer. *)
Definition put (s : cstring) (p : prompt_t) : option cstring :=
  if (length (text p ++ s) <=? ORCM_MAX_CLI_LENGTH)%nat then Some (text p ++ s) else None.

(** The buffer as a string, which a full buffer is only with a zero in it. *)
Definition input_string (p : prompt_t) : option cstring :=
  if (length (text p) <? ORCM_MAX_CLI_LENGTH)%nat || existsb (ascii_eqb NUL) (text p) then Some (c_text (text p)) else None.

Definition words_of (s : cstring) : list cstring := default [] (opal_argv_split s SPACE).

(** The pointer after a call that was given the words; [moves] is whether an array that is
    made shorter is moved. *)
Definition after (moves : bool) (words : list cstring) (f : fate) : pointer :=
  match words, f with
  | [], _ => P_null
  | _, F_freed => P_dead
  | _, F_emptied => if moves then P_dead else P_live
  | _, F_kept => P_live
  end.

Section prompt.
Context (moves : bool) (cmds : list orcm_cli_cmd_t).

(** The one completion is written over the last word, or after it. *)
Definition complete_one (words : list cstring) (c : cstring) (p : prompt_t) : option prompt_t :=
  l ← last (text p);
  s ← (if ascii_eqb l SPACE then Some c else
       w ← last words;
       Some (if starts c w then drop (length w) c else SPACE :: c));
  t ← put (s ++ [SPACE]) p;
  Some (mk_prompt t true (inputlist p) (rc p) (screen p)).

Definition press_tab (p : prompt_t) : option prompt_t :=
  s ← input_string p;
  let words := words_of s in
  '(r, completions, f) ← get_completions cmds words;
  let p := mk_prompt (text p) false (after moves words f) r (screen p) in
  if r =? ORCM_ERR_NOT_FOUND then Some (bonk false p) else
  match completions with
  | [] => Some (bonk false p)
  | [c] => complete_one words c (mk_prompt (text p) false (after moves words F_kept) r (screen p))
  | _ =>
    let out := screen p ++ [S_list completions] in
    if bool_decide (text p = [] ∨ last (text p) = Some SPACE)
    then Some (mk_prompt (text p) false (inputlist p) r out)
    else t ← put [SPACE] p; _ ← input_string (mk_prompt t true (inputlist p) r out); Some (mk_prompt t true (inputlist p) r out)
  end.

Definition press_space (p : prompt_t) : option prompt_t :=
  if bool_decide (text p = []) || space p then Some (bonk (space p) p) else
  t ← put [SPACE] p; Some (mk_prompt t true (inputlist p) (rc p) (screen p)).

Definition press_backspace (p : prompt_t) : option prompt_t :=
  if bool_decide (text p = []) then Some (bonk false p) else
  let t := take (length (text p) - 1) (text p) in
  Some (mk_prompt t (bool_decide (last t = Some SPACE)) (inputlist p) (rc p) (screen p)).

(** The array of the last time is freed first. *)
Definition press_query (p : prompt_t) : option prompt_t :=
  match inputlist p with
  | P_dead => None
  | _ =>
    s ← input_string p;
    let words := words_of s in
    '(_, lines, f) ← print_completions cmds words;
    Some (mk_prompt (text p) (space p) (after moves words f) (rc p) (screen p ++ [S_help lines]))
  end.

Definition press_other (c : ascii) (p : prompt_t) : option prompt_t :=
  if (length (text p) =? ORCM_MAX_CLI_LENGTH)%nat then Some (bonk false p) else
  t ← put [c] p; Some (mk_prompt t false (inputlist p) (rc p) (screen p)).

(** The line, once it is entered. *)
Definition press_enter (p : prompt_t) : option (cstring * prompt_t) :=
  s ← input_string p;
  match inputlist p with P_dead => None | _ => Some (s, p) end.

(** After the escape character the next key is skipped, and one more behind a bracket. *)
Fixpoint type (keys : list ascii) (p : prompt_t) : option (cstring * prompt_t) :=
  match keys with
  | [] => None
  | c :: keys =>
    if ascii_eqb c NL then press_enter p else
    if ascii_eqb c TAB then
      p ← press_tab p;
      if (rc p =? ORCM_SUCCESS) || (rc p =? ORCM_ERR_NOT_FOUND) then type keys p else press_enter p
    else if ascii_eqb c SPACE then p ← press_space p; type keys p
    else if ascii_eqb c BS || ascii_eqb c DEL then p ← press_backspace p; type keys p
    else if ascii_eqb c ESC then
      match keys with
      | [] => None
      | d :: keys =>
        if ascii_eqb d "[" then match keys with [] => None | _ :: keys => type keys p end else type keys p
      end
    else if ascii_eqb c QUERY then p ← press_query p; type keys p
    else p ← press_other c p; type keys p
  end.

Definition fresh : prompt_t := mk_prompt [] false P_null ORCM_SUCCESS [].

(** The result and the command. *)
Definition orcm_cli_get_cmd (keys : list ascii) : option (Z * cstring) := '(s, p) ← type keys fresh; Some (rc p, s).
End prompt.

(** ** What the completions are *)

(** Every command of a level has a name, which is not, and does not start with, the name of a
    later one. *)
Fixpoint level_ok (l : list orcm_cli_cmd_t) : bool :=
  match l with
  | [] => true
  | c :: rest =>
    match cmd c with
    | None => false
    | Some n => forallb (λ d, match cmd d with Some m => negb (starts n m) | None => false end) rest && level_ok rest
    end
  end.

Fixpoint orderly (c : orcm_cli_cmd_t) : bool := level_ok (subcmds c) && forallb orderly (subcmds c).

(** The level that words lead to, each the name of a command. *)
Fixpoint level_at (l : list orcm_cli_cmd_t) (path : list cstring) : option (list orcm_cli_cmd_t) :=
  match path with
  | [] => Some l
  | w :: path => c ← find (λ c, bool_decide (cmd c = Some w)) l; level_at (subcmds c) path
  end.

Definition names (l : list orcm_cli_cmd_t) : list cstring := omap cmd l.
Definition matches (l : list orcm_cli_cmd_t) (w : cstring) : list cstring := filter (λ n, starts n w = true) (names l).

Lemma starts_refl n : starts n n = true.
Proof. unfold starts. rewrite firstn_all. by apply bool_decide_eq_true. Qed.

Lemma starts_full n w : starts n w = true → length w = length n → n = w.
Proof. unfold starts. rewrite bool_decide_eq_true. intros E H. by rewrite H, firstn_all in E. Qed.

Lemma level_names l : level_ok l = true → mapM cmd l = Some (names l).
Proof.
  unfold names. induction l as [|c l IH]; [done|]. cbn. destruct (cmd c) as [n|]; [|done].
  rewrite andb_true_iff. intros [_ Hl]. by rewrite IH.
Qed.

(** A word that no command is: those that start with it. *)
Lemma search_prefix (f : orcm_cli_cmd_t → list cstring → option (Z * list cstring * fate)) w l : ∀ acc found, level_ok l = true → (∀ c, c ∈ l → cmd c ≠ Some w) →
  search f (λ _ name, name) w l acc found =
    Some (if found || negb (bool_decide (matches l w = [])) then ORCM_SUCCESS else ORCM_ERR_NOT_FOUND, acc ++ matches l w, F_freed).
Proof.
  unfold matches, names. induction l as [|c l IH]; intros acc found Hok Hw; cbn [search omap list_omap].
  - cbn. rewrite app_nil_r. by destruct found.
  - cbn in Hok. destruct (cmd c) as [n|] eqn:En; [|done]. apply andb_true_iff in Hok as [_ Hok]. cbn [mbind option_bind].
    rewrite filter_cons. destruct (starts n w) eqn:Es.
    + rewrite decide_True by done. destruct (Nat.eqb_spec (length w) (length n)) as [El|El].
      { destruct (Hw c); [set_solver|]. by rewrite En, (starts_full n w). }
      rewrite IH by (done || set_solver). rewrite <-app_assoc. cbn. by rewrite orb_true_r.
    + rewrite decide_False by done. apply IH; [done|set_solver].
Qed.

(** A word that is a command: the search goes on below it. *)
Lemma search_exact {A} (f : orcm_cli_cmd_t → list A → option (Z * list A * fate)) line w c l : ∀ acc found, level_ok l = true →
  find (λ c, bool_decide (cmd c = Some w)) l = Some c → search f line w l acc found = f c acc.
Proof.
  induction l as [|d l IH]; intros acc found Hok Hf; [done|]. cbn in Hok, Hf. cbn [search].
  destruct (cmd d) as [n|] eqn:En; [|done]. apply andb_true_iff in Hok as [Hd Hok]. cbn [mbind option_bind].
  case_bool_decide as Ew.
  - injection Ew as ->. injection Hf as ->. by rewrite starts_refl, Nat.eqb_refl.
  - destruct (starts n w) eqn:Es; [|by apply IH]. exfalso.
    apply List.find_some in Hf as [Hin Hc]. apply bool_decide_eq_true in Hc.
    rewrite forallb_forall in Hd. specialize (Hd c Hin). cbn in Hd. rewrite Hc, Es in Hd. done.
Qed.

Lemma orderly_found w l c : level_ok l = true → forallb orderly l = true → find (λ c, bool_decide (cmd c = Some w)) l = Some c →
  level_ok (subcmds c) = true ∧ forallb orderly (subcmds c) = true.
Proof.
  intros _ Ho Hf. apply List.find_some in Hf as [Hin _]. rewrite forallb_forall in Ho. specialize (Ho c Hin).
  destruct c as [n o h s]. cbn in *. by apply andb_true_iff in Ho.
Qed.

Lemma subtree_spec path : ∀ c l, level_ok (subcmds c) = true → forallb orderly (subcmds c) = true → level_at (subcmds c) path = Some l →
  level_ok l = true ∧ get_completions_subtree path c [] = Some (ORCM_SUCCESS, names l, F_emptied) ∧
  ∀ w, (∀ d, d ∈ l → cmd d ≠ Some w) → get_completions_subtree (path ++ [w]) c [] =
    Some (if bool_decide (matches l w = []) then ORCM_ERR_NOT_FOUND else ORCM_SUCCESS, matches l w, F_freed).
Proof.
  induction path as [|v path IH]; intros c l Hok Ho Hl; cbn [level_at] in Hl.
  - injection Hl as <-. split; [done|]. split.
    + cbn [get_completions_subtree]. destruct (subcmds c) as [|d l]; [done|]. by rewrite (level_names (d :: l)).
    + intros w Hw. cbn [app get_completions_subtree]. rewrite search_prefix by done. by case_bool_decide.
  - destruct (find _ _) as [d|] eqn:Ef; [|done]. cbn [mbind option_bind] in Hl.
    destruct (orderly_found v (subcmds c) d Hok Ho Ef) as [Hok' Ho']. destruct (IH d l Hok' Ho' Hl) as (H1 & H2 & H3).
    split; [done|]. cbn [app get_completions_subtree]. split; [by rewrite (search_exact _ _ _ d)|].
    intros w Hw. rewrite (search_exact _ _ _ d) by done. by apply H3.
Qed.

(** The completions of a line, by the level that its words lead to. *)
Lemma completions_at cmds path l : level_ok cmds = true → forallb orderly cmds = true → level_at cmds path = Some l →
  (∃ f, get_completions cmds path = Some (ORCM_SUCCESS, names l, f)) ∧
  ∀ w, (∀ c, c ∈ l → cmd c ≠ Some w) → get_completions cmds (path ++ [w]) =
    Some (if bool_decide (matches l w = []) then ORCM_ERR_NOT_FOUND else ORCM_SUCCESS, matches l w, F_freed).
Proof.
  intros Hok Ho Hl. destruct path as [|v path].
  - injection Hl as <-. split; [exists F_kept; cbn; by rewrite level_names|].
    intros w Hw. cbn [app get_completions]. rewrite search_prefix by done. by case_bool_decide.
  - cbn [level_at] in Hl. destruct (find _ _) as [d|] eqn:Ef; [|done]. cbn [mbind option_bind] in Hl.
    destruct (orderly_found v cmds d Hok Ho Ef) as [Hok' Ho']. destruct (subtree_spec path d l Hok' Ho' Hl) as (_ & H2 & H3).
    cbn [app get_completions]. split; [exists F_emptied; by rewrite (search_exact _ _ _ d)|].
    intros w Hw. rewrite (search_exact _ _ _ d) by done. by apply H3.
Qed.

(** ** Typing a line *)

(** A key that is neither entered, nor a tab, a question mark, an escape or a zero. *)
Definition plain (c : ascii) : bool :=
  negb (ascii_eqb c NL || ascii_eqb c TAB || ascii_eqb c ESC || ascii_eqb c QUERY || ascii_eqb c NUL).

(** The line after a key: a space only after a word, one character less for a backspace. *)
Definition push (t : cstring) (c : ascii) : cstring :=
  if ascii_eqb c SPACE then if bool_decide (t = [] ∨ last t = Some SPACE) then t else t ++ [c]
  else if ascii_eqb c BS || ascii_eqb c DEL then take (length t - 1) t
  else t ++ [c].

Lemma no_nul_text t : Forall (λ c, c ≠ NUL) t → c_text t = t.
Proof. intros Ht. unfold c_text. by rewrite cut_none. Qed.

Lemma plain_cases c : plain c = true →
  ascii_eqb c NL = false ∧ ascii_eqb c TAB = false ∧ ascii_eqb c ESC = false ∧ ascii_eqb c QUERY = false ∧ c ≠ NUL.
Proof.
  unfold plain. rewrite negb_true_iff, !orb_false_iff. intros [[[[? ?] ?] ?] ?]. split_and!; try done. by apply ascii_eqb_neq.
Qed.

Section typing.
Context (moves : bool) (cmds : list orcm_cli_cmd_t).

(** The flag says that the line ends with a space; only the screen may differ otherwise. *)
Definition typed (t : cstring) (p : prompt_t) : Prop :=
  text p = t ∧ space p = bool_decide (last t = Some SPACE) ∧ inputlist p = P_null ∧ rc p = ORCM_SUCCESS.

Lemma put_fits s p : (length (text p) + length s ≤ ORCM_MAX_CLI_LENGTH)%nat → put s p = Some (text p ++ s).
Proof. intros Hl. unfold put. rewrite length_app. by destruct (Nat.leb_spec (length (text p) + length s) ORCM_MAX_CLI_LENGTH); [|lia]. Qed.

Lemma type_plain c keys p t : plain c = true → typed t p → (length t < ORCM_MAX_CLI_LENGTH)%nat →
  ∃ p', typed (push t c) p' ∧ type moves cmds (c :: keys) p = type moves cmds keys p'.
Proof.
  intros Hc (<- & Hs & Hi & Hr) Hl. destruct (plain_cases c Hc) as (E1 & E2 & E3 & E4 & _). cbn [type]. rewrite E1, E2, E3, E4. unfold push.
  destruct (ascii_eqb c SPACE) eqn:Es.
  - unfold press_space. rewrite Hs. apply ascii_eqb_eq in Es as ->. destruct (decide (text p = [])) as [H1|H1].
    + rewrite !bool_decide_true by (done || by left). eexists. split; [|reflexivity]. by split_and!.
    + rewrite (bool_decide_false (text p = [])) by done. destruct (decide (last (text p) = Some SPACE)) as [H2|H2].
      * rewrite !bool_decide_true by (done || by right). eexists. split; [|reflexivity]. split_and!; try done. cbn. by rewrite H2.
      * rewrite !bool_decide_false by (done || by intros [?|?]). rewrite put_fits by (cbn; lia). eexists. split; [|reflexivity].
        split_and!; try done. cbn. by rewrite last_snoc.
  - destruct (ascii_eqb c BS || ascii_eqb c DEL).
    + unfold press_backspace. destruct (decide (text p = [])) as [H1|H1];
        [rewrite (bool_decide_true (text p = [])) by done|rewrite (bool_decide_false (text p = [])) by done];
        (eexists; split; [|reflexivity]); [|by split_and!]. split_and!; try done; cbn; by rewrite H1.
    + unfold press_other. destruct (Nat.eqb_spec (length (text p)) ORCM_MAX_CLI_LENGTH); [lia|]. rewrite put_fits by (cbn; lia).
      eexists. split; [|reflexivity]. split_and!; try done. cbn. rewrite last_snoc, bool_decide_false; [done|].
      intros [= ->]. done.
Qed.

Lemma length_push t c : (length (push t c) ≤ S (length t))%nat.
Proof.
  unfold push. repeat case_match; rewrite ?length_app, ?length_take; cbn; lia.
Qed.

Lemma push_no_nul t c : c ≠ NUL → Forall (λ c, c ≠ NUL) t → Forall (λ c, c ≠ NUL) (push t c).
Proof.
  intros Hc Ht. unfold push. repeat case_match; try done; first [by apply Forall_take|apply Forall_app; split; [done|by apply Forall_singleton]].
Qed.

Lemma type_line keys : ∀ t p, forallb plain keys = true → typed t p → (length t + length keys < ORCM_MAX_CLI_LENGTH)%nat →
  Forall (λ c, c ≠ NUL) t → ∃ p', rc p' = ORCM_SUCCESS ∧ type moves cmds (keys ++ [NL]) p = Some (foldl push t keys, p').
Proof.
  induction keys as [|c keys IH]; intros t p Hk Hp Hl Ht.
  - cbn. unfold press_enter, input_string. destruct Hp as (-> & _ & -> & Hr).
    destruct (Nat.ltb_spec (length t) ORCM_MAX_CLI_LENGTH); [|cbn in Hl; lia]. cbn. rewrite no_nul_text by done. eauto.
  - cbn [forallb] in Hk. apply andb_true_iff in Hk as [Hc Hk]. cbn [app foldl length] in *.
    destruct (type_plain c (keys ++ [NL]) p t Hc Hp) as (p' & Hp' & ->); [lia|].
    pose proof (length_push t c). apply IH; [done|done|lia|]. apply push_no_nul; [|done]. apply (plain_cases c Hc).
Qed.
End typing.

(** A line that is not changed by typing it: no backspace, no space at its start or behind
    another. *)
Fixpoint clean (after_space : bool) (t : cstring) : bool :=
  match t with
  | [] => true
  | c :: t =>
    if ascii_eqb c BS || ascii_eqb c DEL then false
    else if ascii_eqb c SPACE then negb after_space && clean true t else clean false t
  end.

Lemma push_clean t : ∀ s, clean (bool_decide (s = [] ∨ last s = Some SPACE)) t = true → foldl push s t = s ++ t.
Proof.
  induction t as [|c t IH]; intros s Hs; [by rewrite app_nil_r|]. cbn [foldl clean] in *.
  destruct (ascii_eqb c BS || ascii_eqb c DEL) eqn:Eb; [done|].
  assert (push s c = s ++ [c]) as ->.
  { unfold push. rewrite Eb. destruct (ascii_eqb c SPACE); [|done]. by destruct (bool_decide _). }
  rewrite IH, <-app_assoc; [done|]. destruct (ascii_eqb c SPACE) eqn:Es.
  - apply andb_true_iff in Hs as [_ Hs]. rewrite bool_decide_true; [done|]. right. rewrite last_snoc. by apply ascii_eqb_eq in Es as ->.
  - rewrite bool_decide_false; [done|]. rewrite last_snoc. intros [H|[= ->]]; [by destruct s|done].
Qed.

(** A line that is typed.  Whatever the commands, up to 1023 keys without tab, question
    mark and escape give back the line that they spell, where a backspace takes back a
    character and spaces at the start or behind a space do not count; a line without these
    comes back as it is. *)
Theorem cli_typed_line moves cmds keys : forallb plain keys = true → (length keys < ORCM_MAX_CLI_LENGTH)%nat →
  orcm_cli_get_cmd moves cmds (keys ++ [NL]) = Some (ORCM_SUCCESS, foldl push [] keys) ∧
  (clean true keys = true → foldl push [] keys = keys).
Proof.
  intros Hk Hl. split.
  - destruct (type_line moves cmds keys [] fresh Hk) as (p & Hr & E); [done|done|constructor|].
    unfold orcm_cli_get_cmd. rewrite E. cbn. by rewrite Hr.
  - intros Hc. by apply (push_clean keys []).
Qed.

Lemma cli_typed_line_witness :
  orcm_cli_get_cmd false [] (lit "queue statuz" ++ [BS] ++ lit "s" ++ [NL]) = Some (ORCM_SUCCESS, lit "queue status").
Proof. apply (cli_typed_line false [] (lit "queue statuz" ++ [BS] ++ lit "s")); [done|cbn; unfold ORCM_MAX_CLI_LENGTH; lia]. Defined.

(** ** Pointers to freed arrays *)

Lemma enter_dead q : inputlist q = P_dead → press_enter q = None.
Proof. intros Hq. unfold press_enter. rewrite Hq. by destruct (input_string q). Qed.

Lemma input_string_is p s : input_string p = Some s → s = c_text (text p).
Proof. unfold input_string. destruct (_ || _); congruence. Qed.

Lemma after_freed moves words : words ≠ [] → after moves words F_freed = P_dead.
Proof. by destruct words. Qed.

Lemma tab_dead moves cmds p completions r q : words_of (c_text (text p)) ≠ [] →
  get_completions cmds (words_of (c_text (text p))) = Some (r, completions, F_freed) → length completions ≠ 1%nat →
  press_tab moves cmds p = Some q → inputlist q = P_dead.
Proof.
  intros Hw E Hn. unfold press_tab. destruct (input_string p) as [s|] eqn:Es; [|done].
  apply input_string_is in Es as ->. cbn [mbind option_bind]. rewrite E. cbn [mbind option_bind]. rewrite after_freed by done.
  destruct (r =? ORCM_ERR_NOT_FOUND); [by intros [= <-]|].
  destruct completions as [|c [|d l]]; [by intros [= <-]|done|].
  destruct (bool_decide _); [by intros [= <-]|]. destruct (put _ _); [|done]. cbn [mbind option_bind].
  destruct (input_string _); [|done]. by intros [= <-].
Qed.

(** After a tab on a word that several commands start with, or none, the array of the words
    is freed once more when the line is entered. *)
Theorem tab_then_enter moves cmds p completions r : words_of (c_text (text p)) ≠ [] →
  get_completions cmds (words_of (c_text (text p))) = Some (r, completions, F_freed) → length completions ≠ 1%nat →
  type moves cmds [TAB; NL] p = None.
Proof.
  intros Hw E Hn. change (type moves cmds [TAB; NL] p) with
    (p ← press_tab moves cmds p; if (rc p =? ORCM_SUCCESS) || (rc p =? ORCM_ERR_NOT_FOUND) then press_enter p else press_enter p).
  destruct (press_tab moves cmds p) as [q|] eqn:Et; [|done]. cbn [mbind option_bind].
  pose proof (enter_dead q (tab_dead _ _ _ _ _ q Hw E Hn Et)) as ->. by destruct (_ || _).
Qed.

(** The same after a question mark on such a word. *)
Theorem query_then_enter moves cmds p lines r : words_of (c_text (text p)) ≠ [] →
  print_completions cmds (words_of (c_text (text p))) = Some (r, lines, F_freed) → type moves cmds [QUERY; NL] p = None.
Proof.
  intros Hw E. change (type moves cmds [QUERY; NL] p) with (p ← press_query moves cmds p; press_enter p).
  unfold press_query. destruct (inputlist p); [| |done].
  all: destruct (input_string p) as [s|] eqn:Es; [|done]; apply input_string_is in Es as ->; cbn [mbind option_bind]; rewrite E.
  all: cbn [mbind option_bind]; apply enter_dead; cbn; by apply after_freed.
Qed.

(** ** The tab key *)

(** The line before its last word. *)
Definition lead (path : list cstring) : cstring := match path with [] => [] | _ => join_ref SPACE path ++ [SPACE] end.

Lemma join_snoc path w : join_ref SPACE (path ++ [w]) = lead path ++ w.
Proof.
  destruct path as [|s l]; cbn; [by rewrite app_nil_r|]. rewrite fmap_app, concat_app. cbn. by rewrite app_nil_r, <-!app_assoc.
Qed.

(** A word of a line. *)
Definition word_ok (w : cstring) : Prop := w ≠ [] ∧ no_char SPACE w ∧ no_char NUL w.

Lemma join_no_nul words : Forall word_ok words → no_char NUL (join_ref SPACE words).
Proof.
  intros Hw. unfold no_char. destruct words as [|s l]; [constructor|]. apply Forall_cons in Hw as [[_ [_ Hs]] Hl]. cbn.
  apply Forall_app. split; [done|]. apply Forall_concat. apply Forall_fmap. eapply Forall_impl; [exact Hl|].
  intros v (_ & _ & Hv). cbn. by constructor.
Qed.

Lemma words_of_join words : Forall word_ok words → words_of (join_ref SPACE words) = words.
Proof.
  intros Hw. unfold words_of, opal_argv_split, opal_argv_split_inter. rewrite split_loop_join.
  - by destruct words.
  - eapply Forall_impl; [exact Hw|]. intros v (H1 & H2 & _). by split.
  - lia.
Qed.

Lemma last_app_ne {A} (l w : list A) : w ≠ [] → last (l ++ w) = last w.
Proof. intros Hw. destruct (exists_last Hw) as (w' & x & ->). by rewrite app_assoc, !last_snoc. Qed.

(** One completion: the last word becomes it, and a space is added. *)
Lemma tab_one moves cmds p path w c f : Forall word_ok (path ++ [w]) → text p = join_ref SPACE (path ++ [w]) →
  get_completions cmds (path ++ [w]) = Some (ORCM_SUCCESS, [c], f) → starts c w = true →
  (length (join_ref SPACE (path ++ [c])) < ORCM_MAX_CLI_LENGTH)%nat →
  press_tab moves cmds p = Some (mk_prompt (join_ref SPACE (path ++ [c]) ++ [SPACE]) true P_live ORCM_SUCCESS (screen p)).
Proof.
  intros Hw Ht Hc Hs Hl. pose proof (join_no_nul _ Hw) as Hn. rewrite !join_snoc in *.
  assert (word_ok w) as (Hne & Hsp & _) by (rewrite Forall_app, Forall_singleton in Hw; apply Hw).
  assert (length w ≤ length c)%nat as Hlen.
  { apply bool_decide_eq_true in Hs. apply (f_equal length) in Hs. rewrite length_take in Hs. lia. }
  unfold press_tab, input_string. rewrite Ht, no_nul_text by done. rewrite !length_app in Hl |- *.
  destruct (Nat.ltb_spec (length (lead path) + length w) ORCM_MAX_CLI_LENGTH); [|lia]. cbn [orb mbind option_bind].
  rewrite <-join_snoc, words_of_join by done. rewrite Hc. cbn [mbind option_bind]. cbn [Z.eqb ORCM_SUCCESS].
  unfold complete_one. cbn [text]. rewrite join_snoc, (last_app_ne (lead path) w Hne).
  destruct (exists_last Hne) as (w' & x & Ew). assert (last w = Some x) as -> by (by rewrite Ew, last_snoc). cbn [mbind option_bind].
  assert (ascii_eqb x SPACE = false) as ->.
  { apply ascii_eqb_neq. rewrite Ew in Hsp. unfold no_char in Hsp. rewrite Forall_app, Forall_singleton in Hsp. apply Hsp. }
  rewrite last_snoc. cbn [mbind option_bind]. rewrite Hs. unfold put. cbn [text inputlist rc screen].
  assert ((lead path ++ w) ++ drop (length w) c ++ [SPACE] = (lead path ++ c) ++ [SPACE]) as ->.
  { rewrite <-!app_assoc. f_equal. rewrite app_assoc. f_equal. apply bool_decide_eq_true in Hs. rewrite <-Hs at 1. apply take_drop. }
  rewrite !length_app. cbn [length].
  destruct (Nat.leb_spec (length (lead path) + length c + 1) ORCM_MAX_CLI_LENGTH); [|lia]. cbn [mbind option_bind].
  unfold after. by destruct (path ++ [w]) eqn:E; [by destruct path|].
Qed.

Lemma matches_start l w c : c ∈ matches l w → starts c w = true.
Proof. intros Hc. by apply list_elem_of_filter in Hc as [? _]. Qed.

(** C21. Completions.  In a tree where a command whose name extends another's comes after it,
    at the level that the words before lead to: the completions of a last word that is not a
    command are exactly the commands of the level that start with it, in their order, and an
    error when there is none; when every word is a command, they are all commands below.  A tab after a word with one
    completion replaces the word by it, with a space behind it. *)
Theorem cli_completions cmds path l : level_ok cmds = true → forallb orderly cmds = true → level_at cmds path = Some l →
  (∃ f, get_completions cmds path = Some (ORCM_SUCCESS, names l, f)) ∧
  ∀ w, (∀ c, c ∈ l → cmd c ≠ Some w) →
    get_completions cmds (path ++ [w]) =
      Some (if bool_decide (matches l w = []) then ORCM_ERR_NOT_FOUND else ORCM_SUCCESS, matches l w, F_freed) ∧
    ∀ c moves p, matches l w = [c] → Forall word_ok (path ++ [w]) → text p = join_ref SPACE (path ++ [w]) →
      (length (join_ref SPACE (path ++ [c])) < ORCM_MAX_CLI_LENGTH)%nat →
      press_tab moves cmds p = Some (mk_prompt (join_ref SPACE (path ++ [c]) ++ [SPACE]) true P_live ORCM_SUCCESS (screen p)).
Proof.
  intros Hok Ho Hl. destruct (completions_at cmds path l Hok Ho Hl) as [H1 H2]. split; [done|].
  intros w Hw. split; [by apply H2|]. intros c moves p Hm Hok' Ht Hlen.
  eapply (tab_one moves cmds p path w c F_freed); [done|done| |apply (matches_start l); rewrite Hm; set_solver|done].
  rewrite (H2 w Hw), Hm. done.
Qed.

Definition leaf (name : string) : orcm_cli_cmd_t := mk_cmd (Some (lit name)) [] None [].

Definition sample_tree : list orcm_cli_cmd_t := [mk_cmd (Some (lit "get")) [] None [leaf "mode"; leaf "modes"; leaf "window"]; leaf "set"].

Definition half_typed : prompt_t := mk_prompt (lit "get w") false P_null ORCM_SUCCESS [].

Lemma cli_completions_witness :
  press_tab false sample_tree half_typed = Some (mk_prompt (lit "get window ") true P_live ORCM_SUCCESS []).
Proof.
  destruct (cli_completions sample_tree [lit "get"] [leaf "mode"; leaf "modes"; leaf "window"]) as [_ H]; [done|done|done|].
  destruct (H (lit "w")) as [_ Ht]; [intros c Hc; repeat (apply elem_of_cons in Hc as [->|Hc]; [done|]); by apply elem_of_nil in Hc|].
  apply (Ht (lit "window") false half_typed); [done| |done|by apply Nat.ltb_lt].
  repeat constructor; try done; discriminate.
Defined.

End Cli.
