(* ===== verification/OctlRun.v ===== *)
(** * The octl tool (orcm/tools/octl/octl.c, octl.h)

    The commands of the tool as a table for the prompt, and the function that calls the
    handler of a command line.  The handlers are those of the other files; how they reach the
    scheduler, the daemons of the sensors and those of the diagnostics are arguments. *)

From Stdlib Require Import ZArith Lia Ascii.
From stdpp Require Import prelude numbers strings gmap list.
From S2P Require Import Prelude CString Argv Dss Scd ScdPower Octl Sensor OctlSensor Diag Cli.

Local Open Scope Z_scope.

Module OctlRun.
Import Argv Dss ScdPower Octl OctlSensor Diag Cli.

Definition ORCM_ERR_NOT_IMPLEMENTED : Z := -7.

(** ** The tables (octl.h) *)

Definition entry (parent : list string) (cmd : string) (nargs : Z) (help : string) : orcm_cli_init_t :=
  mk_init (lit <$> parent) (Some (lit cmd)) false nargs (Some (lit help)).

Definition cli_init : list orcm_cli_init_t :=
  [ entry [] "resource" 0 "Resource Information";
   entry ["resource"] "status" 0 "Resource Status";
   entry ["resource"] "add" 1 "Resource Addition";
   entry ["resource"] "remove" 1 "Resource Removal";
   entry ["resource"] "drain" 1 "Resource Drain";
   entry ["resource"] "resume" 1 "Resource Resume";
   entry [] "queue" 0 "Queue Information";
   entry ["queue"] "status" 0 "Queue Status";
   entry ["queue"] "policy" 0 "Queue Policies";
   entry ["queue"] "define" 2 "Queue Definintion";
   entry ["queue"] "add" 2 "Add Resource to Queue";
   entry ["queue"] "remove" 2 "Remove Resource from Queue";
   entry ["queue"] "acl" 2 "Queue Access Control";
   entry ["queue"] "priority" 2 "Queue Priority Modification";
   entry [] "session" 0 "Session Management";
   entry ["session"] "status" 0 "Session Status";
   entry ["session"] "cancel" 1 "Session Cancel [arg: session id]";
   entry ["session"] "set" 0 "Set Session Power Policy";
   entry ["session"; "set"] "budget" 2 "Set Session Power Budget";
   entry ["session"] "get" 0 "Get Session Power Policy";
   entry ["session"; "set"] "mode" 2 "Set Session Power Mode";
   entry ["session"; "set"] "window" 2 "Set Session Power Window";
   entry ["session"; "set"] "overage" 2 "Set Session Power Overage Limit";
   entry ["session"; "set"] "underage" 2 "Set Session Power Underage Limit";
   entry ["session"; "set"] "overage_time" 2 "Set Session Power Overage Time Limit";
   entry ["session"; "set"] "underage_time" 2 "Set Session Power Underage Time Limit";
   entry ["session"; "set"] "frequency" 2 "Set Session Manual Frequency";
   entry ["session"; "set"] "strict" 2 "Set Session Strictness Policy For Frequency Settings";
   entry ["session"; "get"] "budget" 1 "Get Session Power Budget";
   entry ["session"; "get"] "mode" 1 "Get Session Power Mode";
   entry ["session"; "get"] "modes" 0 "Get List of Power Modes";
   entry ["session"; "get"] "window" 1 "Get Session Power Window";
   entry ["session"; "get"] "overage" 1 "Get Session Power Overage Limit";
   entry ["session"; "get"] "underage" 1 "Get Session Power Underage Limit";
   entry ["session"; "get"] "overage_time" 1 "Get Session Power Overage Time Limit";
   entry ["session"; "get"] "underage_time" 1 "Get Session Power Underage Time Limit";
   entry ["session"; "get"] "frequency" 1 "Get Session Manual Frequency";
   entry ["session"; "get"] "strict" 1 "Get Session Strictness Policy For Frequency Settings";
   entry [] "diag" 0 "Diagnostics";
   entry ["diag"] "cpu" 1 "CPU diagnostics";
   entry ["diag"] "eth" 1 "Ethernet diagnostics";
   entry ["diag"] "mem" 1 "Memory diagnostics";
   entry [] "sensor" 0 "sensor";
   entry ["sensor"] "set" 0 "Set Sensor Commands";
   entry ["sensor"; "set"] "sample-rate" 3 "Set Sensor Sample Rate: set sample-rate <sensor-name> <sample-rate> <node-name>";
   entry ["sensor"; "set"] "policy" 8 "Set Sensor Event Policy, sensor set policy node sensor_name threshold hi/lo max_count time_window severity action";
   entry ["sensor"] "get" 0 "Get Sensor Commands";
   entry ["sensor"; "get"] "sample-rate" 2 "Get Sensor Sample Rate: get sample-rate <sensor-name> <node-name>";
   entry ["sensor"; "get"] "policy" 1 "Get Sensor Event Policy";
   entry [] "power" 0 "Global Power Policy";
   entry ["power"] "set" 0 "Set Power Policy";
   entry ["power"; "set"] "budget" 1 "Set Global Power Budget";
   entry ["power"; "set"] "mode" 1 "Set Default Power Mode";
   entry ["power"; "set"] "window" 1 "Set Default Power Window";
   entry ["power"; "set"] "overage" 1 "Set Default Power Overage Limit";
   entry ["power"; "set"] "underage" 1 "Set Default Power Underage Limit";
   entry ["power"; "set"] "overage_time" 1 "Set Default Power Overage Time Limit";
   entry ["power"; "set"] "underage_time" 1 "Set Default Power Underage Time Limit";
   entry ["power"; "set"] "frequency" 1 "Set Default Manual Frequency";
   entry ["power"; "set"] "strict" 1 "Set Strictness Policy For Frequency Settings";
   entry ["power"] "get" 0 "Get Power Policy";
   entry ["power"; "get"] "budget" 0 "Get Global Power Budget";
   entry ["power"; "get"] "mode" 0 "Get Default Power Mode";
   entry ["power"; "get"] "modes" 0 "Get List of Power Modes";
   entry ["power"; "get"] "window" 0 "Get Default Power Window";
   entry ["power"; "get"] "overage" 0 "Get Default Power Overage Limit";
   entry ["power"; "get"] "underage" 0 "Get Default Power Underage Limit";
   entry ["power"; "get"] "overage_time" 0 "Get Default Power Overage Time Limit";
   entry ["power"; "get"] "underage_time" 0 "Get Default Power Underage Time Limit";
   entry ["power"; "get"] "frequency" 0 "Get Default Manual Frequency";
   entry ["power"; "get"] "strict" 0 "Get Strictness Policy For Frequency Settings";
   mk_init [] None false 0 None].

(** The last string is empty; there is no NULL behind it. *)
Definition orcm_octl_commands : list cstring := lit <$>
  ["resource"; "queue"; "session"; "diag"; "status"; "add"; "remove"; "drain"; "policy"; "define"; "acl"; "priority"; "cancel";
   "cpu"; "mem"; "power"; "set"; "get"; "resume"; "eth"; "budget"; "mode"; "window"; "overage"; "underage"; "overage_time";
   "underage_time"; "frequency"; "modes"; "strict"; "sensor"; "sample-rate"; ""]%string.

(** ** Commands (octl.c) *)

(** The call of a handler, with the command that it is given. *)
Inductive handler :=
  | H_resource_status | H_resource_add | H_resource_remove | H_resource_drain | H_resource_resume
  | H_queue_status | H_queue_policy | H_queue_define | H_queue_add | H_queue_remove | H_queue_acl | H_queue_priority
  | H_session_status | H_session_cancel | H_session_set (cmd : Z) | H_session_get (cmd : Z)
  | H_power_set (cmd : Z) | H_power_get (cmd : Z)
  | H_diag_cpu | H_diag_eth | H_diag_mem
  | H_sensor_policy_set (cmd : Z) | H_sensor_sample_rate_set (cmd : Z)
  | H_sensor_policy_get (cmd : Z) | H_sensor_sample_rate_get (cmd : Z).

(** What a command line comes to: a message, nothing at all, or a call. *)
Inductive outcome := No_command | Unknown | Illegal | Silent | Call (h : handler).

(** What the variable [rc] holds. *)
Definition verdict_t := (outcome * Z)%type.

Section run.
(** The strings that lie in memory behind the table, up to a NULL: the table is searched
    through them. *)
Context (beyond : list cstring).

Fixpoint index_of (command : cstring) (l : list cstring) (i : Z) : Z :=
  match l with
  | [] => -1
  | s :: rest => if strcmp command s =? 0 then i else index_of command rest (i + 1)
  end.

Definition octl_command_to_int (command : option cstring) : Z :=
  match command with None => -1 | Some c => index_of c (orcm_octl_commands ++ beyond) 0 end.

(** [Call] with a result to be filled in by the handler. *)
Definition calls (h : handler) : verdict_t := (Call h, 0).

Definition resource_cmd (rc : Z) : verdict_t :=
  if rc =? 4 then calls H_resource_status
  else if rc =? 5 then calls H_resource_add
  else if rc =? 6 then calls H_resource_remove
  else if rc =? 7 then calls H_resource_drain
  else if rc =? 18 then calls H_resource_resume
  else (Illegal, rc).

Definition queue_cmd (rc : Z) : verdict_t :=
  if rc =? 4 then calls H_queue_status
  else if rc =? 8 then calls H_queue_policy
  else if rc =? 9 then calls H_queue_define
  else if rc =? 5 then calls H_queue_add
  else if rc =? 6 then calls H_queue_remove
  else if rc =? 10 then calls H_queue_acl
  else if rc =? 11 then calls H_queue_priority
  else (Illegal, rc).

(** The settings of the cases 20 to 27 and 29. *)
Definition setting_of (rc : Z) : option power_item :=
  if rc =? 20 then Some BUDGET else if rc =? 21 then Some MODE else if rc =? 22 then Some WINDOW
  else if rc =? 23 then Some OVERAGE else if rc =? 24 then Some UNDERAGE else if rc =? 25 then Some OVERAGE_TIME
  else if rc =? 26 then Some UNDERAGE_TIME else if rc =? 27 then Some FREQUENCY else if rc =? 29 then Some STRICT else None.

Definition set_cmd (set : Z → handler) (rc : Z) : verdict_t :=
  if rc =? -1 then (Unknown, rc) else
  match setting_of rc with Some i => calls (set (set_command i)) | None => (Illegal, rc) end.

Definition get_cmd (get : Z → handler) (rc : Z) : verdict_t :=
  if rc =? -1 then (Unknown, rc) else
  if rc =? 28 then calls (H_power_get ORCM_GET_POWER_MODES_COMMAND) else
  match setting_of rc with Some i => calls (get (get_command i)) | None => (Illegal, rc) end.

Definition session_cmd (third rc : Z) : verdict_t :=
  if rc =? 4 then calls H_session_status
  else if rc =? 12 then calls H_session_cancel
  else if rc =? 16 then set_cmd H_session_set third
  else if rc =? 17 then get_cmd H_session_get third
  else (Illegal, rc).

Definition diag_cmd (rc : Z) : verdict_t :=
  if rc =? 13 then calls H_diag_cpu
  else if rc =? 19 then calls H_diag_eth
  else if rc =? 14 then calls H_diag_mem
  else (Illegal, rc).

(** There is no default case. *)
Definition power_cmd (third rc : Z) : verdict_t :=
  if rc =? 16 then set_cmd H_power_set third
  else if rc =? 17 then get_cmd H_power_get third
  else (Silent, rc).

Definition sensor_cmd (third rc : Z) : verdict_t :=
  if rc =? 16 then
    if third =? -1 then (Unknown, third)
    else if third =? 8 then calls (H_sensor_policy_set Sensor.ORCM_SET_SENSOR_POLICY_COMMAND)
    else if third =? 31 then calls (H_sensor_sample_rate_set Sensor.ORCM_SET_SENSOR_SAMPLE_RATE_COMMAND)
    else (Illegal, third)
  else if rc =? 17 then
    if third =? -1 then (Unknown, third)
    else if third =? 8 then calls (H_sensor_policy_get Sensor.ORCM_GET_SENSOR_POLICY_COMMAND)
    else if third =? 31 then calls (H_sensor_sample_rate_get Sensor.ORCM_GET_SENSOR_SAMPLE_RATE_COMMAND)
    else (Illegal, third)
  else (Illegal, rc).

(** The words of the line; a word that is missing is NULL. *)
Definition dispatch (cmdlist : list cstring) : verdict_t :=
  let word i := octl_command_to_int (cmdlist !! i) in
  let second (f : Z → verdict_t) := if word 1%nat =? -1 then (Unknown, ORCM_ERROR) else f (word 1%nat) in
  if bool_decide (cmdlist = []) then (No_command, ORCM_ERROR) else
  let rc := word 0%nat in
  if rc =? -1 then (Unknown, ORCM_ERROR)
  else if rc =? 0 then second resource_cmd
  else if rc =? 1 then second queue_cmd
  else if rc =? 2 then second (session_cmd (word 2%nat))
  else if rc =? 3 then second diag_cmd
  else if rc =? 15 then second (power_cmd (word 2%nat))
  else if rc =? 30 then second (sensor_cmd (word 2%nat))
  else (Illegal, ORCM_ERROR).

(** ** Running a command *)

Context `{FloatText} (atof : cstring → Z) (fuel : nat) {W : Type}.
Context (scheduler : Z → opal_buffer_t → W → option (W * (Z + opal_buffer_t))).
Context (sensors diags : cstring → opal_buffer_t → W → option (W * (Z + opal_buffer_t))).

Definition code {A} (r : option (W * (Z + A))) : option (W * Z) :=
  '(w, x) ← r; Some (w, match x with inl rc => rc | inr _ => ORCM_SUCCESS end).

Definition call (h : handler) (argv : list cstring) (w : W) : option (W * Z) :=
  match h with
  | H_resource_status => code (orcm_octl_resource_status scheduler w)
  | H_resource_drain => code (orcm_octl_resource_drain scheduler argv w)
  | H_resource_resume => code (orcm_octl_resource_resume scheduler argv w)
  | H_queue_status => code (orcm_octl_queue_status scheduler w)
  | H_session_cancel => code (orcm_octl_session_cancel scheduler argv w)
  | H_session_set cmd => code (orcm_octl_session_set scheduler cmd argv w)
  | H_session_get cmd => code (orcm_octl_session_get scheduler cmd argv w)
  | H_power_set cmd => code (orcm_octl_power_set scheduler cmd argv w)
  | H_power_get cmd => code (orcm_octl_power_get scheduler cmd argv w)
  | H_diag_cpu => code (orcm_octl_diag_cpu diags argv w)
  | H_diag_eth => code (orcm_octl_diag_eth diags argv w)
  | H_diag_mem => code (orcm_octl_diag_mem diags argv w)
  | H_sensor_policy_set cmd => code (orcm_octl_sensor_policy_set atof sensors cmd argv w)
  | H_sensor_sample_rate_set cmd => code (orcm_octl_sensor_sample_rate_set sensors cmd argv w)
  | H_sensor_policy_get cmd => code (orcm_octl_sensor_policy_get sensors fuel cmd argv w)
  | H_sensor_sample_rate_get cmd => code (orcm_octl_sensor_sample_rate_get sensors cmd argv w)
  | H_resource_add | H_resource_remove | H_queue_policy | H_queue_define | H_queue_add | H_queue_remove | H_queue_acl
  | H_queue_priority | H_session_status => Some (w, ORCM_ERR_NOT_IMPLEMENTED)
  end.

Definition run_cmd (cmd : option cstring) (w : W) : option (W * Z) :=
  let cmdlist := match cmd with Some s => words_of s | None => [] end in
  match dispatch cmdlist with
  | (Call h, _) => call h cmdlist w
  | (_, rc) => Some (w, rc)
  end.

(** What is left of the options is the command; without any, it is read at the prompt. *)
Definition orcm_octl_init (moves : bool) (tailv : list cstring) (keys : list ascii) (w : W) : option (W * Z) :=
  match tailv with
  | [] =>
    '(cli, _) ← orcm_cli_create (Some []) (Some cli_init);
    cmds ← cli;
    '(_, mycmd) ← orcm_cli_get_cmd moves cmds keys;
    run_cmd (Some mycmd) w
  | _ => run_cmd (opal_argv_join (Some tailv) SPACE) w
  end.
End run.

(** ** What the commands call *)

Definition item_names : list (string * power_item) :=
  [("budget", BUDGET); ("mode", MODE); ("window", WINDOW); ("overage", OVERAGE); ("underage", UNDERAGE);
   ("overage_time", OVERAGE_TIME); ("underage_time", UNDERAGE_TIME); ("frequency", FREQUENCY); ("strict", STRICT)]%string.

(** Every command of the tool, its handler and the number of its arguments. *)
Definition octl_handlers : list (list string * handler * Z) :=
  ([(["resource"; "status"], H_resource_status, 0); (["resource"; "add"], H_resource_add, 1);
    (["resource"; "remove"], H_resource_remove, 1); (["resource"; "drain"], H_resource_drain, 1);
    (["resource"; "resume"], H_resource_resume, 1);
    (["queue"; "status"], H_queue_status, 0); (["queue"; "policy"], H_queue_policy, 0);
    (["queue"; "define"], H_queue_define, 2); (["queue"; "add"], H_queue_add, 2); (["queue"; "remove"], H_queue_remove, 2);
    (["queue"; "acl"], H_queue_acl, 2); (["queue"; "priority"], H_queue_priority, 2);
    (["session"; "status"], H_session_status, 0); (["session"; "cancel"], H_session_cancel, 1);
    (["session"; "get"; "modes"], H_power_get ORCM_GET_POWER_MODES_COMMAND, 0);
    (["power"; "get"; "modes"], H_power_get ORCM_GET_POWER_MODES_COMMAND, 0);
    (["diag"; "cpu"], H_diag_cpu, 1); (["diag"; "eth"], H_diag_eth, 1); (["diag"; "mem"], H_diag_mem, 1);
    (["sensor"; "set"; "sample-rate"], H_sensor_sample_rate_set Sensor.ORCM_SET_SENSOR_SAMPLE_RATE_COMMAND, 3);
    (["sensor"; "set"; "policy"], H_sensor_policy_set Sensor.ORCM_SET_SENSOR_POLICY_COMMAND, 8);
    (["sensor"; "get"; "sample-rate"], H_sensor_sample_rate_get Sensor.ORCM_GET_SENSOR_SAMPLE_RATE_COMMAND, 2);
    (["sensor"; "get"; "policy"], H_sensor_policy_get Sensor.ORCM_GET_SENSOR_POLICY_COMMAND, 1)]%string ++
   ((λ '(n, i), (["session"; "set"; n]%string, H_session_set (set_command i), 2)) <$> item_names) ++
   ((λ '(n, i), (["session"; "get"; n]%string, H_session_get (get_command i), 1)) <$> item_names) ++
   ((λ '(n, i), (["power"; "set"; n]%string, H_power_set (set_command i), 1)) <$> item_names) ++
   ((λ '(n, i), (["power"; "get"; n]%string, H_power_get (get_command i), 0)) <$> item_names)).

Definition words (l : list string) : list cstring := lit <$> l.

(** The tree that the table makes. *)
Definition octl_tree : list orcm_cli_cmd_t := match create_loop [] cli_init with Some (l, _) => l | None => [] end.

Lemma octl_tree_ok : orcm_cli_create (Some []) (Some cli_init) = Some (Some octl_tree, ORCM_SUCCESS).
Proof. vm_compute. reflexivity. Qed.

(** An entry of the table that no other is below. *)
Definition is_leaf (e : orcm_cli_init_t) : bool :=
  match init_cmd e with
  | None => false
  | Some c => negb (existsb (λ d, bool_decide (parent d = parent e ++ [c])) cli_init)
  end.

Definition entry_path (e : orcm_cli_init_t) : list cstring := parent e ++ option_list (init_cmd e).

Lemma dispatch_handlers beyond args : Forall (λ '(path, h, _), dispatch beyond (words path ++ args) = (Call h, 0)) octl_handlers.
Proof. repeat (constructor; [vm_compute; reflexivity|]). constructor. Qed.

Lemma leaf_handled e : e ∈ cli_init → is_leaf e = true → ∃ path h, (path, h, nargs e) ∈ octl_handlers ∧ words path = entry_path e.
Proof.
  intros He Hl.
  assert (forallb (λ e, negb (is_leaf e) || existsb (λ x, bool_decide (words x.1.1 = entry_path e) && (x.2 =? nargs e)) octl_handlers) cli_init = true)
    as H by (vm_compute; reflexivity).
  rewrite forallb_forall in H. specialize (H e (proj1 (list_elem_of_In _ _) He)). rewrite Hl in H. cbn [negb orb] in H.
  apply existsb_exists in H as ([[path h] n] & Hin & H). apply andb_true_iff in H as [H1 H2].
  apply bool_decide_eq_true in H1. apply Z.eqb_eq in H2. cbn in H1, H2. subst n. exists path, h. split; [|done]. by apply list_elem_of_In.
Qed.

(** ** Lines *)

(** A character of a word that can be typed. *)
Definition key_ok (c : ascii) : bool := plain c && negb (ascii_eqb c SPACE || ascii_eqb c BS || ascii_eqb c DEL).

Definition typable (w : cstring) : bool := negb (bool_decide (w = [])) && forallb key_ok w.

Lemma key_ok_cases c : key_ok c = true → plain c = true ∧ ascii_eqb c SPACE = false ∧ ascii_eqb c BS || ascii_eqb c DEL = false.
Proof. unfold key_ok. rewrite andb_true_iff, negb_true_iff, !orb_false_iff. intros (? & [? ?] & ?). done. Qed.

Lemma typable_word w : typable w = true → word_ok w.
Proof.
  unfold typable, word_ok, no_char. rewrite andb_true_iff, negb_true_iff, bool_decide_eq_false, forallb_forall. intros [Hne Hw].
  split; [done|]. split; apply Forall_forall; intros c Hc; destruct (key_ok_cases c) as (Hp & Hs & _);
    try by apply Hw, list_elem_of_In.
  - by apply ascii_eqb_neq.
  - apply (plain_cases c Hp).
Qed.

Lemma clean_word b w rest : forallb key_ok w = true → w ≠ [] → clean b (w ++ rest) = clean false rest.
Proof.
  intros Hw Hne. destruct w as [|c w]; [done|]. clear Hne. revert c b Hw. induction w as [|d w IH]; intros c b Hw; cbn in Hw;
    apply andb_true_iff in Hw as [Hc Hw]; destruct (key_ok_cases c Hc) as (_ & H1 & H2); cbn; rewrite H1, H2; [done|]. by apply (IH d false).
Qed.

Lemma line_ok l : forallb typable l = true → forallb plain (join_ref SPACE l) = true ∧ clean true (join_ref SPACE l) = true.
Proof.
  assert (∀ w, typable w = true → forallb key_ok w = true ∧ w ≠ [] ∧ forallb plain w = true) as Hw.
  { intros w. unfold typable. rewrite andb_true_iff, negb_true_iff, bool_decide_eq_false. intros [Hne Hk]. split_and!; [done|done|].
    rewrite forallb_forall in Hk |- *. intros c Hc. by apply key_ok_cases, Hk. }
  assert (∀ l, forallb typable l = true → forallb plain (concat ((SPACE ::.) <$> l)) = true ∧
    clean false (concat ((SPACE ::.) <$> l)) = true) as Htail.
  { clear l. induction l as [|w l IH]; [done|]. cbn [forallb]. rewrite andb_true_iff. intros [H1 H2]. destruct (Hw w H1) as (Hk & Hne & Hp).
    destruct (IH H2) as [I1 I2]. cbn. rewrite forallb_app, Hp, I1. split; [done|]. by rewrite clean_word. }
  destruct l as [|w l]; [done|]. cbn [forallb]. rewrite andb_true_iff. intros [H1 H2]. destruct (Hw w H1) as (Hk & Hne & Hp).
  destruct (Htail l H2) as [I1 I2]. cbn. rewrite forallb_app, Hp, I1. split; [done|]. by rewrite clean_word.
Qed.

Lemma handlers_typable : Forall (λ x, forallb typable (words x.1.1) = true ∧ x.1.1 ≠ []) octl_handlers.
Proof. repeat (constructor; [split; [vm_compute; reflexivity|discriminate]|]). constructor. Qed.

Section lines.
Context (beyond : list cstring) `{FloatText} (atof : cstring → Z) (fuel : nat) {W : Type}.
Context (scheduler : Z → opal_buffer_t → W → option (W * (Z + opal_buffer_t))).
Context (sensors diags : cstring → opal_buffer_t → W → option (W * (Z + opal_buffer_t))).

Notation run := (run_cmd beyond atof fuel scheduler sensors diags).
Notation octl := (orcm_octl_init beyond atof fuel scheduler sensors diags).
Notation perform := (call atof fuel scheduler sensors diags).

Lemma run_line path h n args w : (path, h, n) ∈ octl_handlers → Forall word_ok (words path ++ args) →
  run (Some (join_ref SPACE (words path ++ args))) w = perform h (words path ++ args) w.
Proof.
  intros Hin Hw. unfold run_cmd. rewrite words_of_join by done.
  pose proof (dispatch_handlers beyond args) as Hd. rewrite Forall_forall in Hd. specialize (Hd _ Hin). cbn in Hd. by rewrite Hd.
Qed.

Lemma octl_tail moves tailv keys w : tailv ≠ [] → octl moves tailv keys w = run (Some (join_ref SPACE tailv)) w.
Proof. intros Ht. unfold orcm_octl_init. rewrite join_eq. by destruct tailv. Qed.

(** The command as the arguments of the tool. *)
Lemma octl_argv path h n args : (path, h, n) ∈ octl_handlers → forallb typable args = true →
  forallb typable (words path ++ args) = true ∧ Forall word_ok (words path ++ args) ∧
  ∀ moves keys w, octl moves (words path ++ args) keys w = perform h (words path ++ args) w.
Proof.
  intros Hin Hargs. pose proof handlers_typable as Ht. rewrite Forall_forall in Ht. destruct (Ht _ Hin) as [H1 H2]. cbn [fst snd] in H1, H2.
  assert (forallb typable (words path ++ args) = true) as Hok by (by rewrite forallb_app, H1).
  assert (Forall word_ok (words path ++ args)) as Hw.
  { apply Forall_forall. intros v Hv. apply typable_word. rewrite forallb_forall in Hok. by apply Hok, list_elem_of_In. }
  split_and!; [done|done|]. intros moves keys w. rewrite octl_tail; [by apply (run_line path h n)|]. by destruct path.
Qed.

(** C17. What octl runs.  Every command of the table that no other is below has a handler.
    Its words and any arguments, typed at the prompt or given on the command line, make the
    tool call that handler with exactly these words, whatever lies in memory behind the table
    of the names. *)
Theorem octl_runs_commands :
  (∀ e, e ∈ cli_init → is_leaf e = true → ∃ path h, (path, h, nargs e) ∈ octl_handlers ∧ words path = entry_path e) ∧
  ∀ path h n args, (path, h, n) ∈ octl_handlers → forallb typable args = true → ∀ w,
    let argv := words path ++ args in
    (∀ keys moves, octl moves argv keys w = perform h argv w) ∧
    ((length (join_ref SPACE argv) < ORCM_MAX_CLI_LENGTH)%nat → ∀ moves,
      octl moves [] (join_ref SPACE argv ++ [NL]) w = perform h argv w).
Proof.
  split; [apply leaf_handled|]. intros path h n args Hin Hargs w argv.
  destruct (octl_argv path h n args Hin Hargs) as (Hok & Hw & Hrun). split.
  - intros keys moves. apply Hrun.
  - intros Hl moves. destruct (line_ok argv Hok) as [Hp Hc].
    destruct (type_line moves octl_tree (join_ref SPACE argv) [] fresh Hp) as (p & Hr & E); [done|cbn; lia|constructor|].
    unfold orcm_octl_init. rewrite octl_tree_ok. cbn [mbind option_bind]. unfold orcm_cli_get_cmd. rewrite E. cbn [mbind option_bind].
    rewrite push_clean by done. by apply (run_line path h n).
Qed.

(** Handlers that look at the number of their arguments. *)
Definition checks (h : handler) : bool :=
  match h with
  | H_resource_drain | H_resource_resume | H_session_cancel | H_session_set _ | H_session_get _ | H_power_set _ | H_power_get _
  | H_diag_cpu | H_diag_eth | H_diag_mem | H_sensor_policy_set _ | H_sensor_sample_rate_set _ | H_sensor_policy_get _
  | H_sensor_sample_rate_get _ => true
  | _ => false
  end.

Lemma argc_not (argv : list cstring) n z : length argv ≠ n → z = Z.of_nat n → negb (opal_argv_count (Some argv) =? z) = true.
Proof. intros Hn ->. unfold opal_argv_count. apply negb_true_iff, Z.eqb_neq. cbn. lia. Qed.

(** The number of words that a handler wants. *)
Definition wanted (h : handler) : nat :=
  match h with
  | H_session_set _ => 5 | H_session_get _ | H_power_set _ => 4 | H_sensor_policy_set _ => 11 | H_sensor_sample_rate_set _ => 6
  | H_sensor_policy_get _ => 4 | H_sensor_sample_rate_get _ => 5 | _ => 3
  end.

Lemma wrong_count h argv w : checks h = true → length argv ≠ wanted h → ∃ rc, perform h argv w = Some (w, rc) ∧ rc < 0.
Proof.
  intros Hc Hn. destruct h; try done; cbn [call wanted] in *;
    unfold orcm_octl_resource_drain, orcm_octl_resource_resume, change_resource, orcm_octl_session_cancel, orcm_octl_session_set,
      orcm_octl_session_get, orcm_octl_power_set, orcm_octl_power_get, orcm_octl_diag_cpu, orcm_octl_diag_eth, orcm_octl_diag_mem,
      start_test, orcm_octl_sensor_policy_set, orcm_octl_sensor_sample_rate_set, orcm_octl_sensor_policy_get,
      orcm_octl_sensor_sample_rate_get;
    rewrite (argc_not argv _ _ Hn) by done; eexists; (split; [reflexivity|done]).
Qed.

Lemma handlers_wanted : Forall (λ '(path, h, n), checks h = true → Z.of_nat (wanted h) = Z.of_nat (length path) + n) octl_handlers.
Proof. repeat (constructor; [done|]). constructor. Qed.

(** C40. Wrong arguments.  A command whose handler looks at the number of its arguments
    (those of [checks]: drain and resume of resources, cancel, set and get of sessions, set
    and get of power, the diagnostics, and set and get of sensor policies and rates), given
    on the command line of octl with another number of them than the table says, fails and
    reaches neither the scheduler nor a daemon.  The other handlers, the listings
    among them, do not look at that number. *)
Theorem octl_argument_count path h n args w : (path, h, n) ∈ octl_handlers → checks h = true → Z.of_nat (length args) ≠ n →
  forallb typable args = true → ∀ moves keys, ∃ rc, octl moves (words path ++ args) keys w = Some (w, rc) ∧ rc < 0.
Proof.
  intros Hin Hc Hn Hargs moves keys.
  pose proof handlers_wanted as Hw. rewrite Forall_forall in Hw. specialize (Hw _ Hin Hc). cbn in Hw.
  destruct (octl_argv path h n args Hin Hargs) as (_ & _ & ->). apply wrong_count; [done|]. rewrite length_app. unfold words. rewrite length_fmap. lia.
Qed.
End lines.

(** ** Words that are no commands *)

Lemma index_of_none command l : (∀ s, s ∈ l → strcmp command s ≠ 0) → ∀ i, index_of command l i = -1.
Proof.
  induction l as [|s l IH]; intros Hs i; cbn [index_of]; [done|]. destruct (Z.eqb_spec (strcmp command s) 0) as [E|_].
  - by destruct (Hs s); [set_solver|].
  - apply IH. set_solver.
Qed.

(** A first word that is no name, neither of the table nor of what lies behind it, is an
    error. *)
Theorem unknown_command beyond word rest : (∀ s, s ∈ orcm_octl_commands ++ beyond → strcmp word s ≠ 0) →
  dispatch beyond (word :: rest) = (Unknown, ORCM_ERROR).
Proof. intros Hs. unfold dispatch. rewrite bool_decide_false by done. cbn [lookup list_lookup octl_command_to_int]. by rewrite index_of_none. Qed.

(** A second word that is a name but no command there is reported, but the result is its
    place in the table: for the first name that is success. *)
Theorem illegal_command_succeeds beyond : dispatch beyond (words ["queue"; "resource"]%string) = (Illegal, ORCM_SUCCESS).
Proof. vm_compute. reflexivity. Qed.

(** Below power nothing is reported at all. *)
Theorem power_ignores beyond : dispatch beyond (words ["power"; "status"]%string) = (Silent, 4).
Proof. vm_compute. reflexivity. Qed.

(** A string that happens to lie behind the table makes its word a known one. *)
Theorem names_behind_the_table : dispatch [] (words ["help"]%string) = (Unknown, ORCM_ERROR) ∧
  dispatch (words ["help"]%string) (words ["help"]%string) = (Illegal, ORCM_ERROR).
Proof. by split; vm_compute. Qed.

(** ** Examples *)

#[local] Instance decimal : FloatText := {| printf_f := print_int; strtof := λ s, (strtol s).1 |}.

(** The tree is fit for completion. *)
Example octl_tree_orderly : level_ok octl_tree && forallb orderly octl_tree = true.
Proof. vm_compute. reflexivity. Qed.

(** A world that counts the requests to a scheduler that answers none. *)
Definition mute (tag : Z) (b : opal_buffer_t) (w : nat) : option (nat * (Z + opal_buffer_t)) := Some (S w, inl ORCM_ERROR).
Definition mute_node (n : cstring) (b : opal_buffer_t) (w : nat) : option (nat * (Z + opal_buffer_t)) := Some (S w, inl ORCM_ERROR).

Definition sample_octl : bool → list cstring → list ascii → nat → option (nat * Z) :=
  orcm_octl_init [] (λ s, (strtol s).1) 5 mute mute_node mute_node.

Lemma octl_runs_commands_witness : ∃ r, sample_octl false [] (lit "session cancel 12" ++ [NL]) 0%nat = r ∧
  code (orcm_octl_session_cancel mute (words ["session"; "cancel"; "12"]%string) 0%nat) = r.
Proof.
  destruct (octl_runs_commands [] (λ s, (strtol s).1) 5 mute mute_node mute_node) as [_ H].
  destruct (H ["session"; "cancel"]%string H_session_cancel 1 [lit "12"]) with (w := 0%nat) as [_ Ht].
  { by do 13 right; left. } { done. }
  eexists. split; [|reflexivity]. apply (Ht ltac:(by apply Nat.ltb_lt) false).
Defined.

Lemma octl_argument_count_witness : ∃ rc, sample_octl false (words ["session"; "cancel"]%string) [] 0%nat = Some (0%nat, rc) ∧ rc < 0.
Proof.
  apply (octl_argument_count [] (λ s, (strtol s).1) 5 mute mute_node mute_node ["session"; "cancel"]%string H_session_cancel 1 []);
    [by do 13 right; left|done|done|done].
Defined.

End OctlRun.
